(* ===== verification/_CoqProject ===== *)
-Q . S2P
Prelude.v
Bits.v
Phv.v
Parser.v
Executor.v
Gateway.v
Matcher.v
Pipeline.v
Switch.v
Server.v
Client.v
Controller.v
Configure.v
Topology.v
Headers.v
Actions.v
Tables.v
Stages.v
Levels.v
Distribution.v
Allocation.v
TableKey.v
Output.v
Gateways.v
Processors.v
Builder.v
Incremental.v
Json.v
File.v
Task.v
P4Names.v
P4Condition.v
P4Program.v
P4Print.v
Lexer.v
Reader.v
Grammar.v
Source.v
Conditions.v
Route.v
OldMemory.v
OldTables.v
OldParser.v
OldExecutor.v
OldSwitch.v
OldApi.v
OldCounter.v
OldPrograms.v
OldLexer.v
OldCompiler.v
OldPrint.v
OldGrammar.v
