(* ===== verification/Prelude.v ===== *)
(** * ipbm: a verification development for the ipbm reconfigurable switch

    ** The program

    ipbm is a software switch whose packet processing is set up at run time. The
    repository has four programs that work together:

    - the data plane (src/main.cpp, src/sw-src/dataplane, src/sw-src/api): a loop that
      receives packets and runs them through up to 12 processors, each of which parses,
      looks up tables and runs actions; and a gRPC server through which all of this is
      configured while it runs;
    - the controller (src/sw-src/controller): reads the files the compiler writes and
      makes the calls that configure the data plane and fill its tables;
    - the translator (src/rP4-compiler/p4r): from the output of the P4 compiler for the
      bmv2 switch to a program in the language rP4;
    - the compiler (src/rP4-compiler/rp4c): from a program in rP4 to the
      configuration of the processors, and from commands to entries of tables.

    Beside them is the switch they have replaced (src/ipbm-old/src): one program with its
    packet loop and its gRPC server, classes that set it up from inside for a switch, a
    router, a tunnel or a counter, and controllers that do so from outside; and the first
    compiler (src/rp4c-old), which prints the tree of a program as JSON.

    A packet takes this way: main.cpp receives it and builds a packet header vector
    (PHV); Pipeline::execute hands the PHV from processor to processor, starting with
    processor 0, until the next one is -1; a processor parses headers (parser.h),
    evaluates its gateway (gateway.h) to choose a table or another processor, looks the
    key of the packet up (matcher_c.h), runs the action that was found (executor.h), and
    the action determines the next processor; then main.cpp sends the packet through the
    ports it finds in the metadata. A configuration takes this way: the compiler lays
    headers out, numbers actions, tables and stages, merges empty stages, distributes the
    levels of the parser over the stages, gives tables memory and stages processors, and
    writes the result; the controller reads it and calls the client, whose messages the
    handlers of the server turn into changes of the processors.

    ** The files, and the parts they model

    Data plane:
    - Bits: words as bits, big-endian byte strings, slices; no code of its own.
    - Phv: defs.h, global.cpp, global.h: the PHV, reading and writing of fields.
    - Parser: parser.h: the levels of a parser, TCAM and action tables, extraction.
    - Executor: executor.h: primitives, expression trees, parameters, actions.
    - Gateway: gateway.h: expressions and the map of their results.
    - Matcher: matcher_c.h: memory blocks, tables over blocks, insertion and lookup.
    - Pipeline: processor.h, pipeline.h: one processor, and the loop over processors.
    - Switch: main.cpp, physical_layer.h, global.cpp: start-up, receiving, one turn of
      the main loop, sending.
    - Server: dataplane_server.h and the .proto file: every handler of the service.

    Controller:
    - Client: controller_client.h: the conversions to messages and every method.
    - Controller: ctrl_mod_table.h: an entry of an update file.
    - Configure: ctrl_init_dataplane.h: a configuration file.

    Compiler (src/rP4-compiler/rp4c):
    - Headers: ipsa_header_manager.h, rp4_header.h, rp4_struct.h, rp4_lvalue.h.
    - Actions: ipsa_expression.h, ipsa_action_manager.h, rp4_expression.h, rp4_action.h.
    - Tables: ipsa_table.h, ipsa_table_manager.h, ipsa_configuration.h, rp4_table.h.
    - Stages: ipsa_stage_manager.h, rp4_stage.h, rp4_key.h.
    - Levels: ipsa_level_manager.h, rp4_state.h: the levels of the parser.
    - Topology, Distribution: ipsa_distribution.h: the topological sort, and the levels
      each stage runs.
    - Gateways: ipsa_gateway.h, ipsa_gateway_manager.h.
    - Processors: ipsa_processor_manager.h: merging and numbering of stages.
    - Allocation: ipsa_memory.h: the clusters of stages and the blocks of tables.
    - Builder: ipsa_builder.h: loading a program, the processors of the output.
    - Incremental: ipsa_builder.h: the memory of a program that replaces another.
    - TableKey: ipsa_tableupdate.h, ipsa_tableupdate_key.h, rp4_runtime.h: the keys and
      masks of a command, and the update it becomes.
    - Output: what the controller gets to know of a table, an action or a level.
    - Json: ipsa_value.h, ipsa_output.h: the values of the output, and their printer.
    - File: the toIpsaValue methods, which give the values, and the members the
      controller (ctrl_init_dataplane.h) takes out of the file.
    - Task: rp4_runtime.h: a whole run of the compiler.

    Translator (src/rP4-compiler/p4r):
    - P4Names: p4_rename.h: the shortening of names.
    - P4Condition: p4_parameter.h: parameters, and the patterns of a condition.
    - P4Program: the classes of a program, p4r.cpp, which reads it, and the actions for
      hits and misses of p4_pipeline.h.
    - P4Print: the output operators of all classes, and P4Json, the whole program.

    Front end of the compiler (src/rP4-compiler/rp4c):
    - Reader: what the grammars of both compilers share: languages, lists, readers and
      their classes [Sound] and [Complete], which every nonterminal has an instance of; no
      code of its own.
    - Lexer: lex.l: the rules, and the choice of the first rule with the longest match.
    - Grammar: yacc.y: a relation for each nonterminal, with a constructor for each of its
      rules, and functions (read_...) that decide the relations; Rp4Compiler::parse.

    Parts together:
    - Source: the text of the translator, read by lexer and grammar. [source_tree] is an
      abstract specification: the syntax tree a P4 program stands for.
    - Conditions: the patterns of a condition, from the translator to the gateway.
    - Route: a P4 program, through all parts, to the packet.

    The old switch (src/ipbm-old/src):
    - OldMemory: table.cpp, bitmap.h: the physical memories as cells, their allocators,
      bitmaps; and the monad [outcome] of this switch.
    - OldTables: table.h, field.h: logical tables in SRAM and TCAM behind the interface
      [LogicTable] (the virtual methods of the class of that name), flow tables. The
      abstract specification of a table in SRAM is [bucket_do], on a map from buckets to
      entries.
    - OldParser: parser.h, parser.cpp. OldExecutor: action.h, executor.h, executor.cpp.
    - OldSwitch: matcher.cpp, processor.cpp, global.cpp, physical_layer.h, main.cpp: the
      state [Global], the way of a packet, the polls of the interfaces, sending.
    - OldCounter: the counters of matcher.cpp as they count packet after packet, and what
      ctrl_counter.cpp reads of them.
    - OldApi: api.h, api_server.h, api_client.h and the .proto file of this switch.
    - OldPrograms: api_switch.h, api_router.h, api_tunnel.h, api_counter.h,
      api_complex.h; ctrl_complex.h, ctrl_vlan.cpp, ctrl_flow_entry.cpp.

    The old compiler (src/rp4c-old/src):
    - OldLexer: lex.l. OldGrammar: yacc.y, parser.h and main.cpp; the conflicts of the rules for
      expressions are resolved as bison resolves them.
    - OldCompiler: ast.h and json_emitter.h: the tree, the pass with its context, and the
      abstract specification [program_json], what is read off the tree without a context,
      with [program_has_json], which trees have a JSON.
    - OldPrint: ast.cpp: the printed tree.

    Each definition has the name of the function, method or class it models where that
    name is free. A class is a Record with the members
    as fields, a method a function from the record (and the rest of the state it
    changes) to the new one; a member of another name is prefixed, as tb_id.

    ** How C++ is modelled

    - A computation that can go wrong is of type [res]: [Fault] says in which way it has
      no defined result (index out of range, null or dangling pointer, division by zero,
      a throw nothing catches), [Ok] is what it computes. Nothing is assumed to stay in
      range: arrays have the lengths of the source and every access is checked.
    - The old switch uses exceptions and catches them: its computations are of type
      [outcome], which has what is thrown, a failed assertion and what C++ leaves
      undefined as results of their own. Its memory is shared by all tables: a buffer is
      a place in a memory, and what one table writes behind its end another one reads.
    - Machine integers are Z, cut where the source stores them in a narrower type ([u8],
      [u16], [u32], [i32]); shifts by a count outside the width, reads of uninitialised
      store and the capacity of a vector are not defined by C++: class [Target] in this
      file has them as parameters, and a theorem that needs the behaviour of a machine
      takes it as a hypothesis or uses [x86], which is also the instance the witnesses
      are computed with. Counters of the compiler are not cut: they count the
      declarations of a program.
    - Pointers into containers are the index or the name under which the object is found
      when the code shares the object (the tables and actions of a processor, the memory
      of all processors, the default entry of a gateway that is also its first entry);
      where nothing is shared they are the object.
    - std::map is a gmap, and the list [in_name_order] or [map_keys] of its elements in
      order where the code goes through it; operator[] on a key that is not there is
      [map_ref] with the value it inserts. std::vector is a list. A std::sort is stdpp's
      merge_sort: elements that are sorted are distinct there, so the result is unique.
    - Loops are [for_lt], [for_ge] and [for_each] (this file) or recursive functions with
      fuel. Running out of fuel is the result [None], and occurs in three places: the
      loop over processors (pipeline_execute, without a bound in the code:
      pipeline_terminates shows that the rank of a processor is enough where processors
      can be ranked, pipeline_diverges that there are configurations no fuel is enough
      for), the loop over removed stages (initializeStages: stages_numbered shows that
      one more than the number of stages is enough) and the polling of interfaces
      (recv_packet, which may poll forever). The lexer and the reader of the grammar have
      as much fuel as there are characters and tokens, which is enough, as each round takes
      one (lex_step, program_read; old_lex_step, accepted_by_grammar). In the old switch [Running] stands for a loop that
      has not ended: the parser ends with two steps more than the packet has bytes when
      every header takes a byte (parse_ends), the way of a packet with two more than
      there are processors when they lead forward (process_packet_ends); the main loop
      does not end, and is a state for every number of polls (loop_at).

    ** What the theorems show

    The properties, theorems with a number C1 to C40 in the order of their importance,
    are in groups:
    - one table: an exact table refines a map from keys to values (Matcher), the lookup of
      a packet has the outcome the map gives (match_outcome), tables in other blocks are
      not touched; the same through the server (entry_served), through client and
      controller (the lemma Controller.update_entry_hit), for a table the controller configured
      (configured_then_filled), and for a table the compiler made (compiled_table_served);
    - one packet: fields are read back as they were written (Phv), headers are found by
      the entry that was programmed (Parser), the gateway takes the entry of the results
      of its comparisons (gateway_decides), actions assign the value of their expression
      and get the parameters of the entry (Executor), the pipeline ends where processors
      can be ranked, and keeps the PHV well formed and the whole configuration but for the
      next processors it adds (Pipeline), what is sent is the packet of the PHV, or what
      was sent before it where an interface has no address (Switch);
    - the configuration: requests are isolated from the processors they do not name and
      from the memory of other clusters (requests_isolated); a call of the client is the
      change it asks for, but for the constants whose buffer the server overflows
      (Client); a file is what its calls leave, and files with transition fields or
      more processors than there are cannot be loaded (Configure);
    - the compiler: fields and headers have places of their own (Headers), stages are
      numbered without gaps (Processors), sorted (Topology), run every level of the
      parser they need on the ways that the compiler looks at (Distribution), get memory of their own (Allocation) and their
      processors (Builder), keep the memory of a former program (Incremental), numbers of
      commands are the bytes of their value (TableKey); the printed file is JSON (Json)
      and the controller reads the values of the objects out of it (File); and a program
      from its syntax tree, over the printed file, to the packet (Task);
    - the front end: the lexer reads tokens as they are spelled (Lexer); the
      grammar gives a text one tree at most (Grammar);
    - the translator: the patterns of a condition are the results for which it is true
      (P4Condition), the stages of a printed pipeline start with the first one and lead
      to stages and tables of the pipeline (P4Print), tables get the actions for their
      hits and misses (P4Program), and names stay apart (P4Names); the compiler
      reads the text of a program as the tree the program stands for (Source), the
      conditions of a program are not met by the data plane (Conditions), and the switch
      that a program with one table and a command make forwards every packet as they say
      (Route);
    - the old switch: a table in SRAM refines a map from buckets to entries, but
      for the last bucket, whose bit lies in the first entry (OldTables); checksums are
      right by the one's complement sum of RFC 1071 (OldExecutor); every packet has its
      turn when the interfaces before its own fall silent, and the loop never hangs when
      headers take a byte and processors lead forward (OldSwitch, a property of runs);
      the controller reads the counts of the packets (OldCounter); calls of the controller are calls of the functions (OldApi); the
      controller and the classes build the same switch, and the router forwards
      packets as it should (OldPrograms);
    - the old compiler: its parser decides the language of the grammar, and the JSON of a
      text is the one of its tree, where the tree has one (OldGrammar);
    - where the code does not do what it means to, a theorem or a lemma says what it does
      instead.

    ** What is not modelled

    - Logging, including what a logging loop reads out of range.
    - The libraries: gRPC and protocol buffers (a call reaches the handler with the
      message it was given; which strings are accepted, and whether an exception of a
      handler is caught, are parameters of OldApi), pcap (what is received is an argument), YAML and JSON
      parsing (a file is given as the values read from it; to read what the compiler
      prints, Json has a reader that follows RFC 8259), inet_pton (class InetPton),
      the clock.
    - The interleaving of the server's thread with the packet loop: the code has no lock,
      so C++ gives an interleaved access no meaning; handlers and packets take turns.
    - matcher.h, matcher_b.h and entry.h of the data plane: no file includes them.
    - add_table_entry of the controller, which makes one call with constants.
    - lex.yy.c and yacc.cpp, which flex and bison make of lex.l and yacc.y: Lexer and
      Grammar say what these two files mean, as OldLexer and OldGrammar do for the old
      compiler. Left out are the locations of tokens, what is
      printed for errors, the bound on the depth of bison's stack, and what is left
      in the buffer of the scanner when a file has been read.
    - config_init of the old switch (the file of interfaces and their addresses, which
      are arguments), its handlers that answer zero and do nothing, and the waiting and
      printing of the programs that read a counter every second.
    - ipbm-old/controller: an interactive client (client.cc) that keeps configurations of
      memories, parsers, matchers and executers and sends them to a server (server.cc)
      whose handlers only print; and generated and vendored code. *)

From stdpp Require Import base numbers list option gmap sorting.
From Stdlib Require Import ZArith Lia.

#[local] Open Scope Z_scope.

(** Linear arithmetic with [/] and [mod] by constants. *)
Ltac dlia := Z.div_mod_to_equations; lia.

(** ** Faults and the fallible computations of the C++ code

    The program is C++: an array access out of range, a null or wild pointer, a
    division by zero have no defined result.  A computation that reaches one of
    them ends in [Fault]; a computation that does not ends in [Ok]. *)
Inductive fault : Set :=
| OutOfBounds      (** an array index outside the array *)
| NullDeref        (** a null pointer is dereferenced *)
| WildPointer      (** an uninitialised pointer is dereferenced *)
| UseAfterFree     (** a deleted object is used *)
| DoubleFree       (** a deleted object is deleted again *)
| DivByZero        (** [/] or [%] with a zero divisor *)
| BadLength        (** a negative length reaches [new[]] or [memcpy] *)
| NoReturn         (** control reaches the end of a non-void function *)
| Thrown.          (** an exception that nothing in the program catches *)

#[export] Instance fault_eq_dec : EqDecision fault.
Proof. solve_decision. Defined.

Inductive res (A : Type) : Type :=
| Ok (a : A)
| Fault (f : fault).
Arguments Ok {_} _.
Arguments Fault {_} _.

#[export] Instance res_mret : MRet res := λ _ a, Ok a.
#[export] Instance res_mbind : MBind res := λ _ _ k m,
  match m with Ok a => k a | Fault f => Fault f end.
#[export] Instance res_fmap : FMap res := λ _ _ g m,
  match m with Ok a => Ok (g a) | Fault f => Fault f end.

Definition is_ok {A} (m : res A) : bool :=
  match m with Ok _ => true | Fault _ => false end.

Lemma bind_ok {A B} (m : res A) (k : A → res B) a :
  m = Ok a → m ≫= k = k a.
Proof. by intros ->. Qed.

Lemma bind_ok_inv {A B} (m : res A) (k : A → res B) b :
  m ≫= k = Ok b → ∃ a, m = Ok a ∧ k a = Ok b.
Proof. destruct m; [eauto|done]. Qed.

Lemma bind_assoc {A B C} (m : res A) (f : A → res B) (g : B → res C) :
  (m ≫= f) ≫= g = m ≫= λ a, f a ≫= g.
Proof. by destruct m. Qed.

(** ** Machine integers

    [uintN_t] values are kept in [0, 2^N); a conversion to [uintN_t] is the
    remainder modulo 2^N, a conversion to [int] the representative in
    [-2^31, 2^31) (two's complement, as every compiler the project names does). *)
Definition u8 (x : Z) : Z := x mod 256.
Definition u16 (x : Z) : Z := x mod 65536.
Definition u32 (x : Z) : Z := x mod 4294967296.
Definition i32 (x : Z) : Z := (x + 2147483648) mod 4294967296 - 2147483648.

Lemma u8_range x : 0 ≤ u8 x < 256.
Proof. unfold u8. dlia. Qed.
Lemma u16_range x : 0 ≤ u16 x < 65536.
Proof. unfold u16. dlia. Qed.
Lemma u32_range x : 0 ≤ u32 x < 4294967296.
Proof. unfold u32. dlia. Qed.
Lemma u8_small x : 0 ≤ x < 256 → u8 x = x.
Proof. apply Z.mod_small. Qed.
Lemma u16_small x : 0 ≤ x < 65536 → u16 x = x.
Proof. apply Z.mod_small. Qed.
Lemma u32_small x : 0 ≤ x < 4294967296 → u32 x = x.
Proof. apply Z.mod_small. Qed.
Lemma i32_small x : -2147483648 ≤ x < 2147483648 → i32 x = x.
Proof. intros. unfold i32. rewrite Z.mod_small; lia. Qed.

(** [a ? 1 : 0] of a C condition. *)
Definition b2z (b : bool) : Z := if b then 1 else 0.

(** ** What the C++ standard leaves open

    Some functions shift by a count outside [0, 31], and some read bytes of a
    fresh [new uint8_t[n]] or members of a fresh object before anything is
    stored there.  What a compiled program does then is not in the source: it
    is a parameter of the model. [x86] is the target the project builds for. *)
Class Target : Type := {
  oob_shl : Z → Z → Z;   (** [x << n] on [uint32_t] with [n] outside [0, 31] *)
  oob_shr : Z → Z → Z;   (** [x >> n] on [uint32_t] with [n] outside [0, 31] *)
  junk : nat → Z         (** the i-th byte found in memory never stored to *)
}.

Definition shl32 `{Target} (x n : Z) : Z :=
  u32 (if (0 <=? n) && (n <? 32) then Z.shiftl x n else oob_shl x n).
Definition shr32 `{Target} (x n : Z) : Z :=
  if (0 <=? n) && (n <? 32) then Z.shiftr x n else u32 (oob_shr x n).

(** The shift instructions of x86 take the count modulo 32; memory reads as
    zero here, one admissible value of it. *)
Definition x86 : Target := {|
  oob_shl x n := Z.shiftl x (n mod 32);
  oob_shr x n := Z.shiftr x (n mod 32);
  junk _ := 0
|}.

Lemma shl32_in `{Target} x n : 0 ≤ n < 32 → shl32 x n = u32 (x * 2 ^ n).
Proof.
  intros. unfold shl32.
  rewrite (proj2 (Z.leb_le 0 n)), (proj2 (Z.ltb_lt n 32)) by lia. simpl.
  by rewrite Z.shiftl_mul_pow2 by lia.
Qed.
Lemma shr32_in `{Target} x n : 0 ≤ n < 32 → shr32 x n = x / 2 ^ n.
Proof.
  intros. unfold shr32.
  rewrite (proj2 (Z.leb_le 0 n)), (proj2 (Z.ltb_lt n 32)) by lia. simpl.
  by rewrite Z.shiftr_div_pow2 by lia.
Qed.

(** ** Arrays

    A C array is a list; an index is a C integer. [rd] and [wr] are the checked
    accesses of the model, [at_] the total access the specifications use. *)
Definition rd {A} (l : list A) (i : Z) : res A :=
  if 0 <=? i then
    match l !! Z.to_nat i with Some x => Ok x | None => Fault OutOfBounds end
  else Fault OutOfBounds.

Definition wr {A} (l : list A) (i : Z) (x : A) : res (list A) :=
  if (0 <=? i) && (i <? Z.of_nat (length l)) then Ok (<[Z.to_nat i := x]> l)
  else Fault OutOfBounds.

Definition at_ {A} `{Inhabited A} (l : list A) (i : Z) : A := l !!! Z.to_nat i.

#[export] Instance Z_inhabited : Inhabited Z := populate 0.

Definition zlen {A} (l : list A) : Z := Z.of_nat (length l).

Lemma rd_at {A} `{Inhabited A} (l : list A) i :
  0 ≤ i < zlen l → rd l i = Ok (at_ l i).
Proof.
  unfold zlen. intros. unfold rd, at_.
  rewrite (proj2 (Z.leb_le 0 i)) by lia.
  destruct (lookup_lt_is_Some_2 l (Z.to_nat i)) as [x Hx]; [lia|].
  rewrite Hx. by rewrite (list_lookup_total_correct _ _ _ Hx).
Qed.

Lemma rd_ok_inv {A} (l : list A) i x :
  rd l i = Ok x → 0 ≤ i < zlen l ∧ l !! Z.to_nat i = Some x.
Proof.
  unfold rd, zlen. destruct (Z.leb_spec 0 i); [|done].
  destruct (l !! Z.to_nat i) eqn:E; [|done].
  intros [= ->]. apply lookup_lt_Some in E as ?. split; [lia|done].
Qed.

Lemma rd_oob {A} (l : list A) i : ¬ (0 ≤ i < zlen l) → rd l i = Fault OutOfBounds.
Proof.
  unfold zlen. intros. unfold rd. destruct (Z.leb_spec 0 i); [|done].
  by rewrite lookup_ge_None_2 by lia.
Qed.

Lemma wr_ok {A} (l : list A) i x :
  0 ≤ i < zlen l → wr l i x = Ok (<[Z.to_nat i := x]> l).
Proof.
  unfold zlen. intros. unfold wr.
  by rewrite (proj2 (Z.leb_le 0 i)), (proj2 (Z.ltb_lt i _)) by lia.
Qed.

Lemma wr_ok_inv {A} (l l' : list A) i x :
  wr l i x = Ok l' → 0 ≤ i < zlen l ∧ l' = <[Z.to_nat i := x]> l.
Proof.
  unfold wr, zlen. destruct (Z.leb_spec 0 i), (Z.ltb_spec i (Z.of_nat (length l)));
    simpl; try done. intros [= <-]. done.
Qed.

Lemma wr_oob {A} (l : list A) i x : ¬ (0 ≤ i < zlen l) → wr l i x = Fault OutOfBounds.
Proof.
  unfold zlen. intros. unfold wr. destruct (Z.leb_spec 0 i), (Z.ltb_spec i (Z.of_nat (length l))); try done. lia.
Qed.

Lemma zlen_insert {A} (l : list A) i x : zlen (<[i := x]> l) = zlen l.
Proof. unfold zlen. by rewrite length_insert. Qed.

Lemma zlen_replicate {A} n (x : A) : zlen (replicate n x) = Z.of_nat n.
Proof. unfold zlen. by rewrite length_replicate. Qed.

Lemma zlen_app {A} (l k : list A) : zlen (l ++ k) = zlen l + zlen k.
Proof. unfold zlen. rewrite length_app. lia. Qed.

Lemma zlen_nonneg {A} (l : list A) : 0 ≤ zlen l.
Proof. unfold zlen. lia. Qed.

Lemma at_insert_eq {A} `{Inhabited A} (l : list A) i x :
  0 ≤ i < zlen l → at_ (<[Z.to_nat i := x]> l) i = x.
Proof. unfold zlen, at_. intros. apply list_lookup_total_insert_eq. lia. Qed.

Lemma at_insert_ne {A} `{Inhabited A} (l : list A) i j x :
  0 ≤ i → 0 ≤ j → i ≠ j → at_ (<[Z.to_nat i := x]> l) j = at_ l j.
Proof. unfold at_. intros. apply list_lookup_total_insert_ne. lia. Qed.

Lemma at_insert {A} `{Inhabited A} (l : list A) i j x :
  0 ≤ i < zlen l → 0 ≤ j →
  at_ (<[Z.to_nat i := x]> l) j = if i =? j then x else at_ l j.
Proof.
  intros. destruct (Z.eqb_spec i j) as [->|].
  - by apply at_insert_eq.
  - apply at_insert_ne; lia.
Qed.

Lemma at_replicate n i (x : Z) : 0 ≤ i < Z.of_nat n → at_ (replicate n x) i = x.
Proof. intros. unfold at_. apply lookup_total_replicate_2. lia. Qed.

Lemma rd_insert_eq {A} (l : list A) i x :
  0 ≤ i < zlen l → rd (<[Z.to_nat i := x]> l) i = Ok x.
Proof.
  unfold zlen, rd. intros. rewrite (proj2 (Z.leb_le 0 i)) by lia.
  by rewrite list_lookup_insert_eq by lia.
Qed.

Lemma rd_insert_ne {A} (l : list A) i j x :
  0 ≤ i → i ≠ j → rd (<[Z.to_nat i := x]> l) j = rd l j.
Proof.
  intros. unfold rd. destruct (Z.leb_spec 0 j); [|done]. by rewrite list_lookup_insert_ne by lia.
Qed.

Lemma list_eq_at (l k : list Z) :
  zlen l = zlen k → (∀ i, 0 ≤ i < zlen l → at_ l i = at_ k i) → l = k.
Proof.
  unfold zlen, at_. intros Hlen Hat. apply list_eq_same_length with (length l); try lia.
  intros i x y Hi Hx Hy. specialize (Hat (Z.of_nat i) ltac:(lia)). rewrite Nat2Z.id in Hat.
  rewrite (list_lookup_total_correct _ _ _ Hx) in Hat.
  by rewrite (list_lookup_total_correct _ _ _ Hy) in Hat.
Qed.

(** ** Counted loops *)
Section loops.
Context {S : Type}.

(** [for (i = lo; ...; i++)], [n] times. *)
Fixpoint for_up (n : nat) (i : Z) (body : Z → S → res S) (s : S) : res S :=
  match n with
  | O => Ok s
  | Datatypes.S n' => s' ← body i s; for_up n' (i + 1) body s'
  end.

(** [for (i = hi; ...; i--)], [n] times. *)
Fixpoint for_down (n : nat) (i : Z) (body : Z → S → res S) (s : S) : res S :=
  match n with
  | O => Ok s
  | Datatypes.S n' => s' ← body i s; for_down n' (i - 1) body s'
  end.

(** [for (int i = lo; i < hi; i++)] and [for (int i = hi; i >= lo; i--)]. *)
Definition for_lt (lo hi : Z) := for_up (Z.to_nat (hi - lo)) lo.
Definition for_ge (hi lo : Z) := for_down (Z.to_nat (hi - lo + 1)) hi.

Lemma for_up_inv (I : Z → S → Prop) n i body s :
  I i s →
  (∀ j t, i ≤ j < i + Z.of_nat n → I j t → ∃ t', body j t = Ok t' ∧ I (j + 1) t') →
  ∃ s', for_up n i body s = Ok s' ∧ I (i + Z.of_nat n) s'.
Proof.
  revert i s. induction n as [|n IH]; intros i s HI Hstep.
  - exists s. by rewrite Z.add_0_r.
  - cbn [for_up]. destruct (Hstep i s ltac:(lia) HI) as (t & -> & Ht). cbn.
    destruct (IH (i + 1) t Ht) as (s' & -> & Hs').
    + intros j u ??. apply Hstep; [lia|done].
    + exists s'. split; [done|]. rewrite Nat2Z.inj_succ. by replace (i + Z.succ (Z.of_nat n)) with (i + 1 + Z.of_nat n) by lia.
Qed.

Lemma for_down_inv (I : Z → S → Prop) n i body s :
  I i s →
  (∀ j t, i - Z.of_nat n < j ≤ i → I j t → ∃ t', body j t = Ok t' ∧ I (j - 1) t') →
  ∃ s', for_down n i body s = Ok s' ∧ I (i - Z.of_nat n) s'.
Proof.
  revert i s. induction n as [|n IH]; intros i s HI Hstep.
  - exists s. by rewrite Z.sub_0_r.
  - cbn [for_down]. destruct (Hstep i s ltac:(lia) HI) as (t & -> & Ht). cbn.
    destruct (IH (i - 1) t Ht) as (s' & -> & Hs').
    + intros j u ??. apply Hstep; [lia|done].
    + exists s'. split; [done|]. rewrite Nat2Z.inj_succ. by replace (i - Z.succ (Z.of_nat n)) with (i - 1 - Z.of_nat n) by lia.
Qed.

Lemma for_lt_inv (I : Z → S → Prop) lo hi body s :
  lo ≤ hi → I lo s →
  (∀ j t, lo ≤ j < hi → I j t → ∃ t', body j t = Ok t' ∧ I (j + 1) t') →
  ∃ s', for_lt lo hi body s = Ok s' ∧ I hi s'.
Proof.
  intros Hle HI Hstep. unfold for_lt.
  destruct (for_up_inv I (Z.to_nat (hi - lo)) lo body s HI) as (s' & ? & Hs').
  - intros. apply Hstep; [lia|done].
  - exists s'. split; [done|]. by replace hi with (lo + Z.of_nat (Z.to_nat (hi - lo))) by lia.
Qed.

Lemma for_ge_inv (I : Z → S → Prop) hi lo body s :
  lo ≤ hi + 1 → I hi s →
  (∀ j t, lo ≤ j ≤ hi → I j t → ∃ t', body j t = Ok t' ∧ I (j - 1) t') →
  ∃ s', for_ge hi lo body s = Ok s' ∧ I (lo - 1) s'.
Proof.
  intros Hle HI Hstep. unfold for_ge.
  destruct (for_down_inv I (Z.to_nat (hi - lo + 1)) hi body s HI) as (s' & ? & Hs').
  - intros. apply Hstep; [lia|done].
  - exists s'. split; [done|]. by replace (lo - 1) with (hi - Z.of_nat (Z.to_nat (hi - lo + 1))) by lia.
Qed.

(** What a loop that ends preserves. *)
Lemma for_up_pres (I : S → Prop) n i body s s' :
  (∀ j t t', I t → body j t = Ok t' → I t') → I s → for_up n i body s = Ok s' → I s'.
Proof.
  intros Hb. revert i s. induction n as [|n IH]; cbn [for_up]; intros i s HI Hrun.
  - by injection Hrun as <-.
  - apply bind_ok_inv in Hrun as (t & Ht & Hrun). eauto.
Qed.

Lemma for_down_pres (I : S → Prop) n i body s s' :
  (∀ j t t', I t → body j t = Ok t' → I t') → I s → for_down n i body s = Ok s' → I s'.
Proof.
  intros Hb. revert i s. induction n as [|n IH]; cbn [for_down]; intros i s HI Hrun.
  - by injection Hrun as <-.
  - apply bind_ok_inv in Hrun as (t & Ht & Hrun). eauto.
Qed.

Lemma for_up_app m n i body s :
  for_up (m + n) i body s = for_up m i body s ≫= for_up n (i + Z.of_nat m) body.
Proof.
  revert i s. induction m as [|m IH]; intros i s.
  - cbn [Nat.add for_up]. by rewrite Z.add_0_r.
  - cbn [Nat.add for_up]. rewrite bind_assoc. destruct (body i s); [|done]. cbn [mbind res_mbind].
    rewrite IH. do 2 f_equal. lia.
Qed.

Lemma for_lt_empty lo hi body s : hi ≤ lo → for_lt lo hi body s = Ok s.
Proof. intros. unfold for_lt. by replace (Z.to_nat (hi - lo)) with O by lia. Qed.
End loops.

(** A pass over the elements of a vector, [for (auto x : v)]. *)
Fixpoint for_each {A S} (body : A → S → res S) (l : list A) (s : S) : res S :=
  match l with
  | [] => Ok s
  | x :: l' => s' ← body x s; for_each body l' s'
  end.

Lemma for_each_app {A S} (body : A → S → res S) l k s :
  for_each body (l ++ k) s = for_each body l s ≫= for_each body k.
Proof.
  revert s. induction l as [|x l IH]; intros s; simpl; [done|].
  rewrite bind_assoc. destruct (body x s); simpl; [apply IH|done].
Qed.

(** What a loop that ends went through. *)
Lemma for_up_ok {S} (I : S → Prop) n i body s s' :
  (∀ j t t', I t → body j t = Ok t' → I t') → I s → for_up n i body s = Ok s' →
  ∀ j, i ≤ j < i + Z.of_nat n → ∃ t t', I t ∧ body j t = Ok t'.
Proof.
  intros Hb. revert i s. induction n as [|n IH]; intros i s HI Hrun j Hj; [lia|]. cbn [for_up] in Hrun.
  apply bind_ok_inv in Hrun as (t & Ht & Hrun). destruct (decide (j = i)) as [->|]; [by exists s, t|].
  apply (IH (i + 1) t); [by eapply Hb|done|lia].
Qed.

Lemma for_each_ok {A S} (I : S → Prop) (body : A → S → res S) l s s' :
  (∀ x t t', I t → body x t = Ok t' → I t') → I s → for_each body l s = Ok s' →
  I s' ∧ ∀ x, x ∈ l → ∃ t t', body x t = Ok t'.
Proof.
  intros Hb. revert s. induction l as [|y l IH]; intros s HI Hrun; cbn [for_each] in Hrun.
  - injection Hrun as <-. split; [done|]. by intros x ?%not_elem_of_nil.
  - apply bind_ok_inv in Hrun as (t & Ht & Hrun). destruct (IH t) as [HI' Hall]; [by eapply Hb|done|].
    split; [done|]. intros x [->|Hx]%elem_of_cons; [eauto|by apply Hall].
Qed.

(** A vector filled with the results of [f] on the elements of another. *)
Definition collect {A B} (f : A → res B) (l : list A) : res (list B) :=
  for_each (λ x acc, y ← f x; mret (acc ++ [y])) l [].

Lemma collect_ok {A B} (f : A → res B) l ys : collect f l = Ok ys ↔ Forall2 (λ x y, f x = Ok y) l ys.
Proof.
  unfold collect. assert (H : ∀ acc, for_each (λ x acc, y ← f x; mret (acc ++ [y])) l acc = Ok ys ↔
    ∃ zs, ys = acc ++ zs ∧ Forall2 (λ x y, f x = Ok y) l zs).
  { induction l as [|x l IH]; intros acc; cbn [for_each].
    - split; [intros [= <-]; exists []; by rewrite app_nil_r|]. intros (zs & -> & ->%Forall2_nil_inv_l). by rewrite app_nil_r.
    - destruct (f x) as [y|] eqn:E; cbn [mbind res_mbind mret res_mret].
      + rewrite IH. split.
        * intros (zs & -> & Hzs). exists (y :: zs). split; [by rewrite <- app_assoc|]. by constructor.
        * intros (zs & -> & Hzs). apply Forall2_cons_inv_l in Hzs as (y' & zs' & Hy & Hzs & ->).
          exists zs'. rewrite <- app_assoc. split; [|done]. cbn. congruence.
      + split; [done|]. intros (zs & -> & Hzs). apply Forall2_cons_inv_l in Hzs as (y' & zs' & Hy & _ & _). congruence. }
  rewrite H. split; [by intros (zs & -> & ?)|by exists ys].
Qed.

(** ** [std::map]

    A map is a [gmap]; a pass over it, [for (auto& [k, v] : m)], visits the keys in
    their order. *)
Definition map_keys {V} (m : gmap Z V) : list Z := merge_sort Z.le (map_to_list m).*1.

Lemma elem_of_map_keys {V} (m : gmap Z V) k : k ∈ map_keys m ↔ is_Some (m !! k).
Proof.
  unfold map_keys. rewrite merge_sort_Permutation, list_elem_of_fmap. split.
  - intros ([k' v] & -> & H%elem_of_map_to_list). by exists v.
  - intros [v H]. exists (k, v). split; [done|]. by apply elem_of_map_to_list.
Qed.

Lemma NoDup_map_keys {V} (m : gmap Z V) : NoDup (map_keys m).
Proof. unfold map_keys. rewrite merge_sort_Permutation. apply NoDup_fst_map_to_list. Qed.

(** [m.insert({k, v})]: a key that is there keeps its value. *)
Definition insert_new {K V} `{Countable K} (k : K) (v : V) (m : gmap K V) : gmap K V :=
  match m !! k with Some _ => m | None => <[k := v]> m end.

(** [m[k]] read: a key that is not there gets the value [d]. *)
Definition map_ref {V} (d : V) (m : gmap Z V) (k : Z) : V := default d (m !! k).

(** [m.at(k)]. *)
Definition map_at {K V} `{Countable K} (m : gmap K V) (k : K) : res V :=
  match m !! k with Some v => Ok v | None => Fault Thrown end.

(** The sum of a function over a list. *)
Fixpoint sum_of_map {A} (f : A → Z) (l : list A) : Z :=
  match l with [] => 0 | x :: l' => f x + sum_of_map f l' end.

Lemma sum_of_map_app {A} (f : A → Z) l k : sum_of_map f (l ++ k) = sum_of_map f l + sum_of_map f k.
Proof. induction l as [|x l IH]; cbn; [done|]. rewrite IH. lia. Qed.

Lemma sum_of_map_perm {A} (f : A → Z) l k : l ≡ₚ k → sum_of_map f l = sum_of_map f k.
Proof. induction 1; cbn; lia. Qed.

Lemma sum_of_map_ext {A} (f g : A → Z) l : (∀ x, x ∈ l → f x = g x) → sum_of_map f l = sum_of_map g l.
Proof.
  induction l as [|x l IH]; intros Hfg; [done|]. cbn. rewrite Hfg by by left. rewrite IH; [done|].
  intros y Hy. apply Hfg. by right.
Qed.

Lemma sum_of_map_nonneg {A} (f : A → Z) l : (∀ x, x ∈ l → 0 ≤ f x) → 0 ≤ sum_of_map f l.
Proof.
  induction l as [|x l IH]; intros Hf; cbn; [done|]. pose proof (Hf x ltac:(by left)).
  pose proof (IH ltac:(intros y Hy; apply Hf; by right)). lia.
Qed.

Lemma sum_of_map_pos {A} (f : A → Z) l x : (∀ y, y ∈ l → 0 ≤ f y) → x ∈ l → f x ≤ sum_of_map f l.
Proof.
  intros Hf (l1 & l2 & ->)%list_elem_of_split. rewrite sum_of_map_app. cbn.
  pose proof (sum_of_map_nonneg f l1 ltac:(set_solver)). pose proof (sum_of_map_nonneg f l2 ltac:(set_solver)). lia.
Qed.

(** ** [memcpy] of [n] bytes *)
Definition memcpy (dst : list Z) (dpos : Z) (src : list Z) (spos n : Z) : res (list Z) :=
  if n <? 0 then Fault BadLength
  else for_lt 0 n (λ k d, x ← rd src (spos + k); wr d (dpos + k) x) dst.

(** [new uint8_t[n]] followed by [memset(.., 0, n)], and without it. *)
Definition zeros (n : Z) : res (list Z) :=
  if n <? 0 then Fault BadLength else Ok (replicate (Z.to_nat n) 0).
Definition fresh `{Target} (n : Z) : res (list Z) :=
  if n <? 0 then Fault BadLength else Ok ((λ i, u8 (junk i)) <$> seq 0 (Z.to_nat n)).

(** A list of bytes. *)
Definition bytes (l : list Z) : Prop := Forall (λ b, 0 ≤ b < 256) l.

Lemma bytes_at l i : bytes l → 0 ≤ at_ l i < 256.
Proof.
  intros H. unfold at_. destruct (l !! Z.to_nat i) as [x|] eqn:E.
  - rewrite (list_lookup_total_correct _ _ _ E). by apply (Forall_lookup_1 _ _ _ _ H E).
  - rewrite list_lookup_total_alt, E. simpl. lia.
Qed.

Lemma bytes_insert l i x : bytes l → 0 ≤ x < 256 → bytes (<[i := x]> l).
Proof. intros. by apply Forall_insert. Qed.

Lemma bytes_replicate n : bytes (replicate n 0).
Proof. apply Forall_replicate. lia. Qed.

Lemma zeros_ok n : 0 ≤ n → zeros n = Ok (replicate (Z.to_nat n) 0).
Proof. intros. unfold zeros. by rewrite (proj2 (Z.ltb_ge n 0)) by lia. Qed.

(** [(int)ceil(n * 1.0 / 8)] for the non-negative lengths the code uses it on. *)
Definition ceil8 (n : Z) : Z := (n + 7) / 8.

Lemma ceil8_bounds n : 1 ≤ n → n ≤ 8 * ceil8 n < n + 8 ∧ 1 ≤ ceil8 n.
Proof. unfold ceil8. intros. dlia. Qed.

(** The bytes [memcpy] leaves behind. *)
Lemma memcpy_spec dst dpos src spos n :
  0 ≤ n → 0 ≤ dpos → dpos + n ≤ zlen dst → 0 ≤ spos → spos + n ≤ zlen src →
  ∃ d, memcpy dst dpos src spos n = Ok d ∧ zlen d = zlen dst ∧
    ∀ i, 0 ≤ i < zlen dst →
      at_ d i = if (dpos <=? i) && (i <? dpos + n) then at_ src (spos + (i - dpos)) else at_ dst i.
Proof.
  intros Hn Hd Hdn Hs Hsn. unfold memcpy. rewrite (proj2 (Z.ltb_ge n 0)) by lia.
  destruct (for_lt_inv (λ j d, zlen d = zlen dst ∧ ∀ i, 0 ≤ i < zlen dst →
      at_ d i = if (dpos <=? i) && (i <? dpos + j) then at_ src (spos + (i - dpos)) else at_ dst i)
    0 n (λ k d, x ← rd src (spos + k); wr d (dpos + k) x) dst) as (d & -> & Hlen & Hat); [lia|..].
  - split; [done|]. intros. destruct (Z.leb_spec dpos i), (Z.ltb_spec i (dpos + 0)); simpl; try done. lia.
  - intros j t Hj [Ht Hat]. rewrite (rd_at src) by lia. simpl. rewrite wr_ok by lia.
    eexists; split; [done|]. split; [by rewrite zlen_insert|]. intros i Hi.
    rewrite at_insert by lia. destruct (Z.eqb_spec (dpos + j) i) as [<-|].
    + rewrite (proj2 (Z.leb_le _ _)), (proj2 (Z.ltb_lt _ _)) by lia. simpl. f_equal. lia.
    + rewrite Hat by lia. destruct (Z.leb_spec dpos i), (Z.ltb_spec i (dpos + j)),
        (Z.ltb_spec i (dpos + (j + 1))); simpl; try done; lia.
  - eauto.
Qed.

Lemma memcpy_eq dst dpos src spos n :
  0 ≤ n → 0 ≤ dpos → dpos + n ≤ zlen dst → 0 ≤ spos → spos + n ≤ zlen src →
  memcpy dst dpos src spos n =
    Ok (take (Z.to_nat dpos) dst ++ take (Z.to_nat n) (drop (Z.to_nat spos) src) ++ drop (Z.to_nat (dpos + n)) dst).
Proof.
  intros Hn Hd Hdn Hs Hsn. destruct (memcpy_spec dst dpos src spos n) as (d & -> & Hl & Hat); [done..|].
  f_equal. unfold zlen in *. apply list_eq_at; unfold zlen.
  { rewrite !length_app, !length_take, !length_drop. lia. }
  intros i Hi. rewrite Hat by lia. unfold at_.
  assert (Ht : length (take (Z.to_nat dpos) dst) = Z.to_nat dpos) by (rewrite length_take; lia).
  assert (Hm : length (take (Z.to_nat n) (drop (Z.to_nat spos) src)) = Z.to_nat n)
    by (rewrite length_take, length_drop; lia).
  destruct (Z.leb_spec dpos i); cbn [andb].
  - rewrite lookup_total_app_r, Ht by lia. destruct (Z.ltb_spec i (dpos + n)).
    + rewrite lookup_total_app_l, lookup_total_take, decide_True, lookup_total_drop by lia. f_equal. lia.
    + rewrite lookup_total_app_r, Hm, lookup_total_drop by lia. f_equal. lia.
  - rewrite lookup_total_app_l, lookup_total_take, decide_True by lia. done.
Qed.

Lemma fresh_ok `{Target} n : 0 ≤ n → ∃ l, fresh n = Ok l ∧ zlen l = n ∧ bytes l.
Proof.
  intros. unfold fresh. rewrite (proj2 (Z.ltb_ge n 0)) by lia. eexists; split; [done|]. split.
  - unfold zlen. rewrite length_fmap, length_seq. lia.
  - apply Forall_fmap, Forall_forall. intros i _. apply u8_range.
Qed.

(** Case analysis on the boolean comparisons of [Z] in the goal. *)
Ltac zcmp :=
  repeat match goal with
  | |- context [?x <=? ?y] => destruct (Z.leb_spec x y)
  | |- context [?x <? ?y] => destruct (Z.ltb_spec x y)
  | |- context [?x =? ?y] => destruct (Z.eqb_spec x y)
  end; cbn [andb orb negb]; try done; try lia; try (exfalso; lia).

(** Take apart an equation [... = Ok _] of a monadic computation. *)
Ltac inv_ok :=
  repeat match goal with
  | H : mret _ = Ok _ |- _ => injection H; clear H; intros; subst
  | H : Ok _ = Ok _ |- _ => injection H; clear H; intros; subst
  | H : Fault _ = Ok _ |- _ => discriminate H
  | H : (_ ≫= _) = Ok _ |- _ =>
      let x := fresh "x" in let Hx := fresh "Hok" in
      apply bind_ok_inv in H as (x & Hx & H)
  end.

(** Step over a bind whose first computation is a known [Ok]. *)
Ltac step_ok H := rewrite (bind_ok _ _ _ H).

Create HintDb ipbm.
Create Rewrite HintDb ipbm_len.
#[export] Hint Resolve u8_range u16_range u32_range bytes_at bytes_insert bytes_replicate : ipbm.
#[export] Hint Rewrite @zlen_insert @zlen_replicate @zlen_app : ipbm_len.
