(* ===== verification/Bits.v ===== *)
(** * Bit strings over byte arrays

    The data plane addresses packet fields by bit offset and bit length, most
    significant bit of byte 0 first.  [bit_at p k] is bit [k] of the byte array
    [p]; [fv p b n] the unsigned value of the [n] bits that start at bit [b].
    The functions that read or write fields are specified with these two. *)

From stdpp Require Import base numbers list.
From Stdlib Require Import ZArith Lia.
From S2P Require Import Prelude.

#[local] Open Scope Z_scope.

Definition bit_at (p : list Z) (k : Z) : bool :=
  Z.testbit (at_ p (k / 8)) (7 - k mod 8).

Fixpoint fv (p : list Z) (b : Z) (n : nat) : Z :=
  match n with
  | O => 0
  | S m => 2 * fv p b m + Z.b2z (bit_at p (b + Z.of_nat m))
  end.

(** The value of a field of [len] bits at bit [b]. *)
Definition field_val (p : list Z) (b len : Z) : Z := fv p b (Z.to_nat len).

(** The unsigned value of a byte string, most significant byte first. *)
Fixpoint be_val (l : list Z) : Z :=
  match l with
  | [] => 0
  | x :: l' => x * 256 ^ zlen l' + be_val l'
  end.

Lemma b2z_range b : 0 ≤ Z.b2z b < 2.
Proof. destruct b; simpl; lia. Qed.

Lemma fv_range p b n : 0 ≤ fv p b n < 2 ^ Z.of_nat n.
Proof.
  induction n as [|n IH]; [simpl; lia|].
  rewrite Nat2Z.inj_succ, Z.pow_succ_r by lia. cbn [fv].
  pose proof (b2z_range (bit_at p (b + Z.of_nat n))). lia.
Qed.

Lemma field_val_range p b len : 0 ≤ len → 0 ≤ field_val p b len < 2 ^ len.
Proof.
  intros. unfold field_val. pose proof (fv_range p b (Z.to_nat len)) as H1.
  by rewrite Z2Nat.id in H1 by lia.
Qed.

Lemma fv_app p b m n :
  fv p b (m + n) = fv p b m * 2 ^ Z.of_nat n + fv p (b + Z.of_nat m) n.
Proof.
  induction n as [|n IH].
  - rewrite Nat.add_0_r. cbn [fv]. change (2 ^ Z.of_nat 0) with 1. lia.
  - rewrite Nat.add_succ_r. cbn [fv]. rewrite IH.
    rewrite Nat2Z.inj_succ, Z.pow_succ_r by lia.
    replace (b + Z.of_nat (m + n)) with (b + Z.of_nat m + Z.of_nat n) by lia. lia.
Qed.

Lemma field_val_app p b m n :
  0 ≤ m → 0 ≤ n →
  field_val p b (m + n) = field_val p b m * 2 ^ n + field_val p (b + m) n.
Proof.
  intros. unfold field_val. rewrite Z2Nat.inj_add, fv_app by lia.
  by rewrite !Z2Nat.id by lia.
Qed.

Lemma field_val_0 p b : field_val p b 0 = 0.
Proof. done. Qed.

Lemma fv_testbit p b n i :
  Z.testbit (fv p b n) i =
  (0 <=? i) && (i <? Z.of_nat n) && bit_at p (b + Z.of_nat n - 1 - i).
Proof.
  revert i. induction n as [|n IH]; intros i.
  - cbn [fv]. rewrite Z.bits_0. destruct (Z.leb_spec 0 i), (Z.ltb_spec i (Z.of_nat 0)); simpl; try done; lia.
  - cbn [fv]. destruct (Z.leb_spec 0 i) as [Hi|Hi]; simpl; cycle 1.
    { by rewrite Z.testbit_neg_r by lia. }
    destruct (Z.eq_dec i 0) as [->|Hi0].
    + rewrite Z.testbit_0_r. rewrite (proj2 (Z.ltb_lt 0 _)) by lia. simpl.
      f_equal. lia.
    + replace i with (Z.succ (i - 1)) at 1 by lia.
      rewrite Z.testbit_succ_r, IH by lia.
      rewrite (proj2 (Z.leb_le 0 (i - 1))) by lia. simpl.
      destruct (Z.ltb_spec (i - 1) (Z.of_nat n)) as [?|?], (Z.ltb_spec i (Z.of_nat (S n))) as [?|?];
        try (exfalso; lia); cbn [andb]; [|done]. f_equal. lia.
Qed.

Lemma field_val_testbit p b len i :
  0 ≤ len →
  Z.testbit (field_val p b len) i = (0 <=? i) && (i <? len) && bit_at p (b + len - 1 - i).
Proof. intros. unfold field_val. rewrite fv_testbit. by rewrite Z2Nat.id by lia. Qed.

(** A value is a field when its bits are. *)
Lemma field_val_unique p b len v :
  0 ≤ len → 0 ≤ v < 2 ^ len →
  (∀ i, 0 ≤ i < len → Z.testbit v i = bit_at p (b + len - 1 - i)) →
  v = field_val p b len.
Proof.
  intros Hlen Hv Hb. apply Z.bits_inj'. intros i Hi.
  rewrite field_val_testbit by done. rewrite (proj2 (Z.leb_le 0 i)) by done. simpl.
  destruct (Z.ltb_spec i len); simpl; [by apply Hb|].
  rewrite <- (Z.mod_small v (2 ^ len)) by done. apply Z.mod_pow2_bits_high. lia.
Qed.

(** Two arrays that agree on the bits of a field agree on the field. *)
Lemma field_val_ext p q b b' len :
  (∀ j, 0 ≤ j < len → bit_at p (b + j) = bit_at q (b' + j)) →
  field_val p b len = field_val q b' len.
Proof.
  intros H. destruct (Z.le_gt_cases 0 len); cycle 1.
  { unfold field_val. by replace (Z.to_nat len) with O by lia. }
  apply Z.bits_inj'. intros i Hi. rewrite !field_val_testbit by done.
  destruct (Z.leb_spec 0 i), (Z.ltb_spec i len); simpl; try done.
  replace (b + len - 1 - i) with (b + (len - 1 - i)) by lia.
  replace (b' + len - 1 - i) with (b' + (len - 1 - i)) by lia. apply H. lia.
Qed.

(** ... and a field determines its bits. *)
Lemma field_val_inj p q b b' len j :
  field_val p b len = field_val q b' len → 0 ≤ j < len →
  bit_at p (b + j) = bit_at q (b' + j).
Proof.
  intros H Hj. apply (f_equal (λ v, Z.testbit v (len - 1 - j))) in H.
  rewrite !field_val_testbit in H by lia.
  rewrite (proj2 (Z.leb_le 0 _)), (proj2 (Z.ltb_lt _ _)) in H by lia. simpl in H.
  replace (b + len - 1 - (len - 1 - j)) with (b + j) in H by lia.
  by replace (b' + len - 1 - (len - 1 - j)) with (b' + j) in H by lia.
Qed.

(** Bits of a value below 2^8, addressed from the most significant. *)
Lemma bit_at_byte p j o : 0 ≤ o < 8 → bit_at p (8 * j + o) = Z.testbit (at_ p j) (7 - o).
Proof.
  intros. unfold bit_at.
  replace ((8 * j + o) / 8) with j by dlia.
  by replace ((8 * j + o) mod 8) with o by dlia.
Qed.

(** A field inside one byte. *)
Lemma field_val_byte p j o n :
  bytes p → 0 ≤ o → 0 ≤ n → o + n ≤ 8 →
  field_val p (8 * j + o) n = (at_ p j / 2 ^ (8 - o - n)) mod 2 ^ n.
Proof.
  intros Hp Ho Hn Hon. symmetry. apply field_val_unique; [done|..].
  - apply Z.mod_pos_bound. apply Z.pow_pos_nonneg; lia.
  - intros i Hi. rewrite Z.mod_pow2_bits_low by lia.
    rewrite Z.div_pow2_bits by lia.
    replace (8 * j + o + n - 1 - i) with (8 * j + (o + n - 1 - i)) by lia.
    rewrite bit_at_byte by lia. f_equal. lia.
Qed.

(** The three shapes the code uses: a whole byte, its tail, its head. *)
Lemma field_val_whole p j : bytes p → field_val p (8 * j) 8 = at_ p j.
Proof.
  intros Hp. pose proof (bytes_at p j Hp).
  replace (8 * j) with (8 * j + 0) by lia.
  rewrite field_val_byte by (done || lia). change (8 - 0 - 8) with 0.
  rewrite Z.pow_0_r, Z.div_1_r. apply Z.mod_small. simpl. lia.
Qed.

Lemma field_val_tail p j o :
  bytes p → 0 ≤ o ≤ 8 → field_val p (8 * j + o) (8 - o) = at_ p j mod 2 ^ (8 - o).
Proof.
  intros Hp Ho. rewrite field_val_byte by (done || lia).
  replace (8 - o - (8 - o)) with 0 by lia. by rewrite Z.pow_0_r, Z.div_1_r.
Qed.

Lemma field_val_head p j n :
  bytes p → 0 ≤ n ≤ 8 → field_val p (8 * j) n = at_ p j / 2 ^ (8 - n).
Proof.
  intros Hp Hn. pose proof (bytes_at p j Hp) as Hb.
  replace (8 * j) with (8 * j + 0) by lia. rewrite field_val_byte by (done || lia).
  replace (8 - 0 - n) with (8 - n) by lia. apply Z.mod_small.
  assert (0 < 2 ^ (8 - n)) by (apply Z.pow_pos_nonneg; lia).
  split; [apply Z.div_pos; lia|]. apply Z.div_lt_upper_bound; [lia|].
  rewrite <- Z.pow_add_r by lia. replace (8 - n + n) with 8 by lia. simpl. lia.
Qed.

(** The value of a byte string is its bits read from bit 0. *)
Lemma at_cons_0 (x : Z) l : at_ (x :: l) 0 = x.
Proof. done. Qed.

Lemma at_cons_pos (x : Z) l i : 0 < i → at_ (x :: l) i = at_ l (i - 1).
Proof.
  intros. unfold at_. replace (Z.to_nat i) with (S (Z.to_nat (i - 1))) by lia. done.
Qed.

Lemma bit_at_cons x l k : 8 ≤ k → bit_at (x :: l) k = bit_at l (k - 8).
Proof.
  intros. unfold bit_at. rewrite at_cons_pos by dlia.
  f_equal; [f_equal; dlia|dlia].
Qed.

Lemma be_val_field l : bytes l → be_val l = field_val l 0 (8 * zlen l).
Proof.
  induction l as [|x l IH]; intros Hl; [done|].
  apply Forall_cons in Hl as [Hx Hl].
  assert (bytes (x :: l)) by by apply Forall_cons.
  unfold zlen. cbn [length be_val]. rewrite Nat2Z.inj_succ.
  replace (8 * Z.succ (Z.of_nat (length l))) with (8 + 8 * zlen l) by (unfold zlen; lia).
  pose proof (zlen_nonneg l).
  rewrite field_val_app by lia.
  change 0 with (8 * 0) at 1. rewrite field_val_whole by done. rewrite at_cons_0.
  f_equal.
  - f_equal. rewrite (Z.pow_mul_r 2 8) by lia. done.
  - rewrite IH by done. apply field_val_ext. intros j Hj.
    rewrite bit_at_cons by lia. f_equal. lia.
Qed.

Lemma be_val_range l : bytes l → 0 ≤ be_val l < 2 ^ (8 * zlen l).
Proof.
  intros. rewrite be_val_field by done. apply field_val_range.
  pose proof (zlen_nonneg l). lia.
Qed.

(** ** Stores

    What a store of one field leaves: [field_set p b len v q] says that [q] is
    [p] with the [len] bits at bit [b] replaced by the value [v]. *)
Definition field_set (p : list Z) (b len v : Z) (q : list Z) : Prop :=
  zlen q = zlen p ∧ bytes q ∧
  ∀ k, 0 ≤ k < 8 * zlen p →
    bit_at q k = if (b <=? k) && (k <? b + len) then Z.testbit v (b + len - 1 - k)
                 else bit_at p k.

(** The field reads back as the value... *)
Lemma field_set_same p b len v q :
  0 ≤ b → 0 ≤ len → b + len ≤ 8 * zlen p → 0 ≤ v < 2 ^ len →
  field_set p b len v q → field_val q b len = v.
Proof.
  intros Hb Hlen Hend Hv (_ & _ & Hq). symmetry. apply field_val_unique; [done..|].
  intros i Hi. rewrite Hq by lia.
  rewrite (proj2 (Z.leb_le _ _)), (proj2 (Z.ltb_lt _ _)) by lia. simpl. f_equal. lia.
Qed.

(** ... and every field disjoint from it is unchanged. *)
Lemma field_set_other p b len v q b' len' :
  0 ≤ b' → 0 ≤ len' → b' + len' ≤ 8 * zlen p → b' + len' ≤ b ∨ b + len ≤ b' →
  field_set p b len v q → field_val q b' len' = field_val p b' len'.
Proof.
  intros Hb Hlen Hend Hdisj (_ & _ & Hq). apply field_val_ext. intros j Hj.
  rewrite Hq by lia.
  destruct (Z.leb_spec b (b' + j)), (Z.ltb_spec (b' + j) (b + len)); simpl; try done; lia.
Qed.

(** Bytes are stored one at a time: [q] agrees with [p] outside, and inside each
    byte of the window has the expected bits. *)
Lemma field_set_bytes p q b len v :
  zlen q = zlen p → bytes q →
  (∀ j o, 0 ≤ j < zlen p → 0 ≤ o < 8 →
     Z.testbit (at_ q j) (7 - o) =
     if (b <=? 8 * j + o) && (8 * j + o <? b + len)
     then Z.testbit v (b + len - 1 - (8 * j + o)) else Z.testbit (at_ p j) (7 - o)) →
  field_set p b len v q.
Proof.
  intros Hlen Hq H. repeat split; [done..|]. intros k Hk.
  replace k with (8 * (k / 8) + k mod 8) by dlia.
  rewrite !bit_at_byte by dlia. apply H; dlia.
Qed.

(** Addition of values with disjoint bits. *)
Lemma add_disjoint a b n :
  0 ≤ n → 0 ≤ b < 2 ^ n → Z.land a (Z.ones n) = 0 → a + b = Z.lor a b.
Proof.
  intros Hn Hb Ha.
  rewrite <- Z.lxor_lor, Z.add_nocarry_lxor; [done|..].
  all: apply Z.bits_inj'; intros i Hi; rewrite Z.land_spec, Z.bits_0.
  all: destruct (Z.lt_ge_cases i n).
  all: try (apply (f_equal (λ x, Z.testbit x i)) in Ha; rewrite Z.land_spec, Z.bits_0, Z.ones_spec_low, andb_true_r in Ha by lia; by rewrite Ha).
  all: rewrite <- (Z.mod_small b (2 ^ n)) by done; rewrite Z.mod_pow2_bits_high by lia; apply andb_false_r.
Qed.


Lemma testbit_small v n i : 0 ≤ v < 2 ^ n → n ≤ i → Z.testbit v i = false.
Proof.
  intros Hv Hi. destruct (Z.lt_ge_cases n 0).
  { rewrite Z.pow_neg_r in Hv by done. lia. }
  rewrite <- (Z.mod_small v (2 ^ n)) by done. by apply Z.mod_pow2_bits_high.
Qed.

Lemma be_val_testbit l t :
  bytes l →
  Z.testbit (be_val l) t = (0 <=? t) && (t <? 8 * zlen l) && bit_at l (8 * zlen l - 1 - t).
Proof.
  intros. pose proof (zlen_nonneg l). rewrite be_val_field by done.
  rewrite field_val_testbit by lia. do 2 f_equal.
Qed.

(** A property of three small naturals, checked by computation. *)
Lemma small3 (P : Z → Z → Z → bool) (a b c : nat) :
  forallb (λ i, forallb (λ j, forallb (λ k, P (Z.of_nat i) (Z.of_nat j) (Z.of_nat k))
    (seq 0 c)) (seq 0 b)) (seq 0 a) = true →
  ∀ x y z, 0 ≤ x < Z.of_nat a → 0 ≤ y < Z.of_nat b → 0 ≤ z < Z.of_nat c → P x y z = true.
Proof.
  intros H x y z Hx Hy Hz.
  rewrite forallb_forall in H. specialize (H (Z.to_nat x)). rewrite forallb_forall in H.
  specialize (H ltac:(apply in_seq; lia) (Z.to_nat y)). rewrite forallb_forall in H.
  specialize (H ltac:(apply in_seq; lia) (Z.to_nat z) ltac:(apply in_seq; lia)).
  by rewrite !Z2Nat.id in H by lia.
Qed.

(** The mask that keeps the [l] high bits and the [r] low bits of a byte. *)
Definition keepz (l r : Z) : Z := 256 - 2 ^ (8 - l) + 2 ^ r - 1.

Lemma keepz_testbit l r o :
  0 ≤ l → 0 ≤ r → l + r ≤ 8 → 0 ≤ o < 8 →
  Z.testbit (keepz l r) (7 - o) = (o <? l) || (8 - r <=? o).
Proof.
  intros. assert (H3 := small3 (λ l r o, (8 <? l + r) ||
    eqb (Z.testbit (keepz l r) (7 - o)) ((o <? l) || (8 - r <=? o))) 9 9 8 eq_refl l r o
    ltac:(lia) ltac:(lia) ltac:(lia)).
  cbv beta in H3. rewrite (proj2 (Z.ltb_ge 8 (l + r))) in H3 by lia. simpl in H3.
  by apply eqb_prop in H3.
Qed.

(** One byte of a left shift by [re < 8] of a byte string. *)
Lemma shl_pair_bits a b re o :
  0 ≤ a < 256 → 0 ≤ b < 256 → 0 ≤ re < 8 → 0 ≤ o < 8 →
  Z.testbit (u8 (u8 (a * 2 ^ re) + b / 2 ^ (8 - re))) (7 - o) =
  if o + re <? 8 then Z.testbit a (7 - o - re) else Z.testbit b (15 - o - re).
Proof.
  intros Ha Hb Hre Ho. pose proof (u8_range (a * 2 ^ re)) as Hu.
  assert (Hp : 0 < 2 ^ re) by (apply Z.pow_pos_nonneg; lia).
  assert (Hp' : 0 < 2 ^ (8 - re)) by (apply Z.pow_pos_nonneg; lia).
  assert (H8 : 2 ^ re * 2 ^ (8 - re) = 256).
  { rewrite <- Z.pow_add_r by lia. by replace (re + (8 - re)) with 8 by lia. }
  assert (Hd : 0 ≤ b / 2 ^ (8 - re) < 2 ^ re).
  { split; [apply Z.div_pos; lia|]. apply Z.div_lt_upper_bound; lia. }
  assert (Hbits : ∀ i, 0 ≤ i < 8 → Z.testbit (u8 (a * 2 ^ re)) i = (re <=? i) && Z.testbit a (i - re)).
  { intros i Hi. unfold u8. change 256 with (2 ^ 8). rewrite Z.mod_pow2_bits_low by lia.
    destruct (Z.leb_spec re i); cbn [andb]; [by rewrite Z.mul_pow2_bits by lia|by rewrite Z.mul_pow2_bits_low by lia]. }
  rewrite (add_disjoint _ _ re); [|lia|lia|].
  - unfold u8 at 1. change 256 with (2 ^ 8) at 1. rewrite Z.mod_pow2_bits_low by lia.
    rewrite Z.lor_spec, Hbits by lia. rewrite Z.div_pow2_bits by lia.
    destruct (Z.ltb_spec (o + re) 8).
    + rewrite (proj2 (Z.leb_le _ _)) by lia. simpl.
      rewrite (testbit_small b 8 (7 - o + (8 - re))) by (simpl; lia). rewrite orb_false_r. f_equal. 
    + rewrite (proj2 (Z.leb_gt _ _)) by lia. simpl. f_equal. lia.
  - apply Z.bits_inj'. intros i Hi. rewrite Z.land_spec, Z.bits_0.
    destruct (Z.lt_ge_cases i re); [|rewrite Z.ones_spec_high by lia; apply andb_false_r].
    rewrite Hbits by lia. by rewrite (proj2 (Z.leb_gt _ _)) by lia.
Qed.

(** Bytes given by their value position by position. *)
Lemma bytes_of_at l : (∀ i, 0 ≤ i < zlen l → 0 ≤ at_ l i < 256) → bytes l.
Proof.
  intros H. apply Forall_lookup_2. intros i x Hx. apply lookup_lt_Some in Hx as Hi.
  specialize (H (Z.of_nat i) ltac:(unfold zlen; lia)). unfold at_ in H. rewrite Nat2Z.id in H.
  by rewrite (list_lookup_total_correct _ _ _ Hx) in H.
Qed.

(** The store loop every field writer of the data plane ends with: byte [i] of
    the window becomes [(p & keep) + r]. *)
Lemma store_window p bb n le re len v r q :
  bytes p → bytes r → 0 ≤ bb → 1 ≤ n → bb + n ≤ zlen p → zlen r = n →
  0 ≤ le < 8 → 0 ≤ re < 8 → 0 ≤ len → le + len + re = 8 * n → 0 ≤ v < 2 ^ len →
  (∀ i o, 0 ≤ i < n → 0 ≤ o < 8 →
     Z.testbit (at_ r i) (7 - o) = Z.testbit v (le + len - 1 - (8 * i + o))) →
  zlen q = zlen p →
  (∀ j, 0 ≤ j < zlen p → at_ q j =
     if (bb <=? j) && (j <? bb + n)
     then u8 (Z.land (at_ p j) (keepz (if j =? bb then le else 0)
                                      (if j =? bb + n - 1 then re else 0)) + at_ r (j - bb))
     else at_ p j) →
  field_set p (8 * bb + le) len v q.
Proof.
  intros Hp Hr Hbb Hn Hend Hrl Hle Hre Hlen Htot Hv Hbits Hql Hq.
  assert (Hbyte : ∀ j o, 0 ≤ j < zlen p → 0 ≤ o < 8 → bb ≤ j < bb + n →
    Z.testbit (at_ q j) (7 - o) =
    (Z.testbit (at_ p j) (7 - o) && ((8 * j + o <? 8 * bb + le) || (8 * bb + le + len <=? 8 * j + o)))
    || Z.testbit v (8 * bb + le + len - 1 - (8 * j + o))).
  { intros j o Hj Ho Hw. rewrite Hq by done.
    rewrite (proj2 (Z.leb_le _ _)), (proj2 (Z.ltb_lt _ _)) by lia. cbn [andb].
    set (kl := if j =? bb then le else 0). set (kr := if j =? bb + n - 1 then re else 0).
    assert (Hk : 0 ≤ kl ∧ 0 ≤ kr ∧ kl + kr ≤ 8). { subst kl kr. zcmp. }
    assert (Hkt : ∀ o, 0 ≤ o < 8 → Z.testbit (keepz kl kr) (7 - o) =
      (8 * j + o <? 8 * bb + le) || (8 * bb + le + len <=? 8 * j + o)).
    { intros o' Ho'. rewrite keepz_testbit by lia. subst kl kr. destruct (Z.eqb_spec j bb), (Z.eqb_spec j (bb + n - 1)); zcmp. }
    assert (Hrt : ∀ o, 0 ≤ o < 8 → Z.testbit (at_ r (j - bb)) (7 - o) =
      Z.testbit v (8 * bb + le + len - 1 - (8 * j + o))).
    { intros o' Ho'. rewrite Hbits by lia. f_equal. lia. }
    assert (Hdis : Z.land (Z.land (at_ p j) (keepz kl kr)) (at_ r (j - bb)) = 0).
    { apply Z.bits_inj'. intros i Hi. rewrite !Z.land_spec, Z.bits_0.
      destruct (Z.lt_ge_cases i 8); cycle 1.
      { rewrite (testbit_small (at_ r (j - bb)) 8) by (pose proof (bytes_at r (j - bb) Hr); simpl; lia).
        apply andb_false_r. }
      replace i with (7 - (7 - i)) by lia. rewrite Hkt, Hrt by lia.
      destruct (Z.ltb_spec (8 * j + (7 - i)) (8 * bb + le)).
      { rewrite (testbit_small v len) by lia. apply andb_false_r. }
      destruct (Z.leb_spec (8 * bb + le + len) (8 * j + (7 - i))).
      { rewrite (Z.testbit_neg_r v) by lia. apply andb_false_r. }
      cbn [orb]. by rewrite andb_false_r. }
    rewrite Z.add_nocarry_lxor, Z.lxor_lor by exact Hdis.
    unfold u8. change 256 with (2 ^ 8). rewrite Z.mod_pow2_bits_low by lia.
    by rewrite Z.lor_spec, Z.land_spec, Hkt, Hrt by lia. }
  apply field_set_bytes; [done|..].
  - apply bytes_of_at. intros i Hi. rewrite Hq by lia.
    destruct (_ && _); [apply u8_range|by apply bytes_at].
  - intros j o Hj Ho. destruct (Z.leb_spec bb j), (Z.ltb_spec j (bb + n)).
    { rewrite Hbyte by lia.
      destruct (Z.leb_spec (8 * bb + le) (8 * j + o)), (Z.ltb_spec (8 * j + o) (8 * bb + le + len)),
        (Z.ltb_spec (8 * j + o) (8 * bb + le)), (Z.leb_spec (8 * bb + le + len) (8 * j + o));
        cbn [andb orb]; try lia; rewrite ?andb_false_r, ?andb_true_r; try done.
      - rewrite (Z.testbit_neg_r v) by lia. by rewrite orb_false_r.
      - rewrite (testbit_small v len) by lia. by rewrite orb_false_r. }
    all: rewrite Hq by done; zcmp.
Qed.

(** The big-endian digits of a number. *)
Lemma be_val_digits r D n :
  zlen r = n → (∀ i, 0 ≤ i < n → at_ r i = u8 (D / 2 ^ (8 * (n - 1 - i)))) →
  be_val r = D mod 2 ^ (8 * n).
Proof.
  intros Hn H. pose proof (zlen_nonneg r).
  assert (Hr : bytes r) by (apply bytes_of_at; intros; rewrite H by lia; apply u8_range).
  apply Z.bits_inj'. intros t Ht. rewrite be_val_testbit, Hn by done.
  rewrite (proj2 (Z.leb_le 0 t)) by done. cbn [andb].
  destruct (Z.ltb_spec t (8 * n)); cbn [andb]; [|by rewrite Z.mod_pow2_bits_high by lia].
  rewrite Z.mod_pow2_bits_low by lia.
  set (k := 8 * n - 1 - t). replace k with (8 * (k / 8) + k mod 8) by dlia.
  rewrite bit_at_byte by dlia. rewrite H by (subst k; dlia).
  unfold u8. change 256 with (2 ^ 8). rewrite Z.mod_pow2_bits_low by dlia.
  rewrite Z.div_pow2_bits by (subst k; dlia). f_equal. subst k. dlia.
Qed.

(** Bits [y .. y+len-1] of a number only depend on it modulo a higher power. *)
Lemma mod_div_mod v n y len :
  0 ≤ y → 0 ≤ len → y + len ≤ n → ((v mod 2 ^ n) / 2 ^ y) mod 2 ^ len = (v / 2 ^ y) mod 2 ^ len.
Proof.
  intros. apply Z.bits_inj'. intros i Hi. destruct (Z.lt_ge_cases i len).
  - rewrite !Z.mod_pow2_bits_low, !Z.div_pow2_bits by lia. by rewrite Z.mod_pow2_bits_low by lia.
  - by rewrite !Z.mod_pow2_bits_high by lia.
Qed.

Lemma u32_mod_pow x n : 0 ≤ n ≤ 32 → u32 x mod 2 ^ n = x mod 2 ^ n.
Proof.
  intros. pose proof (mod_div_mod x 32 0 n ltac:(lia) ltac:(lia) ltac:(lia)) as H1.
  by rewrite !Z.pow_0_r, !Z.div_1_r in H1.
Qed.

(** [x << (32 - len) >> (32 - len)] on [uint32_t] keeps the [len] low bits. *)
Lemma shl_shr_low x len :
  1 ≤ len ≤ 32 → (u32 (x * 2 ^ (32 - len))) / 2 ^ (32 - len) = x mod 2 ^ len.
Proof.
  intros. unfold u32. assert (0 < 2 ^ (32 - len)) by (apply Z.pow_pos_nonneg; lia).
  assert (0 < 2 ^ len) by (apply Z.pow_pos_nonneg; lia).
  replace 4294967296 with (2 ^ len * 2 ^ (32 - len)); cycle 1.
  { rewrite <- Z.pow_add_r by lia. by replace (len + (32 - len)) with 32 by lia. }
  rewrite Z.mul_mod_distr_r by lia. by rewrite Z.div_mul by lia.
Qed.

(** The middle [len] bits of a longer run. *)
Lemma field_val_slice p b x len y :
  0 ≤ x → 0 ≤ len → 0 ≤ y →
  (field_val p b (x + len + y) / 2 ^ y) mod 2 ^ len = field_val p (b + x) len.
Proof.
  intros. rewrite !field_val_app by lia.
  pose proof (field_val_range p (b + x) len ltac:(lia)).
  pose proof (field_val_range p (b + (x + len)) y ltac:(lia)).
  rewrite Z.div_add_l by (apply Z.pow_nonzero; lia).
  rewrite (Z.div_small (field_val p (b + (x + len)) y)) by lia.
  rewrite Z.add_0_r, Z.add_comm, Z.mod_add by (apply Z.pow_nonzero; lia).
  by apply Z.mod_small.
Qed.

(** A byte put together from the low bits of one byte and the high bits of the next. *)
Lemma u8_join k a b :
  0 ≤ k ≤ 8 → 0 ≤ b < 2 ^ k → u8 (b + a * 2 ^ k) = (a mod 2 ^ (8 - k)) * 2 ^ k + b.
Proof.
  intros Hk Hb. symmetry. apply (Z.mod_unique_pos _ _ (a / 2 ^ (8 - k))).
  - assert (0 < 2 ^ (8 - k)) by (apply Z.pow_pos_nonneg; lia).
    pose proof (Z.mod_pos_bound a (2 ^ (8 - k)) ltac:(lia)).
    assert (H8 : 256 = 2 ^ (8 - k) * 2 ^ k).
    { rewrite <- Z.pow_add_r by lia. by replace (8 - k + k) with 8 by lia. }
    rewrite H8. nia.
  - assert (H8 : 256 = 2 ^ (8 - k) * 2 ^ k).
    { rewrite <- Z.pow_add_r by lia. by replace (8 - k + k) with 8 by lia. }
    rewrite H8. pose proof (Z.div_mod a (2 ^ (8 - k)) (Z.pow_nonzero 2 (8 - k) ltac:(lia) ltac:(lia))). nia.
Qed.

(** ** Digits

    Byte [i] of the [n] bytes that hold a number, most significant first. *)
Definition digit (V n i : Z) : Z := u8 (V / 2 ^ (8 * (n - 1 - i))).

Lemma digit_range V n i : 0 ≤ digit V n i < 256.
Proof. apply u8_range. Qed.

Lemma digit_testbit V n i o :
  0 ≤ i < n → 0 ≤ o < 8 → Z.testbit (digit V n i) (7 - o) = Z.testbit V (8 * n - 1 - (8 * i + o)).
Proof.
  intros. unfold digit, u8. change 256 with (2 ^ 8). rewrite Z.mod_pow2_bits_low by lia.
  rewrite Z.div_pow2_bits by lia. f_equal. lia.
Qed.

Lemma be_val_digit l i : bytes l → 0 ≤ i < zlen l → at_ l i = digit (be_val l) (zlen l) i.
Proof.
  intros Hl Hi. unfold digit, u8. rewrite be_val_field by done.
  replace (8 * zlen l) with (8 * i + 8 + 8 * (zlen l - 1 - i)) by lia.
  change 256 with (2 ^ 8). rewrite field_val_slice by lia. by rewrite Z.add_0_l, field_val_whole.
Qed.

(** Byte strings of one length are told apart by their values. *)
Lemma be_val_inj l k : bytes l → bytes k → zlen l = zlen k → be_val l = be_val k → l = k.
Proof.
  intros Hl Hk Hlen Hv. apply list_eq_at; [done|]. intros i Hi.
  rewrite (be_val_digit l i), (be_val_digit k i) by (done || lia). by rewrite Hv, Hlen.
Qed.

(** A byte is its eight bits. *)
Lemma byte_ext a b :
  0 ≤ a < 256 → 0 ≤ b < 256 →
  (∀ o, 0 ≤ o < 8 → Z.testbit a (7 - o) = Z.testbit b (7 - o)) → a = b.
Proof.
  intros Ha Hb H. apply Z.bits_inj'. intros i Hi. destruct (Z.lt_ge_cases i 8).
  - replace i with (7 - (7 - i)) by lia. apply H. lia.
  - by rewrite !(testbit_small _ 8) by (simpl; lia).
Qed.

(** The digits of a number shifted left by less than a byte, and right. *)
Lemma digit_shl V n i re :
  0 ≤ i < n → 0 ≤ re < 8 →
  u8 (u8 (digit V n i * 2 ^ re) + (if i + 1 <? n then digit V n (i + 1) else 0) / 2 ^ (8 - re)) =
  digit (V * 2 ^ re) n i.
Proof.
  intros Hi Hre. set (b := if i + 1 <? n then digit V n (i + 1) else 0).
  assert (Hb : 0 ≤ b < 256) by (subst b; case_match; [apply digit_range|lia]).
  apply byte_ext; [apply u8_range|apply digit_range|]. intros o Ho.
  rewrite shl_pair_bits by (done || apply digit_range || lia). rewrite (digit_testbit (V * _)) by lia.
  destruct (Z.ltb_spec (o + re) 8).
  - replace (7 - o - re) with (7 - (o + re)) by lia. rewrite digit_testbit, Z.mul_pow2_bits by lia.
    f_equal. lia.
  - subst b. destruct (Z.ltb_spec (i + 1) n).
    + replace (15 - o - re) with (7 - (o + re - 8)) by lia.
      rewrite digit_testbit, Z.mul_pow2_bits by lia. f_equal. lia.
    + rewrite Z.bits_0, Z.mul_pow2_bits_low by lia. done.
Qed.

Lemma digit_shr V n i re :
  0 ≤ i < n → 0 ≤ V < 2 ^ (8 * n) → 0 < re < 8 →
  u8 (u8 ((if 0 <? i then digit V n (i - 1) else 0) * 2 ^ (8 - re)) + digit V n i / 2 ^ re) =
  digit (V / 2 ^ re) n i.
Proof.
  intros Hi HV Hre. set (a := if 0 <? i then digit V n (i - 1) else 0).
  assert (Ha : 0 ≤ a < 256) by (subst a; case_match; [apply digit_range|lia]).
  apply byte_ext; [apply u8_range|apply digit_range|]. intros o Ho.
  replace re with (8 - (8 - re)) at 2 by lia.
  rewrite shl_pair_bits by (done || apply digit_range || lia). rewrite (digit_testbit (V / _)) by lia.
  rewrite Z.div_pow2_bits by lia.
  destruct (Z.ltb_spec (o + (8 - re)) 8).
  - subst a. destruct (Z.ltb_spec 0 i).
    + replace (7 - o - (8 - re)) with (7 - (o + (8 - re))) by lia.
      rewrite digit_testbit by lia. f_equal. lia.
    + rewrite Z.bits_0. symmetry. apply (testbit_small V (8 * n)); lia.
  - replace (15 - o - (8 - re)) with (7 - (o - re)) by lia. rewrite digit_testbit by lia. f_equal. lia.
Qed.

(** Bytes that are the digits of a value. *)
Lemma digits_val r V n :
  zlen r = n → 0 ≤ V < 2 ^ (8 * n) → (∀ i, 0 ≤ i < n → at_ r i = digit V n i) → be_val r = V.
Proof. intros Hn HV H. rewrite (be_val_digits r V n) by done. by apply Z.mod_small. Qed.

Lemma bytes_field r p b n :
  zlen r = n → (∀ j, 0 ≤ j < n → at_ r j = field_val p (b + 8 * j) 8) →
  be_val r = field_val p b (8 * n).
Proof.
  intros Hn H. pose proof (zlen_nonneg r).
  apply (digits_val r _ n); [done|apply field_val_range; lia|]. intros j Hj. rewrite H by done.
  unfold digit, u8. change 256 with (2 ^ 8).
  replace (8 * n) with (8 * j + 8 + 8 * (n - 1 - j)) by lia. by rewrite field_val_slice by lia.
Qed.

(** Clearing the bits at the left and at the right of a byte. *)
Lemma mask_left_bits b l o :
  0 ≤ b < 256 → 0 ≤ l < 8 → 0 ≤ o < 8 →
  Z.testbit (Z.shiftr (u8 (Z.shiftl b l)) l) (7 - o) = (l <=? o) && Z.testbit b (7 - o).
Proof.
  intros Hb Hl Ho. rewrite Z.shiftr_spec by lia. unfold u8. change 256 with (2 ^ 8).
  destruct (Z.leb_spec l o); cbn [andb].
  - rewrite Z.mod_pow2_bits_low, Z.shiftl_spec by lia. f_equal. lia.
  - by rewrite Z.mod_pow2_bits_high by lia.
Qed.

Lemma mask_right_bits b r o :
  0 ≤ b < 256 → 0 ≤ r < 8 → 0 ≤ o < 8 →
  Z.testbit (u8 (Z.shiftl (Z.shiftr b r) r)) (7 - o) = (o <? 8 - r) && Z.testbit b (7 - o).
Proof.
  intros Hb Hl Ho. unfold u8. change 256 with (2 ^ 8). rewrite Z.mod_pow2_bits_low, Z.shiftl_spec by lia.
  destruct (Z.ltb_spec o (8 - r)); cbn [andb].
  - rewrite Z.shiftr_spec by lia. f_equal. lia.
  - by rewrite Z.testbit_neg_r by lia.
Qed.

#[export] Hint Resolve fv_range field_val_range be_val_range : ipbm.
