(* ===== verification/Phv.v ===== *)
(** * The packet header vector (defs.h) and the operations on it (global.cpp)

    The data the stages of the data plane share: field descriptors, operands,
    SRAM and TCAM geometry, and the packet header vector [PHV] a packet travels
    in.  The functions of global.cpp that read and write packet fields follow,
    with what they do to the bits of the packet. *)

From stdpp Require Import base numbers list.
From Stdlib Require Import ZArith Lia.
From S2P Require Import Prelude Bits.

#[local] Open Scope Z_scope.

(** ** Constants of defs.h *)
Definition SRAM_DEPTH : Z := 10.
Definition SRAM_WIDTH : Z := 128.
Definition PHYSICAL_SRAM_CAPACITY : Z := 128 * 1024.
Definition TCAM_DEPTH : Z := 10.
Definition TCAM_WIDTH : Z := 64.
Definition PHYSICAL_TCAM_CAPACITY : Z := 64 * 1024.
Definition MATCHER_THREAD_NUM : Z := 16.
Definition EXECUTOR_ACTION_NUM : Z := 32.
Definition SRAM_NUM_ALL : Z := 80.
Definition TCAM_NUM_ALL : Z := 64.
Definition CLUSTER_NUM : Z := 4.
Definition PROC_NUM : Z := 12.
Definition PROC_NUM_PER_CLUSTER : Z := PROC_NUM / CLUSTER_NUM.
Definition SRAM_NUM_PER_CLUSTER : Z := SRAM_NUM_ALL / CLUSTER_NUM.
Definition SRAM_IDX_BASE : Z := SRAM_NUM_ALL / CLUSTER_NUM.
Definition TCAM_NUM_PER_CLUSTER : Z := TCAM_NUM_ALL / CLUSTER_NUM.
Definition TCAM_IDX_BASE : Z := TCAM_NUM_ALL / CLUSTER_NUM.
Definition FRONT_HEADER_LEN : Z := 1500.
Definition META_LEN : Z := 100.

(** ** Data *)
Inductive OpCode : Set :=
| ADD | SUB | MUL | DIV | MOD
| SHIFT_LEFT | SHIFT_RIGHT | BIT_AND | BIT_OR | BIT_XOR | BIT_NEG
| SET_FIELD | COPY_FIELD
| SET_TTL | DECREMENT_TTL | COPY_TTL_OUTWARDS | COPY_TTL_INWARDS
| PUSH | POP | DECREMENT.

Inductive FieldType : Set := FIELD | VALID | HIT | MISS.
#[export] Instance FieldType_eq_dec : EqDecision FieldType.
Proof. solve_decision. Defined.

(** Offsets and lengths in bits. *)
Record HeaderInfo : Set := mkHeaderInfo {
  hi_id : Z;       (** uint8_t hdr_id *)
  hdr_offset : Z;  (** uint16_t *)
  hdr_len : Z      (** uint16_t *)
}.
#[export] Instance HeaderInfo_inhabited : Inhabited HeaderInfo := populate (mkHeaderInfo 0 0 0).

Record FieldInfo : Set := mkFieldInfo {
  hdr_id : Z;            (** uint8_t *)
  internal_offset : Z;   (** uint16_t *)
  fd_len : Z;            (** uint16_t *)
  fd_type : FieldType
}.

(** An array of [length val] bytes with a length in bits; the null pointer is
    the empty array. *)
Record Data : Set := mkData { data_len : Z; val : list Z }.

(** The parameter of an action, the same shape with its own type in the code. *)
Record ActionParam : Set := mkActionParam { action_para_len : Z; ap_val : list Z }.

(** [Parameter_] (the code's [Parameter]) and [GateParam] are a type tag and a union; the code writes the
    tag and the member it selects together. *)
Inductive Parameter_ : Set :=
| CONSTANT (d : Data)
| HEADER (header_id : Z)
| PFIELD (f : FieldInfo)
| PARAM (action_para_id : Z)
| OPERATOR (op : OpCode).

Inductive GateParam : Set :=
| GCONSTANT (d : Data)
| GFIELD (f : FieldInfo)
| GOTHER.   (** a type tag the gateway does not evaluate *)

Inductive GateEntryType : Set := TABLE | STAGE.
Record GateEntry : Set := mkGateEntry { ge_type : GateEntryType; ge_val : Z }.

Record PHV : Type := mkPHV {
  packet : list Z;   (** uint8_t packet[FRONT_HEADER_LEN + META_LEN] *)
  parsed_headers : list HeaderInfo;   (** HeaderInfo* parsed_headers[32], each pointing to its own object *)
  valid_bitmap : list Z;   (** uint8_t valid_bitmap[32] *)
  bitmap : Z;   (** uint32_t *)
  cur_state : Z;   (** int *)
  cur_offset : Z;   (** uint16_t *)
  cur_trans_fd_num : Z;   (** int *)
  cur_trans_key : Z;   (** uint32_t *)
  tcam_miss : bool;   (** never read *)
  miss_act : Z;   (** uint8_t: 0 accept, 1 drop, else go on *)
  match_value : option (list Z);   (** uint8_t *; [None] before the first hit stores one *)
  match_value_len : Z;   (** int *)
  hit : bool;
  drop_flag : Z;   (** int drop, never read *)
  next_proc_id : Z;   (** int, -1 ends the pipeline *)
  next_matcher_id : Z;   (** int, never read *)
  next_action_id : Z;   (** int *)
  next_op : GateEntry;   (** written by the gateway before it is read *)
  ig_if : Z;   (** int *)
  eg_if : Z   (** int *)
}.

(** [PHV()]: the members with initialisers, and 32 zeroed headers.  The pointer
    [match_value] and [match_value_len], [next_op] have none. *)
Definition PHV_init `{Target} : PHV := {|
  packet := replicate (Z.to_nat (FRONT_HEADER_LEN + META_LEN)) 0;
  parsed_headers := replicate 32 (mkHeaderInfo 0 0 0);
  valid_bitmap := replicate 32 0;
  bitmap := 0; cur_state := 0; cur_offset := 0; cur_trans_fd_num := 0;
  cur_trans_key := 65535; tcam_miss := true; miss_act := 2;
  match_value := None; match_value_len := i32 (junk 0);
  hit := false; drop_flag := 0; next_proc_id := 0; next_matcher_id := 0;
  next_action_id := 0; next_op := mkGateEntry TABLE (i32 (junk 1));
  ig_if := 0; eg_if := 0
|}.

(** ** Assignments to members *)
Definition set_packet (v : list Z) (p : PHV) : PHV :=
  mkPHV v p.(parsed_headers) p.(valid_bitmap) p.(bitmap) p.(cur_state) p.(cur_offset)
    p.(cur_trans_fd_num) p.(cur_trans_key) p.(tcam_miss) p.(miss_act) p.(match_value)
    p.(match_value_len) p.(hit) p.(drop_flag) p.(next_proc_id) p.(next_matcher_id)
    p.(next_action_id) p.(next_op) p.(ig_if) p.(eg_if).
Definition set_parsed_headers (v : list HeaderInfo) (p : PHV) : PHV :=
  mkPHV p.(packet) v p.(valid_bitmap) p.(bitmap) p.(cur_state) p.(cur_offset)
    p.(cur_trans_fd_num) p.(cur_trans_key) p.(tcam_miss) p.(miss_act) p.(match_value)
    p.(match_value_len) p.(hit) p.(drop_flag) p.(next_proc_id) p.(next_matcher_id)
    p.(next_action_id) p.(next_op) p.(ig_if) p.(eg_if).
Definition set_valid_bitmap (v : list Z) (p : PHV) : PHV :=
  mkPHV p.(packet) p.(parsed_headers) v p.(bitmap) p.(cur_state) p.(cur_offset)
    p.(cur_trans_fd_num) p.(cur_trans_key) p.(tcam_miss) p.(miss_act) p.(match_value)
    p.(match_value_len) p.(hit) p.(drop_flag) p.(next_proc_id) p.(next_matcher_id)
    p.(next_action_id) p.(next_op) p.(ig_if) p.(eg_if).
Definition set_bitmap (v : Z) (p : PHV) : PHV :=
  mkPHV p.(packet) p.(parsed_headers) p.(valid_bitmap) v p.(cur_state) p.(cur_offset)
    p.(cur_trans_fd_num) p.(cur_trans_key) p.(tcam_miss) p.(miss_act) p.(match_value)
    p.(match_value_len) p.(hit) p.(drop_flag) p.(next_proc_id) p.(next_matcher_id)
    p.(next_action_id) p.(next_op) p.(ig_if) p.(eg_if).
Definition set_cur_state (v : Z) (p : PHV) : PHV :=
  mkPHV p.(packet) p.(parsed_headers) p.(valid_bitmap) p.(bitmap) v p.(cur_offset)
    p.(cur_trans_fd_num) p.(cur_trans_key) p.(tcam_miss) p.(miss_act) p.(match_value)
    p.(match_value_len) p.(hit) p.(drop_flag) p.(next_proc_id) p.(next_matcher_id)
    p.(next_action_id) p.(next_op) p.(ig_if) p.(eg_if).
Definition set_cur_offset (v : Z) (p : PHV) : PHV :=
  mkPHV p.(packet) p.(parsed_headers) p.(valid_bitmap) p.(bitmap) p.(cur_state) v
    p.(cur_trans_fd_num) p.(cur_trans_key) p.(tcam_miss) p.(miss_act) p.(match_value)
    p.(match_value_len) p.(hit) p.(drop_flag) p.(next_proc_id) p.(next_matcher_id)
    p.(next_action_id) p.(next_op) p.(ig_if) p.(eg_if).
Definition set_cur_trans_fd_num (v : Z) (p : PHV) : PHV :=
  mkPHV p.(packet) p.(parsed_headers) p.(valid_bitmap) p.(bitmap) p.(cur_state) p.(cur_offset) v
    p.(cur_trans_key) p.(tcam_miss) p.(miss_act) p.(match_value) p.(match_value_len) p.(hit)
    p.(drop_flag) p.(next_proc_id) p.(next_matcher_id) p.(next_action_id) p.(next_op) p.(ig_if)
    p.(eg_if).
Definition set_cur_trans_key (v : Z) (p : PHV) : PHV :=
  mkPHV p.(packet) p.(parsed_headers) p.(valid_bitmap) p.(bitmap) p.(cur_state) p.(cur_offset)
    p.(cur_trans_fd_num) v p.(tcam_miss) p.(miss_act) p.(match_value) p.(match_value_len)
    p.(hit) p.(drop_flag) p.(next_proc_id) p.(next_matcher_id) p.(next_action_id) p.(next_op)
    p.(ig_if) p.(eg_if).
Definition set_miss_act (v : Z) (p : PHV) : PHV :=
  mkPHV p.(packet) p.(parsed_headers) p.(valid_bitmap) p.(bitmap) p.(cur_state) p.(cur_offset)
    p.(cur_trans_fd_num) p.(cur_trans_key) p.(tcam_miss) v p.(match_value) p.(match_value_len)
    p.(hit) p.(drop_flag) p.(next_proc_id) p.(next_matcher_id) p.(next_action_id) p.(next_op)
    p.(ig_if) p.(eg_if).
Definition set_match_value (v : option (list Z)) (p : PHV) : PHV :=
  mkPHV p.(packet) p.(parsed_headers) p.(valid_bitmap) p.(bitmap) p.(cur_state) p.(cur_offset)
    p.(cur_trans_fd_num) p.(cur_trans_key) p.(tcam_miss) p.(miss_act) v p.(match_value_len)
    p.(hit) p.(drop_flag) p.(next_proc_id) p.(next_matcher_id) p.(next_action_id) p.(next_op)
    p.(ig_if) p.(eg_if).
Definition set_match_value_len (v : Z) (p : PHV) : PHV :=
  mkPHV p.(packet) p.(parsed_headers) p.(valid_bitmap) p.(bitmap) p.(cur_state) p.(cur_offset)
    p.(cur_trans_fd_num) p.(cur_trans_key) p.(tcam_miss) p.(miss_act) p.(match_value) v p.(hit)
    p.(drop_flag) p.(next_proc_id) p.(next_matcher_id) p.(next_action_id) p.(next_op) p.(ig_if)
    p.(eg_if).
Definition set_hit (v : bool) (p : PHV) : PHV :=
  mkPHV p.(packet) p.(parsed_headers) p.(valid_bitmap) p.(bitmap) p.(cur_state) p.(cur_offset)
    p.(cur_trans_fd_num) p.(cur_trans_key) p.(tcam_miss) p.(miss_act) p.(match_value)
    p.(match_value_len) v p.(drop_flag) p.(next_proc_id) p.(next_matcher_id) p.(next_action_id)
    p.(next_op) p.(ig_if) p.(eg_if).
Definition set_next_proc_id (v : Z) (p : PHV) : PHV :=
  mkPHV p.(packet) p.(parsed_headers) p.(valid_bitmap) p.(bitmap) p.(cur_state) p.(cur_offset)
    p.(cur_trans_fd_num) p.(cur_trans_key) p.(tcam_miss) p.(miss_act) p.(match_value)
    p.(match_value_len) p.(hit) p.(drop_flag) v p.(next_matcher_id) p.(next_action_id)
    p.(next_op) p.(ig_if) p.(eg_if).
Definition set_next_action_id (v : Z) (p : PHV) : PHV :=
  mkPHV p.(packet) p.(parsed_headers) p.(valid_bitmap) p.(bitmap) p.(cur_state) p.(cur_offset)
    p.(cur_trans_fd_num) p.(cur_trans_key) p.(tcam_miss) p.(miss_act) p.(match_value)
    p.(match_value_len) p.(hit) p.(drop_flag) p.(next_proc_id) p.(next_matcher_id) v p.(next_op)
    p.(ig_if) p.(eg_if).
Definition set_next_op (v : GateEntry) (p : PHV) : PHV :=
  mkPHV p.(packet) p.(parsed_headers) p.(valid_bitmap) p.(bitmap) p.(cur_state) p.(cur_offset)
    p.(cur_trans_fd_num) p.(cur_trans_key) p.(tcam_miss) p.(miss_act) p.(match_value)
    p.(match_value_len) p.(hit) p.(drop_flag) p.(next_proc_id) p.(next_matcher_id)
    p.(next_action_id) v p.(ig_if) p.(eg_if).
Definition set_ig_if (v : Z) (p : PHV) : PHV :=
  mkPHV p.(packet) p.(parsed_headers) p.(valid_bitmap) p.(bitmap) p.(cur_state) p.(cur_offset)
    p.(cur_trans_fd_num) p.(cur_trans_key) p.(tcam_miss) p.(miss_act) p.(match_value)
    p.(match_value_len) p.(hit) p.(drop_flag) p.(next_proc_id) p.(next_matcher_id)
    p.(next_action_id) p.(next_op) v p.(eg_if).

(** [phv->parsed_headers[i]->hdr_offset] and friends. *)
Definition header_of (phv : PHV) (i : Z) : res HeaderInfo := rd phv.(parsed_headers) i.

(** ** global.cpp *)

(** [get_field_value]: the loop starts at [i = byte_end], where the shift count
    is -8; it also reads one byte past the field. *)
Definition get_field_value `{Target} (fdInfo : FieldInfo) (phv : PHV) : res Z :=
  hi ← header_of phv fdInfo.(hdr_id);
  let start := hi.(hdr_offset) + fdInfo.(internal_offset) in
  let end_ := start + fdInfo.(fd_len) in
  let byte_start := start / 8 in
  let byte_end := end_ / 8 + (if end_ mod 8 =? 0 then 0 else 1) in
  let right_shift := 8 - (if end_ mod 8 =? 0 then 8 else end_ mod 8) in
  value ← for_ge byte_end byte_start (λ i value,
    b ← rd phv.(packet) i;
    mret (u32 (value + shl32 b ((byte_end - 1 - i) * 8)))) 0;
  mret (shr32 (shl32 (shr32 value right_shift) (32 - fdInfo.(fd_len))) (32 - fdInfo.(fd_len))).

(** One byte of the mask of bits to keep: [left] high bits and [right] low bits. *)
Definition keep_mask (left right : Z) : res Z :=
  sd ← for_lt 0 left (λ j sd, mret (u8 (sd + Z.shiftl 1 (7 - j)))) 0;
  for_lt 0 right (λ j sd, mret (u8 (sd + Z.shiftl 1 j))) sd.

(** The byte length [modify_phv_with_data] gives its buffer. In the aligned case
    the source reads [a + b ? 1 : 0], which is [(a + b) ? 1 : 0]. *)
Definition mod_buf_len (dlen end_offset : Z) : Z :=
  if end_offset =? 0 then
    if Z.quot dlen 8 + Z.rem dlen 8 =? 0 then 0 else 1
  else
    Z.quot (dlen + (8 - end_offset)) 8 +
    (if Z.rem (dlen + (8 - end_offset)) 8 =? 0 then 0 else 1).

(** The first loop of [modify_phv_with_data]: the data, shifted left so that it
    ends where the field ends. *)
Definition mod_shift_loop (v : list Z) (end_offset origin_len : Z) (st : list Z * Z)
    : res (list Z * Z) :=
  for_ge (origin_len - 1) 0 (λ i '(buf, idx),
    x ← rd v i;
    b ← rd buf idx;
    buf ← wr buf idx (u8 (b + Z.shiftl x (8 - (if end_offset =? 0 then 8 else end_offset))));
    if 0 <? idx then
      b1 ← rd buf (idx - 1);
      buf ← wr buf (idx - 1) (u8 (b1 + Z.shiftr x end_offset));
      mret (buf, idx - 1)
    else mret (buf, idx)) st.

(** Its second loop: the bytes of the packet from the last to the first, the bits
    outside the field kept. *)
Definition mod_store_loop (buf : list Z) (byte_begin byte_end begin_offset end_offset : Z)
    (st : list Z * Z) : res (list Z * Z) :=
  for_ge byte_end byte_begin (λ i '(pkt, idx),
    let save_bit_num_right := if (i =? byte_end) && negb (end_offset =? 0) then 8 - end_offset else 0 in
    let save_bit_num_left := if (i =? byte_begin) && negb (begin_offset =? 0) then begin_offset else 0 in
    sd ← keep_mask save_bit_num_left save_bit_num_right;
    p ← rd pkt i;
    r ← rd buf idx;
    pkt ← wr pkt i (u8 (Z.land p sd + r));
    mret (pkt, idx - 1)) st.

Definition modify_phv_with_data (field : FieldInfo) (data : Data) (phv : PHV) : res PHV :=
  hi ← header_of phv field.(hdr_id);
  let begin := hi.(hdr_offset) + field.(internal_offset) in
  let end_ := begin + field.(fd_len) in
  let begin_offset := begin mod 8 in
  let end_offset := end_ mod 8 in
  let byte_begin := begin / 8 in
  let byte_end := end_ / 8 - (if end_offset =? 0 then 1 else 0) in
  let origin_len := Z.quot data.(data_len) 8 + (if Z.rem data.(data_len) 8 =? 0 then 0 else 1) in
  let len := mod_buf_len data.(data_len) end_offset in
  buf ← zeros len;
  '(buf, _) ← mod_shift_loop data.(val) end_offset origin_len (buf, len - 1);
  '(pkt, _) ← mod_store_loop buf byte_begin byte_end begin_offset end_offset (phv.(packet), len - 1);
  mret (set_packet pkt phv).

(** [get_uints]: the [length] low bits of [data] as bytes, highest first; the
    masked copy the source computes is not used. *)
Definition get_uints `{Target} (data length : Z) : res (list Z) :=
  let byte_len := ceil8 length in
  r ← fresh byte_len;
  for_ge (byte_len - 1) 0 (λ i r, wr r i (u8 (shr32 (u32 data) ((byte_len - 1 - i) * 8)))) r.

Definition drop_packet `{Target} (phv : PHV) : res PHV :=
  d ← get_uints 0 9;
  modify_phv_with_data (mkFieldInfo 31 9 9 FIELD) (mkData 9 d) phv.

(** ** What they do to the packet *)

Lemma keep_mask_eq l r : 0 ≤ l → 0 ≤ r → l + r ≤ 8 → keep_mask l r = Ok (keepz l r).
Proof.
  intros.
  assert (H3 := small3 (λ l r _, (8 <? l + r) ||
    match keep_mask l r with Ok x => x =? keepz l r | Fault _ => false end) 9 9 1 eq_refl l r 0
    ltac:(lia) ltac:(lia) ltac:(lia)).
  cbv beta in H3. rewrite (proj2 (Z.ltb_ge 8 (l + r))) in H3 by lia. cbn [orb] in H3.
  destruct (keep_mask l r); [|done]. by apply Z.eqb_eq in H3 as ->.
Qed.

(** The byte [k] of the data shifted left by [re] bits, the data being [d]
    bytes shorter than the buffer at the front. *)
Definition data_byte (v : list Z) (i : Z) : Z :=
  if (0 <=? i) && (i <? zlen v) then at_ v i else 0.
Definition shifted_byte (v : list Z) (d re k : Z) : Z :=
  u8 (u8 (data_byte v (k - d) * 2 ^ re) + data_byte v (k - d + 1) / 2 ^ (8 - re)).

Lemma data_byte_range v i : bytes v → 0 ≤ data_byte v i < 256.
Proof. intros. unfold data_byte. destruct (_ && _); [by apply bytes_at|lia]. Qed.

(** Bit [o] of that byte is a bit of the data's value. *)
Lemma shifted_byte_bit v d re n k o :
  bytes v → 0 ≤ re < 8 → 0 ≤ o < 8 → zlen v = n - d → 0 ≤ k < n →
  Z.testbit (shifted_byte v d re k) (7 - o) = Z.testbit (be_val v) (8 * n - re - 1 - (8 * k + o)).
Proof.
  intros Hv Hre Ho Hlen Hk. unfold shifted_byte.
  rewrite shl_pair_bits by (done || by apply data_byte_range).
  assert (Hbyte : ∀ i o', 0 ≤ o' < 8 → i < zlen v →
    Z.testbit (data_byte v i) (7 - o') = Z.testbit (be_val v) (8 * zlen v - 1 - (8 * i + o'))).
  { intros i o' Ho' Hi. rewrite be_val_testbit by done. unfold data_byte.
    destruct (Z.leb_spec 0 i); cbn [andb].
    - rewrite (proj2 (Z.ltb_lt i _)), (proj2 (Z.leb_le 0 _)), (proj2 (Z.ltb_lt _ (8 * zlen v))) by lia.
      cbn [andb]. rewrite <- bit_at_byte by lia. f_equal. lia.
    - rewrite Z.bits_0, (proj2 (Z.ltb_ge _ (8 * zlen v))) by lia. by rewrite andb_false_r. }
  destruct (Z.ltb_spec (o + re) 8).
  - replace (7 - o - re) with (7 - (o + re)) by lia. rewrite Hbyte by lia. f_equal. lia.
  - replace (15 - o - re) with (7 - (o + re - 8)) by lia.
    destruct (Z.lt_ge_cases (k - d + 1) (zlen v)).
    + rewrite Hbyte by lia. f_equal. lia.
    + unfold data_byte. rewrite (proj2 (Z.ltb_ge (k - d + 1) _)) by lia.
      rewrite andb_false_r, Z.bits_0. by rewrite Z.testbit_neg_r by lia.
Qed.

Lemma shifted_byte_range v d re k : 0 ≤ shifted_byte v d re k < 256.
Proof. apply u8_range. Qed.

(** The shift loop fills the buffer with the shifted data. *)
Lemma mod_shift_loop_spec v eo d n :
  bytes v → 0 < eo < 8 → 0 ≤ d ≤ 1 → 1 ≤ zlen v → n = zlen v + d →
  ∃ buf idx, mod_shift_loop v eo (zlen v) (replicate (Z.to_nat n) 0, n - 1) = Ok (buf, idx) ∧
    zlen buf = n ∧ ∀ k, 0 ≤ k < n → at_ buf k = shifted_byte v d (8 - eo) k.
Proof.
  intros Hv Heo Hd HL Hn. unfold mod_shift_loop. rewrite (proj2 (Z.eqb_neq eo 0)) by lia.
  set (I := λ (i : Z) (st : list Z * Z), let '(buf, idx) := st in
    zlen buf = n ∧ idx = Z.max 0 (i + d) ∧ ∀ k, 0 ≤ k < n → at_ buf k =
      if i + d <? k then shifted_byte v d (8 - eo) k
      else if k =? i + d then data_byte v (i + 1) / 2 ^ eo else 0).
  destruct (for_ge_inv I (zlen v - 1) 0 (λ i '(buf, idx),
    x ← rd v i; b ← rd buf idx; buf ← wr buf idx (u8 (b + Z.shiftl x (8 - eo)));
    if 0 <? idx then b1 ← rd buf (idx - 1); buf ← wr buf (idx - 1) (u8 (b1 + Z.shiftr x eo)); mret (buf, idx - 1)
    else mret (buf, idx)) (replicate (Z.to_nat n) 0, n - 1)) as ([buf idx] & -> & Hlen & Hidx & Hbuf).
  - lia.
  - split; [rewrite zlen_replicate; lia|]. split; [lia|]. intros k Hk. rewrite at_replicate by lia.
    destruct (Z.ltb_spec (zlen v - 1 + d) k); [lia|]. destruct (Z.eqb_spec k (zlen v - 1 + d)); [|done].
    unfold data_byte. rewrite (proj2 (Z.ltb_ge _ (zlen v))) by lia. by rewrite andb_false_r.
  - intros i [buf idx] Hi (Hlen & -> & Hbuf). rewrite Z.max_r by lia.
    rewrite (rd_at v), (rd_at buf) by lia. cbn [mbind res_mbind]. rewrite wr_ok by lia. cbn [mbind res_mbind].
    set (buf1 := <[Z.to_nat (i + d) := _]> buf).
    assert (H1 : at_ buf1 (i + d) = shifted_byte v d (8 - eo) (i + d)).
    { subst buf1. rewrite at_insert_eq by lia. rewrite Hbuf by lia.
      rewrite Z.ltb_irrefl, Z.eqb_refl, Z.shiftl_mul_pow2 by lia. unfold shifted_byte.
      replace (i + d - d) with i by lia. replace (8 - (8 - eo)) with eo by lia.
      unfold data_byte at 2. rewrite (proj2 (Z.leb_le 0 i)), (proj2 (Z.ltb_lt i _)) by lia. cbn [andb].
      unfold u8. rewrite Zplus_mod_idemp_l. f_equal. lia. }
    assert (H2 : ∀ k, 0 ≤ k < n → k ≠ i + d → at_ buf1 k = at_ buf k).
    { intros. subst buf1. apply at_insert_ne; lia. }
    assert (Hl1 : zlen buf1 = n) by (subst buf1; by rewrite zlen_insert).
    clearbody buf1. destruct (Z.ltb_spec 0 (i + d)).
    + rewrite (rd_at buf1) by lia. cbn [mbind res_mbind]. rewrite wr_ok by lia. cbn [mbind res_mbind].
      eexists; split; [done|]. split; [by rewrite zlen_insert|]. split; [lia|]. intros k Hk.
      rewrite at_insert by lia. replace (i - 1 + d) with (i + d - 1) by lia.
      rewrite (H2 (i + d - 1)), Hbuf by lia.
      rewrite (proj2 (Z.ltb_ge (i + d) (i + d - 1))), (proj2 (Z.eqb_neq (i + d - 1) (i + d))) by lia.
      replace (i - 1 + 1) with i by lia.
      destruct (Z.eqb_spec (i + d - 1) k) as [<-|].
      * rewrite Z.ltb_irrefl, Z.eqb_refl. unfold data_byte.
        rewrite (proj2 (Z.leb_le 0 i)), (proj2 (Z.ltb_lt i _)) by lia. cbn [andb].
        rewrite Z.shiftr_div_pow2 by lia. pose proof (bytes_at v i Hv).
        rewrite Z.add_0_l. apply u8_small. split; [apply Z.div_pos; lia|].
        apply Z.div_lt_upper_bound; [lia|]. assert (0 < 2 ^ eo) by (apply Z.pow_pos_nonneg; lia). nia.
      * destruct (Z.eq_dec k (i + d)) as [->|]; [rewrite H1; zcmp|].
        rewrite H2, Hbuf by lia. zcmp.
    + eexists; split; [done|]. split; [done|]. split; [lia|]. intros k Hk.
      rewrite (proj2 (Z.ltb_lt (i - 1 + d) k)) by lia.
      destruct (Z.eq_dec k (i + d)) as [->|]; [done|]. rewrite H2, Hbuf by lia.
      rewrite (proj2 (Z.ltb_lt (i + d) k)) by lia. done.
  - exists buf, idx. split; [done|]. split; [done|]. intros k Hk. rewrite Hbuf by done.
    destruct (Z.ltb_spec (0 - 1 + d) k); [done|]. destruct (Z.eqb_spec k (0 - 1 + d)) as [->|]; [|lia].
    unfold shifted_byte. replace (0 - 1 + d - d) with (-1) by lia. replace (8 - (8 - eo)) with eo by lia.
    replace (-1 + 1) with 0 by lia. replace (0 - 1 + 1) with 0 by lia.
    unfold data_byte at 2. cbn [Z.leb]. rewrite (proj2 (Z.leb_gt 0 (-1))) by lia. cbn [andb].
    rewrite Z.mul_0_l. cbn [u8]. change (u8 0) with 0. rewrite Z.add_0_l. symmetry. apply u8_small.
    pose proof (data_byte_range v 0 Hv). split; [apply Z.div_pos; lia|].
    apply Z.div_lt_upper_bound; [lia|]. assert (0 < 2 ^ eo) by (apply Z.pow_pos_nonneg; lia). nia.
Qed.

(** The store loop writes the window [byte_begin .. byte_end]. *)
Lemma store_loop_spec pkt buf bb be le eo re :
  0 ≤ bb ≤ be → be < zlen pkt → zlen buf = be - bb + 1 →
  0 ≤ le < 8 → 0 ≤ re < 8 → (bb = be → le + re ≤ 8) → eo = (if re =? 0 then 0 else 8 - re) →
  ∃ q idx, mod_store_loop buf bb be le eo (pkt, zlen buf - 1) = Ok (q, idx) ∧
    zlen q = zlen pkt ∧ ∀ j, 0 ≤ j < zlen pkt → at_ q j =
     if (bb <=? j) && (j <? bb + zlen buf)
     then u8 (Z.land (at_ pkt j) (keepz (if j =? bb then le else 0)
                 (if j =? bb + zlen buf - 1 then re else 0)) + at_ buf (j - bb))
     else at_ pkt j.
Proof.
  intros Hbb Hbe Hbuf Hle Hre Hfit Heo. unfold mod_store_loop.
  set (new := λ j, u8 (Z.land (at_ pkt j) (keepz (if j =? bb then le else 0)
                 (if j =? bb + zlen buf - 1 then re else 0)) + at_ buf (j - bb))).
  set (I := λ (i : Z) (st : list Z * Z), let '(q, idx) := st in
    zlen q = zlen pkt ∧ idx = i - bb ∧
    ∀ j, 0 ≤ j < zlen pkt → at_ q j = if (i <? j) && (j <=? be) then new j else at_ pkt j).
  edestruct (for_ge_inv I be bb) as ([q idx] & Hrun & Hlen & _ & Hq);
    [lia| | |rewrite Hrun; exists q, idx; split; [done|]; split; [done|]].
  - split; [done|]. split; [lia|]. intros j Hj. zcmp.
  - intros i [q idx] Hi (Hlen & -> & Hq). cbv zeta.
    assert (Hk : keep_mask (if (i =? bb) && negb (le =? 0) then le else 0)
        (if (i =? be) && negb (eo =? 0) then 8 - eo else 0) =
      Ok (keepz (if i =? bb then le else 0) (if i =? bb + zlen buf - 1 then re else 0))).
    { rewrite keep_mask_eq.
      - f_equal. f_equal; subst eo; zcmp.
      - zcmp.
      - subst eo. zcmp.
      - subst eo. zcmp. }
    rewrite Hk. cbn [mbind res_mbind]. rewrite (rd_at q), (rd_at buf) by lia.
    cbn [mbind res_mbind]. rewrite wr_ok by lia. eexists; split; [done|].
    split; [by rewrite zlen_insert|]. split; [lia|]. intros j Hj.
    rewrite at_insert by lia. destruct (Z.eqb_spec i j) as [->|].
    + rewrite Hq by lia. rewrite Z.ltb_irrefl, (proj2 (Z.ltb_lt (j - 1) j)), (proj2 (Z.leb_le j be)) by lia.
      done.
    + rewrite Hq by lia. zcmp.
  - intros j Hj. rewrite Hq by done. subst new. cbv beta. zcmp.
Qed.

(** [modify_phv_with_data] stores the value of the data in the field and leaves
    every other bit of the packet alone, when the field does not end on a byte
    boundary, the data has the field's length and its value fits. *)
Lemma modify_phv_field_set field data phv hi :
  header_of phv field.(hdr_id) = Ok hi →
  bytes phv.(packet) → bytes data.(val) →
  0 ≤ hi.(hdr_offset) → 0 ≤ field.(internal_offset) → 1 ≤ field.(fd_len) →
  data.(data_len) = field.(fd_len) → zlen data.(val) = ceil8 data.(data_len) →
  be_val data.(val) < 2 ^ field.(fd_len) →
  let begin := hi.(hdr_offset) + field.(internal_offset) in
  (begin + field.(fd_len)) mod 8 ≠ 0 → begin + field.(fd_len) ≤ 8 * zlen phv.(packet) →
  ∃ q, modify_phv_with_data field data phv = Ok (set_packet q phv) ∧
    field_set phv.(packet) begin field.(fd_len) (be_val data.(val)) q.
Proof.
  intros Hhi Hp Hd Hho Hio Hfl Hdl Hvl Hfit begin Heo Hend.
  pose proof (be_val_range _ Hd) as Hv0.
  unfold modify_phv_with_data. rewrite Hhi. cbn [mbind res_mbind]. fold begin.
  unfold ceil8 in Hvl. rewrite Hdl in *.
  set (L := field.(fd_len)) in *. set (eo := (begin + L) mod 8) in *.
  assert (Hb0 : 0 ≤ begin) by lia.
  assert (Heo' : 0 < eo < 8) by (subst eo; dlia).
  rewrite (proj2 (Z.eqb_neq eo 0)) by lia.
  rewrite !Z.quot_div_nonneg, !Z.rem_mod_nonneg by lia.
  assert (Hol : L / 8 + (if L mod 8 =? 0 then 0 else 1) = zlen (val data)) by (rewrite Hvl; zcmp; dlia).
  rewrite Hol.
  assert (Hbuf : mod_buf_len L eo = (begin + L) / 8 - begin / 8 + 1).
  { unfold mod_buf_len. rewrite (proj2 (Z.eqb_neq eo 0)) by lia.
    rewrite Z.quot_div_nonneg, Z.rem_mod_nonneg by lia. subst eo. zcmp; dlia. }
  set (n := (begin + L) / 8 - begin / 8 + 1) in *. rewrite Hbuf.
  assert (Hn : 1 ≤ n) by (subst n; dlia).
  assert (Hd01 : 0 ≤ n - zlen (val data) ≤ 1) by (rewrite Hvl; subst n eo; dlia).
  rewrite zeros_ok by lia. cbn [mbind res_mbind].
  destruct (mod_shift_loop_spec (val data) eo (n - zlen (val data)) n) as (buf & idx & -> & Hbl & Hba);
    [done|lia|lia|rewrite Hvl; dlia|lia|]. cbn [mbind res_mbind].
  destruct (store_loop_spec (packet phv) buf (begin / 8) ((begin + L) / 8) (begin mod 8) eo (8 - eo))
    as (q & idx' & Hrun & Hql & Hq).
  1-7: first [lia | subst n; dlia | subst eo; dlia | zcmp].
  rewrite <- Hbl, Z.sub_0_r, Hrun. cbn [mbind res_mbind]. exists q. split; [done|].
  replace begin with (8 * (begin / 8) + begin mod 8) at 1 by dlia.
  eapply (store_window (packet phv) (begin / 8) n (begin mod 8) (8 - eo) L (be_val (val data)) buf);
    try done; try lia; try (subst n eo; dlia).
  - apply bytes_of_at. intros i Hi. rewrite Hba by lia. apply shifted_byte_range.
  - intros i o Hi Ho. rewrite Hba by lia.
    rewrite (shifted_byte_bit _ _ _ n) by (done || lia). f_equal. subst n eo. dlia.
  - by rewrite <- Hbl.
Qed.

(** [get_uints] of up to 32 bits: the bytes of [data], whole bytes only. *)
Lemma get_uints_spec `{Target} data length :
  0 ≤ length ≤ 32 →
  ∃ r, get_uints data length = Ok r ∧ bytes r ∧ zlen r = ceil8 length ∧
    be_val r = u32 data mod 2 ^ (8 * ceil8 length).
Proof.
  intros Hl. unfold get_uints. set (n := ceil8 length). assert (Hn : 0 ≤ n ≤ 4) by (subst n; unfold ceil8; dlia).
  unfold fresh. rewrite (proj2 (Z.ltb_ge n 0)) by lia. cbn [mbind res_mbind].
  set (r0 := _ <$> seq 0 (Z.to_nat n)).
  assert (Hr0 : zlen r0 = n) by (subst r0; unfold zlen; rewrite length_fmap, length_seq; lia).
  clearbody r0.
  destruct (for_ge_inv (λ i r, zlen r = n ∧ ∀ j, i < j < n → at_ r j = u8 (u32 data / 2 ^ (8 * (n - 1 - j))))
    (n - 1) 0 (λ i r, wr r i (u8 (shr32 (u32 data) ((n - 1 - i) * 8)))) r0) as (r & -> & Hlen & Hr).
  - lia.
  - split; [done|]. lia.
  - intros i r Hi (Hlen & Hr). rewrite wr_ok by lia. eexists; split; [done|].
    split; [by rewrite zlen_insert|]. intros j Hj. rewrite at_insert by lia.
    destruct (Z.eqb_spec i j) as [<-|]; [|apply Hr; lia].
    rewrite shr32_in by lia. do 3 f_equal. lia.
  - exists r. split; [done|]. split; [|split; [done|]].
    + apply bytes_of_at. intros i Hi. rewrite Hr by lia. apply u8_range.
    + apply be_val_digits; [done|]. intros i Hi. apply Hr. lia.
Qed.

(** On x86 [get_field_value] returns the field, for the fields short enough that
    the byte its first, out-of-range shift adds in does not reach them. *)
Lemma get_field_value_x86 fdInfo phv hi :
  header_of phv fdInfo.(hdr_id) = Ok hi → bytes phv.(packet) →
  0 ≤ hi.(hdr_offset) → 0 ≤ fdInfo.(internal_offset) → 1 ≤ fdInfo.(fd_len) →
  let start := hi.(hdr_offset) + fdInfo.(internal_offset) in
  let end_ := start + fdInfo.(fd_len) in
  end_ < 8 * zlen phv.(packet) - 8 → fdInfo.(fd_len) + (- end_) mod 8 ≤ 24 →
  get_field_value (H := x86) fdInfo phv = Ok (field_val phv.(packet) start fdInfo.(fd_len)).
Proof.
  intros Hhi Hp Hho Hio Hfl start end_ Hend H24. unfold get_field_value. rewrite Hhi. cbn [mbind res_mbind].
  fold start. fold end_. set (p := phv.(packet)) in *. set (L := fdInfo.(fd_len)) in *.
  set (rs := 8 - (if end_ mod 8 =? 0 then 8 else end_ mod 8)).
  set (be := end_ / 8 + (if end_ mod 8 =? 0 then 0 else 1)).
  assert (Hrs : rs = 8 * be - end_ ∧ rs = (- end_) mod 8) by (subst rs be; zcmp; dlia).
  destruct (for_ge_inv (λ i v, 0 ≤ v < 2 ^ 32 ∧ (if i =? be then v = 0 else v mod 2 ^ 24 =
      field_val p (8 * (i + 1)) (8 * (be - 1 - i)) mod 2 ^ 24)) be (start / 8) (λ i value,
    b ← rd p i; mret (u32 (value + shl32 (H := x86) b ((be - 1 - i) * 8)))) 0) as (v & -> & Hv0 & Hv).
  - subst be. zcmp; dlia.
  - by rewrite Z.eqb_refl.
  - intros i v Hi [Hv0 Hv]. rewrite rd_at by (subst be; zcmp; dlia). cbn [mbind res_mbind].
    eexists; split; [done|]. split; [apply u32_range|]. rewrite (proj2 (Z.eqb_neq (i - 1) be)) by lia.
    pose proof (bytes_at p i Hp) as Hb.
    destruct (Z.eqb_spec i be) as [->|Hne].
    + subst v. replace (be - 1 - (be - 1)) with 0 by lia. change (8 * 0) with 0.
      rewrite field_val_0, Z.add_0_l. replace ((be - 1 - be) * 8) with (-8) by lia.
      assert (shl32 (H := x86) (at_ p be) (-8) = u32 (Z.shiftl (at_ p be) 24)) as -> by done.
      rewrite Z.shiftl_mul_pow2 by lia. unfold u32. change (2 ^ 24) with 16777216. dlia.
    + replace (be - 1 - (i - 1)) with (1 + (be - 1 - i)) by lia.
      replace (8 * (1 + (be - 1 - i))) with (8 + 8 * (be - 1 - i)) by lia.
      replace (8 * (i - 1 + 1)) with (8 * i) by lia.
      assert (Hm : be - 1 - i ≤ 3) by (subst be; zcmp; dlia).
      rewrite field_val_app, field_val_whole by (done || lia).
      replace (8 * i + 8) with (8 * (i + 1)) by lia.
      rewrite shl32_in by lia. replace ((be - 1 - i) * 8) with (8 * (be - 1 - i)) by lia.
      rewrite u32_mod_pow, Zplus_mod, u32_mod_pow, Hv, <- Zplus_mod by lia. f_equal. lia.
  - cbn [mbind res_mbind]. unfold mret, res_mret. f_equal.
    assert (Hbs : (start / 8 - 1 =? be) = false) by (apply Z.eqb_neq; subst be; zcmp; dlia).
    rewrite Hbs in Hv. replace (start / 8 - 1 + 1) with (start / 8) in Hv by lia.
    assert (Hrs8 : 0 ≤ rs < 8) by dlia.
    rewrite shr32_in by lia. rewrite shl32_in by lia. rewrite shr32_in by lia.
    rewrite shl_shr_low by lia. rewrite <- (mod_div_mod v 24), Hv, mod_div_mod by lia.
    replace (8 * (be - 1 - (start / 8 - 1))) with (start - 8 * (start / 8) + L + rs) by lia.
    rewrite field_val_slice by (try lia; dlia). f_equal. lia.
Qed.

(** [set_packet] and the other members. *)
Lemma header_of_set_packet q phv i : header_of (set_packet q phv) i = header_of phv i.
Proof. done. Qed.

(** Writing a field with [modify_phv_with_data] and reading it back with
    [get_field_value], and the fields beside it. *)
Lemma modify_get_field field data phv hi :
  header_of phv field.(hdr_id) = Ok hi →
  bytes phv.(packet) → bytes data.(val) →
  0 ≤ hi.(hdr_offset) → 0 ≤ field.(internal_offset) → 1 ≤ field.(fd_len) →
  data.(data_len) = field.(fd_len) → zlen data.(val) = ceil8 data.(data_len) →
  be_val data.(val) < 2 ^ field.(fd_len) →
  let begin := hi.(hdr_offset) + field.(internal_offset) in
  let end_ := begin + field.(fd_len) in
  end_ mod 8 ≠ 0 → end_ < 8 * zlen phv.(packet) - 8 → field.(fd_len) + (- end_) mod 8 ≤ 24 →
  ∃ phv', modify_phv_with_data field data phv = Ok phv' ∧
    get_field_value (H := x86) field phv' = Ok (be_val data.(val)) ∧
    ∀ b len, 0 ≤ b → 0 ≤ len → b + len ≤ 8 * zlen phv.(packet) →
      b + len ≤ begin ∨ end_ ≤ b → field_val phv'.(packet) b len = field_val phv.(packet) b len.
Proof.
  intros Hhi Hp Hd Hho Hio Hfl Hdl Hvl Hfit begin end_ He Hend H24.
  destruct (modify_phv_field_set field data phv hi) as (q & Hm & Hq); try done; [lia|].
  pose proof Hq as (Hql & Hqb & _). pose proof (be_val_range _ Hd).
  exists (set_packet q phv). split; [done|]. split.
  - rewrite (get_field_value_x86 field (set_packet q phv) hi); try done; [|cbn; lia].
    cbn [packet set_packet]. f_equal. eapply field_set_same; [..|exact Hq]; lia.
  - intros b len Hb Hlen Hbl Hdis. cbn [packet set_packet].
    eapply field_set_other; [..|exact Hq]; done.
Qed.

(** [drop_packet] makes the egress port, as the main loop reads it, zero, and
    changes nothing else; header 31, the standard metadata, has to lie on a byte
    boundary inside the packet buffer. *)
Lemma drop_packet_egress `{Target} phv hi :
  header_of phv 31 = Ok hi → bytes phv.(packet) →
  0 ≤ hi.(hdr_offset) → hi.(hdr_offset) mod 8 = 0 →
  hi.(hdr_offset) + 18 < 8 * zlen phv.(packet) - 8 →
  ∃ phv', drop_packet phv = Ok phv' ∧
    get_field_value (H := x86) (mkFieldInfo 31 9 9 FIELD) phv' = Ok 0 ∧
    phv' = set_packet phv'.(packet) phv ∧
    ∀ b len, 0 ≤ b → 0 ≤ len → b + len ≤ 8 * zlen phv.(packet) →
      b + len ≤ hi.(hdr_offset) + 9 ∨ hi.(hdr_offset) + 18 ≤ b →
      field_val phv'.(packet) b len = field_val phv.(packet) b len.
Proof.
  intros Hhi Hp Ho Ho8 Hend. unfold drop_packet.
  destruct (get_uints_spec 0 9 ltac:(lia)) as (r & -> & Hr & Hlen & Hv).
  change (u32 0 mod 2 ^ (8 * ceil8 9)) with 0 in Hv. cbn [mbind res_mbind].
  edestruct (modify_phv_field_set (mkFieldInfo 31 9 9 FIELD) (mkData 9 r) phv hi) as (q & Hm & _);
    [try done; cbn; try rewrite Hv; first [lia|dlia] ..|].
  edestruct (modify_get_field (mkFieldInfo 31 9 9 FIELD) (mkData 9 r) phv hi) as (phv' & Hm' & Hg & Hf);
    [try done; cbn; try rewrite Hv; first [lia|dlia] ..|].
  exists phv'. split; [done|]. split; [by rewrite Hg; cbn; rewrite Hv|].
  split; [rewrite Hm in Hm'; by injection Hm' as <-|]. intros b len Hb Hlen' Hbl Hdis.
  apply Hf; cbn; lia.
Qed.

(** ** Well-formed packet header vectors

    The sizes of the arrays and the ranges of the integer types. *)
Definition header_wf (h : HeaderInfo) : Prop :=
  0 ≤ h.(hdr_offset) < 65536 ∧ 0 ≤ h.(hdr_len) < 65536.

Record phv_wf (phv : PHV) : Prop := {
  wf_packet_len : zlen phv.(packet) = FRONT_HEADER_LEN + META_LEN;
  wf_packet : bytes phv.(packet);
  wf_headers_len : zlen phv.(parsed_headers) = 32;
  wf_headers : Forall header_wf phv.(parsed_headers);
  wf_valid_len : zlen phv.(valid_bitmap) = 32;
  wf_valid : Forall (λ v, v = 0 ∨ v = 1) phv.(valid_bitmap);
  wf_bitmap : 0 ≤ phv.(bitmap) < 2 ^ 32;
  wf_key : 0 ≤ phv.(cur_trans_key) < 2 ^ 32;
  wf_offset : 0 ≤ phv.(cur_offset) < 65536
}.

Lemma PHV_init_wf `{Target} : phv_wf PHV_init.
Proof.
  split; cbn; try done; try lia.
  - apply bytes_replicate.
  - repeat constructor; simpl; lia.
  - repeat constructor; by left.
Qed.

(** Setting another packet of the right size, and setting members the
    well-formedness does not mention. *)
Lemma set_packet_wf q phv :
  zlen q = zlen phv.(packet) → bytes q → phv_wf phv → phv_wf (set_packet q phv).
Proof. intros Hl Hq []. split; cbn; try done; congruence. Qed.

Lemma set_next_proc_id_wf i phv : phv_wf phv → phv_wf (set_next_proc_id i phv).
Proof. intros []. by split. Qed.

Lemma header_wf_of phv i hi : phv_wf phv → header_of phv i = Ok hi → header_wf hi.
Proof.
  intros Hwf H. apply rd_ok_inv in H as [_ H].
  by apply (Forall_lookup_1 _ _ _ _ (wf_headers _ Hwf) H).
Qed.

Lemma header_of_ok phv i : phv_wf phv → 0 ≤ i < 32 → ∃ hi, header_of phv i = Ok hi ∧ header_wf hi.
Proof.
  intros Hwf Hi. exists (at_ (parsed_headers phv) i).
  assert (header_of phv i = Ok (at_ (parsed_headers phv) i)) as H.
  { apply rd_at. by rewrite (wf_headers_len _ Hwf). }
  split; [done|]. by eapply header_wf_of.
Qed.

(** [modify_phv_with_data] keeps a vector well-formed whenever it returns. *)
Lemma modify_phv_wf field data phv phv' :
  phv_wf phv → modify_phv_with_data field data phv = Ok phv' → phv_wf phv'.
Proof.
  intros Hwf Hrun. unfold modify_phv_with_data in Hrun. inv_ok.
  destruct x1 as [buf idx]. inv_ok. destruct x1 as [q idx']. inv_ok.
  assert (Hq : zlen q = zlen (packet phv) ∧ bytes q); [|apply set_packet_wf; tauto].
  pattern q. change ((λ st : list Z * Z, zlen st.1 = zlen (packet phv) ∧ bytes st.1) (q, idx')).
  eapply for_down_pres; [| |exact Hok2].
  - intros j [t i] [t' i'] [Hl Ht] Hb. cbn in Hl, Ht. cbv zeta in Hb. inv_ok.
    apply wr_ok_inv in Hok6 as [_ ->]. cbn.
    rewrite zlen_insert. split; [done|]. apply bytes_insert; [done|apply u8_range].
  - split; [done|]. apply (wf_packet _ Hwf).
Qed.

Lemma drop_packet_wf `{Target} phv phv' : phv_wf phv → drop_packet phv = Ok phv' → phv_wf phv'.
Proof. unfold drop_packet. intros. inv_ok. by eapply modify_phv_wf. Qed.

(** ** The properties of the field accesses *)

(** C26. A value written to a field with [modify_phv_with_data] is the value
    [get_field_value] reads back on x86, and every run of bits outside the field is
    unchanged: for a field that does not end on a byte boundary, a value that fits
    it, and few enough bits for the byte that [get_field_value] reads too much to
    leave them alone. *)
Theorem field_roundtrip field data phv :
  phv_wf phv → 0 ≤ field.(hdr_id) < 32 → bytes data.(val) →
  0 ≤ field.(internal_offset) → 1 ≤ field.(fd_len) →
  data.(data_len) = field.(fd_len) → zlen data.(val) = ceil8 data.(data_len) →
  be_val data.(val) < 2 ^ field.(fd_len) →
  let begin := (at_ phv.(parsed_headers) field.(hdr_id)).(hdr_offset) + field.(internal_offset) in
  let end_ := begin + field.(fd_len) in
  end_ mod 8 ≠ 0 → end_ < 8 * (FRONT_HEADER_LEN + META_LEN - 1) → field.(fd_len) + (- end_) mod 8 ≤ 24 →
  ∃ phv', modify_phv_with_data field data phv = Ok phv' ∧ phv_wf phv' ∧
    get_field_value (H := x86) field phv' = Ok (be_val data.(val)) ∧
    ∀ b len, 0 ≤ b → 0 ≤ len → b + len ≤ 8 * (FRONT_HEADER_LEN + META_LEN) →
      b + len ≤ begin ∨ end_ ≤ b → field_val phv'.(packet) b len = field_val phv.(packet) b len.
Proof.
  intros Hwf Hid Hd Hio Hfl Hdl Hvl Hfit begin end_ He Hend H24.
  pose proof (wf_packet_len _ Hwf) as Hpl. pose proof (wf_headers_len _ Hwf).
  assert (Hhi : header_of phv (hdr_id field) = Ok (at_ (parsed_headers phv) (hdr_id field))) by (apply rd_at; lia).
  pose proof (header_wf_of _ _ _ Hwf Hhi) as [[? _] _].
  destruct (modify_get_field field data phv _ Hhi (wf_packet _ Hwf)) as (phv' & Hm & Hg & Hf); try done.
  { fold begin. fold end_. lia. }
  exists phv'. split; [done|]. split; [by eapply modify_phv_wf|]. split; [done|]. intros b len Hb Hl Hbl Hdis.
  apply Hf; [done|done|lia|done].
Qed.

Lemma field_roundtrip_witness :
  ∃ phv', modify_phv_with_data (mkFieldInfo 3 5 13 FIELD) (mkData 13 [17; 34]) (PHV_init (H := x86)) = Ok phv' ∧
    get_field_value (H := x86) (mkFieldInfo 3 5 13 FIELD) phv' = Ok 4386.
Proof.
  destruct (field_roundtrip (mkFieldInfo 3 5 13 FIELD) (mkData 13 [17; 34]) (PHV_init (H := x86))
    (PHV_init_wf (H := x86))) as (phv' & Hm & _ & Hg & _).
  - cbn. lia.
  - repeat constructor; lia.
  - cbn. lia.
  - cbn. lia.
  - reflexivity.
  - reflexivity.
  - reflexivity.
  - vm_compute. discriminate.
  - reflexivity.
  - vm_compute. discriminate.
  - exists phv'. split; [exact Hm|exact Hg].
Defined.

(** The shift loop on a buffer of one byte. *)
Lemma mod_shift_loop_one v n b :
  n ≤ zlen v → 0 ≤ n → ∃ c, mod_shift_loop v 0 n ([b], 0) = Ok ([c], 0).
Proof.
  intros Hv Hn. unfold mod_shift_loop.
  edestruct (for_ge_inv (λ _ (st : list Z * Z), ∃ c, st = ([c], 0)) (n - 1) 0) as ([buf idx] & Hrun & c & [= -> ->]);
    [lia| | |rewrite Hrun; eauto]; [eauto|].
  intros i st Hi (c & ->). cbn beta iota. rewrite (rd_at v) by lia. cbn [mbind res_mbind].
  change (rd [c] 0) with (Ok c). cbn [mbind res_mbind].
  match goal with |- context [wr [c] 0 ?x] => change (wr [c] 0 x) with (Ok [x]) end. cbn. eauto.
Qed.

(** Writing a field that ends on a byte boundary and reaches over more than one
    byte goes wrong: the buffer is one byte long, because its length is the
    condition [data_len / 8 + data_len % 8] of a conditional expression, and the
    second byte is read in front of it. *)
Lemma modify_phv_aligned_overrun field data phv :
  phv_wf phv → 0 ≤ field.(hdr_id) < 32 → 0 ≤ field.(internal_offset) →
  1 ≤ data.(data_len) → ceil8 data.(data_len) ≤ zlen data.(val) →
  let begin := (at_ phv.(parsed_headers) field.(hdr_id)).(hdr_offset) + field.(internal_offset) in
  let end_ := begin + field.(fd_len) in
  end_ mod 8 = 0 → begin / 8 < end_ / 8 - 1 → end_ ≤ 8 * (FRONT_HEADER_LEN + META_LEN) →
  modify_phv_with_data field data phv = Fault OutOfBounds.
Proof.
  intros Hwf Hid Hio Hdl Hv begin end_ He Hlt Hend. unfold modify_phv_with_data.
  pose proof (wf_packet_len _ Hwf) as Hpl. pose proof (wf_headers_len _ Hwf).
  assert (Hhi : header_of phv (hdr_id field) = Ok (at_ (parsed_headers phv) (hdr_id field))) by (apply rd_at; lia).
  pose proof (header_wf_of _ _ _ Hwf Hhi) as [[? _] _].
  rewrite Hhi. cbn [mbind res_mbind]. fold begin. fold end_. rewrite He. cbn [Z.eqb].
  set (ol := Z.quot (data_len data) 8 + _).
  assert (Hol : 0 ≤ ol ≤ zlen (val data)).
  { subst ol. unfold ceil8 in Hv. rewrite Z.quot_div_nonneg, Z.rem_mod_nonneg by lia. zcmp; dlia. }
  assert (Hbl : mod_buf_len (data_len data) 0 = 1).
  { unfold mod_buf_len. cbn [Z.eqb]. rewrite Z.quot_div_nonneg, Z.rem_mod_nonneg by lia. zcmp; dlia. }
  rewrite Hbl. change (zeros 1) with (Ok [0]). cbn [mbind res_mbind]. change (1 - 1) with 0.
  destruct (mod_shift_loop_one (val data) ol 0) as (c & ->); [lia|lia|]. cbn [mbind res_mbind].
  unfold mod_store_loop, for_ge. set (be := end_ / 8 - 1) in *. set (bb := begin / 8) in *.
  replace (Z.to_nat (be - bb + 1)) with (S (S (Z.to_nat (be - bb - 1)))) by lia. cbn [for_down].
  assert (Hkeep : ∀ i, ∃ sd, keep_mask (if (i =? bb) && negb (begin mod 8 =? 0) then begin mod 8 else 0)
      (if (i =? be) && negb (0 =? 0) then 8 - 0 else 0) = Ok sd).
  { intros i. eexists. cbn [Z.eqb negb]. rewrite andb_false_r. apply keep_mask_eq; zcmp; dlia. }
  destruct (Hkeep be) as (sd & ->). assert (0 ≤ begin) by (subst begin; lia). assert (0 ≤ bb) by (subst bb; dlia).
  cbn [mbind res_mbind]. assert (be < zlen (packet phv)) by (rewrite Hpl; subst be; dlia).
  rewrite (rd_at (packet phv)) by lia. cbn [mbind res_mbind]. change (rd [c] 0) with (Ok c). cbn [mbind res_mbind].
  rewrite wr_ok by lia. cbn [mbind res_mbind mret res_mret].
  destruct (Hkeep (be - 1)) as (sd' & ->). cbn [mbind res_mbind]. rewrite (rd_at (<[Z.to_nat be := _]> (packet phv))) by (rewrite zlen_insert; lia).
  cbn [mbind res_mbind]. reflexivity.
Qed.

Lemma modify_phv_aligned_overrun_witness :
  modify_phv_with_data (mkFieldInfo 3 0 16 FIELD) (mkData 16 [17; 34]) (PHV_init (H := x86)) = Fault OutOfBounds.
Proof.
  apply (modify_phv_aligned_overrun (mkFieldInfo 3 0 16 FIELD) (mkData 16 [17; 34]) (PHV_init (H := x86))
    (PHV_init_wf (H := x86))).
  - cbn. lia.
  - cbn. lia.
  - cbn. lia.
  - vm_compute. discriminate.
  - reflexivity.
  - reflexivity.
  - vm_compute. discriminate.
Defined.
