(* ===== verification/Parser.v ===== *)
(** * The parser of a processor (parser.h)

    A processor parses the headers of a packet in up to four stages.  A stage
    is a match table of 256 entries (state, key, mask) with an action table of
    the same size; a packet carries its parser state, the offset of the next
    header and the transition key computed from the header before. *)

From stdpp Require Import base numbers list.
From Stdlib Require Import ZArith Lia.
From S2P Require Import Prelude Bits Phv.

#[local] Open Scope Z_scope.

(** ** Data *)
Record ParserTcamEntry : Set := mkTcamEntry {
  te_state : Z;   (** uint8_t *)
  te_entry : Z;   (** uint32_t *)
  te_mask : Z     (** uint32_t *)
}.

Record ParserSramEntry : Set := mkSramEntry {
  se_hdr_id : Z;                (** uint8_t *)
  se_hdr_len : Z;               (** uint16_t *)
  se_next_state : Z;            (** uint8_t *)
  se_trans_fd_num : Z;          (** uint8_t *)
  se_trans_fds : list FieldInfo; (** FieldInfo* trans_fds[4], each its own object *)
  se_miss_act : Z               (** uint8_t: 0 accept, 1 drop, else go on *)
}.

Record ParserStage : Set := mkStage {
  ps_trans_tbl : list ParserTcamEntry;
  ps_act_tbl : list ParserSramEntry
}.

#[export] Instance FieldInfo_inhabited : Inhabited FieldInfo := populate (mkFieldInfo 0 0 0 FIELD).
#[export] Instance Tcam_inhabited : Inhabited ParserTcamEntry := populate (mkTcamEntry 0 0 0).
#[export] Instance Sram_inhabited : Inhabited ParserSramEntry := populate (mkSramEntry 0 0 0 0 [] 0).

Definition empty_trans : ParserTcamEntry := mkTcamEntry 0 4294967295 4294967295.
Definition zero_fds : list FieldInfo := replicate 4 (mkFieldInfo 0 0 0 FIELD).

(** [ParserSramEntry()] allocates the fields and initialises nothing else. *)
Definition ParserSramEntry_init `{Target} : ParserSramEntry := {|
  se_hdr_id := u8 (junk 0); se_hdr_len := u16 (junk 1); se_next_state := u8 (junk 2);
  se_trans_fd_num := u8 (junk 3); se_trans_fds := zero_fds; se_miss_act := u8 (junk 4)
|}.

Definition ParserStage_init `{Target} : ParserStage := {|
  ps_trans_tbl := replicate 256 empty_trans;
  ps_act_tbl := replicate 256 ParserSramEntry_init
|}.

(** [ParserStage::clear]. [memset(ps_act_tbl[i], 0, 5)] reaches [hdr_id] (offset
    0), [hdr_len] (2) and [next_state] (4); [trans_fd_num] is at offset 5 and
    [miss_act] after the pointers. *)
Definition clear_act (e : ParserSramEntry) : ParserSramEntry := {|
  se_hdr_id := 0; se_hdr_len := 0; se_next_state := 0;
  se_trans_fd_num := e.(se_trans_fd_num); se_trans_fds := zero_fds;
  se_miss_act := e.(se_miss_act)
|}.
Definition stage_clear (s : ParserStage) : ParserStage := {|
  ps_trans_tbl := (λ _, empty_trans) <$> s.(ps_trans_tbl);
  ps_act_tbl := clear_act <$> s.(ps_act_tbl)
|}.

(** The field descriptors an entry is given, copied one by one into the four
    slots of the entry. *)
Definition copy_fds (num : Z) (src : Z → res FieldInfo) (dst : list FieldInfo) : res (list FieldInfo) :=
  for_lt 0 num (λ i d, f ← src i; wr d i f) dst.

(** [modify_trans_act]: an entry given as byte strings. *)
Definition modify_trans_act (key value : list Z) (s : ParserStage) : res ParserStage :=
  '(idx, flag) ← for_lt 0 5 (λ i '(idx, flag),
    k ← rd key i;
    v ← rd value i;
    mret (u8 (idx + k), flag || negb (k =? 0) || negb (v =? 0))) (0, false);
  let idx := if (flag : bool) then idx else 255 in
  k0 ← rd key 0; k1 ← rd key 1; k2 ← rd key 2; k3 ← rd key 3; k4 ← rd key 4;
  k5 ← rd key 5; k6 ← rd key 6; k7 ← rd key 7; k8 ← rd key 8;
  trans ← wr s.(ps_trans_tbl) idx
    (mkTcamEntry k0 (u32 (Z.shiftl k1 24 + Z.shiftl k2 16 + Z.shiftl k3 8 + k4))
                    (u32 (Z.shiftl k5 24 + Z.shiftl k6 16 + Z.shiftl k7 8 + k8)));
  v0 ← rd value 0; v1 ← rd value 1; v2 ← rd value 2; v3 ← rd value 3; v4 ← rd value 4;
  old ← rd s.(ps_act_tbl) idx;
  fds ← copy_fds v4 (λ i,
    h ← rd value (5 + i * 6);
    o1 ← rd value (6 + i * 6); o2 ← rd value (7 + i * 6);
    l1 ← rd value (8 + i * 6); l2 ← rd value (9 + i * 6);
    t ← rd value (10 + i * 6);
    mret (mkFieldInfo h (Z.shiftl o1 8 + o2) (Z.shiftl l1 8 + l2)
            (if t =? 0 then FIELD else VALID))) old.(se_trans_fds);
  act ← wr s.(ps_act_tbl) idx
    (mkSramEntry v0 (Z.shiftl v1 8 + v2) v3 v4 fds old.(se_miss_act));
  mret (mkStage trans act).

(** The index [modify_trans_entry] stores an entry at: the byte sum of state and
    key modulo 256, and [255 - state] when key and mask are zero. *)
Definition entry_index (state entry mask : Z) : Z :=
  let '(idx, flag) := fold_left (λ '(idx, flag) i,
      (u8 (idx + u8 (Z.shiftr entry (8 * i))),
       flag || negb (Z.shiftr entry (8 * i) =? 0) || negb (Z.shiftr mask (8 * i) =? 0)))
    [0; 1; 2; 3] (state, false) in
  if (flag : bool) then idx else u8 (255 - state).

Definition modify_trans_entry (state entry mask hdr_id hdr_len next_state trans_fd_num : Z)
    (trans_fds : list FieldInfo) (miss_act : Z) (s : ParserStage) : res ParserStage :=
  let idx := entry_index state entry mask in
  trans ← wr s.(ps_trans_tbl) idx (mkTcamEntry state entry mask);
  old ← rd s.(ps_act_tbl) idx;
  fds ← copy_fds trans_fd_num (rd trans_fds) old.(se_trans_fds);
  act ← wr s.(ps_act_tbl) idx (mkSramEntry hdr_id hdr_len next_state trans_fd_num fds miss_act);
  mret (mkStage trans act).

(** The loop of [get_field_int], from the last byte of the field to the first. *)
Definition field_int_loop `{Target} (pkt : list Z) (left_mask right_empty begin_byte end_byte : Z)
    : res (Z * Z) :=
  for_ge end_byte begin_byte (λ j '(r, cur_off),
    p ← rd pkt j;
    if j =? end_byte then mret (u32 (r + Z.shiftr p right_empty), cur_off + (8 - right_empty))
    else if j =? begin_byte then mret (u32 (r + shl32 (Z.land p left_mask) cur_off), cur_off)
    else mret (u32 (r + shl32 p cur_off), cur_off + 8)) (0, 0).

(** [get_field_int]: the value of a transition field.  A field inside one byte is
    only shifted right, not masked on the left. *)
Definition get_field_int `{Target} (phv : PHV) (fd : FieldInfo) : res Z :=
  if decide (fd.(fd_type) = VALID) then rd phv.(valid_bitmap) fd.(hdr_id)
  else
    header ← header_of phv fd.(hdr_id);
    let begin_idx := header.(hdr_offset) + fd.(internal_offset) in
    let end_idx := begin_idx + fd.(fd_len) - 1 in
    let left_empty := begin_idx mod 8 in
    let right_empty := if (end_idx + 1) mod 8 =? 0 then 0 else 8 - (end_idx + 1) mod 8 in
    let begin_byte := begin_idx / 8 in
    let end_byte := Z.quot end_idx 8 in
    left_mask ← for_lt 0 (8 - left_empty) (λ j m, mret (u8 (m + Z.shiftl 1 j))) 0;
    '(r, _) ← field_int_loop phv.(packet) left_mask right_empty begin_byte end_byte;
    mret r.

(** The search of [parse]: the first entry whose state and masked key agree. *)
Definition entry_matches (state key : Z) (e : ParserTcamEntry) : bool :=
  (e.(te_state) =? state) && (e.(te_entry) =? Z.land key e.(te_mask)).

Fixpoint find_entry (l : list ParserTcamEntry) (i state key : Z) : option Z :=
  match l with
  | [] => None
  | e :: l' => if entry_matches state key e then Some i else find_entry l' (i + 1) state key
  end.

(** The transition key: each field is added to the key so far plus the key
    shifted by the field's length. *)
Definition trans_key `{Target} (phv : PHV) (num : Z) (fds : list FieldInfo) : res Z :=
  for_lt 0 num (λ i key,
    f ← rd fds i;
    r ← get_field_int phv f;
    mret (u32 (key + (shl32 key f.(fd_len) + r)))) 0.

(** The part of [parse] that records the header an entry extracts. *)
Definition extract_header (e : ParserSramEntry) (phv : PHV) : res PHV :=
  _ ← header_of phv e.(se_hdr_id);
  vb ← wr phv.(valid_bitmap) e.(se_hdr_id) 1;
  hs ← wr phv.(parsed_headers) e.(se_hdr_id)
         (mkHeaderInfo e.(se_hdr_id) phv.(cur_offset) e.(se_hdr_len));
  let phv := set_parsed_headers hs (set_valid_bitmap vb phv) in
  let phv := set_bitmap (u32 (phv.(bitmap) + Z.shiftl 1 (31 - e.(se_hdr_id)))) phv in
  let phv := set_cur_offset (u16 (phv.(cur_offset) + e.(se_hdr_len))) phv in
  let phv := set_cur_state e.(se_next_state) phv in
  mret (set_miss_act e.(se_miss_act) phv).

(** [ParserStage::parse]. *)
Definition stage_parse `{Target} (s : ParserStage) (phv : PHV) : res PHV :=
  match find_entry s.(ps_trans_tbl) 0 phv.(cur_state) phv.(cur_trans_key) with
  | None =>
      if phv.(miss_act) =? 0 then mret phv
      else if phv.(miss_act) =? 1 then drop_packet (set_next_proc_id (-1) phv)
      else mret phv
  | Some sram_index =>
      e ← rd s.(ps_act_tbl) sram_index;
      phv ← extract_header e phv;
      if phv.(miss_act) =? 0 then mret phv
      else if phv.(miss_act) =? 1 then drop_packet (set_next_proc_id (-1) phv)
      else
        key ← trans_key phv e.(se_trans_fd_num) e.(se_trans_fds);
        mret (set_cur_trans_key key phv)
  end.

(** ** The parser of a processor *)
Record Parser : Set := mkParser {
  needed_parser_level : Z;
  parser_levels : list ParserStage;   (** new ParserStage[4] *)
  if_work : Z
}.

Definition Parser_init `{Target} : Parser := mkParser 0 (replicate 4 ParserStage_init) 0.

Definition init_parser_level (level : Z) (p : Parser) : Parser :=
  mkParser level p.(parser_levels) 1.

Definition parser_clear (p : Parser) : res Parser :=
  levels ← for_lt 0 p.(needed_parser_level) (λ i ls,
    s ← rd ls i; wr ls i (stage_clear s)) p.(parser_levels);
  mret (mkParser 0 levels 0).

Definition modify_parser_entry (level : Z) (key value : list Z) (p : Parser) : res Parser :=
  s ← rd p.(parser_levels) level;
  s ← modify_trans_act key value s;
  levels ← wr p.(parser_levels) level s;
  mret (mkParser p.(needed_parser_level) levels p.(if_work)).

(** The parameter [hdr_len] of this function is a [uint8_t]. *)
Definition modify_parser_entry_direct (level state entry mask hdr_id hdr_len next_state trans_fd_num : Z)
    (trans_fds : list FieldInfo) (miss_act : Z) (p : Parser) : res Parser :=
  s ← rd p.(parser_levels) level;
  s ← modify_trans_entry state entry mask hdr_id (u8 hdr_len) next_state trans_fd_num trans_fds miss_act s;
  levels ← wr p.(parser_levels) level s;
  mret (mkParser p.(needed_parser_level) levels p.(if_work)).

(** The loop of [Parser::parse]: stop after a stage that set [next_proc_id] to -1. *)
Fixpoint parse_levels `{Target} (n : nat) (i : Z) (levels : list ParserStage) (phv : PHV) : res PHV :=
  match n with
  | O => mret phv
  | S n' =>
      s ← rd levels i;
      phv ← stage_parse s phv;
      if phv.(next_proc_id) =? -1 then mret phv else parse_levels n' (i + 1) levels phv
  end.

Definition parser_parse `{Target} (p : Parser) (phv : PHV) : res PHV :=
  if p.(if_work) =? 0 then mret (set_next_proc_id (-1) phv)
  else if p.(needed_parser_level) =? 0 then mret phv
  else parse_levels (Z.to_nat p.(needed_parser_level)) 0 p.(parser_levels) phv.

(** ** Transition fields *)

Lemma left_mask_eq n : 0 ≤ n ≤ 8 →
  for_lt 0 n (λ j m, mret (u8 (m + Z.shiftl 1 j))) 0 = Ok (2 ^ n - 1).
Proof.
  intros.
  assert (H3 := small3 (λ n _ _,
    match for_lt 0 n (λ j m, mret (u8 (m + Z.shiftl 1 j))) 0 with
    | Ok x => x =? 2 ^ n - 1 | Fault _ => false end) 9 1 1 eq_refl n 0 0
    ltac:(lia) ltac:(lia) ltac:(lia)).
  cbv beta in H3. destruct (for_lt _ _ _ _); [|done]. by apply Z.eqb_eq in H3 as ->.
Qed.

(** What [get_field_int] computes: the field, except that a field inside one byte
    comes with the bits of the byte to its left. *)
Definition field_int_val (p : list Z) (begin len : Z) : Z :=
  if (begin + len - 1) / 8 =? begin / 8
  then field_val p (8 * (begin / 8)) (begin mod 8 + len)
  else field_val p begin len.

Lemma field_int_val_cases p begin len :
  (begin mod 8 = 0 ∨ begin / 8 ≠ (begin + len - 1) / 8 → field_int_val p begin len = field_val p begin len) ∧
  (begin / 8 = (begin + len - 1) / 8 → field_int_val p begin len = field_val p (8 * (begin / 8)) (begin mod 8 + len)).
Proof.
  unfold field_int_val. destruct (Z.eqb_spec ((begin + len - 1) / 8) (begin / 8)) as [E|E]; split; intros H; try done.
  destruct H as [H|H]; [|lia]. rewrite H. f_equal; dlia.
Qed.

(** The two steps of its loop past the last byte. *)
Lemma field_int_step_mid p j E :
  bytes p → 0 ≤ E - 8 * (j + 1) → E - 8 * j ≤ 32 →
  u32 (field_val p (8 * (j + 1)) (E - 8 * (j + 1)) + u32 (at_ p j * 2 ^ (E - 8 * (j + 1)))) =
  field_val p (8 * j) (E - 8 * j).
Proof.
  intros Hp H0 H32. pose proof (bytes_at p j Hp) as Hb.
  pose proof (field_val_range p (8 * (j + 1)) (E - 8 * (j + 1)) ltac:(lia)).
  replace (E - 8 * j) with (8 + (E - 8 * (j + 1))) by lia.
  rewrite field_val_app, field_val_whole by (done || lia).
  replace (8 * j + 8) with (8 * (j + 1)) by lia.
  assert (Hpw : 2 ^ 8 * 2 ^ (E - 8 * (j + 1)) ≤ 2 ^ 32).
  { rewrite <- Z.pow_add_r by lia. apply Z.pow_le_mono_r; lia. }
  assert (0 < 2 ^ (E - 8 * (j + 1))) by (apply Z.pow_pos_nonneg; lia).
  rewrite (u32_small (_ * _)) by nia. rewrite Z.add_comm. apply u32_small. nia.
Qed.

Lemma field_int_step_first p begin L :
  bytes p → 0 ≤ begin → L ≤ 32 → begin / 8 < (begin + L - 1) / 8 →
  let bb := begin / 8 in
  let E := begin + L in
  u32 (field_val p (8 * (bb + 1)) (E - 8 * (bb + 1)) +
       u32 (Z.land (at_ p bb) (2 ^ (8 - begin mod 8) - 1) * 2 ^ (E - 8 * (bb + 1)))) =
  field_val p begin L.
Proof.
  intros Hp H0 H32 Hlt bb E. set (m := 8 - begin mod 8). set (k := E - 8 * (bb + 1)).
  assert (Hm : 0 < m ≤ 8 ∧ 0 ≤ k ∧ m + k = L ∧ begin + m = 8 * (bb + 1) ∧ 8 * bb + (8 - m) = begin)
    by (subst m k bb E; dlia).
  replace (2 ^ m - 1) with (Z.ones m) by (rewrite Z.ones_equiv; lia).
  rewrite Z.land_ones by lia. pose proof (field_val_tail p bb (8 - m) Hp ltac:(lia)) as Ht.
  replace (8 - (8 - m)) with m in Ht by lia. rewrite <- Ht.
  replace (8 * bb + (8 - m)) with begin by lia. replace L with (m + k) by lia.
  rewrite field_val_app by lia. replace (begin + m) with (8 * (bb + 1)) by lia.
  pose proof (field_val_range p begin m ltac:(lia)).
  pose proof (field_val_range p (8 * (bb + 1)) k ltac:(lia)).
  assert (Hpw : 2 ^ m * 2 ^ k ≤ 2 ^ 32).
  { rewrite <- Z.pow_add_r by lia. apply Z.pow_le_mono_r; lia. }
  assert (0 < 2 ^ k) by (apply Z.pow_pos_nonneg; lia).
  rewrite (u32_small (_ * _)) by nia. rewrite Z.add_comm. apply u32_small. nia.
Qed.

Lemma field_int_loop_spec `{Target} p begin L :
  bytes p → 0 ≤ begin → 1 ≤ L ≤ 32 → begin + L ≤ 8 * zlen p →
  let E := begin + L in
  let re := if E mod 8 =? 0 then 0 else 8 - E mod 8 in
  ∃ off, field_int_loop p (2 ^ (8 - begin mod 8) - 1) re (begin / 8) ((begin + L - 1) / 8)
    = Ok (field_int_val p begin L, off).
Proof.
  intros Hp H0 HL Hend E re. unfold field_int_loop.
  set (eb := (begin + L - 1) / 8). set (bb := begin / 8).
  assert (Hre : re = 8 * (eb + 1) - E ∧ 0 ≤ re < 8) by (subst re eb E; zcmp; dlia).
  assert (Hbb : bb ≤ eb) by (subst bb eb; dlia).
  set (final := field_int_val p begin L).
  edestruct (for_ge_inv (λ j '(r, off),
      if j =? eb then r = 0 ∧ off = 0
      else if bb <=? j then r = field_val p (8 * (j + 1)) (E - 8 * (j + 1)) ∧ off = E - 8 * (j + 1)
      else r = final) eb bb) as ([r off] & -> & Hr); [lia|by rewrite Z.eqb_refl| |].
  - intros j [r off] Hj HI. rewrite rd_at by (subst eb bb; dlia). cbn [mbind res_mbind].
    rewrite (proj2 (Z.eqb_neq (j - 1) eb)) by lia.
    destruct (Z.eqb_spec j eb) as [->|Hne].
    + destruct HI as [-> ->]. eexists; split; [done|]. cbn beta iota.
      rewrite Z.shiftr_div_pow2, Z.add_0_l by lia.
      pose proof (field_val_head p eb (8 - re) Hp ltac:(lia)) as Hh.
      replace (8 - (8 - re)) with re in Hh by lia. rewrite <- Hh.
      pose proof (field_val_range p (8 * eb) (8 - re) ltac:(lia)).
      assert (2 ^ (8 - re) ≤ 2 ^ 8) by (apply Z.pow_le_mono_r; lia).
      rewrite u32_small by lia. destruct (Z.leb_spec bb (eb - 1)).
      * replace (8 * (eb - 1 + 1)) with (8 * eb) by lia. split; [f_equal; lia|lia].
      * subst final. unfold field_int_val. fold eb bb. rewrite (proj2 (Z.eqb_eq eb bb)) by lia.
        f_equal; subst bb; dlia.
    + rewrite (proj2 (Z.leb_le bb j)) in HI by lia. destruct HI as [-> ->].
      assert (Hoff : 0 ≤ E - 8 * (j + 1) < 32) by (subst eb bb; dlia).
      destruct (Z.eqb_spec j bb) as [->|Hnb]; (eexists; split; [done|]); rewrite shl32_in by lia.
      * rewrite (proj2 (Z.leb_gt bb (bb - 1))) by lia.
        subst final. unfold field_int_val. fold eb bb. rewrite (proj2 (Z.eqb_neq eb bb)) by lia.
        apply field_int_step_first; try done; try lia; fold bb eb; lia.
      * rewrite (proj2 (Z.leb_le bb (j - 1))) by lia.
        replace (8 * (j - 1 + 1)) with (8 * j) by lia. split; [|lia].
        apply field_int_step_mid; try done; try lia. subst bb. dlia.
  - rewrite (proj2 (Z.eqb_neq (bb - 1) eb)), (proj2 (Z.leb_gt bb (bb - 1))) in Hr by lia.
    exists off. by subst r.
Qed.

(** [get_field_int] on every field of 1 to 32 bits inside the packet buffer. *)
Lemma get_field_int_spec `{Target} phv fd hi :
  header_of phv fd.(hdr_id) = Ok hi → bytes phv.(packet) → fd.(fd_type) ≠ VALID →
  0 ≤ hi.(hdr_offset) → 0 ≤ fd.(internal_offset) → 1 ≤ fd.(fd_len) ≤ 32 →
  let begin := hi.(hdr_offset) + fd.(internal_offset) in
  begin + fd.(fd_len) ≤ 8 * zlen phv.(packet) →
  get_field_int phv fd = Ok (field_int_val phv.(packet) begin fd.(fd_len)).
Proof.
  intros Hhi Hp Hty Hho Hio Hfl begin Hend. unfold get_field_int.
  rewrite decide_False by done. rewrite Hhi. cbn [mbind res_mbind]. fold begin.
  rewrite left_mask_eq by dlia. cbn [mbind res_mbind].
  replace (begin + fd_len fd - 1 + 1) with (begin + fd_len fd) by lia.
  rewrite Z.quot_div_nonneg by lia.
  destruct (field_int_loop_spec (packet phv) begin (fd_len fd)) as (off & Hloop); try done; [lia|].
  by rewrite Hloop.
Qed.

(** ** The search *)

(** [find_entry] returns the least index whose entry matches. *)
Lemma find_entry_spec l i state key k :
  find_entry l i state key = Some k ↔
  ∃ (n : nat) e, k = i + Z.of_nat n ∧ l !! n = Some e ∧ entry_matches state key e = true ∧
    ∀ (m : nat) e', (m < n)%nat → l !! m = Some e' → entry_matches state key e' = false.
Proof.
  revert i. induction l as [|e l IH]; intros i; cbn [find_entry].
  - split; [done|]. by intros (n & e & _ & Hn & _).
  - destruct (entry_matches state key e) eqn:E.
    + split.
      * intros [= <-]. exists 0%nat, e. repeat split; [lia|done|]. intros; lia.
      * intros (n & e' & -> & Hn & Hm & Hleast). destruct n as [|n]; [f_equal; lia|].
        rewrite (Hleast 0%nat e) in E; [done|lia|done].
    + rewrite IH. split.
      * intros (n & e' & -> & Hn & Hm & Hleast). exists (S n), e'.
        repeat split; [lia|done|done|]. intros [|m] e'' Hlt; cbn; [by intros [= <-]|].
        apply Hleast. lia.
      * intros (n & e' & -> & Hn & Hm & Hleast). destruct n as [|n].
        { cbn in Hn. injection Hn as ->. by rewrite E in Hm. }
        exists n, e'. repeat split; [lia|done|done|]. intros m e'' Hlt Hm''.
        apply (Hleast (S m)); [lia|done].
Qed.

Lemma find_entry_range l state key k :
  find_entry l 0 state key = Some k → 0 ≤ k < zlen l.
Proof.
  intros (n & e & -> & Hn & _)%find_entry_spec. apply lookup_lt_Some in Hn. unfold zlen. lia.
Qed.

(** ** Well-formed stages *)
Definition entry_wf (e : ParserSramEntry) : Prop :=
  0 ≤ e.(se_hdr_id) < 32 ∧ 0 ≤ e.(se_hdr_len) < 65536 ∧
  0 ≤ e.(se_trans_fd_num) ≤ 4 ∧ length e.(se_trans_fds) = 4%nat.

Record stage_wf (s : ParserStage) : Prop := {
  wf_trans_len : zlen s.(ps_trans_tbl) = 256;
  wf_act_len : zlen s.(ps_act_tbl) = 256;
  wf_entries : Forall entry_wf s.(ps_act_tbl)
}.

Lemma extract_header_wf e phv phv' :
  phv_wf phv → 0 ≤ e.(se_hdr_len) < 65536 → extract_header e phv = Ok phv' → phv_wf phv'.
Proof.
  intros Hwf Hlen Hrun. unfold extract_header in Hrun. inv_ok.
  apply wr_ok_inv in Hok0 as [Hi ->]. apply wr_ok_inv in Hok1 as [_ ->].
  destruct Hwf. split; cbn; try done; rewrite ?zlen_insert; try done.
  - apply Forall_insert; [done|]. split; cbn; lia.
  - apply Forall_insert; [done|by right].
  - change (2 ^ 32) with 4294967296. apply u32_range.
  - apply u16_range.
Qed.

Lemma trans_key_range `{Target} phv num fds key :
  trans_key phv num fds = Ok key → 0 ≤ key < 2 ^ 32.
Proof.
  unfold trans_key. eapply (for_up_pres (λ k, 0 ≤ k < 2 ^ 32)); [|lia].
  intros j k k' _ Hb. inv_ok. change (2 ^ 32) with 4294967296. apply u32_range.
Qed.

(** A stage keeps the packet header vector well-formed, whatever branch it takes. *)
Lemma stage_parse_wf `{Target} s phv phv' :
  stage_wf s → phv_wf phv → stage_parse s phv = Ok phv' → phv_wf phv'.
Proof.
  intros Hs Hwf Hrun. unfold stage_parse in Hrun. destruct (find_entry _ _ _ _).
  - inv_ok. apply rd_ok_inv in Hok as [_ He].
    pose proof (Forall_lookup_1 _ _ _ _ (wf_entries _ Hs) He) as (_ & Hlen & _).
    apply extract_header_wf in Hok0 as Hx; [|done..].
    repeat case_match; inv_ok; try done.
    + by eapply drop_packet_wf, Hrun; apply set_next_proc_id_wf.
    + match goal with H : trans_key _ _ _ = Ok _ |- _ => apply trans_key_range in H end.
      destruct Hx. by split.
  - repeat case_match; inv_ok; try done.
    eapply drop_packet_wf; [by apply set_next_proc_id_wf|done].
Qed.

(** ** Configuring a stage *)

Lemma entry_index_range state entry mask :
  0 ≤ state < 256 → 0 ≤ entry_index state entry mask < 256.
Proof.
  intros. unfold entry_index. cbn [fold_left].
  match goal with |- context [if ?b then _ else _] => destruct b end; apply u8_range.
Qed.

(** [modify_trans_entry] installs exactly one entry, and it is the one a packet
    in that state with a matching key finds, unless an entry stored at a lower
    index matches too. *)
Lemma modify_trans_entry_spec state entry mask hid hlen ns num fds ma s s' :
  modify_trans_entry state entry mask hid hlen ns num fds ma s = Ok s' →
  let idx := entry_index state entry mask in
  s'.(ps_trans_tbl) = <[Z.to_nat idx := mkTcamEntry state entry mask]> s.(ps_trans_tbl) ∧
  0 ≤ idx < zlen s.(ps_trans_tbl) ∧
  ∃ fds', s'.(ps_act_tbl) = <[Z.to_nat idx := mkSramEntry hid hlen ns num fds' ma]> s.(ps_act_tbl) ∧
    0 ≤ idx < zlen s.(ps_act_tbl).
Proof.
  intros Hrun idx. unfold modify_trans_entry in Hrun. fold idx in Hrun. inv_ok. cbn.
  apply wr_ok_inv in Hok as [? ->]. apply wr_ok_inv in Hok2 as [? ->]. eauto 10.
Qed.

Definition stage_cleared (s : ParserStage) : Prop :=
  s.(ps_trans_tbl) = replicate 256 empty_trans ∧ zlen s.(ps_act_tbl) = 256.

Lemma stage_clear_cleared s : stage_wf s → stage_cleared (stage_clear s).
Proof.
  intros []. split; cbn [stage_clear ps_trans_tbl ps_act_tbl].
  - apply list_eq. intros i. rewrite list_lookup_fmap.
    destruct (ps_trans_tbl s !! i) eqn:E; cbn [fmap option_fmap option_map].
    + apply lookup_lt_Some in E. unfold zlen in *. symmetry. apply lookup_replicate_2. lia.
    + apply lookup_ge_None in E. unfold zlen in *. symmetry. apply lookup_replicate_None. lia.
  - unfold zlen in *. by rewrite length_fmap.
Qed.

(** An unused entry matches one key only, and only in state 0. *)
Lemma empty_trans_matches state key :
  0 ≤ key < 2 ^ 32 →
  entry_matches state key empty_trans = (state =? 0) && (key =? 4294967295).
Proof.
  intros Hk. unfold entry_matches, empty_trans. cbn [te_state te_entry te_mask].
  change 4294967295 with (Z.ones 32) at 2. rewrite Z.land_ones, Z.mod_small by lia.
  rewrite (Z.eqb_sym 0 state). by rewrite (Z.eqb_sym _ key).
Qed.

(** The entry programmed into a cleared stage is the one the stage applies. *)
Lemma programmed_entry_found state entry mask hid hlen ns num fds ma s s' key :
  stage_cleared s → modify_trans_entry state entry mask hid hlen ns num fds ma s = Ok s' →
  0 ≤ key < 2 ^ 32 → ¬ (state = 0 ∧ key = 4294967295) → Z.land key mask = entry →
  find_entry s'.(ps_trans_tbl) 0 state key = Some (entry_index state entry mask).
Proof.
  intros [Htr _] Hmod Hkey Hne Hmatch.
  apply modify_trans_entry_spec in Hmod as (Htr' & Hidx & _). rewrite Htr in Htr', Hidx.
  apply find_entry_spec. rewrite Htr'. set (idx := entry_index state entry mask) in *.
  exists (Z.to_nat idx), (mkTcamEntry state entry mask). split; [lia|]. split; [|split].
  - apply list_lookup_insert_eq. unfold zlen in Hidx. lia.
  - unfold entry_matches. cbn. by rewrite Hmatch, !Z.eqb_refl.
  - intros m e' Hm He'. rewrite list_lookup_insert_ne in He' by lia.
    apply lookup_replicate in He' as [-> _]. rewrite empty_trans_matches by done.
    destruct (Z.eqb_spec state 0), (Z.eqb_spec key 4294967295); try done. tauto.
Qed.

(** ** What a stage does to the packet that hits one of its entries *)

(** The vector after the header of entry [e] is recorded. *)
Definition extracted (e : ParserSramEntry) (phv : PHV) : PHV :=
  set_miss_act e.(se_miss_act) (set_cur_state e.(se_next_state)
    (set_cur_offset (u16 (phv.(cur_offset) + e.(se_hdr_len)))
      (set_bitmap (u32 (phv.(bitmap) + Z.shiftl 1 (31 - e.(se_hdr_id))))
        (set_parsed_headers (<[Z.to_nat e.(se_hdr_id) :=
            mkHeaderInfo e.(se_hdr_id) phv.(cur_offset) e.(se_hdr_len)]> phv.(parsed_headers))
          (set_valid_bitmap (<[Z.to_nat e.(se_hdr_id) := 1]> phv.(valid_bitmap)) phv))))).

Lemma extract_header_ok e phv :
  phv_wf phv → 0 ≤ e.(se_hdr_id) < 32 → extract_header e phv = Ok (extracted e phv).
Proof.
  intros Hwf Hi. unfold extract_header. destruct (header_of_ok phv _ Hwf Hi) as (hi & -> & _).
  pose proof (wf_valid_len _ Hwf). pose proof (wf_headers_len _ Hwf).
  cbn [mbind res_mbind]. rewrite (wr_ok (valid_bitmap phv)) by lia. cbn [mbind res_mbind].
  by rewrite (wr_ok (parsed_headers phv)) by lia.
Qed.

Lemma extracted_header e phv :
  phv_wf phv → 0 ≤ e.(se_hdr_id) < 32 →
  header_of (extracted e phv) e.(se_hdr_id) =
    Ok (mkHeaderInfo e.(se_hdr_id) phv.(cur_offset) e.(se_hdr_len)).
Proof.
  intros Hwf Hi. pose proof (wf_headers_len _ Hwf). unfold header_of, extracted. cbn [parsed_headers
    set_miss_act set_cur_state set_cur_offset set_bitmap set_parsed_headers].
  rewrite rd_at by (rewrite zlen_insert; lia). f_equal. apply at_insert_eq. lia.
Qed.

Lemma extracted_other e phv i :
  0 ≤ e.(se_hdr_id) → 0 ≤ i → i ≠ e.(se_hdr_id) →
  header_of (extracted e phv) i = header_of phv i ∧
  at_ (extracted e phv).(valid_bitmap) i = at_ phv.(valid_bitmap) i.
Proof.
  intros He Hi Hne. split; [|by apply at_insert_ne].
  unfold header_of, extracted, rd. cbn [parsed_headers
    set_miss_act set_cur_state set_cur_offset set_bitmap set_parsed_headers].
  rewrite (proj2 (Z.leb_le 0 i)) by lia. rewrite list_lookup_insert_ne by lia. done.
Qed.

(** A hit that does not drop: the header is recorded, then the key of the next
    stage is computed, unless the packet is accepted. *)
Lemma stage_parse_hit `{Target} s phv k e :
  phv_wf phv → find_entry s.(ps_trans_tbl) 0 phv.(cur_state) phv.(cur_trans_key) = Some k →
  rd s.(ps_act_tbl) k = Ok e → 0 ≤ e.(se_hdr_id) < 32 → e.(se_miss_act) ≠ 1 →
  stage_parse s phv =
    if e.(se_miss_act) =? 0 then Ok (extracted e phv)
    else key ← trans_key (extracted e phv) e.(se_trans_fd_num) e.(se_trans_fds);
         Ok (set_cur_trans_key key (extracted e phv)).
Proof.
  intros Hwf Hf He Hi Hma. unfold stage_parse. rewrite Hf, He. cbn [mbind res_mbind].
  rewrite extract_header_ok by done. cbn [mbind res_mbind].
  change (miss_act (extracted e phv)) with (se_miss_act e).
  by rewrite (proj2 (Z.eqb_neq _ 1) Hma).
Qed.

(** A miss leaves the vector alone unless the entry before it said to drop. *)
Lemma stage_parse_miss `{Target} s phv :
  find_entry s.(ps_trans_tbl) 0 phv.(cur_state) phv.(cur_trans_key) = None →
  phv.(miss_act) ≠ 1 → stage_parse s phv = Ok phv.
Proof.
  intros Hf Hma. unfold stage_parse. rewrite Hf.
  rewrite (proj2 (Z.eqb_neq _ 1) Hma). by destruct (miss_act phv =? 0).
Qed.

(** A transition field a key can be computed from: at most 32 bits, inside the
    packet buffer. *)
Definition trans_fd_ok (phv : PHV) (f : FieldInfo) (hi : HeaderInfo) : Prop :=
  header_of phv f.(hdr_id) = Ok hi ∧ f.(fd_type) ≠ VALID ∧ 0 ≤ f.(internal_offset) ∧
  1 ≤ f.(fd_len) ≤ 32 ∧
  hi.(hdr_offset) + f.(internal_offset) + f.(fd_len) ≤ 8 * (FRONT_HEADER_LEN + META_LEN).

Lemma trans_fd_val `{Target} phv f hi :
  phv_wf phv → trans_fd_ok phv f hi →
  get_field_int phv f =
    Ok (field_int_val phv.(packet) (hi.(hdr_offset) + f.(internal_offset)) f.(fd_len)).
Proof.
  intros Hwf (Hhi & Hty & Hio & Hfl & Hend). pose proof (header_wf_of _ _ _ Hwf Hhi) as [? _].
  apply get_field_int_spec; try done; try lia.
  - apply (wf_packet _ Hwf).
  - rewrite (wf_packet_len _ Hwf). lia.
Qed.

Lemma field_int_val_range p b len :
  0 ≤ b → 1 ≤ len ≤ 32 → 0 ≤ field_int_val p b len < 2 ^ 32.
Proof.
  intros Hb Hlen. unfold field_int_val. destruct (Z.eqb_spec ((b + len - 1) / 8) (b / 8)).
  - pose proof (field_val_range p (8 * (b / 8)) (b mod 8 + len) ltac:(dlia)).
    assert (2 ^ (b mod 8 + len) ≤ 2 ^ 32) by (apply Z.pow_le_mono_r; dlia). lia.
  - pose proof (field_val_range p b len ltac:(dlia)).
    assert (2 ^ len ≤ 2 ^ 32) by (apply Z.pow_le_mono_r; dlia). lia.
Qed.

(** The key of one transition field is that field. *)
Lemma trans_key_one `{Target} phv f fds hi :
  phv_wf phv → trans_fd_ok phv f hi → f.(fd_len) < 32 →
  trans_key phv 1 (f :: fds) =
    Ok (field_int_val phv.(packet) (hi.(hdr_offset) + f.(internal_offset)) f.(fd_len)).
Proof.
  intros Hwf Hf H32. pose proof (header_wf_of _ _ _ Hwf (proj1 Hf)) as [? _].
  unfold trans_key, for_lt. change (Z.to_nat (1 - 0)) with 1%nat. cbn [for_up].
  change (rd (f :: fds) 0) with (Ok f). cbn [mbind res_mbind].
  rewrite (trans_fd_val phv f hi) by done. cbn [mbind res_mbind]. unfold mret, res_mret.
  destruct Hf as (_ & _ & Hio & Hfl & _). rewrite shl32_in, Z.mul_0_l, !Z.add_0_l by lia.
  cbn [mbind res_mbind]. f_equal. apply u32_small, field_int_val_range; lia.
Qed.

(** The key a parser stage computes from two transition fields is not their
    concatenation: the first field is added in twice, once shifted past the second,
    once as it is. *)
Lemma trans_key_two `{Target} phv f g fds hf hg :
  phv_wf phv → trans_fd_ok phv f hf → trans_fd_ok phv g hg →
  f.(fd_len) < 32 → g.(fd_len) < 32 →
  let a := field_int_val phv.(packet) (hf.(hdr_offset) + f.(internal_offset)) f.(fd_len) in
  let b := field_int_val phv.(packet) (hg.(hdr_offset) + g.(internal_offset)) g.(fd_len) in
  trans_key phv 2 (f :: g :: fds) = Ok (u32 (a * 2 ^ g.(fd_len) + b + a)).
Proof.
  intros Hwf Hf Hg Hfl Hgl a b. pose proof (trans_key_one phv f (g :: fds) hf Hwf Hf Hfl) as H1.
  unfold trans_key, for_lt in *. change (Z.to_nat (1 - 0)) with 1%nat in H1.
  change (Z.to_nat (2 - 0)) with 2%nat. cbn [for_up] in *. fold a in H1.
  destruct (rd (f :: g :: fds) 0) as [f0|]; [|done]. cbn [mbind res_mbind] in *.
  destruct (get_field_int phv f0); [|done]. cbn [mbind res_mbind] in *.
  unfold mret, res_mret in *. injection H1 as ->.
  change (rd (f :: g :: fds) (0 + 1)) with (Ok g). cbn [mbind res_mbind].
  rewrite (trans_fd_val phv g hg) by done. cbn [mbind res_mbind]. fold b.
  destruct Hg as (_ & _ & _ & ? & _). rewrite shl32_in by lia. cbn [mbind res_mbind].
  f_equal. unfold u32. dlia.
Qed.

(** The descriptors [modify_trans_entry] stores. *)
Lemma copy_fds_spec src dst (fds : list FieldInfo) num :
  zlen dst = 4 → 0 ≤ num ≤ 4 → num ≤ zlen fds →
  (∀ i, 0 ≤ i < num → src i = Ok (at_ fds i)) →
  ∃ d, copy_fds num src dst = Ok d ∧ zlen d = 4 ∧
    ∀ i, 0 ≤ i < num → at_ d i = at_ fds i.
Proof.
  intros Hd Hnum Hfds Hsrc. unfold copy_fds.
  edestruct (for_lt_inv (λ j d, zlen d = 4 ∧ ∀ i, 0 ≤ i < j → at_ d i = at_ fds i) 0 num)
    as (d & Hrun & Hlen & Hat); [lia| | |exists d; rewrite Hrun; done].
  - split; [done|]. lia.
  - intros j d Hj [Hlen Hat]. cbn beta. rewrite Hsrc by lia. cbn [mbind res_mbind].
    rewrite wr_ok by lia. eexists; split; [done|]. rewrite zlen_insert. split; [done|].
    intros i Hi. rewrite at_insert by lia. destruct (Z.eqb_spec j i) as [->|]; [done|].
    apply Hat. lia.
Qed.

(** The entry a programmed stage applies, as [modify_trans_entry] leaves it. *)
Lemma programmed_act state entry mask hid hlen ns num fds ma s s' :
  stage_wf s → 0 ≤ num ≤ 4 → num ≤ zlen fds →
  modify_trans_entry state entry mask hid hlen ns num fds ma s = Ok s' →
  ∃ fds', rd s'.(ps_act_tbl) (entry_index state entry mask) =
      Ok (mkSramEntry hid hlen ns num fds' ma) ∧ zlen fds' = 4 ∧
    ∀ i, 0 ≤ i < num → at_ fds' i = at_ fds i.
Proof.
  intros Hwf Hnum Hfds Hrun. unfold modify_trans_entry in Hrun. inv_ok. cbn [ps_act_tbl].
  apply rd_ok_inv in Hok0 as Hr. destruct Hr as [Hi Hold].
  pose proof (Forall_lookup_1 _ _ _ _ (wf_entries _ Hwf) Hold) as (_ & _ & _ & Hlen).
  destruct (copy_fds_spec (rd fds) (se_trans_fds x0) fds num) as (d & Hd & Hd4 & Hat);
    [unfold zlen; lia|done|done| |].
  { intros i Hi'. apply rd_at. lia. }
  rewrite Hok1 in Hd. injection Hd as ->. apply wr_ok_inv in Hok2 as [_ ->].
  exists d. split; [by apply rd_insert_eq|done].
Qed.


(** ** The parser as a whole *)
Definition parser_wf (p : Parser) : Prop :=
  0 ≤ p.(needed_parser_level) ≤ 4 ∧ zlen p.(parser_levels) = 4 ∧ Forall stage_wf p.(parser_levels).

Lemma parse_levels_wf n i levels phv phv' `{Target} :
  Forall stage_wf levels → phv_wf phv → parse_levels n i levels phv = Ok phv' → phv_wf phv'.
Proof.
  intros Hl. revert i phv. induction n as [|n IH]; intros i phv Hwf Hrun; cbn [parse_levels] in Hrun.
  - by injection Hrun as <-.
  - inv_ok. apply rd_ok_inv in Hok as [_ Hs]. pose proof (Forall_lookup_1 _ _ _ _ Hl Hs).
    apply stage_parse_wf in Hok0; [|done..]. case_match; [by injection Hrun as <-|eauto].
Qed.

(** Whatever the levels hold, the parser keeps the vector well-formed. *)
Lemma parser_parse_wf `{Target} p phv phv' :
  parser_wf p → phv_wf phv → parser_parse p phv = Ok phv' → phv_wf phv'.
Proof.
  intros (_ & _ & Hl) Hwf. unfold parser_parse. case_match.
  { intros [= <-]. by apply set_next_proc_id_wf. }
  case_match; [by intros [= <-]|]. by apply parse_levels_wf.
Qed.

(** Clearing a parser clears the levels in use, and no other, and stops the
    parser. *)
Lemma parser_clear_spec p :
  parser_wf p →
  ∃ p', parser_clear p = Ok p' ∧ p'.(needed_parser_level) = 0 ∧ p'.(if_work) = 0 ∧
    zlen p'.(parser_levels) = 4 ∧
    ∀ i, 0 ≤ i < 4 → p'.(parser_levels) !! Z.to_nat i =
      (if i <? p.(needed_parser_level) then stage_clear else id) <$> p.(parser_levels) !! Z.to_nat i.
Proof.
  intros (Hn & H4 & _). unfold parser_clear. set (ls := parser_levels p) in *.
  edestruct (for_lt_inv (λ j (l : list ParserStage), zlen l = 4 ∧ ∀ i, 0 ≤ i < 4 →
      l !! Z.to_nat i = (if i <? j then stage_clear else id) <$> ls !! Z.to_nat i)
    0 (needed_parser_level p)) as (l & Hrun & Hlen & Hl); [lia| | |].
  3: { rewrite Hrun. cbn [mbind res_mbind]. eauto 10. }
  - split; [done|]. intros i Hi. rewrite (proj2 (Z.ltb_ge i 0)) by lia. by destruct (ls !! _).
  - intros j l Hj [Hlen Hl]. unfold rd. rewrite (proj2 (Z.leb_le 0 j)), Hl by lia.
    rewrite Z.ltb_irrefl. destruct (lookup_lt_is_Some_2 ls (Z.to_nat j)) as [s Hs];
      [unfold zlen in *; lia|]. rewrite Hs. cbn [mbind res_mbind fmap option_fmap option_map].
    rewrite wr_ok by lia. eexists; split; [done|]. rewrite zlen_insert. split; [done|].
    intros i Hi. destruct (decide (i = j)) as [->|].
    + rewrite list_lookup_insert_eq by (unfold zlen in *; lia). rewrite Hs.
      by rewrite (proj2 (Z.ltb_lt j (j + 1))) by lia.
    + rewrite list_lookup_insert_ne by lia. rewrite Hl by lia. zcmp.
Qed.

(** ** Configuration keeps a parser well-formed *)
Lemma copy_fds_bound num src dst d :
  copy_fds num src dst = Ok d → zlen d = zlen dst ∧ num ≤ Z.max 0 (zlen dst).
Proof.
  unfold copy_fds. intros Hrun. destruct (Z.le_gt_cases num 0).
  { rewrite for_lt_empty in Hrun by lia. injection Hrun as <-. lia. }
  assert (Hl : zlen d = zlen dst).
  { revert Hrun. eapply (for_up_pres (λ d, zlen d = zlen dst)); [|done]. intros j t t' Ht Hb. inv_ok.
    apply wr_ok_inv in Hb as [_ ->]. by rewrite zlen_insert. }
  split; [done|]. unfold for_lt in Hrun. rewrite Z.sub_0_r in Hrun.
  replace (Z.to_nat num) with (Z.to_nat (num - 1) + 1)%nat in Hrun by lia.
  rewrite for_up_app in Hrun. apply bind_ok_inv in Hrun as (t & Ht & Hrun). cbn [for_up] in Hrun. inv_ok.
  apply wr_ok_inv in Hok as [Hi ->]. rewrite zlen_insert in Hl. lia.
Qed.

Lemma modify_trans_entry_wf state entry mask hid hlen ns num fds ma s s' :
  stage_wf s → 0 ≤ hid < 32 → 0 ≤ hlen < 65536 → 0 ≤ num →
  modify_trans_entry state entry mask hid hlen ns num fds ma s = Ok s' → stage_wf s'.
Proof.
  intros [Ht Ha He] Hid Hlen Hnum Hrun. unfold modify_trans_entry in Hrun. inv_ok.
  apply wr_ok_inv in Hok as [_ ->]. apply wr_ok_inv in Hok2 as [_ ->]. apply rd_ok_inv in Hok0 as [_ Hold].
  pose proof (Forall_lookup_1 _ _ _ _ He Hold) as (_ & _ & _ & H4).
  apply copy_fds_bound in Hok1 as [Hl Hn]. unfold zlen in *.
  split; cbn; [unfold zlen; by rewrite length_insert..|]. apply Forall_insert; [done|].
  unfold entry_wf. cbn. lia.
Qed.

Lemma stage_clear_wf s : stage_wf s → stage_wf (stage_clear s).
Proof.
  intros [Ht Ha He]. unfold zlen in *. split; cbn; [unfold zlen; by rewrite length_fmap..|].
  apply Forall_fmap. eapply Forall_impl; [done|]. intros e (? & ? & ? & ?). unfold entry_wf. cbn. lia.
Qed.

Lemma levels_insert_wf (levels l : list ParserStage) i s :
  zlen levels = 4 → Forall stage_wf levels → stage_wf s → wr levels i s = Ok l → zlen l = 4 ∧ Forall stage_wf l.
Proof. intros Hl Hw Hs Hwr. apply wr_ok_inv in Hwr as [_ ->]. rewrite zlen_insert. split; [done|]. by apply Forall_insert. Qed.

Lemma modify_parser_entry_direct_wf level state entry mask hid hlen ns num fds ma p p' :
  parser_wf p → 0 ≤ hid < 32 → 0 ≤ num →
  modify_parser_entry_direct level state entry mask hid hlen ns num fds ma p = Ok p' → parser_wf p'.
Proof.
  intros (Hn & Hl & Hw) Hid Hnum Hrun. unfold modify_parser_entry_direct in Hrun. inv_ok.
  apply rd_ok_inv in Hok as [_ Hs]. pose proof (Forall_lookup_1 _ _ _ _ Hw Hs) as Hsw.
  split; [done|]. cbn. eapply levels_insert_wf; [done|done| |done].
  eapply modify_trans_entry_wf; [done|done| |done|done]. pose proof (u8_range hlen). lia.
Qed.

Lemma parser_clear_wf p p' : parser_wf p → parser_clear p = Ok p' → parser_wf p'.
Proof.
  intros (Hn & Hl & Hw) Hrun. unfold parser_clear in Hrun. inv_ok. split; [cbn; lia|]. cbn.
  revert Hok. eapply (for_up_pres (λ ls, zlen ls = 4 ∧ Forall stage_wf ls)); [|done].
  intros j t t' [Htl Htw] Hb. inv_ok. apply rd_ok_inv in Hok as [_ Hs].
  eapply levels_insert_wf; [done|done| |done]. by apply stage_clear_wf, (Forall_lookup_1 _ _ _ _ Htw Hs).
Qed.

(** A stage and a parser as built, on x86. *)
Lemma ParserStage_init_wf : stage_wf (ParserStage_init (H := x86)).
Proof. split; [done|done|]. apply Forall_replicate. by repeat split; vm_compute. Qed.

Lemma Parser_init_wf n : 0 ≤ n ≤ 4 → parser_wf (init_parser_level n (Parser_init (H := x86))).
Proof.
  intros Hn. split; [done|]. split; [done|]. apply Forall_replicate, ParserStage_init_wf.
Qed.

(** ** Examples *)
Definition demo_bytes : list Z := [5; 7] ++ replicate 1598 0.
Definition demo_parse_phv : PHV := set_packet demo_bytes (PHV_init (H := x86)).

Lemma demo_parse_wf : phv_wf demo_parse_phv.
Proof.
  apply set_packet_wf; [reflexivity| |apply PHV_init_wf].
  apply Forall_app. split; [repeat constructor; lia|]. apply bytes_replicate.
Qed.

Lemma trans_key_two_witness :
  trans_key (H := x86) demo_parse_phv 2 [mkFieldInfo 0 0 8 FIELD; mkFieldInfo 0 8 8 FIELD] = Ok 1292.
Proof.
  rewrite (trans_key_two (H := x86) demo_parse_phv (mkFieldInfo 0 0 8 FIELD) (mkFieldInfo 0 8 8 FIELD) []
    (mkHeaderInfo 0 0 0) (mkHeaderInfo 0 0 0)).
  - vm_compute. reflexivity.
  - exact demo_parse_wf.
  - repeat split; try discriminate; try reflexivity; cbn; lia.
  - repeat split; try discriminate; try reflexivity; cbn; lia.
  - cbn. lia.
  - cbn. lia.
Defined.


Lemma parser_clear_spec_witness :
  ∃ p', parser_clear (init_parser_level 2 (Parser_init (H := x86))) = Ok p' ∧ p'.(if_work) = 0.
Proof.
  destruct (parser_clear_spec (init_parser_level 2 (Parser_init (H := x86)))) as (p' & Hc & _ & Hw & _).
  - apply Parser_init_wf. lia.
  - exists p'. split; [exact Hc|exact Hw].
Defined.

(** The second four bits of a byte: the key has the first four too. *)
Example nibble_read_whole :
  let phv := set_packet (69 :: replicate 2000 0) (PHV_init (H := x86)) in
  get_field_int (H := x86) phv (mkFieldInfo 0 4 4 FIELD) = Ok 69 ∧ field_val phv.(packet) 4 4 = 5.
Proof. split; vm_compute; reflexivity. Qed.
