(* ===== verification/Executor.v ===== *)
(** * The executor of a processor (executor.h)

    An action is a list of primitives; a primitive assigns the value of an
    expression tree to a field of the packet.  The operands are byte strings
    with a length in bits.  The executor of a processor holds the 32 actions it
    can run and cuts the parameters of an action out of the value its table
    returned. *)

From stdpp Require Import base numbers list.
From Stdlib Require Import ZArith Lia.
From S2P Require Import Prelude Bits Phv.

#[local] Open Scope Z_scope.

(** ** Operands *)

(** [get_value]: at most the first four bytes. *)
Definition get_value `{Target} (data : Data) : res Z :=
  let byte_len := ceil8 data.(data_len) in
  let max := if 4 <=? byte_len then 4 else byte_len in
  for_ge (max - 1) 0 (λ i sum,
    b ← rd data.(val) i;
    mret (u32 (sum + shl32 b ((max - 1 - i) * 8)))) 0.

Definition get_data `{Target} (len d : Z) : res Data :=
  let byte_len := ceil8 len in
  v ← fresh byte_len;
  v ← for_lt 0 byte_len (λ i v, wr v (byte_len - 1 - i) (u8 (shr32 d (i * 8)))) v;
  mret (mkData len v).

(** The copying loop of [get_op_val_any] for a field operand: the bytes of the
    field from the last one, each put together from two bytes of the packet. *)
Definition field_op_loop (fd_backup : list Z) (right_shift byte_len : Z) (st : list Z * Z)
    : res (list Z * Z) :=
  for_ge (byte_len - 1) 1 (λ i '(v, idx),
    b ← rd fd_backup i;
    a ← rd fd_backup (i - 1);
    v ← wr v idx (u8 (Z.shiftr b right_shift + Z.shiftl a (8 - right_shift)));
    mret (v, idx - 1)) st.

Definition get_op_val_any `{Target} (para : Parameter_) (phv : PHV)
    (action_paras : list ActionParam) : res Data :=
  match para with
  | CONSTANT d => mret d
  | PFIELD f =>
      hi ← header_of phv f.(hdr_id);
      let start := hi.(hdr_offset) + f.(internal_offset) in
      let end_ := start + f.(fd_len) in
      let byte_start := start / 8 in
      let byte_end := end_ / 8 in
      let byte_len := byte_end - byte_start + 1 in
      let left_shift := start mod 8 in
      let right_shift := 8 - end_ mod 8 in
      let fd_len_byte := ceil8 f.(fd_len) in
      v ← fresh fd_len_byte;
      bk ← zeros byte_len;
      bk ← memcpy bk 0 phv.(packet) byte_start byte_len;
      b0 ← rd bk 0;
      bk ← wr bk 0 (u8 (Z.shiftr (Z.shiftl b0 left_shift) left_shift));
      bl ← rd bk (byte_len - 1);
      bk ← wr bk (byte_len - 1) (u8 (Z.shiftl (Z.shiftr bl right_shift) right_shift));
      '(v, _) ← field_op_loop bk right_shift byte_len (v, fd_len_byte - 1);
      mret (mkData f.(fd_len) v)
  | PARAM i =>
      ap ← rd action_paras i;
      mret (mkData ap.(action_para_len) ap.(ap_val))
  | HEADER _ | OPERATOR _ => mret (mkData 0 [])
  end.

(** [bit_compute]; another operation falls off the end of the function. *)
Definition bit_compute `{Target} (op : Z) (data1 data2 : Data) : res Data :=
  if op =? 1 then
    n ← get_value data2;
    operand ← get_value data1;
    bitmap ← for_lt 0 (32 - data1.(data_len))
               (λ i bitmap, mret (u32 (bitmap - Z.shiftl 1 (31 - i)))) 4294967295;
    get_data data1.(data_len) (Z.land (shl32 operand (i32 n)) bitmap)
  else if op =? 2 then
    n ← get_value data2;
    operand ← get_value data1;
    get_data data1.(data_len) (shr32 operand (i32 n))
  else if op =? 3 then
    a ← get_value data1; b ← get_value data2; get_data data1.(data_len) (Z.land a b)
  else if op =? 4 then
    a ← get_value data1; b ← get_value data2; get_data data1.(data_len) (Z.lor a b)
  else if op =? 5 then
    a ← get_value data1; b ← get_value data2; get_data data1.(data_len) (Z.lxor a b)
  else if op =? 6 then
    a ← get_value data1;
    let r := if data1.(data_len) <=? 8 then u8 (Z.lnot a)
             else if data1.(data_len) <=? 16 then u16 (Z.lnot a)
             else if data1.(data_len) <=? 32 then u32 (Z.lnot a) else 0 in
    get_data data1.(data_len) r
  else Fault NoReturn.

(** ** Expression trees and primitives *)
Inductive ExpTreeNode : Set :=
| NullNode
| Node (opt : Parameter_) (lhs rhs : ExpTreeNode).

Record Primitive : Set := mkPrimitive {
  lvalue : option FieldInfo;   (** the pointer is not initialised by the constructor *)
  root : ExpTreeNode
}.

(** [Primitive::execute]. *)
Fixpoint exp_execute `{Target} (phv : PHV) (etn : ExpTreeNode) (action_paras : list ActionParam)
    : res Data :=
  match etn with
  | NullNode => Fault NullDeref
  | Node (OPERATOR op) lhs rhs =>
      match op with
      | ADD =>
          d1 ← exp_execute phv lhs action_paras; a ← get_value d1;
          d2 ← exp_execute phv rhs action_paras; b ← get_value d2;
          get_data 32 (u32 (a + b))
      | SUB =>
          d1 ← exp_execute phv lhs action_paras; a ← get_value d1;
          d2 ← exp_execute phv rhs action_paras; b ← get_value d2;
          get_data 32 (u32 (a - b))
      | SHIFT_LEFT =>
          d ← exp_execute phv lhs action_paras; s ← exp_execute phv rhs action_paras;
          bit_compute 1 d s
      | SHIFT_RIGHT =>
          d ← exp_execute phv lhs action_paras; s ← exp_execute phv rhs action_paras;
          bit_compute 2 d s
      | BIT_AND =>
          d1 ← exp_execute phv lhs action_paras; d2 ← exp_execute phv rhs action_paras;
          bit_compute 3 d1 d2
      | BIT_OR =>
          d1 ← exp_execute phv lhs action_paras; d2 ← exp_execute phv rhs action_paras;
          bit_compute 4 d1 d2
      | BIT_XOR =>
          d1 ← exp_execute phv lhs action_paras; d2 ← exp_execute phv rhs action_paras;
          bit_compute 5 d1 d2
      | BIT_NEG =>
          d1 ← exp_execute phv lhs action_paras;
          bit_compute 6 d1 (mkData 0 [])
      | _ => Fault NoReturn
      end
  | Node opt _ _ => get_op_val_any opt phv action_paras
  end.

(** The loops of [modify_field_with_data]: the data shifted to the end of the
    field, the mask of the bits to keep, the store. *)
Definition span_loop (new_data : list Z) (right_empty byte_len : Z) (span : list Z) : res (list Z) :=
  for_ge (byte_len - 1) 1 (λ i span,
    n ← rd new_data i;
    s ← rd span i;
    span ← wr span i (u8 (s + Z.shiftl n right_empty));
    s1 ← rd span (i - 1);
    wr span (i - 1) (u8 (s1 + Z.shiftr n (8 - right_empty)))) span.

Definition bitmap_loops (left_empty right_empty byte_len : Z) (bitmap : list Z) : res (list Z) :=
  bitmap ← for_lt 0 left_empty (λ i m,
    b ← rd m 0; wr m 0 (u8 (b + Z.shiftl 1 (7 - i)))) bitmap;
  for_lt 0 right_empty (λ i m,
    b ← rd m (byte_len - 1); wr m (byte_len - 1) (u8 (b + Z.shiftl 1 i))) bitmap.

Definition span_store (bitmap span : list Z) (begin_byte end_byte : Z) (st : list Z * Z)
    : res (list Z * Z) :=
  for_lt begin_byte (end_byte + 1) (λ i '(pkt, idx),
    p ← rd pkt i;
    m ← rd bitmap idx;
    s ← rd span idx;
    pkt ← wr pkt i (u8 (Z.land p m + s));
    mret (pkt, idx + 1)) st.

(** [modify_field_with_data] on a field parameter. *)
Definition modify_field_with_data (para : FieldInfo) (data : Data) (phv : PHV) : res PHV :=
  hi ← header_of phv para.(hdr_id);
  let begin_bit := hi.(hdr_offset) + para.(internal_offset) in
  let end_bit := begin_bit + para.(fd_len) - 1 in
  let begin_byte := begin_bit / 8 in
  let end_byte := Z.quot end_bit 8 in
  let byte_len := end_byte - begin_byte + 1 in
  span_byte ← zeros byte_len;
  new_data ← zeros byte_len;
  let dlen := ceil8 data.(data_len) in
  new_data ←
    (if dlen <? byte_len then memcpy new_data 1 data.(val) 0 (byte_len - 1)
     else if dlen =? byte_len then memcpy new_data 0 data.(val) 0 byte_len
     else memcpy new_data 0 data.(val) (dlen - byte_len) byte_len);
  let right_empty := (Z.quot end_bit 8 + 1) * 8 - end_bit - 1 in
  span_byte ← span_loop new_data right_empty byte_len span_byte;
  s0 ← rd span_byte 0;
  n0 ← rd new_data 0;
  span_byte ← wr span_byte 0 (u8 (s0 + Z.shiftl n0 right_empty));
  bitmap ← zeros byte_len;
  bitmap ← bitmap_loops (begin_bit mod 8) right_empty byte_len bitmap;
  '(pkt, _) ← span_store bitmap span_byte begin_byte end_byte (phv.(packet), 0);
  mret (set_packet pkt phv).

(** [Primitive::run]. *)
Definition prim_run `{Target} (prim : Primitive) (phv : PHV) (action_paras : list ActionParam) : res PHV :=
  d ← exp_execute phv prim.(root) action_paras;
  match prim.(lvalue) with
  | None => Fault WildPointer
  | Some f => modify_field_with_data f d phv
  end.

(** ** Actions *)
Record Action : Set := mkAction {
  prims : list Primitive;
  para_num : Z;
  action_paras : list ActionParam;
  action_para_lens : list Z
}.

Definition Action_init : Action := mkAction [] 0 [] [].

Definition set_action_para_lens (para_lens : list Z) (a : Action) : Action :=
  mkAction a.(prims) a.(para_num) a.(action_paras) para_lens.

Definition set_primitive (_prims : list Primitive) (a : Action) : Action :=
  mkAction (a.(prims) ++ _prims) a.(para_num) a.(action_paras) a.(action_para_lens).

Definition set_action_para (_action_paras : list ActionParam) (a : Action) : Action :=
  mkAction a.(prims) a.(para_num) (a.(action_paras) ++ _action_paras) a.(action_para_lens).

(** The loop that moves a parameter to the end of its bytes. *)
Definition para_shift_loop (value_new : list Z) (right_offset byte_len : Z) (st : list Z * Z)
    : res (list Z * Z) :=
  for_ge (byte_len - 1) 0 (λ j '(v, idx),
    b ← rd v j;
    x ← rd value_new idx;
    v ← (if right_offset =? 0 then wr v j (u8 (b + x))
         else
           v ← wr v j (u8 (b + Z.shiftr x (8 - right_offset)));
           if 0 <? idx then
             y ← rd value_new (idx - 1);
             b ← rd v j;
             wr v j (u8 (b + u8 (Z.shiftl y right_offset)))
           else mret v);
    mret (v, idx - 1)) st.

(** One parameter, [len] bits of [value] from bit [cur_offset]. *)
Definition cut_para `{Target} (value : list Z) (cur_offset len : Z) : res ActionParam :=
  let para_end := cur_offset + len in
  let left_offset := cur_offset mod 8 in
  let right_offset := para_end mod 8 in
  let byte_start := cur_offset / 8 in
  let byte_end := para_end / 8 - (if right_offset =? 0 then 1 else 0) in
  let new_len := byte_end - byte_start + 1 in
  vn ← fresh new_len;
  vn ← memcpy vn 0 value byte_start new_len;
  b0 ← rd vn 0;
  vn ← wr vn 0 (Z.shiftr (u8 (Z.shiftl b0 left_offset)) left_offset);
  bl ← rd vn (new_len - 1);
  vn ← wr vn (new_len - 1)
         (if right_offset =? 0 then bl
          else u8 (Z.shiftl (Z.shiftr bl (8 - right_offset)) (8 - right_offset)));
  let byte_len := ceil8 len in
  v ← zeros byte_len;
  '(v, _) ← para_shift_loop vn right_offset byte_len (v, new_len - 1);
  mret (mkActionParam len v).

(** [set_action_paras]: the parameters follow the 16 bits of the action id. The
    value is read only when there is a parameter. *)
Definition set_action_paras `{Target} (value : option (list Z)) (a : Action) : res Action :=
  '(ps, _) ← for_lt 0 a.(para_num) (λ i '(ps, cur_offset),
    len ← rd a.(action_para_lens) i;
    match value with
    | None => Fault WildPointer
    | Some value =>
        p ← cut_para value cur_offset len;
        mret (ps ++ [p], cur_offset + len)
    end) ([], 16);
  mret (mkAction a.(prims) a.(para_num) ps a.(action_para_lens)).

Definition action_execute `{Target} (a : Action) (phv : PHV) : res PHV :=
  for_each (λ prim phv, prim_run prim phv a.(action_paras)) a.(prims) phv.

(** ** The executor

    A slot of [_actions] is a pointer: null, to an action, to an action that was
    deleted, or what the memory held before (the constructor stores nothing). *)
Inductive slot : Set :=
| SNull
| SWild
| SLive (a : Action)
| SFreed.

Record Executor : Set := mkExecutor { _actions : list slot }.

Definition Executor_init `{Target} : Executor :=
  mkExecutor ((λ i, if decide (junk i = 0) then SNull else SWild) <$>
    seq 0 (Z.to_nat EXECUTOR_ACTION_NUM)).

Definition deref (s : slot) : res Action :=
  match s with
  | SNull => Fault NullDeref
  | SWild => Fault WildPointer
  | SFreed => Fault UseAfterFree
  | SLive a => Ok a
  end.

Definition insert_action (ac : Action) (action_id : Z) (x : Executor) : res Executor :=
  l ← wr x.(_actions) action_id (SLive ac);
  mret (mkExecutor l).

(** [execute_miss_action] and [execute_action] are the same code. *)
Definition execute_miss_action `{Target} (action_id : Z) (x : Executor) (phv : PHV) : res PHV :=
  s ← rd x.(_actions) action_id;
  a ← deref s;
  action_execute a phv.

Definition execute_action `{Target} (action_id : Z) (x : Executor) (phv : PHV) : res PHV :=
  s ← rd x.(_actions) action_id;
  a ← deref s;
  action_execute a phv.

(** [Executor::execute]. *)
Definition executor_execute `{Target} (x : Executor) (phv : PHV) : res (Executor * PHV) :=
  s ← rd x.(_actions) phv.(next_action_id);
  a ← deref s;
  a ← set_action_paras phv.(match_value) a;
  l ← wr x.(_actions) phv.(next_action_id) (SLive a);
  phv ← action_execute a phv;
  mret (mkExecutor l, phv).

Definition set_action_para_value `{Target} (value : list Z) (x : Executor) : res Executor :=
  v1 ← rd value 1;
  v0 ← rd value 0;
  let action_id := v1 + Z.shiftl v0 8 in
  s ← rd x.(_actions) action_id;
  a ← deref s;
  a ← set_action_paras (Some value) a;
  l ← wr x.(_actions) action_id (SLive a);
  mret (mkExecutor l).

Definition del_action (action_id : Z) (x : Executor) : res Executor :=
  s ← rd x.(_actions) action_id;
  _ ← deref s;
  l ← wr x.(_actions) action_id SFreed;
  mret (mkExecutor l).

(** The slots keep their dangling pointers. *)
Definition clear_action (x : Executor) : res Executor :=
  l ← for_lt 0 EXECUTOR_ACTION_NUM (λ i l,
    s ← rd l i;
    match s with
    | SNull => mret l
    | _ => _ ← deref s; wr l i SFreed
    end) x.(_actions);
  mret (mkExecutor l).

(** ** Reading and writing operands *)

(** [get_value] of an operand of at most four bytes is its value; of a longer one,
    that of its first four bytes. *)
Definition first32 (len v : Z) : Z := if ceil8 len <=? 4 then v else v / 2 ^ (8 * (ceil8 len - 4)).

Lemma get_value_spec `{Target} d :
  bytes d.(val) → zlen d.(val) = ceil8 d.(data_len) →
  get_value d = Ok (first32 d.(data_len) (be_val d.(val))) ∧ 0 ≤ first32 d.(data_len) (be_val d.(val)) < 2 ^ 32.
Proof.
  intros Hb Hn'. unfold get_value, first32. rewrite <- Hn'. set (N := zlen (val d)) in *.
  pose proof (zlen_nonneg (val d)) as H0'. fold N in H0'. set (n := if 4 <=? N then 4 else N).
  assert (H0 : 0 ≤ n ≤ N ∧ n ≤ 4) by (subst n; zcmp).
  pose proof (be_val_range (val d) Hb) as HV0. fold N in HV0. set (V0 := be_val (val d)) in *.
  set (V := V0 / 2 ^ (8 * (N - n))). assert ((if N <=? 4 then V0 else V0 / 2 ^ (8 * (N - 4))) = V) as ->.
  { subst V n. destruct (Z.leb_spec N 4), (Z.leb_spec 4 N); try lia; try done; replace (8 * (N - _)) with 0 by lia; by rewrite Z.div_1_r. }
  assert (HV : 0 ≤ V < 2 ^ (8 * n)).
  { assert (0 < 2 ^ (8 * (N - n))) by (apply Z.pow_pos_nonneg; lia). split; [apply Z.div_pos; lia|].
    apply Z.div_lt_upper_bound; [lia|]. rewrite <- Z.pow_add_r by lia. replace (8 * (N - n) + 8 * n) with (8 * N) by lia. lia. }
  assert (Hat : ∀ i, 0 ≤ i < n → at_ (val d) i = digit V n i).
  { intros i Hi. rewrite (be_val_digit (val d) i) by (done || lia). fold V0 N. unfold digit, V.
    rewrite Z.div_div by (apply Z.pow_nonzero || apply Z.pow_pos_nonneg; lia). rewrite <- Z.pow_add_r by lia. do 3 f_equal. lia. }
  assert (H32 : 2 ^ (8 * n) ≤ 2 ^ 32) by (apply Z.pow_le_mono_r; lia).
  split; [|lia]. edestruct (for_ge_inv (λ i s, s = V mod 2 ^ (8 * (n - 1 - i))) (n - 1) 0)
    as (s & Hrun & Hs); [lia| | |rewrite Hrun; subst s; f_equal; apply Z.mod_small].
  - replace (8 * (n - 1 - (n - 1))) with 0 by lia. by rewrite Z.mod_1_r.
  - intros i s Hi ->. rewrite rd_at by lia. cbn [mbind res_mbind]. eexists; split; [done|].
    rewrite Hat by lia. unfold digit.
    replace ((n - 1 - i) * 8) with (8 * (n - 1 - i)) by lia. set (k := 8 * (n - 1 - i)).
    rewrite shl32_in by lia. replace (8 * (n - 1 - (i - 1))) with (k + 8) by lia.
    assert (Hp : 0 < 2 ^ k) by (apply Z.pow_pos_nonneg; lia).
    rewrite Z.pow_add_r by lia. rewrite Z.rem_mul_r by lia.
    unfold u8. change (2 ^ 8) with 256. set (x := (V / 2 ^ k) mod 256).
    pose proof (Z.mod_pos_bound V (2 ^ k) Hp). pose proof (Z.mod_pos_bound (V / 2 ^ k) 256 ltac:(lia)).
    assert (H8 : 256 * 2 ^ k ≤ 2 ^ 32).
    { change 256 with (2 ^ 8). rewrite <- Z.pow_add_r by lia. apply Z.pow_le_mono_r; lia. }
    rewrite (u32_small (x * 2 ^ k)) by nia. rewrite (Z.mul_comm (2 ^ k)).
    apply u32_small. nia.
  - by replace (8 * (n - 1 - (0 - 1))) with (8 * n) by lia.
Qed.

(** [get_data] holds the low bytes of its argument. *)
Lemma get_data_spec `{Target} len d :
  0 ≤ len ≤ 32 → 0 ≤ d →
  ∃ v, get_data len d = Ok (mkData len v) ∧ bytes v ∧ zlen v = ceil8 len ∧
    be_val v = d mod 2 ^ (8 * ceil8 len).
Proof.
  intros Hlen Hd. unfold get_data. set (n := ceil8 len).
  assert (Hn : 0 ≤ n ≤ 4) by (subst n; unfold ceil8; dlia).
  unfold fresh. rewrite (proj2 (Z.ltb_ge n 0)) by lia. cbn [mbind res_mbind].
  set (v0 := _ <$> seq 0 (Z.to_nat n)).
  assert (Hv0 : zlen v0 = n) by (subst v0; unfold zlen; rewrite length_fmap, length_seq; lia).
  clearbody v0.
  edestruct (for_lt_inv (λ i v, zlen v = n ∧ ∀ j, n - i ≤ j < n →
      at_ v j = digit d n j) 0 n) as (v & Hrun & Hl & Hv); [lia| | |rewrite Hrun].
  - split; [done|]. lia.
  - intros i v Hi [Hl Hv]. cbn beta. rewrite wr_ok by lia. eexists; split; [done|].
    rewrite zlen_insert. split; [done|]. intros j Hj. rewrite at_insert by lia.
    destruct (Z.eqb_spec (n - 1 - i) j) as [<-|]; [|apply Hv; lia].
    rewrite shr32_in by lia. unfold digit. do 3 f_equal. lia.
  - cbn [mbind res_mbind]. exists v. split; [done|].
    assert (Hvb : bytes v).
    { apply bytes_of_at. intros i Hi. rewrite Hv by lia. apply digit_range. }
    split; [done|]. split; [done|]. apply be_val_digits; [done|]. intros i Hi. apply Hv. lia.
Qed.

(** The bytes of a field operand: [8 * n] bits that end where the field ends. *)
Lemma field_op_loop_spec p bk bs be end_ v0 n :
  bytes p → 0 ≤ bs ≤ be → be = end_ / 8 → be - bs ≤ n → zlen v0 = n →
  zlen bk = be - bs + 1 →
  (∀ i, 0 ≤ i < be - bs → at_ bk i = at_ p (bs + i)) →
  at_ bk (be - bs) / 2 ^ (8 - end_ mod 8) = at_ p be / 2 ^ (8 - end_ mod 8) →
  ∃ v idx, field_op_loop bk (8 - end_ mod 8) (be - bs + 1) (v0, n - 1) = Ok (v, idx) ∧ zlen v = n ∧
    ∀ j, n - (be - bs) ≤ j < n → at_ v j = field_val p (end_ - 8 * (n - j)) 8.
Proof.
  intros Hp Hbs Hbe Hn Hv0 Hbk Hb Hlast. unfold field_op_loop. set (rs := 8 - end_ mod 8) in *.
  assert (Hrs : 0 < rs ≤ 8 ∧ end_ = 8 * be + (8 - rs)) by (subst rs be; dlia).
  edestruct (for_ge_inv (λ i '(v, idx), idx = n - 1 - (be - bs - i) ∧ zlen v = n ∧
      ∀ j, idx < j < n → at_ v j = field_val p (end_ - 8 * (n - j)) 8) (be - bs + 1 - 1) 1)
    as ([v idx] & Hrun & Hidx & Hl & Hv); [lia| | |rewrite Hrun].
  - split; [lia|]. split; [done|]. lia.
  - intros i [v idx] Hi (-> & Hl & Hv). rewrite !(rd_at bk) by lia. cbn [mbind res_mbind].
    rewrite wr_ok by lia. cbn [mbind res_mbind]. eexists; split; [done|]. split; [lia|].
    rewrite zlen_insert. split; [done|]. intros j Hj. rewrite at_insert by lia.
    destruct (Z.eqb_spec (n - 1 - (be - bs - i)) j) as [<-|]; [|apply Hv; lia].
    rewrite Z.shiftl_mul_pow2, Z.shiftr_div_pow2 by lia. rewrite (Hb (i - 1)) by lia.
    assert (at_ bk i / 2 ^ rs = at_ p (bs + i) / 2 ^ rs) as ->.
    { destruct (decide (i = be - bs)) as [->|]; [|by rewrite Hb by lia].
      rewrite Hlast. do 2 f_equal. lia. }
    replace (end_ - 8 * (n - (n - 1 - (be - bs - i)))) with (8 * (bs + (i - 1)) + (8 - rs)) by lia.
    set (m := bs + (i - 1)). replace (bs + i) with (m + 1) by lia.
    replace 8 with (rs + (8 - rs)) at 4 by lia. rewrite field_val_app by lia.
    replace (8 * m + (8 - rs) + rs) with (8 * (m + 1)) by lia.
    pose proof (field_val_tail p m (8 - rs) Hp ltac:(lia)) as Ht.
    replace (8 - (8 - rs)) with rs in Ht by lia. rewrite Ht.
    rewrite field_val_head by (done || lia). replace (8 - (8 - rs)) with rs by lia.
    pose proof (bytes_at p m Hp) as Hm. pose proof (bytes_at p (m + 1) Hp) as Hm1.
    replace rs with (8 - (8 - rs)) at 3 by lia. apply (u8_join (8 - rs)); [lia|]. split; [apply Z.div_pos; [|apply Z.pow_pos_nonneg]; lia|].
    apply Z.div_lt_upper_bound; [apply Z.pow_pos_nonneg; lia|]. rewrite <- Z.pow_add_r by lia.
    replace (rs + (8 - rs)) with 8 by lia. lia.
  - exists v, idx. split; [done|]. split; [done|]. intros j Hj. apply Hv. lia.
Qed.

(** A field operand, byte by byte: 8 bits each, the last ones ending where the
    field ends.  When the length is not a multiple of 8 the first byte either
    holds bits of the packet to the left of the field, or was never written. *)
Lemma field_operand_bytes `{Target} phv f hi paras :
  header_of phv f.(hdr_id) = Ok hi → bytes phv.(packet) →
  0 ≤ hi.(hdr_offset) → 0 ≤ f.(internal_offset) → 1 ≤ f.(fd_len) →
  let start := hi.(hdr_offset) + f.(internal_offset) in
  let end_ := start + f.(fd_len) in
  let n := ceil8 f.(fd_len) in
  end_ < 8 * zlen phv.(packet) →
  ∃ v, get_op_val_any (PFIELD f) phv paras = Ok (mkData f.(fd_len) v) ∧ zlen v = n ∧
    ∀ j, n - (end_ / 8 - start / 8) ≤ j < n → at_ v j = field_val phv.(packet) (end_ - 8 * (n - j)) 8.
Proof.
  intros Hhi Hp Hho Hio Hfl start end_ n Hend. unfold get_op_val_any. rewrite Hhi.
  cbn [mbind res_mbind]. fold start. fold end_. fold n. cbv zeta.
  set (p := packet phv) in *. set (bs := start / 8). set (be := end_ / 8).
  assert (Hn : be - bs ≤ n ∧ 0 ≤ bs ≤ be ∧ be < zlen p) by (subst n be bs end_; unfold ceil8; dlia).
  destruct (fresh_ok n) as (v0 & -> & Hv0 & _); [lia|]. cbn [mbind res_mbind].
  rewrite zeros_ok by lia. cbn [mbind res_mbind].
  destruct (memcpy_spec (replicate (Z.to_nat (be - bs + 1)) 0) 0 p bs (be - bs + 1))
    as (bk & -> & Hbl & Hbk); rewrite ?zlen_replicate; try lia. cbn [mbind res_mbind].
  rewrite zlen_replicate in Hbl, Hbk.
  assert (Hat : ∀ i, 0 ≤ i < be - bs + 1 → at_ bk i = at_ p (bs + i)).
  { intros i Hi. rewrite Hbk by lia. zcmp. f_equal. lia. }
  rewrite (rd_at bk) by lia. cbn [mbind res_mbind]. rewrite wr_ok by lia. cbn [mbind res_mbind].
  rewrite Z.shiftr_shiftl_l by dlia. rewrite Z.sub_diag, Z.shiftl_0_r.
  rewrite (u8_small (at_ bk 0)) by (rewrite Hat by lia; by apply bytes_at).
  set (bk1 := <[Z.to_nat 0 := at_ bk 0]> bk).
  assert (Hat1 : zlen bk1 = be - bs + 1 ∧ ∀ i, 0 ≤ i < be - bs + 1 → at_ bk1 i = at_ p (bs + i)).
  { subst bk1. rewrite zlen_insert. split; [lia|]. intros i Hi. rewrite at_insert by lia.
    rewrite <- Hat by lia. destruct (Z.eqb_spec 0 i); [by subst|done]. }
  destruct Hat1 as [Hl1 Hat1]. clearbody bk1.
  rewrite (rd_at bk1) by lia. cbn [mbind res_mbind]. rewrite wr_ok by lia. cbn [mbind res_mbind].
  set (x := u8 _). destruct (field_op_loop_spec p (<[Z.to_nat (be - bs + 1 - 1) := x]> bk1) bs be end_ v0 n)
    as (v & idx & -> & Hvl & Hv); try done; try lia.
  - rewrite zlen_insert. lia.
  - intros i Hi. rewrite at_insert_ne by lia. apply Hat1. lia.
  - rewrite at_insert by lia. rewrite (proj2 (Z.eqb_eq _ _)) by lia. subst x.
    rewrite Hat1 by lia. replace (bs + (be - bs + 1 - 1)) with be by lia.
    set (rs := 8 - end_ mod 8). assert (0 < rs ≤ 8) by (subst rs; dlia).
    rewrite Z.shiftl_mul_pow2, Z.shiftr_div_pow2 by lia.
    pose proof (bytes_at p be Hp) as Hb. generalize dependent (at_ p be). intros b Hb.
    assert (0 < 2 ^ rs) by (apply Z.pow_pos_nonneg; lia).
    pose proof (Z.div_pos b (2 ^ rs) ltac:(lia) ltac:(lia)).
    pose proof (Z.mul_div_le b (2 ^ rs) ltac:(lia)).
    rewrite u8_small by nia. apply Z.div_mul. lia.
  - cbn [mbind res_mbind]. eauto.
Qed.

(** A field operand, when every byte is written: the field, with the bits in front of
    it that are missing to whole bytes. *)
Lemma field_operand_val `{Target} phv f hi paras :
  header_of phv f.(hdr_id) = Ok hi → bytes phv.(packet) →
  0 ≤ hi.(hdr_offset) → 0 ≤ f.(internal_offset) → 1 ≤ f.(fd_len) →
  let start := hi.(hdr_offset) + f.(internal_offset) in
  let n := ceil8 f.(fd_len) in
  (start + f.(fd_len)) / 8 - start / 8 = n → start + f.(fd_len) < 8 * zlen phv.(packet) →
  ∃ v, get_op_val_any (PFIELD f) phv paras = Ok (mkData f.(fd_len) v) ∧ bytes v ∧
    zlen v = n ∧ be_val v = field_val phv.(packet) (start + f.(fd_len) - 8 * n) (8 * n).
Proof.
  intros Hhi Hp Hho Hio Hfl start n Hspan Hend.
  destruct (field_operand_bytes phv f hi paras) as (v & -> & Hl & Hv); try done.
  fold start in Hv. fold n in Hv, Hl.
  assert (Hv' : ∀ j, 0 ≤ j < n → at_ v j = field_val (packet phv) (start + fd_len f - 8 * n + 8 * j) 8).
  { intros j Hj. rewrite Hv; [f_equal; lia|]. lia. }
  exists v. split; [done|]. split; [|split; [done|]].
  - apply bytes_of_at. intros j Hj. rewrite Hv' by lia. by apply field_val_range.
  - by apply bytes_field.
Qed.

(** A field of whole bytes is one, and its value is that of the field. *)
Lemma whole_field_written start len : 1 ≤ len → len mod 8 = 0 → (start + len) / 8 - start / 8 = ceil8 len ∧ 8 * ceil8 len = len.
Proof. intros. unfold ceil8. dlia. Qed.

(** Otherwise the first byte of the operand is never written: a field of four bits at
    the start of a byte has whatever the memory held. *)
Lemma field_operand_unwritten (t : Target) :
  get_op_val_any (H := t) (PFIELD (mkFieldInfo 0 0 4 FIELD)) (PHV_init (H := t)) [] = Ok (mkData 4 [u8 (junk (Target := t) 0)]).
Proof. reflexivity. Qed.

(** ** Storing a value in a field *)

(** The last [bl] bytes of the data, as [modify_field_with_data] lines them up. *)
Lemma new_data_spec (v : list Z) bl :
  bytes v → 1 ≤ bl → bl - 1 ≤ zlen v → be_val v < 2 ^ (8 * bl) →
  ∃ nd, (nd ← zeros bl;
         if zlen v <? bl then memcpy nd 1 v 0 (bl - 1)
         else if zlen v =? bl then memcpy nd 0 v 0 bl
         else memcpy nd 0 v (zlen v - bl) bl) = Ok nd ∧
    zlen nd = bl ∧ ∀ i, 0 ≤ i < bl → at_ nd i = digit (be_val v) bl i.
Proof.
  intros Hv Hbl Hlen HV. rewrite zeros_ok by lia. cbn [mbind res_mbind].
  set (z := replicate (Z.to_nat bl) 0). assert (Hz : zlen z = bl) by (subst z; rewrite zlen_replicate; lia).
  pose proof (be_val_range v Hv) as HV0. set (V := be_val v) in *. set (n := zlen v) in *.
  assert (Hdig : ∀ i, 0 ≤ i < n → at_ v i = digit V bl (i + (bl - n))).
  { intros i Hi. rewrite be_val_digit by done. fold V n. unfold digit. do 3 f_equal. lia. }
  destruct (Z.ltb_spec n bl); [|destruct (Z.eqb_spec n bl)].
  - destruct (memcpy_spec z 1 v 0 (bl - 1)) as (nd & -> & Hl & Hnd); try (fold n; lia).
    exists nd. split; [done|]. split; [lia|]. intros i Hi. rewrite Hnd by lia.
    destruct (Z.leb_spec 1 i), (Z.ltb_spec i (1 + (bl - 1))); cbn [andb]; try lia.
    + rewrite Hdig by lia. f_equal. lia.
    + subst z. rewrite at_replicate by lia. unfold digit. replace (bl - 1 - i) with (bl - 1) by lia.
      rewrite Z.div_small; [done|]. replace (bl - 1) with n by lia. lia.
  - destruct (memcpy_spec z 0 v 0 bl) as (nd & -> & Hl & Hnd); try (fold n; lia).
    exists nd. split; [done|]. split; [lia|]. intros i Hi. rewrite Hnd by lia. zcmp.
    rewrite Hdig by lia. f_equal. lia.
  - destruct (memcpy_spec z 0 v (n - bl) bl) as (nd & -> & Hl & Hnd); try (fold n; lia).
    exists nd. split; [done|]. split; [lia|]. intros i Hi. rewrite Hnd by lia. zcmp.
    rewrite Hdig by lia. f_equal. lia.
Qed.

(** The shifted bytes, before the last step at byte 0. *)
Lemma span_loop_spec nd V bl re :
  1 ≤ bl → 0 ≤ re < 8 → zlen nd = bl → (∀ i, 0 ≤ i < bl → at_ nd i = digit V bl i) →
  ∃ s, (s ← zeros bl; s ← span_loop nd re bl s;
        s0 ← rd s 0; n0 ← rd nd 0; wr s 0 (u8 (s0 + Z.shiftl n0 re))) = Ok s ∧
    zlen s = bl ∧ ∀ i, 0 ≤ i < bl → at_ s i = digit (V * 2 ^ re) bl i.
Proof.
  intros Hbl Hre Hnd Hat. rewrite zeros_ok by lia. cbn [mbind res_mbind]. unfold span_loop.
  set (nx := λ i, (if i + 1 <? bl then digit V bl (i + 1) else 0) / 2 ^ (8 - re)).
  assert (Hnx : ∀ i, 0 ≤ nx i < 256).
  { intros i. subst nx. cbn beta. assert (0 < 2 ^ (8 - re)) by (apply Z.pow_pos_nonneg; lia).
    pose proof (digit_range V bl (i + 1)).
    case_match; [|by rewrite Z.div_0_l by lia]. split; [apply Z.div_pos; lia|].
    apply Z.div_lt_upper_bound; nia. }
  assert (Hfull : ∀ i, 0 ≤ i < bl → u8 (nx i + Z.shiftl (at_ nd i) re) = digit (V * 2 ^ re) bl i).
  { intros i Hi. rewrite Hat, Z.shiftl_mul_pow2 by lia. rewrite <- digit_shl by lia. fold (nx i).
    unfold u8. dlia. }
  edestruct (for_ge_inv (λ i s, zlen s = bl ∧ ∀ j, 0 ≤ j < bl → at_ s j =
      if i <? j then digit (V * 2 ^ re) bl j else if j =? i then nx j else 0) (bl - 1) 1)
    as (s & Hrun & Hl & Hs); [lia| | |rewrite Hrun].
  - rewrite zlen_replicate. split; [lia|]. intros j Hj. rewrite at_replicate by lia. zcmp.
    subst nx. cbn beta. rewrite (proj2 (Z.ltb_ge _ _)) by lia. by rewrite Z.div_0_l by (apply Z.pow_nonzero; lia).
  - intros i s Hi [Hl Hs]. rewrite (rd_at nd), (rd_at s) by lia. cbn [mbind res_mbind].
    rewrite (wr_ok s) by lia. cbn [mbind res_mbind]. rewrite rd_at by (rewrite zlen_insert; lia).
    cbn [mbind res_mbind]. rewrite wr_ok by (rewrite zlen_insert; lia). eexists; split; [done|].
    rewrite !zlen_insert. split; [done|]. intros j Hj. rewrite at_insert by (rewrite ?zlen_insert; lia).
    rewrite !at_insert by lia. rewrite !Hs by lia. rewrite (Hat i) by lia.
    rewrite Z.ltb_irrefl, Z.eqb_refl. destruct (Z.eqb_spec (i - 1) j) as [<-|].
    + rewrite (proj2 (Z.eqb_neq i (i - 1))), (proj2 (Z.ltb_ge i (i - 1))),
        (proj2 (Z.eqb_neq (i - 1) i)), Z.eqb_refl, Z.ltb_irrefl by lia.
      rewrite Z.add_0_l, Z.shiftr_div_pow2 by lia. subst nx. cbn beta.
      rewrite (proj2 (Z.ltb_lt _ _)) by lia. replace (i - 1 + 1) with i by lia.
      apply u8_small. specialize (Hnx (i - 1)). cbn beta in Hnx.
      rewrite (proj2 (Z.ltb_lt _ _)) in Hnx by lia. by replace (i - 1 + 1) with i in Hnx by lia.
    + destruct (Z.eqb_spec i j) as [<-|].
      * rewrite (proj2 (Z.ltb_lt _ _)) by lia. rewrite <- Hat by lia. apply Hfull. lia.
      * zcmp.
  - cbn [mbind res_mbind]. rewrite (rd_at s), (rd_at nd) by lia. cbn [mbind res_mbind].
    rewrite wr_ok by lia. eexists; split; [done|]. rewrite zlen_insert. split; [done|].
    intros i Hi. rewrite at_insert by lia. rewrite !Hs by lia. destruct (Z.eqb_spec 0 i) as [<-|].
    + cbn. apply Hfull. lia.
    + zcmp.
Qed.

Lemma keepz_step_left k : 0 ≤ k < 8 → u8 (keepz k 0 + Z.shiftl 1 (7 - k)) = keepz (k + 1) 0.
Proof.
  intros. apply Z.eqb_eq. revert k H.
  assert (H3 := small3 (λ k _ _, u8 (keepz k 0 + Z.shiftl 1 (7 - k)) =? keepz (k + 1) 0) 8 1 1 eq_refl).
  intros k Hk. apply (H3 k 0 0); lia.
Qed.

Lemma keepz_step_right l k :
  0 ≤ l → 0 ≤ k → l + k < 8 → u8 (keepz l k + Z.shiftl 1 k) = keepz l (k + 1).
Proof.
  intros Hl Hk Hs. assert (H3 := small3 (λ l k _, (8 <=? l + k) ||
    (u8 (keepz l k + Z.shiftl 1 k) =? keepz l (k + 1))) 8 8 1 eq_refl l k 0
    ltac:(lia) ltac:(lia) ltac:(lia)).
  cbv beta in H3. rewrite (proj2 (Z.leb_gt 8 (l + k))) in H3 by lia. cbn [orb] in H3.
  by apply Z.eqb_eq in H3.
Qed.

Lemma keepz_0 : keepz 0 0 = 0.
Proof. done. Qed.

(** The mask of the bits to keep. *)
Lemma bitmap_loops_spec le re bl :
  1 ≤ bl → 0 ≤ le < 8 → 0 ≤ re < 8 → le + re < 8 * bl →
  ∃ m, (m ← zeros bl; bitmap_loops le re bl m) = Ok m ∧ zlen m = bl ∧
    ∀ i, 0 ≤ i < bl → at_ m i = keepz (if i =? 0 then le else 0) (if i =? bl - 1 then re else 0).
Proof.
  intros Hbl Hle Hre Hsum. rewrite zeros_ok by lia. cbn [mbind res_mbind]. unfold bitmap_loops.
  edestruct (for_lt_inv (λ k m, zlen m = bl ∧ ∀ i, 0 ≤ i < bl → at_ m i =
      keepz (if i =? 0 then k else 0) 0) 0 le) as (m1 & Hrun1 & Hl1 & Hm1); [lia| | |rewrite Hrun1].
  - rewrite zlen_replicate. split; [lia|]. intros i Hi. rewrite at_replicate by lia.
    by destruct (i =? 0).
  - intros k m Hk [Hl Hm]. cbn beta. rewrite rd_at by lia. cbn [mbind res_mbind]. rewrite wr_ok by lia.
    eexists; split; [done|]. rewrite zlen_insert. split; [done|]. intros i Hi.
    rewrite at_insert by lia. rewrite !Hm by lia. destruct (Z.eqb_spec 0 i) as [<-|].
    + apply keepz_step_left. lia.
    + by rewrite (proj2 (Z.eqb_neq i 0)) by lia.
  - cbn [mbind res_mbind].
    edestruct (for_lt_inv (λ k m, zlen m = bl ∧ ∀ i, 0 ≤ i < bl → at_ m i =
      keepz (if i =? 0 then le else 0) (if i =? bl - 1 then k else 0)) 0 re)
      as (m2 & Hrun2 & Hl2 & Hm2); [lia| | |exists m2; rewrite Hrun2; done].
    + split; [done|]. intros i Hi. rewrite Hm1 by lia. by destruct (i =? bl - 1).
    + intros k m Hk [Hl Hm]. cbn beta. rewrite rd_at by lia. cbn [mbind res_mbind]. rewrite wr_ok by lia.
      eexists; split; [done|]. rewrite zlen_insert. split; [done|]. intros i Hi.
      rewrite at_insert by lia. rewrite !Hm by lia. destruct (Z.eqb_spec (bl - 1) i) as [<-|].
      * rewrite Z.eqb_refl. apply keepz_step_right; zcmp.
      * by rewrite (proj2 (Z.eqb_neq i (bl - 1))) by lia.
Qed.

Lemma span_store_spec pkt m s bb be :
  0 ≤ bb ≤ be → be < zlen pkt → zlen m = be - bb + 1 → zlen s = be - bb + 1 →
  ∃ q idx, span_store m s bb be (pkt, 0) = Ok (q, idx) ∧ zlen q = zlen pkt ∧
    ∀ j, 0 ≤ j < zlen pkt → at_ q j =
      if (bb <=? j) && (j <? be + 1) then u8 (Z.land (at_ pkt j) (at_ m (j - bb)) + at_ s (j - bb))
      else at_ pkt j.
Proof.
  intros Hbb Hbe Hm Hs. unfold span_store.
  edestruct (for_lt_inv (λ i '(q, idx), idx = i - bb ∧ zlen q = zlen pkt ∧
    ∀ j, 0 ≤ j < zlen pkt → at_ q j =
      if (bb <=? j) && (j <? i) then u8 (Z.land (at_ pkt j) (at_ m (j - bb)) + at_ s (j - bb))
      else at_ pkt j) bb (be + 1)) as ([q idx] & Hrun & _ & Hl & Hq); [lia| | |exists q, idx; rewrite Hrun; done].
  - split; [lia|]. split; [done|]. intros j Hj. zcmp.
  - intros i [q idx] Hi (-> & Hl & Hq). rewrite (rd_at q), (rd_at m), (rd_at s) by lia.
    cbn [mbind res_mbind]. rewrite wr_ok by lia. eexists; split; [done|]. split; [lia|].
    rewrite zlen_insert. split; [done|]. intros j Hj. rewrite at_insert by lia.
    destruct (Z.eqb_spec i j) as [<-|].
    + rewrite Hq by lia. rewrite (proj2 (Z.ltb_irrefl i)) || idtac. zcmp.
    + rewrite Hq by lia. zcmp.
Qed.

(** [modify_field_with_data] stores the value in the field and nowhere else, for
    every field and every data whose value fits, with at least the field's bytes
    but one. *)
Lemma modify_field_set para data phv hi :
  header_of phv para.(hdr_id) = Ok hi → bytes phv.(packet) → bytes data.(val) →
  0 ≤ hi.(hdr_offset) → 0 ≤ para.(internal_offset) → 1 ≤ para.(fd_len) →
  let begin := hi.(hdr_offset) + para.(internal_offset) in
  begin + para.(fd_len) ≤ 8 * zlen phv.(packet) →
  zlen data.(val) = ceil8 data.(data_len) →
  (begin + para.(fd_len) - 1) / 8 - begin / 8 ≤ zlen data.(val) →
  be_val data.(val) < 2 ^ para.(fd_len) →
  ∃ q, modify_field_with_data para data phv = Ok (set_packet q phv) ∧
    field_set phv.(packet) begin para.(fd_len) (be_val data.(val)) q.
Proof.
  intros Hhi Hp Hd Hho Hio Hfl begin Hend Hlen Hcov Hfit.
  unfold modify_field_with_data. rewrite Hhi. cbn [mbind res_mbind]. fold begin.
  set (p := packet phv) in *. set (L := fd_len para) in *. rewrite Z.quot_div_nonneg by lia.
  set (bb := begin / 8) in *. set (be := (begin + L - 1) / 8) in *. rewrite <- Hlen.
  set (bl := be - bb + 1). set (re := (be + 1) * 8 - (begin + L - 1) - 1). set (le := begin mod 8).
  assert (Hgeo : 1 ≤ bl ∧ 0 ≤ le < 8 ∧ 0 ≤ re < 8 ∧ le + L + re = 8 * bl ∧ 0 ≤ bb ∧ be < zlen p ∧
    begin = 8 * bb + le) by (subst bl re le be bb; dlia).
  pose proof (be_val_range _ Hd) as HV. set (V := be_val (val data)) in *.
  assert (HL : 2 ^ L ≤ 2 ^ (8 * bl)) by (apply Z.pow_le_mono_r; lia).
  destruct (new_data_spec (val data) bl) as (nd & Hnd & Hndl & Hndat); [done|lia|lia|fold V; lia|].
  destruct (span_loop_spec nd V bl re) as (sp & Hsp & Hspl & Hspat); [lia..|done|].
  destruct (bitmap_loops_spec le re bl) as (m & Hm & Hml & Hmat); [lia..|].
  apply bind_ok_inv in Hnd as (z & Hz & Hnd). rewrite Hz in Hsp, Hm |- *.
  cbn [mbind res_mbind] in Hsp, Hm |- *.
  rewrite Hnd. cbn [mbind res_mbind].
  apply bind_ok_inv in Hsp as (s1 & Hs1 & Hsp). rewrite Hs1. cbn [mbind res_mbind].
  apply bind_ok_inv in Hsp as (s0 & Hs0 & Hsp). rewrite Hs0. cbn [mbind res_mbind].
  apply bind_ok_inv in Hsp as (n0 & Hn0 & Hsp). rewrite Hn0. cbn [mbind res_mbind].
  rewrite Hsp. cbn [mbind res_mbind]. rewrite Hm. cbn [mbind res_mbind].
  destruct (span_store_spec p m sp bb be) as (q & idx & -> & Hql & Hq); [lia..|].
  cbn [mbind res_mbind]. exists q. split; [done|].
  replace begin with (8 * bb + le) by lia.
  apply (store_window p bb bl le re L V sp q); try done; try lia.
  - apply bytes_of_at. intros i Hi. rewrite Hspat by lia. apply digit_range.
  - intros i o Hi Ho. rewrite Hspat, digit_testbit, Z.mul_pow2_bits by lia. f_equal. lia.
  - intros j Hj. rewrite Hq by done. replace (be + 1) with (bb + bl) by lia.
    destruct (Z.leb_spec bb j), (Z.ltb_spec j (bb + bl)); cbn [andb]; try done.
    rewrite Hmat by lia. do 3 f_equal. f_equal.
    + destruct (Z.eqb_spec (j - bb) 0), (Z.eqb_spec j bb); lia.
    + destruct (Z.eqb_spec (j - bb) (bl - 1)), (Z.eqb_spec j (bb + bl - 1)); lia.
Qed.

(** ** Expressions

    What an expression tree means: a length in bits and a value.  Additions and
    subtractions are 32 bits wide, the other operators as wide as their first
    operand; of an operand of more than four bytes they take the first four. A field
    has as many bits in front of it as are missing to whole bytes. *)
Fixpoint exp_eval (phv : PHV) (ps : list ActionParam) (e : ExpTreeNode) : Z * Z :=
  match e with
  | NullNode => (0, 0)
  | Node opt lhs rhs =>
      let '(l1, v1) := exp_eval phv ps lhs in
      let '(l2, v2) := exp_eval phv ps rhs in
      match opt with
      | CONSTANT d => (d.(data_len), be_val d.(val))
      | PFIELD f => (f.(fd_len), field_val phv.(packet)
          ((at_ phv.(parsed_headers) f.(hdr_id)).(hdr_offset) + f.(internal_offset) + f.(fd_len) - 8 * ceil8 f.(fd_len))
          (8 * ceil8 f.(fd_len)))
      | PARAM i => match ps !! Z.to_nat i with
                   | Some ap => (ap.(action_para_len), be_val ap.(ap_val))
                   | None => (0, 0)
                   end
      | HEADER _ => (0, 0)
      | OPERATOR op =>
          match op with
          | ADD => (32, (first32 l1 v1 + first32 l2 v2) mod 2 ^ 32)
          | SUB => (32, (first32 l1 v1 - first32 l2 v2) mod 2 ^ 32)
          | SHIFT_LEFT => (l1, (v1 * 2 ^ first32 l2 v2) mod 2 ^ l1)
          | SHIFT_RIGHT => (l1, v1 / 2 ^ first32 l2 v2)
          | BIT_AND => (l1, Z.land v1 (first32 l2 v2))
          | BIT_OR => (l1, Z.lor v1 (first32 l2 v2) mod 2 ^ (8 * ceil8 l1))
          | BIT_XOR => (l1, Z.lxor v1 (first32 l2 v2) mod 2 ^ (8 * ceil8 l1))
          | BIT_NEG => (l1, Z.lnot v1 mod 2 ^ (8 * ceil8 l1))
          | _ => (0, 0)
          end
      end
  end.

Definition data_ok (d : Data) : Prop :=
  bytes d.(val) ∧ zlen d.(val) = ceil8 d.(data_len) ∧ 1 ≤ d.(data_len).

(** The trees whose value C++ defines: operands that are there; fields that lie on as
    many bytes as the executor fills, which those of whole bytes do; where an operator
    has the width of its first operand, one of at most 32 bits; and shifts by less
    than 32. *)
Fixpoint exp_ok (phv : PHV) (ps : list ActionParam) (e : ExpTreeNode) : Prop :=
  match e with
  | NullNode => False
  | Node opt lhs rhs =>
      match opt with
      | CONSTANT d => data_ok d
      | PFIELD f =>
          let start := (at_ phv.(parsed_headers) f.(hdr_id)).(hdr_offset) + f.(internal_offset) in
          0 ≤ f.(hdr_id) < 32 ∧ 0 ≤ f.(internal_offset) ∧ 1 ≤ f.(fd_len) ∧
          (start + f.(fd_len)) / 8 - start / 8 = ceil8 f.(fd_len) ∧ start + f.(fd_len) < 8 * zlen phv.(packet)
      | PARAM i => ∃ ap, rd ps i = Ok ap ∧ data_ok (mkData ap.(action_para_len) ap.(ap_val))
      | HEADER _ => False
      | OPERATOR op =>
          exp_ok phv ps lhs ∧
          let '(l1, _) := exp_eval phv ps lhs in
          let '(l2, v2) := exp_eval phv ps rhs in
          match op with
          | ADD | SUB => exp_ok phv ps rhs
          | BIT_AND | BIT_OR | BIT_XOR => l1 ≤ 32 ∧ exp_ok phv ps rhs
          | SHIFT_LEFT | SHIFT_RIGHT => l1 ≤ 32 ∧ exp_ok phv ps rhs ∧ first32 l2 v2 < 32
          | BIT_NEG => l1 ≤ 32
          | _ => False
          end
      end
  end.

Lemma data_ok_range d : data_ok d → 0 ≤ be_val d.(val) < 2 ^ (8 * ceil8 d.(data_len)).
Proof. intros (Hb & <- & _). by apply be_val_range. Qed.

Lemma data_ok_range32 d : data_ok d → d.(data_len) ≤ 32 → 0 ≤ be_val d.(val) < 2 ^ 32.
Proof.
  intros Hd H. pose proof (data_ok_range d Hd). destruct Hd as (_ & _ & H1).
  pose proof (ceil8_bounds _ H1).
  assert (2 ^ (8 * ceil8 (data_len d)) ≤ 2 ^ 32) by (apply Z.pow_le_mono_r; dlia). lia.
Qed.

(** What the operators take of an operand. *)
Lemma get_value_first `{Target} d :
  data_ok d → get_value d = Ok (first32 d.(data_len) (be_val d.(val))) ∧ 0 ≤ first32 d.(data_len) (be_val d.(val)) < 2 ^ 32.
Proof. intros (Hb & Hl & H1). by apply get_value_spec. Qed.

Lemma get_value_ok `{Target} d :
  data_ok d → d.(data_len) ≤ 32 → get_value d = Ok (be_val d.(val)).
Proof.
  intros Hd H32. rewrite (proj1 (get_value_first d Hd)). unfold first32.
  destruct Hd as (_ & _ & H1). rewrite (proj2 (Z.leb_le _ 4)); [done|]. unfold ceil8. dlia.
Qed.

Lemma get_data_ok `{Target} len x v :
  1 ≤ len ≤ 32 → 0 ≤ x → v = x mod 2 ^ (8 * ceil8 len) →
  ∃ d, get_data len x = Ok d ∧ data_ok d ∧ (d.(data_len), be_val d.(val)) = (len, v).
Proof.
  intros Hlen Hx ->. destruct (get_data_spec len x) as (w & -> & Hb & Hl & Hv); [lia|done|].
  exists (mkData len w). unfold data_ok. cbn [val data_len]. rewrite Hv. split; [done|]. split; [|done].
  split; [done|]. split; [done|lia].
Qed.

Lemma low_mask_loop len : 0 ≤ len ≤ 32 →
  for_lt 0 (32 - len) (λ i bitmap, mret (u32 (bitmap - Z.shiftl 1 (31 - i)))) 4294967295 =
  Ok (2 ^ len - 1).
Proof.
  intros. assert (H3 := small3 (λ n _ _,
    match for_lt 0 (32 - n) (λ i bitmap, mret (u32 (bitmap - Z.shiftl 1 (31 - i)))) 4294967295 with
    | Ok x => x =? 2 ^ n - 1 | Fault _ => false end) 33 1 1 eq_refl len 0 0
    ltac:(lia) ltac:(lia) ltac:(lia)).
  cbv beta in H3. destruct (for_lt _ _ _ _); [|done]. by apply Z.eqb_eq in H3 as ->.
Qed.

Lemma mod_mod_le x a b : 0 ≤ a ≤ b → (x mod 2 ^ a) mod 2 ^ b = x mod 2 ^ a.
Proof.
  intros. apply Z.mod_small. pose proof (Z.mod_pos_bound x (2 ^ a) ltac:(apply Z.pow_pos_nonneg; lia)).
  assert (2 ^ a ≤ 2 ^ b) by (apply Z.pow_le_mono_r; lia). lia.
Qed.

(** The six operations of [bit_compute]. *)
Section bit_compute.
Context `{Target} (d1 d2 : Data) (Hd1 : data_ok d1) (Hl1 : d1.(data_len) ≤ 32)
  (Hd2 : data_ok d2).

Let v2 : Z := first32 d2.(data_len) (be_val d2.(val)).
Let Hv2 : get_value d2 = Ok v2 ∧ 0 ≤ v2 < 2 ^ 32 := get_value_first d2 Hd2.

Definition computes (op v : Z) : Prop :=
  ∃ d, bit_compute op d1 d2 = Ok d ∧ data_ok d ∧ (d.(data_len), be_val d.(val)) = (d1.(data_len), v).

Lemma bit_compute_shl : v2 < 32 →
  computes 1 ((be_val d1.(val) * 2 ^ v2) mod 2 ^ d1.(data_len)).
Proof.
  intros H32. unfold computes, bit_compute. cbn [Z.eqb Pos.eqb].
  destruct Hv2 as [Hg2 Hr2]. rewrite Hg2, get_value_ok by done. cbn [mbind res_mbind].
  pose proof (data_ok_range _ Hd1).  destruct Hd1 as (_ & _ & Hpos).
  rewrite low_mask_loop by lia. cbn [mbind res_mbind].
  rewrite i32_small, shl32_in by lia.
  replace (2 ^ data_len d1 - 1) with (Z.ones (data_len d1)) by (rewrite Z.ones_equiv; lia).
  rewrite Z.land_ones, u32_mod_pow by lia. pose proof (ceil8_bounds _ Hpos).
  apply get_data_ok; [lia|apply Z.mod_pos_bound, Z.pow_pos_nonneg; lia|].
  by rewrite mod_mod_le by lia.
Qed.

Lemma bit_compute_shr : v2 < 32 →
  computes 2 (be_val d1.(val) / 2 ^ v2).
Proof.
  intros H32. unfold computes, bit_compute. cbn [Z.eqb Pos.eqb].
  destruct Hv2 as [Hg2 Hr2]. rewrite Hg2, get_value_ok by done. cbn [mbind res_mbind].
  pose proof (data_ok_range _ Hd1).  destruct Hd1 as (_ & _ & Hpos).
  rewrite i32_small, shr32_in by lia.
  assert (0 < 2 ^ v2) by (apply Z.pow_pos_nonneg; lia).
  apply get_data_ok; [lia|by apply Z.div_pos; lia|]. symmetry. apply Z.mod_small.
  split; [by apply Z.div_pos; lia|]. apply Z.div_lt_upper_bound; nia.
Qed.

Lemma bit_compute_and : computes 3 (Z.land (be_val d1.(val)) v2).
Proof.
  unfold computes, bit_compute. cbn [Z.eqb Pos.eqb].
  destruct Hv2 as [Hg2 Hr2]. rewrite Hg2, get_value_ok by done. cbn [mbind res_mbind].
  pose proof (data_ok_range _ Hd1) as Hr1. 
  destruct Hd1 as (_ & _ & Hpos).
  apply get_data_ok; [lia|by apply Z.land_nonneg; lia|]. symmetry. pose proof (ceil8_bounds _ Hpos).
  rewrite <- Z.land_ones by lia. apply Z.bits_inj'. intros i Hi. rewrite !Z.land_spec.
  destruct (Z.lt_ge_cases i (8 * ceil8 (data_len d1))).
  - rewrite Z.ones_spec_low by lia. by rewrite andb_true_r.
  - rewrite (testbit_small _ _ _ Hr1) by lia. done.
Qed.

Lemma bit_compute_or :
  computes 4 (Z.lor (be_val d1.(val)) v2 mod 2 ^ (8 * ceil8 d1.(data_len))).
Proof.
  unfold computes, bit_compute. cbn [Z.eqb Pos.eqb].
  destruct Hv2 as [Hg2 Hr2]. rewrite Hg2, get_value_ok by done. cbn [mbind res_mbind].
  pose proof (data_ok_range _ Hd1).  destruct Hd1 as (_ & _ & Hpos).
  apply get_data_ok; [lia|by apply Z.lor_nonneg; lia|done].
Qed.

Lemma bit_compute_xor :
  computes 5 (Z.lxor (be_val d1.(val)) v2 mod 2 ^ (8 * ceil8 d1.(data_len))).
Proof.
  unfold computes, bit_compute. cbn [Z.eqb Pos.eqb].
  destruct Hv2 as [Hg2 Hr2]. rewrite Hg2, get_value_ok by done. cbn [mbind res_mbind].
  pose proof (data_ok_range _ Hd1).  destruct Hd1 as (_ & _ & Hpos).
  apply get_data_ok; [lia|by apply Z.lxor_nonneg; lia|done].
Qed.
End bit_compute.

Lemma bit_compute_neg `{Target} d1 d2 :
  data_ok d1 → d1.(data_len) ≤ 32 →
  computes d1 d2 6 (Z.lnot (be_val d1.(val)) mod 2 ^ (8 * ceil8 d1.(data_len))).
Proof.
  intros Hd1 Hl1. unfold computes, bit_compute. cbn [Z.eqb Pos.eqb].
  rewrite get_value_ok by done. cbn [mbind res_mbind]. destruct Hd1 as (_ & _ & H1).
  set (n := Z.lnot _). pose proof (ceil8_bounds _ H1).
  assert (Hpow : ∀ k, 8 * ceil8 (data_len d1) ≤ k →
    (n mod 2 ^ k) mod 2 ^ (8 * ceil8 (data_len d1)) = n mod 2 ^ (8 * ceil8 (data_len d1))).
  { intros k Hk. pose proof (mod_div_mod n k 0 (8 * ceil8 (data_len d1)) ltac:(lia) ltac:(lia) ltac:(lia)) as Hm.
    by rewrite !Z.pow_0_r, !Z.div_1_r in Hm. }
  destruct (Z.leb_spec (data_len d1) 8);
    [|destruct (Z.leb_spec (data_len d1) 16);
      [|rewrite (proj2 (Z.leb_le (data_len d1) 32)) by lia]].
  - apply get_data_ok; [lia|apply u8_range|]. symmetry. apply (Hpow 8). unfold ceil8. dlia.
  - apply get_data_ok; [lia|apply u16_range|]. symmetry. apply (Hpow 16). unfold ceil8. dlia.
  - apply get_data_ok; [lia|apply u32_range|]. symmetry. apply (Hpow 32). unfold ceil8. dlia.
Qed.

Lemma operand_ok `{Target} phv ps opt :
  phv_wf phv → (∀ op, opt ≠ OPERATOR op) → exp_ok phv ps (Node opt NullNode NullNode) →
  ∃ d, get_op_val_any opt phv ps = Ok d ∧ data_ok d ∧
    (d.(data_len), be_val d.(val)) = exp_eval phv ps (Node opt NullNode NullNode).
Proof.
  intros Hwf Hop Hok. destruct opt as [d|h|f|i|op]; cbn in Hok |- *; [|done| | |by destruct (Hop op)].
  - by exists d.
  - destruct Hok as (Hid & Hio & Hfl & Hspan & Hend). pose proof (wf_headers_len _ Hwf).
    assert (Hhi : header_of phv (hdr_id f) = Ok (at_ (parsed_headers phv) (hdr_id f))) by (apply rd_at; lia).
    pose proof (header_wf_of _ _ _ Hwf Hhi) as [? _].
    destruct (field_operand_val phv f _ ps Hhi (wf_packet _ Hwf)) as (v & Hrun & Hb & Hl & Hv); [lia..|].
    cbn in Hrun. rewrite Hrun. exists (mkData (fd_len f) v). cbn. rewrite Hv. done.
  - destruct Hok as (ap & Hap & Hd). rewrite Hap. cbn [mbind res_mbind].
    apply rd_ok_inv in Hap as [_ ->]. by eexists.
Qed.

(** The executor evaluates an expression to the value the expression means. *)
Lemma exp_execute_eval `{Target} phv ps e :
  phv_wf phv → exp_ok phv ps e →
  ∃ d, exp_execute phv e ps = Ok d ∧ data_ok d ∧ (d.(data_len), be_val d.(val)) = exp_eval phv ps e.
Proof.
  intros Hwf. induction e as [|opt lhs IHl rhs IHr]; intros Hok; [done|].
  assert (Hleaf : (∀ op, opt ≠ OPERATOR op) →
    exp_eval phv ps (Node opt lhs rhs) = exp_eval phv ps (Node opt NullNode NullNode) ∧
    exp_execute phv (Node opt lhs rhs) ps = get_op_val_any opt phv ps).
  { intros Hop. cbn. destruct (exp_eval phv ps lhs), (exp_eval phv ps rhs).
    destruct opt; try done. by destruct (Hop op). }
  destruct opt as [d|h|f|i|op];
    [destruct Hleaf as [-> ->]; [by intros|]; apply operand_ok; [done|by intros|exact Hok] ..|].
  clear Hleaf. cbn [exp_ok] in Hok. destruct Hok as (Hokl & Hrest).
  destruct (IHl Hokl) as (d1 & Hx1 & Hd1 & He1). cbn [exp_execute exp_eval]. rewrite <- He1 in *.
  destruct (exp_eval phv ps rhs) as [l2 v2] eqn:He2. cbn [fst snd] in *. rewrite Hx1. cbn [mbind res_mbind].
  pose proof (get_value_first d1 Hd1) as [Hg1 _].
  assert (Hbin : exp_ok phv ps rhs → ∃ d2, exp_execute phv rhs ps = Ok d2 ∧ data_ok d2 ∧
    first32 (data_len d2) (be_val (val d2)) = first32 l2 v2 ∧ get_value d2 = Ok (first32 l2 v2)).
  { intros Hr. destruct (IHr Hr) as (d2 & Hx2 & Hd2 & [= <- <-]). exists d2.
    split; [done|]. split; [done|]. split; [done|]. by apply get_value_first. }
  destruct op; try done.
  1-2: destruct (Hbin Hrest) as (d2 & -> & Hd2 & Hv2 & Hg2); cbn [mbind res_mbind];
    rewrite Hg1; cbn [mbind res_mbind]; rewrite Hg2; cbn [mbind res_mbind];
    apply get_data_ok; [lia|apply u32_range|]; unfold u32; by rewrite (mod_mod_le _ 32 (8 * ceil8 32)) by done.
  1-2: destruct Hrest as (H1 & Hr & H2); destruct (Hbin Hr) as (d2 & -> & Hd2 & Hv2 & Hg2); cbn [mbind res_mbind].
  - rewrite <- Hv2. apply bit_compute_shl; try done. by rewrite Hv2.
  - rewrite <- Hv2. apply bit_compute_shr; try done. by rewrite Hv2.
  - destruct Hrest as (H1 & Hr). destruct (Hbin Hr) as (d2 & -> & Hd2 & Hv2 & Hg2). cbn [mbind res_mbind].
    rewrite <- Hv2. by apply bit_compute_and.
  - destruct Hrest as (H1 & Hr). destruct (Hbin Hr) as (d2 & -> & Hd2 & Hv2 & Hg2). cbn [mbind res_mbind].
    rewrite <- Hv2. by apply bit_compute_or.
  - destruct Hrest as (H1 & Hr). destruct (Hbin Hr) as (d2 & -> & Hd2 & Hv2 & Hg2). cbn [mbind res_mbind].
    rewrite <- Hv2. by apply bit_compute_xor.
  - by apply bit_compute_neg.
Qed.

(** ** Action parameters *)

(** The bytes a parameter spans, the bits outside it cleared. *)
Lemma cut_bytes_spec `{Target} value off len :
  bytes value → 0 ≤ off → 1 ≤ len → off + len ≤ 8 * zlen value →
  let re := if (off + len) mod 8 =? 0 then 0 else 8 - (off + len) mod 8 in
  let nl := (off + len) / 8 - (if (off + len) mod 8 =? 0 then 1 else 0) - off / 8 + 1 in
  ∃ vn, (vn ← fresh nl;
         vn ← memcpy vn 0 value (off / 8) nl;
         b0 ← rd vn 0;
         vn ← wr vn 0 (Z.shiftr (u8 (Z.shiftl b0 (off mod 8))) (off mod 8));
         bl ← rd vn (nl - 1);
         wr vn (nl - 1)
           (if (off + len) mod 8 =? 0 then bl
            else u8 (Z.shiftl (Z.shiftr bl (8 - (off + len) mod 8)) (8 - (off + len) mod 8)))) = Ok vn ∧
    zlen vn = nl ∧ ∀ i, 0 ≤ i < nl → at_ vn i = digit (field_val value off len * 2 ^ re) nl i.
Proof.
  intros Hv Hoff Hlen Hend re nl. set (bs := off / 8).
  assert (Hgeo : 0 ≤ bs ∧ 1 ≤ nl ∧ 0 ≤ re < 8 ∧ off + len + re = 8 * (bs + nl) ∧ 8 * bs ≤ off < 8 * bs + 8)
    by (subst nl re bs; zcmp; dlia).
  destruct (fresh_ok nl) as (v0 & -> & Hl0 & _); [lia|]. cbn [mbind res_mbind].
  destruct (memcpy_spec v0 0 value bs nl) as (v1 & -> & Hl1 & Hv1); [lia..|]. cbn [mbind res_mbind].
  rewrite rd_at by lia. cbn [mbind res_mbind]. rewrite wr_ok by lia. cbn [mbind res_mbind].
  rewrite rd_at by (rewrite zlen_insert; lia). cbn [mbind res_mbind].
  rewrite wr_ok by (rewrite zlen_insert; lia). eexists; split; [done|]. rewrite !zlen_insert.
  split; [lia|]. set (b1 := Z.shiftr _ _). set (v2 := <[Z.to_nat 0 := b1]> v1).
  assert (Hv2 : ∀ i, 0 ≤ i < nl → 0 ≤ at_ v2 i < 256 ∧ ∀ o, 0 ≤ o < 8 →
    Z.testbit (at_ v2 i) (7 - o) = (off <=? 8 * (bs + i) + o) && Z.testbit (at_ value (bs + i)) (7 - o)).
  { intros i Hi. subst v2. rewrite at_insert by lia. pose proof (bytes_at value (bs + i) Hv) as Hb.
    destruct (Z.eqb_spec 0 i) as [<-|].
    - subst b1. rewrite Hv1 by lia. zcmp. replace (bs + (0 - 0)) with (bs + 0) by lia. split.
      + assert (0 ≤ off mod 8 < 8) by dlia. rewrite Z.shiftr_div_pow2 by lia.
        pose proof (u8_range (Z.shiftl (at_ value (bs + 0)) (off mod 8))) as Hu.
        assert (0 < 2 ^ (off mod 8)) by (apply Z.pow_pos_nonneg; lia).
        split; [apply Z.div_pos; lia|]. apply Z.div_lt_upper_bound; nia.
      + intros o Ho. rewrite mask_left_bits by (done || dlia). f_equal.
        destruct (Z.leb_spec (off mod 8) o), (Z.leb_spec off (8 * (bs + 0) + o)); subst bs; try done; dlia.
    - rewrite Hv1 by lia. zcmp. replace (bs + (i - 0)) with (bs + i) by lia. split; [done|].
      intros o Ho. by rewrite (proj2 (Z.leb_le off _)) by lia. }
  assert (Hl2 : zlen v2 = nl) by (subst v2; rewrite zlen_insert; lia). clearbody v2.
  set (last := if _ : bool then _ else _).
  assert (Hlast : 0 ≤ last < 256 ∧ ∀ o, 0 ≤ o < 8 →
    Z.testbit last (7 - o) = (o <? 8 - re) && Z.testbit (at_ v2 (nl - 1)) (7 - o)).
  { destruct (Hv2 (nl - 1)) as [Hr _]; [lia|]. subst last re.
    destruct (Z.eqb_spec ((off + len) mod 8) 0); (split; [done || apply u8_range|intros o Ho]).
    - by rewrite (proj2 (Z.ltb_lt o _)) by lia.
    - apply mask_right_bits; try done; dlia. }
  clearbody last. intros i Hi. apply byte_ext; [|apply digit_range|].
  { rewrite at_insert by lia. case_match; [apply Hlast|by apply Hv2]. }
  intros o Ho. rewrite digit_testbit, Z.mul_pow2_bits, field_val_testbit by lia.
  replace (off + len - 1 - (8 * nl - 1 - (8 * i + o) - re)) with (8 * (bs + i) + o) by lia.
  rewrite bit_at_byte by lia. rewrite at_insert by lia.
  destruct (Z.eqb_spec (nl - 1) i) as [<-|].
  - rewrite (proj2 Hlast) by lia. rewrite (proj2 (Hv2 (nl - 1) ltac:(lia))) by lia.
    rewrite andb_assoc. f_equal. zcmp.
  - rewrite (proj2 (Hv2 i ltac:(lia))) by lia. f_equal. zcmp.
Qed.

(** The bytes moved to the end of the parameter. *)
Lemma para_shift_loop_spec vn nl bl F re :
  zlen vn = nl → 0 ≤ bl ≤ nl → 0 ≤ re < 8 → 0 ≤ F → F * 2 ^ re < 2 ^ (8 * nl) →
  (∀ i, 0 ≤ i < nl → at_ vn i = digit (F * 2 ^ re) nl i) →
  ∃ v idx, para_shift_loop vn ((8 - re) mod 8) bl (replicate (Z.to_nat bl) 0, nl - 1) = Ok (v, idx) ∧
    zlen v = bl ∧ ∀ j, 0 ≤ j < bl → at_ v j = digit F bl j.
Proof.
  intros Hnl Hbl Hre HF0 HF Hvn. unfold para_shift_loop.
  assert (HX : 0 ≤ F * 2 ^ re < 2 ^ (8 * nl)).
  { split; [|done]. apply Z.mul_nonneg_nonneg; [done|apply Z.pow_nonneg; lia]. }
  assert (Hdiv : F * 2 ^ re / 2 ^ re = F) by (apply Z.div_mul, Z.pow_nonzero; lia).
  edestruct (for_ge_inv (λ j '(v, idx), idx = nl - bl + j ∧ zlen v = bl ∧ ∀ k, 0 ≤ k < bl →
      at_ v k = if j <? k then digit F bl k else 0) (bl - 1) 0) as ([v idx] & Hrun & _ & Hl & Hv);
    [lia| | |exists v, idx; rewrite Hrun; split; [done|]; split; [done|]].
  - split; [lia|]. rewrite zlen_replicate. split; [lia|]. intros k Hk. rewrite at_replicate by lia. zcmp.
  - intros j [v idx] Hj (-> & Hl & Hv). rewrite (rd_at v j), (rd_at vn (nl - bl + j)) by lia.
    cbn [mbind res_mbind]. rewrite Hv by lia. rewrite Z.ltb_irrefl, !Z.add_0_l. rewrite Hvn by lia.
    assert (Hd : digit F bl j = digit F nl (nl - bl + j)) by (unfold digit; do 3 f_equal; lia).
    assert (Hout : ∀ v', (∀ k, 0 ≤ k < bl → at_ v' k = at_ (<[Z.to_nat j := digit F bl j]> v) k) →
      ∀ k, 0 ≤ k < bl → at_ v' k = if j - 1 <? k then digit F bl k else 0).
    { intros v' Hv' k Hk. rewrite Hv', at_insert by lia. destruct (Z.eqb_spec j k) as [<-|].
      - by rewrite (proj2 (Z.ltb_lt _ _)) by lia.
      - rewrite Hv by lia. zcmp. }
    destruct (Z.eqb_spec ((8 - re) mod 8) 0).
    + assert (re = 0) as -> by dlia. rewrite wr_ok by lia. cbn [mbind res_mbind]. eexists; split; [done|].
      split; [lia|]. rewrite zlen_insert. split; [done|]. apply Hout. intros k Hk.
      rewrite !at_insert by lia. case_match; [|done]. rewrite Z.mul_1_r, Hd.
      apply u8_small, digit_range.
    + assert (0 < re) by dlia. replace ((8 - re) mod 8) with (8 - re) in * by dlia.
      replace (8 - (8 - re)) with re by lia. rewrite Z.shiftr_div_pow2 by lia.
      pose proof (digit_shr (F * 2 ^ re) nl (nl - bl + j) re ltac:(lia)
        HX ltac:(lia)) as Hsh.
      rewrite Hdiv, <- Hd in Hsh. set (b := digit (F * 2 ^ re) nl (nl - bl + j)) in *.
      rewrite wr_ok by lia. cbn [mbind res_mbind].
      destruct (Z.ltb_spec 0 (nl - bl + j)).
      * rewrite (rd_at vn) by lia. cbn [mbind res_mbind]. rewrite rd_at by (rewrite zlen_insert; lia).
        cbn [mbind res_mbind]. rewrite wr_ok by (rewrite zlen_insert; lia). cbn [mbind res_mbind].
        eexists; split; [done|]. split; [lia|]. rewrite !zlen_insert. split; [done|]. apply Hout.
        intros k Hk. rewrite list_insert_insert_eq. rewrite (at_insert_eq v j) by lia.
        rewrite !at_insert by lia. case_match; [|done]. rewrite Hvn, Z.shiftl_mul_pow2 by lia. rewrite <- Hsh.
        unfold u8. dlia.
      * cbn [mbind res_mbind]. eexists; split; [done|]. split; [lia|]. rewrite !zlen_insert.
        split; [done|]. apply Hout. intros k Hk. rewrite !at_insert by lia. case_match; [|done].
        rewrite <- Hsh. unfold u8. by rewrite Z.mul_0_l, Zmod_0_l, Z.add_0_l.
  - intros j Hj. rewrite Hv by lia. by rewrite (proj2 (Z.ltb_lt _ _)) by lia.
Qed.

Lemma cut_para_spec `{Target} value off len :
  bytes value → 0 ≤ off → 1 ≤ len → off + len ≤ 8 * zlen value →
  ∃ v, cut_para value off len = Ok (mkActionParam len v) ∧ bytes v ∧ zlen v = ceil8 len ∧
    be_val v = field_val value off len.
Proof.
  intros Hv Hoff Hlen Hend. unfold cut_para.
  destruct (cut_bytes_spec value off len) as (vn & Hvn & Hnl & Hat); [done..|]. cbv zeta in *.
  set (nl := (off + len) / 8 - _ - off / 8 + 1) in *.
  set (re := if (off + len) mod 8 =? 0 then 0 else 8 - (off + len) mod 8) in *.
  apply bind_ok_inv in Hvn as (v0 & -> & Hvn). cbn [mbind res_mbind].
  apply bind_ok_inv in Hvn as (v1 & -> & Hvn). cbn [mbind res_mbind].
  apply bind_ok_inv in Hvn as (b0 & -> & Hvn). cbn [mbind res_mbind].
  apply bind_ok_inv in Hvn as (v2 & -> & Hvn). cbn [mbind res_mbind].
  apply bind_ok_inv in Hvn as (bl & -> & Hvn). cbn [mbind res_mbind].
  rewrite Hvn. cbn [mbind res_mbind]. pose proof (ceil8_bounds len Hlen).
  rewrite zeros_ok by lia. cbn [mbind res_mbind].
  pose proof (field_val_range value off len ltac:(lia)). set (F := field_val value off len) in *.
  assert (Hgeo : 0 ≤ re < 8 ∧ ceil8 len ≤ nl ∧ len + re ≤ 8 * nl ∧ (off + len) mod 8 = (8 - re) mod 8)
    by (subst nl re; unfold ceil8; zcmp; dlia).
  assert (Hp : 2 ^ len * 2 ^ re ≤ 2 ^ (8 * nl)) by (rewrite <- Z.pow_add_r by lia; apply Z.pow_le_mono_r; lia).
  assert (0 < 2 ^ re) by (apply Z.pow_pos_nonneg; lia).
  destruct (para_shift_loop_spec vn nl (ceil8 len) F re) as (v & idx & Hrun & Hl & Hd); [done|lia|lia|lia|nia|done|].
  replace ((off + len) mod 8) with ((8 - re) mod 8) by lia. rewrite Hrun. cbn [mbind res_mbind].
  exists v. split; [done|]. split; [|split; [done|]].
  - apply bytes_of_at. intros i Hi. rewrite Hd by lia. apply digit_range.
  - apply (digits_val v F (ceil8 len)); [done| |done].
    assert (2 ^ len ≤ 2 ^ (8 * ceil8 len)) by (apply Z.pow_le_mono_r; lia). lia.
Qed.

Definition sumz (l : list Z) : Z := foldr Z.add 0 l.

Lemma sumz_app l k : sumz (l ++ k) = sumz l + sumz k.
Proof. induction l as [|x l IH]; cbn; [done|]. fold (sumz (l ++ k)) (sumz l). lia. Qed.

Lemma sumz_take_le l n : Forall (λ x, 1 ≤ x) l → 0 ≤ sumz (take n l) ≤ sumz l.
Proof.
  revert n. induction l as [|x l IH]; intros [|n] Hl; cbn; try lia;
    apply Forall_cons in Hl as [Hx Hl].
  - specialize (IH 0%nat Hl). cbn in IH. fold (sumz l). lia.
  - specialize (IH n Hl). fold (sumz l) (sumz (take n l)). lia.
Qed.

(** What one pass of [set_action_paras] has to have cut. *)
Definition paras_of (value : list Z) (lens : list Z) (ps : list ActionParam) : Prop :=
  ∀ i len, lens !! i = Some len → ∃ v, ps !! i = Some (mkActionParam len v) ∧ bytes v ∧
    zlen v = ceil8 len ∧ be_val v = field_val value (16 + sumz (take i lens)) len.

Lemma set_action_paras_paras `{Target} a value :
  bytes value → a.(para_num) = zlen a.(action_para_lens) → Forall (λ l, 1 ≤ l) a.(action_para_lens) →
  16 + sumz a.(action_para_lens) ≤ 8 * zlen value →
  ∃ ps, set_action_paras (Some value) a =
      Ok (mkAction a.(prims) a.(para_num) ps a.(action_para_lens)) ∧
    zlen ps = a.(para_num) ∧ paras_of value a.(action_para_lens) ps.
Proof.
  intros Hv Hn Hlens Hend. unfold set_action_paras. set (lens := action_para_lens a) in *.
  edestruct (for_lt_inv (λ i '(ps, off), zlen ps = i ∧ off = 16 + sumz (take (Z.to_nat i) lens) ∧
      paras_of value (take (Z.to_nat i) lens) ps) 0 (para_num a)) as ([ps off] & Hrun & Hl & _ & Hps);
    [rewrite Hn; apply zlen_nonneg| | |rewrite Hrun; exists ps].
  - split; [done|]. split; [done|]. intros i len Hi. done.
  - intros i [ps off] Hi (Hl & -> & Hps). cbn beta iota. unfold zlen in Hn.
    destruct (lookup_lt_is_Some_2 lens (Z.to_nat i)) as [len Hlen]; [lia|].
    assert (rd lens i = Ok len) as ->.
    { unfold rd. by rewrite (proj2 (Z.leb_le 0 i)), Hlen by lia. }
    cbn [mbind res_mbind]. pose proof (Forall_lookup_1 _ _ _ _ Hlens Hlen) as H1. cbn beta in H1.
    pose proof (take_S_r lens (Z.to_nat i) len Hlen) as Htake.
    replace (S (Z.to_nat i)) with (Z.to_nat (i + 1)) in Htake by lia.
    pose proof (sumz_take_le lens (Z.to_nat (i + 1)) Hlens) as Hs. rewrite Htake, sumz_app in Hs. cbn in Hs.
    pose proof (sumz_take_le lens (Z.to_nat i) Hlens).
    destruct (cut_para_spec value (16 + sumz (take (Z.to_nat i) lens)) len) as (v & -> & Hvb & Hvl & Hvv);
      [done|lia..|]. cbn [mbind res_mbind]. eexists; split; [done|].
    cbv beta iota. rewrite zlen_app, Htake, sumz_app.
    split; [unfold zlen in Hl |- *; cbn [length]; lia|]. split; [cbn; lia|].
    assert (Hlt : length (take (Z.to_nat i) lens) = Z.to_nat i) by (rewrite length_take; lia).
    intros k l Hk. apply lookup_app_Some in Hk as [Hk|[Hge Hk]].
    + destruct (Hps k l Hk) as (w & Hw & Hwb & Hwl & Hwv). exists w.
      apply lookup_lt_Some in Hk. rewrite take_app_le by lia.
      split; [|done]. rewrite lookup_app_l; [done|]. unfold zlen in Hl. lia.
    + rewrite Hlt in *. apply list_lookup_singleton_Some in Hk as [Hk0 <-].
      assert (k = Z.to_nat i) as -> by lia. exists v. unfold zlen in Hl.
      rewrite take_app_length' by done. split; [|done].
      rewrite lookup_app_r by lia. by replace (Z.to_nat i - length ps)%nat with 0%nat by lia.
  - split; [done|]. split; [done|]. rewrite Hn in Hps. unfold zlen in Hps.
    by rewrite Nat2Z.id, take_ge in Hps by done.
Qed.

(** A primitive sets its field to the value of its expression. *)
Lemma prim_run_set `{Target} f e phv ps hi :
  phv_wf phv → header_of phv f.(hdr_id) = Ok hi → exp_ok phv ps e →
  0 ≤ f.(internal_offset) → 1 ≤ f.(fd_len) →
  let begin := hi.(hdr_offset) + f.(internal_offset) in
  let '(len, v) := exp_eval phv ps e in
  begin + f.(fd_len) ≤ 8 * (FRONT_HEADER_LEN + META_LEN) →
  (begin + f.(fd_len) - 1) / 8 - begin / 8 ≤ ceil8 len → v < 2 ^ f.(fd_len) →
  ∃ q, prim_run (mkPrimitive (Some f) e) phv ps = Ok (set_packet q phv) ∧
    field_set phv.(packet) begin f.(fd_len) v q.
Proof.
  intros Hwf Hhi He Hio Hfl begin. destruct (exp_execute_eval phv ps e Hwf He) as (d & Hx & Hd & Hv).
  rewrite <- Hv. intros Hend Hcov Hfit. unfold prim_run. cbn [root lvalue]. rewrite Hx.
  cbn [mbind res_mbind]. pose proof (header_wf_of _ _ _ Hwf Hhi) as [? _]. destruct Hd as (Hb & Hl & _).
  apply (modify_field_set f d phv hi); try done; try lia.
  - apply (wf_packet _ Hwf).
  - rewrite (wf_packet_len _ Hwf). fold begin. lia.
  - rewrite Hl. exact Hcov.
Qed.

(** ** The life of an action *)
Definition slot_ok (s : slot) : Prop :=
  match s with SNull | SLive _ => True | SWild | SFreed => False end.

Definition slot_cleared (s : slot) : slot := match s with SNull => SNull | _ => SFreed end.

Lemma clear_action_ok x :
  zlen x.(_actions) = EXECUTOR_ACTION_NUM → Forall slot_ok x.(_actions) →
  clear_action x = Ok (mkExecutor (slot_cleared <$> x.(_actions))).
Proof.
  intros Hlen Hok. unfold clear_action. set (l0 := _actions x) in *.
  edestruct (for_lt_inv (λ i l, l = (slot_cleared <$> take (Z.to_nat i) l0) ++ drop (Z.to_nat i) l0)
    0 EXECUTOR_ACTION_NUM) as (l & Hrun & Hl); [done|done| |rewrite Hrun].
  - intros i l Hi ->. unfold zlen in Hlen.
    destruct (lookup_lt_is_Some_2 l0 (Z.to_nat i)) as [s Hs]; [lia|].
    assert (Hlt : length (slot_cleared <$> take (Z.to_nat i) l0) = Z.to_nat i)
      by (rewrite length_fmap, length_take; lia).
    assert (Hd : drop (Z.to_nat i) l0 = s :: drop (Z.to_nat (i + 1)) l0).
    { rewrite (drop_S l0 s) by done. do 2 f_equal. lia. }
    assert (Ht : take (Z.to_nat (i + 1)) l0 = take (Z.to_nat i) l0 ++ [s]).
    { replace (Z.to_nat (i + 1)) with (S (Z.to_nat i)) by lia. by apply take_S_r. }
    rewrite Hd, Ht, fmap_app, <- app_assoc. cbn [fmap list_fmap app].
    unfold rd. rewrite (proj2 (Z.leb_le 0 i)), lookup_app_r by lia.
    rewrite Hlt, Nat.sub_diag. cbn [lookup list_lookup mbind res_mbind].
    pose proof (Forall_lookup_1 _ _ _ _ Hok Hs) as Hsok.
    destruct s as [| |a|]; try done; cbn [slot_cleared deref mbind res_mbind]; [eauto|].
    rewrite wr_ok by (rewrite zlen_app; unfold zlen; rewrite Hlt; cbn [length]; lia).
    eexists; split; [done|]. rewrite insert_app_r_alt by lia. by rewrite Hlt, Nat.sub_diag.
  - cbn [mbind res_mbind]. rewrite Hl. unfold mret, res_mret. unfold zlen in Hlen. do 2 f_equal.
    rewrite take_ge, drop_ge by lia. apply app_nil_r.
Qed.

(** Going over the slots when every one that is not null dangles. *)
Lemma clear_dangling n i (l : list slot) body :
  (∀ j t, body j t = (s ← rd t j; match s with SNull => mret t | _ => _ ← deref s; wr t j SFreed end)) →
  0 ≤ i → i + Z.of_nat n = zlen l → Forall (λ s, s = SNull ∨ s = SFreed) l →
  (∃ k, (Z.to_nat i ≤ k)%nat ∧ l !! k = Some SFreed) → for_up n i body l = Fault UseAfterFree.
Proof.
  intros Hbody Hi Hlen Hl. revert i Hi Hlen. induction n as [|n IH]; intros i Hi Hlen (k & Hk & Hf).
  - apply lookup_lt_Some in Hf. unfold zlen in Hlen. lia.
  - cbn [for_up]. rewrite Hbody.
    destruct (lookup_lt_is_Some_2 l (Z.to_nat i)) as [s Hs]; [unfold zlen in Hlen; lia|].
    assert (rd l i = Ok s) as -> by (unfold rd; by rewrite (proj2 (Z.leb_le 0 i)), Hs by lia).
    cbn [mbind res_mbind]. pose proof (Forall_lookup_1 _ _ _ _ Hl Hs) as Hor. cbn beta in Hor.
    destruct Hor as [->| ->]; [|done]. cbn [mbind res_mbind]. apply IH; [lia|lia|].
    exists k. split; [|done]. destruct (decide (k = Z.to_nat i)) as [->|]; [congruence|lia].
Qed.

(** ** The properties of the executor *)

(** C15. Running a primitive assigns to its field the value of its expression, as
    [exp_eval] defines it, whenever the value fits the field and has at least the
    field's bytes but one; it changes no other bit of the packet and no other
    member of the vector. The expressions are those whose value C++ defines: the
    operands are there, what is shifted, negated or combined bit by bit has at most
    32 bits on the left, a shift is by less than 32; and a field that is read ends so
    that every byte of the operand is written, which one of whole bytes does. Of a
    field that has no whole bytes the operand has the bits in front of it too, up to
    whole bytes; and additions and right operands take the first four bytes of a
    longer value. *)
Theorem prim_run_assigns `{Target} f e phv ps :
  phv_wf phv → 0 ≤ f.(hdr_id) < 32 → exp_ok phv ps e → 0 ≤ f.(internal_offset) → 1 ≤ f.(fd_len) →
  let begin := (at_ phv.(parsed_headers) f.(hdr_id)).(hdr_offset) + f.(internal_offset) in
  let '(len, v) := exp_eval phv ps e in
  begin + f.(fd_len) ≤ 8 * (FRONT_HEADER_LEN + META_LEN) →
  (begin + f.(fd_len) - 1) / 8 - begin / 8 ≤ ceil8 len → 0 ≤ v < 2 ^ f.(fd_len) →
  ∃ q, prim_run (mkPrimitive (Some f) e) phv ps = Ok (set_packet q phv) ∧
    phv_wf (set_packet q phv) ∧ field_val q begin f.(fd_len) = v ∧
    ∀ b l, 0 ≤ b → 0 ≤ l → b + l ≤ 8 * (FRONT_HEADER_LEN + META_LEN) →
      b + l ≤ begin ∨ begin + f.(fd_len) ≤ b → field_val q b l = field_val phv.(packet) b l.
Proof.
  intros Hwf Hid He Hio Hfl begin. pose proof (prim_run_set f e phv ps _ Hwf
    (rd_at _ _ ltac:(rewrite (wf_headers_len _ Hwf); done)) He Hio Hfl) as Hrun.
  cbv zeta in Hrun. fold begin in Hrun. destruct (exp_eval phv ps e) as [len v].
  intros Hend Hcov Hfit. destruct Hrun as (q & Hrun & Hq); [done|done|lia|].
  assert (Hb0 : 0 ≤ begin).
  { destruct (header_of_ok phv _ Hwf Hid) as (hi & Hhi & [? _]). unfold header_of in Hhi.
    rewrite rd_at in Hhi by (rewrite (wf_headers_len _ Hwf); done). injection Hhi as Hhi.
    subst begin. rewrite Hhi. lia. }
  pose proof (wf_packet_len _ Hwf) as Hpl. exists q. split; [done|]. split; [|split].
  - destruct Hq as (Hql & Hqb & _). by apply set_packet_wf.
  - eapply field_set_same; [..|exact Hq]; lia.
  - intros b l Hb Hl Hbl Hdis. eapply field_set_other; [..|exact Hq]; lia.
Qed.

Definition demo_add : ExpTreeNode :=
  Node (OPERATOR ADD) (Node (PARAM 0) NullNode NullNode)
    (Node (CONSTANT (mkData 8 [Z.of_nat 4])) NullNode NullNode).
Definition demo_paras : list ActionParam := [mkActionParam 16 [1; 2]].

Lemma prim_run_assigns_witness :
  ∃ q, prim_run (H := x86) (mkPrimitive (Some (mkFieldInfo 3 5 13 FIELD)) demo_add)
      (PHV_init (H := x86)) demo_paras = Ok (set_packet q (PHV_init (H := x86))) ∧
    field_val q 5 13 = 262.
Proof.
  destruct (prim_run_assigns (H := x86) (mkFieldInfo 3 5 13 FIELD) demo_add (PHV_init (H := x86))
    demo_paras (PHV_init_wf (H := x86))) as (q & Hrun & _ & Hq & _).
  - cbn. lia.
  - cbn. split.
    + exists (mkActionParam 16 [1; 2]). split; [done|]. split; [repeat constructor; lia|]. split; [done|cbn; lia].
    + split; [repeat constructor; lia|]. split; [done|cbn; lia].
  - cbn. lia.
  - cbn. lia.
  - vm_compute. intros; discriminate.
  - vm_compute. intros; discriminate.
  - vm_compute. split; [intros; discriminate|done].
  - exists q. split; [exact Hrun|exact Hq].
Defined.

(** When its table hit, the executor runs the action the hit selected with the
    parameters cut from the value of the table entry: parameter [i] is the run of
    bits after the 16-bit action id and the parameters before it. *)
Lemma executor_runs_action `{Target} x phv a value :
  rd x.(_actions) phv.(next_action_id) = Ok (SLive a) → phv.(match_value) = Some value →
  bytes value → a.(para_num) = zlen a.(action_para_lens) → Forall (λ l, 1 ≤ l) a.(action_para_lens) →
  16 + sumz a.(action_para_lens) ≤ 8 * zlen value →
  ∃ ps, zlen ps = a.(para_num) ∧ paras_of value a.(action_para_lens) ps ∧
    ∃ x', rd x'.(_actions) phv.(next_action_id) =
        Ok (SLive (mkAction a.(prims) a.(para_num) ps a.(action_para_lens))) ∧
      executor_execute x phv =
        (phv' ← for_each (λ prim phv, prim_run prim phv ps) a.(prims) phv; Ok (x', phv')).
Proof.
  intros Hslot Hmv Hv Hn Hlens Hend.
  destruct (set_action_paras_paras a value) as (ps & Hset & Hl & Hps); [done..|].
  exists ps. split; [done|]. split; [done|]. unfold executor_execute. rewrite Hslot, Hmv.
  cbn [mbind res_mbind deref]. rewrite Hset. cbn [mbind res_mbind].
  apply rd_ok_inv in Hslot as [Hi _]. rewrite wr_ok by done. cbn [mbind res_mbind].
  eexists (mkExecutor _). cbn [_actions]. split; [by apply rd_insert_eq|].
  unfold action_execute. cbn [prims Executor.action_paras]. by destruct (for_each _ _ _).
Qed.

Definition demo_action : Action := mkAction
  [mkPrimitive (Some (mkFieldInfo 0 0 9 FIELD)) (Node (PARAM 1) NullNode NullNode)] 2 [] [4; 9].
Definition demo_executor : Executor :=
  mkExecutor (<[1%nat := SLive demo_action]> (_actions (Executor_init (H := x86)))).
Definition demo_hit_phv : PHV :=
  set_next_action_id 1 (set_match_value (Some [0; 1; 0xab; 0xcd]) (PHV_init (H := x86))).

Lemma executor_runs_action_witness :
  ∃ ps, zlen ps = 2 ∧ paras_of [0; 1; 0xab; 0xcd] [4; 9] ps ∧
    ∃ x', executor_execute (H := x86) demo_executor demo_hit_phv =
      (phv' ← for_each (λ prim phv, prim_run (H := x86) prim phv ps) demo_action.(prims) demo_hit_phv;
       Ok (x', phv')).
Proof.
  destruct (executor_runs_action (H := x86) demo_executor demo_hit_phv demo_action [0; 1; 0xab; 0xcd])
    as (ps & Hl & Hps & x' & _ & Hx).
  - reflexivity.
  - reflexivity.
  - repeat constructor; lia.
  - reflexivity.
  - repeat constructor; lia.
  - vm_compute. intros; discriminate.
  - exists ps. split; [exact Hl|]. split; [exact Hps|]. exists x'. exact Hx.
Defined.

(** Clearing the actions of a processor deletes them and leaves the pointers:
    the actions can not be run any more, and a second clearing, of a processor
    that held an action, deletes a deleted object. *)
Lemma clear_action_dangles `{Target} x id a phv :
  zlen x.(_actions) = EXECUTOR_ACTION_NUM → Forall slot_ok x.(_actions) →
  rd x.(_actions) id = Ok (SLive a) →
  ∃ x', clear_action x = Ok x' ∧ execute_action id x' phv = Fault UseAfterFree ∧
    clear_action x' = Fault UseAfterFree ∧
    (∀ b, ∃ x'', insert_action b id x' = Ok x'' ∧ execute_action id x'' phv = action_execute b phv).
Proof.
  intros Hlen Hok Hid. exists (mkExecutor (slot_cleared <$> _actions x)).
  split; [by apply clear_action_ok|]. apply rd_ok_inv in Hid as [Hi Hid].
  assert (Hf : (slot_cleared <$> _actions x) !! Z.to_nat id = Some SFreed) by (by rewrite list_lookup_fmap, Hid).
  assert (Hl : zlen (slot_cleared <$> _actions x) = EXECUTOR_ACTION_NUM) by (unfold zlen; by rewrite length_fmap).
  split; [|split].
  - unfold execute_action, rd. cbn [_actions]. by rewrite (proj2 (Z.leb_le 0 id)), Hf by lia.
  - unfold clear_action, for_lt. rewrite (clear_dangling _ 0); [done|done|done|done| |].
    + apply Forall_fmap, Forall_forall. intros [| | |] _; cbn; auto.
    + exists (Z.to_nat id). split; [lia|done].
  - intros b. eexists. split.
    + unfold insert_action. rewrite wr_ok; [done|]. cbn [_actions]. unfold zlen in *. by rewrite length_fmap.
    + unfold execute_action. cbn [_actions]. rewrite rd_insert_eq; [done|].
      unfold zlen in *. by rewrite length_fmap.
Qed.

Lemma clear_action_dangles_witness :
  ∃ x', clear_action demo_executor = Ok x' ∧
    execute_action (H := x86) 1 x' demo_hit_phv = Fault UseAfterFree ∧
    clear_action x' = Fault UseAfterFree.
Proof.
  destruct (clear_action_dangles (H := x86) demo_executor 1 demo_action demo_hit_phv)
    as (x' & Hc & He & Hcc & _).
  - reflexivity.
  - repeat constructor.
  - reflexivity.
  - exists x'. split; [exact Hc|]. split; [exact He|exact Hcc].
Defined.
