(* ===== verification/Gateway.v ===== *)
(** * The gateway of a processor (gateway.h)

    The gateway of a processor evaluates up to eight comparisons on the packet,
    packs their truth values into a byte, and looks the byte up to choose the
    table the packet matches or the stage it goes to.  Its vector of expressions
    is modelled with its buffer, because the evaluation runs to the capacity of
    the vector and not to its size. *)

From stdpp Require Import base numbers list gmap.
From Stdlib Require Import ZArith Lia.
From S2P Require Import Prelude Bits Phv.

#[local] Open Scope Z_scope.

(** ** Data *)
Inductive RelationCode : Set := GT | GTE | LT | LTE | EQ | NEQ.

Record RelationExp : Set := mkRelationExp {
  param1 : GateParam;
  param2 : GateParam;
  relation : RelationCode
}.

(** [exps] is the buffer of the vector, as long as its capacity; the elements past
    [exps_size] are pointers stored there before, or nothing. *)
Record Gateway : Type := mkGateway {
  g_bitmap : Z;
  default_entry : GateEntry;
  exps : list (option RelationExp);
  exps_size : nat;
  res_next : gmap Z GateEntry
}.

(** [Gateway()] leaves the default entry uninitialised. *)
Definition Gateway_init `{Target} : Gateway :=
  mkGateway 0 (mkGateEntry (if decide (junk 0 = 0) then TABLE else STAGE) (i32 (junk 1))) [] 0 ∅.

(** ** Configuration *)
Definition set_default_entry (ge : GateEntry) (g : Gateway) : Gateway :=
  mkGateway g.(g_bitmap) ge g.(exps) g.(exps_size) g.(res_next).

Definition clear_default_entry (g : Gateway) : Gateway :=
  mkGateway g.(g_bitmap) (mkGateEntry TABLE 0) g.(exps) g.(exps_size) g.(res_next).

(** [vector::push_back]: a full buffer is copied into one of twice the capacity. *)
Definition insert_exp (e : RelationExp) (g : Gateway) : Gateway :=
  let n := g.(exps_size) in
  let buf := if (n <? length g.(exps))%nat then g.(exps)
             else take n g.(exps) ++ replicate (Nat.max 1 (2 * n) - n) None in
  mkGateway g.(g_bitmap) g.(default_entry) (<[n := Some e]> buf) (S n) g.(res_next).

Definition clear_res_next (g : Gateway) : Gateway :=
  mkGateway g.(g_bitmap) g.(default_entry) g.(exps) g.(exps_size) ∅.

(** [vector::clear] keeps the buffer. *)
Definition gateway_clear (g : Gateway) : Gateway :=
  clear_default_entry (mkGateway g.(g_bitmap) (mkGateEntry TABLE 0) g.(exps) 0 ∅).

Definition modify_res_map (key : Z) (type : GateEntryType) (v : Z) (g : Gateway) : Gateway :=
  mkGateway g.(g_bitmap) g.(default_entry) g.(exps) g.(exps_size)
    (<[key := mkGateEntry type v]> g.(res_next)).

(** ** Evaluation *)

(** The loop of [get_value] over the bytes of a field, and over those of a constant. *)
Definition gate_field_loop `{Target} (pkt : list Z) (begin_offset temp byte_start byte_end : Z)
    : res (Z * Z) :=
  for_ge byte_end byte_start (λ i '(r, offset),
    p ← rd pkt i;
    if i =? byte_end then mret (u32 (r + Z.shiftr p (8 - temp)), offset + temp)
    else if i =? byte_start then
      mret (u32 (r + shl32 (Z.shiftr (u8 (Z.shiftl p begin_offset)) begin_offset) offset), offset)
    else mret (u32 (r + shl32 p offset), offset + 8)) (0, 0).

Definition gate_const_loop `{Target} (data : list Z) (byte_len : Z) : res (Z * Z) :=
  for_ge (byte_len - 1) 0 (λ i '(r, offset),
    b ← rd data i;
    mret (u32 (r + shl32 b offset), offset + 8)) (0, 0).

(** [Gateway::get_value]. [~hit] is taken on [int]. *)
Definition gate_value `{Target} (param : GateParam) (phv : PHV) : res Z :=
  match param with
  | GFIELD f =>
      match f.(fd_type) with
      | VALID => rd phv.(valid_bitmap) f.(hdr_id)
      | HIT => mret (b2z phv.(hit))
      | MISS => mret (u32 (Z.lnot (b2z phv.(hit))))
      | FIELD =>
          hi ← header_of phv f.(hdr_id);
          let begin := hi.(hdr_offset) + f.(internal_offset) in
          let end_ := begin + f.(fd_len) in
          let begin_offset := begin mod 8 in
          let end_offset := end_ mod 8 in
          let byte_start := begin / 8 in
          let byte_end := end_ / 8 - (if end_offset =? 0 then 1 else 0) in
          let temp := if end_offset =? 0 then 8 else end_offset in
          if byte_start =? byte_end then
            p ← rd phv.(packet) byte_start;
            let mid := Z.shiftr (u8 (Z.shiftl p begin_offset)) begin_offset in
            mret (u32 (0 + Z.shiftr mid (8 - temp)))
          else
            '(r, _) ← gate_field_loop phv.(packet) begin_offset temp byte_start byte_end;
            mret r
      end
  | GCONSTANT d =>
      let len := d.(data_len) in
      let byte_len := Z.quot len 8 + (if Z.rem len 8 =? 0 then 0 else 1) in
      '(r, _) ← gate_const_loop d.(val) byte_len;
      mret r
  | GOTHER => mret 0
  end.

Definition holds (r : RelationCode) (a b : Z) : bool :=
  match r with
  | GT => b <? a | GTE => b <=? a | LT => a <? b | LTE => a <=? b
  | EQ => a =? b | NEQ => negb (a =? b)
  end.

(** One turn of the loop of [execute]. *)
Definition gate_step `{Target} (buf : list (option RelationExp)) (phv : PHV) (i bitmap : Z) : res Z :=
  o ← rd buf i;
  match o with
  | None => Fault WildPointer
  | Some e =>
      res1 ← gate_value e.(param1) phv;
      res2 ← gate_value e.(param2) phv;
      mret (u8 (bitmap + u8 (shl32 (b2z (holds e.(relation) res1 res2)) (7 - i))))
  end.

(** [Gateway::execute]. *)
Definition gateway_execute `{Target} (g : Gateway) (phv : PHV) : res (Gateway * PHV) :=
  bitmap ← for_lt 0 (zlen g.(exps)) (gate_step g.(exps) phv) g.(g_bitmap);
  let next := match g.(res_next) !! bitmap with
              | Some e => e
              | None => g.(default_entry)
              end in
  mret (mkGateway 0 g.(default_entry) g.(exps) g.(exps_size) g.(res_next), set_next_op next phv).

(** ** The values *)

Lemma gate_mid_val p b l :
  bytes p → 0 ≤ b → 1 ≤ l → b mod 8 + l ≤ 8 →
  Z.shiftr (Z.shiftr (u8 (Z.shiftl (at_ p (b / 8)) (b mod 8))) (b mod 8)) (8 - (b mod 8 + l)) =
  field_val p b l.
Proof.
  intros Hp Hb Hl Hs. assert (Hm : 0 ≤ b mod 8) by dlia. apply field_val_unique; [lia|..].
  - rewrite Z.shiftr_shiftr, Z.shiftr_div_pow2 by dlia.
    pose proof (u8_range (Z.shiftl (at_ p (b / 8)) (b mod 8))) as Hu. set (x := u8 _) in *.
    replace (b mod 8 + (8 - (b mod 8 + l))) with (8 - l) by lia.
    assert (H8 : 2 ^ (8 - l) * 2 ^ l = 256).
    { rewrite <- Z.pow_add_r by lia. by replace (8 - l + l) with 8 by lia. }
    assert (0 < 2 ^ (8 - l)) by (apply Z.pow_pos_nonneg; lia).
    split; [apply Z.div_pos; lia|]. apply Z.div_lt_upper_bound; lia.
  - intros i Hi. rewrite !Z.shiftr_spec by dlia. unfold u8. change 256 with (2 ^ 8).
    rewrite Z.mod_pow2_bits_low, Z.shiftl_spec by dlia. unfold bit_at. f_equal; [f_equal; dlia|dlia].
Qed.

(** The first byte of a longer field. *)
Lemma gate_head_val p b :
  bytes p → 0 ≤ b →
  Z.shiftr (u8 (Z.shiftl (at_ p (b / 8)) (b mod 8))) (b mod 8) = field_val p b (8 - b mod 8).
Proof.
  intros Hp Hb. rewrite <- (gate_mid_val p b (8 - b mod 8)) by (try done; dlia).
  replace (8 - (b mod 8 + (8 - b mod 8))) with 0 by lia. by rewrite Z.shiftr_0_r.
Qed.

(** Adding the bits of one more byte in front of those collected so far. *)
Lemma gate_acc p b m k :
  0 ≤ m → 0 ≤ k → m + k ≤ 32 →
  u32 (field_val p (b + m) k + u32 (field_val p b m * 2 ^ k)) = field_val p b (m + k).
Proof.
  intros Hm Hk H32. rewrite field_val_app by lia.
  pose proof (field_val_range p b m Hm). pose proof (field_val_range p (b + m) k Hk).
  assert (Hpw : 2 ^ m * 2 ^ k ≤ 2 ^ 32).
  { rewrite <- Z.pow_add_r by lia. apply Z.pow_le_mono_r; lia. }
  assert (0 < 2 ^ k) by (apply Z.pow_pos_nonneg; lia).
  rewrite (u32_small (_ * _)) by nia. rewrite Z.add_comm. apply u32_small. nia.
Qed.

Lemma gate_field_loop_spec `{Target} p b l :
  bytes p → 0 ≤ b → 1 ≤ l ≤ 32 → b + l ≤ 8 * zlen p → b / 8 < (b + l - 1) / 8 →
  let temp := if (b + l) mod 8 =? 0 then 8 else (b + l) mod 8 in
  ∃ off, gate_field_loop p (b mod 8) temp (b / 8) ((b + l - 1) / 8) = Ok (field_val p b l, off).
Proof.
  intros Hp Hb Hl Hend Hlt temp. unfold gate_field_loop. set (be := (b + l - 1) / 8) in *.
  set (bs := b / 8) in *. set (E := b + l) in *.
  assert (Ht : 1 ≤ temp ≤ 8 ∧ E = 8 * be + temp) by (subst temp be E; zcmp; dlia).
  edestruct (for_ge_inv (λ j '(r, off),
      if bs <=? j then r = field_val p (8 * (j + 1)) off ∧
        off = if j =? be then 0 else E - 8 * (j + 1)
      else r = field_val p b l) be bs) as ([r off] & Hrun & Hr); [lia| | |rewrite Hrun].
  - rewrite (proj2 (Z.leb_le bs be)), Z.eqb_refl by lia. done.
  - intros j [r off] Hj HI. rewrite (proj2 (Z.leb_le bs j)) in HI by lia. destruct HI as [-> Hoff].
    rewrite rd_at by (subst bs be E; dlia). cbn [mbind res_mbind].
    destruct (Z.eqb_spec j be) as [->|Hne].
    + subst off. eexists; split; [done|]. cbn beta iota. rewrite field_val_0, Z.add_0_l.
      rewrite (proj2 (Z.leb_le bs (be - 1))) by lia. replace (be - 1 + 1) with be by lia.
      rewrite (proj2 (Z.eqb_neq (be - 1) be)) by lia. split; [|lia].
      rewrite Z.shiftr_div_pow2 by lia. rewrite <- field_val_head, Z.add_0_l by (done || lia).
      apply u32_small. pose proof (field_val_range p (8 * be) temp ltac:(lia)).
      assert (2 ^ temp ≤ 2 ^ 8) by (apply Z.pow_le_mono_r; lia). lia.
    + assert (Hk : 0 ≤ off < 32) by (subst off E bs; dlia).
      destruct (Z.eqb_spec j bs) as [->|Hnb]; (eexists; split; [done|]); cbn beta iota;
        rewrite shl32_in by lia.
      * rewrite (proj2 (Z.leb_gt bs (bs - 1))) by lia. subst bs.
        rewrite gate_head_val by done.
        replace (8 * (b / 8 + 1)) with (b + (8 - b mod 8)) by dlia.
        rewrite gate_acc by (subst off E; dlia). f_equal. subst off E. dlia.
      * rewrite (proj2 (Z.leb_le bs (j - 1))) by lia. replace (j - 1 + 1) with j by lia.
        rewrite (proj2 (Z.eqb_neq (j - 1) be)) by lia. split; [|lia].
        rewrite <- field_val_whole by done. replace (8 * (j + 1)) with (8 * j + 8) by lia.
        rewrite gate_acc by (subst off E bs; dlia). f_equal. lia.
  - rewrite (proj2 (Z.leb_gt bs (bs - 1))) in Hr by lia. exists off. by subst r.
Qed.

(** [get_value] of a field is the field. *)
Lemma gate_field_val `{Target} phv f hi :
  header_of phv f.(hdr_id) = Ok hi → bytes phv.(packet) → f.(fd_type) = FIELD →
  0 ≤ hi.(hdr_offset) → 0 ≤ f.(internal_offset) → 1 ≤ f.(fd_len) ≤ 32 →
  let begin := hi.(hdr_offset) + f.(internal_offset) in
  begin + f.(fd_len) ≤ 8 * zlen phv.(packet) →
  gate_value (GFIELD f) phv = Ok (field_val phv.(packet) begin f.(fd_len)).
Proof.
  intros Hhi Hp Hty Hho Hio Hfl begin Hend. unfold gate_value. rewrite Hty, Hhi.
  cbn [mbind res_mbind]. fold begin. set (l := fd_len f) in *. set (E := begin + l).
  assert (Hbe : E / 8 - (if E mod 8 =? 0 then 1 else 0) = (E - 1) / 8) by (zcmp; dlia).
  rewrite Hbe. destruct (Z.eqb_spec (begin / 8) ((E - 1) / 8)).
  - rewrite rd_at by (subst E; dlia). cbn [mbind res_mbind]. unfold mret, res_mret. f_equal.
    rewrite Z.add_0_l.
    replace (if E mod 8 =? 0 then 8 else E mod 8) with (begin mod 8 + l) by (subst E; zcmp; dlia).
    rewrite gate_mid_val by (try done; subst E; dlia). apply u32_small.
    pose proof (field_val_range (packet phv) begin l ltac:(lia)).
    assert (2 ^ l ≤ 2 ^ 32) by (apply Z.pow_le_mono_r; lia). lia.
  - destruct (gate_field_loop_spec (packet phv) begin l) as (off & Hrun);
      [first [done | subst E; dlia] ..|].
    cbv zeta in Hrun. fold E in Hrun. by rewrite Hrun.
Qed.

(** [get_value] of a constant of at most 32 bits is its value. *)
Lemma gate_const_val `{Target} phv d :
  bytes d.(val) → 0 ≤ d.(data_len) ≤ 32 → zlen d.(val) = ceil8 d.(data_len) →
  gate_value (GCONSTANT d) phv = Ok (be_val d.(val)).
Proof.
  intros Hb Hl Hn. unfold gate_value. rewrite Z.quot_div_nonneg, Z.rem_mod_nonneg by lia.
  assert (Hbl : data_len d / 8 + (if data_len d mod 8 =? 0 then 0 else 1) = zlen (val d))
    by (rewrite Hn; unfold ceil8; zcmp; dlia).
  rewrite Hbl. set (v := val d) in *. set (n := zlen v) in *.
  assert (H4 : 0 ≤ n ≤ 4) by (rewrite Hn; unfold ceil8; dlia). unfold gate_const_loop.
  edestruct (for_ge_inv (λ j '(r, off), off = 8 * (n - 1 - j) ∧ r = field_val v (8 * (j + 1)) off)
    (n - 1) 0) as ([r off] & Hrun & -> & ->); [lia| | |rewrite Hrun].
  - split; [lia|]. by rewrite field_val_0.
  - intros j [r off] Hj [Hoff ->]. rewrite rd_at by (fold n; lia). cbn [mbind res_mbind].
    eexists; split; [done|]. split; [lia|]. rewrite shl32_in by lia.
    rewrite <- field_val_whole by done. replace (8 * (j + 1)) with (8 * j + 8) by lia.
    rewrite gate_acc by lia. f_equal; lia.
  - cbn [mbind res_mbind]. unfold mret, res_mret. f_equal. rewrite be_val_field by done. f_equal; lia.
Qed.

(** ** The bitmap *)

(** What a comparison evaluates to, when both of its operands have a value. *)
Definition exp_truth `{Target} (phv : PHV) (e : RelationExp) : option bool :=
  match gate_value e.(param1) phv, gate_value e.(param2) phv with
  | Ok a, Ok b => Some (holds e.(relation) a b)
  | _, _ => None
  end.

(** The byte whose bits, from the highest, are the truth values. *)
Fixpoint bits_key (bs : list bool) (i : Z) : Z :=
  match bs with
  | [] => 0
  | b :: bs' => b2z b * 2 ^ (7 - i) + bits_key bs' (i + 1)
  end.

Lemma bits_key_app bs b i :
  bits_key (bs ++ [b]) i = bits_key bs i + b2z b * 2 ^ (7 - (i + zlen bs)).
Proof.
  revert i. induction bs as [|c bs IH]; intros i; cbn [bits_key app].
  - unfold zlen. cbn [length]. rewrite !Z.add_0_r. lia.
  - rewrite IH. unfold zlen. cbn [length]. rewrite Nat2Z.inj_succ.
    replace (i + 1 + Z.of_nat (length bs)) with (i + Z.succ (Z.of_nat (length bs))) by lia. lia.
Qed.

Lemma bits_key_range bs i :
  0 ≤ i → i + zlen bs ≤ 8 → 0 ≤ bits_key bs i ≤ 2 ^ (8 - i) - 2 ^ (8 - (i + zlen bs)).
Proof.
  revert i. induction bs as [|c bs IH]; intros i Hi Hlen; cbn [bits_key].
  - unfold zlen. cbn [length]. rewrite Z.add_0_r. lia.
  - unfold zlen in *. cbn [length] in *. rewrite Nat2Z.inj_succ in *. specialize (IH (i + 1) ltac:(lia) ltac:(lia)).
    replace (i + Z.succ (Z.of_nat (length bs))) with (i + 1 + Z.of_nat (length bs)) by lia.
    replace (8 - i) with (Z.succ (8 - (i + 1))) by lia. rewrite Z.pow_succ_r by lia.
    replace (7 - i) with (8 - (i + 1)) by lia.
    assert (0 < 2 ^ (8 - (i + 1))) by (apply Z.pow_pos_nonneg; lia). destruct c; cbn [b2z]; lia.
Qed.

(** Evaluating the slots of a buffer that hold expressions. *)
Lemma gate_loop_ok `{Target} phv es k bs :
  (length es ≤ 8)%nat → Forall2 (λ e b, exp_truth phv e = Some b) es bs →
  for_lt 0 (zlen es) (gate_step ((Some <$> es) ++ replicate k None) phv) 0 = Ok (bits_key bs 0).
Proof.
  intros Hlen Hes. pose proof (Forall2_length _ _ _ Hes) as Hl.
  edestruct (for_lt_inv (λ i m, m = bits_key (take (Z.to_nat i) bs) 0) 0 (zlen es))
    as (m & Hrun & ->); [apply zlen_nonneg|done| |rewrite Hrun].
  - intros i m Hi ->. unfold zlen in Hi. unfold gate_step, rd.
    destruct (lookup_lt_is_Some_2 es (Z.to_nat i)) as [e He]; [lia|].
    destruct (Forall2_lookup_l _ _ _ _ _ Hes He) as (b & Hb & Ht).
    rewrite (proj2 (Z.leb_le 0 i)), lookup_app_l, list_lookup_fmap, He by (rewrite ?length_fmap; lia). cbn [fmap option_fmap option_map mbind res_mbind].
    unfold exp_truth in Ht. destruct (gate_value (param1 e) phv) as [a|]; [|done].
    destruct (gate_value (param2 e) phv) as [c|]; [|done]. injection Ht as Ht. cbn [mbind res_mbind].
    eexists; split; [done|]. replace (Z.to_nat (i + 1)) with (S (Z.to_nat i)) by lia.
    rewrite (take_S_r _ _ _ Hb), bits_key_app, Ht.
    assert (Htl : zlen (take (Z.to_nat i) bs) = i) by (unfold zlen; rewrite length_take; lia).
    rewrite Htl, shl32_in, Z.add_0_l by lia.
    pose proof (bits_key_range (take (Z.to_nat i) bs) 0 ltac:(lia) ltac:(rewrite Htl; lia)) as Hr.
    rewrite Htl in Hr. replace (8 - (0 + i)) with (Z.succ (7 - i)) in Hr by lia. rewrite Z.pow_succ_r in Hr by lia.
    assert (Hp : 0 < 2 ^ (7 - i)) by (apply Z.pow_pos_nonneg; lia).
    assert (Hp7 : 2 ^ (7 - i) ≤ 2 ^ 7) by (apply Z.pow_le_mono_r; lia).
    rewrite (u32_small (_ * _)) by (destruct b; cbn [b2z]; lia).
    rewrite (u8_small (_ * _)) by (destruct b; cbn [b2z]; lia).
    apply u8_small. change (8 - 0) with 8 in Hr. destruct b; cbn [b2z]; lia.
  - f_equal. rewrite take_ge; [done|]. unfold zlen. lia.
Qed.

(** ** Programming a gateway *)

(** The capacity of a vector after [n] insertions into a fresh one. *)
Fixpoint vcap (n : nat) : nat :=
  match n with
  | O => O
  | S m => if (m <? vcap m)%nat then vcap m else Nat.max 1 (2 * m)
  end.

Lemma vcap_ge n : (n ≤ vcap n)%nat.
Proof. induction n as [|n IH]; cbn [vcap]; [lia|]. destruct (Nat.ltb_spec n (vcap n)); lia. Qed.

Definition insert_exps (es : list RelationExp) (g : Gateway) : Gateway :=
  fold_left (λ g e, insert_exp e g) es g.

Lemma insert_exps_buf `{Target} es :
  (insert_exps es Gateway_init).(exps) =
    (Some <$> es) ++ replicate (vcap (length es) - length es) None ∧
  (insert_exps es Gateway_init).(exps_size) = length es ∧
  (insert_exps es Gateway_init).(g_bitmap) = 0 ∧
  (insert_exps es Gateway_init).(res_next) = ∅ ∧
  (insert_exps es Gateway_init).(default_entry) = Gateway_init.(default_entry).
Proof.
  induction es as [|e es IH] using rev_ind; [done|].
  unfold insert_exps in *. rewrite fold_left_app. cbn [fold_left].
  set (g := fold_left _ es Gateway_init) in *. clearbody g.
  destruct IH as (Hb & Hs & Hm & Hr & Hd). unfold insert_exp. cbn [exps exps_size g_bitmap res_next
    default_entry]. rewrite Hb, Hs, Hm, Hr, Hd. split; [|rewrite length_app; cbn; auto with lia].
  rewrite !length_app, length_fmap, length_replicate. cbn [length].
  pose proof (vcap_ge (length es)). rewrite Nat.add_1_r. cbn [vcap].
  replace (length es + (vcap (length es) - length es))%nat with (vcap (length es)) by lia.
  rewrite fmap_app, <- app_assoc. destruct (Nat.ltb_spec (length es) (vcap (length es))).
  - rewrite insert_app_r_alt by (rewrite length_fmap; lia). f_equal. rewrite length_fmap, Nat.sub_diag.
    by replace (vcap (length es) - length es)%nat with (S (vcap (length es) - S (length es))) by lia.
  - rewrite take_app_le, take_ge by (rewrite length_fmap; lia).
    rewrite insert_app_r_alt by (rewrite length_fmap; lia). f_equal. rewrite length_fmap, Nat.sub_diag.
    by replace (Nat.max 1 (2 * length es) - length es)%nat
      with (S (Nat.max 1 (2 * length es) - S (length es))) by lia.
Qed.

Lemma bits_key_testbit bs k j :
  0 ≤ k → k + zlen bs ≤ 8 → 0 ≤ j ≤ 7 - k →
  Z.testbit (bits_key bs k) j = default false (bs !! Z.to_nat (7 - k - j)).
Proof.
  revert k. induction bs as [|b bs IH]; intros k Hk Hlen Hj; cbn [bits_key].
  - by rewrite Z.bits_0.
  - unfold zlen in Hlen. cbn [length] in Hlen. rewrite Nat2Z.inj_succ in Hlen.
    pose proof (bits_key_range bs (k + 1) ltac:(lia) ltac:(unfold zlen; lia)) as Hr.
    replace (8 - (k + 1)) with (7 - k) in Hr by lia.
    assert (0 < 2 ^ (8 - (k + 1 + zlen bs))) by (apply Z.pow_pos_nonneg; unfold zlen; lia).
    rewrite (add_disjoint _ _ (7 - k)), Z.lor_spec by
      (try lia; rewrite Z.land_ones by lia; apply Z.mod_mul, Z.pow_nonzero; lia).
    destruct (decide (j = 7 - k)) as [->|].
    + rewrite Z.mul_pow2_bits, Z.sub_diag by lia. rewrite (testbit_small (bits_key bs (k + 1)) (7 - k)) by lia.
      rewrite orb_false_r. by destruct b.
    + rewrite Z.mul_pow2_bits_low by lia. cbn [orb]. rewrite IH by (unfold zlen; lia).
      replace (Z.to_nat (7 - k - j)) with (S (Z.to_nat (7 - (k + 1) - j))) by lia. done.
Qed.

(** ** The properties of the gateway *)

Lemma gateway_run `{Target} g es bs phv :
  g.(exps) = (insert_exps es Gateway_init).(exps) → g.(g_bitmap) = 0 →
  (length es ≤ 8)%nat → vcap (length es) = length es →
  Forall2 (λ e b, exp_truth phv e = Some b) es bs →
  gateway_execute g phv = Ok (g, set_next_op (default g.(default_entry) (g.(res_next) !! bits_key bs 0)) phv).
Proof.
  intros Hg Hm Hlen Hcap Hes. pose proof (insert_exps_buf es) as (Hb & _).
  rewrite Hcap, Nat.sub_diag, app_nil_r in Hb. pose proof (gate_loop_ok phv es 0 bs Hlen Hes) as Hrun.
  cbn [replicate] in Hrun. rewrite app_nil_r in Hrun.
  unfold gateway_execute. rewrite Hg, Hb, Hm. unfold zlen at 1. rewrite length_fmap. fold (zlen es).
  rewrite Hrun. cbn [mbind res_mbind]. rewrite <- Hb, <- Hg. destruct g. cbn in *. subst.
  by destruct (_ !! _).
Qed.

(** What an operand stands for: a field of at most 32 bits for its bits in the packet, a
    header for its mark, the hit of the last table for 1, its miss for one of the two
    largest numbers (the code negates an [int]), a constant of at most 32 bits for the
    number of its bytes, and everything else for 0. *)
Definition stands_for (phv : PHV) (param : GateParam) (v : Z) : Prop :=
  match param with
  | GFIELD f =>
      match f.(fd_type) with
      | FIELD =>
          let begin := (at_ phv.(parsed_headers) f.(hdr_id)).(hdr_offset) + f.(internal_offset) in
          0 ≤ f.(hdr_id) < 32 ∧ 0 ≤ f.(internal_offset) ∧ 1 ≤ f.(fd_len) ≤ 32 ∧
          begin + f.(fd_len) ≤ 8 * (FRONT_HEADER_LEN + META_LEN) ∧ v = field_val phv.(packet) begin f.(fd_len)
      | VALID => 0 ≤ f.(hdr_id) < 32 ∧ v = at_ phv.(valid_bitmap) f.(hdr_id)
      | HIT => v = if phv.(hit) then 1 else 0
      | MISS => v = if phv.(hit) then 4294967294 else 4294967295
      end
  | GCONSTANT d => bytes d.(val) ∧ 0 ≤ d.(data_len) ≤ 32 ∧ zlen d.(val) = ceil8 d.(data_len) ∧ v = be_val d.(val)
  | GOTHER => v = 0
  end.

Lemma stands_for_value `{Target} phv param v : phv_wf phv → stands_for phv param v → gate_value param phv = Ok v.
Proof.
  intros Hwf. destruct param as [d|f|]; cbn [stands_for].
  - intros (Hb & Hl & Hn & ->). by apply gate_const_val.
  - destruct (fd_type f) eqn:Hty.
    + intros (Hid & Hio & Hl & He & ->). pose proof (wf_headers_len _ Hwf) as Hhl.
      assert (Hh : header_of phv (hdr_id f) = Ok (at_ (parsed_headers phv) (hdr_id f))) by (apply rd_at; lia).
      pose proof (header_wf_of _ _ _ Hwf Hh) as [[H0 _] _].
      apply gate_field_val; [done|apply (wf_packet _ Hwf)|done|done|done|done|by rewrite (wf_packet_len _ Hwf)].
    + intros (Hid & ->). unfold gate_value. rewrite Hty. apply rd_at. rewrite (wf_valid_len _ Hwf). lia.
    + intros ->. unfold gate_value. rewrite Hty. by destruct (hit phv).
    + intros ->. unfold gate_value. rewrite Hty. by destruct (hit phv).
  - by intros ->.
Qed.

(** The comparisons. *)
Definition compares (r : RelationCode) (a b : Z) : Prop :=
  match r with GT => b < a | GTE => b ≤ a | LT => a < b | LTE => a ≤ b | EQ => a = b | NEQ => a ≠ b end.

Lemma holds_compares r a b : holds r a b = true ↔ compares r a b.
Proof. destruct r; cbn; rewrite ?Z.ltb_lt, ?Z.leb_le, ?Z.eqb_eq; try done. by rewrite negb_true_iff, Z.eqb_neq. Qed.


Definition demo_exp (r : RelationCode) (a b : Z) : RelationExp :=
  mkRelationExp (GCONSTANT (mkData 8 [a])) (GCONSTANT (mkData 8 [b])) r.
Definition demo_gateway : Gateway :=
  modify_res_map 128 STAGE 5
    (insert_exps [demo_exp LT 3 4; demo_exp EQ 3 4] (Gateway_init (H := x86))).


(** With another number of expressions the evaluation goes on past the last
    one, to a slot of the buffer that was never written, and dereferences what it
    finds there: three expressions are enough. *)
Lemma gateway_reads_past_end `{Target} g es bs phv :
  g.(exps) = (insert_exps es Gateway_init).(exps) → g.(g_bitmap) = 0 →
  (length es ≤ 8)%nat → vcap (length es) ≠ length es →
  Forall2 (λ e b, exp_truth phv e = Some b) es bs →
  gateway_execute g phv = Fault WildPointer.
Proof.
  intros Hg Hm Hlen Hcap Hes. pose proof (insert_exps_buf es) as (Hb & _).
  pose proof (vcap_ge (length es)). set (k := (vcap (length es) - length es)%nat) in *.
  pose proof (gate_loop_ok phv es k bs Hlen Hes) as Hrun.
  unfold gateway_execute. rewrite Hg, Hb, Hm. set (buf := (Some <$> es) ++ replicate k None) in *.
  assert (Hbl : length buf = (length es + S (k - 1))%nat).
  { subst buf. rewrite length_app, length_fmap, length_replicate. lia. }
  assert (Hstep : ∀ m, gate_step buf phv (0 + Z.of_nat (length es)) m = Fault WildPointer).
  { intros m. unfold gate_step, rd. rewrite (proj2 (Z.leb_le 0 _)), Z.add_0_l, Nat2Z.id by lia. subst buf.
    rewrite lookup_app_r by (rewrite length_fmap; lia). rewrite length_fmap, Nat.sub_diag.
    by rewrite (lookup_replicate_2 k None 0) by lia. }
  unfold for_lt, zlen in *. rewrite Hbl. rewrite Z.sub_0_r, Nat2Z.id in *.
  rewrite for_up_app, Hrun. cbn [mbind res_mbind for_up]. by rewrite Hstep.
Qed.

Lemma gateway_reads_past_end_witness :
  gateway_execute (H := x86) (insert_exps [demo_exp LT 3 4; demo_exp EQ 3 4; demo_exp GT 9 1]
    (Gateway_init (H := x86))) (PHV_init (H := x86)) = Fault WildPointer.
Proof.
  apply (gateway_reads_past_end (H := x86) _ [demo_exp LT 3 4; demo_exp EQ 3 4; demo_exp GT 9 1]
    [true; false; true]).
  - reflexivity.
  - reflexivity.
  - cbn. lia.
  - cbn. lia.
  - repeat constructor.
Defined.

(** The operands a gateway compares: a field of up to 32 bits inside the packet
    buffer has the value of its bits, whatever its alignment; a constant of up to
    32 bits has its value; the validity and hit flags are 0 or 1, and the miss
    flag, the complement of the hit flag as an [int], is never 0 nor 1. *)
Lemma gate_operands `{Target} phv :
  phv_wf phv →
  (∀ f, f.(fd_type) = FIELD → 0 ≤ f.(hdr_id) < 32 → 0 ≤ f.(internal_offset) → 1 ≤ f.(fd_len) ≤ 32 →
     let begin := (at_ phv.(parsed_headers) f.(hdr_id)).(hdr_offset) + f.(internal_offset) in
     begin + f.(fd_len) ≤ 8 * (FRONT_HEADER_LEN + META_LEN) →
     gate_value (GFIELD f) phv = Ok (field_val phv.(packet) begin f.(fd_len))) ∧
  (∀ d, bytes d.(val) → 0 ≤ d.(data_len) ≤ 32 → zlen d.(val) = ceil8 d.(data_len) →
     gate_value (GCONSTANT d) phv = Ok (be_val d.(val))) ∧
  (∀ f, f.(fd_type) = VALID → 0 ≤ f.(hdr_id) < 32 →
     ∃ v, gate_value (GFIELD f) phv = Ok v ∧ (v = 0 ∨ v = 1)) ∧
  (∀ f, f.(fd_type) = HIT → gate_value (GFIELD f) phv = Ok (if phv.(hit) then 1 else 0)) ∧
  (∀ f, f.(fd_type) = MISS →
     gate_value (GFIELD f) phv = Ok (if phv.(hit) then 4294967294 else 4294967295)).
Proof.
  intros Hwf. split; [|split; [|split; [|split]]].
  - intros f Hty Hid Hio Hfl begin Hend. pose proof (wf_headers_len _ Hwf).
    assert (Hhi : header_of phv (hdr_id f) = Ok (at_ (parsed_headers phv) (hdr_id f))) by (apply rd_at; lia).
    pose proof (header_wf_of _ _ _ Hwf Hhi) as [? _].
    apply (gate_field_val phv f _ Hhi (wf_packet _ Hwf) Hty); [lia..|]. rewrite (wf_packet_len _ Hwf). lia.
  - intros d Hb Hl Hn. by apply gate_const_val.
  - intros f Hty Hid. unfold gate_value. rewrite Hty. pose proof (wf_valid_len _ Hwf).
    exists (at_ (valid_bitmap phv) (hdr_id f)). split; [apply rd_at; lia|].
    destruct (lookup_lt_is_Some_2 (valid_bitmap phv) (Z.to_nat (hdr_id f))) as [v Hv]; [unfold zlen in *; lia|].
    unfold at_. rewrite (list_lookup_total_correct _ _ _ Hv).
    apply (Forall_lookup_1 _ _ _ _ (wf_valid _ Hwf) Hv).
  - intros f Hty. unfold gate_value. rewrite Hty. by destruct (hit phv).
  - intros f Hty. unfold gate_value. rewrite Hty. by destruct (hit phv).
Qed.

Lemma gate_operands_witness :
  gate_value (H := x86) (GFIELD (mkFieldInfo 0 0 1 MISS)) (PHV_init (H := x86)) = Ok 4294967295.
Proof.
  apply (proj2 (proj2 (proj2 (proj2 (gate_operands (H := x86) (PHV_init (H := x86))
    (PHV_init_wf (H := x86)))))) (mkFieldInfo 0 0 1 MISS)). reflexivity.
Defined.
