(* ===== verification/Matcher.v ===== *)
(** * The matcher of a processor (matcher_c.h)

    The match tables of the processors of a cluster share the SRAM and TCAM
    blocks of the cluster.  A matcher thread holds one table: the blocks that make
    up its rows, the fields its key is built from, and what to do on a miss.  An
    exact table stores the row of a key at the index the sum of the bytes of the
    key selects. *)

From stdpp Require Import base numbers list gmap.
From Stdlib Require Import ZArith Lia.
From S2P Require Import Prelude Bits Phv.

#[local] Open Scope Z_scope.

(** ** The memory (the [srams] and [tcams] of global.h)

    The bytes of a block are a finite map, zero where nothing was stored. A
    pointer to a block is its number. *)
Abbreviation tbl := (gmap Z Z) (only parsing).

Record Mem : Type := mkMem {
  srams : list tbl;
  tcam_tbls : list tbl;
  tcam_masks : list tbl
}.

Definition SRAM_BYTES : Z := PHYSICAL_SRAM_CAPACITY / 8.
Definition TCAM_BYTES : Z := PHYSICAL_TCAM_CAPACITY / 8.

Definition tget (t : tbl) (i : Z) : Z := default 0 (t !! i).

(** [init_mem]. *)
Definition init_mem : Mem := mkMem
  (replicate (Z.to_nat SRAM_NUM_ALL) ∅)
  (replicate (Z.to_nat TCAM_NUM_ALL) ∅) (replicate (Z.to_nat TCAM_NUM_ALL) ∅).

Definition set_srams (s : list tbl) (m : Mem) : Mem := mkMem s m.(tcam_tbls) m.(tcam_masks).
Definition set_tcams (t k : list tbl) (m : Mem) : Mem := mkMem m.(srams) t k.

(** [memcpy] into a block of [cap] bytes and out of one. *)
Definition tbl_store (cap : Z) (t : tbl) (pos : Z) (src : list Z) (spos n : Z) : res tbl :=
  if n <? 0 then Fault BadLength
  else for_lt 0 n (λ k t,
    x ← rd src (spos + k);
    if (0 <=? pos + k) && (pos + k <? cap) then Ok (<[pos + k := x]> t) else Fault OutOfBounds) t.

Definition tbl_load (cap : Z) (dst : list Z) (dpos : Z) (t : tbl) (pos n : Z) : res (list Z) :=
  if n <? 0 then Fault BadLength
  else for_lt 0 n (λ k dst,
    if (0 <=? pos + k) && (pos + k <? cap) then wr dst (dpos + k) (tget t (pos + k))
    else Fault OutOfBounds) dst.

(** [memset(tbl, 0, n)]. *)
Definition tbl_clear (n : Z) (t : tbl) : tbl := filter (λ kv, n ≤ kv.1) t.

(** ** Matcher threads *)
Inductive MatchType : Set := EXACT | TERNARY | LPM.
#[export] Instance MatchType_eq_dec : EqDecision MatchType.
Proof. solve_decision. Defined.

Record KeyInfo : Set := mkKeyInfo {
  tail_offset : Z;
  field : list Z;
  byte_len : Z;
  field_len : Z
}.

(** The unions [key_config], [key_width] and [depth] are one array of 20 bytes and
    two integers; a pointer [sram[i]] is null or the number of a block. *)
Record MatcherThread : Type := mkThread {
  sram : list (option Z);
  tcam : list (option Z);
  action_proc_map : gmap Z Z;
  no_table : bool;
  key_config : list Z;
  sram_value_config : list Z;
  key_width : Z;
  sram_slice_value_width : Z;
  depth : Z;
  mt_proc_id : Z;
  match_type : MatchType;
  fdInfos : list FieldInfo;
  tcam_idx : Z;
  miss_act_id : Z
}.

Definition sram_ptrs (ready : bool) (proc_id : Z) : list (option Z) :=
  (λ i, if ready then Some (Z.quot proc_id PROC_NUM_PER_CLUSTER * SRAM_IDX_BASE + Z.of_nat i) else None)
    <$> seq 0 (Z.to_nat SRAM_NUM_PER_CLUSTER).
Definition tcam_ptrs (ready : bool) (proc_id : Z) : list (option Z) :=
  (λ i, if ready then Some (Z.quot proc_id PROC_NUM_PER_CLUSTER * TCAM_IDX_BASE + Z.of_nat i) else None)
    <$> seq 0 (Z.to_nat TCAM_NUM_PER_CLUSTER).

(** The constructor copies the pointers of the global memory, which are null until
    [init_mem] runs; it does not initialise the two configuration arrays. *)
Definition MatcherThread_init `{Target} (mem_ready : bool) (_proc_id : Z) : MatcherThread := {|
  sram := sram_ptrs mem_ready _proc_id; tcam := tcam_ptrs mem_ready _proc_id;
  action_proc_map := ∅; no_table := true;
  key_config := (λ i, u8 (junk i)) <$> seq 0 (Z.to_nat SRAM_NUM_PER_CLUSTER);
  sram_value_config := (λ i, u8 (junk (20 + i))) <$> seq 0 (Z.to_nat SRAM_NUM_PER_CLUSTER);
  key_width := 0; sram_slice_value_width := 0; depth := 0;
  mt_proc_id := _proc_id; match_type := EXACT; fdInfos := []; tcam_idx := 0; miss_act_id := -1
|}.

(** Copies with one group of members changed. *)
Definition with_tables (sr tc : list (option Z)) (kc vc : list Z) (kw vw d : Z) (nt : bool)
    (th : MatcherThread) : MatcherThread :=
  mkThread sr tc th.(action_proc_map) nt kc vc kw vw d th.(mt_proc_id) th.(match_type)
    th.(fdInfos) th.(tcam_idx) th.(miss_act_id).
Definition with_misc (apm : gmap Z Z) (nt : bool) (mt : MatchType) (fds : list FieldInfo)
    (ti miss : Z) (th : MatcherThread) : MatcherThread :=
  mkThread th.(sram) th.(tcam) apm nt th.(key_config) th.(sram_value_config) th.(key_width)
    th.(sram_slice_value_width) th.(depth) th.(mt_proc_id) mt fds ti miss.

(** ** Configuration *)
Definition set_action_proc_map (m : list (Z * Z)) (th : MatcherThread) : MatcherThread :=
  with_misc (fold_left (λ acc kv, <[kv.1 := kv.2]> acc) m th.(action_proc_map)) th.(no_table)
    th.(match_type) th.(fdInfos) th.(tcam_idx) th.(miss_act_id) th.

Definition init_match_type (mt : MatchType) (th : MatcherThread) : MatcherThread :=
  with_misc th.(action_proc_map) th.(no_table) mt th.(fdInfos) th.(tcam_idx) th.(miss_act_id) th.

Definition set_no_table (b : bool) (th : MatcherThread) : MatcherThread :=
  with_misc th.(action_proc_map) b th.(match_type) th.(fdInfos) th.(tcam_idx) th.(miss_act_id) th.

Definition set_miss_act_id (i : Z) (th : MatcherThread) : MatcherThread :=
  with_misc th.(action_proc_map) th.(no_table) th.(match_type) th.(fdInfos) th.(tcam_idx) i th.

Definition set_field_info (fds : list FieldInfo) (th : MatcherThread) : MatcherThread :=
  with_misc th.(action_proc_map) th.(no_table) th.(match_type) fds th.(tcam_idx) th.(miss_act_id) th.

(** [sram[c]] and [tcam[c]] followed to the block. *)
Definition ptr_at (ptrs : list (option Z)) (c : Z) : res Z :=
  p ← rd ptrs c;
  match p with None => Fault NullDeref | Some g => Ok g end.

(** The indices of the array [tcam_key_config], 16 of the 20 bytes of the union. *)
Definition tcam_config_bound (i : Z) : res unit :=
  if i <? TCAM_NUM_PER_CLUSTER then Ok tt else Fault OutOfBounds.

(** A pass that clears the first [n] bytes of the blocks a configuration names. *)
Definition clear_blocks (ptrs : list (option Z)) (bound : Z → res unit) (cfg : list Z) (count n : Z)
    (blocks : list tbl) : res (list tbl) :=
  for_lt 0 count (λ i blocks,
    _ ← bound i;
    c ← rd cfg i;
    g ← ptr_at ptrs c;
    t ← rd blocks g;
    wr blocks g (tbl_clear n t)) blocks.

Definition any_index (_ : Z) : res unit := Ok tt.

Definition memset0 (l : list Z) (n : Z) : list Z := replicate (Z.to_nat n) 0 ++ drop (Z.to_nat n) l.

(** [clear_old_config]. *)
Definition clear_old_config (st : Mem * MatcherThread) : res (Mem * MatcherThread) :=
  let '(m, th) := st in
  let th := with_misc ∅ true th.(match_type) [] th.(tcam_idx) (-1) th in
  if decide (th.(match_type) = EXACT) then
    s ← clear_blocks th.(sram) any_index th.(key_config) (th.(key_width) * th.(depth)) SRAM_BYTES m.(srams);
    s ← clear_blocks th.(sram) any_index th.(sram_value_config)
          (th.(sram_slice_value_width) * th.(depth)) SRAM_BYTES s;
    mret (set_srams s m,
      with_tables th.(sram) th.(tcam) (memset0 th.(key_config) SRAM_NUM_PER_CLUSTER)
        (memset0 th.(sram_value_config) SRAM_NUM_PER_CLUSTER) 0 0 0 true th)
  else
    t ← clear_blocks th.(tcam) tcam_config_bound th.(key_config) (th.(key_width) * th.(depth))
          TCAM_BYTES m.(tcam_tbls);
    k ← clear_blocks th.(tcam) tcam_config_bound th.(key_config) (th.(key_width) * th.(depth))
          TCAM_BYTES m.(tcam_masks);
    s ← clear_blocks th.(sram) any_index th.(sram_value_config)
          (th.(sram_slice_value_width) * th.(depth)) TCAM_BYTES m.(srams);
    let th := with_tables th.(sram) th.(tcam) (memset0 th.(key_config) TCAM_NUM_PER_CLUSTER)
                (memset0 th.(sram_value_config) TCAM_NUM_PER_CLUSTER) 0 0 0 true th in
    mret (set_srams s (set_tcams t k m),
      with_misc th.(action_proc_map) true th.(match_type) th.(fdInfos) 0 th.(miss_act_id) th).

(** The bytes of a configuration copied into the thread. *)
Definition copy_config (bound : Z → res unit) (count : Z) (src dst : list Z) : res (list Z) :=
  for_lt 0 count (λ i dst, _ ← bound i; x ← rd src i; wr dst i x) dst.

(** [MatcherThread::set_mem_config]; the global memory exists when it runs. *)
Definition thread_set_mem_config (_key_width _value_width _depth : Z) (_key_config _value_config : list Z)
    (th : MatcherThread) : res MatcherThread :=
  if decide (th.(match_type) = EXACT) then
    kc ← copy_config any_index (_key_width * _depth) _key_config th.(key_config);
    vc ← copy_config any_index (_value_width * _depth) _value_config th.(sram_value_config);
    mret (with_tables (sram_ptrs true th.(mt_proc_id)) th.(tcam) kc vc _key_width _value_width _depth false th)
  else
    kc ← copy_config tcam_config_bound (_key_width * _depth) _key_config th.(key_config);
    vc ← copy_config any_index (_value_width * _depth) _value_config th.(sram_value_config);
    mret (with_tables (sram_ptrs true th.(mt_proc_id)) (tcam_ptrs true th.(mt_proc_id)) kc vc
            _key_width _value_width _depth false th).

(** ** Entries *)

(** The 16-bit sum of the first [n] bytes of a key. *)
Definition key_sum (key : list Z) (n : Z) : res Z :=
  for_lt 0 n (λ i s, k ← rd key i; mret (u16 (s + k))) 0.

Definition slice_of (sum depth : Z) : res Z :=
  if depth =? 0 then Fault DivByZero else Ok (Z.rem sum depth).

(** The blocks of one slice, [cfg[slice + depth * i]] for the [width] columns. *)
Definition block_seq (bound : Z → res unit) (cfg : list Z) (width slice depth : Z) : res (list Z) :=
  if width <? 0 then Fault BadLength
  else for_lt 0 width (λ i l, _ ← bound (slice + depth * i); c ← rd cfg (slice + depth * i); mret (l ++ [c])) [].

(** The bytes of column [i] of a row: at most [w], what is left of [len]. *)
Definition col_len (w len i : Z) : Z := if w <=? len - i * w then w else len - i * w.

(** A row of bytes stored in, and loaded from, the blocks of a slice. *)
Definition store_row (ptrs : list (option Z)) (cap w : Z) (seq : list Z) (idx : Z) (src : list Z) (len : Z)
    (blocks : list tbl) : res (list tbl) :=
  for_lt 0 (zlen seq) (λ i blocks,
    c ← rd seq i;
    g ← ptr_at ptrs c;
    t ← rd blocks g;
    t ← tbl_store cap t (idx * w) src (i * w) (col_len w len i);
    wr blocks g t) blocks.

Definition load_row (ptrs : list (option Z)) (cap w : Z) (seq : list Z) (idx : Z) (blocks : list tbl)
    (out : list Z) : res (list Z) :=
  for_lt 0 (zlen seq) (λ i out,
    c ← rd seq i;
    g ← ptr_at ptrs c;
    t ← rd blocks g;
    tbl_load cap out (i * w) t (idx * w) w) out.

Definition SRAM_ROW : Z := SRAM_WIDTH / 8.
Definition TCAM_ROW : Z := TCAM_WIDTH / 8.

(** [insert_sram_entry]. *)
Definition insert_sram_entry (key value : list Z) (key_byte_len value_byte_len : Z)
    (st : Mem * MatcherThread) : res (Mem * MatcherThread) :=
  let '(m, th) := st in
  sum ← key_sum key key_byte_len;
  slice ← slice_of sum th.(depth);
  let idx := Z.rem sum (2 ^ SRAM_DEPTH) in
  kseq ← block_seq any_index th.(key_config) th.(key_width) slice th.(depth);
  vseq ← block_seq any_index th.(sram_value_config) th.(sram_slice_value_width) slice th.(depth);
  s ← store_row th.(sram) SRAM_BYTES SRAM_ROW kseq idx key key_byte_len m.(srams);
  s ← store_row th.(sram) SRAM_BYTES SRAM_ROW vseq idx value value_byte_len s;
  mret (set_srams s m, th).

(** [insert_tcam_entry]; the key and the mask of a column are stored one after the
    other. *)
Definition insert_tcam_entry (key mask value : list Z) (key_byte_len value_byte_len : Z)
    (st : Mem * MatcherThread) : res (Mem * MatcherThread) :=
  let '(m, th) := st in
  sum ← key_sum key key_byte_len;
  slice ← slice_of sum th.(depth);
  let idx := th.(tcam_idx) in
  kseq ← block_seq tcam_config_bound th.(key_config) th.(key_width) slice th.(depth);
  vseq ← block_seq any_index th.(sram_value_config) th.(sram_slice_value_width) slice th.(depth);
  t ← store_row th.(tcam) TCAM_BYTES TCAM_ROW kseq idx key key_byte_len m.(tcam_tbls);
  k ← store_row th.(tcam) TCAM_BYTES TCAM_ROW kseq idx mask key_byte_len m.(tcam_masks);
  s ← store_row th.(sram) SRAM_BYTES SRAM_ROW vseq idx value value_byte_len m.(srams);
  mret (set_srams s (set_tcams t k m),
    with_misc th.(action_proc_map) th.(no_table) th.(match_type) th.(fdInfos) (th.(tcam_idx) + 1)
      th.(miss_act_id) th).

(** ** Building the key of a packet *)

(** The loop of [get_field] over the bytes but the last. *)
Definition get_field_loop (pkt : list Z) (begin_byte left_empty byte_len : Z) (fd : list Z) : res (list Z) :=
  for_lt 0 (byte_len - 1) (λ i fd,
    a ← rd pkt (begin_byte + i);
    b ← rd pkt (begin_byte + i + 1);
    wr fd i (u8 (Z.shiftl a left_empty + Z.shiftr b (8 - left_empty)))) fd.

(** [get_field]: the field at the left of its bytes. *)
Definition get_field `{Target} (fd : FieldInfo) (phv : PHV) : res KeyInfo :=
  if decide (fd.(fd_type) = VALID) then
    v ← rd phv.(valid_bitmap) fd.(hdr_id);
    mret (mkKeyInfo 7 [u8 (Z.shiftl v 7)] 1 1)
  else
    hi ← header_of phv fd.(hdr_id);
    let begin_idx := hi.(hdr_offset) + fd.(internal_offset) in
    let end_idx := begin_idx + fd.(fd_len) - 1 in
    let begin_byte := begin_idx / 8 in
    let left_empty := begin_idx mod 8 in
    let right_empty := if (end_idx + 1) mod 8 =? 0 then 0 else 8 - (end_idx + 1) mod 8 in
    let blen := ceil8 fd.(fd_len) in
    fld ← fresh blen;
    a ← rd phv.(packet) (begin_byte + blen - 1);
    fld ← (if 8 <=? left_empty + right_empty then
             b ← rd phv.(packet) (begin_byte + blen);
             wr fld (blen - 1) (u8 (Z.shiftl a left_empty + Z.shiftr b (8 - left_empty)))
           else wr fld (blen - 1) (u8 (Z.shiftl a left_empty)));
    fld ← get_field_loop phv.(packet) begin_byte left_empty blen fld;
    let empty_len := if fd.(fd_len) mod 8 =? 0 then 0 else 8 - fd.(fd_len) mod 8 in
    l ← rd fld (blen - 1);
    fld ← wr fld (blen - 1) (u8 (Z.shiftl (Z.shiftr l empty_len) empty_len));
    mret (mkKeyInfo empty_len fld blen fd.(fd_len)).

(** One byte of a field added to the key; the state is the key, the byte it is
    at, and the bits of that byte the code takes to be left. *)
Definition combine_byte (ki : KeyInfo) (i : Z) (st : list Z * Z * Z) : res (list Z * Z * Z) :=
  let '(mk, cur_idx, cur_bit_left) := st in
  f ← rd ki.(field) i;
  m ← rd mk cur_idx;
  mk ← wr mk cur_idx (u8 (m + Z.shiftr f (8 - cur_bit_left)));
  if i <? ki.(byte_len) - 1 then
    mk ← (if cur_bit_left <? 8 then wr mk (cur_idx + 1) (u8 (Z.shiftl f cur_bit_left)) else mret mk);
    mret (mk, cur_idx + 1, cur_bit_left)
  else if ki.(tail_offset) <? cur_bit_left then mret (mk, cur_idx, cur_bit_left - ki.(tail_offset))
  else if cur_bit_left =? ki.(tail_offset) then mret (mk, cur_idx + 1, 8)
  else
    mk ← wr mk (cur_idx + 1) (u8 (Z.shiftl f cur_bit_left));
    mret (mk, cur_idx + 1, 8 - ki.(tail_offset) + cur_bit_left).

(** [combine_to_single_key]. *)
Definition combine_to_single_key (keyInfos : list KeyInfo) (fd_len_sum : Z) : res (list Z) :=
  let len := fd_len_sum / 8 + b2z (0 <? fd_len_sum mod 8) in
  '(mk, _, _) ← for_each (λ ki, for_lt 0 ki.(byte_len) (combine_byte ki)) keyInfos
                  (replicate (Z.to_nat len) 0, 0, 8);
  mret mk.

(** ** Looking a key up *)

(** The comparison of the key with the row, byte by byte until they differ. *)
Fixpoint same_bytes (f : Z → Z → bool) (n : nat) (i : Z) (a b : Z → res Z) : res bool :=
  match n with
  | O => mret true
  | S n' =>
      x ← a i; y ← b i;
      if f x y then same_bytes f n' (i + 1) a b else mret false
  end.

(** The rows of a TCAM in order, up to the first that matches.  The mask of a row is
    copied over its key, and [tmp_mask] is never written. *)
Fixpoint tcam_search (fuel : nat) (i : Z) (ptrs : list (option Z)) (tbls masks : list tbl) (kseq : list Z)
    (byte_len : Z) (match_key tmp_key tmp_mask : list Z) : res (option Z) :=
  match fuel with
  | O => mret None
  | S fuel' =>
      tmp_key ← load_row ptrs TCAM_BYTES TCAM_ROW kseq i tbls tmp_key;
      tmp_key ← load_row ptrs TCAM_BYTES TCAM_ROW kseq i masks tmp_key;
      eq ← same_bytes Z.eqb (Z.to_nat byte_len) 0
             (λ k, x ← rd match_key k; m ← rd tmp_mask k; mret (Z.land x m)) (rd tmp_key);
      if (eq : bool) then mret (Some i)
      else tcam_search fuel' (i + 1) ptrs tbls masks kseq byte_len match_key tmp_key tmp_mask
  end.

(** [get_match_res]: the key and the value found and the hit flag; [hit] is only
    written by a TCAM when a row matches. *)
Definition get_match_res `{Target} (m : Mem) (th : MatcherThread) (match_key : list Z) (key_len : Z)
    (out_key out_value : list Z) (hit : Z) : res (list Z * list Z * Z) :=
  let byte_len := key_len / 8 + b2z (0 <? key_len mod 8) in
  sum ← key_sum match_key byte_len;
  if decide (th.(match_type) = EXACT) then
    base ← slice_of sum th.(depth);
    kseq ← block_seq any_index th.(key_config) th.(key_width) base th.(depth);
    vseq ← block_seq any_index th.(sram_value_config) th.(sram_slice_value_width) base th.(depth);
    let idx := Z.rem sum (2 ^ SRAM_DEPTH) in
    out_key ← load_row th.(sram) SRAM_BYTES SRAM_ROW kseq idx m.(srams) out_key;
    out_value ← load_row th.(sram) SRAM_BYTES SRAM_ROW vseq idx m.(srams) out_value;
    eq ← same_bytes Z.eqb (Z.to_nat byte_len) 0 (rd match_key) (rd out_key);
    mret (out_key, out_value, b2z eq)
  else
    base ← slice_of sum th.(depth);
    kseq ← block_seq tcam_config_bound th.(key_config) th.(key_width) base th.(depth);
    vseq ← block_seq any_index th.(sram_value_config) th.(sram_slice_value_width) base th.(depth);
    tmp_key ← fresh (th.(key_width) * TCAM_ROW);
    tmp_mask ← fresh (th.(key_width) * TCAM_ROW);
    o ← tcam_search (Z.to_nat (2 ^ TCAM_DEPTH)) 0 th.(tcam) m.(tcam_tbls) m.(tcam_masks) kseq byte_len
          match_key tmp_key tmp_mask;
    match o with
    | None => mret (out_key, out_value, hit)
    | Some i =>
        out_key ← load_row th.(tcam) TCAM_BYTES TCAM_ROW kseq i m.(tcam_tbls) out_key;
        out_value ← load_row th.(sram) SRAM_BYTES SRAM_ROW vseq i m.(srams) out_value;
        mret (out_key, out_value, 1)
    end.

(** [generate_match_key_and_match]. *)
Definition generate_match_key_and_match `{Target} (m : Mem) (th : MatcherThread) (phv : PHV) : res PHV :=
  '(kis, fd_len_sum) ← for_each (λ fi '(kis, sum),
    ki ← get_field fi phv;
    mret (kis ++ [ki], u16 (sum + fi.(fd_len)))) th.(fdInfos) ([], 0);
  match_key ← combine_to_single_key kis fd_len_sum;
  let key_byte_len := if decide (th.(match_type) = EXACT) then th.(key_width) * SRAM_ROW
                      else th.(key_width) * TCAM_ROW in
  let value_byte_len := th.(sram_slice_value_width) * SRAM_ROW in
  out_key ← fresh key_byte_len;
  out_value ← fresh value_byte_len;
  '(_, out_value, hit) ← get_match_res m th match_key fd_len_sum out_key out_value 0;
  if hit =? 1 then
    v1 ← rd out_value 1;
    v0 ← rd out_value 0;
    mret (set_next_action_id (v1 + Z.shiftl v0 8)
      (set_match_value_len value_byte_len (set_match_value (Some out_value) (set_hit true phv))))
  else mret (set_next_action_id th.(miss_act_id) (set_hit false phv)).

(** ** The matcher of a processor *)
Record Matcher : Type := mkMatcher { mts : list MatcherThread; matcher_proc_id : Z }.

Definition Matcher_init `{Target} (mem_ready : bool) (_proc_id : Z) : Matcher :=
  mkMatcher (replicate (Z.to_nat MATCHER_THREAD_NUM) (MatcherThread_init mem_ready _proc_id)) _proc_id.

(** [mts[id]->...] for an operation on the thread, and on the thread and the memory. *)
Definition on_thread (id : Z) (f : MatcherThread → MatcherThread) (mt : Matcher) : res Matcher :=
  th ← rd mt.(mts) id;
  l ← wr mt.(mts) id (f th);
  mret (mkMatcher l mt.(matcher_proc_id)).

Definition on_thread_mem (id : Z) (f : Mem * MatcherThread → res (Mem * MatcherThread))
    (st : Mem * Matcher) : res (Mem * Matcher) :=
  let '(m, mt) := st in
  th ← rd mt.(mts) id;
  '(m, th) ← f (m, th);
  l ← wr mt.(mts) id th;
  mret (m, mkMatcher l mt.(matcher_proc_id)).

Definition matcher_set_fd_info (id : Z) (fds : list FieldInfo) : Matcher → res Matcher :=
  on_thread id (set_field_info fds).

Definition matcher_insert_sram_entry (id : Z) (key value : list Z) (klen vlen : Z) :=
  on_thread_mem id (insert_sram_entry key value klen vlen).

Definition matcher_insert_tcam_entry (id : Z) (key mask value : list Z) (klen vlen : Z) :=
  on_thread_mem id (insert_tcam_entry key mask value klen vlen).

(** [Matcher::set_mem_config]. *)
Definition matcher_set_mem_config (id : Z) (mt : MatchType) (kw vw d : Z) (kc vc : list Z) :=
  on_thread_mem id (λ st,
    '(m, th) ← clear_old_config st;
    th ← thread_set_mem_config kw vw d kc vc (init_match_type mt th);
    mret (m, th)).

(** [Matcher::execute]. *)
Definition matcher_execute `{Target} (id : Z) (m : Mem) (mt : Matcher) (phv : PHV) : res PHV :=
  th ← rd mt.(mts) id;
  if th.(no_table) then mret (set_next_action_id th.(miss_act_id) (set_hit false phv))
  else generate_match_key_and_match m th phv.

(** ** The fields of a key *)

Lemma pair_bits p j l o :
  bytes p → 0 ≤ l < 8 → 0 ≤ o < 8 →
  Z.testbit (u8 (Z.shiftl (at_ p j) l + Z.shiftr (at_ p (j + 1)) (8 - l))) (7 - o) = bit_at p (8 * j + l + o).
Proof.
  intros Hp Hl Ho. rewrite Z.shiftl_mul_pow2, Z.shiftr_div_pow2 by lia.
  set (x := at_ p (j + 1) / _). assert (u8 (at_ p j * 2 ^ l + x) = u8 (u8 (at_ p j * 2 ^ l) + x)) as ->
    by (unfold u8; dlia). subst x.
  rewrite shl_pair_bits by (try lia; by apply bytes_at). unfold bit_at.
  destruct (Z.ltb_spec (o + l) 8); (f_equal; [f_equal|]; dlia).
Qed.

Lemma shl_bits p j l o :
  0 ≤ l < 8 → 0 ≤ o → o + l < 8 →
  Z.testbit (u8 (Z.shiftl (at_ p j) l)) (7 - o) = bit_at p (8 * j + l + o).
Proof.
  intros Hl Ho Hol. unfold u8. change 256 with (2 ^ 8). rewrite Z.mod_pow2_bits_low, Z.shiftl_spec by lia.
  unfold bit_at. f_equal; [f_equal|]; dlia.
Qed.

Lemma get_field_loop_spec p bb l n fd :
  bytes p → 0 ≤ bb → 0 ≤ l < 8 → zlen fd = n → 1 ≤ n → bb + n ≤ zlen p →
  ∃ fd', get_field_loop p bb l n fd = Ok fd' ∧ zlen fd' = n ∧ at_ fd' (n - 1) = at_ fd (n - 1) ∧
    ∀ i, 0 ≤ i < n - 1 → at_ fd' i = u8 (Z.shiftl (at_ p (bb + i)) l + Z.shiftr (at_ p (bb + i + 1)) (8 - l)).
Proof.
  intros Hp Hbb Hl Hfd Hn Hend. unfold get_field_loop.
  edestruct (for_lt_inv (λ i f, zlen f = n ∧ at_ f (n - 1) = at_ fd (n - 1) ∧ ∀ j, 0 ≤ j < i →
      at_ f j = u8 (Z.shiftl (at_ p (bb + j)) l + Z.shiftr (at_ p (bb + j + 1)) (8 - l))) 0 (n - 1))
    as (f & Hrun & Hf); [lia| | |exists f; by rewrite Hrun].
  - split; [done|]. split; [done|]. lia.
  - intros i f Hi (Hfl & Hlast & Hf). rewrite (rd_at p (bb + i)), (rd_at p (bb + i + 1)) by lia.
    cbn [mbind res_mbind]. rewrite wr_ok by lia. eexists; split; [done|]. rewrite zlen_insert.
    split; [done|]. split; [rewrite at_insert_ne by lia; done|]. intros j Hj.
    rewrite at_insert by lia. destruct (Z.eqb_spec i j) as [<-|]; [done|]. apply Hf. lia.
Qed.

(** A key field holds the bits of the packet field at the left of its bytes, the
    bits past the field cleared. *)
Lemma get_field_key `{Target} fd phv hi :
  header_of phv fd.(hdr_id) = Ok hi → bytes phv.(packet) → fd.(fd_type) ≠ VALID →
  0 ≤ hi.(hdr_offset) → 0 ≤ fd.(internal_offset) → 1 ≤ fd.(fd_len) →
  let b := hi.(hdr_offset) + fd.(internal_offset) in
  let n := ceil8 fd.(fd_len) in
  b + fd.(fd_len) ≤ 8 * zlen phv.(packet) →
  ∃ f, get_field fd phv = Ok (mkKeyInfo (8 * n - fd.(fd_len)) f n fd.(fd_len)) ∧ bytes f ∧
    zlen f = n ∧ be_val f = field_val phv.(packet) b fd.(fd_len) * 2 ^ (8 * n - fd.(fd_len)).
Proof.
  intros Hhi Hp Hty Hho Hio Hfl b n Hend. unfold get_field. rewrite decide_False by done.
  rewrite Hhi. cbn [mbind res_mbind]. fold b. set (L := fd_len fd) in *. fold n.
  set (p := packet phv) in *. set (bb := b / 8). set (l := b mod 8).
  assert (He : (if L mod 8 =? 0 then 0 else 8 - L mod 8) = 8 * n - L) by (subst n; unfold ceil8; zcmp; dlia).
  rewrite He. set (e := 8 * n - L) in *.
  assert (Hgeo : b = 8 * bb + l ∧ 0 ≤ l < 8 ∧ 1 ≤ n ∧ 0 ≤ e < 8 ∧ bb + n ≤ zlen p ∧ 0 ≤ bb)
    by (subst bb l n e; unfold ceil8; dlia).
  replace (b + L - 1 + 1) with (b + L) by lia.
  set (re := if (b + L) mod 8 =? 0 then 0 else 8 - (b + L) mod 8).
  assert (Hre : (8 <= l + re → bb + n < zlen p) ∧ (l + re < 8 → l + (8 - e) ≤ 8)).
  { subst re. unfold ceil8 in *. split; zcmp; subst bb l n e; unfold ceil8 in *; dlia. }
  destruct (fresh_ok n) as (f0 & -> & Hf0 & _); [lia|]. cbn [mbind res_mbind].
  rewrite (rd_at p (bb + n - 1)) by lia. cbn [mbind res_mbind].
  assert (Hlast : ∃ f1 x, (if 8 <=? l + re then
       b1 ← rd p (bb + n); wr f0 (n - 1) (u8 (Z.shiftl (at_ p (bb + n - 1)) l + Z.shiftr b1 (8 - l)))
     else wr f0 (n - 1) (u8 (Z.shiftl (at_ p (bb + n - 1)) l))) = Ok f1 ∧ zlen f1 = n ∧
     at_ f1 (n - 1) = x ∧ 0 ≤ x < 256 ∧
     ∀ o, 0 ≤ o < 8 - e → Z.testbit x (7 - o) = bit_at p (b + 8 * (n - 1) + o)).
  { set (j := bb + n - 1) in *. replace (bb + n) with (j + 1) by lia.
    destruct (Z.leb_spec 8 (l + re)).
    - rewrite (rd_at p) by lia. cbn [mbind res_mbind]. rewrite wr_ok by lia. do 2 eexists. split; [done|].
      rewrite zlen_insert. split; [done|]. rewrite at_insert_eq by lia. split; [done|].
      split; [apply u8_range|]. intros o Ho. rewrite pair_bits by (done || lia). f_equal. lia.
    - rewrite wr_ok by lia. do 2 eexists. split; [done|]. rewrite zlen_insert. split; [done|].
      rewrite at_insert_eq by lia. split; [done|]. split; [apply u8_range|]. intros o Ho.
      rewrite shl_bits by lia. f_equal. lia. }
  destruct Hlast as (f1 & x & -> & Hf1 & Hx & Hxr & Hxb). cbn [mbind res_mbind].
  destruct (get_field_loop_spec p bb l n f1) as (f2 & -> & Hf2 & Hf2l & Hf2i); [done|lia..|].
  cbn [mbind res_mbind]. rewrite rd_at by lia. cbn [mbind res_mbind]. rewrite wr_ok by lia.
  cbn [mbind res_mbind]. eexists; split; [done|]. set (f3 := <[_ := _]> f2).
  pose proof (field_val_range p b L ltac:(lia)). set (F := field_val p b L) in *.
  assert (Hdig : ∀ i, 0 ≤ i < n → at_ f3 i = digit (F * 2 ^ e) n i).
  { intros i Hi. subst f3. rewrite at_insert by lia. rewrite Hf2l, Hx. apply byte_ext.
    - destruct (Z.eqb_spec (n - 1) i); [apply u8_range|]. rewrite Hf2i by lia. apply u8_range.
    - apply digit_range.
    - intros o Ho. rewrite digit_testbit, Z.mul_pow2_bits by lia. subst F.
      rewrite field_val_testbit by lia.
      replace (b + L - 1 - (8 * n - 1 - (8 * i + o) - e)) with (b + 8 * i + o) by lia.
      destruct (Z.eqb_spec (n - 1) i) as [<-|].
      + rewrite mask_right_bits by lia. destruct (Z.ltb_spec o (8 - e)).
        * rewrite Hxb by lia. cbn [andb]. zcmp.
        * cbn [andb]. zcmp.
      + rewrite Hf2i by lia. rewrite pair_bits by (done || lia).
        replace (8 * (bb + i) + l + o) with (b + 8 * i + o) by lia. zcmp. }
  assert (Hf3 : zlen f3 = n) by (subst f3; by rewrite zlen_insert). clearbody f3.
  split; [|split; [done|]].
  - apply bytes_of_at. intros i Hi. rewrite Hdig by lia. apply digit_range.
  - apply (digits_val f3 _ n); [done| |done]. assert (0 < 2 ^ e) by (apply Z.pow_pos_nonneg; lia).
    assert (Hpw : 2 ^ L * 2 ^ e = 2 ^ (8 * n)) by (rewrite <- Z.pow_add_r by lia; f_equal; lia).
    nia.
Qed.

(** A key of one field is that field. *)
Lemma combine_single ki L :
  ki.(byte_len) = zlen ki.(field) → ki.(byte_len) = ceil8 L → 1 ≤ L → 0 ≤ ki.(tail_offset) < 8 →
  bytes ki.(field) → combine_to_single_key [ki] L = Ok ki.(field).
Proof.
  intros Hbl HL H1 Ht Hb. unfold combine_to_single_key. set (n := byte_len ki) in *.
  assert (Hn : L / 8 + b2z (0 <? L mod 8) = n) by (rewrite HL; unfold ceil8, b2z; zcmp; dlia).
  rewrite Hn. cbn [for_each]. pose proof (ceil8_bounds L H1) as Hc. fold n in Hc.
  edestruct (for_lt_inv (λ i '(mk, ci, cbl), ci = (if i =? n then n - 1 else i) ∧
      cbl = (if i =? n then 8 - tail_offset ki else 8) ∧ zlen mk = n ∧
      ∀ j, 0 ≤ j < n → at_ mk j = if j <? i then at_ (field ki) j else 0) 0 n)
    as ([[mk ci] cbl] & Hrun & _ & _ & Hmk & Hat); [lia| | |rewrite Hrun; cbn [mbind res_mbind]].
  - rewrite (proj2 (Z.eqb_neq 0 n)) by lia. split; [done|]. split; [done|]. rewrite zlen_replicate.
    split; [lia|]. intros j Hj. rewrite at_replicate by lia. zcmp.
  - intros i [[mk ci] cbl] Hi (-> & -> & Hmk & Hat). rewrite (proj2 (Z.eqb_neq i n)) by lia.
    unfold combine_byte. rewrite (rd_at (field ki)), (rd_at mk) by lia. cbn [mbind res_mbind].
    rewrite wr_ok by lia. cbn [mbind res_mbind]. fold n. change (8 - 8) with 0. rewrite Z.shiftr_0_r.
    rewrite Hat, (Z.ltb_irrefl i), Z.add_0_l by lia. rewrite u8_small by (by apply bytes_at).
    assert (Hout : zlen (<[Z.to_nat i := at_ (field ki) i]> mk) = n ∧ ∀ j, 0 ≤ j < n →
      at_ (<[Z.to_nat i := at_ (field ki) i]> mk) j = if j <? i + 1 then at_ (field ki) j else 0).
    { rewrite zlen_insert. split; [done|]. intros j Hj. rewrite at_insert by lia.
      destruct (Z.eqb_spec i j) as [<-|]; [by rewrite (proj2 (Z.ltb_lt _ _)) by lia|]. rewrite Hat by lia. zcmp. }
    destruct (Z.ltb_spec i (n - 1)); cbn [Z.ltb].
    + change (8 <? 8) with false. cbn [mbind res_mbind]. eexists; split; [done|].
      rewrite (proj2 (Z.eqb_neq (i + 1) n)) by lia. done.
    + rewrite (proj2 (Z.ltb_lt (tail_offset ki) 8)) by lia. eexists; split; [done|].
      rewrite (proj2 (Z.eqb_eq (i + 1) n)) by lia. split; [lia|done].
  - unfold mret, res_mret. f_equal. apply list_eq_at; [lia|]. intros i Hi. rewrite Hat by lia.
    by rewrite (proj2 (Z.ltb_lt _ _)) by lia.
Qed.

(** ** Rows of blocks *)

Definition cell (blocks : list tbl) (g p : Z) : Z :=
  match blocks !! Z.to_nat g with Some t => tget t p | None => 0 end.

(** Nothing was stored yet. *)
Lemma cell_init g p : cell init_mem.(srams) g p = 0.
Proof.
  unfold cell, init_mem. cbn [srams].
  destruct (replicate _ _ !! Z.to_nat g) eqn:E; [|done]. apply lookup_replicate in E as [-> _].
  unfold tget. by rewrite lookup_empty.
Qed.

Lemma tget_insert t i j x : tget (<[i := x]> t) j = if i =? j then x else tget t j.
Proof.
  unfold tget. destruct (Z.eqb_spec i j) as [<-|].
  - by rewrite lookup_insert_eq.
  - by rewrite lookup_insert_ne by done.
Qed.

Lemma tbl_store_spec cap t pos src spos n :
  0 ≤ n → 0 ≤ pos → pos + n ≤ cap → 0 ≤ spos → spos + n ≤ zlen src →
  ∃ t', tbl_store cap t pos src spos n = Ok t' ∧ ∀ i, tget t' i =
    if (pos <=? i) && (i <? pos + n) then at_ src (spos + (i - pos)) else tget t i.
Proof.
  intros Hn Hp Hpn Hs Hsn. unfold tbl_store. rewrite (proj2 (Z.ltb_ge n 0)) by lia.
  edestruct (for_lt_inv (λ k t', ∀ i, tget t' i =
      if (pos <=? i) && (i <? pos + k) then at_ src (spos + (i - pos)) else tget t i) 0 n)
    as (t' & Hrun & Ht'); [lia| | |exists t'; by rewrite Hrun].
  - intros i. zcmp.
  - intros k t1 Hk Ht1. cbn beta. rewrite rd_at by lia. cbn [mbind res_mbind].
    rewrite (proj2 (Z.leb_le 0 _)), (proj2 (Z.ltb_lt (pos + k) cap)) by lia. cbn [andb].
    eexists; split; [done|]. intros i. rewrite tget_insert. destruct (Z.eqb_spec (pos + k) i) as [<-|].
    + zcmp. f_equal. lia.
    + rewrite Ht1. zcmp.
Qed.

Lemma tbl_load_spec cap dst dpos t pos n :
  0 ≤ n → 0 ≤ pos → pos + n ≤ cap → 0 ≤ dpos → dpos + n ≤ zlen dst →
  ∃ d, tbl_load cap dst dpos t pos n = Ok d ∧ zlen d = zlen dst ∧ ∀ i, 0 ≤ i < zlen dst → at_ d i =
    if (dpos <=? i) && (i <? dpos + n) then tget t (pos + (i - dpos)) else at_ dst i.
Proof.
  intros Hn Hp Hpn Hd Hdn. unfold tbl_load. rewrite (proj2 (Z.ltb_ge n 0)) by lia.
  edestruct (for_lt_inv (λ k d, zlen d = zlen dst ∧ ∀ i, 0 ≤ i < zlen dst → at_ d i =
      if (dpos <=? i) && (i <? dpos + k) then tget t (pos + (i - dpos)) else at_ dst i) 0 n)
    as (d & Hrun & Hdd); [lia| | |exists d; by rewrite Hrun].
  - split; [done|]. intros i Hi. zcmp.
  - intros k d Hk [Hl Hat]. cbn beta. rewrite (proj2 (Z.leb_le 0 _)), (proj2 (Z.ltb_lt (pos + k) cap)) by lia.
    cbn [andb]. rewrite wr_ok by lia. eexists; split; [done|]. rewrite zlen_insert. split; [done|].
    intros i Hi. rewrite at_insert by lia. destruct (Z.eqb_spec (dpos + k) i) as [<-|].
    + zcmp. f_equal. lia.
    + rewrite Hat by lia. zcmp.
Qed.

(** The blocks a sequence of configuration bytes leads to: [gs i] for column [i]. *)
Definition seq_ok (ptrs : list (option Z)) (seq : list Z) (gs : Z → Z) (nblocks : Z) : Prop :=
  ∀ i, 0 ≤ i < zlen seq → ptr_at ptrs (at_ seq i) = Ok (gs i) ∧ 0 ≤ gs i < nblocks.

Definition inj_below (gs : Z → Z) (n : Z) : Prop :=
  ∀ i j, 0 ≤ i < n → 0 ≤ j < n → gs i = gs j → i = j.

(** Whether byte [p] of block [g] is byte [k] of row [idx]. *)
Definition is_row_byte (gs : Z → Z) (w idx n g p k : Z) : Prop :=
  0 ≤ k < n * w ∧ g = gs (k / w) ∧ p = idx * w + k mod w.

Lemma cell_insert (blocks : list tbl) g t g' p :
  0 ≤ g < zlen blocks → 0 ≤ g' →
  cell (<[Z.to_nat g := t]> blocks) g' p = if g =? g' then tget t p else cell blocks g' p.
Proof.
  unfold zlen. intros Hg Hg'. unfold cell. destruct (Z.eqb_spec g g') as [<-|].
  - by rewrite list_lookup_insert_eq by lia.
  - by rewrite list_lookup_insert_ne by lia.
Qed.

Lemma rd_cell (blocks : list tbl) g : 0 ≤ g < zlen blocks → ∃ t, rd blocks g = Ok t ∧ ∀ p, cell blocks g p = tget t p.
Proof.
  unfold zlen. intros Hg. destruct (lookup_lt_is_Some_2 blocks (Z.to_nat g)) as [t Ht]; [lia|].
  exists t. unfold rd, cell. by rewrite (proj2 (Z.leb_le 0 g)), Ht by lia.
Qed.

Lemma col_split w k : 0 < w → 0 ≤ k → k = k / w * w + k mod w ∧ 0 ≤ k / w ∧ 0 ≤ k mod w < w.
Proof.
  intros. pose proof (Z.div_mod k w ltac:(lia)). pose proof (Z.mod_pos_bound k w ltac:(lia)).
  pose proof (Z.div_pos k w). lia.
Qed.

Lemma col_index w i j : 0 < w → 0 ≤ i → 0 ≤ j < w → (i * w + j) / w = i ∧ (i * w + j) mod w = j.
Proof.
  intros. rewrite Z.add_comm, Z.div_add, Z.mod_add by lia. rewrite Z.div_small, Z.mod_small by lia. lia.
Qed.

(** [store_row] writes the bytes of [src] into the row and leaves every other byte
    of every block alone. *)
Lemma store_row_spec ptrs cap w seq gs idx src len blocks :
  0 < w → seq_ok ptrs seq gs (zlen blocks) → inj_below gs (zlen seq) →
  0 ≤ idx → (idx + 1) * w ≤ cap → 0 ≤ len ≤ zlen src → (zlen seq - 1) * w ≤ len →
  ∃ blocks', store_row ptrs cap w seq idx src len blocks = Ok blocks' ∧ zlen blocks' = zlen blocks ∧
    (∀ k, 0 ≤ k < zlen seq * w → cell blocks' (gs (k / w)) (idx * w + k mod w) =
       if k <? len then at_ src k else cell blocks (gs (k / w)) (idx * w + k mod w)) ∧
    (∀ g p, 0 ≤ g → (∀ k, ¬ is_row_byte gs w idx (zlen seq) g p k) → cell blocks' g p = cell blocks g p).
Proof.
  intros Hw Hseq Hinj Hidx Hcap Hlen Hcols. unfold store_row. set (n := zlen seq) in *.
  assert (Hn0 : 0 ≤ n) by (subst n; apply zlen_nonneg).
  edestruct (for_lt_inv (λ i b, zlen b = zlen blocks ∧
    (∀ k, 0 ≤ k < n * w → cell b (gs (k / w)) (idx * w + k mod w) =
       if k <? Z.min (i * w) len then at_ src k else cell blocks (gs (k / w)) (idx * w + k mod w)) ∧
    (∀ g p, 0 ≤ g → (∀ k, ¬ is_row_byte gs w idx n g p k) → cell b g p = cell blocks g p)) 0 n)
    as (b & Hrun & Hl & Hb & Ho); [lia| | |exists b; rewrite Hrun; split; [done|]; split; [done|]].
  - split; [done|]. split; [|done]. intros k Hk. rewrite Z.mul_0_l. zcmp.
  - intros i b Hi (Hl & Hb & Ho). destruct (Hseq i ltac:(lia)) as [Hptr Hg].
    rewrite (rd_at seq) by lia. cbn [mbind res_mbind]. rewrite Hptr. cbn [mbind res_mbind].
    destruct (rd_cell b (gs i)) as (t & -> & Ht); [lia|]. cbn [mbind res_mbind].
    assert (Hcl : 0 ≤ col_len w len i ≤ w ∧ i * w + col_len w len i = Z.min ((i + 1) * w) len).
    { unfold col_len. assert (i * w ≤ (n - 1) * w) by nia. zcmp. }
    assert (0 ≤ idx * w ∧ 0 ≤ i * w) by nia.
    destruct (tbl_store_spec cap t (idx * w) src (i * w) (col_len w len i)) as (t' & -> & Ht'); [lia..|].
    cbn [mbind res_mbind]. rewrite wr_ok by lia. eexists; split; [done|]. rewrite zlen_insert.
    split; [done|]. split.
    + intros k Hk. destruct (col_split w k Hw ltac:(lia)) as (Hkd & Hk0 & Hkm).
      assert (Hkn : k / w < n) by nia. destruct (Hseq (k / w) ltac:(lia)) as [_ Hgk].
      rewrite cell_insert by lia. destruct (Z.eqb_spec (gs i) (gs (k / w))) as [He|He].
      * apply Hinj in He; [|lia..]. specialize (Hb k Hk). rewrite <- He in Hb |- *. rewrite Ht in Hb.
        rewrite Ht'. replace (i * w + (idx * w + k mod w - idx * w)) with k by lia.
        rewrite Hb. rewrite <- He in Hkd. zcmp.
      * assert (Hne : i ≠ k / w) by congruence. rewrite Hb by done.
        assert (Hiff : k < i * w ↔ k < (i + 1) * w) by (split; nia). zcmp.
    + intros g p Hg0 Hno. rewrite cell_insert by lia. destruct (Z.eqb_spec (gs i) g) as [<-|]; [|by apply Ho].
      rewrite Ht', <- Ht, Ho by done. destruct (Z.leb_spec (idx * w) p), (Z.ltb_spec p (idx * w + col_len w len i));
        cbn [andb]; try done. exfalso. apply (Hno (i * w + (p - idx * w))).
      destruct (col_index w i (p - idx * w)) as [E1 E2]; [lia..|]. split; [nia|]. rewrite E1, E2. lia.
  - split; [|done]. intros k Hk. rewrite Hb by done. assert (0 ≤ n * w) by nia. zcmp.
Qed.

(** [load_row] reads the row. *)
Lemma load_row_spec ptrs cap w seq gs idx blocks out :
  0 < w → seq_ok ptrs seq gs (zlen blocks) → 0 ≤ idx → (idx + 1) * w ≤ cap → zlen out = zlen seq * w →
  ∃ out', load_row ptrs cap w seq idx blocks out = Ok out' ∧ zlen out' = zlen out ∧
    ∀ k, 0 ≤ k < zlen seq * w → at_ out' k = cell blocks (gs (k / w)) (idx * w + k mod w).
Proof.
  intros Hw Hseq Hidx Hcap Hout. unfold load_row. set (n := zlen seq) in *.
  assert (Hn0 : 0 ≤ n) by (subst n; apply zlen_nonneg).
  edestruct (for_lt_inv (λ i o, zlen o = zlen out ∧ ∀ k, 0 ≤ k < i * w →
      at_ o k = cell blocks (gs (k / w)) (idx * w + k mod w)) 0 n)
    as (o & Hrun & Hl & Ho); [lia| | |exists o; rewrite Hrun; done].
  - split; [done|]. lia.
  - intros i o Hi (Hl & Ho). destruct (Hseq i ltac:(lia)) as [Hptr Hg].
    rewrite (rd_at seq) by lia. cbn [mbind res_mbind]. rewrite Hptr. cbn [mbind res_mbind].
    destruct (rd_cell blocks (gs i)) as (t & -> & Ht); [lia|]. cbn [mbind res_mbind].
    assert (0 ≤ idx * w ∧ 0 ≤ i * w ∧ i * w + w ≤ n * w) by nia.
    destruct (tbl_load_spec cap o (i * w) t (idx * w) w) as (o' & -> & Hl' & Ho'); [lia..|].
    eexists; split; [done|]. split; [lia|]. intros k Hk. rewrite Ho' by lia.
    destruct (Z.leb_spec (i * w) k), (Z.ltb_spec k (i * w + w)); cbn [andb]; try lia.
    + destruct (col_index w i (k - i * w)) as [E1 E2]; [lia..|].
      replace (i * w + (k - i * w)) with k in E1, E2 by lia. by rewrite E1, E2, Ht.
    + apply Ho. lia.
Qed.

(** ** Exact tables

    The blocks of the slice of a sum [s], column by column, and the bytes of the
    row the sum selects. *)
Definition cluster_base (th : MatcherThread) : Z :=
  Z.quot th.(mt_proc_id) PROC_NUM_PER_CLUSTER * SRAM_IDX_BASE.
Definition blk (th : MatcherThread) (cfg : list Z) (s i : Z) : Z :=
  cluster_base th + at_ cfg (s mod th.(depth) + th.(depth) * i).
Abbreviation kblk th := (blk th th.(key_config)).
Abbreviation vblk th := (blk th th.(sram_value_config)).
Definition row_key (m : Mem) (th : MatcherThread) (s k : Z) : Z :=
  cell m.(srams) (kblk th s (k / SRAM_ROW)) (s mod 1024 * SRAM_ROW + k mod SRAM_ROW).
Definition row_value (m : Mem) (th : MatcherThread) (s k : Z) : Z :=
  cell m.(srams) (vblk th s (k / SRAM_ROW)) (s mod 1024 * SRAM_ROW + k mod SRAM_ROW).

(** The sum of a key that selects its row. *)
Definition sum_of (key : list Z) : Z := u16 (foldr Z.add 0 key).

(** A configuration of [w] columns names that many blocks of the cluster for every
    slice, each block once. *)
Record cfg_ok (th : MatcherThread) (cfg : list Z) (w : Z) : Prop := {
  co_len : zlen cfg = SRAM_NUM_PER_CLUSTER;
  co_w : 1 ≤ w ∧ w * th.(depth) ≤ SRAM_NUM_PER_CLUSTER;
  co_range : ∀ i, 0 ≤ i < w * th.(depth) → 0 ≤ at_ cfg i < SRAM_NUM_PER_CLUSTER;
  co_inj : inj_below (at_ cfg) (w * th.(depth))
}.

(** A configured exact table: the configuration names blocks of the cluster, each
    of them once. *)
Record exact_wf (m : Mem) (th : MatcherThread) : Prop := {
  ew_type : th.(match_type) = EXACT;
  ew_proc : 0 ≤ th.(mt_proc_id) < PROC_NUM;
  ew_ptrs : th.(sram) = sram_ptrs true th.(mt_proc_id);
  ew_mem : zlen m.(srams) = SRAM_NUM_ALL;
  ew_depth : 1 ≤ th.(depth);
  ew_key : cfg_ok th th.(key_config) th.(key_width);
  ew_value : cfg_ok th th.(sram_value_config) th.(sram_slice_value_width);
  ew_disj : ∀ i j, 0 ≤ i < th.(key_width) * th.(depth) → 0 ≤ j < th.(sram_slice_value_width) * th.(depth) →
    at_ th.(key_config) i ≠ at_ th.(sram_value_config) j
}.

Lemma key_sum_ok key n : zlen key = n → key_sum key n = Ok (sum_of key).
Proof.
  intros <-. unfold key_sum, sum_of.
  edestruct (for_lt_inv (λ i s, s = u16 (foldr Z.add 0 (take (Z.to_nat i) key))) 0 (zlen key))
    as (s & Hrun & ->); [apply zlen_nonneg|done| |rewrite Hrun].
  - intros i s Hi ->. unfold zlen in Hi. unfold rd. rewrite (proj2 (Z.leb_le 0 i)) by lia.
    destruct (lookup_lt_is_Some_2 key (Z.to_nat i)) as [x Hx]; [lia|]. rewrite Hx. cbn [mbind res_mbind].
    eexists; split; [done|]. replace (Z.to_nat (i + 1)) with (S (Z.to_nat i)) by lia.
    rewrite (take_S_r _ _ _ Hx), foldr_app. cbn [foldr].
    assert (∀ l a, foldr Z.add a l = foldr Z.add 0 l + a) as Hf.
    { intros l a. induction l as [|y l IH]; cbn; [lia|]. rewrite IH. lia. }
    rewrite (Hf _ (x + 0)). unfold u16. dlia.
  - do 2 f_equal. rewrite take_ge; [done|]. unfold zlen. lia.
Qed.

Lemma sum_of_range key : 0 ≤ sum_of key < 65536.
Proof. apply u16_range. Qed.

Lemma slice_index s d i w : 1 ≤ d → 0 ≤ i < w → 0 ≤ s mod d + d * i < w * d.
Proof. intros. pose proof (Z.mod_pos_bound s d ltac:(lia)). nia. Qed.

Lemma block_seq_ok cfg w s d :
  1 ≤ d → 0 ≤ w → w * d ≤ zlen cfg →
  ∃ l, block_seq any_index cfg w (s mod d) d = Ok l ∧ zlen l = w ∧
    ∀ i, 0 ≤ i < w → at_ l i = at_ cfg (s mod d + d * i).
Proof.
  intros Hd Hw Hcfg. unfold block_seq. rewrite (proj2 (Z.ltb_ge w 0)) by lia.
  edestruct (for_lt_inv (λ i l, zlen l = i ∧ ∀ j, 0 ≤ j < i → at_ l j = at_ cfg (s mod d + d * j)) 0 w)
    as (l & Hrun & Hl); [lia| | |exists l; by rewrite Hrun].
  - split; [done|]. lia.
  - intros i l Hi [Hl Hat]. cbn [any_index mbind res_mbind]. unfold any_index. cbn [mbind res_mbind].
    pose proof (slice_index s d i w Hd Hi). rewrite rd_at by lia. cbn [mbind res_mbind].
    eexists; split; [done|]. unfold zlen in *. rewrite length_app. cbn [length]. split; [lia|].
    intros j Hj. unfold at_. destruct (decide (j = i)) as [->|].
    + rewrite lookup_total_app_r by lia.
      replace (Z.to_nat i - length l)%nat with 0%nat by lia. done.
    + rewrite lookup_total_app_l by lia. apply Hat. lia.
Qed.

Lemma sram_ptr_at pid c :
  0 ≤ pid < PROC_NUM → 0 ≤ c < SRAM_NUM_PER_CLUSTER →
  ptr_at (sram_ptrs true pid) c = Ok (Z.quot pid PROC_NUM_PER_CLUSTER * SRAM_IDX_BASE + c) ∧
  0 ≤ Z.quot pid PROC_NUM_PER_CLUSTER * SRAM_IDX_BASE + c < SRAM_NUM_ALL.
Proof.
  change PROC_NUM with 12. change SRAM_NUM_PER_CLUSTER with 20. change PROC_NUM_PER_CLUSTER with 3.
  change SRAM_IDX_BASE with 20. change SRAM_NUM_ALL with 80. intros Hp Hc.
  rewrite Z.quot_div_nonneg by lia. split; [|dlia]. unfold ptr_at, sram_ptrs, rd.
  rewrite (proj2 (Z.leb_le 0 c)), list_lookup_fmap by lia. change (Z.to_nat SRAM_NUM_PER_CLUSTER) with 20%nat.
  rewrite lookup_seq_lt by lia. cbn [fmap option_fmap option_map mbind res_mbind].
  change PROC_NUM_PER_CLUSTER with 3. change SRAM_IDX_BASE with 20.
  rewrite Z.quot_div_nonneg by lia. do 2 f_equal. lia.
Qed.

(** The columns of a row. *)
Section exact.
Context (m : Mem) (th : MatcherThread) (Hwf : exact_wf m th).

Lemma cfg_seq cfg w s :
  cfg_ok th cfg w →
  ∃ l, block_seq any_index cfg w (s mod th.(depth)) th.(depth) = Ok l ∧
    zlen l = w ∧ seq_ok th.(sram) l (blk th cfg s) (zlen m.(srams)) ∧ inj_below (blk th cfg s) w.
Proof.
  intros []. destruct Hwf. destruct (block_seq_ok cfg w s (depth th)) as (l & Hl & Hn & Hat);
    [done|lia|lia|]. exists l. split; [done|]. split; [done|]. split.
  - intros i Hi. rewrite Hn in Hi. rewrite Hat by done. rewrite ew_ptrs0.
    pose proof (slice_index s (depth th) i w ltac:(done) Hi) as Hsl.
    rewrite ew_mem0. unfold blk, cluster_base. by apply sram_ptr_at, co_range0.
  - intros i j Hi Hj. unfold blk. intros Heq.
    pose proof (slice_index s (depth th) i w ltac:(done) Hi) as Hsl.
    pose proof (slice_index s (depth th) j w ltac:(done) Hj) as Hsl'.
    assert (s mod depth th + depth th * i = s mod depth th + depth th * j); [|nia].
    apply co_inj0; lia.
Qed.

(** Two columns of different rows, or of a key and a value, share no byte. *)
Lemma blk_slice cfg w s s' i j :
  cfg_ok th cfg w → 0 ≤ i < w → 0 ≤ j < w → blk th cfg s i = blk th cfg s' j →
  s mod th.(depth) = s' mod th.(depth) ∧ i = j.
Proof.
  intros [] Hi Hj Heq. destruct Hwf. unfold blk in Heq.
  pose proof (slice_index s (depth th) i w ltac:(done) Hi) as Hsl.
  pose proof (slice_index s' (depth th) j w ltac:(done) Hj) as Hsl'.
  pose proof (co_inj0 _ _ Hsl Hsl' ltac:(lia)).
  pose proof (Z.mod_pos_bound s (depth th) ltac:(lia)). pose proof (Z.mod_pos_bound s' (depth th) ltac:(lia)).
  assert (i = j) by nia. subst. lia.
Qed.

Lemma kblk_vblk s s' i j :
  0 ≤ i < th.(key_width) → 0 ≤ j < th.(sram_slice_value_width) → kblk th s i ≠ vblk th s' j.
Proof.
  destruct Hwf. intros Hi Hj Heq. unfold blk in Heq.
  pose proof (slice_index s (depth th) i (key_width th) ltac:(done) Hi) as Hsl.
  pose proof (slice_index s' (depth th) j (sram_slice_value_width th) ltac:(done) Hj) as Hsl'.
  apply (ew_disj0 _ _ Hsl Hsl'). lia.
Qed.

Lemma blk_nonneg cfg w s i : cfg_ok th cfg w → 0 ≤ i < w → 0 ≤ blk th cfg s i.
Proof.
  intros Hc Hi. destruct (cfg_seq cfg w s Hc) as (l & _ & Hn & Hs & _).
  destruct (Hs i ltac:(lia)) as [_ ?]. lia.
Qed.
End exact.

Lemma sram_row_fits s : 0 ≤ s → 0 ≤ Z.rem s (2 ^ SRAM_DEPTH) ∧ Z.rem s (2 ^ SRAM_DEPTH) = s mod 1024 ∧
  (Z.rem s (2 ^ SRAM_DEPTH) + 1) * SRAM_ROW ≤ SRAM_BYTES.
Proof.
  intros. change (2 ^ SRAM_DEPTH) with 1024. change SRAM_ROW with 16. change SRAM_BYTES with 16384.
  rewrite Z.rem_mod_nonneg by lia. dlia.
Qed.

(** The row two sums share. *)
Definition same_row (th : MatcherThread) (s s' : Z) : Prop :=
  s mod th.(depth) = s' mod th.(depth) ∧ s mod 1024 = s' mod 1024.

#[export] Instance same_row_dec th s s' : Decision (same_row th s s').
Proof. unfold same_row. apply _. Defined.

(** What inserting an entry does to a table, row by row: the row of the key takes
    the key and the value, every other row and every block of another table stays
    as it was. *)
Record inserted (m m' : Mem) (th : MatcherThread) (key value : list Z) : Prop := {
  ins_key : ∀ k, 0 ≤ k < th.(key_width) * SRAM_ROW →
    row_key m' th (sum_of key) k = if k <? zlen key then at_ key k else row_key m th (sum_of key) k;
  ins_value : ∀ k, 0 ≤ k < th.(sram_slice_value_width) * SRAM_ROW →
    row_value m' th (sum_of key) k = if k <? zlen value then at_ value k else row_value m th (sum_of key) k;
  ins_other : ∀ s, 0 ≤ s → ¬ same_row th (sum_of key) s →
    (∀ k, 0 ≤ k < th.(key_width) * SRAM_ROW → row_key m' th s k = row_key m th s k) ∧
    (∀ k, 0 ≤ k < th.(sram_slice_value_width) * SRAM_ROW → row_value m' th s k = row_value m th s k);
  ins_frame : ∀ g p, 0 ≤ g →
    (∀ i, 0 ≤ i < th.(key_width) → g ≠ kblk th (sum_of key) i) →
    (∀ i, 0 ≤ i < th.(sram_slice_value_width) → g ≠ vblk th (sum_of key) i) →
    cell m'.(srams) g p = cell m.(srams) g p;
  ins_tcam : m'.(tcam_tbls) = m.(tcam_tbls) ∧ m'.(tcam_masks) = m.(tcam_masks)
}.

(** The lengths an entry may have: all columns but the last are full. *)
Definition fits (len w : Z) : Prop := (w - 1) * SRAM_ROW ≤ len ≤ w * SRAM_ROW.

Lemma exact_wf_srams m m' th : exact_wf m th → zlen m'.(srams) = zlen m.(srams) → exact_wf m' th.
Proof. intros [] ?. split; try done. congruence. Qed.

Lemma not_row_byte gs w idx n g p :
  0 < w → (∀ i, 0 ≤ i < n → g ≠ gs i) → ∀ k, ¬ is_row_byte gs w idx n g p k.
Proof.
  intros Hw Hg k (Hk & -> & _). destruct (col_split w k Hw ltac:(lia)) as (? & ? & ?).
  apply (Hg (k / w)); [nia|done].
Qed.

Lemma col_range k n : 0 ≤ k < n * SRAM_ROW → 0 ≤ k / SRAM_ROW < n.
Proof. change SRAM_ROW with 16. intros. dlia. Qed.

Lemma insert_sram_entry_ok m th key value :
  exact_wf m th → fits (zlen key) th.(key_width) → fits (zlen value) th.(sram_slice_value_width) →
  ∃ m', insert_sram_entry key value (zlen key) (zlen value) (m, th) = Ok (m', th) ∧
    exact_wf m' th ∧ inserted m m' th key value.
Proof.
  intros Hwf [Hk1 Hk2] [Hv1 Hv2]. set (s := sum_of key). pose proof (sum_of_range key) as Hs. fold s in Hs.
  pose proof (zlen_nonneg key). pose proof (zlen_nonneg value). unfold insert_sram_entry. rewrite key_sum_ok by done. fold s. cbn [mbind res_mbind].
  pose proof (ew_depth _ _ Hwf) as Hd. unfold slice_of. rewrite (proj2 (Z.eqb_neq _ 0)) by lia.
  rewrite (Z.rem_mod_nonneg s (depth th)) by lia. cbn [mbind res_mbind].
  destruct (cfg_seq m th Hwf _ _ s (ew_key _ _ Hwf)) as (kl & -> & Hkl & Hkseq & Hkinj). cbn [mbind res_mbind].
  destruct (cfg_seq m th Hwf _ _ s (ew_value _ _ Hwf)) as (vl & -> & Hvl & Hvseq & Hvinj). cbn [mbind res_mbind].
  destruct (sram_row_fits s ltac:(lia)) as (Hi0 & Hi & Hfit). rewrite Hi in *. set (idx := s mod 1024) in *.
  destruct (store_row_spec (sram th) SRAM_BYTES SRAM_ROW kl (kblk th s) idx key (zlen key) (srams m))
    as (m1 & -> & Hm1 & Hrow1 & Hout1); [done|done|by rewrite Hkl|done|done|lia|by rewrite Hkl|].
  cbn [mbind res_mbind]. rewrite <- Hm1 in Hvseq.
  destruct (store_row_spec (sram th) SRAM_BYTES SRAM_ROW vl (vblk th s) idx value (zlen value) m1)
    as (m2 & -> & Hm2 & Hrow2 & Hout2); [done|done|by rewrite Hvl|done|done|lia|by rewrite Hvl|].
  cbn [mbind res_mbind]. exists (set_srams m2 m). split; [done|].
  rewrite Hkl in Hrow1, Hout1. rewrite Hvl in Hrow2, Hout2.
  pose proof (ew_key _ _ Hwf) as Hck. pose proof (ew_value _ _ Hwf) as Hcv.
  assert (Hkeep2 : ∀ s' k, 0 ≤ k < key_width th * SRAM_ROW → ∀ p,
    cell m2 (kblk th s' (k / SRAM_ROW)) p = cell m1 (kblk th s' (k / SRAM_ROW)) p).
  { intros s' k Hk p. pose proof (col_range _ _ Hk) as Hc. apply Hout2; [by apply (blk_nonneg m th Hwf _ _ _ _ Hck)|].
    apply not_row_byte; [done|]. intros i Hi'. by apply (kblk_vblk m th Hwf). }
  assert (Hkeep1 : ∀ s' k, 0 ≤ k < sram_slice_value_width th * SRAM_ROW → ∀ p,
    cell m1 (vblk th s' (k / SRAM_ROW)) p = cell (srams m) (vblk th s' (k / SRAM_ROW)) p).
  { intros s' k Hk p. pose proof (col_range _ _ Hk) as Hc. apply Hout1; [by apply (blk_nonneg m th Hwf _ _ _ _ Hcv)|].
    apply not_row_byte; [done|]. intros i Hi' Heq. by apply (kblk_vblk m th Hwf s s' i (k / SRAM_ROW)). }
  assert (Hother : ∀ cfg w s' k, cfg_ok th cfg w → 0 ≤ k < w * SRAM_ROW → ¬ same_row th s s' →
    ∀ k', ¬ is_row_byte (blk th cfg s) SRAM_ROW idx w (blk th cfg s' (k / SRAM_ROW))
              (s' mod 1024 * SRAM_ROW + k mod SRAM_ROW) k').
  { intros cfg w s' k Hc Hk Hns k' (Hk' & Hg & Hp). pose proof (col_range _ _ Hk). pose proof (col_range _ _ Hk').
    symmetry in Hg. apply (blk_slice m th Hwf cfg w) in Hg as [Hsl _]; try done.
    apply Hns. split; [done|]. fold idx. revert Hp. change SRAM_ROW with 16. intros Hp. dlia. }
  split; [apply (exact_wf_srams m); [done|cbn; congruence]|]. fold idx in Hrow1, Hrow2. split; cbn [srams set_srams]; fold s.
  - intros k Hk. unfold row_key. cbn [srams set_srams]. fold idx. rewrite Hkeep2 by done. by apply Hrow1.
  - intros k Hk. unfold row_value. cbn [srams set_srams]. fold idx. rewrite Hrow2 by done.
    by rewrite Hkeep1 by done.
  - intros s' Hs' Hns. split; intros k Hk; unfold row_key, row_value; cbn [srams set_srams].
    + rewrite Hkeep2 by done. apply Hout1; [apply (blk_nonneg m th Hwf _ _ _ _ Hck); by apply col_range|].
      by apply Hother.
    + rewrite <- Hkeep1 by done. apply Hout2; [apply (blk_nonneg m th Hwf _ _ _ _ Hcv); by apply col_range|].
      by apply Hother.
  - intros g p Hg Hnk Hnv. rewrite Hout2, Hout1; try done; by apply not_row_byte.
  - done.
Qed.

Lemma same_bytes_ok n i a b :
  0 ≤ i → i + Z.of_nat n ≤ zlen a → i + Z.of_nat n ≤ zlen b →
  ∃ r, same_bytes Z.eqb n i (rd a) (rd b) = Ok r ∧
    (r = true ↔ ∀ k, i ≤ k < i + Z.of_nat n → at_ a k = at_ b k).
Proof.
  revert i. induction n as [|n IH]; intros i Hi Ha Hb; cbn [same_bytes].
  - exists true. split; [done|]. split; [lia|done].
  - rewrite (rd_at a), (rd_at b) by lia. cbn [mbind res_mbind]. destruct (Z.eqb_spec (at_ a i) (at_ b i)).
    + destruct (IH (i + 1)) as (r & -> & Hr); [lia..|]. exists r. split; [done|]. rewrite Hr. split.
      * intros H k Hk. destruct (decide (k = i)) as [->|]; [done|]. apply H. lia.
      * intros H k Hk. apply H. lia.
    + exists false. split; [done|]. split; [done|]. intros H. destruct n0. apply H. lia.
Qed.

(** The bytes of a key of [n] bits. *)
Definition key_bytes (n : Z) : Z := n / 8 + b2z (0 <? n mod 8).

(** [get_match_res] on an exact table: the row of the key is read; it is a hit when
    the key is the one stored there. *)
Lemma exact_lookup `{Target} m th key key_len ok ov hit :
  exact_wf m th → zlen key = key_bytes key_len → zlen key ≤ th.(key_width) * SRAM_ROW →
  zlen ok = th.(key_width) * SRAM_ROW → zlen ov = th.(sram_slice_value_width) * SRAM_ROW →
  ∃ ok' ov' b, get_match_res m th key key_len ok ov hit = Ok (ok', ov', b2z b) ∧
    zlen ok' = zlen ok ∧ zlen ov' = zlen ov ∧
    (∀ k, 0 ≤ k < zlen ok → at_ ok' k = row_key m th (sum_of key) k) ∧
    (∀ k, 0 ≤ k < zlen ov → at_ ov' k = row_value m th (sum_of key) k) ∧
    (b = true ↔ ∀ k, 0 ≤ k < zlen key → at_ key k = row_key m th (sum_of key) k).
Proof.
  intros Hwf Hlen Hfit Hok Hov. set (s := sum_of key). pose proof (sum_of_range key) as Hs. fold s in Hs.
  unfold get_match_res. fold (key_bytes key_len). rewrite <- Hlen. rewrite key_sum_ok by done. fold s.
  cbn [mbind res_mbind]. rewrite decide_True by apply (ew_type _ _ Hwf).
  pose proof (ew_depth _ _ Hwf) as Hd. unfold slice_of. rewrite (proj2 (Z.eqb_neq _ 0)) by lia.
  rewrite (Z.rem_mod_nonneg s (depth th)) by lia. cbn [mbind res_mbind].
  destruct (cfg_seq m th Hwf _ _ s (ew_key _ _ Hwf)) as (kl & -> & Hkl & Hkseq & Hkinj). cbn [mbind res_mbind].
  destruct (cfg_seq m th Hwf _ _ s (ew_value _ _ Hwf)) as (vl & -> & Hvl & Hvseq & Hvinj). cbn [mbind res_mbind].
  destruct (sram_row_fits s ltac:(lia)) as (Hi0 & Hi & Hrow). rewrite Hi in *.
  destruct (load_row_spec (sram th) SRAM_BYTES SRAM_ROW kl (kblk th s) (s mod 1024) (srams m) ok)
    as (ok' & -> & Hok' & Hokat); [done|done|done|done|by rewrite Hkl|]. cbn [mbind res_mbind].
  destruct (load_row_spec (sram th) SRAM_BYTES SRAM_ROW vl (vblk th s) (s mod 1024) (srams m) ov)
    as (ov' & -> & Hov' & Hovat); [done|done|done|done|by rewrite Hvl|]. cbn [mbind res_mbind].
  pose proof (zlen_nonneg key).
  destruct (same_bytes_ok (Z.to_nat (zlen key)) 0 key ok') as (b & -> & Hb); [lia..|].
  cbn [mbind res_mbind]. exists ok', ov', b. split; [done|]. split; [done|]. split; [done|].
  rewrite Hkl in Hokat. rewrite Hvl in Hovat.
  split; [intros k Hk; rewrite Hokat by lia; done|]. split; [intros k Hk; rewrite Hovat by lia; done|].
  rewrite Hb, Z.add_0_l, Z2Nat.id by lia. split; intros H1 k Hk; specialize (H1 k Hk).
  - rewrite H1. apply Hokat. lia.
  - rewrite H1. symmetry. apply Hokat. lia.
Qed.

Lemma row_same m th s s' k :
  same_row th s s' → row_key m th s k = row_key m th s' k ∧ row_value m th s k = row_value m th s' k.
Proof. intros [H1 H2]. unfold row_key, row_value, blk. by rewrite H1, H2. Qed.

(** A fresh pair of output buffers, as [generate_match_key_and_match] allocates. *)
Definition lookup_sram `{Target} (m : Mem) (th : MatcherThread) (key : list Z) (key_len : Z)
    : res (list Z * list Z * Z) :=
  out_key ← fresh (th.(key_width) * SRAM_ROW);
  out_value ← fresh (th.(sram_slice_value_width) * SRAM_ROW);
  get_match_res m th key key_len out_key out_value 0.

Lemma lookup_sram_spec `{Target} m th key key_len :
  exact_wf m th → zlen key = key_bytes key_len → zlen key ≤ th.(key_width) * SRAM_ROW →
  ∃ ok ov b, lookup_sram m th key key_len = Ok (ok, ov, b2z b) ∧
    zlen ok = th.(key_width) * SRAM_ROW ∧ zlen ov = th.(sram_slice_value_width) * SRAM_ROW ∧
    (∀ k, 0 ≤ k < zlen ok → at_ ok k = row_key m th (sum_of key) k) ∧
    (∀ k, 0 ≤ k < zlen ov → at_ ov k = row_value m th (sum_of key) k) ∧
    (b = true ↔ ∀ k, 0 ≤ k < zlen key → at_ key k = row_key m th (sum_of key) k).
Proof.
  intros Hwf Hlen Hfit. destruct (co_w _ _ _ (ew_key _ _ Hwf)). destruct (co_w _ _ _ (ew_value _ _ Hwf)).
  unfold lookup_sram. assert (0 ≤ key_width th * SRAM_ROW ∧ 0 ≤ sram_slice_value_width th * SRAM_ROW).
  { change SRAM_ROW with 16. lia. }
  destruct (fresh_ok (key_width th * SRAM_ROW)) as (ok0 & -> & Hok0 & _); [lia|]. cbn [mbind res_mbind].
  destruct (fresh_ok (sram_slice_value_width th * SRAM_ROW)) as (ov0 & -> & Hov0 & _); [lia|].
  cbn [mbind res_mbind].
  destruct (exact_lookup m th key key_len ok0 ov0 0) as (ok & ov & b & -> & L1 & L2 & L3 & L4 & L5); try done.
  exists ok, ov, b. rewrite L1, L2, Hok0, Hov0 in *. done.
Qed.

(** Two lookups that see the same rows agree. *)
Lemma lookup_sram_ext `{Target} m m' th key key_len :
  exact_wf m th → exact_wf m' th → zlen key = key_bytes key_len → zlen key ≤ th.(key_width) * SRAM_ROW →
  (∀ k, 0 ≤ k < th.(key_width) * SRAM_ROW → row_key m' th (sum_of key) k = row_key m th (sum_of key) k) →
  (∀ k, 0 ≤ k < th.(sram_slice_value_width) * SRAM_ROW →
     row_value m' th (sum_of key) k = row_value m th (sum_of key) k) →
  lookup_sram m' th key key_len = lookup_sram m th key key_len.
Proof.
  intros Hwf Hwf' Hlen Hfit Hk Hv.
  destruct (lookup_sram_spec m th key key_len) as (ok & ov & b & -> & L1 & L2 & L3 & L4 & L5); try done.
  destruct (lookup_sram_spec m' th key key_len) as (ok' & ov' & b' & -> & L1' & L2' & L3' & L4' & L5'); try done.
  assert (ok' = ok) as ->.
  { apply list_eq_at; [lia|]. intros i Hi. rewrite L3', L3, Hk by lia. done. }
  assert (ov' = ov) as ->.
  { apply list_eq_at; [lia|]. intros i Hi. rewrite L4', L4, Hv by lia. done. }
  do 2 f_equal. f_equal. apply eq_bool_prop_intro. rewrite !Is_true_true, L5, L5'.
  split; intros L6 k Hk'; rewrite L6 by done; [|symmetry]; apply Hk; lia.
Qed.

(** ** The properties of exact tables *)

(** *** An exact table as a map

    The specification of an exact table is a map from rows to entries: an insertion
    replaces the entry of the row of its key, whatever key that entry had, and a
    lookup finds the entry of the row when it has the key looked up. *)
Definition Entry : Type := list Z * list Z.
Abbreviation RowMap := (gmap (Z * Z) Entry).

Definition row_of (th : MatcherThread) (key : list Z) : Z * Z :=
  (sum_of key mod th.(depth), sum_of key mod 1024).

Definition spec_insert (th : MatcherThread) (e : Entry) (T : RowMap) : RowMap := <[row_of th e.1 := e]> T.

Inductive Answer : Set := Hit (value : list Z) | Miss | Unwritten.

Definition spec_lookup (th : MatcherThread) (key : list Z) (T : RowMap) : Answer :=
  match T !! row_of th key with
  | Some (k, v) => if decide (k = key) then Hit v else Miss
  | None => Unwritten
  end.

(** The same for the table in memory: its insertions one after the other. *)
Definition insert_all (es : list Entry) (st : Mem * MatcherThread) : res (Mem * MatcherThread) :=
  for_each (λ e, insert_sram_entry e.1 e.2 (zlen e.1) (zlen e.2)) es st.

Record entry_ok (th : MatcherThread) (n : Z) (e : Entry) : Prop := {
  eo_len : zlen e.1 = n;
  eo_key : fits (zlen e.1) th.(key_width);
  eo_value : fits (zlen e.2) th.(sram_slice_value_width)
}.

(** The memory [m] holds the entries of the map, and what [m0] held elsewhere. *)
Record represents (n : Z) (m0 m : Mem) (th : MatcherThread) (T : RowMap) : Prop := {
  rp_wf : exact_wf m th;
  rp_entry : ∀ key e, T !! row_of th key = Some e → entry_ok th n e ∧
    (∀ k, 0 ≤ k < zlen e.1 → row_key m th (sum_of key) k = at_ e.1 k) ∧
    (∀ k, 0 ≤ k < zlen e.2 → row_value m th (sum_of key) k = at_ e.2 k);
  rp_rest : ∀ key, T !! row_of th key = None →
    (∀ k, 0 ≤ k < th.(key_width) * SRAM_ROW → row_key m th (sum_of key) k = row_key m0 th (sum_of key) k) ∧
    (∀ k, 0 ≤ k < th.(sram_slice_value_width) * SRAM_ROW →
       row_value m th (sum_of key) k = row_value m0 th (sum_of key) k)
}.

Lemma row_of_same th k k' : row_of th k = row_of th k' ↔ same_row th (sum_of k) (sum_of k').
Proof. unfold row_of, same_row. split; [by intros [= ? ?]|by intros [-> ->]]. Qed.

Lemma represents_nil n m th : exact_wf m th → represents n m m th ∅.
Proof. intros Hwf. split; [done| |done]. intros key e H. by rewrite lookup_empty in H. Qed.

(** An insertion keeps the memory in step with the map. *)
Lemma represents_insert n m0 m th T e :
  represents n m0 m th T → entry_ok th n e →
  ∃ m', insert_sram_entry e.1 e.2 (zlen e.1) (zlen e.2) (m, th) = Ok (m', th) ∧
    represents n m0 m' th (spec_insert th e T).
Proof.
  intros [Hwf Hent Hrest] He. destruct (insert_sram_entry_ok m th e.1 e.2) as (m' & Hins & Hwf' & Hi); [done|apply He..|].
  exists m'. split; [done|]. destruct (eo_key _ _ _ He) as [_ Hkf], (eo_value _ _ _ He) as [_ Hvf].
  unfold spec_insert. split; [done| |]; intros key.
  - intros e'. destruct (decide (row_of th e.1 = row_of th key)) as [Hrow|Hrow].
    + rewrite Hrow, lookup_insert_eq. intros [= <-]. split; [done|]. apply row_of_same in Hrow.
      split; intros k Hk; destruct (row_same m' th _ _ k Hrow) as [Hrk Hrv];
        [rewrite <- Hrk, (ins_key _ _ _ _ _ Hi) by lia|rewrite <- Hrv, (ins_value _ _ _ _ _ Hi) by lia];
        by rewrite (proj2 (Z.ltb_lt _ _)) by lia.
    + rewrite lookup_insert_ne by done. intros HT. destruct (Hent key e' HT) as (Hok & Hk & Hv).
      rewrite row_of_same in Hrow. pose proof (sum_of_range key).
      destruct (ins_other _ _ _ _ _ Hi (sum_of key)) as [Ho1 Ho2]; [lia|done|].
      destruct (eo_key _ _ _ Hok) as [_ ?], (eo_value _ _ _ Hok) as [_ ?].
      split; [done|]. split; intros k Hkk; [rewrite Ho1 by lia; by apply Hk|rewrite Ho2 by lia; by apply Hv].
  - destruct (decide (row_of th e.1 = row_of th key)) as [Hrow|Hrow]; [by rewrite Hrow, lookup_insert_eq|].
    rewrite lookup_insert_ne by done. intros HT. destruct (Hrest key HT) as [Hk Hv].
    rewrite row_of_same in Hrow. pose proof (sum_of_range key).
    destruct (ins_other _ _ _ _ _ Hi (sum_of key)) as [Ho1 Ho2]; [lia|done|].
    split; intros k Hkk; [rewrite Ho1 by lia; by apply Hk|rewrite Ho2 by lia; by apply Hv].
Qed.

Lemma represents_all n es m0 m th T :
  represents n m0 m th T → Forall (entry_ok th n) es →
  ∃ m', insert_all es (m, th) = Ok (m', th) ∧ represents n m0 m' th (fold_left (flip (spec_insert th)) es T).
Proof.
  intros HR Hes. revert m T HR. induction Hes as [|e es He _ IH]; intros m T HR; [by exists m|].
  destruct (represents_insert n m0 m th T e HR He) as (m1 & Hins & HR1). destruct (IH m1 _ HR1) as (m' & Hrun & HR').
  exists m'. split; [|exact HR']. unfold insert_all. cbn [for_each]. rewrite Hins. exact Hrun.
Qed.

(** A lookup in the memory gives the answer of the map. *)
Lemma represents_lookup `{Target} n m0 m th T key key_len :
  represents n m0 m th T → exact_wf m0 th → zlen key = n → n = key_bytes key_len → n ≤ th.(key_width) * SRAM_ROW →
  match spec_lookup th key T with
  | Hit value => ∃ ok ov, lookup_sram m th key key_len = Ok (ok, ov, 1) ∧
      ∀ k, 0 ≤ k < zlen value → at_ ov k = at_ value k
  | Miss => ∃ ok ov, lookup_sram m th key key_len = Ok (ok, ov, 0)
  | Unwritten => lookup_sram m th key key_len = lookup_sram m0 th key key_len
  end.
Proof.
  intros [Hwf Hent Hrest] Hwf0 Hlen Hn Hfit. unfold spec_lookup.
  destruct (T !! row_of th key) as [[k v]|] eqn:HT.
  - destruct (Hent key _ HT) as ([Hkn _ [_ Hvf]] & Hk & Hv). cbn [fst snd] in *.
    destruct (lookup_sram_spec m th key key_len) as (ok & ov & b & -> & L1 & L2 & L3 & L4 & L5); [done|lia|lia|].
    destruct (decide (k = key)) as [->|Hne]; exists ok, ov.
    + assert (b = true) as ->. { apply L5. intros i Hi. symmetry. by apply Hk. }
      split; [done|]. intros i Hi. rewrite L4 by lia. by apply Hv.
    + destruct b; [|done]. destruct Hne. apply list_eq_at; [lia|]. intros i Hi.
      rewrite (proj1 L5) by (done || lia). symmetry. by apply Hk.
  - destruct (Hrest key HT) as [Hk Hv]. apply lookup_sram_ext; try done; lia.
Qed.

(** C1. An exact table refines its specification: after any sequence of insertions a
    lookup finds the value of the last entry of its row when that entry has its key,
    misses when that entry has another one, and sees the memory as it was when the
    row was never written. *)
Theorem exact_table_refines `{Target} m th es key key_len :
  exact_wf m th → Forall (entry_ok th (zlen key)) es → zlen key = key_bytes key_len →
  zlen key ≤ th.(key_width) * SRAM_ROW →
  ∃ m', insert_all es (m, th) = Ok (m', th) ∧ exact_wf m' th ∧
    match spec_lookup th key (fold_left (flip (spec_insert th)) es ∅) with
    | Hit value => ∃ ok ov, lookup_sram m' th key key_len = Ok (ok, ov, 1) ∧
        ∀ k, 0 ≤ k < zlen value → at_ ov k = at_ value k
    | Miss => ∃ ok ov, lookup_sram m' th key key_len = Ok (ok, ov, 0)
    | Unwritten => lookup_sram m' th key key_len = lookup_sram m th key key_len
    end.
Proof.
  intros Hwf Hes Hlen Hfit.
  destruct (represents_all (zlen key) es m m th ∅) as (m' & Hrun & HR); [by apply represents_nil|done|].
  exists m'. split; [done|]. split; [by apply HR|]. by apply (represents_lookup (zlen key) m).
Qed.

(** Tables of different threads: no block of one is a block of the other. *)
Definition tables_disjoint (th th' : MatcherThread) : Prop :=
  ∀ g, (∃ s i, 0 ≤ i < th.(key_width) ∧ g = kblk th s i ∨ 0 ≤ i < th.(sram_slice_value_width) ∧ g = vblk th s i) →
  ∀ s i, (0 ≤ i < th'.(key_width) → g ≠ kblk th' s i) ∧
         (0 ≤ i < th'.(sram_slice_value_width) → g ≠ vblk th' s i).

(** Tables with disjoint blocks, as the compiler lays them out, are
    independent: an insertion into one changes no lookup in the other. *)
Lemma exact_tables_isolated `{Target} m th th' key value other key_len :
  exact_wf m th → exact_wf m th' → tables_disjoint th th' →
  fits (zlen key) th.(key_width) → fits (zlen value) th.(sram_slice_value_width) →
  zlen other = key_bytes key_len → zlen other ≤ th'.(key_width) * SRAM_ROW →
  ∃ m', insert_sram_entry key value (zlen key) (zlen value) (m, th) = Ok (m', th) ∧ exact_wf m' th' ∧
    lookup_sram m' th' other key_len = lookup_sram m th' other key_len.
Proof.
  intros Hwf Hwf' Hdis Hk Hv Hlen Hfit.
  destruct (insert_sram_entry_ok m th key value) as (m' & Hins & Hwfm' & Hi); try done.
  exists m'. split; [done|]. assert (Hwf2 : exact_wf m' th').
  { apply (exact_wf_srams m); [done|]. by rewrite (ew_mem _ _ Hwfm'), (ew_mem _ _ Hwf). }
  split; [done|]. apply lookup_sram_ext; try done; intros k Hkk; apply col_range in Hkk;
    (apply (ins_frame _ _ _ _ _ Hi); [by eapply (blk_nonneg m th' Hwf'); [apply Hwf'|]|..]);
    intros i Hi' Heq; symmetry in Heq; revert Heq; apply Hdis; eauto.
Qed.

(** On a table that was never written every key of zero bytes hits, with a value
    of zeros, that is with action 0 and no parameter bits. *)
Lemma exact_empty_zero_hits `{Target} th key_len :
  exact_wf init_mem th → 0 ≤ key_len → key_bytes key_len ≤ th.(key_width) * SRAM_ROW →
  ∃ ok ov, lookup_sram init_mem th (replicate (Z.to_nat (key_bytes key_len)) 0) key_len = Ok (ok, ov, 1) ∧
    ∀ k, 0 ≤ k < zlen ov → at_ ov k = 0.
Proof.
  intros Hwf Hkl Hfit. assert (0 ≤ key_bytes key_len) by (unfold key_bytes, b2z; zcmp; dlia).
  destruct (lookup_sram_spec init_mem th (replicate (Z.to_nat (key_bytes key_len)) 0) key_len)
    as (ok & ov & b & -> & _ & _ & _ & L4 & L5); [done|rewrite zlen_replicate; lia..|].
  assert (b = true) as ->.
  { apply L5. intros k Hk. rewrite zlen_replicate in Hk. rewrite at_replicate by lia. symmetry. apply cell_init. }
  exists ok, ov. split; [done|]. intros k Hk. rewrite L4 by done. apply cell_init.
Qed.

(** ** From the packet to the outcome *)

(** The lookup of a table keyed by one field. *)
Lemma match_one_field `{Target} m th f phv :
  exact_wf m th → phv_wf phv → th.(fdInfos) = [f] → f.(fd_type) ≠ VALID → 0 ≤ f.(hdr_id) < 32 →
  0 ≤ f.(internal_offset) → 1 ≤ f.(fd_len) < 65536 → ceil8 f.(fd_len) ≤ th.(key_width) * SRAM_ROW →
  let b := (at_ phv.(parsed_headers) f.(hdr_id)).(hdr_offset) + f.(internal_offset) in
  b + f.(fd_len) ≤ 8 * (FRONT_HEADER_LEN + META_LEN) →
  ∃ key ok ov hit, bytes key ∧ zlen key = ceil8 f.(fd_len) ∧
    be_val key = field_val phv.(packet) b f.(fd_len) * 2 ^ (8 * ceil8 f.(fd_len) - f.(fd_len)) ∧
    lookup_sram m th key f.(fd_len) = Ok (ok, ov, b2z hit) ∧
    generate_match_key_and_match m th phv = Ok (
      if hit then set_next_action_id (at_ ov 1 + 256 * at_ ov 0)
        (set_match_value_len (zlen ov) (set_match_value (Some ov) (set_hit true phv)))
      else set_next_action_id th.(miss_act_id) (set_hit false phv)).
Proof.
  intros Hwf Hp Hfds Hty Hid Hio Hfl Hfit b Hend. pose proof (wf_headers_len _ Hp).
  assert (Hhi : header_of phv (hdr_id f) = Ok (at_ (parsed_headers phv) (hdr_id f))) by (apply rd_at; lia).
  pose proof (header_wf_of _ _ _ Hp Hhi) as [? _]. pose proof (ceil8_bounds (fd_len f) ltac:(lia)) as Hc.
  destruct (get_field_key f phv _ Hhi (wf_packet _ Hp) Hty) as (fb & Hget & Hb & Hl & Hv);
    [lia..|by rewrite (wf_packet_len _ Hp)|]. fold b in Hv.
  unfold generate_match_key_and_match. rewrite Hfds. cbn [for_each]. rewrite Hget. cbn [mbind res_mbind].
  rewrite Z.add_0_l, u16_small by lia. cbn [app mret res_mret mbind res_mbind].
  rewrite combine_single by (cbn [byte_len field tail_offset]; done || lia). cbn [mbind res_mbind field].
  rewrite decide_True by apply (ew_type _ _ Hwf).
  assert (Hkb : key_bytes (fd_len f) = ceil8 (fd_len f)) by (unfold key_bytes, ceil8, b2z; zcmp; dlia).
  destruct (lookup_sram_spec m th fb (fd_len f)) as (ok & ov & hit & Hrun & L1 & L2 & L3 & L4 & L5);
    [done|lia|lia|]. exists fb, ok, ov, hit. split; [done|]. split; [done|]. split; [done|]. split; [done|].
  unfold lookup_sram in Hrun. apply bind_ok_inv in Hrun as (ok0 & -> & Hrun). cbn [mbind res_mbind].
  apply bind_ok_inv in Hrun as (ov0 & -> & Hrun). cbn [mbind res_mbind]. rewrite Hrun. cbn [mbind res_mbind].
  destruct (co_w _ _ _ (ew_value _ _ Hwf)) as [Hvw _]. revert L2. change SRAM_ROW with 16. intros L2.
  destruct hit; cbn [b2z]; [|done]. change (1 =? 1) with true. cbn iota.
  rewrite !rd_at by lia. cbn [mbind res_mbind]. rewrite Z.shiftl_mul_pow2 by lia. change (2 ^ 8) with 256.
  rewrite <- L2. unfold mret, res_mret. do 2 f_equal. lia.
Qed.

(** The row of a packet's key decides. *)
Lemma row_outcome `{Target} m th f phv :
  exact_wf m th → phv_wf phv → th.(fdInfos) = [f] → f.(fd_type) ≠ VALID → 0 ≤ f.(hdr_id) < 32 →
  0 ≤ f.(internal_offset) → 1 ≤ f.(fd_len) < 65536 → ceil8 f.(fd_len) ≤ th.(key_width) * SRAM_ROW →
  let b := (at_ phv.(parsed_headers) f.(hdr_id)).(hdr_offset) + f.(internal_offset) in
  b + f.(fd_len) ≤ 8 * (FRONT_HEADER_LEN + META_LEN) →
  ∃ key, bytes key ∧ zlen key = ceil8 f.(fd_len) ∧
    be_val key = field_val phv.(packet) b f.(fd_len) * 2 ^ (8 * ceil8 f.(fd_len) - f.(fd_len)) ∧
    let row := row_value m th (sum_of key) in
    let stored := ∀ k, 0 ≤ k < zlen key → at_ key k = row_key m th (sum_of key) k in
    (stored → ∃ ov, zlen ov = th.(sram_slice_value_width) * SRAM_ROW ∧ (∀ k, 0 ≤ k < zlen ov → at_ ov k = row k) ∧
       generate_match_key_and_match m th phv = Ok (set_next_action_id (row 1 + 256 * row 0)
         (set_match_value_len (zlen ov) (set_match_value (Some ov) (set_hit true phv))))) ∧
    (¬ stored → generate_match_key_and_match m th phv = Ok (set_next_action_id th.(miss_act_id) (set_hit false phv))).
Proof.
  intros Hwf Hp Hfds Hty Hid Hio Hfl Hfit b Hend.
  destruct (match_one_field m th f phv) as (key & ok & ov & hit & Hb & Hl & Hv & Hlk & Hrun); try done.
  assert (Hkb : key_bytes (fd_len f) = ceil8 (fd_len f)) by (unfold key_bytes, ceil8, b2z; zcmp; dlia).
  destruct (lookup_sram_spec m th key (fd_len f)) as (ok' & ov' & hit' & Hlk' & _ & Hol & _ & Hov & Hhit);
    [done|lia|lia|]. rewrite Hlk in Hlk'. injection Hlk' as <- <- Heq.
  assert (hit' = hit) as -> by (destruct hit, hit'; done).
  exists key. split; [done|]. split; [done|]. split; [done|]. cbv zeta. rewrite <- Hhit. split.
  - intros ->. exists ov. split; [done|]. split; [done|]. rewrite Hrun.
    destruct (co_w _ _ _ (ew_value _ _ Hwf)) as [Hvw _]. revert Hol. change SRAM_ROW with 16. intros Hol.
    by rewrite !Hov by lia.
  - intros Hh. rewrite Hrun. by destruct hit.
Qed.

(** C10. What a packet meets at an exact table keyed by one field: the key is the
    field, at the left of its bytes, and its byte sum names a row.  When the row
    holds the key the packet hits: the value of the row is kept for the action and
    its first 16 bits select the action.  Otherwise it misses: the miss action is
    selected, and the value kept before stays. *)
Theorem match_outcome `{Target} m th f phv :
  exact_wf m th → phv_wf phv → th.(fdInfos) = [f] → f.(fd_type) ≠ VALID → 0 ≤ f.(hdr_id) < 32 →
  0 ≤ f.(internal_offset) → 1 ≤ f.(fd_len) < 65536 → ceil8 f.(fd_len) ≤ th.(key_width) * SRAM_ROW →
  let b := (at_ phv.(parsed_headers) f.(hdr_id)).(hdr_offset) + f.(internal_offset) in
  b + f.(fd_len) ≤ 8 * (FRONT_HEADER_LEN + META_LEN) →
  ∃ key, bytes key ∧ zlen key = ceil8 f.(fd_len) ∧
    be_val key = field_val phv.(packet) b f.(fd_len) * 2 ^ (8 * ceil8 f.(fd_len) - f.(fd_len)) ∧
    let row := row_value m th (sum_of key) in
    let stored := ∀ k, 0 ≤ k < zlen key → at_ key k = row_key m th (sum_of key) k in
    (stored → ∃ ov, zlen ov = th.(sram_slice_value_width) * SRAM_ROW ∧ (∀ k, 0 ≤ k < zlen ov → at_ ov k = row k) ∧
       generate_match_key_and_match m th phv = Ok (set_next_action_id (row 1 + 256 * row 0)
         (set_match_value_len (zlen ov) (set_match_value (Some ov) (set_hit true phv))))) ∧
    (¬ stored → generate_match_key_and_match m th phv = Ok (set_next_action_id th.(miss_act_id) (set_hit false phv))).
Proof. apply row_outcome. Qed.

(** The second of two byte fields is added to the first, and the second byte of
    the key stays zero. *)
Lemma combine_two_bytes a b :
  0 ≤ a < 256 → 0 ≤ b < 256 →
  combine_to_single_key [mkKeyInfo 0 [a] 1 8; mkKeyInfo 0 [b] 1 8] 16 = Ok [u8 (a + b); 0].
Proof.
  intros Ha Hb. transitivity (Ok [u8 (u8 (0 + Z.shiftr a 0) + Z.shiftr b 0); 0]); [reflexivity|].
  by rewrite !Z.shiftr_0_r, Z.add_0_l, (u8_small a).
Qed.

(** ** TCAM tables *)

(** A configured TCAM table. *)
Record tcam_wf (m : Mem) (th : MatcherThread) : Prop := {
  tw_type : th.(match_type) ≠ EXACT;
  tw_proc : 0 ≤ th.(mt_proc_id) < PROC_NUM;
  tw_sptrs : th.(sram) = sram_ptrs true th.(mt_proc_id);
  tw_tptrs : th.(tcam) = tcam_ptrs true th.(mt_proc_id);
  tw_smem : zlen m.(srams) = SRAM_NUM_ALL;
  tw_tmem : zlen m.(tcam_tbls) = TCAM_NUM_ALL;
  tw_kmem : zlen m.(tcam_masks) = TCAM_NUM_ALL;
  tw_depth : 1 ≤ th.(depth);
  tw_kw : 1 ≤ th.(key_width) ∧ th.(key_width) * th.(depth) ≤ TCAM_NUM_PER_CLUSTER;
  tw_kc : zlen th.(key_config) = SRAM_NUM_PER_CLUSTER;
  tw_kcr : ∀ i, 0 ≤ i < th.(key_width) * th.(depth) → 0 ≤ at_ th.(key_config) i < TCAM_NUM_PER_CLUSTER
}.

Lemma tcam_ptr_at pid c :
  0 ≤ pid < PROC_NUM → 0 ≤ c < TCAM_NUM_PER_CLUSTER →
  ptr_at (tcam_ptrs true pid) c = Ok (Z.quot pid PROC_NUM_PER_CLUSTER * TCAM_IDX_BASE + c) ∧
  0 ≤ Z.quot pid PROC_NUM_PER_CLUSTER * TCAM_IDX_BASE + c < TCAM_NUM_ALL.
Proof.
  change PROC_NUM with 12. change TCAM_NUM_PER_CLUSTER with 16. change PROC_NUM_PER_CLUSTER with 3.
  change TCAM_IDX_BASE with 16. change TCAM_NUM_ALL with 64. intros Hp Hc.
  rewrite Z.quot_div_nonneg by lia. split; [|dlia]. unfold ptr_at, tcam_ptrs, rd.
  rewrite (proj2 (Z.leb_le 0 c)), list_lookup_fmap by lia. change (Z.to_nat TCAM_NUM_PER_CLUSTER) with 16%nat.
  rewrite lookup_seq_lt by lia. cbn [fmap option_fmap option_map mbind res_mbind].
  change PROC_NUM_PER_CLUSTER with 3. change TCAM_IDX_BASE with 16.
  rewrite Z.quot_div_nonneg by lia. do 2 f_equal. lia.
Qed.

(** The columns of the slice of a sum. *)
Lemma tcam_seq m th s :
  tcam_wf m th →
  ∃ l gs, block_seq tcam_config_bound th.(key_config) th.(key_width) (s mod th.(depth)) th.(depth) = Ok l ∧
    zlen l = th.(key_width) ∧ seq_ok th.(tcam) l gs TCAM_NUM_ALL.
Proof.
  intros []. unfold block_seq. rewrite (proj2 (Z.ltb_ge (key_width th) 0)) by lia.
  edestruct (for_lt_inv (λ i l, zlen l = i ∧ ∀ j, 0 ≤ j < i →
      at_ l j = at_ (key_config th) (s mod depth th + depth th * j)) 0 (key_width th))
    as (l & Hrun & Hl & Hat); [lia| | |rewrite Hrun].
  - split; [done|]. lia.
  - intros i l Hi [Hl Hat]. cbn beta. pose proof (slice_index s (depth th) i (key_width th) tw_depth0 Hi).
    unfold tcam_config_bound. rewrite (proj2 (Z.ltb_lt _ _)) by lia. cbn [mbind res_mbind].
    rewrite rd_at by (rewrite tw_kc0; change SRAM_NUM_PER_CLUSTER with 20; change TCAM_NUM_PER_CLUSTER with 16 in *; lia).
    cbn [mbind res_mbind]. eexists; split; [done|]. unfold zlen in *. rewrite length_app. cbn [length].
    split; [lia|]. intros j Hj. unfold at_. destruct (decide (j = i)) as [->|].
    + rewrite lookup_total_app_r by lia. replace (Z.to_nat i - length l)%nat with 0%nat by lia. done.
    + rewrite lookup_total_app_l by lia. apply Hat. lia.
  - exists l, (λ i, Z.quot (mt_proc_id th) PROC_NUM_PER_CLUSTER * TCAM_IDX_BASE
                    + at_ (key_config th) (s mod depth th + depth th * i)).
    split; [done|]. split; [done|]. intros i Hi. rewrite Hl in Hi. rewrite Hat by done. rewrite tw_tptrs0.
    apply tcam_ptr_at; [done|]. apply tw_kcr0. by apply slice_index.
Qed.

(** The search compares the key, masked by what the fresh buffer [tmp_mask] held,
    with the stored masks. *)
Lemma tcam_search_ignores_keys fuel i ptrs t t' k seq gs n mk tk tm :
  seq_ok ptrs seq gs (zlen t) → zlen t' = zlen t → zlen k = zlen t →
  zlen tk = zlen seq * TCAM_ROW → 0 ≤ i → i + Z.of_nat fuel ≤ 1024 →
  tcam_search fuel i ptrs t k seq n mk tk tm = tcam_search fuel i ptrs t' k seq n mk tk tm.
Proof.
  intros Hseq Ht' Hk. revert i tk. induction fuel as [|fuel IH]; intros i tk Htk Hi Hf; [done|].
  cbn [tcam_search]. assert (Hcap : (i + 1) * TCAM_ROW ≤ TCAM_BYTES).
  { change TCAM_ROW with 8. change TCAM_BYTES with 8192. lia. }
  destruct (load_row_spec ptrs TCAM_BYTES TCAM_ROW seq gs i t tk) as (a & -> & Ha & _); [done..|].
  destruct (load_row_spec ptrs TCAM_BYTES TCAM_ROW seq gs i t' tk) as (a' & -> & Ha' & _);
    [done|by rewrite Ht'|done..|]. cbn [mbind res_mbind].
  destruct (load_row_spec ptrs TCAM_BYTES TCAM_ROW seq gs i k a) as (c & -> & Hc & Hcat);
    [done|by rewrite Hk|done|done|lia|].
  destruct (load_row_spec ptrs TCAM_BYTES TCAM_ROW seq gs i k a') as (c' & -> & Hc' & Hcat');
    [done|by rewrite Hk|done|done|lia|]. cbn [mbind res_mbind].
  assert (c' = c) as ->.
  { apply list_eq_at; [lia|]. intros j Hj. rewrite Hcat', Hcat by lia. done. }
  destruct (same_bytes _ _ _ _ _) as [[]|]; cbn [mbind res_mbind]; [done| |done]. apply IH; lia.
Qed.

Lemma tcam_search_range fuel i ptrs t k seq n mk tk tm r :
  tcam_search fuel i ptrs t k seq n mk tk tm = Ok (Some r) → i ≤ r < i + Z.of_nat fuel.
Proof.
  revert i tk. induction fuel as [|fuel IH]; intros i tk; cbn [tcam_search]; [done|]. intros Hrun.
  apply bind_ok_inv in Hrun as (a & _ & Hrun). apply bind_ok_inv in Hrun as (c & _ & Hrun).
  apply bind_ok_inv in Hrun as (e & _ & Hrun). destruct e.
  - injection Hrun as <-. lia.
  - apply IH in Hrun. lia.
Qed.

(** The keys stored in a TCAM are never compared: whatever key an entry was
    inserted with, a lookup hits or misses alike and finds the same value. *)
Lemma tcam_ignores_keys `{Target} m t' th key key_len ok ov hit :
  tcam_wf m th → zlen t' = TCAM_NUM_ALL → zlen key = key_bytes key_len →
  zlen ok = th.(key_width) * TCAM_ROW →
  (λ r : list Z * list Z * Z, (r.1.2, r.2)) <$> get_match_res (set_tcams t' m.(tcam_masks) m) th key key_len ok ov hit =
  (λ r : list Z * list Z * Z, (r.1.2, r.2)) <$> get_match_res m th key key_len ok ov hit.
Proof.
  intros Hwf Ht' Hlen Hok. unfold get_match_res. fold (key_bytes key_len). rewrite <- Hlen.
  rewrite key_sum_ok by done. cbn [mbind res_mbind]. pose proof (sum_of_range key) as Hs. set (s := sum_of key) in *.
  rewrite !decide_False by apply (tw_type _ _ Hwf). cbn [tcam_tbls tcam_masks srams set_tcams].
  pose proof (tw_depth _ _ Hwf) as Hd. unfold slice_of. rewrite (proj2 (Z.eqb_neq _ 0)) by lia.
  rewrite (Z.rem_mod_nonneg s (depth th)) by lia. cbn [mbind res_mbind].
  destruct (tcam_seq m th s Hwf) as (kl & gs & -> & Hkl & Hseq). cbn [mbind res_mbind].
  destruct (block_seq any_index (sram_value_config th) _ _ _) as [vl|];
    cbn [mbind res_mbind]; [|reflexivity].
  assert (0 ≤ key_width th * TCAM_ROW) by (destruct (tw_kw _ _ Hwf); change TCAM_ROW with 8; lia).
  destruct (fresh_ok (key_width th * TCAM_ROW)) as (tk & -> & Htk & _); [done|]. cbn [mbind res_mbind].
  rewrite <- (tw_tmem _ _ Hwf) in Hseq.
  assert (Hfuel : ∃ fuel, Z.to_nat (2 ^ TCAM_DEPTH) = fuel ∧ Z.of_nat fuel = 1024).
  { eexists; split; [done|]. by rewrite Z2Nat.id. }
  destruct Hfuel as (fuel & -> & Hfuel).
  rewrite <- (tcam_search_ignores_keys _ _ _ (tcam_tbls m) t' _ _ gs) by
    (try done; rewrite ?(tw_tmem _ _ Hwf), ?(tw_kmem _ _ Hwf), ?Hkl; done || lia).
  destruct (tcam_search _ _ _ _ _ _ _ _ _ _) as [[i|]|] eqn:Hsearch;
    cbn [mbind res_mbind]; [|reflexivity..].
  apply tcam_search_range in Hsearch. rewrite Hfuel in Hsearch.
  assert (Hcap : (i + 1) * TCAM_ROW ≤ TCAM_BYTES).
  { change TCAM_ROW with 8. change TCAM_BYTES with 8192. lia. }
  destruct (load_row_spec (tcam th) TCAM_BYTES TCAM_ROW kl gs i (tcam_tbls m) ok) as (a & -> & _);
    [done|done|lia|done|by rewrite Hkl|].
  destruct (load_row_spec (tcam th) TCAM_BYTES TCAM_ROW kl gs i t' ok) as (a' & -> & _);
    [done|by rewrite Ht', <- (tw_tmem _ _ Hwf)|lia|done|by rewrite Hkl|]. cbn [mbind res_mbind].
  destruct (load_row (sram th) _ _ _ _ _ _); cbn [mbind res_mbind]; reflexivity.
Qed.

(** ** What a lookup can select *)
Lemma key_sum_range key n s : key_sum key n = Ok s → 0 ≤ s < 65536.
Proof.
  unfold key_sum. eapply (for_up_pres (λ s, 0 ≤ s < 65536)); [|lia].
  intros j t t' _ Hb. inv_ok. apply u16_range.
Qed.

(** The action the first two bytes of a row name, the row read as a lookup reads it:
    from the blocks of the slice that [s] selects. *)
Definition row_action (m : Mem) (th : MatcherThread) (s row a : Z) : Prop :=
  ∃ slice vseq ov ov' v1 v0,
    slice_of s th.(depth) = Ok slice ∧
    block_seq any_index th.(sram_value_config) th.(sram_slice_value_width) slice th.(depth) = Ok vseq ∧
    zlen ov = th.(sram_slice_value_width) * SRAM_ROW ∧
    load_row th.(sram) SRAM_BYTES SRAM_ROW vseq row m.(srams) ov = Ok ov' ∧
    rd ov' 1 = Ok v1 ∧ rd ov' 0 = Ok v0 ∧ a = v1 + Z.shiftl v0 8.

(** The actions a lookup can select, whatever the type of the table: the miss action,
    and those of the rows it can reach: in an exact table the row of the sum, in a
    table of the TCAM every row. *)
Definition selectable (m : Mem) (th : MatcherThread) (a : Z) : Prop :=
  a = th.(miss_act_id) ∨
  th.(no_table) = false ∧ ∃ s row, 0 ≤ s < 65536 ∧
    (if decide (th.(match_type) = EXACT) then row = Z.rem s (2 ^ SRAM_DEPTH) else 0 ≤ row < 2 ^ TCAM_DEPTH) ∧
    row_action m th s row a.

(** What a lookup changes of the vector. *)
Definition same_but_match (phv phv' : PHV) : Prop :=
  ∃ mv mvl h a, phv' = set_next_action_id a (set_match_value_len mvl (set_match_value mv (set_hit h phv))).

Lemma fresh_zlen `{Target} n l : fresh n = Ok l → zlen l = n.
Proof.
  unfold fresh. destruct (Z.ltb_spec n 0); [done|]. intros [= <-]. unfold zlen. rewrite length_fmap, length_seq. lia.
Qed.

(** The value of a hit is a row that the table can reach. *)
Lemma get_match_res_value `{Target} m th key len ok ov ok' ov' v1 v0 :
  get_match_res m th key len ok ov 0 = Ok (ok', ov', 1) → zlen ov = th.(sram_slice_value_width) * SRAM_ROW →
  rd ov' 1 = Ok v1 → rd ov' 0 = Ok v0 →
  ∃ s row, 0 ≤ s < 65536 ∧
    (if decide (th.(match_type) = EXACT) then row = Z.rem s (2 ^ SRAM_DEPTH) else 0 ≤ row < 2 ^ TCAM_DEPTH) ∧
    row_action m th s row (v1 + Z.shiftl v0 8).
Proof.
  intros Hrun Hov H1 H0. unfold get_match_res in Hrun. apply bind_ok_inv in Hrun as (s & Hs & Hrun).
  apply key_sum_range in Hs. exists s. destruct (decide (match_type th = EXACT)).
  - apply bind_ok_inv in Hrun as (base & Hb & Hrun). apply bind_ok_inv in Hrun as (kseq & _ & Hrun).
    apply bind_ok_inv in Hrun as (vseq & Hv & Hrun). apply bind_ok_inv in Hrun as (k' & _ & Hrun).
    apply bind_ok_inv in Hrun as (o & Ho & Hrun). apply bind_ok_inv in Hrun as (eq & _ & Hrun). injection Hrun as -> -> _.
    exists (Z.rem s (2 ^ SRAM_DEPTH)). split; [done|]. split; [done|]. by exists base, vseq, ov, ov', v1, v0.
  - apply bind_ok_inv in Hrun as (base & Hb & Hrun). apply bind_ok_inv in Hrun as (kseq & _ & Hrun).
    apply bind_ok_inv in Hrun as (vseq & Hv & Hrun). apply bind_ok_inv in Hrun as (tk & _ & Hrun).
    apply bind_ok_inv in Hrun as (tm & _ & Hrun). apply bind_ok_inv in Hrun as ([i|] & Hi & Hrun); [|done].
    apply bind_ok_inv in Hrun as (k' & _ & Hrun). apply bind_ok_inv in Hrun as (o & Ho & Hrun). injection Hrun as -> ->.
    apply tcam_search_range in Hi. rewrite Z2Nat.id in Hi by done.
    exists i. split; [done|]. split; [lia|]. by exists base, vseq, ov, ov', v1, v0.
Qed.

Lemma lookup_selects `{Target} m th phv phv' :
  th.(no_table) = false → generate_match_key_and_match m th phv = Ok phv' →
  same_but_match phv phv' ∧ selectable m th phv'.(next_action_id).
Proof.
  intros Hnt Hrun. unfold generate_match_key_and_match in Hrun.
  apply bind_ok_inv in Hrun as ([kis n] & _ & Hrun). apply bind_ok_inv in Hrun as (mk & _ & Hrun).
  apply bind_ok_inv in Hrun as (ok & _ & Hrun). apply bind_ok_inv in Hrun as (ov & Hov & Hrun).
  apply bind_ok_inv in Hrun as ([[ok' ov'] h] & Hget & Hrun).
  destruct (Z.eqb_spec h 1) as [->|].
  - apply bind_ok_inv in Hrun as (v1 & H1 & Hrun). apply bind_ok_inv in Hrun as (v0 & H0 & Hrun).
    injection Hrun as <-. split; [by eexists _, _, _, _|]. right. split; [done|].
    eapply get_match_res_value; [done| |done..]. by eapply fresh_zlen.
  - injection Hrun as <-. split; [|by left].
    exists (match_value phv), (match_value_len phv), false, (miss_act_id th). by destruct phv.
Qed.

Lemma matcher_execute_selects `{Target} id m mt phv phv' :
  matcher_execute id m mt phv = Ok phv' →
  ∃ th, rd mt.(mts) id = Ok th ∧ same_but_match phv phv' ∧ selectable m th phv'.(next_action_id).
Proof.
  intros Hrun. unfold matcher_execute in Hrun. apply bind_ok_inv in Hrun as (th & Hth & Hrun).
  exists th. split; [done|]. destruct (no_table th) eqn:Hnt; [|by apply lookup_selects in Hrun].
  injection Hrun as <-. split; [|by left].
  exists (match_value phv), (match_value_len phv), false, (miss_act_id th). by destruct phv.
Qed.

(** The row's bytes, when its blocks are there. *)
Lemma row_action_cells m th s row a slice vseq gs :
  slice_of s th.(depth) = Ok slice →
  block_seq any_index th.(sram_value_config) th.(sram_slice_value_width) slice th.(depth) = Ok vseq →
  zlen vseq = th.(sram_slice_value_width) → 1 ≤ zlen vseq → seq_ok th.(sram) vseq gs (zlen m.(srams)) → 0 ≤ row < 1024 →
  row_action m th s row a →
  a = cell m.(srams) (gs 0) (row * SRAM_ROW + 1) + 256 * cell m.(srams) (gs 0) (row * SRAM_ROW).
Proof.
  intros Hs Hv Hl H1 Hseq Hr (slice' & vseq' & ov & ov' & v1 & v0 & Hs' & Hv' & Hov & Hload & R1 & R0 & ->).
  rewrite Hs in Hs'. injection Hs' as <-. rewrite Hv in Hv'. injection Hv' as <-.
  destruct (load_row_spec (sram th) SRAM_BYTES SRAM_ROW vseq gs row (srams m) ov) as (o & Ho & Hol & Hat);
    [done|done|lia|change SRAM_ROW with 16; change SRAM_BYTES with 16384; lia|by rewrite Hl|].
  rewrite Ho in Hload. injection Hload as <-. revert Hat Hov Hol. change SRAM_ROW with 16. intros Hat Hov Hol.
  rewrite rd_at in R1, R0 by lia. injection R1 as <-. injection R0 as <-.
  rewrite !Hat by lia. change (1 / 16) with 0. change (0 / 16) with 0. change (1 mod 16) with 1. change (0 mod 16) with 0.
  rewrite Z.shiftl_mul_pow2, Z.add_0_r by lia. lia.
Qed.

(** ** Examples

    A table of one key block and one value block. *)
Definition demo_thread (k v : Z) : MatcherThread :=
  with_misc ∅ false EXACT [mkFieldInfo 0 0 16 FIELD] 0 7
    (with_tables (sram_ptrs true 0) (tcam_ptrs true 0) (k :: replicate 19 0) (v :: replicate 19 0) 1 1 1 false
      (MatcherThread_init (H := x86) true 0)).

Lemma demo_cfg_ok k v c : 0 ≤ c < 20 → cfg_ok (demo_thread k v) (c :: replicate 19 0) 1.
Proof.
  intros Hc. split; try (cbn; lia); try done.
  - intros i Hi. cbn in Hi. assert (i = 0) as -> by lia. done.
  - intros i j Hi Hj _. cbn in Hi, Hj. lia.
Qed.

Lemma demo_exact_wf k v : 0 ≤ k < 20 → 0 ≤ v < 20 → k ≠ v → exact_wf init_mem (demo_thread k v).
Proof.
  intros Hk Hv Hne. split; try done; try (by apply demo_cfg_ok).
  intros i j Hi Hj. cbn in Hi, Hj. assert (i = 0) as -> by lia. assert (j = 0) as -> by lia. done.
Qed.

Lemma demo_disjoint : tables_disjoint (demo_thread 0 1) (demo_thread 2 3).
Proof.
  intros g (s & i & [[Hi ->]|[Hi ->]]) s' j; cbn in Hi; assert (i = 0) as -> by lia;
    unfold blk; rewrite !Z.mod_1_r; (split; intros Hj; cbn in Hj; assert (j = 0) as -> by lia; done).
Qed.

Lemma exact_table_refines_witness :
  let es := [([10; 1], [0; 5; 77]); ([3; 3], [0; 6; 1])] in
  ∃ m', insert_all es (init_mem, demo_thread 0 1) = Ok (m', demo_thread 0 1) ∧
    (∃ ok ov, lookup_sram (H := x86) m' (demo_thread 0 1) [10; 1] 16 = Ok (ok, ov, 1) ∧ at_ ov 2 = 77) ∧
    ∃ ok ov, lookup_sram (H := x86) m' (demo_thread 0 1) [1; 10] 16 = Ok (ok, ov, 0).
Proof.
  intros es.
  assert (Hes : Forall (entry_ok (demo_thread 0 1) 2) es) by (repeat constructor; vm_compute; discriminate).
  assert (Hwf : exact_wf init_mem (demo_thread 0 1)) by (apply demo_exact_wf; lia).
  destruct (exact_table_refines (H := x86) init_mem (demo_thread 0 1) es [10; 1] 16) as (m' & Hins & _ & ok & ov & Hl & Hv);
    [exact Hwf|exact Hes|reflexivity|vm_compute; discriminate|].
  destruct (exact_table_refines (H := x86) init_mem (demo_thread 0 1) es [1; 10] 16) as (m2 & Hins2 & _ & Hmiss);
    [exact Hwf|exact Hes|reflexivity|vm_compute; discriminate|].
  rewrite Hins in Hins2. injection Hins2 as <-.
  exists m'. split; [exact Hins|]. split; [|exact Hmiss].
  exists ok, ov. split; [exact Hl|]. apply (Hv 2). vm_compute. split; [discriminate|reflexivity].
Defined.

Lemma exact_tables_isolated_witness :
  ∃ m', insert_sram_entry [10; 1] [0; 5; 77] 2 3 (init_mem, demo_thread 0 1) = Ok (m', demo_thread 0 1) ∧
    lookup_sram (H := x86) m' (demo_thread 2 3) [10; 1] 16 =
    lookup_sram (H := x86) init_mem (demo_thread 2 3) [10; 1] 16.
Proof.
  destruct (exact_tables_isolated (H := x86) init_mem (demo_thread 0 1) (demo_thread 2 3) [10; 1] [0; 5; 77] [10; 1] 16)
    as (m' & Hins & _ & Hl).
  - apply demo_exact_wf; lia.
  - apply demo_exact_wf; lia.
  - exact demo_disjoint.
  - split; vm_compute; discriminate.
  - split; vm_compute; discriminate.
  - reflexivity.
  - vm_compute. discriminate.
  - exists m'. split; [exact Hins|exact Hl].
Defined.

Lemma exact_empty_zero_hits_witness :
  ∃ ok ov, lookup_sram (H := x86) init_mem (demo_thread 0 1) [0; 0] 16 = Ok (ok, ov, 1) ∧ at_ ov 0 = 0.
Proof.
  destruct (exact_empty_zero_hits (H := x86) (demo_thread 0 1) 16) as (ok & ov & Hl & Hv).
  - apply demo_exact_wf; lia.
  - lia.
  - vm_compute. discriminate.
  - exists ok, ov. split; [exact Hl|]. destruct ov as [|x ov]; [reflexivity|]. apply (Hv 0).
    unfold zlen. cbn [length]. lia.
Defined.

Lemma match_outcome_witness :
  ∃ ov, generate_match_key_and_match (H := x86) init_mem (demo_thread 0 1) (PHV_init (H := x86)) =
    Ok (set_next_action_id 0 (set_match_value_len (zlen ov) (set_match_value (Some ov)
      (set_hit true (PHV_init (H := x86)))))).
Proof.
  destruct (match_outcome (H := x86) init_mem (demo_thread 0 1) (mkFieldInfo 0 0 16 FIELD) (PHV_init (H := x86)))
    as (key & Hb & Hl & Hv & Hhit & _).
  - apply demo_exact_wf; lia.
  - apply PHV_init_wf.
  - reflexivity.
  - discriminate.
  - cbn. lia.
  - cbn. lia.
  - cbn. lia.
  - vm_compute. intros; discriminate.
  - vm_compute. intros; discriminate.
  - destruct Hhit as (ov & _ & _ & Hrun).
    + intros k Hk. unfold row_key. rewrite cell_init, (be_val_digit key k Hb Hk), Hv.
      change (field_val _ _ _) with 0. reflexivity.
    + exists ov. rewrite Hrun. unfold row_value. rewrite !cell_init. reflexivity.
Defined.

Definition demo_tcam : MatcherThread := init_match_type TERNARY (demo_thread 0 1).

Lemma tcam_ignores_keys_witness :
  (λ r : list Z * list Z * Z, (r.1.2, r.2)) <$>
    get_match_res (H := x86) (set_tcams (replicate 64 {[ 0 := 1 ]}) init_mem.(tcam_masks) init_mem) demo_tcam
      [10; 1] 16 (replicate 8 0) (replicate 16 0) 0 =
  (λ r : list Z * list Z * Z, (r.1.2, r.2)) <$>
    get_match_res (H := x86) init_mem demo_tcam [10; 1] 16 (replicate 8 0) (replicate 16 0) 0.
Proof.
  apply (tcam_ignores_keys (H := x86) init_mem (replicate 64 {[ 0 := 1 ]}) demo_tcam [10; 1] 16
    (replicate 8 0) (replicate 16 0) 0).
  - split; try done; try (cbn; lia). intros i Hi. cbn in Hi. assert (i = 0) as -> by lia.
    vm_compute. split; [discriminate|reflexivity].
  - reflexivity.
  - reflexivity.
  - reflexivity.
Defined.
