(* ===== verification/Pipeline.v ===== *)
(** * Processors and the pipeline (processor.h, pipeline.h)

    A processor parses a packet, lets its gateway choose a table or another stage,
    matches the packet against the table and runs the action the match selected.
    The pipeline moves a packet from processor to processor until the next
    processor is -1. *)

From stdpp Require Import base numbers list gmap.
From Stdlib Require Import ZArith Lia.
From S2P Require Import Prelude Bits Phv Parser Executor Gateway Matcher.

#[local] Open Scope Z_scope.

(** ** Processors *)
Record Processor : Type := mkProcessor {
  parser : Parser;
  gateway : Gateway;
  matcher : option Matcher;   (** the pointer is set by [set_proc_id] *)
  exe : Executor;
  proc_id : Z
}.

Definition Processor_init `{Target} : Processor :=
  mkProcessor Parser_init Gateway_init None Executor_init 0.

Definition set_proc_id `{Target} (mem_ready : bool) (_proc_id : Z) (p : Processor) : Processor :=
  mkProcessor p.(parser) p.(gateway) (Some (Matcher_init mem_ready _proc_id)) p.(exe) _proc_id.

Definition with_parser (x : Parser) (p : Processor) : Processor :=
  mkProcessor x p.(gateway) p.(matcher) p.(exe) p.(proc_id).
Definition with_gateway (x : Gateway) (p : Processor) : Processor :=
  mkProcessor p.(parser) x p.(matcher) p.(exe) p.(proc_id).
Definition with_matcher (x : Matcher) (p : Processor) : Processor :=
  mkProcessor p.(parser) p.(gateway) (Some x) p.(exe) p.(proc_id).
Definition with_exe (x : Executor) (p : Processor) : Processor :=
  mkProcessor p.(parser) p.(gateway) p.(matcher) x p.(proc_id).

(** [matcher->...]. *)
Definition the_matcher (p : Processor) : res Matcher :=
  match p.(matcher) with Some mt => Ok mt | None => Fault WildPointer end.

(** [action_proc_map[a]]: reading a key that is not there inserts it with 0. *)
Definition map_index (m : gmap Z Z) (a : Z) : gmap Z Z * Z :=
  match m !! a with Some v => (m, v) | None => (<[a := 0]> m, 0) end.

Definition with_proc_map (apm : gmap Z Z) (th : MatcherThread) : MatcherThread :=
  with_misc apm th.(no_table) th.(match_type) th.(fdInfos) th.(tcam_idx) th.(miss_act_id) th.

(** The rest of [process_packet] once the gateway chose a table. *)
Definition process_table `{Target} (m : Mem) (p : Processor) (phv : PHV) : res (Processor * PHV) :=
  let id := phv.(next_op).(ge_val) in
  mt ← the_matcher p;
  phv ← matcher_execute id m mt phv;
  th ← rd mt.(mts) id;
  let '(apm, next) := map_index th.(action_proc_map) phv.(next_action_id) in
  l ← wr mt.(mts) id (with_proc_map apm th);
  '(x, phv) ← executor_execute p.(exe) (set_next_proc_id next phv);
  mret (with_exe x (with_matcher (mkMatcher l mt.(matcher_proc_id)) p), phv).

(** [process_packet]. *)
Definition process_packet `{Target} (m : Mem) (p : Processor) (phv : PHV) : res (Processor * PHV) :=
  phv ← parser_parse p.(parser) phv;
  if phv.(next_proc_id) =? -1 then mret (p, phv)
  else
    '(g, phv) ← gateway_execute p.(gateway) phv;
    let p := with_gateway g p in
    match phv.(next_op).(ge_type) with
    | STAGE => mret (p, set_next_proc_id phv.(next_op).(ge_val) phv)
    | TABLE => process_table m p phv
    end.

(** ** The pipeline *)
Record Pipeline : Type := mkPipeline {
  procs : list Processor;
  proc_num : Z;
  meta_infos : list HeaderInfo
}.

Definition Pipeline_init `{Target} (mem_ready : bool) (_proc_num : Z) : Pipeline :=
  mkPipeline ((λ i, set_proc_id mem_ready (Z.of_nat i) Processor_init) <$> seq 0 (Z.to_nat _proc_num))
    _proc_num [].

(** [Pipeline::execute]: the loop ends when the next processor is -1; [None] when
    it has not ended after [fuel] turns. *)
Fixpoint pipeline_execute `{Target} (fuel : nat) (m : Mem) (pl : Pipeline) (phv : PHV)
    : option (res (Pipeline * PHV)) :=
  if phv.(next_proc_id) =? -1 then Some (Ok (pl, phv))
  else
    match fuel with
    | O => None
    | S fuel' =>
        match (p ← rd pl.(procs) phv.(next_proc_id);
               '(p, phv') ← process_packet m p phv;
               l ← wr pl.(procs) phv.(next_proc_id) p;
               mret (mkPipeline l pl.(proc_num) pl.(meta_infos), phv')) with
        | Fault f => Some (Fault f)
        | Ok (pl, phv) => pipeline_execute fuel' m pl phv
        end
    end.

(** ** Configuration *)
Definition on_proc (i : Z) (f : Processor → res Processor) (pl : Pipeline) : res Pipeline :=
  p ← rd pl.(procs) i;
  p ← f p;
  l ← wr pl.(procs) i p;
  mret (mkPipeline l pl.(proc_num) pl.(meta_infos)).

Definition on_proc_mem (i : Z) (f : Mem * Processor → res (Mem * Processor)) (st : Mem * Pipeline)
    : res (Mem * Pipeline) :=
  let '(m, pl) := st in
  p ← rd pl.(procs) i;
  '(m, p) ← f (m, p);
  l ← wr pl.(procs) i p;
  mret (m, mkPipeline l pl.(proc_num) pl.(meta_infos)).

Definition on_matcher (f : Matcher → res Matcher) (p : Processor) : res Processor :=
  mt ← the_matcher p; mt ← f mt; mret (with_matcher mt p).

Definition on_matcher_mem (f : Mem * Matcher → res (Mem * Matcher)) (st : Mem * Processor)
    : res (Mem * Processor) :=
  let '(m, p) := st in
  mt ← the_matcher p; '(m, mt) ← f (m, mt); mret (m, with_matcher mt p).

Definition set_metadata_header (metas : list HeaderInfo) (pl : Pipeline) : Pipeline :=
  mkPipeline pl.(procs) pl.(proc_num) metas.
Definition get_metadata_header (pl : Pipeline) : list HeaderInfo := pl.(meta_infos).

Definition ppl_init_parser_level (proc level : Z) : Pipeline → res Pipeline :=
  on_proc proc (λ p, Ok (with_parser (init_parser_level level p.(parser)) p)).
Definition ppl_clear_parser (proc : Z) : Pipeline → res Pipeline :=
  on_proc proc (λ p, x ← parser_clear p.(parser); mret (with_parser x p)).
Definition ppl_modify_parser_entry (proc level : Z) (key value : list Z) : Pipeline → res Pipeline :=
  on_proc proc (λ p, x ← modify_parser_entry level key value p.(parser); mret (with_parser x p)).
Definition ppl_modify_parser_entry_direct (proc level state entry mask hdr_id hdr_len next_state trans_fd_num : Z)
    (trans_fds : list FieldInfo) (miss_act : Z) : Pipeline → res Pipeline :=
  on_proc proc (λ p,
    x ← modify_parser_entry_direct level state entry mask hdr_id (u16 hdr_len) next_state trans_fd_num
          trans_fds miss_act p.(parser);
    mret (with_parser x p)).

Definition ppl_insert_exp (proc : Z) (e : RelationExp) : Pipeline → res Pipeline :=
  on_proc proc (λ p, Ok (with_gateway (insert_exp e p.(gateway)) p)).
Definition ppl_clear_exp (proc : Z) : Pipeline → res Pipeline :=
  on_proc proc (λ p, Ok (with_gateway (gateway_clear p.(gateway)) p)).
Definition ppl_clear_res_map (proc : Z) : Pipeline → res Pipeline :=
  on_proc proc (λ p, Ok (with_gateway (clear_res_next p.(gateway)) p)).
Definition ppl_set_default_entry (proc : Z) (t : GateEntryType) (v : Z) : Pipeline → res Pipeline :=
  on_proc proc (λ p, Ok (with_gateway (set_default_entry (mkGateEntry t v) p.(gateway)) p)).
Definition ppl_modify_res_map (proc key : Z) (t : GateEntryType) (v : Z) : Pipeline → res Pipeline :=
  on_proc proc (λ p, Ok (with_gateway (modify_res_map key t v p.(gateway)) p)).

Definition ppl_clear_old_config (proc idx : Z) : Mem * Pipeline → res (Mem * Pipeline) :=
  on_proc_mem proc (on_matcher_mem (on_thread_mem idx clear_old_config)).
Definition ppl_set_action_proc_map (proc idx : Z) (apm : list (Z * Z)) : Pipeline → res Pipeline :=
  on_proc proc (on_matcher (on_thread idx (set_action_proc_map apm))).
Definition ppl_init_match_type (proc idx : Z) (t : MatchType) : Pipeline → res Pipeline :=
  on_proc proc (on_matcher (on_thread idx (init_match_type t))).
Definition ppl_set_mem_config (proc idx kw vw d : Z) (kc vc : list Z) : Mem * Pipeline → res (Mem * Pipeline) :=
  on_proc_mem proc (on_matcher_mem (on_thread_mem idx (λ '(m, th),
    th ← thread_set_mem_config kw vw d kc vc th; mret (m, th)))).
Definition ppl_set_no_table (proc idx : Z) (b : bool) : Pipeline → res Pipeline :=
  on_proc proc (on_matcher (on_thread idx (set_no_table b))).
Definition ppl_insert_sram_entry (proc idx : Z) (key value : list Z) (klen vlen : Z)
    : Mem * Pipeline → res (Mem * Pipeline) :=
  on_proc_mem proc (on_matcher_mem (on_thread_mem idx (insert_sram_entry key value klen vlen))).
Definition ppl_insert_tcam_entry (proc idx : Z) (key mask value : list Z) (klen vlen : Z)
    : Mem * Pipeline → res (Mem * Pipeline) :=
  on_proc_mem proc (on_matcher_mem (on_thread_mem idx (insert_tcam_entry key mask value klen vlen))).
Definition ppl_set_field_infos (proc idx : Z) (fds : list FieldInfo) : Pipeline → res Pipeline :=
  on_proc proc (on_matcher (on_thread idx (set_field_info fds))).
Definition ppl_set_miss_act_id (proc idx act : Z) : Pipeline → res Pipeline :=
  on_proc proc (on_matcher (on_thread idx (set_miss_act_id act))).

Definition ppl_insert_action (proc : Z) (ac : Action) (id : Z) : Pipeline → res Pipeline :=
  on_proc proc (λ p, x ← insert_action ac id p.(exe); mret (with_exe x p)).
Definition ppl_del_action (proc id : Z) : Pipeline → res Pipeline :=
  on_proc proc (λ p, x ← del_action id p.(exe); mret (with_exe x p)).
Definition ppl_clear_action (proc : Z) : Pipeline → res Pipeline :=
  on_proc proc (λ p, x ← clear_action p.(exe); mret (with_exe x p)).


(** ** What each stage leaves alone *)

Lemma modify_phv_frame f d phv phv' :
  modify_phv_with_data f d phv = Ok phv' → next_proc_id phv' = next_proc_id phv.
Proof.
  unfold modify_phv_with_data. intros. inv_ok. destruct x1 as [buf idx]. inv_ok.
  destruct x1 as [q idx']. by inv_ok.
Qed.

Lemma modify_field_frame f d phv phv' :
  modify_field_with_data f d phv = Ok phv' → ∃ q, phv' = set_packet q phv ∧ zlen q = zlen phv.(packet) ∧
    (bytes phv.(packet) → bytes q).
Proof.
  intros Hrun. unfold modify_field_with_data in Hrun.
  repeat match type of Hrun with (_ ≫= _) = _ => apply bind_ok_inv in Hrun as (? & ? & Hrun) end.
  match type of Hrun with (let '(_, _) := ?x in _) = _ => destruct x as [q idx] end.
  injection Hrun as <-. exists q. split; [done|].
  match goal with Hs : span_store _ _ _ _ _ = Ok _ |- _ => unfold span_store in Hs; revert Hs end.
  intros Hs.
  pattern q. change ((λ st : list Z * Z, zlen st.1 = zlen (packet phv) ∧ (bytes (packet phv) → bytes st.1)) (q, idx)).
  eapply for_up_pres; [| |exact Hs]; [|done].
  intros j [t i] [t' i'] [Hl Ht] Hb. cbn [fst] in *. inv_ok.
  match goal with Hw : wr _ _ _ = Ok _ |- _ => apply wr_ok_inv in Hw as [_ ->] end. cbn [fst].
  rewrite zlen_insert. split; [done|]. intros Hp. apply bytes_insert; [auto|apply u8_range].
Qed.

(** Whatever assigns to the packet only. *)
Definition same_but_packet (phv phv' : PHV) : Prop :=
  ∃ q, phv' = set_packet q phv ∧ zlen q = zlen phv.(packet) ∧ (bytes phv.(packet) → bytes q).

#[export] Instance same_but_packet_preorder : PreOrder same_but_packet.
Proof.
  split.
  - intros phv. exists (packet phv). by destruct phv.
  - intros a b c (q & -> & Hl & Hb) (r & -> & Hl' & Hb'). exists r. cbn in *. split; [done|].
    split; [congruence|auto].
Qed.

Lemma action_execute_frame `{Target} a phv phv' :
  action_execute a phv = Ok phv' → same_but_packet phv phv'.
Proof.
  unfold action_execute. generalize (prims a). intros l. revert phv.
  induction l as [|pr l IH]; intros phv; cbn [for_each]; [by intros [= <-]|].
  intros Hrun. apply bind_ok_inv in Hrun as (p1 & H1 & Hrun). transitivity p1; [|by apply IH].
  unfold prim_run in H1. apply bind_ok_inv in H1 as (d & _ & H1). destruct (lvalue pr); [|done].
  by eapply modify_field_frame.
Qed.

(** What running an action may change of its slot: the parameters it cut. *)
Definition same_slot (sl sl' : slot) : Prop :=
  sl' = sl ∨ ∃ a ps, sl = SLive a ∧ sl' = SLive (mkAction a.(prims) a.(para_num) ps a.(action_para_lens)).

#[export] Instance same_slot_preorder : PreOrder same_slot.
Proof.
  split; [by left|]. intros x y z [->|(a & ps & -> & ->)] [->|(a' & ps' & E & ->)]; unfold same_slot; try (injection E as <-); eauto 6.
Qed.

Lemma executor_execute_frame `{Target} x phv x' phv' :
  executor_execute x phv = Ok (x', phv') →
  same_but_packet phv phv' ∧ Forall2 same_slot x.(_actions) x'.(_actions).
Proof.
  intros Hrun. unfold executor_execute in Hrun. apply bind_ok_inv in Hrun as (sl & Hs & Hrun).
  apply bind_ok_inv in Hrun as (a & Ha & Hrun). apply bind_ok_inv in Hrun as (a' & Ha' & Hrun).
  apply bind_ok_inv in Hrun as (l & Hl & Hrun). apply bind_ok_inv in Hrun as (phv1 & Hx & Hrun).
  injection Hrun as <- <-. split; [by eapply action_execute_frame|]. cbn [_actions].
  apply rd_ok_inv in Hs as [Hi Hs]. apply wr_ok_inv in Hl as [_ ->].
  rewrite <- (list_insert_id (_actions x) _ sl Hs) at 1. apply Forall2_insert; [done|].
  destruct sl; try done. injection Ha as ->. unfold set_action_paras in Ha'. inv_ok.
  match goal with q : (_ * _)%type |- _ => destruct q end. inv_ok. right. eauto.
Qed.

Lemma same_but_packet_wf phv phv' : same_but_packet phv phv' → phv_wf phv → phv_wf phv'.
Proof. intros (q & -> & Hl & Hb) Hwf. apply set_packet_wf; [done|apply Hb, Hwf|done]. Qed.

Lemma same_but_packet_next phv phv' : same_but_packet phv phv' → phv'.(next_proc_id) = phv.(next_proc_id).
Proof. by intros (q & -> & _). Qed.

Lemma same_but_match_wf phv phv' : same_but_match phv phv' → phv_wf phv → phv_wf phv'.
Proof. intros (? & ? & ? & ? & ->) []. by split. Qed.

Lemma drop_packet_next `{Target} phv phv' :
  drop_packet phv = Ok phv' → phv'.(next_proc_id) = phv.(next_proc_id).
Proof. unfold drop_packet. intros. inv_ok. by eapply modify_phv_frame. Qed.

(** The parser keeps the processor the packet is at, or ends its way. *)
Lemma stage_parse_next `{Target} s phv phv' :
  stage_parse s phv = Ok phv' → phv'.(next_proc_id) = phv.(next_proc_id) ∨ phv'.(next_proc_id) = -1.
Proof.
  intros Hrun. unfold stage_parse in Hrun. destruct (find_entry _ _ _ _).
  - apply bind_ok_inv in Hrun as (e & _ & Hrun). apply bind_ok_inv in Hrun as (phv1 & H1 & Hrun).
    assert (next_proc_id phv1 = next_proc_id phv) as <- by (unfold extract_header in H1; inv_ok; done).
    repeat case_match; inv_ok; auto. apply drop_packet_next in Hrun. auto.
  - repeat case_match; inv_ok; auto. apply drop_packet_next in Hrun. auto.
Qed.

Lemma parser_parse_next `{Target} p phv phv' :
  parser_parse p phv = Ok phv' → phv'.(next_proc_id) = phv.(next_proc_id) ∨ phv'.(next_proc_id) = -1.
Proof.
  unfold parser_parse. case_match; [intros [= <-]; auto|]. case_match; [intros [= <-]; auto|].
  generalize (Z.to_nat (needed_parser_level p)), 0. intros n. revert phv.
  induction n as [|n IH]; intros phv i Hrun; cbn [parse_levels] in Hrun; [injection Hrun as <-; auto|].
  inv_ok. apply stage_parse_next in Hok0. case_match; [inv_ok; auto|].
  apply IH in Hrun as [->| ->]; auto.
Qed.

(** The bitmap is cleared for the next packet. *)
Definition with_bitmap (b : Z) (g : Gateway) : Gateway :=
  mkGateway b g.(default_entry) g.(exps) g.(exps_size) g.(res_next).

(** The entries a gateway can choose. *)
Definition gate_target (g : Gateway) (e : GateEntry) : Prop :=
  e = g.(default_entry) ∨ ∃ k, g.(res_next) !! k = Some e.

Lemma gateway_execute_frame `{Target} g phv g' phv' :
  gateway_execute g phv = Ok (g', phv') →
  g' = with_bitmap 0 g ∧ ∃ e, gate_target g e ∧ phv' = set_next_op e phv.
Proof.
  unfold gateway_execute. intros Hrun. inv_ok. split; [done|]. eexists. split; [|done].
  case_match; [right; eauto|by left].
Qed.

(** ** What stays of a processor

    Processing a packet changes the processor: the gateway clears its bitmap, the
    executor keeps the parameters it cut, and reading the map of a thread at a
    missing key stores a 0 there.  Everything else stays. *)
Definition same_thread (th th' : MatcherThread) : Prop :=
  ∃ apm, th' = with_proc_map apm th ∧
    ∀ a, apm !! a = th.(action_proc_map) !! a ∨ th.(action_proc_map) !! a = None ∧ apm !! a = Some 0.

Definition same_matcher (mt mt' : Matcher) : Prop :=
  Forall2 same_thread mt.(mts) mt'.(mts) ∧ mt'.(matcher_proc_id) = mt.(matcher_proc_id).

Record same_config (p p' : Processor) : Prop := {
  sc_parser : p'.(parser) = p.(parser);
  sc_gateway : p'.(gateway) = p.(gateway) ∨ p'.(gateway) = with_bitmap 0 p.(gateway);
  sc_matcher : option_Forall2 same_matcher p.(matcher) p'.(matcher);
  sc_actions : Forall2 same_slot p.(exe).(_actions) p'.(exe).(_actions);
  sc_id : p'.(proc_id) = p.(proc_id)
}.

#[export] Instance same_thread_preorder : PreOrder same_thread.
Proof.
  split.
  - intros th. exists (action_proc_map th). split; [by destruct th|]. by left.
  - intros a b c (m & -> & Hm) (m' & -> & Hm'). exists m'. split; [by destruct a|]. intros x. cbn in *.
    destruct (Hm x) as [E|[E E']], (Hm' x) as [F|[F F']]; rewrite ?F, ?E in *; try tauto; right; split; congruence.
Qed.

#[export] Instance same_matcher_preorder : PreOrder same_matcher.
Proof.
  split; [by intros mt|]. intros a b c [H1 H2] [H3 H4]. split; [by transitivity (mts b)|congruence].
Qed.

#[export] Instance same_config_preorder : PreOrder same_config.
Proof.
  split.
  - intros p. split; [done|by left|by destruct (matcher p); constructor|done|done].
  - intros a b c [Pa Ga Ma Aa Ia] [Pb Gb Mb Ab Ib]. split; [congruence| | |by transitivity (_actions (exe b))|congruence].
    + destruct Ga as [Ga|Ga], Gb as [Gb|Gb]; rewrite Gb, Ga; first [by left|by right].
    + destruct Ma as [mt mt' Hm|]; inversion Mb as [? mt'' Hm'|]; subst; constructor. by transitivity mt'.
Qed.

Lemma same_thread_default th th' a :
  same_thread th th' → default 0 (th'.(action_proc_map) !! a) = default 0 (th.(action_proc_map) !! a).
Proof. intros (m & -> & Hm). cbn. by destruct (Hm a) as [->|[-> ->]]. Qed.

Lemma exact_wf_map m th x : exact_wf m th → exact_wf m (with_proc_map x th).
Proof. intros [? ? ? ? ? [] [] ?]. split; try done; split; try done. Qed.

(** Where a processor can send a packet. *)
Definition successor (m : Mem) (p : Processor) (j : Z) : Prop :=
  j = -1 ∨ ∃ e, gate_target p.(gateway) e ∧
    match e.(ge_type) with
    | STAGE => j = e.(ge_val)
    | TABLE => ∃ mt th a, p.(matcher) = Some mt ∧ rd mt.(mts) e.(ge_val) = Ok th ∧
        selectable m th a ∧ j = default 0 (th.(action_proc_map) !! a)
    end.

Lemma successor_same m p p' j : same_config p p' → successor m p' j → successor m p j.
Proof.
  intros [_ Hg Hm _ _] [->|(e & He & Hj)]; [by left|]. right. exists e.
  split; [by destruct Hg as [Hg|Hg]; rewrite Hg in He|]. destruct (ge_type e); [|done].
  destruct Hj as (mt' & th' & a & Hmt & Hth & Ha & ->). rewrite Hmt in Hm.
  inversion Hm as [mt ? [Hts _] Hx Hy|]; subst. apply rd_ok_inv in Hth as [Hi Hth].
  destruct (Forall2_lookup_r _ _ _ _ _ Hts Hth) as (th & Hth' & Hs). exists mt, th, a.
  split; [done|]. split; [unfold rd; by rewrite (proj2 (Z.leb_le 0 _)), Hth' by lia|].
  split; [by destruct Hs as (x & -> & _)|]. by apply same_thread_default.
Qed.

(** What processing a packet does: the processor goes on routing alike, the packet
    goes to one of its successors, and stays well-formed. *)
Lemma map_index_spec m a m' v :
  map_index m a = (m', v) →
  v = default 0 (m !! a) ∧ ∀ b, m' !! b = m !! b ∨ m !! b = None ∧ m' !! b = Some 0.
Proof.
  unfold map_index. destruct (m !! a) eqn:E; intros [= <- <-]; [auto|]. split; [done|]. intros b.
  destruct (decide (a = b)) as [<-|]; [right; by rewrite lookup_insert_eq|left; by rewrite lookup_insert_ne].
Qed.

Lemma wr_same_thread l l' i th th' :
  rd l i = Ok th → same_thread th th' → wr l i th' = Ok l' → Forall2 same_thread l l'.
Proof.
  intros Hth Hs Hw. apply rd_ok_inv in Hth as [Hi Hth]. apply wr_ok_inv in Hw as [_ ->].
  rewrite <- (list_insert_id l (Z.to_nat i) th) at 1 by done. by apply Forall2_insert.
Qed.

Lemma process_table_step `{Target} m p phv p' phv' :
  process_table m p phv = Ok (p', phv') →
  same_config p p' ∧ (phv_wf phv → phv_wf phv') ∧
  ∃ mt th a, p.(matcher) = Some mt ∧ rd mt.(mts) phv.(next_op).(ge_val) = Ok th ∧
    selectable m th a ∧ phv'.(next_proc_id) = default 0 (th.(action_proc_map) !! a).
Proof.
  intros Hrun. unfold process_table, the_matcher in Hrun. destruct (matcher p) as [mt|] eqn:Hmt; [|done].
  cbn [mbind res_mbind] in Hrun.
  apply bind_ok_inv in Hrun as (phv1 & Hm & Hrun). apply matcher_execute_selects in Hm as (th & Hth & Hsm & Ha).
  rewrite Hth in Hrun. cbn [mbind res_mbind] in Hrun.
  destruct (map_index _ _) as [apm next] eqn:Hmi. apply map_index_spec in Hmi as [-> Hmi].
  apply bind_ok_inv in Hrun as (l & Hl & Hrun). apply bind_ok_inv in Hrun as ([x phv2] & Hx & Hrun).
  injection Hrun as <- <-. apply executor_execute_frame in Hx as [Hx Hsl]. split; [|split].
  - split; [done|by left| |done|done]. cbn [matcher with_exe with_matcher]. rewrite Hmt. constructor. split; [|done]. cbn [mts].
    apply (wr_same_thread _ _ _ th _ Hth) in Hl; [done|]. by exists apm.
  - intros Hwf. eapply same_but_packet_wf; [done|]. by eapply set_next_proc_id_wf, same_but_match_wf.
  - exists mt, th, (next_action_id phv1). split; [done|]. split; [done|]. split; [done|].
    by rewrite (same_but_packet_next _ _ Hx).
Qed.

Lemma same_config_gateway p : same_config p (with_gateway (with_bitmap 0 p.(gateway)) p).
Proof. split; [done|by right|by cbn; destruct (matcher p); constructor|done|done]. Qed.

Lemma process_packet_step `{Target} m p phv p' phv' :
  phv.(next_proc_id) ≠ -1 → process_packet m p phv = Ok (p', phv') →
  same_config p p' ∧ successor m p phv'.(next_proc_id) ∧ (parser_wf p.(parser) → phv_wf phv → phv_wf phv').
Proof.
  intros Hne Hrun. unfold process_packet in Hrun. apply bind_ok_inv in Hrun as (phv1 & Hp & Hrun).
  assert (Hwf1 : parser_wf p.(parser) → phv_wf phv → phv_wf phv1) by (intros ??; by eapply parser_parse_wf).
  destruct (Z.eqb_spec (next_proc_id phv1) (-1)).
  { injection Hrun as <- <-. split; [done|]. split; [by left|done]. }
  apply bind_ok_inv in Hrun as ([g phv2] & Hg & Hrun). apply gateway_execute_frame in Hg as (-> & e & He & ->).
  pose proof (same_config_gateway p) as Hsc.
  assert (Hwf2 : parser_wf p.(parser) → phv_wf phv → phv_wf (set_next_op e phv1)) by (intros Hq Hw; destruct (Hwf1 Hq Hw); by split).
  cbn [next_op set_next_op] in Hrun. destruct (ge_type e) eqn:Hty.
  - apply process_table_step in Hrun as (Hs & Hw & mt & th & a & Hmt & Hth & Ha & Hn).
    split; [by transitivity (with_gateway (with_bitmap 0 p.(gateway)) p)|]. split; [|auto]. right. exists e. split; [done|].
    rewrite Hty. eauto 10.
  - injection Hrun as <- <-. split; [done|]. split; [right; exists e; by rewrite Hty|].
    intros Hq Hw. by apply set_next_proc_id_wf, Hwf2.
Qed.

(** ** The whole pipeline *)
Definition parsers_wf (pl : Pipeline) : Prop := Forall (λ p, parser_wf p.(parser)) pl.(procs).

Record same_pipeline (pl pl' : Pipeline) : Prop := {
  sp_procs : Forall2 same_config pl.(procs) pl'.(procs);
  sp_num : pl'.(proc_num) = pl.(proc_num);
  sp_metas : pl'.(meta_infos) = pl.(meta_infos)
}.

#[export] Instance same_pipeline_preorder : PreOrder same_pipeline.
Proof.
  split; [by intros pl|]. intros a b c [] []. split; [by transitivity (procs b)|congruence..].
Qed.

(** One turn of the loop. *)
Definition pipeline_turn `{Target} (m : Mem) (pl : Pipeline) (phv : PHV) : res (Pipeline * PHV) :=
  p ← rd pl.(procs) phv.(next_proc_id);
  '(p, phv') ← process_packet m p phv;
  l ← wr pl.(procs) phv.(next_proc_id) p;
  mret (mkPipeline l pl.(proc_num) pl.(meta_infos), phv').

Lemma pipeline_turn_step `{Target} m pl phv pl' phv' :
  phv.(next_proc_id) ≠ -1 → pipeline_turn m pl phv = Ok (pl', phv') →
  same_pipeline pl pl' ∧ (parsers_wf pl → phv_wf phv → phv_wf phv') ∧
  ∃ p, rd pl.(procs) phv.(next_proc_id) = Ok p ∧ successor m p phv'.(next_proc_id).
Proof.
  intros Hne Hrun. unfold pipeline_turn in Hrun. apply bind_ok_inv in Hrun as (p & Hp & Hrun).
  apply bind_ok_inv in Hrun as ([p' phv1] & Hpp & Hrun). apply bind_ok_inv in Hrun as (l & Hl & Hrun).
  injection Hrun as <- <-. apply rd_ok_inv in Hp as Hpi. destruct Hpi as [Hi Hpi].
  apply process_packet_step in Hpp as (Hs & Hsucc & Hw); [|done].
  apply wr_ok_inv in Hl as [_ ->]. split; [split; [cbn [procs]|done..]|split; [|eauto]].
  - rewrite <- (list_insert_id (procs pl) (Z.to_nat (next_proc_id phv)) p) at 1 by done. by apply Forall2_insert.
  - intros Hok. apply Hw. exact (Forall_lookup_1 _ _ _ _ Hok Hpi).
Qed.

Lemma parsers_wf_same pl pl' : same_pipeline pl pl' → parsers_wf pl → parsers_wf pl'.
Proof.
  intros [Hs _ _] Hok. apply Forall_lookup. intros i p' Hp'. destruct (Forall2_lookup_r _ _ _ _ _ Hs Hp') as (p & Hp & Hpp).
  rewrite (sc_parser _ _ Hpp). exact (Forall_lookup_1 _ _ _ _ Hok Hp).
Qed.

(** A numbering of the processors that goes down along every way a packet can take. *)
Definition ranked (m : Mem) (pl : Pipeline) (rank : Z → nat) : Prop :=
  ∀ i p j, rd pl.(procs) i = Ok p → successor m p j → j = -1 ∨ (rank j < rank i)%nat.

Lemma ranked_same m pl pl' rank : same_pipeline pl pl' → ranked m pl rank → ranked m pl' rank.
Proof.
  intros [Hs _ _] Hr i p' j Hp' Hj. apply rd_ok_inv in Hp' as [Hi Hp'].
  destruct (Forall2_lookup_r _ _ _ _ _ Hs Hp') as (p & Hp & Hpp). apply (Hr i p j); [|by eapply successor_same].
  unfold rd. by rewrite (proj2 (Z.leb_le 0 i)), Hp by lia.
Qed.

(** C11. The loop of the pipeline ends on every packet, with a vector or a fault, when
    the processors can be numbered so that the number goes down along every way a
    packet can take; whatever the types of the tables. A way is what a processor's
    gateway chooses: a stage, or a table, whose lookup selects an action, the miss
    action or that of a row, whose entry in the table's map names the next processor,
    0 where the map has none. *)
Theorem pipeline_terminates `{Target} m pl rank phv fuel :
  ranked m pl rank → (rank phv.(next_proc_id) < fuel)%nat →
  ∃ r, pipeline_execute fuel m pl phv = Some r.
Proof.
  revert pl phv. induction fuel as [|fuel IH]; intros pl phv Hr Hf; [lia|]. cbn [pipeline_execute].
  destruct (Z.eqb_spec (next_proc_id phv) (-1)) as [|Hne]; [eauto|]. fold (pipeline_turn m pl phv).
  destruct (pipeline_turn m pl phv) as [[pl' phv']|f] eqn:Ht; [|eauto].
  apply pipeline_turn_step in Ht as (Hs & _ & p & Hp & Hsucc); [|done].
  destruct (Hr _ _ _ Hp Hsucc) as [Hend|Hlt].
  - exists (Ok (pl', phv')). destruct fuel; cbn [pipeline_execute]; by rewrite Hend.
  - apply IH; [by eapply ranked_same|lia].
Qed.

(** C12. Whatever way the packet takes, the pipeline returns at its end and has changed
    nothing of the configuration: every processor has its parser, the expressions,
    entries and map of its gateway, its tables with their memory, and its actions with
    their primitives, but for three things: the bitmap of a gateway may be cleared, an
    action may have other parameters, and the map of a table may have got entries of 0
    where it had none. When the parsers are well-formed, so is the vector it returns. *)
Theorem pipeline_keeps_wf `{Target} m pl phv fuel pl' phv' :
  pipeline_execute fuel m pl phv = Some (Ok (pl', phv')) →
  phv'.(next_proc_id) = -1 ∧ same_pipeline pl pl' ∧ (parsers_wf pl → phv_wf phv → phv_wf phv').
Proof.
  revert pl phv. induction fuel as [|fuel IH]; intros pl phv; cbn [pipeline_execute];
    (destruct (Z.eqb_spec (next_proc_id phv) (-1)) as [|Hne]; [by intros [= <- <-]|]); [done|].
  fold (pipeline_turn m pl phv). destruct (pipeline_turn m pl phv) as [[pl1 phv1]|f] eqn:Ht; [|done].
  apply pipeline_turn_step in Ht as (Hs & Hw & _); [|done]. intros Hrun.
  apply IH in Hrun as (? & ? & ?). split; [done|]. split; [by transitivity pl1|].
  intros Hp Hq. pose proof (parsers_wf_same _ _ Hs Hp). auto.
Qed.

(** A processor that parses nothing, whose gateway always chooses one table, which is
    not there and misses with an action that does nothing and is not mapped. *)
Record spins (p : Processor) (id : Z) (th : MatcherThread) : Prop := {
  sp_works : p.(parser).(if_work) ≠ 0;
  sp_levels : p.(parser).(needed_parser_level) = 0;
  sp_exps : p.(gateway).(exps) = [];
  sp_bitmap : p.(gateway).(g_bitmap) = 0;
  sp_gate : default p.(gateway).(default_entry) (p.(gateway).(res_next) !! 0) = mkGateEntry TABLE id;
  sp_matcher : ∃ mt, p.(matcher) = Some mt ∧ rd mt.(mts) id = Ok th;
  sp_no_table : th.(no_table) = true;
  sp_map : default 0 (th.(action_proc_map) !! th.(miss_act_id)) = 0;
  sp_action : ∃ a, rd p.(exe).(_actions) th.(miss_act_id) = Ok (SLive a) ∧ a.(prims) = [] ∧ a.(para_num) = 0
}.

Lemma spins_table `{Target} m p id th phv :
  spins p id th → phv.(next_op).(ge_val) = id →
  ∃ p' th' phv', process_table m p phv = Ok (p', phv') ∧ spins p' id th' ∧ phv'.(next_proc_id) = 0.
Proof.
  intros [] Hid. destruct sp_matcher0 as (mt & Hmt & Hth). destruct sp_action0 as (a & Ha & Hpr & Hpn).
  unfold process_table, the_matcher, matcher_execute. rewrite Hmt, Hid. cbn [mbind res_mbind].
  rewrite Hth. cbn [mbind res_mbind]. rewrite sp_no_table0. cbn [mbind res_mbind mret res_mret].
  cbn [next_action_id set_next_action_id].
  destruct (map_index _ _) as [apm next] eqn:Hmi. apply map_index_spec in Hmi as [-> Hmi]. rewrite sp_map0.
  apply rd_ok_inv in Hth as Hi. destruct Hi as [Hi _]. rewrite (wr_ok (mts mt)) by done. cbn [mbind res_mbind].
  unfold executor_execute. cbn [next_action_id set_next_action_id set_next_proc_id]. rewrite Ha.
  cbn [mbind res_mbind deref]. unfold set_action_paras. rewrite Hpn, for_lt_empty by done. cbn [mbind res_mbind].
  apply rd_ok_inv in Ha as Hai. destruct Hai as [Hai _]. cbn [mbind res_mbind mret res_mret]. rewrite wr_ok by done.
  unfold action_execute. cbn [mbind res_mbind prims]. rewrite Hpr. cbn [for_each mbind res_mbind].
  eexists _, (with_proc_map apm th), _. split; [done|]. split; [|done].
  split; cbn [parser gateway matcher exe with_exe with_matcher _actions]; try done.
  - eexists. split; [done|]. by apply rd_insert_eq.
  - cbn. by destruct (Hmi (miss_act_id th)) as [->|[_ ->]].
  - eexists. split; [by apply rd_insert_eq|]. done.
Qed.

Lemma spins_step `{Target} m p id th phv :
  spins p id th → phv.(next_proc_id) = 0 →
  ∃ p' th' phv', process_packet m p phv = Ok (p', phv') ∧ spins p' id th' ∧ phv'.(next_proc_id) = 0.
Proof.
  intros Hs Hn. destruct Hs as [Hw Hlv Hex Hbm Hge ? ? ? ?] eqn:E. clear E.
  assert (Hp : parser_parse (parser p) phv = Ok phv).
  { unfold parser_parse. by rewrite (proj2 (Z.eqb_neq _ 0)), Hlv. }
  set (g := mkGateway 0 (default_entry (gateway p)) [] (exps_size (gateway p)) (res_next (gateway p))).
  assert (Hg : gateway_execute (gateway p) phv = Ok (g, set_next_op (mkGateEntry TABLE id) phv)).
  { unfold gateway_execute. rewrite Hex, for_lt_empty by done. cbn [mbind res_mbind]. rewrite Hbm, <- Hge.
    by destruct (_ !! _). }
  unfold process_packet. rewrite Hp. cbn [mbind res_mbind]. rewrite Hn. cbn [Z.eqb].
  rewrite Hg. cbn [mbind res_mbind next_op set_next_op ge_type].
  by apply (spins_table m (with_gateway g p) id th).
Qed.

(** A miss action the map of its table does not name sends the packet to processor
    0: when processor 0 itself misses that way, with an action that does nothing,
    the loop of the pipeline never ends, and the switch handles no other packet. *)
Lemma pipeline_diverges `{Target} m pl p id th phv fuel :
  rd pl.(procs) 0 = Ok p → spins p id th → phv.(next_proc_id) = 0 →
  pipeline_execute fuel m pl phv = None.
Proof.
  revert pl p th phv. induction fuel as [|fuel IH]; intros pl p th phv Hp Hs Hn; cbn [pipeline_execute];
    rewrite Hn; change (0 =? -1) with false; cbn iota; [done|].
  rewrite Hp. cbn [mbind res_mbind]. destruct (spins_step m p id th phv Hs Hn) as (p' & th' & phv' & -> & Hs' & Hn').
  cbn [mbind res_mbind]. apply rd_ok_inv in Hp as [Hi _]. rewrite wr_ok by done. cbn [mbind res_mbind].
  eapply IH; [|exact Hs'|done]. by apply rd_insert_eq.
Qed.

(** ** Examples

    A pipeline of two processors: the first matches the first 16 bits of header 0
    and sends the packet to the second, which ends its way. *)
Definition demo_thread0 (t : MatchType) : MatcherThread := init_match_type t (with_proc_map {[ 0 := 1; 7 := 1 ]} (demo_thread 0 1)).
Definition demo_proc0 (t : MatchType) : Processor := mkProcessor (init_parser_level 0 (Parser_init (H := x86)))
  (set_default_entry (mkGateEntry TABLE 0) (Gateway_init (H := x86)))
  (Some (mkMatcher [demo_thread0 t] 0)) (mkExecutor (replicate 32 (SLive Action_init))) 0.
Definition demo_proc1 (t : MatchType) : Processor :=
  with_gateway (set_default_entry (mkGateEntry STAGE (-1)) (Gateway_init (H := x86))) (demo_proc0 t).
Definition demo_pipeline (t : MatchType) : Pipeline := mkPipeline [demo_proc0 t; demo_proc1 t] 2 [].
Definition demo_rank (i : Z) : nat := if i =? 0 then 1 else 0.

Lemma demo_parsers t : parsers_wf (demo_pipeline t).
Proof. apply Forall_cons; split; [|apply Forall_singleton]; apply Parser_init_wf; lia. Qed.

Lemma demo_action t s row a :
  0 ≤ s < 65536 → 0 ≤ row < 1024 → row_action init_mem (demo_thread0 t) s row a → a = 0.
Proof.
  intros Hs Hrow Ha.
  assert (Hseq : seq_ok (sram (demo_thread0 t)) [1] (λ _, 1) (zlen (srams init_mem))).
  { intros i Hi. change (zlen [1]) with 1 in Hi. assert (i = 0) as -> by lia. vm_compute. repeat split; discriminate. }
  assert (Hsl : slice_of s (depth (demo_thread0 t)) = Ok 0).
  { change (depth (demo_thread0 t)) with 1. unfold slice_of. cbn. by rewrite Z.rem_1_r. }
  pose proof (row_action_cells _ _ _ _ _ 0 [1] (λ _, 1) Hsl eq_refl eq_refl ltac:(done) Hseq Hrow Ha) as ->.
  by rewrite !cell_init.
Qed.

Lemma demo_ranked t : ranked init_mem (demo_pipeline t) demo_rank.
Proof.
  intros i p j Hp [->|(e & He & Hj)]; [by left|]. apply rd_ok_inv in Hp as [Hi Hp]. change (0 ≤ i < 2) in Hi.
  assert (i = 0 ∨ i = 1) as [->| ->] by lia; cbn in Hp; injection Hp as <-;
    (destruct He as [->|(k & Hk)]; [|exfalso; revert Hk; change ((∅ : gmap Z GateEntry) !! k = Some e → False); by rewrite lookup_empty]); cbn in Hj; [|by left].
  destruct Hj as (mt & th & a & [= <-] & [= <-] & Ha & ->). right.
  destruct Ha as [->|(_ & s & row & Hs & Hrow & Ha)]; [vm_compute; lia|].
  apply (demo_action t) in Ha as ->; [vm_compute; lia|done|].
  destruct (decide _); [|exact Hrow]. rewrite Hrow. change (2 ^ SRAM_DEPTH) with 1024. apply Z.rem_bound_pos; lia.
Qed.

Definition demo_phv : PHV := PHV_init (H := x86).

Lemma pipeline_terminates_witness :
  (∃ r, pipeline_execute (H := x86) 2 init_mem (demo_pipeline EXACT) demo_phv = Some r) ∧
  (∃ r, pipeline_execute (H := x86) 2 init_mem (demo_pipeline TERNARY) demo_phv = Some r).
Proof.
  split; [apply (pipeline_terminates (H := x86) init_mem (demo_pipeline EXACT) demo_rank demo_phv 2)|
    apply (pipeline_terminates (H := x86) init_mem (demo_pipeline TERNARY) demo_rank demo_phv 2)];
    first [exact (demo_ranked EXACT)|exact (demo_ranked TERNARY)|vm_compute; lia].
Defined.

Lemma pipeline_keeps_wf_witness :
  ∃ pl' phv', pipeline_execute (H := x86) 2 init_mem (demo_pipeline EXACT) demo_phv = Some (Ok (pl', phv')) ∧
    phv_wf phv' ∧ phv'.(next_proc_id) = -1.
Proof.
  destruct (pipeline_execute (H := x86) 2 init_mem (demo_pipeline EXACT) demo_phv) as [[[pl' phv']|f]|] eqn:E;
    [|vm_compute in E; discriminate..].
  exists pl', phv'. split; [reflexivity|].
  destruct (pipeline_keeps_wf (H := x86) init_mem (demo_pipeline EXACT) demo_phv 2 pl' phv' E) as (Hn & _ & Hwf).
  split; [|exact Hn]. apply Hwf; [exact (demo_parsers EXACT)|apply PHV_init_wf].
Defined.

Definition demo_spin : Processor := with_matcher
  (mkMatcher [set_miss_act_id 0 (MatcherThread_init (H := x86) true 0)] 0) (demo_proc0 EXACT).

Lemma pipeline_diverges_witness :
  pipeline_execute (H := x86) 1000 init_mem (mkPipeline [demo_spin] 1 []) demo_phv = None.
Proof.
  apply (pipeline_diverges (H := x86) init_mem (mkPipeline [demo_spin] 1 []) demo_spin 0
    (set_miss_act_id 0 (MatcherThread_init (H := x86) true 0)) demo_phv 1000).
  - reflexivity.
  - split; try reflexivity; try discriminate.
    + exists (mkMatcher [set_miss_act_id 0 (MatcherThread_init (H := x86) true 0)] 0). split; reflexivity.
    + exists Action_init. split; [reflexivity|]. split; reflexivity.
  - reflexivity.
Defined.
