(* ===== verification/Switch.v ===== *)
(** * The switch (main.cpp, physical_layer.h, the network part of global.cpp)

    One turn of the main loop takes a packet from an interface, puts it in a fresh
    packet header vector with its ingress port, runs the pipeline on it, and sends
    it through the interfaces the egress port names, one bit for each. *)

From stdpp Require Import base numbers list gmap strings.
From Stdlib Require Import ZArith Lia.
From S2P Require Import Prelude Bits Phv Parser Executor Gateway Matcher Pipeline.

#[local] Open Scope Z_scope.

(** ** The interfaces ([net_config_init])

    The configuration file and the list of the addresses of the host are data; an
    address of the link layer carries a hardware address. *)
Record IfAddr : Type := mkIfAddr {
  ifa_name : string;
  ifa_packet : bool;     (** sa_family == AF_PACKET *)
  sll_addr : list Z
}.

Record Global : Type := mkGlobal {
  if_names : list string;
  if_ips : list Z;
  if_macs : list (list Z);
  num_if : Z
}.

(** The loops over the host's addresses: the hardware address is pushed for every
    configured name that equals the name of the address. *)
Definition collect_macs (names : list string) (ifaddrs : list IfAddr) : list (list Z) :=
  ifaddrs ≫= λ ifa, names ≫= λ n,
    if ifa.(ifa_packet) && bool_decide (ifa.(ifa_name) = n) then [ifa.(sll_addr)] else [].

Definition net_config_init (inet_aton : string → Z) (interfaces : list (string * string))
    (ifaddrs : list IfAddr) : Global :=
  mkGlobal interfaces.*1 (inet_aton <$> interfaces.*2) (collect_macs interfaces.*1 ifaddrs)
    (zlen interfaces).

(** ** Receiving

    [pcap_next k i] is what the k-th poll finds on interface [i], [ticks k] the k-th
    reading of the clock.  The polls of a call start at interface 0. *)
Fixpoint recv_polls (fuel : nat) (pcap_next : nat → Z → option (list Z)) (ticks : nat → Z)
    (timeout n : Z) (buffer : list Z) (k : nat) (if_index : Z) : option (res (list Z * Z * Z)) :=
  match fuel with
  | O => None
  | S fuel' =>
      match pcap_next k if_index with
      | Some pkt => Some (
          buffer ← memcpy buffer 0 pkt 0 (zlen pkt);
          mret (buffer, zlen pkt, if_index))
      | None =>
          if n =? 0 then Some (Fault DivByZero)
          else
            let if_index := Z.rem (if_index + 1) n in
            if (ticks (S k) <? ticks O + timeout) || (timeout <? 0)
            then recv_polls fuel' pcap_next ticks timeout n buffer (S k) if_index
            else Some (Ok (buffer, 0, if_index))
      end
  end.

Definition recv_packet (fuel : nat) (pcap_next : nat → Z → option (list Z)) (ticks : nat → Z)
    (timeout n : Z) (buffer : list Z) : option (res (list Z * Z * Z)) :=
  recv_polls fuel pcap_next ticks timeout n buffer O 0.

(** ** Setting a packet up *)

(** [memset(phv->packet + FRONT_HEADER_LEN, 0, META_LEN)]. *)
Definition clear_meta (pkt : list Z) : list Z :=
  take (Z.to_nat FRONT_HEADER_LEN) pkt ++ replicate (Z.to_nat META_LEN) 0.

(** One metadata header; the pipeline has offsets and lengths in bytes. *)
Definition place_meta (meta : HeaderInfo) (phv : PHV) : res PHV :=
  hs ← wr phv.(parsed_headers) meta.(hi_id)
         (mkHeaderInfo meta.(hi_id) (u16 (meta.(hdr_offset) * 8 + FRONT_HEADER_LEN * 8))
            (u16 (meta.(hdr_len) * 8)));
  mret (set_parsed_headers hs phv).

Definition ig_if_fd : FieldInfo := mkFieldInfo 31 0 9 FIELD.
Definition eg_if_fd : FieldInfo := mkFieldInfo 31 9 9 FIELD.

Definition init_phv `{Target} (pkt : list Z) (recv_len if_index : Z) (pipe : Pipeline) : res PHV :=
  let phv := PHV_init in
  p ← memcpy phv.(packet) 0 pkt 0 recv_len;
  let phv := set_packet (clear_meta p) phv in
  let phv := set_cur_trans_key 65535 (set_cur_state 0 (set_cur_trans_fd_num 1 phv)) in
  let phv := set_ig_if if_index phv in
  phv ← for_each place_meta (get_metadata_header pipe) phv;
  d ← get_uints if_index 9;
  modify_phv_with_data ig_if_fd (mkData 9 d) phv.

(** ** Sending *)
Definition ZERO_MAC : list Z := replicate 6 0.

(** What is sent through one interface.  The packet is put together in the receive
    buffer, which keeps the bytes of the interface before; an interface without a
    hardware address sends what the buffer holds. *)
Definition emit_one (mac : list Z) (phv : PHV) (recv_len : Z) (buf : list Z) : res (list Z) :=
  if decide (mac = ZERO_MAC) then mret buf
  else
    buf ← memcpy buf 0 phv.(packet) 0 recv_len;
    memcpy buf 6 mac 0 6.

(** The loop over the interfaces; the result is what was sent, in order. *)
Definition emit `{Target} (g : Global) (phv : PHV) (recv_len out_port : Z) (buf : list Z)
    : res (list Z * list (Z * list Z)) :=
  for_lt 0 g.(num_if) (λ i '(buf, sent),
    if Z.land (shr32 out_port i) 1 =? 0 then mret (buf, sent)
    else
      mac ← rd g.(if_macs) i;
      buf ← emit_one mac phv recv_len buf;
      mret (buf, sent ++ [(i, take (Z.to_nat recv_len) buf)])) (buf, []).

(** One turn of the main loop on the packet received in [buf]. *)
Definition switch_turn `{Target} (fuel : nat) (m : Mem) (g : Global) (pipe : Pipeline)
    (buf : list Z) (recv_len if_index : Z) : option (res (Pipeline * list (Z * list Z))) :=
  match init_phv buf recv_len if_index pipe with
  | Fault f => Some (Fault f)
  | Ok phv =>
      match pipeline_execute fuel m pipe phv with
      | None => None
      | Some r => Some (
          '(pipe, phv) ← r;
          out_port ← get_field_value eg_if_fd phv;
          if out_port =? 0 then mret (pipe, [])
          else
            '(_, sent) ← emit g phv recv_len out_port buf;
            mret (pipe, sent))
      end
  end.

(** ** The interfaces *)

(** The hardware addresses are kept in the order in which the host lists them and
    not in that of the configuration file: address [i] is that of the [i]-th link
    address of the host that the file names. *)
Lemma macs_in_host_order inet_aton interfaces ifaddrs :
  NoDup interfaces.*1 →
  (net_config_init inet_aton interfaces ifaddrs).(if_macs) =
    sll_addr <$> filter (λ ifa, ifa.(ifa_packet) = true ∧ ifa.(ifa_name) ∈ interfaces.*1) ifaddrs.
Proof.
  intros Hnd. cbn [if_macs net_config_init]. generalize dependent (interfaces.*1). intros names Hnd.
  unfold collect_macs. induction ifaddrs as [|ifa l IH]; [done|].
  change ((ifa :: l) ≫= ?f) with (f ifa ++ (l ≫= f)). rewrite IH, filter_cons. cbn beta.
  assert (Hf : (names ≫= λ n, if ifa_packet ifa && bool_decide (ifa_name ifa = n) then [sll_addr ifa] else []) =
    if decide (ifa_packet ifa = true ∧ ifa_name ifa ∈ names) then [sll_addr ifa] else []).
  { destruct (ifa_packet ifa); cbn [andb].
    2: { rewrite decide_False by naive_solver. clear. by induction names. }
    clear IH. induction names as [|n names IHn]; [done|].
    change ((n :: names) ≫= ?f) with (f n ++ (names ≫= f)). apply NoDup_cons in Hnd as [Hn Hnd].
    rewrite (IHn Hnd). clear IHn. destruct (decide (ifa_name ifa = n)) as [<-|Hne].
    - rewrite bool_decide_true by done. rewrite (decide_False (P := true = true ∧ _)) by tauto.
      by rewrite decide_True by (split; [done|left]).
    - rewrite bool_decide_false by done. cbn [app]. apply decide_ext. set_solver. }
  rewrite Hf. by case_decide.
Qed.

Lemma macs_in_host_order_witness :
  (net_config_init (λ _, 0) [("eth1", "10.0.0.1"); ("eth0", "10.0.1.1")]
     [mkIfAddr "lo" true [0]; mkIfAddr "eth0" true [1]; mkIfAddr "eth0" false [2]; mkIfAddr "eth1" true [3]]).(if_macs)
  = [[1]; [3]].
Proof.
  rewrite (macs_in_host_order (λ _, 0) [("eth1", "10.0.0.1"); ("eth0", "10.0.1.1")]
     [mkIfAddr "lo" true [0]; mkIfAddr "eth0" true [1]; mkIfAddr "eth0" false [2]; mkIfAddr "eth1" true [3]]).
  - vm_compute. reflexivity.
  - cbn. repeat constructor; set_solver.
Defined.

(** A receive without a time limit returns the packet of the first poll that finds
    one, with its length and its interface, the polls going over the interfaces in
    turn from interface 0; so while interface 0 has packets no other is served. *)
Lemma recv_packet_first fuel pcap_next ticks timeout n buffer k pkt :
  timeout < 0 → 1 ≤ n → (k < fuel)%nat →
  (∀ j, (j < k)%nat → pcap_next j (Z.of_nat j mod n) = None) →
  pcap_next k (Z.of_nat k mod n) = Some pkt → zlen pkt ≤ zlen buffer →
  ∃ buf, recv_packet fuel pcap_next ticks timeout n buffer = Some (Ok (buf, zlen pkt, Z.of_nat k mod n)) ∧
    zlen buf = zlen buffer ∧
    ∀ i, 0 ≤ i < zlen buffer → at_ buf i = if i <? zlen pkt then at_ pkt i else at_ buffer i.
Proof.
  intros Ht Hn Hf Hnone Hk Hlen. unfold recv_packet. pose proof (zlen_nonneg pkt).
  assert (Hgen : ∀ j, (j ≤ k)%nat → recv_polls (fuel - j) pcap_next ticks timeout n buffer j (Z.of_nat j mod n) =
    recv_polls (fuel - k) pcap_next ticks timeout n buffer k (Z.of_nat k mod n)).
  { intros j Hj. remember (k - j)%nat as d eqn:Hd. revert j Hj Hd. induction d as [|d IH]; intros j Hj Hd.
    { by replace j with k by lia. }
    rewrite <- (IH (S j)) by lia. replace (fuel - j)%nat with (S (fuel - S j)) by lia. cbn [recv_polls].
    rewrite Hnone by lia. rewrite (proj2 (Z.eqb_neq n 0)) by lia. rewrite (proj2 (Z.ltb_lt timeout 0)) by lia.
    rewrite orb_true_r. f_equal. pose proof (Z.mod_pos_bound (Z.of_nat j) n ltac:(lia)).
    rewrite Z.rem_mod_nonneg by lia. rewrite Zplus_mod_idemp_l. f_equal. lia. }
  specialize (Hgen O ltac:(lia)). rewrite Nat.sub_0_r in Hgen. change (Z.of_nat 0) with 0 in Hgen.
  rewrite Z.mod_0_l in Hgen by lia. rewrite Hgen. replace (fuel - k)%nat with (S (fuel - S k)) by lia.
  cbn [recv_polls]. rewrite Hk. destruct (memcpy_spec buffer 0 pkt 0 (zlen pkt)) as (buf & -> & Hl & Hat); [lia..|].
  exists buf. split; [done|]. split; [done|]. intros i Hi. rewrite Hat by done. zcmp. f_equal. lia.
Qed.

Lemma recv_packet_first_witness :
  ∃ buf, recv_packet 9 (λ k _, if decide (k = 3%nat) then Some [7; 8] else None) Z.of_nat (-1) 2 [0; 0; 0] =
    Some (Ok (buf, 2, 1)) ∧ at_ buf 1 = 8.
Proof.
  destruct (recv_packet_first 9 (λ k _, if decide (k = 3%nat) then Some [7; 8] else None) Z.of_nat (-1) 2 [0; 0; 0]
    3 [7; 8]) as (buf & Hrun & _ & Hat).
  - lia.
  - lia.
  - lia.
  - intros j Hj. cbn beta. rewrite decide_False by lia. reflexivity.
  - reflexivity.
  - vm_compute. discriminate.
  - exists buf. split; [exact Hrun|]. apply (Hat 1). vm_compute. split; [discriminate|reflexivity].
Defined.

(** ** Setting a packet up *)

Definition meta_ok (h : HeaderInfo) : Prop := 0 ≤ h.(hi_id) < 32.

(** Where the last metadata header of an id is put; [d] where there is none. *)
Definition placed (metas : list HeaderInfo) (i : Z) (d : HeaderInfo) : HeaderInfo :=
  fold_left (λ d m, if m.(hi_id) =? i
    then mkHeaderInfo i (u16 (m.(hdr_offset) * 8 + FRONT_HEADER_LEN * 8)) (u16 (m.(hdr_len) * 8)) else d) metas d.

Lemma place_metas metas phv :
  phv_wf phv → Forall meta_ok metas →
  ∃ hs, for_each place_meta metas phv = Ok (set_parsed_headers hs phv) ∧ phv_wf (set_parsed_headers hs phv) ∧
    ∀ i, 0 ≤ i < 32 → at_ hs i = placed metas i (at_ phv.(parsed_headers) i).
Proof.
  revert phv. induction metas as [|h metas IH]; intros phv Hwf Hm; cbn [for_each].
  { exists (parsed_headers phv). split; [by destruct phv|]. by split; [destruct phv|]. }
  apply Forall_cons in Hm as [Hh Hm]. unfold meta_ok in Hh. 
  pose proof (wf_headers_len _ Hwf) as Hl. set (hs := <[Z.to_nat (hi_id h) :=
    mkHeaderInfo (hi_id h) (u16 (hdr_offset h * 8 + FRONT_HEADER_LEN * 8)) (u16 (hdr_len h * 8))]> (parsed_headers phv)).
  assert (Hpl : place_meta h phv = Ok (set_parsed_headers hs phv)) by (unfold place_meta; by rewrite wr_ok by lia).
  rewrite Hpl. cbn [mbind res_mbind].
  assert (Hwf' : phv_wf (set_parsed_headers hs phv)).
  { destruct Hwf. split; cbn; try done; subst hs; [by rewrite zlen_insert|].
    apply Forall_insert; [done|]. split; apply u16_range. }
  destruct (IH _ Hwf' Hm) as (hs' & -> & Hw & Hat). exists hs'. split; [done|]. split; [done|].
  intros i Hi. rewrite Hat by done. unfold placed at 2. cbn [fold_left]. unfold placed. f_equal.
  cbn [parsed_headers set_parsed_headers]. subst hs. rewrite at_insert by lia.
  destruct (Z.eqb_spec (hi_id h) i) as [<-|]; done.
Qed.

(** The vector before the ingress port is written. *)
Record fresh_vector (pkt : list Z) (n if_index : Z) (metas : list HeaderInfo) (phv : PHV) : Prop := {
  fv_wf : phv_wf phv;
  fv_front : ∀ i, 0 ≤ i < Z.min n FRONT_HEADER_LEN → at_ phv.(packet) i = at_ pkt i;
  fv_meta : ∀ i, FRONT_HEADER_LEN ≤ i → at_ phv.(packet) i = 0;
  fv_headers : ∀ i, 0 ≤ i < 32 → at_ phv.(parsed_headers) i = placed metas i (mkHeaderInfo 0 0 0);
  fv_start : phv.(next_proc_id) = 0 ∧ phv.(cur_offset) = 0 ∧ phv.(cur_state) = 0 ∧
    phv.(cur_trans_key) = 65535 ∧ phv.(hit) = false ∧ phv.(ig_if) = if_index
}.

Lemma at_clear_meta p i :
  zlen p = FRONT_HEADER_LEN + META_LEN → 0 ≤ i →
  at_ (clear_meta p) i = if i <? FRONT_HEADER_LEN then at_ p i else 0.
Proof.
  change FRONT_HEADER_LEN with 1500. change META_LEN with 100. unfold zlen. intros Hl Hi.
  unfold clear_meta, at_. change (Z.to_nat FRONT_HEADER_LEN) with 1500%nat. change (Z.to_nat META_LEN) with 100%nat.
  assert (Ht : length (take 1500 p) = 1500%nat) by (rewrite length_take; lia).
  destruct (Z.ltb_spec i 1500).
  - rewrite lookup_total_app_l by lia. rewrite lookup_total_take. by rewrite decide_True by lia.
  - rewrite lookup_total_app_r, Ht by lia. rewrite list_lookup_total_alt.
    destruct (replicate 100 0 !! _) eqn:E; [|done]. by apply lookup_replicate in E as [-> _].
Qed.

Lemma init_phv_fresh `{Target} pkt n if_index pipe :
  bytes pkt → 0 ≤ n ≤ FRONT_HEADER_LEN + META_LEN → n ≤ zlen pkt → Forall meta_ok pipe.(meta_infos) →
  ∃ phv, fresh_vector pkt n if_index pipe.(meta_infos) phv ∧
    init_phv pkt n if_index pipe = (d ← get_uints if_index 9; modify_phv_with_data ig_if_fd (mkData 9 d) phv).
Proof.
  intros Hb Hn Hlen Hm. pose proof PHV_init_wf as Hwf0. pose proof (wf_packet_len _ Hwf0) as Hpl.
  destruct (memcpy_spec (packet PHV_init) 0 pkt 0 n) as (p & Hp & Hl & Hat); [lia..|]. rewrite Hpl in *.
  assert (Hpb : bytes (clear_meta p)).
  { apply bytes_of_at. intros i Hi. rewrite at_clear_meta by (done || lia). zcmp.
    rewrite Hat by (change META_LEN with 100; lia). case_match; apply bytes_at; [done|apply (wf_packet _ Hwf0)]. }
  assert (Hcl : zlen (clear_meta p) = 1600).
  { unfold clear_meta. rewrite zlen_app, zlen_replicate. unfold zlen in *. rewrite length_take.
    revert Hl. change FRONT_HEADER_LEN with 1500. change META_LEN with 100. lia. }
  set (phv0 := set_ig_if if_index (set_cur_trans_key 65535 (set_cur_state 0 (set_cur_trans_fd_num 1
    (set_packet (clear_meta p) PHV_init))))).
  assert (Hwf : phv_wf phv0) by (destruct Hwf0; by split).
  destruct (place_metas (meta_infos pipe) phv0 Hwf Hm) as (hs & Hpm & Hw & Hhs).
  exists (set_parsed_headers hs phv0). split; [|unfold init_phv; rewrite Hp; cbn [mbind res_mbind];
    unfold get_metadata_header; fold phv0; by rewrite Hpm].
  split; [done| | | |done]; cbn [packet parsed_headers set_parsed_headers phv0 set_ig_if set_cur_trans_key
    set_cur_state set_cur_trans_fd_num set_packet].
  - intros i Hi. change (packet _) with (clear_meta p). rewrite at_clear_meta by (done || lia).
    rewrite (proj2 (Z.ltb_lt i _)), Hat by (change FRONT_HEADER_LEN with 1500 in *; change META_LEN with 100; lia).
    zcmp. f_equal. lia.
  - intros i Hi. change (packet _) with (clear_meta p).
    rewrite at_clear_meta by (revert Hi; change FRONT_HEADER_LEN with 1500; done || lia). zcmp.
  - intros i Hi. rewrite Hhs by done. change (parsed_headers phv0) with (replicate 32 (mkHeaderInfo 0 0 0)).
    f_equal. unfold at_. by apply lookup_total_replicate_2; lia.
Qed.

Lemma placed_aligned metas i d : d.(hdr_offset) mod 8 = 0 → (placed metas i d).(hdr_offset) mod 8 = 0.
Proof.
  revert d. induction metas as [|h metas IH]; intros d Hd; [done|]. unfold placed. cbn [fold_left]. apply IH.
  case_match; [|done]. cbn [hdr_offset]. unfold u16. change FRONT_HEADER_LEN with 1500. dlia.
Qed.

Lemma placed_nonneg metas i d : 0 ≤ d.(hdr_offset) → 0 ≤ (placed metas i d).(hdr_offset).
Proof.
  revert d. induction metas as [|h metas IH]; intros d Hd; [done|]. unfold placed. cbn [fold_left]. apply IH.
  case_match; [|done]. apply u16_range.
Qed.

(** The offset of the standard metadata, header 31. *)
Definition std_meta (metas : list HeaderInfo) : Z := (placed metas 31 (mkHeaderInfo 0 0 0)).(hdr_offset).

(** [init_phv] writes the ingress port to the fresh vector and nothing else. *)
Lemma init_phv_port `{Target} pkt n if_index pipe :
  bytes pkt → 0 ≤ n ≤ FRONT_HEADER_LEN + META_LEN → n ≤ zlen pkt → Forall meta_ok pipe.(meta_infos) →
  0 ≤ if_index < 512 → std_meta pipe.(meta_infos) + 9 ≤ 8 * (FRONT_HEADER_LEN + META_LEN) →
  ∃ phv q, fresh_vector pkt n if_index pipe.(meta_infos) phv ∧ init_phv pkt n if_index pipe = Ok (set_packet q phv) ∧
    field_set phv.(packet) (std_meta pipe.(meta_infos)) 9 if_index q ∧ phv_wf (set_packet q phv) ∧
    header_of phv 31 = Ok (placed pipe.(meta_infos) 31 (mkHeaderInfo 0 0 0)).
Proof.
  intros Hb Hn Hlen Hm Hif Hend. destruct (init_phv_fresh pkt n if_index pipe Hb Hn Hlen Hm) as (phv & Hf & ->).
  destruct (get_uints_spec if_index 9 ltac:(lia)) as (r & -> & Hr & Hrl & Hv). cbn [mbind res_mbind].
  rewrite u32_small, Z.mod_small in Hv by (change (2 ^ (8 * ceil8 9)) with 65536; lia).
  pose proof (fv_wf _ _ _ _ _ Hf) as Hwf. pose proof (wf_packet_len _ Hwf) as Hpl.
  assert (Hhi : header_of phv 31 = Ok (placed pipe.(meta_infos) 31 (mkHeaderInfo 0 0 0))).
  { unfold header_of. rewrite rd_at by (rewrite (wf_headers_len _ Hwf); lia). f_equal.
    apply (fv_headers _ _ _ _ _ Hf). lia. }
  pose proof (placed_aligned (meta_infos pipe) 31 (mkHeaderInfo 0 0 0) eq_refl) as Ha.
  pose proof (placed_nonneg (meta_infos pipe) 31 (mkHeaderInfo 0 0 0) ltac:(cbn; lia)) as H0.
  unfold std_meta in *. set (hi := placed _ _ _) in *.
  destruct (modify_phv_field_set ig_if_fd (mkData 9 r) phv hi Hhi (wf_packet _ Hwf) Hr) as (q & Hq & Hset);
    [lia|cbn; lia|cbn; lia|done|done|cbn; change (2 ^ 9) with 512; lia|cbn; dlia|cbn; lia|].
  cbn [val data_len hdr_id ig_if_fd internal_offset fd_len] in Hset. rewrite Hv, Z.add_0_r in Hset.
  exists phv, q. split; [done|]. split; [done|]. split; [done|]. split; [|done].
  destruct Hset as (? & ? & _). by apply set_packet_wf.
Qed.

Lemma fresh_front pkt n if_index metas phv b len :
  fresh_vector pkt n if_index metas phv → 0 ≤ b → b + len ≤ 8 * Z.min n FRONT_HEADER_LEN →
  field_val phv.(packet) b len = field_val pkt b len.
Proof.
  intros Hf Hb Hl. apply field_val_ext. intros j Hj. unfold bit_at.
  rewrite (fv_front _ _ _ _ _ Hf) by (revert Hl; change FRONT_HEADER_LEN with 1500; intros; dlia). done.
Qed.

Lemma fresh_meta pkt n if_index metas phv b len :
  fresh_vector pkt n if_index metas phv → 8 * FRONT_HEADER_LEN ≤ b → 0 ≤ len → field_val phv.(packet) b len = 0.
Proof.
  intros Hf Hb Hl. symmetry. apply field_val_unique; [lia| |].
  - assert (0 < 2 ^ len) by (apply Z.pow_pos_nonneg; lia). lia.
  - intros i Hi. rewrite Z.bits_0. unfold bit_at.
    rewrite (fv_meta _ _ _ _ _ Hf) by (revert Hb; change FRONT_HEADER_LEN with 1500; intros; dlia).
    by rewrite Z.bits_0.
Qed.

(** A packet enters the pipeline, at processor 0, with its ingress port in the
    standard metadata as the pipeline reads it and, once the controller has placed
    that header behind the front of the buffer, with an egress port of 0 and the
    bytes that were received. *)
Lemma ingress_port_set `{Target} pkt n if_index pipe :
  bytes pkt → 0 ≤ n ≤ FRONT_HEADER_LEN → n ≤ zlen pkt → Forall meta_ok pipe.(meta_infos) →
  0 ≤ if_index < 512 → std_meta pipe.(meta_infos) + 18 < 8 * (FRONT_HEADER_LEN + META_LEN - 1) →
  ∃ phv, init_phv pkt n if_index pipe = Ok phv ∧ phv_wf phv ∧ phv.(next_proc_id) = 0 ∧
    get_field_value (H := x86) ig_if_fd phv = Ok if_index ∧
    (8 * FRONT_HEADER_LEN ≤ std_meta pipe.(meta_infos) →
      get_field_value (H := x86) eg_if_fd phv = Ok 0 ∧
      ∀ b len, 0 ≤ b → 0 ≤ len → b + len ≤ 8 * n → field_val phv.(packet) b len = field_val pkt b len).
Proof.
  change META_LEN with 100. change FRONT_HEADER_LEN with 1500. intros Hb Hn Hlen Hm Hif Hend.
  destruct (init_phv_port pkt n if_index pipe) as (phv & q & Hf & Hrun & Hset & Hwf & Hhi);
    [done|change META_LEN with 100; change FRONT_HEADER_LEN with 1500; lia|done|done|done
    |change META_LEN with 100; change FRONT_HEADER_LEN with 1500; lia|].
  pose proof (placed_aligned (meta_infos pipe) 31 (mkHeaderInfo 0 0 0) eq_refl) as Ha.
  pose proof (placed_nonneg (meta_infos pipe) 31 (mkHeaderInfo 0 0 0) ltac:(cbn; lia)) as H0.
  pose proof (wf_packet_len _ (fv_wf _ _ _ _ _ Hf)) as Hpl. revert Hpl.
  change (FRONT_HEADER_LEN + META_LEN) with 1600. intros Hpl.
  unfold std_meta in *. set (hi := placed _ _ _) in *. assert (Hql : zlen q = zlen (packet phv)) by apply Hset.
  exists (set_packet q phv). split; [done|]. split; [done|]. split; [apply Hf|]. split; [|intros Hoff; split].
  - rewrite (get_field_value_x86 ig_if_fd (set_packet q phv) hi Hhi (wf_packet _ Hwf));
      [|lia|cbn; lia|cbn; lia|cbn; lia|cbn; dlia].
    cbn [packet set_packet internal_offset fd_len ig_if_fd]. f_equal. rewrite Z.add_0_r.
    eapply field_set_same; [..|exact Hset]; lia.
  - rewrite (get_field_value_x86 eg_if_fd (set_packet q phv) hi Hhi (wf_packet _ Hwf));
      [|lia|cbn; lia|cbn; lia|cbn; lia|cbn; dlia].
    cbn [packet set_packet internal_offset fd_len eg_if_fd]. f_equal.
    rewrite (field_set_other (packet phv) (hdr_offset hi) 9 if_index q) by (done || lia).
    eapply fresh_meta; [done|change FRONT_HEADER_LEN with 1500; lia|lia].
  - intros b len Hb0 Hl0 Hbl. cbn [packet set_packet].
    rewrite (field_set_other (packet phv) (hdr_offset hi) 9 if_index q) by (done || lia).
    eapply fresh_front; [done|done|]. change FRONT_HEADER_LEN with 1500. lia.
Qed.

(** ** Examples *)
Definition demo_switch : Pipeline :=
  set_metadata_header [mkHeaderInfo 31 0 4] (Pipeline_init (H := x86) true PROC_NUM).
Definition demo_packet : list Z := [1; 2; 3; 4; 5; 6; 7; 8; 9; 10; 11; 12; 8; 0].

Lemma ingress_port_set_witness :
  ∃ phv, init_phv (H := x86) demo_packet 14 5 demo_switch = Ok phv ∧
    get_field_value (H := x86) ig_if_fd phv = Ok 5.
Proof.
  destruct (ingress_port_set (H := x86) demo_packet 14 5 demo_switch) as (phv & Hrun & _ & _ & Hg & _).
  - repeat constructor; lia.
  - vm_compute. split; discriminate.
  - vm_compute. discriminate.
  - repeat constructor; cbn; lia.
  - lia.
  - reflexivity.
  - exists phv. split; [exact Hrun|exact Hg].
Defined.

(** ** Sending *)

(** A processed packet with the address of the interface as its source. *)
Definition frame (mac pkt : list Z) (n : Z) : list Z :=
  take 6 pkt ++ mac ++ drop 12 (take (Z.to_nat n) pkt).

Lemma emit_one_frame mac phv n buf :
  mac ≠ ZERO_MAC → zlen mac = 6 → 12 ≤ n → n ≤ zlen phv.(packet) → n ≤ zlen buf →
  ∃ buf', emit_one mac phv n buf = Ok buf' ∧ zlen buf' = zlen buf ∧
    take (Z.to_nat n) buf' = frame mac phv.(packet) n.
Proof.
  intros Hm Hml Hn Hp Hb. unfold emit_one. rewrite decide_False by done.
  rewrite memcpy_eq by lia. cbn [mbind res_mbind]. set (b1 := take _ buf ++ _).
  assert (Hb1 : b1 = take (Z.to_nat n) (packet phv) ++ drop (Z.to_nat n) buf) by done. clearbody b1. subst b1.
  assert (Hl : length (take (Z.to_nat n) (packet phv)) = Z.to_nat n) by (rewrite length_take; unfold zlen in *; lia).
  unfold zlen in *. rewrite memcpy_eq by (unfold zlen; rewrite ?length_app, ?Hl, ?length_drop; lia).
  eexists; split; [done|]. change (Z.to_nat 6) with 6%nat. change (Z.to_nat (6 + 6)) with 12%nat. change (Z.to_nat 0) with 0%nat.
  rewrite drop_0, (take_ge mac) by lia. split.
  - rewrite !length_app, length_take, !length_drop, !length_app, length_drop. lia.
  - unfold frame. set (t := take (Z.to_nat n) (packet phv)) in *.
    rewrite (take_app_le t _ 6), (drop_app_le t _ 12) by lia. rewrite !app_assoc.
    assert (take 6 t = take 6 (packet phv)) as ->.
    { subst t. rewrite take_take. by rewrite Nat.min_l by lia. }
    apply take_app_length'. rewrite !length_app, length_take, length_drop. lia.
Qed.

(** What goes out through the interfaces of a list, one after the other: the frame with
    the address of the interface, or, where an interface has none, what went out
    before it, [cur] at first. *)
Fixpoint sent_frames (macs : list (list Z)) (pkt : list Z) (n : Z) (ifs : list Z) (cur : list Z) : list (Z * list Z) :=
  match ifs with
  | [] => []
  | i :: ifs =>
      let cur := if decide (at_ macs i = ZERO_MAC) then cur else frame (at_ macs i) pkt n in
      (i, cur) :: sent_frames macs pkt n ifs cur
  end.

(** The last that went out. *)
Definition last_sent (cur : list Z) (sent : list (Z * list Z)) : list Z := default cur (snd <$> last sent).

Lemma sent_frames_snoc macs pkt n ifs i cur :
  sent_frames macs pkt n (ifs ++ [i]) cur = sent_frames macs pkt n ifs cur ++
    [(i, if decide (at_ macs i = ZERO_MAC) then last_sent cur (sent_frames macs pkt n ifs cur) else frame (at_ macs i) pkt n)].
Proof.
  revert cur. induction ifs as [|j ifs IH]; intros cur; [done|]. cbn [app sent_frames]. rewrite IH. cbn [app].
  set (cur' := if decide (at_ macs j = ZERO_MAC) then cur else _). do 4 f_equal.
  destruct (decide (at_ macs i = ZERO_MAC)); [|done]. unfold last_sent.
  destruct (sent_frames macs pkt n ifs cur') as [|x l]; [done|].
  change (last ((j, cur') :: x :: l)) with (last (x :: l)). by destruct (last (x :: l)) eqn:E; [|apply last_None in E].
Qed.

Lemma emit_frames `{Target} g phv n out buf :
  0 ≤ g.(num_if) ≤ 32 → zlen g.(if_macs) = g.(num_if) → Forall (λ mac, zlen mac = 6) g.(if_macs) →
  12 ≤ n → n ≤ zlen phv.(packet) → n ≤ zlen buf → 0 ≤ out →
  ∃ buf', emit g phv n out buf = Ok (buf',
    sent_frames g.(if_macs) phv.(packet) n (filter (λ i, Z.testbit out i = true) (seqZ 0 g.(num_if))) (take (Z.to_nat n) buf)).
Proof.
  intros Hn Hml Hmac Hl Hp Hb Hout. unfold emit.
  edestruct (for_lt_inv (λ j '((b, sent) : list Z * list (Z * list Z)), zlen b = zlen buf ∧
      sent = sent_frames g.(if_macs) phv.(packet) n (filter (λ i, Z.testbit out i = true) (seqZ 0 j)) (take (Z.to_nat n) buf) ∧
      take (Z.to_nat n) b = last_sent (take (Z.to_nat n) buf) sent)
    0 (num_if g)) as ([b sent] & Hrun & _ & Hs & _); [lia| | |rewrite Hrun; exists b; by rewrite Hs].
  { done. }
  intros j [b sent] Hj (Hbl & -> & Hcur). cbn beta iota.
  assert (Hseq : seqZ 0 (j + 1) = seqZ 0 j ++ [j]) by (rewrite (seqZ_app 0 j 1) by lia; done).
  rewrite Hseq, filter_app.
  assert (Hbit : (Z.land (shr32 out j) 1 =? 0) = negb (Z.testbit out j)).
  { rewrite shr32_in by lia. change 1 with (Z.ones 1). rewrite Z.land_ones by lia.
    change (2 ^ 1) with 2. rewrite <- (Z.testbit_spec' out j) by lia. by destruct (Z.testbit out j). }
  rewrite Hbit. cbn [filter list_filter].
  destruct (Z.testbit out j) eqn:Hbj; cbn [negb].
  - rewrite decide_True by done. rewrite rd_at by lia. cbn [mbind res_mbind]. rewrite sent_frames_snoc, <- Hcur.
    destruct (decide (at_ (if_macs g) j = ZERO_MAC)) as [Hz|Hz].
    + unfold emit_one. rewrite decide_True by done. cbn [mbind res_mbind mret res_mret].
      eexists; split; [done|]. split; [done|]. split; [done|]. unfold last_sent. by rewrite last_snoc.
    + assert (Hmj : zlen (at_ (if_macs g) j) = 6).
      { destruct (lookup_lt_is_Some_2 (if_macs g) (Z.to_nat j)) as [mac Hm]; [unfold zlen in *; lia|].
        unfold at_. rewrite (list_lookup_total_correct _ _ _ Hm). apply (Forall_lookup_1 _ _ _ _ Hmac Hm). }
      destruct (emit_one_frame (at_ (if_macs g) j) phv n b) as (b' & -> & Hb' & Ht); [done|done|lia..|].
      cbn [mbind res_mbind]. eexists; split; [done|]. split; [lia|]. rewrite Ht. split; [done|].
      unfold last_sent. by rewrite last_snoc.
  - rewrite decide_False by done. eexists; split; [done|]. split; [done|]. by rewrite app_nil_r.
Qed.

(** C14. A packet that comes out of the pipeline is sent through exactly the
    interfaces whose bits are set in its egress port, once each, in order. Through an
    interface with a hardware address goes the packet as the pipeline left it, with
    this address as its source; through one whose address is all zeros goes again what
    went out before it, or, when it is the first, the packet as it was received and
    not as the pipeline left it. An egress port of 0 sends nothing. This is so of
    switches of at most 32 interfaces, of packets that have both addresses (12 bytes)
    and no more bytes than the vector (the code copies what is behind it), and of a
    pipeline that ends with a well-formed vector. *)
Theorem switch_sends `{Target} fuel m g pipe pkt n if_index phv pipe' phv' out :
  0 ≤ g.(num_if) ≤ 32 → zlen g.(if_macs) = g.(num_if) → Forall (λ mac, zlen mac = 6) g.(if_macs) →
  12 ≤ n ≤ FRONT_HEADER_LEN + META_LEN → n ≤ zlen pkt →
  init_phv pkt n if_index pipe = Ok phv → pipeline_execute fuel m pipe phv = Some (Ok (pipe', phv')) →
  phv_wf phv' → get_field_value eg_if_fd phv' = Ok out → 0 ≤ out →
  switch_turn fuel m g pipe pkt n if_index = Some (Ok (pipe',
    sent_frames g.(if_macs) phv'.(packet) n (filter (λ i, Z.testbit out i = true) (seqZ 0 g.(num_if)))
      (take (Z.to_nat n) pkt))).
Proof.
  intros Hn Hml Hmac Hl Hp Hinit Hrun Hwf Hout H0. unfold switch_turn. rewrite Hinit, Hrun. cbn [mbind res_mbind].
  rewrite Hout. cbn [mbind res_mbind]. pose proof (wf_packet_len _ Hwf).
  destruct (emit_frames g phv' n out pkt) as (buf' & He); [done|done|done|lia|lia|done|done|].
  destruct (Z.eqb_spec out 0) as [->|Hne].
  - assert (filter (λ i, Z.testbit 0 i = true) (seqZ 0 (num_if g)) = []) as ->; [|done].
    generalize (seqZ 0 (num_if g)). intros l. induction l as [|x l IH]; [done|].
    rewrite filter_cons, decide_False by (by rewrite Z.bits_0). done.
  - rewrite He. done.
Qed.

(** An interface whose hardware address is all zeros sends what the receive buffer
    holds, that is, when it is the first, the packet as it was received and not as
    the pipeline left it. *)
Lemma zero_mac_sends_received `{Target} phv g n out buf :
  1 ≤ g.(num_if) → rd g.(if_macs) 0 = Ok ZERO_MAC → Z.testbit out 0 = true →
  (∀ i, 1 ≤ i → i < g.(num_if) → Z.land (shr32 out i) 1 = 0) →
  emit g phv n out buf = Ok (buf, [(0, take (Z.to_nat n) buf)]).
Proof.
  intros Hn Hmac Hbit Hrest. unfold emit, for_lt. rewrite Z.sub_0_r.
  replace (Z.to_nat (num_if g)) with (S (Z.to_nat (num_if g - 1))) by lia. cbn [for_up].
  assert (Hb0 : (Z.land (shr32 out 0) 1 =? 0) = false).
  { rewrite shr32_in, Z.pow_0_r, Z.div_1_r by lia. change 1 with (Z.ones 1). rewrite Z.land_ones by lia.
    change (2 ^ 1) with 2. rewrite Zmod_odd, <- Z.bit0_odd, Hbit. done. }
  rewrite Hb0, Hmac. cbn [mbind res_mbind]. unfold emit_one. rewrite decide_True by done.
  cbn [mbind res_mbind mret res_mret app]. change (0 + 1) with 1.
  edestruct (for_up_inv (λ _ st, st = (buf, [(0, take (Z.to_nat n) buf)])) (Z.to_nat (num_if g - 1)) 1) as (st & Hrun & ->);
    [done| |exact Hrun].
  intros i st Hi ->. cbn beta iota. rewrite Hrest by lia. eauto.
Qed.

Definition demo_global : Global :=
  mkGlobal ["eth0"; "eth1"] [1; 2] [[2; 0; 0; 0; 0; 1]; [2; 0; 0; 0; 0; 2]] 2.

Lemma zero_mac_sends_received_witness :
  emit (H := x86) (mkGlobal ["eth0"] [1] [ZERO_MAC] 1) demo_phv 14 1 demo_packet =
    Ok (demo_packet, [(0, demo_packet)]).
Proof.
  apply (zero_mac_sends_received (H := x86) demo_phv (mkGlobal ["eth0"] [1] [ZERO_MAC] 1) 14 1 demo_packet).
  - cbn. lia.
  - reflexivity.
  - reflexivity.
  - intros i Hi Hi'. cbn in Hi'. lia.
Defined.

(** ** Packets that are dropped *)

(** One turn of the pipeline that ends the way of the packet. *)
Lemma execute_last `{Target} fuel m pl phv p p' phv' :
  (2 ≤ fuel)%nat → rd pl.(procs) phv.(next_proc_id) = Ok p → phv.(next_proc_id) ≠ -1 →
  process_packet m p phv = Ok (p', phv') → phv'.(next_proc_id) = -1 →
  ∃ pl', pipeline_execute fuel m pl phv = Some (Ok (pl', phv')).
Proof.
  intros Hf Hp Hne Hrun Hend. destruct fuel as [|[|fuel]]; [lia..|]. cbn [pipeline_execute].
  rewrite (proj2 (Z.eqb_neq _ (-1))) by done. rewrite Hp. cbn [mbind res_mbind]. rewrite Hrun. cbn [mbind res_mbind].
  apply rd_ok_inv in Hp as [Hi _]. rewrite wr_ok by done. cbn [mbind res_mbind mret res_mret]. rewrite Hend. eauto.
Qed.

Lemma process_ends `{Target} m p phv phv' :
  parser_parse p.(parser) phv = Ok phv' → phv'.(next_proc_id) = -1 → process_packet m p phv = Ok (p, phv').
Proof. intros Hp Hn. unfold process_packet. rewrite Hp. cbn [mbind res_mbind]. by rewrite Hn. Qed.

(** A drop in the first level of a parser ends the parsing. *)
Lemma parser_drops p phv s k e hi :
  phv_wf phv → p.(if_work) ≠ 0 → 1 ≤ p.(needed_parser_level) → rd p.(parser_levels) 0 = Ok s →
  find_entry s.(ps_trans_tbl) 0 phv.(cur_state) phv.(cur_trans_key) = Some k → rd s.(ps_act_tbl) k = Ok e →
  e.(se_miss_act) = 1 → 0 ≤ e.(se_hdr_id) < 31 → header_of phv 31 = Ok hi →
  hi.(hdr_offset) mod 8 = 0 → hi.(hdr_offset) + 18 < 8 * (FRONT_HEADER_LEN + META_LEN) - 8 →
  ∃ phv', parser_parse (H := x86) p phv = Ok phv' ∧ phv'.(next_proc_id) = -1 ∧
    get_field_value (H := x86) eg_if_fd phv' = Ok 0.
Proof.
  intros Hwf Hw Hn Hs Hf He Hma Hid Hhi Ha Hend. pose proof (header_wf_of _ _ _ Hwf Hhi) as [[H0 _] _].
  set (phv1 := set_next_proc_id (-1) (extracted e phv)).
  destruct (drop_packet_egress (H := x86) phv1 hi) as (phv' & Hd & Hg & Hp & _).
  - rewrite <- Hhi. apply (extracted_other e phv 31); lia.
  - apply (wf_packet _ Hwf).
  - done.
  - done.
  - change (packet phv1) with (packet phv). rewrite (wf_packet_len _ Hwf). lia.
  - exists phv'. assert (Hnext : next_proc_id phv' = -1) by (rewrite Hp; done). split; [|done].
    unfold parser_parse. rewrite (proj2 (Z.eqb_neq _ 0)), (proj2 (Z.eqb_neq _ 0)) by (done || lia).
    replace (Z.to_nat (needed_parser_level p)) with (S (Z.to_nat (needed_parser_level p - 1))) by lia.
    cbn [parse_levels]. rewrite Hs. cbn [mbind res_mbind]. unfold stage_parse. rewrite Hf, He. cbn [mbind res_mbind].
    rewrite extract_header_ok by (done || lia). cbn [mbind res_mbind].
    change (miss_act (extracted e phv)) with (se_miss_act e). rewrite Hma. change (1 =? 0) with false. change (1 =? 1) with true. cbn iota. fold phv1. rewrite Hd.
    cbn [mbind res_mbind]. by rewrite Hnext.
Qed.

(** A packet whose first header hits a parser entry that says to drop is not sent
    anywhere, whatever the rest of the switch holds. *)
Lemma dropped_packet_not_sent fuel m g pipe pkt n if_index p s k e :
  bytes pkt → 0 ≤ n ≤ FRONT_HEADER_LEN → n ≤ zlen pkt → Forall meta_ok pipe.(meta_infos) →
  0 ≤ if_index < 512 → std_meta pipe.(meta_infos) + 18 < 8 * (FRONT_HEADER_LEN + META_LEN - 1) →
  rd pipe.(procs) 0 = Ok p → p.(parser).(if_work) ≠ 0 → 1 ≤ p.(parser).(needed_parser_level) →
  rd p.(parser).(parser_levels) 0 = Ok s → find_entry s.(ps_trans_tbl) 0 0 65535 = Some k →
  rd s.(ps_act_tbl) k = Ok e → e.(se_miss_act) = 1 → 0 ≤ e.(se_hdr_id) < 31 → (2 ≤ fuel)%nat →
  ∃ pipe', switch_turn (H := x86) fuel m g pipe pkt n if_index = Some (Ok (pipe', [])).
Proof.
  intros Hb Hn Hlen Hm Hif Hend Hp Hw Hlv Hs Hf He Hma Hid Hfuel.
  destruct (init_phv_port (H := x86) pkt n if_index pipe) as (phv & q & Hfv & Hrun & Hset & Hwf & Hhi);
    [done|change META_LEN with 100; lia|done|done|done|lia|].
  destruct (fv_start _ _ _ _ _ Hfv) as (Hnext & _ & Hst & Hkey & _).
  destruct (parser_drops (parser p) (set_packet q phv) s k e
    (placed pipe.(meta_infos) 31 (mkHeaderInfo 0 0 0)) Hwf Hw Hlv Hs) as (phv' & Hpp & Hn' & Hg); try done.
  - cbn. by rewrite Hst, Hkey.
  - by apply placed_aligned.
  - destruct (execute_last (H := x86) fuel m pipe (set_packet q phv) p p phv') as (pl' & He'); try done.
    + cbn. by rewrite Hnext.
    + cbn. by rewrite Hnext.
    + by apply process_ends.
    + exists pl'. unfold switch_turn. rewrite Hrun, He'. cbn [mbind res_mbind]. by rewrite Hg.
Qed.

(** Before the controller has placed the standard metadata, its header lies at the
    start of the packet: the ingress port overwrites the first nine bits received,
    and the switch sends the packet where the nine bits after them, of the
    destination address, say. *)
Lemma unconfigured_sends_by_address fuel m g ready pkt n if_index :
  bytes pkt → 3 ≤ n ≤ FRONT_HEADER_LEN → n ≤ zlen pkt → 0 ≤ if_index < 512 → (2 ≤ fuel)%nat →
  let out := field_val pkt 9 9 in
  ∃ pipe' phv, field_val phv.(packet) 0 9 = if_index ∧
    switch_turn (H := x86) fuel m g (Pipeline_init (H := x86) ready PROC_NUM) pkt n if_index =
    Some (if out =? 0 then Ok (pipe', [])
          else '(_, sent) ← emit (H := x86) g phv n out pkt; Ok (pipe', sent)).
Proof.
  intros Hb Hn Hlen Hif Hfuel out. set (pipe := Pipeline_init (H := x86) ready PROC_NUM).
  destruct (init_phv_port (H := x86) pkt n if_index pipe) as (phv & q & Hfv & Hrun & Hset & Hwf & Hhi);
    [done|change META_LEN with 100; lia|done|by apply Forall_nil|done|vm_compute; discriminate|].
  change (placed (meta_infos pipe) 31 (mkHeaderInfo 0 0 0)) with (mkHeaderInfo 0 0 0) in Hhi.
  change (std_meta (meta_infos pipe)) with 0 in Hset.
  destruct (fv_start _ _ _ _ _ Hfv) as (Hnext & _). pose proof (wf_packet_len _ (fv_wf _ _ _ _ _ Hfv)) as Hpl.
  assert (Hql : zlen q = zlen (packet phv)) by apply Hset. revert Hpl.
  change (FRONT_HEADER_LEN + META_LEN) with 1600. intros Hpl.
  destruct (execute_last (H := x86) fuel m pipe (set_packet q phv)
    (set_proc_id (H := x86) ready 0 (Processor_init (H := x86)))
    (set_proc_id (H := x86) ready 0 (Processor_init (H := x86))) (set_next_proc_id (-1) (set_packet q phv)))
    as (pl' & He'); try done.
  - cbn. by rewrite Hnext.
  - cbn. by rewrite Hnext.
  - assert (Hout : get_field_value (H := x86) eg_if_fd (set_next_proc_id (-1) (set_packet q phv)) = Ok out).
    { rewrite (get_field_value_x86 eg_if_fd (set_next_proc_id (-1) (set_packet q phv)) _ Hhi (wf_packet _ Hwf));
        [|cbn; lia|cbn; lia|cbn; lia|cbn; lia|cbn; dlia].
      cbn [packet set_packet set_next_proc_id internal_offset fd_len eg_if_fd hdr_offset]. f_equal.
      rewrite (field_set_other (packet phv) 0 9 if_index q) by (done || lia).
      eapply fresh_front; [done|lia|]. change FRONT_HEADER_LEN with 1500 in *. lia. }
    exists pl', (set_next_proc_id (-1) (set_packet q phv)). split.
    + cbn [packet set_packet set_next_proc_id]. eapply field_set_same; [..|exact Hset]; change (2 ^ 9) with 512; lia.
    + unfold switch_turn. rewrite Hrun, He'. cbn [mbind res_mbind]. rewrite Hout. cbn [mbind res_mbind].
      by destruct (out =? 0).
Qed.

(** ** Examples *)

(** A switch of one processor whose parser drops every packet. *)
Definition demo_drop_stage : ParserStage :=
  mkStage (<[0%nat := mkTcamEntry 0 0 0]> (replicate 256 empty_trans))
    (replicate 256 (mkSramEntry 0 112 1 0 zero_fds 1)).
Definition demo_drop_parser : Parser := mkParser 1 (replicate 4 demo_drop_stage) 1.
Definition demo_drop_switch : Pipeline :=
  mkPipeline [with_parser demo_drop_parser (demo_proc0 EXACT)] 1 [mkHeaderInfo 31 0 4].

Lemma dropped_packet_not_sent_witness :
  ∃ pipe', switch_turn (H := x86) 2 init_mem demo_global demo_drop_switch demo_packet 14 1 = Some (Ok (pipe', [])).
Proof.
  apply (dropped_packet_not_sent 2 init_mem demo_global demo_drop_switch demo_packet 14 1
    (with_parser demo_drop_parser (demo_proc0 EXACT)) demo_drop_stage 0 (mkSramEntry 0 112 1 0 zero_fds 1)).
  - repeat constructor; lia.
  - vm_compute. split; discriminate.
  - vm_compute. discriminate.
  - repeat constructor; cbn; lia.
  - lia.
  - reflexivity.
  - reflexivity.
  - discriminate.
  - cbn. lia.
  - reflexivity.
  - reflexivity.
  - reflexivity.
  - reflexivity.
  - cbn. lia.
  - lia.
Defined.

(** A packet with 11 in bits 16 and 17. *)
Definition demo_stray : list Z := [1; 0; 192; 4; 5; 6; 7; 8; 9; 10; 11; 12; 8; 0].
Definition demo_bare : Pipeline := Pipeline_init (H := x86) true PROC_NUM.

Lemma unconfigured_sends_by_address_witness :
  ∃ pipe' phv, field_val phv.(packet) 0 9 = 1 ∧
    switch_turn (H := x86) 2 init_mem demo_global demo_bare demo_stray 14 1 =
    Some ('(_, sent) ← emit (H := x86) demo_global phv 14 3 demo_stray; Ok (pipe', sent)).
Proof.
  destruct (unconfigured_sends_by_address 2 init_mem demo_global true demo_stray 14 1)
    as (pipe' & phv & Hport & Hrun).
  - repeat constructor; lia.
  - vm_compute. split; discriminate.
  - vm_compute. discriminate.
  - lia.
  - lia.
  - exists pipe', phv. split; [exact Hport|exact Hrun].
Defined.

(** What the switch makes of that packet, and the vector that comes out. *)
Definition or_init (r : res PHV) : PHV := match r with Ok phv => phv | Fault _ => demo_phv end.
Definition demo_in : PHV := or_init (init_phv (H := x86) demo_stray 14 1 demo_bare).
Definition demo_out : PHV := set_next_proc_id (-1) demo_in.

Lemma demo_in_ok : init_phv (H := x86) demo_stray 14 1 demo_bare = Ok demo_in.
Proof. vm_compute. reflexivity. Qed.

Lemma demo_out_wf : phv_wf demo_out.
Proof.
  split; try (by vm_compute); try (apply (bool_decide_unpack _); vm_compute; exact I).
Qed.

Lemma switch_sends_witness :
  switch_turn (H := x86) 2 init_mem demo_global demo_bare demo_stray 14 1 = Some (Ok (demo_bare,
    [(0, [0; 128; 192; 4; 5; 6; 2; 0; 0; 0; 0; 1; 8; 0]); (1, [0; 128; 192; 4; 5; 6; 2; 0; 0; 0; 0; 2; 8; 0])])).
Proof.
  rewrite (switch_sends (H := x86) 2 init_mem demo_global demo_bare demo_stray 14 1 demo_in demo_bare demo_out 3).
  - vm_compute. reflexivity.
  - cbn. lia.
  - reflexivity.
  - repeat constructor.
  - vm_compute. split; discriminate.
  - vm_compute. discriminate.
  - exact demo_in_ok.
  - vm_compute. reflexivity.
  - exact demo_out_wf.
  - vm_compute. reflexivity.
  - lia.
Defined.
