(* ===== verification/Server.v ===== *)
(** * The configuration server (dataplane_server.h)

    The controller configures the running pipeline through remote calls.  A request
    is a protobuf message: its integers are [int32], its enumerations open, its
    byte strings as long as the sender made them.  A handler answers CANCELLED when
    there is no pipeline, and otherwise turns the message into the data of the
    pipeline and calls the pipeline. *)

From stdpp Require Import base numbers list gmap.
From Stdlib Require Import ZArith Lia.
From S2P Require Import Prelude Bits Phv Parser Executor Gateway Matcher Pipeline.

#[local] Open Scope Z_scope.

(** ** Messages (controller_to_dataplane.proto) *)
Record FieldMsg : Set := mkFieldMsg {
  f_hdrid : Z; f_internaloffset : Z; f_fieldlen : Z; f_fieldtype : Z
}.
Record DataMsg : Set := mkDataMsg { d_len : Z; d_val : list Z }.
Record HeaderMsg : Set := mkHeaderMsg { h_headerid : Z; h_headerlength : Z; h_headeroffset : Z }.

(** The [oneof] of a gateway parameter and of a parameter. *)
Inductive GwValue : Set := GwNone | GwField (f : FieldMsg) | GwData (d : DataMsg).
Record GatewayParamMsg : Set := mkGwParam { g_paramtype : Z; g_value : GwValue }.

Inductive PValue : Set :=
| PvNone | PvHdr (i : Z) | PvField (f : FieldMsg) | PvData (d : DataMsg) | PvPara (i : Z) | PvOp (o : Z).
Record ParameterMsg : Set := mkParamMsg { p_type : Z; p_val : PValue }.

(** A tree; [TNone] is an absent submessage. *)
Inductive TreeMsg : Set := TNone | TNode (opt : ParameterMsg) (left right : TreeMsg).

Record PrimMsg : Set := mkPrimMsg { pm_lvalue : FieldMsg; pm_root : TreeMsg }.
Record ActionMsg : Set := mkActionMsg { a_paranum : Z; a_prims : list PrimMsg; a_paralens : list Z }.

(** Reading a member that is absent gives the default message. *)
Definition field_default : FieldMsg := mkFieldMsg 0 0 0 0.
Definition data_default : DataMsg := mkDataMsg 0 [].
Definition gw_field (v : GwValue) : FieldMsg := match v with GwField f => f | _ => field_default end.
Definition gw_data (v : GwValue) : DataMsg := match v with GwData d => d | _ => data_default end.
Definition pv_field (v : PValue) : FieldMsg := match v with PvField f => f | _ => field_default end.
Definition pv_data (v : PValue) : DataMsg := match v with PvData d => d | _ => data_default end.
Definition pv_para (v : PValue) : Z := match v with PvPara i => i | _ => 0 end.
Definition pv_op (v : PValue) : Z := match v with PvOp o => o | _ => 0 end.

(** ** The state of the server: the pointer [ppl] and the memory of the switch *)
Record ServerState : Type := mkServer { ppl : option Pipeline; mem : Mem }.

Inductive Status : Set := OK | CANCELLED.
#[export] Instance Status_eq_dec : EqDecision Status.
Proof. solve_decision. Defined.

(** The body of a handler, on the pipeline or on the pipeline and the memory. *)
Definition on_ppl (f : Pipeline → res Pipeline) (st : ServerState) : res (Status * ServerState) :=
  match st.(ppl) with
  | None => mret (CANCELLED, st)
  | Some p => p ← f p; mret (OK, mkServer (Some p) st.(mem))
  end.

Definition on_ppl_mem (f : Mem * Pipeline → res (Mem * Pipeline)) (st : ServerState)
    : res (Status * ServerState) :=
  match st.(ppl) with
  | None => mret (CANCELLED, st)
  | Some p => '(m, p) ← f (st.(mem), p); mret (OK, mkServer (Some p) m)
  end.

(** ** Conversions *)

(** [get_uint_from_bytes]: all the bytes of the string. *)
Definition get_uint_from_bytes (bytes : list Z) (bytes_i : list Z) : res (list Z) :=
  for_lt 0 (zlen bytes) (λ i a, x ← rd bytes i; wr a i x) bytes_i.

Definition get_field_type (t : Z) : FieldType :=
  if t =? 1 then VALID else if t =? 0 then FIELD else if t =? 2 then HIT else if t =? 3 then MISS else FIELD.

Definition get_relation_code (c : Z) : RelationCode :=
  if c =? 0 then GT else if c =? 1 then GTE else if c =? 2 then LT
  else if c =? 3 then LTE else if c =? 4 then EQ else if c =? 5 then NEQ else EQ.

Definition get_match_type (t : Z) : MatchType :=
  if t =? 0 then EXACT else if t =? 2 then LPM else if t =? 1 then TERNARY else EXACT.

Definition get_op_code (o : Z) : OpCode :=
  if o =? 0 then ADD else if o =? 1 then SUB else if o =? 4 then SHIFT_LEFT
  else if o =? 5 then SHIFT_RIGHT else if o =? 6 then BIT_AND else if o =? 7 then BIT_OR
  else if o =? 8 then BIT_XOR else if o =? 9 then BIT_NEG else if o =? 2 then SET_FIELD
  else if o =? 3 then COPY_FIELD else ADD.

(** Another value falls off the end of the function. *)
Definition get_gate_entry_type (t : Z) : res GateEntryType :=
  if t =? 0 then Ok TABLE else if t =? 1 then Ok STAGE else Fault NoReturn.

Definition get_field_info (f : FieldMsg) : FieldInfo :=
  mkFieldInfo (u8 f.(f_hdrid)) (u16 f.(f_internaloffset)) (u16 f.(f_fieldlen)) (get_field_type f.(f_fieldtype)).

(** [s[i]] of a [std::string], with the terminating zero. *)
Definition str_at (s : list Z) (i : Z) : res Z := if i =? zlen s then Ok 0 else rd s i.

(** [set_exp_param] on a parameter that is all zeros: a constant of no bits. The
    buffers of a constant have [len / 8] bytes, rounded down; the loop fills
    [len / 8] rounded up. *)
Definition param_zero : GateParam := GCONSTANT (mkData 0 []).

Definition set_exp_param `{Target} (gp : GatewayParamMsg) : res GateParam :=
  if gp.(g_paramtype) =? 2 then
    let f := gw_field gp.(g_value) in
    mret (if f.(f_fieldtype) =? 0 then
            GFIELD (mkFieldInfo (u8 f.(f_hdrid)) (u16 f.(f_internaloffset)) (u16 f.(f_fieldlen)) FIELD)
          else if f.(f_fieldtype) =? 1 then GFIELD (mkFieldInfo (u8 f.(f_hdrid)) 0 1 VALID)
          else if f.(f_fieldtype) =? 2 then GFIELD (mkFieldInfo 0 0 1 HIT)
          else if f.(f_fieldtype) =? 3 then GFIELD (mkFieldInfo 0 0 1 MISS)
          else param_zero)
  else if gp.(g_paramtype) =? 0 then
    let d := gw_data gp.(g_value) in
    let byte_len := Z.quot d.(d_len) 8 in
    value_i ← fresh byte_len;
    v ← fresh byte_len;
    '(_, v) ← for_lt 0 (ceil8 d.(d_len)) (λ i '(value_i, v),
      x ← str_at d.(d_val) i;
      value_i ← wr value_i i x;
      y ← rd value_i i;
      v ← wr v i y;
      mret (value_i, v)) (value_i, v);
    mret (GCONSTANT (mkData d.(d_len) v))
  else mret param_zero.

(** [build_exp_tree]; a node nothing is stored in is a constant of no bits. *)
Definition build_opt `{Target} (opt : ParameterMsg) : res Parameter_ :=
  if opt.(p_type) =? 2 then mret (PFIELD (get_field_info (pv_field opt.(p_val))))
  else if opt.(p_type) =? 0 then
    let d := pv_data opt.(p_val) in
    let byte_len := ceil8 d.(d_len) in
    v ← fresh byte_len;
    v ← get_uint_from_bytes d.(d_val) v;
    copy ← fresh byte_len;
    copy ← memcpy copy 0 v 0 byte_len;
    mret (CONSTANT (mkData d.(d_len) copy))
  else if opt.(p_type) =? 3 then mret (PARAM (pv_para opt.(p_val)))
  else if opt.(p_type) =? 4 then mret (OPERATOR (get_op_code (pv_op opt.(p_val))))
  else mret (CONSTANT (mkData 0 [])).

Fixpoint build_exp_tree `{Target} (t : TreeMsg) : res ExpTreeNode :=
  match t with
  | TNone => mret NullNode
  | TNode opt l r =>
      o ← build_opt opt;
      l ← build_exp_tree l;
      r ← build_exp_tree r;
      mret (Node o l r)
  end.

(** The root of a primitive is built even when it is absent. *)
Definition build_root `{Target} (t : TreeMsg) : res ExpTreeNode :=
  build_exp_tree (match t with TNone => TNode (mkParamMsg 0 PvNone) TNone TNone | _ => t end).

Definition build_prim `{Target} (pm : PrimMsg) : res Primitive :=
  r ← build_root pm.(pm_root);
  mret (mkPrimitive (Some (get_field_info pm.(pm_lvalue))) r).

(** ** The handlers *)

(** [HeaderInfo] has its members in the order id, offset, length. *)
Definition setMetadata (infos : list HeaderMsg) : ServerState → res (Status * ServerState) :=
  on_ppl (λ p, Ok (set_metadata_header
    ((λ h, mkHeaderInfo (u8 h.(h_headerid)) (u16 h.(h_headerlength)) (u16 h.(h_headeroffset))) <$> infos) p)).

Definition initParserLevel (proc level : Z) : ServerState → res (Status * ServerState) :=
  on_ppl (ppl_init_parser_level proc level).

Definition modParserEntry (proc level state key mask hdrid hdrlen nextstate transfieldnum : Z)
    (transfds : list FieldMsg) (miss_act : Z) : ServerState → res (Status * ServerState) :=
  on_ppl (ppl_modify_parser_entry_direct proc level (u8 state) (u32 key) (u32 mask) (u8 hdrid) (u16 hdrlen)
    (u8 nextstate) (u8 transfieldnum) (get_field_info <$> transfds) (u8 miss_act)).

Definition clearParser (proc : Z) : ServerState → res (Status * ServerState) := on_ppl (ppl_clear_parser proc).

Definition insertRelationExp `{Target} (proc : Z) (p1 p2 : GatewayParamMsg) (relation : Z)
    : ServerState → res (Status * ServerState) :=
  on_ppl (λ p,
    a ← set_exp_param p1;
    b ← set_exp_param p2;
    ppl_insert_exp proc (mkRelationExp a b (get_relation_code relation)) p).

Definition clearRelationExp (proc : Z) : ServerState → res (Status * ServerState) := on_ppl (ppl_clear_exp proc).

Definition clearResMap (proc : Z) : ServerState → res (Status * ServerState) := on_ppl (ppl_clear_res_map proc).

Definition modResMap (proc key type v : Z) : ServerState → res (Status * ServerState) :=
  on_ppl (λ p, t ← get_gate_entry_type type; ppl_modify_res_map proc (u8 key) t v p).

Definition setDefaultGateEntry (proc type v : Z) : ServerState → res (Status * ServerState) :=
  on_ppl (λ p, t ← get_gate_entry_type type; ppl_set_default_entry proc t v p).

Definition setActionProc (proc matcher_id : Z) (actionprocs : list (Z * Z)) : ServerState → res (Status * ServerState) :=
  let m : gmap Z Z := fold_left (λ m kv, <[kv.1 := kv.2]> m) actionprocs ∅ in
  on_ppl (ppl_set_action_proc_map proc matcher_id (map_to_list m)).

Definition setMemConfig (proc matcher_id keywidth valuewidth : Z) (keyconfig valueconfig : list Z)
    (matchtype d missactid : Z) : ServerState → res (Status * ServerState) :=
  on_ppl_mem (λ st,
    '(m, p) ← ppl_clear_old_config proc matcher_id st;
    p ← ppl_init_match_type proc matcher_id (get_match_type matchtype) p;
    '(m, p) ← ppl_set_mem_config proc matcher_id keywidth valuewidth d keyconfig valueconfig (m, p);
    p ← ppl_set_miss_act_id proc matcher_id missactid p;
    mret (m, p)).

Definition setFieldInfo (proc matcher_id : Z) (fdinfos : list FieldMsg) : ServerState → res (Status * ServerState) :=
  on_ppl (ppl_set_field_infos proc matcher_id (get_field_info <$> fdinfos)).

Definition setNoTable (proc matcher_id : Z) (b : bool) : ServerState → res (Status * ServerState) :=
  on_ppl (ppl_set_no_table proc matcher_id b).

Definition clearOldConfig (proc matcher_id : Z) : ServerState → res (Status * ServerState) :=
  on_ppl_mem (ppl_clear_old_config proc matcher_id).

Definition setMissActId (proc matcher_id act : Z) : ServerState → res (Status * ServerState) :=
  on_ppl (ppl_set_miss_act_id proc matcher_id act).

(** The arrays have the lengths the request gives, the strings their own. *)
Definition insertSramEntry `{Target} (proc matcher_id : Z) (key value : list Z) (klen vlen : Z)
    : ServerState → res (Status * ServerState) :=
  on_ppl_mem (λ st,
    key_i ← fresh klen;
    value_i ← fresh vlen;
    key_i ← get_uint_from_bytes key key_i;
    value_i ← get_uint_from_bytes value value_i;
    ppl_insert_sram_entry proc matcher_id key_i value_i klen vlen st).

Definition insertTcamEntry `{Target} (proc matcher_id : Z) (key mask value : list Z) (klen vlen : Z)
    : ServerState → res (Status * ServerState) :=
  on_ppl_mem (λ st,
    key_i ← fresh klen;
    value_i ← fresh vlen;
    key_i ← get_uint_from_bytes key key_i;
    value_i ← get_uint_from_bytes value value_i;
    mask_i ← fresh (zlen mask);
    mask_i ← get_uint_from_bytes mask mask_i;
    ppl_insert_tcam_entry proc matcher_id key_i mask_i value_i klen vlen st).

Definition insertAction `{Target} (proc : Z) (action : ActionMsg) (action_id : Z)
    : ServerState → res (Status * ServerState) :=
  on_ppl (λ p,
    prims ← collect build_prim action.(a_prims);
    ppl_insert_action proc (mkAction prims action.(a_paranum) [] action.(a_paralens)) action_id p).

Definition clearAction (proc : Z) : ServerState → res (Status * ServerState) := on_ppl (ppl_clear_action proc).

Definition delAction (proc action_id : Z) : ServerState → res (Status * ServerState) :=
  on_ppl (ppl_del_action proc action_id).

(** ** The service: one constructor for every call *)
Inductive Request : Set :=
| SetMetadata (infos : list HeaderMsg)
| InitParserLevel (proc level : Z)
| ModParserEntry (proc level state key mask hdrid hdrlen nextstate transfieldnum : Z)
    (transfds : list FieldMsg) (miss_act : Z)
| ClearParser (proc : Z)
| InsertRelationExp (proc : Z) (p1 p2 : GatewayParamMsg) (relation : Z)
| ClearRelationExp (proc : Z)
| ClearResMap (proc : Z)
| ModResMap (proc key type v : Z)
| SetDefaultGateEntry (proc type v : Z)
| SetActionProc (proc matcher_id : Z) (actionprocs : list (Z * Z))
| SetMemConfig (proc matcher_id keywidth valuewidth : Z) (keyconfig valueconfig : list Z)
    (matchtype d missactid : Z)
| SetFieldInfo (proc matcher_id : Z) (fdinfos : list FieldMsg)
| SetNoTable (proc matcher_id : Z) (b : bool)
| ClearOldConfig (proc matcher_id : Z)
| SetMissActId (proc matcher_id act : Z)
| InsertSramEntry (proc matcher_id : Z) (key value : list Z) (klen vlen : Z)
| InsertTcamEntry (proc matcher_id : Z) (key mask value : list Z) (klen vlen : Z)
| InsertAction (proc : Z) (action : ActionMsg) (action_id : Z)
| ClearAction (proc : Z)
| DelAction (proc action_id : Z).

Definition handle `{Target} (r : Request) : ServerState → res (Status * ServerState) :=
  match r with
  | SetMetadata infos => setMetadata infos
  | InitParserLevel proc level => initParserLevel proc level
  | ModParserEntry proc level state key mask hdrid hdrlen ns num fds miss =>
      modParserEntry proc level state key mask hdrid hdrlen ns num fds miss
  | ClearParser proc => clearParser proc
  | InsertRelationExp proc p1 p2 rel => insertRelationExp proc p1 p2 rel
  | ClearRelationExp proc => clearRelationExp proc
  | ClearResMap proc => clearResMap proc
  | ModResMap proc key type v => modResMap proc key type v
  | SetDefaultGateEntry proc type v => setDefaultGateEntry proc type v
  | SetActionProc proc mid l => setActionProc proc mid l
  | SetMemConfig proc mid kw vw kc vc mt d miss => setMemConfig proc mid kw vw kc vc mt d miss
  | SetFieldInfo proc mid fds => setFieldInfo proc mid fds
  | SetNoTable proc mid b => setNoTable proc mid b
  | ClearOldConfig proc mid => clearOldConfig proc mid
  | SetMissActId proc mid a => setMissActId proc mid a
  | InsertSramEntry proc mid key value klen vlen => insertSramEntry proc mid key value klen vlen
  | InsertTcamEntry proc mid key mask value klen vlen => insertTcamEntry proc mid key mask value klen vlen
  | InsertAction proc a id => insertAction proc a id
  | ClearAction proc => clearAction proc
  | DelAction proc id => delAction proc id
  end.

(** The processor a request is about. *)
Definition request_proc (r : Request) : option Z :=
  match r with
  | SetMetadata _ => None
  | InitParserLevel i _ | ModParserEntry i _ _ _ _ _ _ _ _ _ _ | ClearParser i
  | InsertRelationExp i _ _ _ | ClearRelationExp i | ClearResMap i | ModResMap i _ _ _
  | SetDefaultGateEntry i _ _ | SetActionProc i _ _ | SetMemConfig i _ _ _ _ _ _ _ _
  | SetFieldInfo i _ _ | SetNoTable i _ _ | ClearOldConfig i _ | SetMissActId i _ _
  | InsertSramEntry i _ _ _ _ _ | InsertTcamEntry i _ _ _ _ _ _ | InsertAction i _ _
  | ClearAction i | DelAction i _ => Some i
  end.

(** Serving the requests of a client one after the other; the answers, and the state. *)
Definition serve `{Target} (rs : list Request) (st : ServerState) : res (list Status * ServerState) :=
  for_each (λ r '(out, st), '(s, st) ← handle r st; mret (out ++ [s], st)) rs ([], st).

(** ** Requests are local *)

(** [pl'] has the processors of [pl] but for processor [i]. *)
Record only_proc (i : Z) (pl pl' : Pipeline) : Prop := {
  op_num : pl'.(proc_num) = pl.(proc_num);
  op_metas : pl'.(meta_infos) = pl.(meta_infos);
  op_len : zlen pl'.(procs) = zlen pl.(procs);
  op_range : 0 ≤ i < zlen pl.(procs);
  op_other : ∀ j : nat, j ≠ Z.to_nat i → pl'.(procs) !! j = pl.(procs) !! j
}.

Lemma only_proc_trans i a b c : only_proc i a b → only_proc i b c → only_proc i a c.
Proof. intros [] []. split; try congruence. intros j Hj. by rewrite op_other1, op_other0. Qed.

Lemma on_proc_inv i f pl pl' :
  on_proc i f pl = Ok pl' → only_proc i pl pl' ∧
  ∃ p p', rd pl.(procs) i = Ok p ∧ f p = Ok p' ∧ rd pl'.(procs) i = Ok p'.
Proof.
  intros Hrun. unfold on_proc in Hrun. apply bind_ok_inv in Hrun as (p & Hp & Hrun).
  apply bind_ok_inv in Hrun as (p' & Hf & Hrun). apply bind_ok_inv in Hrun as (l & Hl & Hrun).
  injection Hrun as <-. apply wr_ok_inv in Hl as [Hi ->]. split.
  - split; cbn; try done; [by rewrite zlen_insert|]. intros j Hj. by rewrite list_lookup_insert_ne.
  - exists p, p'. split; [done|]. split; [done|]. by apply rd_insert_eq.
Qed.

Lemma on_proc_mem_inv i f m pl m' pl' :
  on_proc_mem i f (m, pl) = Ok (m', pl') → only_proc i pl pl' ∧
  ∃ p p', rd pl.(procs) i = Ok p ∧ f (m, p) = Ok (m', p') ∧ rd pl'.(procs) i = Ok p'.
Proof.
  intros Hrun. unfold on_proc_mem in Hrun. apply bind_ok_inv in Hrun as (p & Hp & Hrun).
  apply bind_ok_inv in Hrun as ([m1 p'] & Hf & Hrun). apply bind_ok_inv in Hrun as (l & Hl & Hrun).
  injection Hrun as <- <-. apply wr_ok_inv in Hl as [Hi ->]. split.
  - split; cbn; try done; [by rewrite zlen_insert|]. intros j Hj. by rewrite list_lookup_insert_ne.
  - exists p, p'. split; [done|]. split; [done|]. by apply rd_insert_eq.
Qed.

Lemma on_proc_oob i f pl : ¬ 0 ≤ i < zlen pl.(procs) → on_proc i f pl = Fault OutOfBounds.
Proof. intros. unfold on_proc. by rewrite rd_oob. Qed.
Lemma on_proc_mem_oob i f m pl : ¬ 0 ≤ i < zlen pl.(procs) → on_proc_mem i f (m, pl) = Fault OutOfBounds.
Proof. intros. unfold on_proc_mem. by rewrite rd_oob. Qed.

(** Unfolding a handler down to the operations on one processor. *)
Create HintDb handlers.
Create HintDb ppl_ops.
#[local] Hint Unfold setMetadata initParserLevel modParserEntry clearParser insertRelationExp clearRelationExp
  clearResMap modResMap setDefaultGateEntry setActionProc setMemConfig setFieldInfo setNoTable clearOldConfig
  setMissActId insertSramEntry insertTcamEntry insertAction clearAction delAction : handlers.
#[local] Hint Unfold ppl_init_parser_level ppl_clear_parser ppl_modify_parser_entry ppl_modify_parser_entry_direct
  ppl_insert_exp ppl_clear_exp ppl_clear_res_map ppl_set_default_entry ppl_modify_res_map ppl_clear_old_config
  ppl_set_action_proc_map ppl_init_match_type ppl_set_mem_config ppl_set_no_table ppl_insert_sram_entry
  ppl_insert_tcam_entry ppl_set_field_infos ppl_set_miss_act_id ppl_insert_action ppl_del_action
  ppl_clear_action : ppl_ops.

Lemma on_ppl_inv f m p s st :
  on_ppl f (mkServer (Some p) m) = Ok (s, st) → s = OK ∧ ∃ p', f p = Ok p' ∧ st = mkServer (Some p') m.
Proof. unfold on_ppl. cbn [ppl mem]. intros Hrun. inv_ok. eauto. Qed.

Lemma on_ppl_mem_inv f m p s st :
  on_ppl_mem f (mkServer (Some p) m) = Ok (s, st) →
  s = OK ∧ ∃ m' p', f (m, p) = Ok (m', p') ∧ st = mkServer (Some p') m'.
Proof.
  unfold on_ppl_mem. cbn [ppl mem]. intros Hrun. apply bind_ok_inv in Hrun as ([m' p'] & Hf & Hrun).
  injection Hrun as <- <-. eauto.
Qed.

(** Take a handler that returned apart: one equation for each operation it called. *)
Ltac handler_steps Hrun :=
  first [ apply on_ppl_inv in Hrun as (-> & ? & Hrun & ->)
        | apply on_ppl_mem_inv in Hrun as (-> & ? & ? & Hrun & ->) ];
  autounfold with ppl_ops in Hrun;
  repeat match type of Hrun with
  | (_ ≫= _) = Ok _ =>
      let x := fresh "x" in let Hx := fresh "Hx" in apply bind_ok_inv in Hrun as (x & Hx & Hrun);
      try (is_var x; destruct x as [? ?]); cbn beta iota in Hrun
  | mret _ = Ok _ => injection Hrun as ? ?; subst
  end.

Lemma request_only_proc `{Target} r i m p s st :
  request_proc r = Some i → handle r (mkServer (Some p) m) = Ok (s, st) →
  s = OK ∧ ∃ p', st.(ppl) = Some p' ∧ only_proc i p p'.
Proof.
  intros Hr Hrun.
  destruct r; cbn [request_proc] in Hr; try discriminate Hr; injection Hr as <-; cbn [handle] in Hrun;
    autounfold with handlers in Hrun; handler_steps Hrun; (split; [done|]); eexists; (split; [done|]).
  all: repeat match goal with
  | Hx : on_proc _ _ _ = Ok _ |- _ => apply on_proc_inv in Hx as [? _]
  | Hx : on_proc_mem _ _ (_, _) = Ok (_, _) |- _ => apply on_proc_mem_inv in Hx as [? _]
  end; eauto using only_proc_trans.
Qed.

(** ** Requests are isolated

    Which blocks a processor can reach: those of its cluster.  Only four requests
    use them. *)
Definition touches_memory (r : Request) : bool :=
  match r with
  | SetMemConfig _ _ _ _ _ _ _ _ _ | ClearOldConfig _ _ | InsertSramEntry _ _ _ _ _ _ | InsertTcamEntry _ _ _ _ _ _ _ => true
  | _ => false
  end.

Definition in_cluster (base num i g : Z) : Prop :=
  Z.quot i PROC_NUM_PER_CLUSTER * base ≤ g < Z.quot i PROC_NUM_PER_CLUSTER * base + num.
Definition sram_of (i g : Z) : Prop := in_cluster SRAM_IDX_BASE SRAM_NUM_PER_CLUSTER i g.
Definition tcam_of (i g : Z) : Prop := in_cluster TCAM_IDX_BASE TCAM_NUM_PER_CLUSTER i g.

(** The tables of processor [i] know that they are on processor [i], and their
    pointers that are not null go to the blocks of its cluster. *)
Record thread_home (i : Z) (th : MatcherThread) : Prop := {
  tm_id : th.(mt_proc_id) = i;
  tm_sram : ∀ g, Some g ∈ th.(sram) → sram_of i g;
  tm_tcam : ∀ g, Some g ∈ th.(tcam) → tcam_of i g
}.
Definition proc_home (i : Z) (p : Processor) : Prop := ∀ mt, p.(matcher) = Some mt → Forall (thread_home i) mt.(mts).
Definition at_home (pl : Pipeline) : Prop := ∀ i p, rd pl.(procs) i = Ok p → proc_home i p.

(** [m'] has the blocks of [m] but for those of the cluster of processor [i]. *)
Record same_memory (i : Z) (m m' : Mem) : Prop := {
  sm_srams : ∀ g, 0 ≤ g → ¬ sram_of i g → rd m'.(srams) g = rd m.(srams) g;
  sm_tbls : ∀ g, 0 ≤ g → ¬ tcam_of i g → rd m'.(tcam_tbls) g = rd m.(tcam_tbls) g;
  sm_masks : ∀ g, 0 ≤ g → ¬ tcam_of i g → rd m'.(tcam_masks) g = rd m.(tcam_masks) g
}.

#[export] Instance same_memory_preorder i : PreOrder (same_memory i).
Proof.
  split; [by intros m|]. intros a b c [] []. split; intros g H0 Hg.
  - by rewrite sm_srams1, sm_srams0.
  - by rewrite sm_tbls1, sm_tbls0.
  - by rewrite sm_masks1, sm_masks0.
Qed.

(** The passes over the blocks of a table store in blocks its pointers go to. *)
Lemma ptr_at_in ptrs c g : ptr_at ptrs c = Ok g → Some g ∈ ptrs.
Proof.
  unfold ptr_at. intros Hrun. apply bind_ok_inv in Hrun as (p & Hp & Hrun). destruct p; [|done]. injection Hrun as ->.
  apply rd_ok_inv in Hp as [_ Hp]. by eapply list_elem_of_lookup_2.
Qed.

Lemma wr_elsewhere {A} (l l' : list A) g x j : wr l g x = Ok l' → 0 ≤ j → j ≠ g → rd l' j = rd l j.
Proof.
  intros Hw Hj Hne. apply wr_ok_inv in Hw as [Hg ->]. unfold rd. destruct (0 <=? j); [|done].
  by rewrite list_lookup_insert_ne by lia.
Qed.

Lemma clear_blocks_frame (P : Z → Prop) ptrs bound cfg count n blocks blocks' :
  (∀ g, Some g ∈ ptrs → P g) → clear_blocks ptrs bound cfg count n blocks = Ok blocks' →
  ∀ g, 0 ≤ g → ¬ P g → rd blocks' g = rd blocks g.
Proof.
  intros HP Hrun g H0 Hg. revert Hrun. unfold clear_blocks.
  eapply (for_up_pres (λ b, rd b g = rd blocks g)); [|done]. intros j t t' Ht Hb.
  apply bind_ok_inv in Hb as (u & _ & Hb). apply bind_ok_inv in Hb as (c & _ & Hb).
  apply bind_ok_inv in Hb as (q & Hq & Hb). apply bind_ok_inv in Hb as (x & _ & Hb).
  apply ptr_at_in, HP in Hq. rewrite <- Ht. eapply wr_elsewhere; [done..|]. by intros ->.
Qed.

Lemma store_row_frame (P : Z → Prop) ptrs cap w seq idx src len blocks blocks' :
  (∀ g, Some g ∈ ptrs → P g) → store_row ptrs cap w seq idx src len blocks = Ok blocks' →
  ∀ g, 0 ≤ g → ¬ P g → rd blocks' g = rd blocks g.
Proof.
  intros HP Hrun g H0 Hg. revert Hrun. unfold store_row.
  eapply (for_up_pres (λ b, rd b g = rd blocks g)); [|done]. intros j t t' Ht Hb.
  apply bind_ok_inv in Hb as (c & _ & Hb). apply bind_ok_inv in Hb as (q & Hq & Hb).
  apply bind_ok_inv in Hb as (x & _ & Hb). apply bind_ok_inv in Hb as (y & _ & Hb).
  apply ptr_at_in, HP in Hq. rewrite <- Ht. eapply wr_elsewhere; [done..|]. by intros ->.
Qed.

(** What an operation on a table keeps: its home, and the memory of other clusters. *)
Definition thread_keeps (i : Z) (f : Mem * MatcherThread → res (Mem * MatcherThread)) : Prop :=
  ∀ m th m' th', thread_home i th → f (m, th) = Ok (m', th') → thread_home i th' ∧ same_memory i m m'.

Lemma clear_old_config_keeps i : thread_keeps i clear_old_config.
Proof.
  intros m th m' th' [Hid Hs Ht] Hrun. unfold clear_old_config in Hrun. case_decide.
  - apply bind_ok_inv in Hrun as (s1 & H1 & Hrun). apply bind_ok_inv in Hrun as (s2 & H2 & Hrun). injection Hrun as <- <-.
    split; [by split|]. split; [|done..]. intros g H0 Hg. cbn.
    by rewrite (clear_blocks_frame (sram_of i) _ _ _ _ _ _ _ Hs H2), (clear_blocks_frame (sram_of i) _ _ _ _ _ _ _ Hs H1).
  - apply bind_ok_inv in Hrun as (t & H1 & Hrun). apply bind_ok_inv in Hrun as (k & H2 & Hrun).
    apply bind_ok_inv in Hrun as (s & H3 & Hrun). injection Hrun as <- <-. split; [by split|].
    split; intros g H0 Hg; cbn.
    + by rewrite (clear_blocks_frame (sram_of i) _ _ _ _ _ _ _ Hs H3).
    + by rewrite (clear_blocks_frame (tcam_of i) _ _ _ _ _ _ _ Ht H1).
    + by rewrite (clear_blocks_frame (tcam_of i) _ _ _ _ _ _ _ Ht H2).
Qed.

Lemma insert_sram_entry_keeps i key value kl vl : thread_keeps i (insert_sram_entry key value kl vl).
Proof.
  intros m th m' th' Hth Hrun. pose proof (tm_sram _ _ Hth) as Hs. unfold insert_sram_entry in Hrun.
  apply bind_ok_inv in Hrun as (sum & _ & Hrun). apply bind_ok_inv in Hrun as (sl & _ & Hrun).
  apply bind_ok_inv in Hrun as (kl' & _ & Hrun). apply bind_ok_inv in Hrun as (vl' & _ & Hrun).
  apply bind_ok_inv in Hrun as (s1 & H1 & Hrun). apply bind_ok_inv in Hrun as (s2 & H2 & Hrun). injection Hrun as <- <-.
  split; [done|]. split; [|done..]. intros g H0 Hg. cbn.
  by rewrite (store_row_frame (sram_of i) _ _ _ _ _ _ _ _ _ Hs H2), (store_row_frame (sram_of i) _ _ _ _ _ _ _ _ _ Hs H1).
Qed.

Lemma insert_tcam_entry_keeps i key mask value kl vl : thread_keeps i (insert_tcam_entry key mask value kl vl).
Proof.
  intros m th m' th' Hth Hrun. pose proof (tm_sram _ _ Hth) as Hs. pose proof (tm_tcam _ _ Hth) as Ht.
  unfold insert_tcam_entry in Hrun.
  apply bind_ok_inv in Hrun as (sum & _ & Hrun). apply bind_ok_inv in Hrun as (sl & _ & Hrun).
  apply bind_ok_inv in Hrun as (kl' & _ & Hrun). apply bind_ok_inv in Hrun as (vl' & _ & Hrun).
  apply bind_ok_inv in Hrun as (t & H1 & Hrun). apply bind_ok_inv in Hrun as (k & H2 & Hrun).
  apply bind_ok_inv in Hrun as (s & H3 & Hrun). injection Hrun as <- <-.
  split; [by destruct Hth|]. split; intros g H0 Hg; cbn.
  - by rewrite (store_row_frame (sram_of i) _ _ _ _ _ _ _ _ _ Hs H3).
  - by rewrite (store_row_frame (tcam_of i) _ _ _ _ _ _ _ _ _ Ht H1).
  - by rewrite (store_row_frame (tcam_of i) _ _ _ _ _ _ _ _ _ Ht H2).
Qed.

Lemma ptrs_home i :
  (∀ ready g, Some g ∈ sram_ptrs ready i → sram_of i g) ∧ (∀ ready g, Some g ∈ tcam_ptrs ready i → tcam_of i g).
Proof.
  split; intros [] g Hg; unfold sram_ptrs, tcam_ptrs in Hg; apply list_elem_of_fmap in Hg as (k & [= ->] & Hk);
    apply elem_of_seq in Hk; unfold sram_of, tcam_of, in_cluster; lia.
Qed.

Lemma set_mem_config_keeps i kw vw d kc vc :
  thread_keeps i (λ '(m, th), th ← thread_set_mem_config kw vw d kc vc th; mret (m, th)).
Proof.
  intros m th m' th' [Hid Hs Ht] Hrun. apply bind_ok_inv in Hrun as (th1 & H1 & Hrun). injection Hrun as <- <-.
  split; [|done]. destruct (ptrs_home i) as [Hps Hpt]. unfold thread_set_mem_config in H1. case_decide; inv_ok; split; cbn; rewrite ?Hid; try done; eauto.
Qed.

(** The same of a processor. *)
Definition keeps_home (i : Z) (f : Processor → res Processor) : Prop :=
  ∀ p p', proc_home i p → f p = Ok p' → proc_home i p'.

Lemma keeps_matcher i f : (∀ p p', f p = Ok p' → p'.(matcher) = p.(matcher)) → keeps_home i f.
Proof. intros Hf p p' Hp Hrun mt Hmt. apply Hp. by rewrite <- (Hf _ _ Hrun). Qed.

Lemma on_thread_home i id f :
  (∀ th, thread_home i th → thread_home i (f th)) → keeps_home i (on_matcher (on_thread id f)).
Proof.
  intros Hf p p' Hp Hrun. unfold on_matcher, the_matcher, on_thread in Hrun.
  destruct (matcher p) as [mt|] eqn:Hmt; [|done]. cbn [mbind res_mbind] in Hrun. inv_ok. intros ? [= <-]. cbn.
  apply wr_ok_inv in Hok1 as [_ ->]. apply rd_ok_inv in Hok0 as [_ Hth]. specialize (Hp mt Hmt).
  apply Forall_insert; [done|]. apply Hf. exact (Forall_lookup_1 _ _ _ _ Hp Hth).
Qed.

Lemma on_thread_mem_home i id f m p m' p' :
  thread_keeps i f → proc_home i p → on_matcher_mem (on_thread_mem id f) (m, p) = Ok (m', p') →
  proc_home i p' ∧ same_memory i m m'.
Proof.
  intros Hf Hp Hrun. unfold on_matcher_mem, the_matcher, on_thread_mem in Hrun.
  destruct (matcher p) as [mt|] eqn:Hmt; [|done]. cbn [mbind res_mbind] in Hrun.
  apply bind_ok_inv in Hrun as ([m1 mt1] & Hrun & Hend). injection Hend as <- <-.
  apply bind_ok_inv in Hrun as (th & Hth & Hrun). apply bind_ok_inv in Hrun as ([m2 th2] & Hf1 & Hrun). inv_ok.
  apply wr_ok_inv in Hok as [_ ->]. apply rd_ok_inv in Hth as [_ Hth]. specialize (Hp mt Hmt).
  destruct (Hf m th m1 th2) as [Hh Hm]; [exact (Forall_lookup_1 _ _ _ _ Hp Hth)|done|].
  split; [|done]. intros ? [= <-]. by apply Forall_insert.
Qed.

(** The same of the pipeline. *)
Lemma only_proc_home i pl pl' p' :
  at_home pl → only_proc i pl pl' → rd pl'.(procs) i = Ok p' → proc_home i p' → at_home pl'.
Proof.
  intros Hpl [] Hp' Hh j q Hq. destruct (decide (j = i)) as [->|]; [by rewrite Hp' in Hq; injection Hq as <-|].
  apply Hpl. apply rd_ok_inv in Hq as [Hj Hq]. unfold rd. rewrite (proj2 (Z.leb_le 0 j)) by lia.
  by rewrite <- op_other0, Hq by lia.
Qed.

Lemma on_proc_home i f pl pl' : keeps_home i f → at_home pl → on_proc i f pl = Ok pl' → at_home pl'.
Proof.
  intros Hf Hpl Hrun. apply on_proc_inv in Hrun as (Ho & p & p' & Hp & Hfp & Hp').
  eapply only_proc_home; [done..|]. eapply Hf; [|done]. by apply Hpl.
Qed.

Lemma on_proc_mem_home i id f m pl m' pl' :
  thread_keeps i f → at_home pl → on_proc_mem i (on_matcher_mem (on_thread_mem id f)) (m, pl) = Ok (m', pl') →
  at_home pl' ∧ same_memory i m m'.
Proof.
  intros Hf Hpl Hrun. apply on_proc_mem_inv in Hrun as (Ho & p & p' & Hp & Hfp & Hp').
  apply (on_thread_mem_home i) in Hfp as [Hh Hm]; [|done|by apply Hpl]. split; [|done]. by eapply only_proc_home.
Qed.

(** Follow the operations of a handler. *)
Ltac home_op :=
  first [ apply on_thread_home; intros ? []; by split
        | apply keeps_matcher; intros ? ? ?; inv_ok; done ].
Ltac home_chain :=
  repeat match goal with
  | Hx : on_proc ?i _ ?pl = Ok ?pl', Hg : at_home ?pl |- _ =>
      assert (at_home pl') by (eapply (on_proc_home i); [|exact Hg|exact Hx]; home_op); clear Hx
  | Hx : on_proc_mem ?i _ (?m, ?pl) = Ok (?m', ?pl'), Hg : at_home ?pl |- _ =>
      assert (at_home pl' ∧ same_memory i m m') as [? ?]
        by (eapply (on_proc_mem_home i); [|exact Hg|exact Hx];
            auto using clear_old_config_keeps, insert_sram_entry_keeps, insert_tcam_entry_keeps, set_mem_config_keeps); clear Hx
  end.

Lemma request_home `{Target} r i m p s m' p' :
  at_home p → request_proc r = Some i → handle r (mkServer (Some p) m) = Ok (s, mkServer (Some p') m') →
  at_home p' ∧ (if touches_memory r then same_memory i m m' else m' = m).
Proof.
  intros Hm Hi Hrun.
  destruct r; cbn [request_proc] in Hi; try discriminate Hi; injection Hi as ->; cbn [handle] in Hrun; cbn [touches_memory];
    autounfold with handlers in Hrun.
  all: first [ apply on_ppl_inv in Hrun as (_ & q & Hrun & [= -> ->])
             | apply on_ppl_mem_inv in Hrun as (_ & n & q & Hrun & [= -> ->]) ];
    autounfold with ppl_ops in Hrun;
    repeat match type of Hrun with
    | (_ ≫= _) = Ok _ =>
        let x := fresh "x" in let Hx := fresh "Hx" in apply bind_ok_inv in Hrun as (x & Hx & Hrun);
        try (is_var x; destruct x as [? ?]); cbn beta iota in Hrun
    | mret _ = Ok _ => injection Hrun as ? ?; subst
    end.
  all: home_chain; split; try done; by repeat (etransitivity; [eassumption|]).
Qed.

Lemma init_home `{Target} ready n : at_home (Pipeline_init ready n).
Proof.
  intros i p Hp mt Hmt. apply rd_ok_inv in Hp as [Hi Hp]. cbn in Hp. apply list_lookup_fmap_Some in Hp as (k & -> & Hk).
  apply lookup_seq in Hk as [-> Hk]. injection Hmt as <-. cbn. apply Forall_replicate.
  destruct (ptrs_home i) as [Hs Ht]. assert (E : Z.of_nat (Z.to_nat i) = i) by lia.
  split; cbn [mt_proc_id MatcherThread_init sram tcam]; rewrite ?E; [done|apply Hs|apply Ht].
Qed.

(** ** The properties of the server *)

(** One request. *)
Lemma request_step `{Target} r p m s st :
  handle r (mkServer (Some p) m) = Ok (s, st) → at_home p →
  s = OK ∧ ∃ p', st.(ppl) = Some p' ∧ at_home p' ∧ zlen p'.(procs) = zlen p.(procs) ∧ p'.(proc_num) = p.(proc_num) ∧
    (request_proc r ≠ None → p'.(meta_infos) = p.(meta_infos)) ∧
    (∀ j, request_proc r ≠ Some j → rd p'.(procs) j = rd p.(procs) j) ∧
    (∀ g, 0 ≤ g → (∀ i, touches_memory r = true → request_proc r = Some i → ¬ sram_of i g) →
       rd st.(mem).(srams) g = rd m.(srams) g) ∧
    (∀ g, 0 ≤ g → (∀ i, touches_memory r = true → request_proc r = Some i → ¬ tcam_of i g) →
       rd st.(mem).(tcam_tbls) g = rd m.(tcam_tbls) g ∧ rd st.(mem).(tcam_masks) g = rd m.(tcam_masks) g).
Proof.
  intros Hrun Hh. destruct (request_proc r) as [i|] eqn:Hreq.
  - destruct (request_only_proc r i m p s st Hreq Hrun) as (-> & p' & Hst & Ho).
    destruct st as [o m']; cbn in Hst; subst o. destruct (request_home r i m p OK m' p' Hh Hreq Hrun) as [Hh' Hm].
    split; [done|]. exists p'. destruct Ho. split_and!; try done.
    + intros j Hj. unfold rd. destruct (Z.leb_spec 0 j); [|done]. rewrite op_other0; [done|]. intros E. apply Hj. f_equal. lia.
    + intros g H0 Hg. cbn [mem]. destruct (touches_memory r); [|by rewrite Hm]. apply Hm; eauto.
    + intros g H0 Hg. cbn [mem]. destruct (touches_memory r); [|by rewrite Hm]. split; apply Hm; eauto.
  - destruct r; try discriminate Hreq. apply on_ppl_inv in Hrun as (-> & p' & [= <-] & ->). split; [done|]. by eexists.
Qed.

(** C13. Requests are isolated: when the server has answered requests, one after the other,
    every processor that none of them named is as it was, its parser, gateway, tables
    and actions; and every block of SRAM, of TCAM and of its masks is as it was, unless
    it is in the cluster of a processor whose table one of the requests configures,
    clears or inserts into. The pipeline still has its processors, and only a request
    to set the metadata changes these. The hypothesis is that the tables of a processor
    point to blocks of its cluster only; it holds when the switch starts, and the
    requests keep it. *)
Theorem requests_isolated `{Target} rs st out st' p :
  serve rs st = Ok (out, st') → st.(ppl) = Some p → at_home p →
  ∃ p', st'.(ppl) = Some p' ∧ at_home p' ∧ out = replicate (length rs) OK ∧
    zlen p'.(procs) = zlen p.(procs) ∧ p'.(proc_num) = p.(proc_num) ∧
    ((∀ r, r ∈ rs → request_proc r ≠ None) → p'.(meta_infos) = p.(meta_infos)) ∧
    (∀ j, (∀ r, r ∈ rs → request_proc r ≠ Some j) → rd p'.(procs) j = rd p.(procs) j) ∧
    (∀ g, 0 ≤ g →
      let free (own : Z → Z → Prop) := ∀ r i, r ∈ rs → touches_memory r = true → request_proc r = Some i → ¬ own i g in
      (free sram_of → rd st'.(mem).(srams) g = rd st.(mem).(srams) g) ∧
      (free tcam_of → rd st'.(mem).(tcam_tbls) g = rd st.(mem).(tcam_tbls) g ∧
                      rd st'.(mem).(tcam_masks) g = rd st.(mem).(tcam_masks) g)).
Proof.
  unfold serve. revert st p out st'. induction rs as [|r rs IH] using rev_ind; intros st p out st' Hrun Hp Hh.
  - injection Hrun as <- <-. exists p. split_and!; done.
  - rewrite for_each_app in Hrun. apply bind_ok_inv in Hrun as ([out1 st1] & H1 & Hrun).
    destruct (IH _ _ _ _ H1 Hp Hh) as (p1 & Hp1 & Hh1 & -> & Hl & Hn & Hmeta & Hpr & Hmem). clear IH H1.
    apply bind_ok_inv in Hrun as ([out2 st2] & H1 & Hrun). injection Hrun as <- <-.
    apply bind_ok_inv in H1 as ([s st3] & H1 & Hrun). injection Hrun as <- <-.
    destruct st1 as [q m1]. cbn in Hp1. subst q.
    destruct (request_step r p1 m1 _ _ H1 Hh1) as (-> & p2 & Hp2 & Hh2 & Hl2 & Hn2 & Hmeta2 & Hpr2 & Hs2 & Ht2).
    exists p2. setoid_rewrite elem_of_app. setoid_rewrite list_elem_of_singleton.
    split_and!; [done|done|by rewrite length_app, replicate_add|congruence|congruence| | |].
    + intros Hr. rewrite Hmeta2, Hmeta; eauto.
    + intros j Hj. rewrite Hpr2, Hpr; eauto.
    + intros g H0. destruct (Hmem g H0) as [Hms Hmt]. cbn [mem] in Hms, Hmt. cbn zeta. split; intros Hf.
      * rewrite Hs2, Hms; eauto.
      * destruct (Ht2 g H0) as [-> ->]; [eauto|]. apply Hmt. eauto.
Qed.

(** A request that is answered changes the processor it names and no other, neither
    the number of processors nor the metadata; setting the metadata changes no
    processor. *)
Lemma request_local `{Target} r m p s st :
  handle r (mkServer (Some p) m) = Ok (s, st) →
  s = OK ∧ ∃ p', st.(ppl) = Some p' ∧ p'.(proc_num) = p.(proc_num) ∧
    match request_proc r with
    | Some i => 0 ≤ i < zlen p.(procs) ∧ zlen p'.(procs) = zlen p.(procs) ∧ p'.(meta_infos) = p.(meta_infos) ∧
        ∀ j : nat, j ≠ Z.to_nat i → p'.(procs) !! j = p.(procs) !! j
    | None => p'.(procs) = p.(procs) ∧ st.(mem) = m
    end.
Proof.
  intros Hrun. destruct (request_proc r) as [i|] eqn:Hreq.
  - destruct (request_only_proc r i m p s st Hreq Hrun) as (-> & p' & Hst & []). split; [done|]. exists p'. eauto 10.
  - destruct r; try discriminate Hreq. apply on_ppl_inv in Hrun as (-> & p' & [= <-] & ->). split; [done|]. eauto.
Qed.

(** What the server does not serve: without a pipeline every request is cancelled
    and changes nothing; a request for a processor that is not there, as the
    controller makes them for the processors 12 to 15 of its file, is not refused but
    goes outside the array. *)
Lemma request_not_served `{Target} r m p i :
  handle r (mkServer None m) = Ok (CANCELLED, mkServer None m) ∧
  (request_proc r = Some i → ¬ 0 ≤ i < zlen p.(procs) → ∃ f, handle r (mkServer (Some p) m) = Fault f).
Proof.
  split; [by destruct r|]. intros Hreq Hi. destruct (handle r (mkServer (Some p) m)) as [[s st]|f] eqn:E; [|eauto].
  destruct (request_only_proc r i m p s st Hreq E) as (_ & p' & _ & []). done.
Qed.

(** ** The threads of a pipeline *)
Definition get_thread (pl : Pipeline) (proc mid : Z) : res MatcherThread :=
  p ← rd pl.(procs) proc; mt ← the_matcher p; rd mt.(mts) mid.

Definition put_thread (proc mid : Z) (th : MatcherThread) (pl : Pipeline) : Pipeline :=
  mkPipeline (alter (λ p, match p.(matcher) with
      | Some mt => with_matcher (mkMatcher (<[Z.to_nat mid := th]> mt.(mts)) mt.(matcher_proc_id)) p
      | None => p end) (Z.to_nat proc) pl.(procs)) pl.(proc_num) pl.(meta_infos).

Lemma get_thread_inv pl proc mid th :
  get_thread pl proc mid = Ok th →
  ∃ p mt, rd pl.(procs) proc = Ok p ∧ p.(matcher) = Some mt ∧ rd mt.(mts) mid = Ok th.
Proof.
  unfold get_thread, the_matcher. intros Hrun. apply bind_ok_inv in Hrun as (p & Hp & Hrun).
  destruct (matcher p) as [mt|] eqn:Hmt; [|done]. cbn [mbind res_mbind] in Hrun. eauto 10.
Qed.

Lemma put_insert proc mid th pl p mt :
  rd pl.(procs) proc = Ok p → p.(matcher) = Some mt →
  (put_thread proc mid th pl).(procs) =
    <[Z.to_nat proc := with_matcher (mkMatcher (<[Z.to_nat mid := th]> mt.(mts)) mt.(matcher_proc_id)) p]> pl.(procs).
Proof.
  intros Hp Hmt. apply rd_ok_inv in Hp as [_ Hp]. cbn. rewrite list_insert_alter.
  apply list_eq. intros i. destruct (decide (i = Z.to_nat proc)) as [->|].
  - rewrite !list_lookup_alter_eq, Hp. cbn. by rewrite Hmt.
  - by rewrite !list_lookup_alter_ne by done.
Qed.

Lemma get_put pl proc mid th th' :
  get_thread pl proc mid = Ok th → get_thread (put_thread proc mid th' pl) proc mid = Ok th'.
Proof.
  intros (p & mt & Hp & Hmt & Hth)%get_thread_inv. unfold get_thread. rewrite (put_insert _ _ _ _ p mt) by done.
  apply rd_ok_inv in Hp as [Hi _]. rewrite rd_insert_eq by done. cbn [mbind res_mbind]. unfold the_matcher.
  cbn [matcher with_matcher mbind res_mbind mts]. apply rd_ok_inv in Hth as [Hj _]. by apply rd_insert_eq.
Qed.

Lemma put_put pl proc mid th th' :
  put_thread proc mid th' (put_thread proc mid th pl) = put_thread proc mid th' pl.
Proof.
  unfold put_thread. cbn [procs proc_num meta_infos]. f_equal. rewrite list_alter_alter_eq.
  apply list_alter_ext; [|done]. intros p _. cbn. destruct (matcher p) as [mt|] eqn:Hm; cbn; [|by rewrite Hm].
  by rewrite list_insert_insert_eq.
Qed.

(** Operations on one thread. *)
Lemma thread_op pl proc mid f th :
  get_thread pl proc mid = Ok th →
  on_proc proc (on_matcher (on_thread mid f)) pl = Ok (put_thread proc mid (f th) pl).
Proof.
  intros (p & mt & Hp & Hmt & Hth)%get_thread_inv. unfold on_proc, on_matcher, the_matcher, on_thread.
  rewrite Hp. cbn [mbind res_mbind]. rewrite Hmt. cbn [mbind res_mbind]. rewrite Hth. cbn [mbind res_mbind].
  apply rd_ok_inv in Hth as [Hj _]. rewrite (wr_ok (mts mt)) by done. cbn [mbind res_mbind].
  pose proof (put_insert proc mid (f th) pl p mt Hp Hmt) as Hput.
  apply rd_ok_inv in Hp as [Hi _]. unfold mret, res_mret. cbn [mbind res_mbind]. rewrite wr_ok by done.
  cbn [mbind res_mbind]. rewrite <- Hput. done.
Qed.

Lemma thread_op_mem m pl proc mid f th m' th' :
  get_thread pl proc mid = Ok th → f (m, th) = Ok (m', th') →
  on_proc_mem proc (on_matcher_mem (on_thread_mem mid f)) (m, pl) = Ok (m', put_thread proc mid th' pl).
Proof.
  intros (p & mt & Hp & Hmt & Hth)%get_thread_inv Hf. unfold on_proc_mem, on_matcher_mem, the_matcher, on_thread_mem.
  rewrite Hp. cbn [mbind res_mbind]. rewrite Hmt. cbn [mbind res_mbind]. rewrite Hth. cbn [mbind res_mbind].
  rewrite Hf. cbn [mbind res_mbind].
  apply rd_ok_inv in Hth as [Hj _]. rewrite (wr_ok (mts mt)) by done. cbn [mbind res_mbind].
  pose proof (put_insert proc mid th' pl p mt Hp Hmt) as Hput.
  apply rd_ok_inv in Hp as [Hi _]. unfold mret, res_mret. cbn [mbind res_mbind]. rewrite wr_ok by done.
  cbn [mbind res_mbind]. rewrite <- Hput. done.
Qed.

(** ** Configuring a table *)

(** The thread a first [setMemConfig] leaves, given the thread it sets up. *)
Lemma setMemConfig_run proc mid kw vw kc vc t d miss m pl th m1 th1 th2 :
  get_thread pl proc mid = Ok th → clear_old_config (m, th) = Ok (m1, th1) →
  thread_set_mem_config kw vw d kc vc (init_match_type (get_match_type t) th1) = Ok th2 →
  setMemConfig proc mid kw vw kc vc t d miss (mkServer (Some pl) m) =
  Ok (OK, mkServer (Some (put_thread proc mid (set_miss_act_id miss th2) pl)) m1).
Proof.
  intros Hth Hclear Hset. unfold setMemConfig, on_ppl_mem. cbn [ppl mem].
  unfold ppl_clear_old_config, ppl_init_match_type, ppl_set_mem_config, ppl_set_miss_act_id.
  rewrite (thread_op_mem _ _ _ _ _ th m1 th1) by done. cbn [mbind res_mbind].
  pose proof (get_put pl proc mid th th1 Hth) as Hth1. rewrite (thread_op _ _ _ _ th1) by done. cbn [mbind res_mbind].
  pose proof (get_put _ proc mid _ (init_match_type (get_match_type t) th1) Hth1) as Hth2.
  rewrite (thread_op_mem _ _ _ _ _ (init_match_type (get_match_type t) th1) m1 th2); [|done|cbn beta iota; by rewrite Hset].
  cbn [mbind res_mbind]. pose proof (get_put _ proc mid _ th2 Hth2) as Hth3.
  rewrite (thread_op _ _ _ _ th2) by done. cbn [mbind res_mbind]. by rewrite !put_put.
Qed.

(** A thread that was never configured. *)
Record unconfigured (th : MatcherThread) : Prop := {
  uc_type : th.(match_type) = EXACT;
  uc_kw : th.(key_width) = 0; uc_vw : th.(sram_slice_value_width) = 0;
  uc_kc : zlen th.(key_config) = SRAM_NUM_PER_CLUSTER; uc_vc : zlen th.(sram_value_config) = SRAM_NUM_PER_CLUSTER;
  uc_proc : 0 ≤ th.(mt_proc_id) < PROC_NUM
}.

Lemma clear_unconfigured m th :
  unconfigured th →
  ∃ th', clear_old_config (m, th) = Ok (m, th') ∧ unconfigured th' ∧ th'.(action_proc_map) = ∅ ∧
    th'.(fdInfos) = [] ∧ th'.(mt_proc_id) = th.(mt_proc_id).
Proof.
  intros []. unfold clear_old_config. cbn [match_type with_misc]. rewrite decide_True by done.
  cbn [sram key_config key_width depth sram_slice_value_width sram_value_config with_misc].
  rewrite uc_kw0, uc_vw0, !Z.mul_0_l. unfold clear_blocks. rewrite !for_lt_empty by done. cbn [mbind res_mbind].
  eexists. split; [by destruct m|]. split; [|done].
  split; cbn; try done; unfold memset0, zlen in *; rewrite length_app, length_replicate, length_drop; lia.
Qed.

Lemma copy_config_ok count src dst :
  0 ≤ count → count ≤ zlen src → count ≤ zlen dst →
  ∃ d, copy_config any_index count src dst = Ok d ∧ zlen d = zlen dst ∧ ∀ i, 0 ≤ i < count → at_ d i = at_ src i.
Proof.
  intros Hc Hs Hd. unfold copy_config.
  edestruct (for_lt_inv (λ j d, zlen d = zlen dst ∧ ∀ i, 0 ≤ i < j → at_ d i = at_ src i) 0 count)
    as (d & Hrun & Hl & Hat); [lia| | |rewrite Hrun; by exists d].
  - split; [done|]. lia.
  - intros j t Hj [Hl Hat]. cbn. rewrite rd_at by lia. cbn [mbind res_mbind]. rewrite wr_ok by lia.
    eexists; split; [done|]. rewrite zlen_insert. split; [done|]. intros i Hi. rewrite at_insert by lia.
    destruct (Z.eqb_spec j i) as [->|]; [done|]. apply Hat. lia.
Qed.

(** A configuration of an exact table as the controller has to send it. *)
Record config_ok (kw vw d : Z) (kc vc : list Z) : Prop := {
  cf_depth : 1 ≤ d;
  cf_kw : 1 ≤ kw ∧ kw * d ≤ SRAM_NUM_PER_CLUSTER ∧ kw * d ≤ zlen kc;
  cf_vw : 1 ≤ vw ∧ vw * d ≤ SRAM_NUM_PER_CLUSTER ∧ vw * d ≤ zlen vc;
  cf_kr : ∀ i, 0 ≤ i < kw * d → 0 ≤ at_ kc i < SRAM_NUM_PER_CLUSTER;
  cf_vr : ∀ i, 0 ≤ i < vw * d → 0 ≤ at_ vc i < SRAM_NUM_PER_CLUSTER;
  cf_kinj : inj_below (at_ kc) (kw * d);
  cf_vinj : inj_below (at_ vc) (vw * d);
  cf_disj : ∀ i j, 0 ≤ i < kw * d → 0 ≤ j < vw * d → at_ kc i ≠ at_ vc j
}.

(** What such a configuration leaves in the thread. *)
Record installed (kw vw d : Z) (kc vc : list Z) (miss : Z) (m : Mem) (th : MatcherThread) : Prop := {
  is_wf : exact_wf m th;
  is_table : th.(no_table) = false;
  is_miss : th.(miss_act_id) = miss;
  is_fields : th.(fdInfos) = [];
  is_map : th.(action_proc_map) = ∅;
  is_depth : th.(depth) = d;
  is_kw : th.(key_width) = kw;
  is_vw : th.(sram_slice_value_width) = vw;
  is_kc : ∀ i, 0 ≤ i < kw * d → at_ th.(key_config) i = at_ kc i;
  is_vc : ∀ i, 0 ≤ i < vw * d → at_ th.(sram_value_config) i = at_ vc i
}.

Lemma setMemConfig_installs proc mid kw vw kc vc d miss m pl th :
  get_thread pl proc mid = Ok th → unconfigured th → zlen m.(srams) = SRAM_NUM_ALL → config_ok kw vw d kc vc →
  ∃ th', setMemConfig proc mid kw vw kc vc 0 d miss (mkServer (Some pl) m) =
      Ok (OK, mkServer (Some (put_thread proc mid th' pl)) m) ∧ installed kw vw d kc vc miss m th'.
Proof.
  intros Hth Hun Hm []. destruct (clear_unconfigured m th Hun) as (th1 & Hc & [] & Hap & Hfd & Hpid).
  destruct (copy_config_ok (kw * d) kc (key_config th1)) as (k1 & Hk1 & Hk1l & Hk1at); [nia|lia|lia|].
  destruct (copy_config_ok (vw * d) vc (sram_value_config th1)) as (v1 & Hv1 & Hv1l & Hv1at); [nia|lia|lia|].
  eexists. split.
  { apply (setMemConfig_run proc mid kw vw kc vc 0 d miss m pl th m th1
      (with_tables (sram_ptrs true th1.(mt_proc_id)) th1.(tcam) k1 v1 kw vw d false (init_match_type EXACT th1)));
      [done|done|].
    unfold thread_set_mem_config. cbn [init_match_type with_misc match_type get_match_type Z.eqb].
    rewrite decide_True by done. cbn [key_config sram_value_config with_misc].
    change (key_config (init_match_type EXACT th1)) with (key_config th1).
    change (sram_value_config (init_match_type EXACT th1)) with (sram_value_config th1).
    rewrite Hk1. cbn [mbind res_mbind]. by rewrite Hv1. }
  split; try done. split; cbn; try done; try lia.
  - split; cbn; [congruence|lia|intros i Hi; rewrite Hk1at by done; auto|].
    intros i j Hi Hj. rewrite !Hk1at by done. auto.
  - split; cbn; [congruence|lia|intros i Hi; rewrite Hv1at by done; auto|].
    intros i j Hi Hj. rewrite !Hv1at by done. auto.
  - intros i j Hi Hj. rewrite Hk1at, Hv1at by done. auto.
Qed.

(** Configuring an exact table that was not configured before sets it up: the
    thread is a sound exact table on the blocks named, with the miss action given, no
    key fields and no actions mapped; the other threads, the rest of the pipeline and
    the memory stay as they were. *)
Lemma mem_config_installs proc mid kw vw kc vc d miss m pl th :
  get_thread pl proc mid = Ok th → unconfigured th → zlen m.(srams) = SRAM_NUM_ALL → config_ok kw vw d kc vc →
  ∃ th', setMemConfig proc mid kw vw kc vc 0 d miss (mkServer (Some pl) m) =
      Ok (OK, mkServer (Some (put_thread proc mid th' pl)) m) ∧
    get_thread (put_thread proc mid th' pl) proc mid = Ok th' ∧ exact_wf m th' ∧
    th'.(no_table) = false ∧ th'.(miss_act_id) = miss ∧
    th'.(fdInfos) = [] ∧ th'.(action_proc_map) = ∅ ∧ th'.(depth) = d ∧
    (∀ i, 0 ≤ i < kw * d → at_ th'.(key_config) i = at_ kc i) ∧
    (∀ i, 0 ≤ i < vw * d → at_ th'.(sram_value_config) i = at_ vc i).
Proof.
  intros Hth Hun Hm Hcf. destruct (setMemConfig_installs proc mid kw vw kc vc d miss m pl th) as (th' & Hrun & Hin);
    [done..|]. exists th'. split; [done|]. split; [by eapply get_put|]. by destruct Hin.
Qed.

(** The controller reads the [no_table] flag of its file and does not send it, and
    configuring a table clears the flag: a table that the file says is not there, of
    depth 0, is looked up all the same, and every packet that reaches it divides by
    zero. *)
Lemma no_table_lost `{Target} proc mid t miss m pl th phv :
  get_thread pl proc mid = Ok th → unconfigured th →
  ∃ pl' th', setMemConfig proc mid 0 0 [] [] t 0 miss (mkServer (Some pl) m) = Ok (OK, mkServer (Some pl') m) ∧
    get_thread pl' proc mid = Ok th' ∧ th'.(no_table) = false ∧
    generate_match_key_and_match m th' phv = Fault DivByZero.
Proof.
  intros Hth Hun. destruct (clear_unconfigured m th Hun) as (th1 & Hc & [] & Hap & Hfd & Hpid).
  assert (Hset : ∃ th2, thread_set_mem_config 0 0 0 [] [] (init_match_type (get_match_type t) th1) = Ok th2 ∧
    th2.(no_table) = false ∧ th2.(fdInfos) = [] ∧ th2.(depth) = 0 ∧ th2.(key_width) = 0 ∧
    th2.(sram_slice_value_width) = 0).
  { unfold thread_set_mem_config. case_decide; cbn; eauto 10. }
  destruct Hset as (th2 & Hset & Hnt & Hf2 & Hd2 & Hk2 & Hv2).
  pose proof (setMemConfig_run proc mid 0 0 [] [] t 0 miss m pl th m th1 th2 Hth Hc Hset) as Hrun.
  pose proof (get_put pl proc mid th (set_miss_act_id miss th2) Hth) as Hget.
  eexists _, (set_miss_act_id miss th2). split; [done|]. split; [done|]. split; [done|].
  unfold generate_match_key_and_match. cbn [fdInfos set_miss_act_id with_misc key_width sram_slice_value_width match_type].
  rewrite Hf2, Hk2, Hv2. cbn [for_each mbind res_mbind mret res_mret].
  unfold get_match_res. cbn [depth set_miss_act_id with_misc]. rewrite Hd2.
  change (match_type (set_miss_act_id miss th2)) with (match_type th2). by destruct (match_type th2).
Qed.

(** ** Entries *)

(** Copying a string into a fresh array of its length. *)
Lemma get_uint_from_bytes_all bytes_ a :
  zlen a = zlen bytes_ → get_uint_from_bytes bytes_ a = Ok bytes_.
Proof.
  intros Hl. unfold get_uint_from_bytes.
  edestruct (for_lt_inv (λ i a, zlen a = zlen bytes_ ∧ ∀ j, 0 ≤ j < i → at_ a j = at_ bytes_ j) 0 (zlen bytes_))
    as (d & Hrun & Hd & Hat); [apply zlen_nonneg| | |rewrite Hrun; f_equal; by apply list_eq_at; [|rewrite Hd]].
  - split; [done|]. lia.
  - intros i d Hi [Hd Hat]. rewrite rd_at by lia. cbn [mbind res_mbind]. rewrite wr_ok by lia.
    eexists; split; [done|]. rewrite zlen_insert. split; [done|]. intros j Hj. rewrite at_insert by lia.
    destruct (Z.eqb_spec i j) as [->|]; [done|]. apply Hat. lia.
Qed.

(** A packet whose field [f] holds [key] hits the table and gets [value]. *)
Definition hits `{Target} (m : Mem) (th : MatcherThread) (f : FieldInfo) (key value : list Z) : Prop :=
  ∀ phv, phv_wf phv →
    let b := (at_ phv.(parsed_headers) f.(hdr_id)).(hdr_offset) + f.(internal_offset) in
    b + f.(fd_len) ≤ 8 * (FRONT_HEADER_LEN + META_LEN) →
    field_val phv.(packet) b f.(fd_len) * 2 ^ (8 * ceil8 f.(fd_len) - f.(fd_len)) = be_val key →
    ∃ ov, (∀ k, 0 ≤ k < zlen value → at_ ov k = at_ value k) ∧
      generate_match_key_and_match m th phv = Ok (set_next_action_id (at_ value 1 + 256 * at_ value 0)
        (set_match_value_len (zlen ov) (set_match_value (Some ov) (set_hit true phv)))).

(** A table keyed by one field of the packet. *)
Record keyed_by (m : Mem) (th : MatcherThread) (f : FieldInfo) : Prop := {
  kb_wf : exact_wf m th;
  kb_fields : th.(fdInfos) = [f];
  kb_type : f.(fd_type) ≠ VALID;
  kb_hdr : 0 ≤ f.(hdr_id) < 32;
  kb_off : 0 ≤ f.(internal_offset);
  kb_len : 1 ≤ f.(fd_len) < 65536
}.

Lemma inserted_hits `{Target} m th f key value :
  keyed_by m th f → bytes key → zlen key = ceil8 f.(fd_len) → 2 ≤ zlen value →
  fits (zlen key) th.(key_width) → fits (zlen value) th.(sram_slice_value_width) →
  ∃ m', insert_sram_entry key value (zlen key) (zlen value) (m, th) = Ok (m', th) ∧
    keyed_by m' th f ∧ hits m' th f key value.
Proof.
  intros [Hwf Hfds Hty Hid Hio Hfl] Hkb Hkl Hvl Hkf Hvf.
  destruct (insert_sram_entry_ok m th key value Hwf Hkf Hvf) as (m' & Hins & Hwf' & Hi).
  exists m'. split; [done|]. split; [done|]. intros phv Hp b Hend Hfield.
  destruct (match_one_field m' th f phv) as (key' & ok & ov & hit & Hb' & Hl' & Hv' & Hlk & Hrun); try done.
  { rewrite <- Hkl. apply Hkf. }
  assert (key' = key) as ->; [apply be_val_inj; try done; [lia|by rewrite Hv', <- Hfield]|].
  assert (Hkb' : key_bytes (fd_len f) = ceil8 (fd_len f)) by (unfold key_bytes, ceil8, b2z; zcmp; dlia).
  destruct (lookup_sram_spec m' th key (fd_len f)) as (ok' & ov' & b' & Hl & L1 & L2 & L3 & L4 & L5);
    [done|lia|apply Hkf|]. rewrite Hlk in Hl. injection Hl as <- <- Heq.
  assert (b' = true) as ->.
  { apply L5. intros k Hk. destruct Hkf. rewrite (ins_key _ _ _ _ _ Hi) by lia. by rewrite (proj2 (Z.ltb_lt _ _)) by lia. }
  assert (Hat : ∀ k, 0 ≤ k < zlen value → at_ ov k = at_ value k).
  { intros k Hk. destruct Hvf. rewrite L4 by lia. rewrite (ins_value _ _ _ _ _ Hi) by lia.
    by rewrite (proj2 (Z.ltb_lt _ _)) by lia. }
  exists ov. split; [done|]. rewrite Hrun. destruct hit; [|done]. by rewrite !Hat by lia.
Qed.

(** The same through the operation of the pipeline. *)
Lemma ppl_insert_hits `{Target} proc mid key value m pl th f :
  get_thread pl proc mid = Ok th → keyed_by m th f → bytes key → zlen key = ceil8 f.(fd_len) → 2 ≤ zlen value →
  fits (zlen key) th.(key_width) → fits (zlen value) th.(sram_slice_value_width) →
  ∃ pl' m', ppl_insert_sram_entry proc mid key value (zlen key) (zlen value) (m, pl) = Ok (m', pl') ∧
    get_thread pl' proc mid = Ok th ∧ keyed_by m' th f ∧ hits m' th f key value.
Proof.
  intros Hth Hk Hkb Hkl Hvl Hkf Hvf. destruct (inserted_hits m th f key value) as (m' & Hins & Hk' & Hh); [done..|].
  exists (put_thread proc mid th pl), m'. split; [by apply (thread_op_mem _ _ _ _ _ th m' th)|].
  split; [by eapply get_put|done].
Qed.

(** C2. An entry the controller inserts into a configured exact table is served: every
    packet whose key field holds the key hits it, its value is kept for the action,
    and its first 16 bits select the action. *)
Theorem entry_served `{Target} proc mid key value m pl th f :
  get_thread pl proc mid = Ok th → keyed_by m th f → bytes key → zlen key = ceil8 f.(fd_len) → 2 ≤ zlen value →
  fits (zlen key) th.(key_width) → fits (zlen value) th.(sram_slice_value_width) →
  ∃ pl' m', insertSramEntry proc mid key value (zlen key) (zlen value) (mkServer (Some pl) m) =
      Ok (OK, mkServer (Some pl') m') ∧ get_thread pl' proc mid = Ok th ∧ keyed_by m' th f ∧
    ∀ phv, phv_wf phv →
      let b := (at_ phv.(parsed_headers) f.(hdr_id)).(hdr_offset) + f.(internal_offset) in
      b + f.(fd_len) ≤ 8 * (FRONT_HEADER_LEN + META_LEN) →
      field_val phv.(packet) b f.(fd_len) * 2 ^ (8 * ceil8 f.(fd_len) - f.(fd_len)) = be_val key →
      ∃ ov, (∀ k, 0 ≤ k < zlen value → at_ ov k = at_ value k) ∧
        generate_match_key_and_match m' th phv = Ok (set_next_action_id (at_ value 1 + 256 * at_ value 0)
          (set_match_value_len (zlen ov) (set_match_value (Some ov) (set_hit true phv)))).
Proof.
  intros Hth Hk Hkb Hkl Hvl Hkf Hvf.
  destruct (ppl_insert_hits proc mid key value m pl th f) as (pl' & m' & Hins & Hrest); [done..|].
  exists pl', m'. split; [|exact Hrest]. unfold insertSramEntry, on_ppl_mem. cbn [ppl mem].
  destruct (fresh_ok (zlen key)) as (k0 & -> & Hk0 & _); [apply zlen_nonneg|]. cbn [mbind res_mbind].
  destruct (fresh_ok (zlen value)) as (v0 & -> & Hv0 & _); [apply zlen_nonneg|]. cbn [mbind res_mbind].
  rewrite (get_uint_from_bytes_all key k0), (get_uint_from_bytes_all value v0) by done.
  cbn [mbind res_mbind]. by rewrite Hins.
Qed.

(** ** Metadata and constants *)

(** The server puts the length the controller sends in the place of the offset and
    the offset in that of the length. *)
Lemma metadata_swapped infos pl m :
  setMetadata infos (mkServer (Some pl) m) =
  Ok (OK, mkServer (Some (mkPipeline pl.(procs) pl.(proc_num)
    ((λ h, {| hi_id := u8 h.(h_headerid); hdr_offset := u16 h.(h_headerlength); hdr_len := u16 h.(h_headeroffset) |})
       <$> infos))) m).
Proof. done. Qed.

(** The loop of [set_exp_param], up to the bytes that fit. *)
Lemma param_loop (s v w : list Z) (n : nat) :
  Z.of_nat n ≤ zlen s → Z.of_nat n ≤ zlen v → Z.of_nat n ≤ zlen w →
  ∃ v' w', for_up n 0 (λ i '(value_i, v),
      x ← str_at s i; value_i ← wr value_i i x; y ← rd value_i i; v ← wr v i y; mret (value_i, v)) (w, v) = Ok (w', v') ∧
    zlen v' = zlen v ∧ zlen w' = zlen w ∧ ∀ j, 0 ≤ j < Z.of_nat n → at_ v' j = at_ s j.
Proof.
  intros Hs Hv Hw.
  edestruct (for_up_inv (λ i '((w', v') : list Z * list Z), zlen v' = zlen v ∧ zlen w' = zlen w ∧
      ∀ j, 0 ≤ j < i → at_ v' j = at_ s j) n 0) as ([w' v'] & Hrun & HI); [| |exists v', w'; split; [exact Hrun|exact HI]].
  - split; [done|]. split; [done|]. lia.
  - intros i [w' v'] Hi (Hlv & Hlw & Hat). cbn beta iota. unfold str_at. rewrite (proj2 (Z.eqb_neq i (zlen s))) by lia.
    rewrite (rd_at s) by lia. cbn [mbind res_mbind]. rewrite wr_ok by lia. cbn [mbind res_mbind].
    rewrite rd_insert_eq by lia. cbn [mbind res_mbind]. rewrite wr_ok by lia. cbn [mbind res_mbind mret res_mret].
    eexists; split; [done|]. cbn beta iota. rewrite !zlen_insert. split; [done|]. split; [done|]. intros j Hj.
    rewrite at_insert by lia. destruct (Z.eqb_spec i j) as [->|]; [done|]. apply Hat. lia.
Qed.

(** A constant of whole bytes. *)
Lemma set_exp_param_whole `{Target} len s :
  0 ≤ len → len mod 8 = 0 → zlen s = ceil8 len →
  set_exp_param (mkGwParam 0 (GwData (mkDataMsg len s))) = Ok (GCONSTANT (mkData len s)).
Proof.
  intros Hlen H8 Hs. unfold set_exp_param. cbn [g_paramtype g_value gw_data d_len d_val].
  change (0 =? 2) with false. change (0 =? 0) with true. cbn iota. rewrite Z.quot_div_nonneg by lia.
  destruct (fresh_ok (len / 8)) as (w & -> & Hw & _); [dlia|]. cbn [mbind res_mbind].
  unfold for_lt. rewrite Z.sub_0_r. assert (Hc : ceil8 len = len / 8) by (unfold ceil8; dlia).
  destruct (param_loop s w w (Z.to_nat (len / 8))) as (v' & w' & Hrun & Hv' & Hw' & Hat); [rewrite Hs; dlia|dlia|dlia|].
  rewrite Hc, Hrun. cbn [mbind res_mbind mret res_mret].
  do 3 f_equal. apply list_eq_at; [lia|]. intros i Hi. apply Hat. dlia.
Qed.

(** A constant operand of a comparison reaches the gateway with its bytes when it
    has whole bytes; otherwise its buffers are one byte short, and the last byte is
    stored past their end. *)
Lemma gateway_constant `{Target} len s :
  1 ≤ len → bytes s → zlen s = ceil8 len →
  set_exp_param (mkGwParam 0 (GwData (mkDataMsg len s))) =
    if len mod 8 =? 0 then Ok (GCONSTANT (mkData len s)) else Fault OutOfBounds.
Proof.
  intros Hlen Hb Hs. destruct (Z.eqb_spec (len mod 8) 0) as [H8|H8]; [by apply set_exp_param_whole; [lia|..]|].
  unfold set_exp_param. cbn [g_paramtype g_value gw_data d_len d_val].
  change (0 =? 2) with false. change (0 =? 0) with true. cbn iota. rewrite Z.quot_div_nonneg by lia.
  destruct (fresh_ok (len / 8)) as (w & -> & Hw & _); [dlia|]. cbn [mbind res_mbind].
  unfold for_lt. rewrite Z.sub_0_r.
  destruct (param_loop s w w (Z.to_nat (len / 8))) as (v' & w' & Hrun & Hv' & Hw' & Hat);
    [rewrite Hs; unfold ceil8; dlia|dlia|dlia|].
  assert (Z.to_nat (ceil8 len) = (Z.to_nat (len / 8) + 1)%nat) as -> by (unfold ceil8; dlia).
  rewrite for_up_app, Hrun. cbn [mbind res_mbind for_up]. unfold str_at.
  rewrite (proj2 (Z.eqb_neq _ (zlen s))) by (rewrite Hs; unfold ceil8; dlia).
  rewrite (rd_at s) by (rewrite Hs; unfold ceil8; dlia). cbn [mbind res_mbind].
  rewrite wr_oob by lia. done.
Qed.

(** ** Examples *)
Definition demo_server : ServerState := mkServer (Some (Pipeline_init (H := x86) true PROC_NUM)) init_mem.

Definition demo_request : Request := InitParserLevel 3 2.

Lemma requests_isolated_witness :
  let rs := [InitParserLevel 3 2; SetMemConfig 0 7 1 1 [3] [5] 0 1 9; InsertSramEntry 0 7 [0; 0] [0; 5; 77] 2 3] in
  ∃ st' p', serve (H := x86) rs demo_server = Ok ([OK; OK; OK], st') ∧ st'.(ppl) = Some p' ∧
    rd p'.(procs) 5 = rd (Pipeline_init (H := x86) true PROC_NUM).(procs) 5 ∧ rd st'.(mem).(srams) 33 = Ok ∅.
Proof.
  intros rs. destruct (serve (H := x86) rs demo_server) as [[out st']|f] eqn:E; [|vm_compute in E; discriminate E].
  destruct (requests_isolated (H := x86) rs demo_server out st' _ E eq_refl (init_home (H := x86) true PROC_NUM))
    as (p' & Hp' & _ & -> & _ & _ & _ & Hj & Hmem).
  exists st', p'. split; [reflexivity|]. split; [exact Hp'|]. split.
  - apply Hj. intros r Hr. unfold rs in Hr. rewrite !elem_of_cons, elem_of_nil in Hr. destruct Hr as [->|[->|[->|[]]]]; discriminate.
  - destruct (Hmem 33) as [Hs _]; [lia|]. rewrite Hs; [reflexivity|].
    intros r i Hr. unfold rs in Hr. rewrite !elem_of_cons, elem_of_nil in Hr.
    destruct Hr as [->|[->|[->|[]]]]; try discriminate; intros _ [= <-] [_ Hlt]; vm_compute in Hlt; discriminate Hlt.
Defined.

Lemma request_local_witness :
  ∃ st p', handle (H := x86) demo_request demo_server = Ok (OK, st) ∧ st.(ppl) = Some p' ∧
    p'.(procs) !! 5%nat = (Pipeline_init (H := x86) true PROC_NUM).(procs) !! 5%nat.
Proof.
  destruct (handle (H := x86) demo_request demo_server) as [[s st]|] eqn:E; [|discriminate E].
  destruct (request_local (H := x86) demo_request init_mem (Pipeline_init (H := x86) true PROC_NUM) s st E)
    as (-> & p' & Hst & _ & _ & _ & _ & Hj).
  exists st, p'. split; [reflexivity|]. split; [exact Hst|]. apply Hj. cbn. lia.
Defined.

Lemma request_not_served_witness :
  ∃ f, handle (H := x86) (ClearParser 12) demo_server = Fault f.
Proof.
  apply (proj2 (request_not_served (H := x86) (ClearParser 12) init_mem (Pipeline_init (H := x86) true PROC_NUM) 12)).
  - reflexivity.
  - vm_compute. intros [_ Hlt]. discriminate Hlt.
Defined.

Definition demo_unconf : MatcherThread := MatcherThread_init (H := x86) true 4.

Lemma demo_unconfigured : unconfigured demo_unconf.
Proof. split; try done; cbn; lia. Qed.

Lemma mem_config_installs_witness :
  ∃ pl' th', handle (H := x86) (SetMemConfig 4 7 1 2 [3] [0; 5] 0 1 9) demo_server = Ok (OK, mkServer (Some pl') init_mem) ∧
    get_thread pl' 4 7 = Ok th' ∧ exact_wf init_mem th' ∧ th'.(no_table) = false ∧ at_ th'.(sram_value_config) 1 = 5.
Proof.
  destruct (mem_config_installs 4 7 1 2 [3] [0; 5] 1 9 init_mem (Pipeline_init (H := x86) true PROC_NUM) demo_unconf)
    as (th' & Hrun & Hget & Hwf & Hnt & _ & _ & _ & _ & _ & Hv).
  - reflexivity.
  - exact demo_unconfigured.
  - reflexivity.
  - assert (H01 : ∀ i, 0 ≤ i < 2 * 1 → i = 0 ∨ i = 1) by lia.
    assert (H0 : ∀ i, 0 ≤ i < 1 * 1 → i = 0) by lia.
    split; [lia|vm_compute; repeat split; discriminate|vm_compute; repeat split; discriminate| | | | |].
    + intros i Hi. rewrite (H0 i Hi). vm_compute. split; [discriminate|reflexivity].
    + intros i Hi. destruct (H01 i Hi) as [-> | ->]; vm_compute; (split; [discriminate|reflexivity]).
    + intros i j Hi Hj _. rewrite (H0 i Hi), (H0 j Hj). reflexivity.
    + intros i j Hi Hj. destruct (H01 i Hi) as [-> | ->], (H01 j Hj) as [-> | ->]; vm_compute; congruence.
    + intros i j Hi Hj. rewrite (H0 i Hi). destruct (H01 j Hj) as [-> | ->]; vm_compute; discriminate.
  - eexists _, th'. split; [exact Hrun|]. split; [exact Hget|]. split; [exact Hwf|]. split; [exact Hnt|].
    rewrite Hv; [reflexivity|lia].
Defined.

Lemma no_table_lost_witness :
  ∃ pl' th', handle (H := x86) (SetMemConfig 4 7 0 0 [] [] 0 0 9) demo_server = Ok (OK, mkServer (Some pl') init_mem) ∧
    get_thread pl' 4 7 = Ok th' ∧
    generate_match_key_and_match (H := x86) init_mem th' (PHV_init (H := x86)) = Fault DivByZero.
Proof.
  destruct (no_table_lost (H := x86) 4 7 0 9 init_mem (Pipeline_init (H := x86) true PROC_NUM) demo_unconf
    (PHV_init (H := x86))) as (pl' & th' & Hrun & Hget & _ & Hf).
  - reflexivity.
  - exact demo_unconfigured.
  - exists pl', th'. split; [exact Hrun|]. split; [exact Hget|exact Hf].
Defined.

Lemma demo_keyed : keyed_by init_mem (demo_thread0 EXACT) (mkFieldInfo 0 0 16 FIELD).
Proof. split; [refine (exact_wf_map init_mem (demo_thread 0 1) _ _); apply demo_exact_wf; lia|done|done|cbn; lia..]. Qed.

Lemma entry_served_witness :
  ∃ pl' m', insertSramEntry (H := x86) 0 0 [0; 0] [0; 5; 77] 2 3 (mkServer (Some (demo_pipeline EXACT)) init_mem) =
      Ok (OK, mkServer (Some pl') m') ∧
    ∃ ov, generate_match_key_and_match (H := x86) m' (demo_thread0 EXACT) (PHV_init (H := x86)) =
      Ok (set_next_action_id 5 (set_match_value_len (zlen ov) (set_match_value (Some ov)
        (set_hit true (PHV_init (H := x86)))))).
Proof.
  destruct (entry_served (H := x86) 0 0 [0; 0] [0; 5; 77] init_mem (demo_pipeline EXACT) (demo_thread0 EXACT) (mkFieldInfo 0 0 16 FIELD))
    as (pl' & m' & Hrun & _ & _ & Hall).
  - reflexivity.
  - apply demo_keyed.
  - repeat constructor; lia.
  - reflexivity.
  - vm_compute. discriminate.
  - split; vm_compute; discriminate.
  - split; vm_compute; discriminate.
  - exists pl', m'. split; [exact Hrun|].
    destruct (Hall (PHV_init (H := x86)) (PHV_init_wf (H := x86))) as (ov & _ & Hmatch).
    + vm_compute. discriminate.
    + reflexivity.
    + exists ov. exact Hmatch.
Defined.

Lemma gateway_constant_witness :
  set_exp_param (H := x86) (mkGwParam 0 (GwData (mkDataMsg 9 [1; 2]))) = Fault OutOfBounds.
Proof.
  rewrite (gateway_constant (H := x86) 9 [1; 2]).
  - reflexivity.
  - lia.
  - repeat constructor; lia.
  - reflexivity.
Defined.
