(* ===== verification/Client.v ===== *)
(** * The configuration client (controller_client.h)

    [CfgClient] has one method for every call of the service: it packs its arguments
    into a request, sends it and returns 1 when the server answered OK and 0 when it
    cancelled.  A [Call] is a method with its arguments; [call] is what it does to a
    server; [direct] is what it promises, the operation of the pipeline on the
    arguments themselves. *)

From stdpp Require Import base numbers list gmap.
From Stdlib Require Import ZArith Lia.
From S2P Require Import Prelude Bits Phv Parser Executor Gateway Matcher Pipeline Server.

#[local] Open Scope Z_scope.

(** ** Conversions to the messages *)
Definition rp4_field_type (t : FieldType) : Z :=
  match t with VALID => 1 | FIELD => 0 | HIT => 2 | MISS => 3 end.

Definition rp4_gate_entry_type (t : GateEntryType) : Z := match t with TABLE => 0 | STAGE => 1 end.

Definition rp4_match_type (t : MatchType) : Z := match t with EXACT => 0 | LPM => 2 | TERNARY => 1 end.

Definition rp4_relation_code (r : RelationCode) : Z :=
  match r with GT => 0 | GTE => 1 | LT => 2 | LTE => 3 | EQ => 4 | NEQ => 5 end.

(** The operations without a number in the messages fall off the end of the function. *)
Definition rp4_op_code (op : OpCode) : res Z :=
  match op with
  | ADD => Ok 0 | SUB => Ok 1 | SHIFT_LEFT => Ok 4 | SHIFT_RIGHT => Ok 5 | BIT_AND => Ok 6
  | BIT_OR => Ok 7 | BIT_XOR => Ok 8 | BIT_NEG => Ok 9 | SET_FIELD => Ok 2 | COPY_FIELD => Ok 3
  | _ => Fault NoReturn
  end.

(** [get_parameter_type], by the member of the union in use. *)
Definition rp4_parameter_type (p : Parameter_) : res Z :=
  match p with
  | PFIELD _ => Ok 2 | CONSTANT _ => Ok 0 | PARAM _ => Ok 3 | OPERATOR _ => Ok 4
  | HEADER _ => Fault NoReturn
  end.

Definition field_msg (f : FieldInfo) : FieldMsg :=
  mkFieldMsg f.(hdr_id) f.(internal_offset) f.(fd_len) (rp4_field_type f.(fd_type)).

(** [get_string]: the first [byte_len] bytes. *)
Definition get_string (key : list Z) (byte_len : Z) : res (list Z) :=
  if byte_len <? 0 then Fault BadLength
  else for_lt 0 byte_len (λ i tmp, x ← rd key i; mret (tmp ++ [x])) [].

(** [set_gateway_param]: only the members that the type of the field needs are set. *)
Definition set_gateway_param (p : GateParam) : res GatewayParamMsg :=
  match p with
  | GFIELD f => mret (mkGwParam 2 (GwField
      match f.(fd_type) with
      | FIELD => field_msg f
      | VALID => mkFieldMsg f.(hdr_id) 0 0 (rp4_field_type VALID)
      | t => mkFieldMsg 0 0 0 (rp4_field_type t)
      end))
  | GCONSTANT d =>
      s ← get_string d.(val) (ceil8 d.(data_len));
      mret (mkGwParam 0 (GwData (mkDataMsg d.(data_len) s)))
  | GOTHER => mret (mkGwParam 0 GwNone)
  end.

(** [build_exp_tree], of a node and of a child that may be absent. *)
Definition opt_msg (p : Parameter_) : res ParameterMsg :=
  t ← rp4_parameter_type p;
  match p with
  | PFIELD f => mret (mkParamMsg t (PvField (field_msg f)))
  | CONSTANT d =>
      s ← get_string d.(val) (ceil8 d.(data_len));
      mret (mkParamMsg t (PvData (mkDataMsg d.(data_len) s)))
  | PARAM i => mret (mkParamMsg t (PvPara i))
  | OPERATOR op => o ← rp4_op_code op; mret (mkParamMsg t (PvOp o))
  | HEADER _ => mret (mkParamMsg t PvNone)
  end.

Fixpoint tree_msg (e : ExpTreeNode) : res TreeMsg :=
  match e with
  | NullNode => mret TNone
  | Node opt l r =>
      o ← opt_msg opt;
      l ← tree_msg l;
      r ← tree_msg r;
      mret (TNode o l r)
  end.

Definition root_msg (e : ExpTreeNode) : res TreeMsg :=
  match e with NullNode => Fault NullDeref | _ => tree_msg e end.

Definition prim_msg (p : Primitive) : res PrimMsg :=
  match p.(lvalue) with
  | None => Fault WildPointer
  | Some f => t ← root_msg p.(root); mret (mkPrimMsg (field_msg f) t)
  end.

(** ** The methods *)

(** The return code, [RC], and the call of the stub. *)
Definition rc (s : Status) : Z := match s with OK => 1 | CANCELLED => 0 end.

Definition stub `{Target} (r : Request) (st : ServerState) : res (Z * ServerState) :=
  '(s, st) ← handle r st; mret (rc s, st).

Abbreviation method := (ServerState → res (Z * ServerState)) (only parsing).

Definition cli_set_metadata `{Target} (metas : list HeaderInfo) : method :=
  stub (SetMetadata ((λ h, {| h_headerid := h.(hi_id); h_headeroffset := h.(hdr_offset);
                              h_headerlength := h.(Phv.hdr_len) |}) <$> metas)).

Definition cli_init_parser_level `{Target} (proc parser_level : Z) : method :=
  stub (InitParserLevel proc parser_level).

(** The mask is an [int32] of the message. *)
Definition cli_mod_parser_entry `{Target} (proc parser_level state entry mask hdr_id hdr_len next_state
    trans_fd_num : Z) (trans_fds : list FieldInfo) (miss_act : Z) : method :=
  stub (ModParserEntry proc parser_level state entry (i32 mask) hdr_id hdr_len next_state trans_fd_num
    (field_msg <$> trans_fds) miss_act).

Definition cli_clear_parser `{Target} (proc : Z) : method := stub (ClearParser proc).

Definition cli_insert_relation_exp `{Target} (proc : Z) (exp : RelationExp) : method := λ st,
  p1 ← set_gateway_param exp.(param1);
  p2 ← set_gateway_param exp.(param2);
  stub (InsertRelationExp proc p1 p2 (rp4_relation_code exp.(relation))) st.

Definition cli_clear_relation_exp `{Target} (proc : Z) : method := stub (ClearRelationExp proc).

Definition cli_clear_res_map `{Target} (proc : Z) : method := stub (ClearResMap proc).

Definition cli_mod_res_map `{Target} (proc key : Z) (type : GateEntryType) (value : Z) : method :=
  stub (ModResMap proc key (rp4_gate_entry_type type) value).

Definition cli_set_default_gate_entry `{Target} (proc : Z) (type : GateEntryType) (value : Z) : method :=
  stub (SetDefaultGateEntry proc (rp4_gate_entry_type type) value).

Definition cli_set_no_table `{Target} (proc matcher_id : Z) (no_table : bool) : method :=
  stub (SetNoTable proc matcher_id no_table).

(** The pairs of the map in the order of its iteration. *)
Definition cli_set_action_proc `{Target} (proc matcher_id : Z) (action_proc_map : gmap Z Z) : method :=
  stub (SetActionProc proc matcher_id (map_to_list action_proc_map)).

Definition cli_set_mem_config `{Target} (proc matcher_id key_width value_width : Z)
    (keyConfig valueConfig : list Z) (match_type : MatchType) (depth miss_act_id : Z) : method := λ st,
  k ← get_string keyConfig (key_width * depth);
  v ← get_string valueConfig (value_width * depth);
  stub (SetMemConfig proc matcher_id key_width value_width k v (rp4_match_type match_type) depth miss_act_id) st.

Definition cli_set_field_info `{Target} (proc matcher_id : Z) (_fdInfos : list FieldInfo) : method :=
  stub (SetFieldInfo proc matcher_id (field_msg <$> _fdInfos)).

Definition cli_clear_old_config `{Target} (proc matcher_id : Z) : method := stub (ClearOldConfig proc matcher_id).

Definition cli_set_miss_act_id `{Target} (proc matcher_id miss_act_id : Z) : method :=
  stub (SetMissActId proc matcher_id miss_act_id).

Definition cli_insert_sram_entry `{Target} (proc matcher_id : Z) (key value : list Z)
    (key_byte_len value_byte_len : Z) : method := λ st,
  k ← get_string key key_byte_len;
  v ← get_string value value_byte_len;
  stub (InsertSramEntry proc matcher_id k v key_byte_len value_byte_len) st.

Definition cli_insert_tcam_entry `{Target} (proc matcher_id : Z) (key mask value : list Z)
    (key_byte_len value_byte_len : Z) : method := λ st,
  k ← get_string key key_byte_len;
  m ← get_string mask key_byte_len;
  v ← get_string value value_byte_len;
  stub (InsertTcamEntry proc matcher_id k m v key_byte_len value_byte_len) st.

Definition cli_insert_action `{Target} (proc action_id para_num : Z) (primitives : list Primitive)
    (action_para_lens : list Z) : method := λ st,
  prims ← collect prim_msg primitives;
  stub (InsertAction proc (mkActionMsg para_num prims action_para_lens) action_id) st.

Definition cli_clear_action `{Target} (proc : Z) : method := stub (ClearAction proc).

Definition cli_del_action `{Target} (proc action_id : Z) : method := stub (DelAction proc action_id).

(** ** A call: a method with its arguments *)
Inductive Call : Type :=
| CSetMetadata (metas : list HeaderInfo)
| CInitParserLevel (proc level : Z)
| CModParserEntry (proc level state entry mask hdr_id hdr_len next_state trans_fd_num : Z)
    (trans_fds : list FieldInfo) (miss_act : Z)
| CClearParser (proc : Z)
| CInsertRelationExp (proc : Z) (exp : RelationExp)
| CClearRelationExp (proc : Z)
| CClearResMap (proc : Z)
| CModResMap (proc key : Z) (type : GateEntryType) (value : Z)
| CSetDefaultGateEntry (proc : Z) (type : GateEntryType) (value : Z)
| CSetNoTable (proc matcher_id : Z) (b : bool)
| CSetActionProc (proc matcher_id : Z) (action_proc : gmap Z Z)
| CSetMemConfig (proc matcher_id key_width value_width : Z) (key_config value_config : list Z)
    (mt : MatchType) (depth miss_act_id : Z)
| CSetFieldInfo (proc matcher_id : Z) (fds : list FieldInfo)
| CClearOldConfig (proc matcher_id : Z)
| CSetMissActId (proc matcher_id act : Z)
| CInsertSramEntry (proc matcher_id : Z) (key value : list Z) (klen vlen : Z)
| CInsertTcamEntry (proc matcher_id : Z) (key mask value : list Z) (klen vlen : Z)
| CInsertAction (proc action_id para_num : Z) (primitives : list Primitive) (lens : list Z)
| CClearAction (proc : Z)
| CDelAction (proc action_id : Z).

Definition call `{Target} (c : Call) : method :=
  match c with
  | CSetMetadata metas => cli_set_metadata metas
  | CInitParserLevel proc level => cli_init_parser_level proc level
  | CModParserEntry proc level state entry mask hid hlen ns num fds miss =>
      cli_mod_parser_entry proc level state entry mask hid hlen ns num fds miss
  | CClearParser proc => cli_clear_parser proc
  | CInsertRelationExp proc e => cli_insert_relation_exp proc e
  | CClearRelationExp proc => cli_clear_relation_exp proc
  | CClearResMap proc => cli_clear_res_map proc
  | CModResMap proc key t v => cli_mod_res_map proc key t v
  | CSetDefaultGateEntry proc t v => cli_set_default_gate_entry proc t v
  | CSetNoTable proc mid b => cli_set_no_table proc mid b
  | CSetActionProc proc mid m => cli_set_action_proc proc mid m
  | CSetMemConfig proc mid kw vw kc vc mt d miss => cli_set_mem_config proc mid kw vw kc vc mt d miss
  | CSetFieldInfo proc mid fds => cli_set_field_info proc mid fds
  | CClearOldConfig proc mid => cli_clear_old_config proc mid
  | CSetMissActId proc mid a => cli_set_miss_act_id proc mid a
  | CInsertSramEntry proc mid key value klen vlen => cli_insert_sram_entry proc mid key value klen vlen
  | CInsertTcamEntry proc mid key mask value klen vlen => cli_insert_tcam_entry proc mid key mask value klen vlen
  | CInsertAction proc id num prims lens => cli_insert_action proc id num prims lens
  | CClearAction proc => cli_clear_action proc
  | CDelAction proc id => cli_del_action proc id
  end.

(** The methods, unfolded together. *)
Create HintDb client.
#[export] Hint Unfold cli_set_metadata cli_init_parser_level cli_mod_parser_entry cli_clear_parser cli_insert_relation_exp cli_clear_relation_exp cli_clear_res_map cli_mod_res_map cli_set_default_gate_entry cli_set_no_table cli_set_action_proc cli_set_mem_config cli_set_field_info cli_clear_old_config cli_set_miss_act_id cli_insert_sram_entry cli_insert_tcam_entry cli_insert_action cli_clear_action cli_del_action : client.

(** A client's calls one after the other, with their return codes. *)
Definition calls `{Target} (cs : list Call) (st : ServerState) : res (list Z * ServerState) :=
  for_each (λ c '(out, st), '(r, st) ← call c st; mret (out ++ [r], st)) cs ([], st).

(** ** The contract: the operation of the pipeline on the arguments of the call *)

(** Of a field compared only what its type needs is sent. *)
Definition sent_param (p : GateParam) : GateParam :=
  match p with
  | GFIELD f =>
      match f.(fd_type) with
      | FIELD => GFIELD f
      | VALID => GFIELD (mkFieldInfo f.(hdr_id) 0 1 VALID)
      | t => GFIELD (mkFieldInfo 0 0 1 t)
      end
  | _ => p
  end.

(** The lengths of the metadata headers arrive as their offsets, and the other way round. *)
Definition sent_header (h : HeaderInfo) : HeaderInfo := mkHeaderInfo h.(hi_id) h.(Phv.hdr_len) h.(hdr_offset).

Definition direct `{Target} (c : Call) : ServerState → res (Status * ServerState) :=
  match c with
  | CSetMetadata metas => on_ppl (λ p, Ok (set_metadata_header (sent_header <$> metas) p))
  | CInitParserLevel proc level => on_ppl (ppl_init_parser_level proc level)
  | CModParserEntry proc level state entry mask hid hlen ns num fds miss =>
      on_ppl (ppl_modify_parser_entry_direct proc level state entry mask hid hlen ns num fds miss)
  | CClearParser proc => on_ppl (ppl_clear_parser proc)
  | CInsertRelationExp proc e =>
      on_ppl (ppl_insert_exp proc (mkRelationExp (sent_param e.(param1)) (sent_param e.(param2)) e.(relation)))
  | CClearRelationExp proc => on_ppl (ppl_clear_exp proc)
  | CClearResMap proc => on_ppl (ppl_clear_res_map proc)
  | CModResMap proc key t v => on_ppl (ppl_modify_res_map proc key t v)
  | CSetDefaultGateEntry proc t v => on_ppl (ppl_set_default_entry proc t v)
  | CSetNoTable proc mid b => on_ppl (ppl_set_no_table proc mid b)
  | CSetActionProc proc mid m => on_ppl (ppl_set_action_proc_map proc mid (map_to_list m))
  | CSetMemConfig proc mid kw vw kc vc mt d miss => on_ppl_mem (λ st,
      '(m, p) ← ppl_clear_old_config proc mid st;
      p ← ppl_init_match_type proc mid mt p;
      '(m, p) ← ppl_set_mem_config proc mid kw vw d kc vc (m, p);
      p ← ppl_set_miss_act_id proc mid miss p;
      mret (m, p))
  | CSetFieldInfo proc mid fds => on_ppl (ppl_set_field_infos proc mid fds)
  | CClearOldConfig proc mid => on_ppl_mem (ppl_clear_old_config proc mid)
  | CSetMissActId proc mid a => on_ppl (ppl_set_miss_act_id proc mid a)
  | CInsertSramEntry proc mid key value klen vlen => on_ppl_mem (ppl_insert_sram_entry proc mid key value klen vlen)
  | CInsertTcamEntry proc mid key mask value klen vlen =>
      on_ppl_mem (ppl_insert_tcam_entry proc mid key mask value klen vlen)
  | CInsertAction proc id num prims lens => on_ppl (ppl_insert_action proc (mkAction prims num [] lens) id)
  | CClearAction proc => on_ppl (ppl_clear_action proc)
  | CDelAction proc id => on_ppl (ppl_del_action proc id)
  end.

(** The arguments the contract covers: values of their C++ types, arrays of the
    lengths given, constants of a comparison of whole bytes, expressions the
    messages can express. *)
Record field_ok (f : FieldInfo) : Prop := {
  fo_hdr : 0 ≤ f.(hdr_id) < 256;
  fo_off : 0 ≤ f.(internal_offset) < 65536;
  fo_len : 0 ≤ f.(fd_len) < 65536
}.

Definition param_ok (p : GateParam) : Prop :=
  match p with
  | GFIELD f => field_ok f
  | GCONSTANT d => 0 ≤ d.(data_len) ∧ d.(data_len) mod 8 = 0 ∧ zlen d.(val) = ceil8 d.(data_len)
  | GOTHER => False
  end.

Definition opt_ok (p : Parameter_) : Prop :=
  match p with
  | PFIELD f => field_ok f
  | CONSTANT d => 0 ≤ d.(data_len) ∧ zlen d.(val) = ceil8 d.(data_len)
  | PARAM _ => True
  | OPERATOR op => is_ok (rp4_op_code op) = true
  | HEADER _ => False
  end.

Fixpoint tree_ok (e : ExpTreeNode) : Prop :=
  match e with NullNode => True | Node o l r => opt_ok o ∧ tree_ok l ∧ tree_ok r end.

Definition primitive_ok (p : Primitive) : Prop :=
  (∃ f, p.(lvalue) = Some f ∧ field_ok f) ∧ p.(root) ≠ NullNode ∧ tree_ok p.(root).

Definition meta_header_ok (h : HeaderInfo) : Prop :=
  0 ≤ h.(hi_id) < 256 ∧ 0 ≤ h.(hdr_offset) < 65536 ∧ 0 ≤ h.(Phv.hdr_len) < 65536.

Definition call_ok (c : Call) : Prop :=
  match c with
  | CSetMetadata metas => Forall meta_header_ok metas
  | CModParserEntry _ _ state entry mask hid hlen ns num fds miss =>
      0 ≤ state < 256 ∧ 0 ≤ entry < 2 ^ 32 ∧ 0 ≤ mask < 2 ^ 32 ∧ 0 ≤ hid < 256 ∧ 0 ≤ hlen < 65536 ∧
      0 ≤ ns < 256 ∧ 0 ≤ num < 256 ∧ Forall field_ok fds ∧ 0 ≤ miss < 256
  | CInsertRelationExp _ e => param_ok e.(param1) ∧ param_ok e.(param2)
  | CModResMap _ key _ _ => 0 ≤ key < 256
  | CSetMemConfig _ _ kw vw kc vc _ d _ => zlen kc = kw * d ∧ zlen vc = vw * d
  | CSetFieldInfo _ _ fds => Forall field_ok fds
  | CInsertSramEntry _ _ key value klen vlen => zlen key = klen ∧ zlen value = vlen
  | CInsertTcamEntry _ _ key mask value klen vlen => zlen key = klen ∧ zlen mask = klen ∧ zlen value = vlen
  | CInsertAction _ _ _ prims _ => Forall primitive_ok prims
  | _ => True
  end.

(** ** Messages arrive as they were sent *)
Lemma get_string_all s n : zlen s = n → get_string s n = Ok s.
Proof.
  intros <-. unfold get_string. rewrite (proj2 (Z.ltb_ge _ 0)) by apply zlen_nonneg.
  edestruct (for_lt_inv (λ i t, t = take (Z.to_nat i) s) 0 (zlen s)) as (t & -> & ->);
    [apply zlen_nonneg|done| |by rewrite take_ge by (unfold zlen; lia)].
  intros i t Hi ->. rewrite rd_at by lia. cbn [mbind res_mbind mret res_mret]. eexists; split; [done|].
  replace (Z.to_nat (i + 1)) with (S (Z.to_nat i)) by lia. symmetry. apply take_S_r. unfold at_.
  apply list_lookup_lookup_total_lt. unfold zlen in *. lia.
Qed.

Lemma field_type_sent t : get_field_type (rp4_field_type t) = t.
Proof. by destruct t. Qed.

Lemma match_type_sent t : get_match_type (rp4_match_type t) = t.
Proof. by destruct t. Qed.

Lemma relation_sent r : get_relation_code (rp4_relation_code r) = r.
Proof. by destruct r. Qed.

Lemma gate_type_sent t : get_gate_entry_type (rp4_gate_entry_type t) = Ok t.
Proof. by destruct t. Qed.

Lemma op_sent op o : rp4_op_code op = Ok o → get_op_code o = op.
Proof. by destruct op; intros [= <-]. Qed.

Lemma field_sent f : field_ok f → get_field_info (field_msg f) = f.
Proof.
  intros [Hh Ho Hl]. unfold get_field_info, field_msg. cbn.
  rewrite u8_small, !u16_small, field_type_sent by lia. by destruct f.
Qed.

Lemma fields_sent fds : Forall field_ok fds → get_field_info <$> (field_msg <$> fds) = fds.
Proof.
  intros H. rewrite <- list_fmap_compose. induction H as [|f fds Hf _ IH]; [done|].
  rewrite fmap_cons, IH. unfold compose. by rewrite field_sent.
Qed.

Lemma param_sent `{Target} p : param_ok p → ∃ g, set_gateway_param p = Ok g ∧ set_exp_param g = Ok (sent_param p).
Proof.
  destruct p as [d|f|]; [| |done].
  - intros (Hl & H8 & Hv). unfold set_gateway_param. rewrite get_string_all by done. eexists; split; [done|].
    rewrite set_exp_param_whole by done. by destruct d.
  - intros Hf. eexists; split; [done|]. unfold set_exp_param, sent_param. cbn [g_paramtype g_value gw_field].
    change (2 =? 2) with true. cbn iota. destruct (fd_type f) eqn:Ht; cbn.
    + rewrite Ht. cbn. destruct Hf as [Hh Ho Hl]. rewrite u8_small, !u16_small by lia. rewrite <- Ht. by destruct f.
    + destruct Hf as [Hh Ho Hl]. by rewrite u8_small by lia.
    + done.
    + done.
Qed.

Lemma opt_sent `{Target} p : opt_ok p → ∃ m, opt_msg p = Ok m ∧ build_opt m = Ok p.
Proof.
  destruct p as [d|i|f|i|op]; cbn [opt_ok]; intros Ho; unfold opt_msg, build_opt; cbn [rp4_parameter_type mbind res_mbind].
  - destruct Ho as [Hl Hv]. rewrite get_string_all by done. eexists; split; [done|].
    cbn [p_type p_val pv_data d_len d_val]. change (0 =? 2) with false. change (0 =? 0) with true. cbn iota.
    assert (0 ≤ ceil8 (data_len d)) by (unfold ceil8; dlia).
    destruct (fresh_ok (ceil8 (data_len d))) as (v & -> & Hv' & _); [done|]. cbn [mbind res_mbind].
    rewrite get_uint_from_bytes_all by lia. cbn [mbind res_mbind].
    rewrite memcpy_eq by lia. cbn [mbind res_mbind mret res_mret]. do 3 f_equal. destruct d as [n l]. cbn in *. f_equal.
    rewrite drop_0, take_0, app_nil_l, take_ge, drop_ge, app_nil_r by (unfold zlen in *; lia). done.
  - done.
  - eexists; split; [done|]. cbn. by rewrite field_sent.
  - by eexists.
  - destruct (rp4_op_code op) as [o|] eqn:Hop; [|done]. eexists; split; [done|]. cbn. by rewrite (op_sent op o).
Qed.

Lemma tree_sent `{Target} e : tree_ok e → ∃ m, tree_msg e = Ok m ∧ build_exp_tree m = Ok e.
Proof.
  induction e as [|o l IHl r IHr]; cbn [tree_ok tree_msg]; [by eexists|].
  intros (Ho & Hl & Hr). destruct (opt_sent o Ho) as (mo & -> & Hmo). destruct (IHl Hl) as (ml & -> & Hml).
  destruct (IHr Hr) as (mr & -> & Hmr). eexists; split; [done|]. cbn. by rewrite Hmo, Hml, Hmr.
Qed.

Lemma prim_sent `{Target} p : primitive_ok p → ∃ m, prim_msg p = Ok m ∧ build_prim m = Ok p.
Proof.
  intros ((f & Hf & Hfo) & Hnull & Ht). destruct p as [lv e]. cbn in *. subst lv. unfold prim_msg. cbn.
  destruct (tree_sent e Ht) as (m & Hm & Hb). unfold root_msg. destruct e as [|o l r]; [done|]. rewrite Hm.
  eexists; split; [done|]. unfold build_prim, build_root. cbn [pm_root pm_lvalue].
  destruct m as [|mo ml mr].
  - cbn in Hm. by repeat (destruct (opt_msg _) || destruct (tree_msg _)).
  - rewrite Hb. cbn. by rewrite field_sent.
Qed.

Lemma prims_sent `{Target} l :
  Forall primitive_ok l → ∃ ms, collect prim_msg l = Ok ms ∧ collect build_prim ms = Ok l.
Proof.
  intros Hl. setoid_rewrite collect_ok. induction Hl as [|p l Hp _ (ms & H1 & H2)]; [by exists []|].
  destruct (prim_sent p Hp) as (m & Hm & Hb). exists (m :: ms). by split; constructor.
Qed.

Lemma on_ppl_ext f g st : (∀ p, f p = g p) → on_ppl f st = on_ppl g st.
Proof. intros H. unfold on_ppl. destruct (ppl st); [|done]. by rewrite H. Qed.

Lemma on_ppl_mem_ext f g st : (∀ s, f s = g s) → on_ppl_mem f st = on_ppl_mem g st.
Proof. intros H. unfold on_ppl_mem. destruct (ppl st); [|done]. by rewrite H. Qed.

Lemma stub_direct `{Target} r c st :
  handle r st = direct c st → stub r st = ('(s, st') ← direct c st; Ok (rc s, st')).
Proof. intros H1. unfold stub. by rewrite H1. Qed.

Lemma u32_i32 x : 0 ≤ x < 2 ^ 32 → u32 (i32 x) = x.
Proof. intros. unfold u32, i32. dlia. Qed.

(** A map rebuilt from its pairs. *)
Lemma map_sent (m : gmap Z Z) : fold_left (λ m (kv : Z * Z), <[kv.1 := kv.2]> m) (map_to_list m) (∅ : gmap Z Z) = m.
Proof.
  rewrite <- (rev_involutive (map_to_list m)) at 1.
  rewrite <- (fold_left_rev_right (λ kv m, <[kv.1 := kv.2]> m)), rev_involutive.
  transitivity (list_to_map (M := gmap Z Z) (rev (map_to_list m))); [done|].
  rewrite <- (list_to_map_to_list m) at 2. apply list_to_map_proper.
  - rewrite <- (Permutation_rev (map_to_list m)). apply NoDup_fst_map_to_list.
  - symmetry. apply Permutation_rev.
Qed.

(** What is not sent of an operand does not change its value. *)
Lemma sent_param_value `{Target} p phv : gate_value (sent_param p) phv = gate_value p phv.
Proof. destruct p as [d|f|]; [done| |done]. destruct f as [h o l t]. by destruct t. Qed.

(** A call runs the operation of the pipeline. *)
Lemma call_direct `{Target} c st :
  call_ok c → call c st = ('(s, st') ← direct c st; Ok (rc s, st')).
Proof.
  destruct c as [metas| |? ? ? entry mask| |? e| | | | | |? ? m|? ? kw vw kc vc mt d| | | |? ? key value|
    ? ? key msk value|? ? ? prims| |]; cbn [call_ok call]; intros Hok; try done.
  - apply stub_direct, on_ppl_ext. intros p. do 2 f_equal. rewrite <- list_fmap_compose.
    apply list_fmap_ext. intros i h Hh. rewrite Forall_lookup in Hok. destruct (Hok i h Hh) as (? & ? & ?).
    cbn. by rewrite u8_small, !u16_small by lia.
  - destruct Hok as (? & ? & ? & ? & ? & ? & ? & ? & ?). apply stub_direct, on_ppl_ext. intros p.
    rewrite fields_sent by done. rewrite !u8_small, u16_small, (u32_small entry), u32_i32 by lia. done.
  - destruct Hok as [H1 H2]. destruct (param_sent _ H1) as (g1 & Hg1 & Hs1), (param_sent _ H2) as (g2 & Hg2 & Hs2).
    unfold cli_insert_relation_exp. rewrite Hg1, Hg2. cbn [mbind res_mbind].
    apply stub_direct, on_ppl_ext. intros p. by rewrite Hs1, Hs2, relation_sent.
  - apply stub_direct, on_ppl_ext. intros p. rewrite gate_type_sent, u8_small by lia. done.
  - apply stub_direct, on_ppl_ext. intros p. by rewrite gate_type_sent.
  - apply stub_direct, on_ppl_ext. intros p. by rewrite map_sent.
  - destruct Hok as [Hk Hv]. unfold cli_set_mem_config. rewrite !get_string_all by done. cbn [mbind res_mbind].
    apply stub_direct, on_ppl_mem_ext. intros s. by rewrite match_type_sent.
  - apply stub_direct, on_ppl_ext. intros p. by rewrite fields_sent.
  - destruct Hok as [Hk Hv]. unfold cli_insert_sram_entry. rewrite !get_string_all by done. cbn [mbind res_mbind].
    apply stub_direct, on_ppl_mem_ext. intros s. 
    destruct (fresh_ok klen) as (k0 & -> & Hk0 & _); [subst; apply zlen_nonneg|].
    destruct (fresh_ok vlen) as (v0 & -> & Hv0 & _); [subst; apply zlen_nonneg|]. cbn [mbind res_mbind].
    by rewrite !get_uint_from_bytes_all by lia.
  - destruct Hok as (Hk & Hm & Hv). unfold cli_insert_tcam_entry. rewrite !get_string_all by done. cbn [mbind res_mbind].
    apply stub_direct, on_ppl_mem_ext. intros s. 
    destruct (fresh_ok klen) as (k0 & -> & Hk0 & _); [subst; apply zlen_nonneg|].
    destruct (fresh_ok vlen) as (v0 & -> & Hv0 & _); [subst; apply zlen_nonneg|]. cbn [mbind res_mbind].
    rewrite !get_uint_from_bytes_all by lia. cbn [mbind res_mbind].
    destruct (fresh_ok (zlen msk)) as (m0 & -> & Hm0 & _); [apply zlen_nonneg|]. cbn [mbind res_mbind].
    by rewrite get_uint_from_bytes_all by lia.
  - destruct (prims_sent prims Hok) as (ms & H1 & H2). unfold cli_insert_action. rewrite H1. cbn [mbind res_mbind].
    apply stub_direct, on_ppl_ext. intros p. cbn [a_prims a_paranum a_paralens]. by rewrite H2.
Qed.

(** Constants of a comparison as the client gives them: the bytes of so many bits; and
    whether they fill their bytes. *)
Definition carried_param (p : GateParam) : Prop :=
  match p with
  | GCONSTANT d => 0 ≤ d.(data_len) ∧ bytes d.(val) ∧ zlen d.(val) = ceil8 d.(data_len)
  | p => param_ok p
  end.
Definition whole_param (p : GateParam) : bool := match p with GCONSTANT d => d.(data_len) mod 8 =? 0 | _ => true end.

Definition carried (c : Call) : Prop :=
  match c with
  | CInsertRelationExp _ e => carried_param e.(param1) ∧ carried_param e.(param2)
  | c => call_ok c
  end.
Definition whole_constants (c : Call) : bool :=
  match c with CInsertRelationExp _ e => whole_param e.(param1) && whole_param e.(param2) | _ => true end.

Lemma carried_ok c : carried c → whole_constants c = true → call_ok c.
Proof.
  destruct c as [| | | |proc e| | | | | | | | | | | | | | |]; try done. cbn. intros [H1 H2] [W1 W2]%andb_true_iff.
  destruct (param1 e), (param2 e); cbn in *; rewrite ?Z.eqb_eq in *; tauto.
Qed.

(** A constant that does not fill its bytes is written behind the end of its buffer. *)
Lemma carried_param_sent `{Target} p : carried_param p →
  ∃ g, set_gateway_param p = Ok g ∧ set_exp_param g = if whole_param p then Ok (sent_param p) else Fault OutOfBounds.
Proof.
  intros Hp. destruct (whole_param p) eqn:W.
  - apply param_sent. destruct p; cbn in *; [|done..]. apply Z.eqb_eq in W. tauto.
  - destruct p as [d|f|]; [|done..]. cbn in W, Hp. destruct Hp as (Hl & Hb & Hv). apply Z.eqb_neq in W.
    unfold set_gateway_param. rewrite get_string_all by done. eexists; split; [done|].
    assert (data_len d ≠ 0) by (intros E; by rewrite E in W).
    rewrite gateway_constant by (first [done | lia]). by rewrite (proj2 (Z.eqb_neq _ _) W).
Qed.

(** C9. What the calls of the client do, for all arguments the messages can carry: a call
    does to the server what the pipeline's own operation does on these arguments, with
    the return code 1, or nothing, with 0, when there is no pipeline; but a comparison
    with a constant that does not fill its bytes (12 bits, say) makes the server write
    behind the end of a buffer.  Of the operands of a comparison only what their type
    needs is sent, which leaves their values as they are; the lengths and offsets of the
    metadata arrive in each other's place. *)
Theorem client_calls_run_directly `{Target} c st :
  carried c →
  (whole_constants c = true → call c st = ('(s, st') ← direct c st; Ok (rc s, st'))) ∧
  (whole_constants c = false → ∀ p, st.(ppl) = Some p → call c st = Fault OutOfBounds) ∧
  (st.(ppl) = None → call c st = Ok (0, st)) ∧
  (∀ p phv, gate_value (sent_param p) phv = gate_value p phv).
Proof.
  intros Hc. split_and!; [intros; by apply call_direct, carried_ok| | |intros; apply sent_param_value].
  - intros Hw p Hp. destruct c as [?|? ?|? ? ? ? ? ? ? ? ? ?|?|proc e|?|?|? ? ? ?|? ? ?|? ? ?|? ? ?|? ? ? ? ? ? ? ? ?|? ? ?|? ?|? ? ?|? ? ? ? ? ?|? ? ? ? ? ? ?|? ? ? ? ?|?|? ?]; try discriminate Hw. destruct Hc as [H1 H2]. cbn in Hw.
    cbn [call]. unfold cli_insert_relation_exp. destruct (carried_param_sent _ H1) as (g1 & -> & E1), (carried_param_sent _ H2) as (g2 & -> & E2).
    cbn [mbind res_mbind]. unfold stub. cbn [handle]. unfold insertRelationExp, on_ppl. rewrite Hp, E1, E2.
    by destruct (whole_param (param1 e)), (whole_param (param2 e)).
  - intros Hn. destruct (whole_constants c) eqn:Hw.
    + rewrite call_direct by (by apply carried_ok). destruct st as [pl m]. cbn in Hn. subst pl. by destruct c.
    + destruct c as [?|? ?|? ? ? ? ? ? ? ? ? ?|?|proc e|?|?|? ? ? ?|? ? ?|? ? ?|? ? ?|? ? ? ? ? ? ? ? ?|? ? ?|? ?|? ? ?|? ? ? ? ? ?|? ? ? ? ? ? ?|? ? ? ? ?|?|? ?]; try discriminate Hw. destruct Hc as [H1 H2]. cbn [call]. unfold cli_insert_relation_exp.
      destruct (carried_param_sent _ H1) as (g1 & -> & _), (carried_param_sent _ H2) as (g2 & -> & _). cbn [mbind res_mbind].
      unfold stub. cbn [handle]. unfold insertRelationExp, on_ppl. by rewrite Hn.
Qed.

(** ** Example *)
Definition demo_call : Call :=
  CInsertAction 0 3 1
    [mkPrimitive (Some (mkFieldInfo 1 16 8 FIELD))
       (Node (OPERATOR ADD) (Node (PFIELD (mkFieldInfo 1 16 8 FIELD)) NullNode NullNode)
          (Node (CONSTANT (mkData 12 [0; 1])) NullNode NullNode))] [9].

Lemma client_calls_run_directly_witness :
  ∃ st, call (H := x86) demo_call demo_server = Ok (1, st).
Proof.
  destruct (client_calls_run_directly (H := x86) demo_call demo_server) as (Hrun & _ & _ & _).
  - repeat constructor; cbn; try discriminate; try lia. eexists. split; [reflexivity|]. split; cbn; lia.
  - eexists. rewrite Hrun by reflexivity. reflexivity.
Defined.
