(* ===== verification/Controller.v ===== *)
(** * The controller (ctrl_mod_table.h and ctrl_init_dataplane.h)

    Two programs that read a JSON file and make calls of the client: one adds an
    entry to a table, the other configures the whole switch.  The JSON library is
    outside the model: a file is given as the values the programs read from it, with
    their types, so that a missing member or a value of another type, on which the
    library throws, is not among the inputs. *)

From stdpp Require Import base numbers list gmap strings.
From Stdlib Require Import ZArith Lia.
From S2P Require Import Prelude Bits Phv Parser Executor Gateway Matcher Pipeline Server Client.

#[local] Open Scope Z_scope.

(** ** Adding an entry: ctrl_mod_table.h *)

(** A key field or an action parameter of the file: a width in bits and the bytes of
    the value and, for a key, the mask. *)
Record KeyJson : Set := mkKeyJson { kj_width : Z; kj_value : list Z; kj_mask : list Z }.

Record UpdateJson : Set := mkUpdate {
  u_proc_id : Z;
  u_matcher_id : Z;
  u_action_id : Z;
  u_match_type : string;
  u_keys : list KeyJson;
  u_action_para : list KeyJson
}.

(** [get_match_type]: an unknown name is inserted in the map with the first constant. *)
Definition ctrl_match_type (mt : string) : MatchType :=
  if bool_decide (mt = "TERNARY"%string) then TERNARY
  else if bool_decide (mt = "LPM"%string) then LPM else EXACT.

(** The controller's copy of [combine_to_single_key], which steps to the next byte of
    the key after every field. *)
Definition ctrl_combine_byte (ki : KeyInfo) (i : Z) (st : list Z * Z * Z) : res (list Z * Z * Z) :=
  let '(mk, cur_idx, cur_bit_left) := st in
  f ← rd ki.(field) i;
  m ← rd mk cur_idx;
  mk ← wr mk cur_idx (u8 (m + Z.shiftr f (8 - cur_bit_left)));
  if i <? ki.(byte_len) - 1 then
    mk ← (if cur_bit_left <? 8 then wr mk (cur_idx + 1) (u8 (Z.shiftl f cur_bit_left)) else mret mk);
    mret (mk, cur_idx + 1, cur_bit_left)
  else if ki.(tail_offset) <? cur_bit_left then mret (mk, cur_idx + 1, cur_bit_left - ki.(tail_offset))
  else if cur_bit_left =? ki.(tail_offset) then mret (mk, cur_idx + 1, 8)
  else
    mk ← wr mk (cur_idx + 1) (u8 (Z.shiftl f cur_bit_left));
    mret (mk, cur_idx + 1, 8 - ki.(tail_offset) + cur_bit_left).

Definition ctrl_combine (keyInfos : list KeyInfo) (fd_len_sum : Z) : res (list Z) :=
  let len := fd_len_sum / 8 + b2z (0 <? fd_len_sum mod 8) in
  '(mk, _, _) ← for_each (λ ki, for_lt 0 ki.(byte_len) (ctrl_combine_byte ki)) keyInfos
                  (replicate (Z.to_nat len) 0, 0, 8);
  mret mk.

(** The values of the file stored in a fresh array, and the array shifted to the left
    by the bits its width leaves empty. *)
Definition json_bytes (vals : list Z) (buf : list Z) : res (list Z) :=
  '(b, _) ← for_each (λ it '(b, idx), b ← wr b idx (u8 it); mret (b, idx + 1)) vals (buf, 0);
  mret b.

Definition shift_bytes (empty_len width_byte : Z) (b : list Z) : res (list Z) :=
  b ← for_lt 0 (width_byte - 1) (λ i b,
    x ← rd b i;
    y ← rd b (i + 1);
    wr b i (u8 (Z.shiftl x empty_len + Z.shiftr y (8 - empty_len)))) b;
  l ← rd b (width_byte - 1);
  wr b (width_byte - 1) (u8 (Z.shiftl l empty_len)).

Definition key_info `{Target} (width : Z) (vals : list Z) : res KeyInfo :=
  let width_byte := ceil8 width in
  let empty_len := width_byte * 8 - width in
  b ← fresh width_byte;
  b ← json_bytes vals b;
  b ← shift_bytes empty_len width_byte b;
  mret (mkKeyInfo empty_len b width_byte (u16 width)).

(** [extract_action_para] and [extract_exact] are the same code. *)
Definition extract_exact `{Target} (j : list KeyJson) : res (list Z * Z) :=
  '(infos, width_sum) ← for_each (λ k '(infos, sum),
    ki ← key_info k.(kj_width) k.(kj_value);
    mret (infos ++ [ki], sum + k.(kj_width))) j ([], 0);
  single_key ← ctrl_combine infos (u16 width_sum);
  mret (single_key, ceil8 width_sum).

Definition extract_action_para `{Target} (j : list KeyJson) : res (list Z * Z) := extract_exact j.

Definition extract_ternary `{Target} (j : list KeyJson) : res (list Z * list Z * Z) :=
  '(infos, masks, width_sum) ← for_each (λ k '(infos, masks, sum),
    ki ← key_info k.(kj_width) k.(kj_value);
    mi ← key_info k.(kj_width) k.(kj_mask);
    mret (infos ++ [ki], masks ++ [mi], sum + k.(kj_width))) j ([], [], 0);
  key ← ctrl_combine infos (u16 width_sum);
  mask ← ctrl_combine masks (u16 width_sum);
  mret (key, mask, ceil8 width_sum).

(** [extract].  The value with the action id in front, [new_value], is built and
    printed; what is sent is [value]. *)
Definition update `{Target} (j : UpdateJson) (st : ServerState) : res (Z * ServerState) :=
  let match_type := ctrl_match_type j.(u_match_type) in
  '(key, mask, key_width) ← (if decide (match_type = EXACT) then
      '(key, kw) ← extract_exact j.(u_keys); mret (key, [], kw)
    else extract_ternary j.(u_keys));
  '(value, value_width) ← extract_action_para j.(u_action_para);
  new_value ← fresh (2 + value_width);
  new_value ← wr new_value 0 (u8 (Z.shiftr j.(u_action_id) 8));
  new_value ← wr new_value 1 (u8 j.(u_action_id));
  new_value ← memcpy new_value 2 value 0 value_width;
  if decide (match_type = EXACT) then
    cli_insert_sram_entry j.(u_proc_id) j.(u_matcher_id) key value key_width value_width st
  else cli_insert_tcam_entry j.(u_proc_id) j.(u_matcher_id) key mask value key_width value_width st.

(** *** The fields the controller builds *)
Lemma json_bytes_all vals buf :
  zlen buf = zlen vals → bytes vals → json_bytes vals buf = Ok vals.
Proof.
  intros Hl Hv. unfold json_bytes.
  assert (H1 : ∀ todo done_ rest, bytes todo → zlen rest = zlen todo →
    for_each (λ it '(b, idx), b ← wr b idx (u8 it); mret (b, idx + 1)) todo (done_ ++ rest, zlen done_) =
    Ok (done_ ++ todo, zlen (done_ ++ todo))).
  { induction todo as [|x todo IH]; intros done_ rest Hb Hr.
    - destruct rest; [by rewrite app_nil_r|done].
    - destruct rest as [|y rest]; [done|]. inversion_clear Hb. cbn [for_each].
      unfold zlen in Hr. cbn [length] in Hr. rewrite wr_ok by (rewrite zlen_app; unfold zlen; cbn [length]; lia).
      cbn [mbind res_mbind mret res_mret]. rewrite u8_small by lia.
      assert (<[Z.to_nat (zlen done_):=x]> (done_ ++ y :: rest) = (done_ ++ [x]) ++ rest) as ->.
      { unfold zlen. rewrite Nat2Z.id, insert_app_r_alt, Nat.sub_diag by lia. cbn. by rewrite <- app_assoc. }
      replace (zlen done_ + 1) with (zlen (done_ ++ [x])) by (by rewrite zlen_app).
      rewrite IH; [by rewrite <- app_assoc|done|unfold zlen; lia]. }
  pose proof (H1 vals [] buf Hv Hl) as E. cbn [app] in E. change (zlen []) with 0 in E. by rewrite E.
Qed.

Lemma shift_bytes_digits b e n :
  bytes b → zlen b = n → 1 ≤ n → 0 ≤ e < 8 →
  ∃ r, shift_bytes e n b = Ok r ∧ zlen r = n ∧ ∀ i, 0 ≤ i < n → at_ r i = digit (be_val b * 2 ^ e) n i.
Proof.
  intros Hb Hn H1 He. unfold shift_bytes.
  assert (Hd : ∀ i, 0 ≤ i < n → at_ b i = digit (be_val b) n i) by (intros; subst n; by apply be_val_digit).
  edestruct (for_lt_inv (λ i r, zlen r = n ∧ (∀ j, 0 ≤ j < i → at_ r j = digit (be_val b * 2 ^ e) n j) ∧
      ∀ j, i ≤ j < n → at_ r j = at_ b j) 0 (n - 1)) as (r & -> & Hr & Hlo & Hhi); [lia| | |].
  - split; [done|]. split; [lia|done].
  - intros i r Hi (Hr & Hlo & Hhi). rewrite (rd_at r i), (rd_at r (i + 1)) by lia. cbn [mbind res_mbind].
    rewrite wr_ok by lia. eexists; split; [done|]. rewrite zlen_insert. split; [done|]. split; intros j Hj.
    + rewrite at_insert by lia. destruct (Z.eqb_spec i j) as [<-|]; [|apply Hlo; lia].
      rewrite !Hhi, !Hd by lia. rewrite <- digit_shl by lia. rewrite (proj2 (Z.ltb_lt _ _)) by lia.
      rewrite Z.shiftl_mul_pow2, Z.shiftr_div_pow2 by lia. unfold u8. by rewrite Zplus_mod_idemp_l.
    + rewrite at_insert by lia. rewrite (proj2 (Z.eqb_neq i j)) by lia. apply Hhi. lia.
  - cbn [mbind res_mbind]. rewrite rd_at by lia. cbn [mbind res_mbind]. rewrite wr_ok by lia.
    eexists; split; [done|]. rewrite zlen_insert. split; [done|]. intros i Hi. rewrite at_insert by lia.
    destruct (Z.eqb_spec (n - 1) i) as [<-|]; [|apply Hlo; lia].
    rewrite Hhi, Hd by lia. rewrite <- digit_shl by lia. rewrite (proj2 (Z.ltb_ge (n - 1 + 1) _)) by lia.
    rewrite Z.shiftl_mul_pow2, Z.div_0_l, Z.add_0_r by (try apply Z.pow_nonzero; lia). unfold u8. by rewrite Z.mod_mod.
Qed.

(** A field of the file, read as a number that fits its width. *)
Definition key_json_ok (k : KeyJson) : Prop :=
  1 ≤ k.(kj_width) < 65536 ∧ bytes k.(kj_value) ∧ zlen k.(kj_value) = ceil8 k.(kj_width) ∧
  be_val k.(kj_value) < 2 ^ k.(kj_width).

Lemma key_info_ok `{Target} k :
  key_json_ok k →
  ∃ b, key_info k.(kj_width) k.(kj_value) =
      Ok (mkKeyInfo (8 * ceil8 k.(kj_width) - k.(kj_width)) b (ceil8 k.(kj_width)) k.(kj_width)) ∧
    bytes b ∧ zlen b = ceil8 k.(kj_width) ∧
    be_val b = be_val k.(kj_value) * 2 ^ (8 * ceil8 k.(kj_width) - k.(kj_width)).
Proof.
  intros (Hw & Hb & Hl & Hv). unfold key_info. set (n := ceil8 (kj_width k)) in *.
  assert (1 ≤ n ∧ 0 ≤ 8 * n - kj_width k < 8) as [Hn He] by (subst n; unfold ceil8; dlia).
  destruct (fresh_ok n) as (b0 & -> & Hb0 & _); [lia|]. cbn [mbind res_mbind].
  rewrite json_bytes_all by (done || lia). cbn [mbind res_mbind]. replace (n * 8) with (8 * n) by lia.
  destruct (shift_bytes_digits (kj_value k) (8 * n - kj_width k) n) as (r & -> & Hr & Hd); [done..|].
  cbn [mbind res_mbind mret res_mret]. exists r. rewrite u16_small by lia. split; [done|].
  split; [apply bytes_of_at; intros i Hi; rewrite Hd by lia; apply digit_range|]. split; [done|].
  pose proof (be_val_range _ Hb). apply (digits_val r _ n); [done| |done].
  replace (2 ^ (8 * n)) with (2 ^ kj_width k * 2 ^ (8 * n - kj_width k)).
  { assert (0 < 2 ^ (8 * n - kj_width k)) by (apply Z.pow_pos_nonneg; lia). nia. }
  rewrite <- Z.pow_add_r by lia. f_equal. lia.
Qed.

(** *** Keys and parameters of several fields *)
Lemma combine_next (mk f : list Z) i n :
  (0 ≤ i < length f)%nat → (length f ≤ n)%nat →
  <[(length mk + i)%nat := f !!! i]> (mk ++ take i f ++ replicate (n - i) 0) =
  mk ++ take (S i) f ++ replicate (n - S i) 0.
Proof.
  intros Hi Hn. rewrite insert_app_r. f_equal.
  rewrite insert_app_r_alt by (rewrite length_take; lia). rewrite length_take, Nat.min_l, Nat.sub_diag by lia.
  replace (n - i)%nat with (S (n - S i)) by lia. cbn [replicate insert list_insert].
  rewrite (take_S_r f i (f !!! i)) by (apply list_lookup_lookup_total_lt; lia). by rewrite <- app_assoc.
Qed.

(** A field at the start of a byte of the key fills its bytes. *)
Lemma ctrl_combine_field ki mk n :
  bytes ki.(field) → zlen ki.(field) = ki.(byte_len) → 1 ≤ ki.(byte_len) → (length ki.(field) ≤ n)%nat →
  0 ≤ ki.(tail_offset) < 8 →
  for_lt 0 ki.(byte_len) (ctrl_combine_byte ki) (mk ++ replicate n 0, zlen mk, 8) =
  Ok (mk ++ ki.(field) ++ replicate (n - length ki.(field)) 0, zlen mk + ki.(byte_len), 8 - ki.(tail_offset)).
Proof.
  intros Hb Hl H1 Hn Ht. unfold zlen in Hl.
  edestruct (for_lt_inv (λ i st, st = (mk ++ take (Z.to_nat i) ki.(field) ++ replicate (n - Z.to_nat i) 0,
      zlen mk + i, if i <? ki.(byte_len) then 8 else 8 - ki.(tail_offset))) 0 ki.(byte_len)) as (st & -> & ->); [lia| | |].
  - rewrite (proj2 (Z.ltb_lt _ _)) by lia. rewrite Z.add_0_r, take_0, Nat.sub_0_r. done.
  - intros i st Hi ->. rewrite (proj2 (Z.ltb_lt _ _)) by lia. unfold ctrl_combine_byte.
    rewrite (rd_at (field ki) i) by (unfold zlen; lia). cbn [mbind res_mbind].
    assert (Hz : at_ (mk ++ take (Z.to_nat i) (field ki) ++ replicate (n - Z.to_nat i) 0) (zlen mk + i) = 0).
    { unfold at_, zlen. rewrite app_assoc, lookup_total_app_r by (rewrite length_app, length_take; lia).
      rewrite list_lookup_total_alt, lookup_replicate_2; [done|rewrite length_app, length_take; lia]. }
    assert (Hlen : zlen (mk ++ take (Z.to_nat i) (field ki) ++ replicate (n - Z.to_nat i) 0) = zlen mk + Z.of_nat n).
    { unfold zlen. rewrite !length_app, length_take, length_replicate. lia. }
    pose proof (zlen_nonneg mk). rewrite (rd_at _ (zlen mk + i)), Hz by lia. cbn [mbind res_mbind]. rewrite wr_ok by lia.
    cbn [mbind res_mbind]. rewrite Z.shiftr_0_r, Z.add_0_l, u8_small by (by apply bytes_at).
    replace (Z.to_nat (zlen mk + i)) with (length mk + Z.to_nat i)%nat by (unfold zlen; lia).
    unfold at_. rewrite combine_next by lia. replace (Z.to_nat (i + 1)) with (S (Z.to_nat i)) by lia.
    destruct (Z.ltb_spec i (byte_len ki - 1)); rewrite ?(proj2 (Z.ltb_lt (tail_offset ki) 8)) by lia.
    + eexists; split; [done|]. rewrite (proj2 (Z.ltb_lt _ _)) by lia. by rewrite Z.add_assoc.
    + eexists; split; [done|]. rewrite (proj2 (Z.ltb_ge (i + 1) _)) by lia. by rewrite Z.add_assoc.
  - rewrite (proj2 (Z.ltb_ge (byte_len ki) _)) by lia. replace (Z.to_nat (byte_len ki)) with (length (field ki)) by lia.
    by rewrite firstn_all.
Qed.

(** Fields of whole bytes, and one field after them, are concatenated. *)
Record whole_field (ki : KeyInfo) : Prop := {
  wf_bytes : bytes ki.(field);
  wf_len : zlen ki.(field) = ki.(byte_len);
  wf_pos : 1 ≤ ki.(byte_len);
  wf_tail : ki.(tail_offset) = 0
}.

Definition fields_of (kis : list KeyInfo) : list Z := concat (field <$> kis).

Lemma ctrl_combine_fields kis mk n :
  Forall whole_field kis → (length (fields_of kis) ≤ n)%nat →
  for_each (λ ki, for_lt 0 ki.(byte_len) (ctrl_combine_byte ki)) kis (mk ++ replicate n 0, zlen mk, 8) =
  Ok (mk ++ fields_of kis ++ replicate (n - length (fields_of kis)) 0, zlen (mk ++ fields_of kis), 8).
Proof.
  unfold fields_of. intros Hk. revert mk n. induction Hk as [|ki kis [Hb Hl H1 Ht] _ IH]; intros mk n Hn; cbn [for_each].
  - cbn. by rewrite app_nil_r, Nat.sub_0_r.
  - cbn [fmap list_fmap concat] in *. rewrite length_app in *. unfold zlen in Hl.
    rewrite ctrl_combine_field by (done || lia). cbn [mbind res_mbind]. rewrite Ht, Z.sub_0_r, app_assoc.
    replace (zlen mk + byte_len ki) with (zlen (mk ++ field ki)) by (unfold zlen; rewrite length_app; lia).
    rewrite IH by lia. rewrite <- !app_assoc, Nat.sub_add_distr. done.
Qed.

Lemma byte_count n : n / 8 + b2z (0 <? n mod 8) = ceil8 n.
Proof. unfold ceil8, b2z. zcmp; dlia. Qed.

(** One field. *)
Lemma extract_one `{Target} k :
  key_json_ok k →
  ∃ b, extract_exact [k] = Ok (b, ceil8 k.(kj_width)) ∧ bytes b ∧ zlen b = ceil8 k.(kj_width) ∧
    be_val b = be_val k.(kj_value) * 2 ^ (8 * ceil8 k.(kj_width) - k.(kj_width)).
Proof.
  intros Hk. destruct (key_info_ok k Hk) as (b & Hi & Hb & Hl & Hv). exists b. split; [|done].
  destruct Hk as (Hw & _). unfold extract_exact. cbn [for_each]. rewrite Hi. cbn [mbind res_mbind mret res_mret app].
  rewrite Z.add_0_l, u16_small by lia. unfold ctrl_combine. rewrite byte_count. cbn [for_each].
  set (ki := mkKeyInfo _ b _ _). pose proof (ctrl_combine_field ki [] (Z.to_nat (ceil8 (kj_width k)))) as E.
  cbn [app] in E. change (zlen []) with 0 in E. unfold zlen in Hl. subst ki. cbn [field byte_len tail_offset] in *.
  rewrite E; [|done|done|unfold ceil8; dlia|lia|unfold ceil8; dlia]. cbn [mbind res_mbind].
  replace (Z.to_nat (ceil8 (kj_width k)) - length b)%nat with 0%nat by lia. by rewrite app_nil_r.
Qed.

(** Fields of whole bytes. *)
Definition whole_json (k : KeyJson) : Prop := key_json_ok k ∧ k.(kj_width) mod 8 = 0.

Definition whole_info (k : KeyJson) : KeyInfo := mkKeyInfo 0 k.(kj_value) (ceil8 k.(kj_width)) k.(kj_width).

Lemma key_info_whole `{Target} k :
  whole_json k → key_info k.(kj_width) k.(kj_value) = Ok (whole_info k) ∧ whole_field (whole_info k).
Proof.
  intros [Hk H8]. destruct (key_info_ok k Hk) as (b & Hi & Hb & Hl & Hv). destruct Hk as (Hw & Hvb & Hvl & _).
  assert (He : 8 * ceil8 (kj_width k) - kj_width k = 0) by (unfold ceil8; dlia). rewrite He in *.
  assert (b = kj_value k) as -> by (apply be_val_inj; [done..|lia|by rewrite Hv, Z.mul_1_r]).
  split; [exact Hi|]. split; cbn; [done|done|unfold ceil8; dlia|done].
Qed.

Definition total_width (js : list KeyJson) : Z := foldr Z.add 0 (kj_width <$> js).

Lemma extract_loop `{Target} js infos sum :
  Forall whole_json js →
  for_each (λ k '(infos, sum), ki ← key_info k.(kj_width) k.(kj_value);
      mret (infos ++ [ki], sum + k.(kj_width))) js (infos, sum) =
  Ok (infos ++ (whole_info <$> js), sum + total_width js).
Proof.
  intros Hj. revert infos sum. induction Hj as [|k js Hk _ IH]; intros infos sum; cbn [for_each].
  - cbn. by rewrite app_nil_r, Z.add_0_r.
  - destruct (key_info_whole k Hk) as [-> _]. cbn [mbind res_mbind mret res_mret]. rewrite IH.
    rewrite <- app_assoc. unfold total_width. cbn. by rewrite Z.add_assoc.
Qed.

Lemma whole_length js :
  Forall whole_json js → 8 * zlen (concat (kj_value <$> js)) = total_width js.
Proof.
  unfold total_width. induction 1 as [|k js [(Hw & Hb & Hl & _) H8] _ IH]; [done|]. cbn.
  rewrite zlen_app. assert (8 * ceil8 (kj_width k) = kj_width k) by (unfold ceil8; dlia). lia.
Qed.

Lemma extract_whole `{Target} js :
  Forall whole_json js → total_width js < 65536 →
  extract_exact js = Ok (concat (kj_value <$> js), zlen (concat (kj_value <$> js))).
Proof.
  intros Hj Hs. pose proof (whole_length js Hj) as Hlen. pose proof (zlen_nonneg (concat (kj_value <$> js))).
  unfold extract_exact. rewrite extract_loop by done. cbn [mbind res_mbind app]. rewrite Z.add_0_l, u16_small by lia.
  unfold ctrl_combine. rewrite byte_count.
  assert (Hf : fields_of (whole_info <$> js) = concat (kj_value <$> js)).
  { unfold fields_of. f_equal. by rewrite <- list_fmap_compose. }
  assert (ceil8 (total_width js) = zlen (concat (kj_value <$> js))) as -> by (unfold ceil8; dlia).
  pose proof (ctrl_combine_fields (whole_info <$> js) [] (Z.to_nat (zlen (concat (kj_value <$> js))))) as E.
  rewrite Hf in E. cbn [app] in E. change (zlen []) with 0 in E.
  rewrite E; [|apply Forall_fmap; eapply Forall_impl; [done|]; intros k Hk; by apply key_info_whole|unfold zlen; lia].
  cbn [mbind res_mbind]. unfold zlen. rewrite Nat2Z.id, Nat.sub_diag. by rewrite app_nil_r.
Qed.

(** *** What becomes of an entry of the file *)

(** A packet hits a table and gets a value, whose first 16 bits select its action. *)
Definition gets_value `{Target} (m : Mem) (th : MatcherThread) (value : list Z) (phv : PHV) : Prop :=
  ∃ ov, (∀ i, 0 ≤ i < zlen value → at_ ov i = at_ value i) ∧
    generate_match_key_and_match m th phv = Ok (set_next_action_id (at_ value 1 + 256 * at_ value 0)
      (set_match_value_len (zlen ov) (set_match_value (Some ov) (set_hit true phv)))).

(** An update file with one key field and parameters of whole bytes. *)
Lemma update_hits `{Target} j k f pl m th :
  ctrl_match_type j.(u_match_type) = EXACT → j.(u_keys) = [k] → key_json_ok k →
  Forall whole_json j.(u_action_para) → total_width j.(u_action_para) < 65536 →
  get_thread pl j.(u_proc_id) j.(u_matcher_id) = Ok th → keyed_by m th f → f.(fd_len) = k.(kj_width) →
  let value := concat (kj_value <$> j.(u_action_para)) in
  2 ≤ zlen value → fits (ceil8 k.(kj_width)) th.(key_width) → fits (zlen value) th.(sram_slice_value_width) →
  ∃ pl' m', update j (mkServer (Some pl) m) = Ok (1, mkServer (Some pl') m') ∧
    get_thread pl' j.(u_proc_id) j.(u_matcher_id) = Ok th ∧
    ∀ phv, phv_wf phv →
      let b := (at_ phv.(parsed_headers) f.(hdr_id)).(hdr_offset) + f.(internal_offset) in
      b + f.(fd_len) ≤ 8 * (FRONT_HEADER_LEN + META_LEN) →
      field_val phv.(packet) b f.(fd_len) = be_val k.(kj_value) →
      gets_value m' th value phv.
Proof.
  intros Hmt Hks Hk Hps Hw Hth Hkb Hlen value Hv Hkf Hvf.
  destruct (extract_one k Hk) as (key & Hx & Hb & Hl & Hkv).
  destruct (ppl_insert_hits j.(u_proc_id) j.(u_matcher_id) key value m pl th f) as (pl' & m' & Hins & Hth' & _ & Hh);
    [done|done|done|by rewrite Hl, Hlen|done|by rewrite Hl|done|].
  exists pl', m'. split; [|split; [done|]].
  - unfold update. rewrite Hmt, Hks, Hx.
    rewrite !decide_True by done. cbn [mbind res_mbind mret res_mret].
    unfold extract_action_para. rewrite extract_whole by done. cbn [mbind res_mbind]. fold value.
    destruct (fresh_ok (2 + zlen value)) as (nv & -> & Hnv & _); [lia|]. cbn [mbind res_mbind].
    rewrite wr_ok by lia. cbn [mbind res_mbind]. rewrite wr_ok by (rewrite zlen_insert; lia). cbn [mbind res_mbind].
    rewrite memcpy_eq by (rewrite ?zlen_insert; lia). cbn [mbind res_mbind].
    pose proof (call_direct (CInsertSramEntry j.(u_proc_id) j.(u_matcher_id) key value (zlen key) (zlen value))
      (mkServer (Some pl) m) (conj eq_refl eq_refl)) as Hd. cbn [call direct] in Hd. rewrite <- Hl, Hd.
    unfold on_ppl_mem. cbn [ppl mem]. by rewrite Hins.
  - intros phv Hp b Hend Hfv. apply (Hh phv Hp Hend). fold b. rewrite Hfv, Hkv. by rewrite Hlen.
Qed.

(** An entry that an update file adds to an exact table keyed by one field is hit
    by every packet whose field has the value of the file, and the parameters of the
    file are the value the packet gets; but the action it selects is the first 16
    bits of these parameters, and not the action the file names. *)
Lemma update_entry_hit `{Target} j k f pl m th :
  ctrl_match_type j.(u_match_type) = EXACT → j.(u_keys) = [k] → key_json_ok k →
  Forall whole_json j.(u_action_para) → total_width j.(u_action_para) < 65536 →
  get_thread pl j.(u_proc_id) j.(u_matcher_id) = Ok th → keyed_by m th f → f.(fd_len) = k.(kj_width) →
  let value := concat (kj_value <$> j.(u_action_para)) in
  2 ≤ zlen value → fits (ceil8 k.(kj_width)) th.(key_width) → fits (zlen value) th.(sram_slice_value_width) →
  ∃ pl' m', update j (mkServer (Some pl) m) = Ok (1, mkServer (Some pl') m') ∧
    get_thread pl' j.(u_proc_id) j.(u_matcher_id) = Ok th ∧
    ∀ phv, phv_wf phv →
      let b := (at_ phv.(parsed_headers) f.(hdr_id)).(hdr_offset) + f.(internal_offset) in
      b + f.(fd_len) ≤ 8 * (FRONT_HEADER_LEN + META_LEN) →
      field_val phv.(packet) b f.(fd_len) = be_val k.(kj_value) →
      ∃ ov, (∀ i, 0 ≤ i < zlen value → at_ ov i = at_ value i) ∧
        generate_match_key_and_match m' th phv = Ok (set_next_action_id (at_ value 1 + 256 * at_ value 0)
          (set_match_value_len (zlen ov) (set_match_value (Some ov) (set_hit true phv)))).
Proof.
  intros Hmt Hks Hk Hps Hw Hth Hkb Hlen value Hv Hkf Hvf.
  destruct (update_hits j k f pl m th) as (pl' & m' & Hrun & Hth' & Hall); [done..|].
  exists pl', m'. split; [done|]. split; [done|]. intros phv Hp b Hend Hfv. exact (Hall phv Hp Hend Hfv).
Qed.

Lemma be_one x : be_val [x] = x.
Proof. cbn [be_val]. change (256 ^ zlen []) with 1. lia. Qed.

(** The controller and the data plane build different keys from two fields of a
    byte: the controller puts one after the other, the data plane adds them up, so
    that an entry whose second field is not zero is not found by the packets it was
    made for. *)
Lemma two_field_keys_disagree `{Target} phv f g hf hg a b :
  phv_wf phv → header_of phv f.(hdr_id) = Ok hf → header_of phv g.(hdr_id) = Ok hg →
  f.(fd_type) = FIELD → g.(fd_type) = FIELD → f.(fd_len) = 8 → g.(fd_len) = 8 →
  0 ≤ f.(internal_offset) → 0 ≤ g.(internal_offset) →
  hf.(hdr_offset) + f.(internal_offset) + 8 ≤ 8 * (FRONT_HEADER_LEN + META_LEN) →
  hg.(hdr_offset) + g.(internal_offset) + 8 ≤ 8 * (FRONT_HEADER_LEN + META_LEN) →
  field_val phv.(packet) (hf.(hdr_offset) + f.(internal_offset)) 8 = a →
  field_val phv.(packet) (hg.(hdr_offset) + g.(internal_offset)) 8 = b →
  extract_exact [mkKeyJson 8 [a] []; mkKeyJson 8 [b] []] = Ok ([a; b], 2) ∧
  (kf ← get_field f phv; kg ← get_field g phv; combine_to_single_key [kf; kg] 16) = Ok [u8 (a + b); 0] ∧
  (b ≠ 0 → [a; b] ≠ [u8 (a + b); 0]).
Proof.
  intros Hp Hhf Hhg Htf Htg Hlf Hlg Hof Hog Hef Heg Ha Hb.
  pose proof (header_wf_of _ _ _ Hp Hhf) as [? _]. pose proof (header_wf_of _ _ _ Hp Hhg) as [? _].
  pose proof (field_val_range phv.(packet) (hf.(hdr_offset) + f.(internal_offset)) 8 ltac:(lia)) as Hra.
  pose proof (field_val_range phv.(packet) (hg.(hdr_offset) + g.(internal_offset)) 8 ltac:(lia)) as Hrb.
  change (2 ^ 8) with 256 in *. rewrite Ha in Hra. rewrite Hb in Hrb.
  assert (Hone : ∀ x, 0 ≤ x < 256 → whole_json (mkKeyJson 8 [x] [])).
  { intros x Hx. split; [|done]. split; [cbn; lia|]. split; [by apply Forall_singleton|]. cbn [kj_value kj_width]. split; [done|]. rewrite be_one. simpl. lia. }
  split; [|split].
  - rewrite extract_whole; [done|by apply Forall_cons; split; [apply Hone|apply Forall_singleton, Hone]|done].
  - rewrite <- (wf_packet_len _ Hp) in Hef, Heg. pose proof (wf_packet _ Hp).
    destruct (get_field_key f phv hf) as (kf & -> & Hkb & Hkl & Hkv); rewrite ?Hlf, ?Htf; try (done || lia).
    destruct (get_field_key g phv hg) as (kg & -> & Hgb & Hgl & Hgv); rewrite ?Hlg, ?Htg; try (done || lia).
    rewrite Hlf in *. rewrite Hlg in *. cbn [mbind res_mbind].
    assert (kf = [a]) as ->.
    { apply be_val_inj; [done|by apply Forall_singleton|by rewrite Hkl|]. rewrite Hkv, Ha, be_one. change (2 ^ (8 * ceil8 8 - 8)) with 1. lia. }
    assert (kg = [b]) as ->.
    { apply be_val_inj; [done|by apply Forall_singleton|by rewrite Hgl|]. rewrite Hgv, Hb, be_one. change (2 ^ (8 * ceil8 8 - 8)) with 1. lia. }
    by apply combine_two_bytes.
  - by intros Hb0 [= _ ->].
Qed.

Definition demo_update : UpdateJson := {|
  u_proc_id := 0; u_matcher_id := 0; u_action_id := 2; u_match_type := "EXACT";
  u_keys := [mkKeyJson 16 [0; 0] []]; u_action_para := [mkKeyJson 48 [0; 5; 0; 0; 255; 0] []] |}.

Lemma update_entry_hit_witness :
  ∃ pl' m', update (H := x86) demo_update (mkServer (Some (demo_pipeline EXACT)) init_mem) =
      Ok (1, mkServer (Some pl') m') ∧
    ∃ ov, generate_match_key_and_match (H := x86) m' (demo_thread0 EXACT) (PHV_init (H := x86)) =
      Ok (set_next_action_id 5 (set_match_value_len (zlen ov) (set_match_value (Some ov)
        (set_hit true (PHV_init (H := x86)))))).
Proof.
  destruct (update_entry_hit (H := x86) demo_update (mkKeyJson 16 [0; 0] []) (mkFieldInfo 0 0 16 FIELD) (demo_pipeline EXACT)
    init_mem (demo_thread0 EXACT)) as (pl' & m' & Hrun & _ & Hall).
  - reflexivity.
  - reflexivity.
  - split; [cbn; lia|]. split; [repeat constructor; lia|]. split; [reflexivity|]. vm_compute. reflexivity.
  - constructor; [|constructor]. split; [|reflexivity].
    split; [cbn; lia|]. split; [repeat constructor; lia|]. split; [reflexivity|]. vm_compute. reflexivity.
  - vm_compute. reflexivity.
  - reflexivity.
  - apply demo_keyed.
  - reflexivity.
  - vm_compute. discriminate.
  - split; vm_compute; discriminate.
  - split; vm_compute; discriminate.
  - exists pl', m'. split; [exact Hrun|].
    destruct (Hall (PHV_init (H := x86)) (PHV_init_wf (H := x86))) as (ov & _ & Hmatch).
    + vm_compute. discriminate.
    + reflexivity.
    + exists ov. exact Hmatch.
Defined.

Lemma two_field_keys_disagree_witness :
  extract_exact (H := x86) [mkKeyJson 8 [5] []; mkKeyJson 8 [7] []] = Ok ([5; 7], 2) ∧
  (kf ← get_field (H := x86) (mkFieldInfo 0 0 8 FIELD) demo_parse_phv;
   kg ← get_field (H := x86) (mkFieldInfo 0 8 8 FIELD) demo_parse_phv;
   combine_to_single_key [kf; kg] 16) = Ok [12; 0].
Proof.
  destruct (two_field_keys_disagree (H := x86) demo_parse_phv (mkFieldInfo 0 0 8 FIELD) (mkFieldInfo 0 8 8 FIELD)
    (mkHeaderInfo 0 0 0) (mkHeaderInfo 0 0 0) 5 7) as (H1 & H2 & _).
  - apply demo_parse_wf.
  - reflexivity.
  - reflexivity.
  - reflexivity.
  - reflexivity.
  - reflexivity.
  - reflexivity.
  - cbn. lia.
  - cbn. lia.
  - vm_compute. discriminate.
  - vm_compute. discriminate.
  - reflexivity.
  - reflexivity.
  - split; [exact H1|exact H2].
Defined.
