(* ===== verification/Configure.v ===== *)
(** * The controller: configuring the switch (ctrl_init_dataplane.h)

    The program reads the file the compiler writes and makes the calls that set the
    processors up: for each of the processors named in the file its parser, its
    gateway, its match tables and its actions, and the metadata of the switch. As for
    the updates of tables, a file is given as the values read from it. *)

From stdpp Require Import base numbers list gmap strings.
From Stdlib Require Import ZArith Lia.
From S2P Require Import Prelude Bits Phv Parser Executor Gateway Matcher Pipeline Server Client Controller.

#[local] Open Scope Z_scope.

(** ** The file *)
Record FieldJson : Set := mkFieldJson {
  j_header_id : Z; j_field_internal_offset : Z; j_field_length : Z; j_type : string
}.

Record ParserEntryJson : Set := mkParserEntryJson {
  j_current_state : Z; j_entry : Z; j_mask : Z;
  j_hdr_id : Z; j_header_length : Z; j_next_state : Z; j_transition_field_num : Z; j_accept_drop : Z;
  j_transition_fields : list FieldJson
}.
Record ParserJson : Set := mkParserJson { j_parser_level : Z; j_levels : list (list ParserEntryJson) }.

(** An operand of a comparison or a leaf of an expression: the member "type" selects
    the reading of the member "value".  [JExpr] is an operator with its name. *)
Inductive JValue : Set := JConst (n : Z) | JField (f : FieldJson) | JParam (n : Z) | JExpr (op : string).

Record ExprJson : Set := mkExprJson { j_op : string; j_left : JValue; j_right : JValue }.
Record EntryJson : Set := mkEntryJson { j_ge_type : string; j_ge_value : Z }.
Record GatewayJson : Set := mkGatewayJson {
  j_expressions : list ExprJson; j_default : EntryJson; j_entries : list (Z * EntryJson)
}.

Record MatcherJson : Set := mkMatcherJson {
  j_matcher_id : Z; j_miss_action_id : Z; j_no_table : Z; j_match_type : string;
  j_depth : Z; j_key_width : Z; j_key_config : list Z;
  j_value_width : Z; j_value_config : list Z;
  j_action_to_proc : list (Z * Z); j_field_infos : list FieldJson
}.

(** An expression; [JNone] is a child that is absent. *)
Inductive JTree : Set := JNone | JNode (v : JValue) (left right : JTree).

Record ActionJson : Set := mkActionJson {
  j_action_id : Z; j_parameter_num : Z; j_parameters_lengths : list Z;
  j_primitives : list (FieldJson * JTree)
}.

Record ProcessorJson : Set := mkProcessorJson {
  j_parser : ParserJson; j_gateway : GatewayJson; j_matcher : list MatcherJson; j_executor : list ActionJson
}.
Record MetaJson : Set := mkMetaJson { j_meta_id : Z; j_meta_length : Z; j_meta_offset : Z }.

(** Processor [i] of the file, or null. *)
Record ConfigJson : Set := mkConfigJson { j_processors : list (option ProcessorJson); j_metadata : list MetaJson }.

(** ** Conversions: an unknown name gives the first constant of the enumeration *)
Definition ctrl_field_type (s : string) : FieldType :=
  if bool_decide (s = "VALID"%string) then VALID else if bool_decide (s = "HIT"%string) then HIT
  else if bool_decide (s = "MISS"%string) then MISS else FIELD.

Definition ctrl_relation_code (op : string) : RelationCode :=
  if bool_decide (op = "=="%string) then EQ else if bool_decide (op = "!="%string) then NEQ
  else if bool_decide (op = ">="%string) then GTE else if bool_decide (op = "<"%string) then LT
  else if bool_decide (op = "<="%string) then LTE else GT.

Definition ctrl_gate_entry_type (s : string) : GateEntryType :=
  if bool_decide (s = "STAGE"%string) then STAGE else TABLE.

Definition ctrl_op_code (op : string) : OpCode :=
  if bool_decide (op = "-"%string) then SUB else if bool_decide (op = "&"%string) then BIT_AND
  else if bool_decide (op = "|"%string) then BIT_OR else if bool_decide (op = "~"%string) then BIT_NEG
  else if bool_decide (op = "^"%string) then BIT_XOR else if bool_decide (op = ">>"%string) then SHIFT_RIGHT
  else if bool_decide (op = "<<"%string) then SHIFT_LEFT else ADD.

Definition ctrl_field (f : FieldJson) : FieldInfo :=
  mkFieldInfo (u8 f.(j_header_id)) (u16 f.(j_field_internal_offset)) (u16 f.(j_field_length)) (ctrl_field_type f.(j_type)).

(** A call whose return code is printed. *)
Definition do_call `{Target} (c : Call) (st : ServerState) : res ServerState :=
  '(_, st) ← call c st; mret st.

(** ** The parser *)

(** The objects of the variable [fd] of a loop body, one for each turn: the turn's
    object is alive until the turn ends. The address of an object is its place. *)
Abbreviation objects := (list (option FieldInfo)) (only parsing).

Definition declare (fd : FieldInfo) (objs : objects) : nat * objects := (length objs, objs ++ [Some fd]).
Definition end_lifetime (p : nat) (objs : objects) : objects := <[p := None]> objs.
Definition read_object (objs : objects) (p : nat) : res FieldInfo :=
  match objs !! p with Some (Some fd) => Ok fd | _ => Fault UseAfterFree end.

(** The vector [fd_infos] of addresses, and the objects when the loop is over. *)
Definition transition_fields (tfs : list FieldJson) : list nat * objects :=
  fold_left (λ '(fd_infos, objs) tf,
    let '(p, objs) := declare (ctrl_field tf) objs in
    (fd_infos ++ [p], end_lifetime p objs)) tfs ([], []).

Definition extract_parser_entry `{Target} (proc_id level_id : Z) (e : ParserEntryJson) (st : ServerState)
    : res ServerState :=
  let '(fd_infos, objs) := transition_fields e.(j_transition_fields) in
  fds ← collect (read_object objs) fd_infos;
  do_call (CModParserEntry proc_id level_id e.(j_current_state) (u32 e.(j_entry)) (u32 e.(j_mask)) e.(j_hdr_id)
    e.(j_header_length) e.(j_next_state) e.(j_transition_field_num) fds (u8 e.(j_accept_drop))) st.

Definition extract_parser `{Target} (j : ParserJson) (proc_id : Z) (st : ServerState) : res ServerState :=
  st ← do_call (CInitParserLevel proc_id j.(j_parser_level)) st;
  '(st, _) ← for_each (λ level '(st, level_id),
    st ← for_each (extract_parser_entry proc_id level_id) level st;
    mret (st, level_id + 1)) j.(j_levels) (st, 0);
  mret st.

(** ** The gateway *)
Definition set_gate_param `{Target} (v : JValue) : res GateParam :=
  match v with
  | JConst n => d ← get_uints n 32; mret (GCONSTANT (mkData 32 d))
  | JField f => mret (GFIELD (ctrl_field f))
  | _ => mret GOTHER
  end.

Definition extract_gateway `{Target} (j : GatewayJson) (proc_id : Z) (st : ServerState) : res ServerState :=
  st ← do_call (CClearRelationExp proc_id) st;
  st ← for_each (λ e st,
    p1 ← set_gate_param e.(j_left);
    p2 ← set_gate_param e.(j_right);
    do_call (CInsertRelationExp proc_id (mkRelationExp p1 p2 (ctrl_relation_code e.(j_op)))) st) j.(j_expressions) st;
  st ← do_call (CSetDefaultGateEntry proc_id (ctrl_gate_entry_type j.(j_default).(j_ge_type))
         j.(j_default).(j_ge_value)) st;
  for_each (λ '(bitmap, value) st,
    do_call (CModResMap proc_id bitmap (ctrl_gate_entry_type value.(j_ge_type)) value.(j_ge_value)) st)
    j.(j_entries) st.

(** ** The match tables; [no_table] is read and not used *)
Definition extract_matcher_thread `{Target} (proc_id : Z) (t : MatcherJson) (st : ServerState) : res ServerState :=
  key_config ← fresh (t.(j_depth) * t.(j_key_width));
  key_config ← json_bytes t.(j_key_config) key_config;
  value_config ← fresh (t.(j_depth) * t.(j_value_width));
  value_config ← json_bytes t.(j_value_config) value_config;
  st ← do_call (CSetMemConfig proc_id t.(j_matcher_id) t.(j_key_width) t.(j_value_width) key_config value_config
         (ctrl_match_type t.(j_match_type)) t.(j_depth) t.(j_miss_action_id)) st;
  let action_proc_map : gmap Z Z := fold_left (λ m kv, <[kv.1 := kv.2]> m) t.(j_action_to_proc) ∅ in
  st ← do_call (CSetActionProc proc_id t.(j_matcher_id) action_proc_map) st;
  do_call (CSetFieldInfo proc_id t.(j_matcher_id) (ctrl_field <$> t.(j_field_infos))) st.

Definition extract_matcher `{Target} (j : list MatcherJson) (proc_id : Z) (st : ServerState) : res ServerState :=
  for_each (extract_matcher_thread proc_id) j st.

(** ** The actions *)
Definition ctrl_node `{Target} (v : JValue) : res Parameter_ :=
  match v with
  | JExpr op => mret (OPERATOR (ctrl_op_code op))
  | JField f => mret (PFIELD (ctrl_field f))
  | JParam n => mret (PARAM n)
  | JConst n => d ← get_uints n 32; mret (CONSTANT (mkData 32 d))
  end.

Fixpoint ctrl_exp_tree `{Target} (t : JTree) : res ExpTreeNode :=
  match t with
  | JNone => mret NullNode
  | JNode v l r =>
      o ← ctrl_node v;
      l ← ctrl_exp_tree l;
      r ← ctrl_exp_tree r;
      mret (Node o l r)
  end.

Definition extract_action `{Target} (proc_id : Z) (a : ActionJson) (st : ServerState) : res ServerState :=
  prims ← collect (λ '(lv, rv), root ← ctrl_exp_tree rv; mret (mkPrimitive (Some (ctrl_field lv)) root)) a.(j_primitives);
  do_call (CInsertAction proc_id a.(j_action_id) a.(j_parameter_num) prims a.(j_parameters_lengths)) st.

Definition extract_executor `{Target} (j : list ActionJson) (proc_id : Z) (st : ServerState) : res ServerState :=
  for_each (extract_action proc_id) j st.

(** ** The metadata, and the whole file *)
Definition extract_metadata `{Target} (j : list MetaJson) (st : ServerState) : res ServerState :=
  do_call (CSetMetadata ((λ m, mkHeaderInfo (u8 m.(j_meta_id)) (u16 m.(j_meta_offset)) (u16 m.(j_meta_length))) <$> j)) st.

Definition extract_processor `{Target} (metadata : list MetaJson) (i : Z) (p : ProcessorJson) (st : ServerState)
    : res ServerState :=
  st ← extract_parser p.(j_parser) i st;
  st ← extract_gateway p.(j_gateway) i st;
  st ← extract_matcher p.(j_matcher) i st;
  st ← extract_executor p.(j_executor) i st;
  extract_metadata metadata st.

(** [extract]: the processors 0 to 15 of the file, those that are null left out. *)
Definition extract `{Target} (j : ConfigJson) (st : ServerState) : res ServerState :=
  for_lt 0 16 (λ i st,
    processor ← rd j.(j_processors) i;
    match processor with
    | None => mret st
    | Some p => extract_processor j.(j_metadata) i p st
    end) st.

(** ** A table of the file *)

(** A table the compiler writes: exact, on blocks of its own, keyed by one field. *)
Record table_json_ok (t : MatcherJson) (fj : FieldJson) : Prop := {
  tj_type : ctrl_match_type t.(j_match_type) = EXACT;
  tj_config : config_ok t.(j_key_width) t.(j_value_width) t.(j_depth) t.(j_key_config) t.(j_value_config);
  tj_key : zlen t.(j_key_config) = t.(j_key_width) * t.(j_depth) ∧ bytes t.(j_key_config);
  tj_value : zlen t.(j_value_config) = t.(j_value_width) * t.(j_depth) ∧ bytes t.(j_value_config);
  tj_fields : t.(j_field_infos) = [fj];
  tj_field : (ctrl_field fj).(fd_type) ≠ VALID;
  tj_hdr : (ctrl_field fj).(hdr_id) < 32;
  tj_len : 1 ≤ (ctrl_field fj).(fd_len)
}.

(** The map the file gives, the last processor of an action that is named twice. *)
Definition action_map (t : MatcherJson) : gmap Z Z :=
  fold_left (λ m kv, <[kv.1 := kv.2]> m) t.(j_action_to_proc) ∅.

(** What the calls for a table leave in its thread. *)
Record table_installed (t : MatcherJson) (fj : FieldJson) (m : Mem) (th : MatcherThread) : Prop := {
  ti_keyed : keyed_by m th (ctrl_field fj);
  ti_table : th.(no_table) = false;
  ti_miss : th.(miss_act_id) = t.(j_miss_action_id);
  ti_map : th.(action_proc_map) = action_map t;
  ti_kw : th.(key_width) = t.(j_key_width);
  ti_vw : th.(sram_slice_value_width) = t.(j_value_width)
}.

Lemma ctrl_field_ok f : field_ok (ctrl_field f).
Proof. split; cbn; [apply u8_range|apply u16_range..]. Qed.

Lemma fresh_json `{Target} n vals :
  zlen vals = n → bytes vals → (b ← fresh n; json_bytes vals b) = Ok vals.
Proof.
  intros <- Hb. destruct (fresh_ok (zlen vals)) as (b & -> & Hl & _); [apply zlen_nonneg|]. by apply json_bytes_all.
Qed.

Lemma do_call_direct `{Target} c st : call_ok c → do_call c st = ('(_, st') ← direct c st; Ok st').
Proof. intros Hc. unfold do_call. rewrite call_direct by done. by destruct (direct c st) as [[]|]. Qed.

(** A call on one thread of the switch. *)
Lemma do_call_thread `{Target} c pl proc mid m th f :
  get_thread pl proc mid = Ok th → call_ok c →
  direct c = on_ppl (on_proc proc (on_matcher (on_thread mid f))) →
  do_call c (mkServer (Some pl) m) = Ok (mkServer (Some (put_thread proc mid (f th) pl)) m).
Proof.
  intros Hth Hok Hd. rewrite do_call_direct by done. rewrite Hd. unfold on_ppl. cbn [ppl mem].
  by rewrite (thread_op _ _ _ _ th).
Qed.

Lemma table_installs `{Target} proc t fj pl m th :
  get_thread pl proc t.(j_matcher_id) = Ok th → unconfigured th → zlen m.(srams) = SRAM_NUM_ALL →
  table_json_ok t fj →
  ∃ th', extract_matcher_thread proc t (mkServer (Some pl) m) =
      Ok (mkServer (Some (put_thread proc t.(j_matcher_id) th' pl)) m) ∧ table_installed t fj m th'.
Proof.
  intros Hth Hun Hm [Hty Hcf [Hkl Hkb] [Hvl Hvb] Hfs Hf Hh Hl]. unfold extract_matcher_thread.
  rewrite <- bind_assoc, fresh_json by (done || lia). cbn [mbind res_mbind].
  rewrite <- bind_assoc, fresh_json by (done || lia). cbn [mbind res_mbind]. fold (action_map t).
  destruct (setMemConfig_installs proc t.(j_matcher_id) t.(j_key_width) t.(j_value_width) t.(j_key_config)
    t.(j_value_config) t.(j_depth) t.(j_miss_action_id) m pl th) as (th1 & Hrun & []); [done..|].
  rewrite Hty, do_call_direct by done.
  match goal with |- context [direct ?c ?s] => change (direct c s) with (setMemConfig proc t.(j_matcher_id) t.(j_key_width)
    t.(j_value_width) t.(j_key_config) t.(j_value_config) 0 t.(j_depth) t.(j_miss_action_id) s) end.
  rewrite Hrun. cbn [mbind res_mbind mret res_mret].
  pose proof (get_put pl proc _ th th1 Hth) as Hth1. 
  rewrite (do_call_thread (CSetActionProc proc t.(j_matcher_id) (action_map t)) _ proc t.(j_matcher_id) _ th1
    (set_action_proc_map (map_to_list (action_map t))) Hth1 I eq_refl).
  cbn [mbind res_mbind]. rewrite Hfs. cbn [fmap list_fmap].
  pose proof (get_put _ proc _ th1 (set_action_proc_map (map_to_list (action_map t)) th1) Hth1) as Hth2.
  rewrite (do_call_thread (CSetFieldInfo proc t.(j_matcher_id) [ctrl_field fj]) _ proc t.(j_matcher_id) _ _
    (set_field_info [ctrl_field fj]) Hth2); [|by apply Forall_singleton, ctrl_field_ok|done].
  rewrite !put_put. eexists. split; [done|]. pose proof (ctrl_field_ok fj) as []. split; try done.
  - split; try done; try lia. destruct is_wf as [? ? ? ? ? [] [] ?]. split; try done; split; try done.
  - unfold set_field_info, set_action_proc_map. cbn [action_proc_map with_misc]. rewrite is_map. apply map_sent.
Qed.

(** The controller's calls for an exact table of its file, on a thread that was
    not configured before, leave the thread as the file describes it: a sound exact
    table on the blocks of the file, keyed by the field of the file, with its miss
    action and its map from actions to processors; the other threads, the rest of the
    pipeline and the memory stay as they were. *)
Lemma table_as_described `{Target} proc t fj pl m th :
  get_thread pl proc t.(j_matcher_id) = Ok th → unconfigured th → zlen m.(srams) = SRAM_NUM_ALL →
  table_json_ok t fj →
  ∃ th', extract_matcher_thread proc t (mkServer (Some pl) m) =
      Ok (mkServer (Some (put_thread proc t.(j_matcher_id) th' pl)) m) ∧
    get_thread (put_thread proc t.(j_matcher_id) th' pl) proc t.(j_matcher_id) = Ok th' ∧
    table_installed t fj m th'.
Proof.
  intros Hth Hun Hm Ht. destruct (table_installs proc t fj pl m th) as (th' & Hrun & Hti); [done..|].
  exists th'. split; [done|]. split; [by eapply get_put|done].
Qed.

(** C8. Controller and data plane together: when the controller has configured an
    exact table and then added an entry of an update file to it, every packet whose
    key field has the value of the entry hits the table and gets the parameters of
    the entry, the first 16 bits of which choose its action. *)
Theorem configured_then_filled `{Target} proc t fj j k pl m th :
  get_thread pl proc t.(j_matcher_id) = Ok th → unconfigured th → zlen m.(srams) = SRAM_NUM_ALL →
  table_json_ok t fj →
  j.(u_proc_id) = proc → j.(u_matcher_id) = t.(j_matcher_id) →
  ctrl_match_type j.(u_match_type) = EXACT → j.(u_keys) = [k] → key_json_ok k →
  (ctrl_field fj).(fd_len) = k.(kj_width) →
  Forall whole_json j.(u_action_para) → total_width j.(u_action_para) < 65536 →
  let value := concat (kj_value <$> j.(u_action_para)) in
  2 ≤ zlen value → fits (ceil8 k.(kj_width)) t.(j_key_width) → fits (zlen value) t.(j_value_width) →
  ∃ st pl' m' th', extract_matcher_thread proc t (mkServer (Some pl) m) = Ok st ∧
    update j st = Ok (1, mkServer (Some pl') m') ∧
    get_thread pl' proc t.(j_matcher_id) = Ok th' ∧ th'.(no_table) = false ∧ th'.(action_proc_map) = action_map t ∧
    ∀ phv, phv_wf phv →
      let f := ctrl_field fj in
      let b := (at_ phv.(parsed_headers) f.(hdr_id)).(hdr_offset) + f.(internal_offset) in
      b + f.(fd_len) ≤ 8 * (FRONT_HEADER_LEN + META_LEN) →
      field_val phv.(packet) b f.(fd_len) = be_val k.(kj_value) →
      gets_value m' th' value phv.
Proof.
  intros Hth Hun Hm Ht <- Hmid Hmt Hks Hk Hlen Hps Hw value Hv Hkf Hvf.
  destruct (table_installs j.(u_proc_id) t fj pl m th) as (th' & Hrun & [Hkb Hnt Hms Hap Hkw Hvw]); [done..|].
  rewrite <- Hmid in *.
  destruct (update_hits j k (ctrl_field fj) (put_thread j.(u_proc_id) j.(u_matcher_id) th' pl) m th')
    as (pl' & m' & Hup & Hget & Hall); try done; [by eapply get_put|by rewrite Hkw|by rewrite Hvw|].
  eexists _, pl', m', th'. repeat (split; [done|]). exact Hall.
Qed.


(** ** Files that can not be loaded *)
(** Calls keep the number of processors. *)
Definition has_procs (n : Z) (st : ServerState) : Prop := ∃ pl, st.(ppl) = Some pl ∧ zlen pl.(procs) = n.

Lemma call_stub `{Target} c st r : call c st = Ok r → ∃ q, stub q st = Ok r.
Proof.
  destruct c; cbn [call]; autounfold with client; intros Hrun;
    repeat match type of Hrun with _ ≫= _ = Ok _ => apply bind_ok_inv in Hrun as (? & _ & Hrun) end; eauto.
Qed.

Lemma do_call_procs `{Target} n c st st' : has_procs n st → do_call c st = Ok st' → has_procs n st'.
Proof.
  intros (pl & Hpl & Hn) Hrun. unfold do_call in Hrun. apply bind_ok_inv in Hrun as ([r st1] & Hc & [= <-]).
  apply call_stub in Hc as (q & Hq). unfold stub in Hq. apply bind_ok_inv in Hq as ([s st2] & Hq & [= _ <-]).
  destruct st as [p m]. cbn in Hpl. subst p. destruct (request_proc q) as [i|] eqn:Hreq.
  - destruct (request_only_proc q i m pl s st2 Hreq Hq) as (_ & p' & Hp' & []). exists p'. split; [done|congruence].
  - destruct q; try discriminate Hreq. apply on_ppl_inv in Hq as (_ & p' & [= <-] & ->). by eexists.
Qed.

(** Splits a successful run of bound steps. *)
Ltac run_steps H :=
  repeat match type of H with
  | _ ≫= _ = Ok _ => let x := fresh "st" in apply bind_ok_inv in H as (x & ? & H);
      try match type of x with (_ * _)%type => destruct x end
  end.

Section keeps.
Context `{Target} (n : Z).
Abbreviation keeps f := (∀ st st', has_procs n st → f st = Ok st' → has_procs n st') (only parsing).

Lemma parser_entry_procs i l e : keeps (extract_parser_entry i l e).
Proof. intros st st' Hn Hrun. unfold extract_parser_entry in Hrun. destruct (transition_fields _). run_steps Hrun. by eapply do_call_procs. Qed.

Lemma parser_procs j i : keeps (extract_parser j i).
Proof.
  intros st st' Hn Hrun. unfold extract_parser in Hrun. apply bind_ok_inv in Hrun as (st1 & Hc & Hrun).
  apply bind_ok_inv in Hrun as ([st2 k2] & Hl & [= <-]). apply (do_call_procs n) in Hc; [|done].
  apply (for_each_ok (λ s, has_procs n s.1)) in Hl as [? _]; [done| |done].
  intros level [s k] s' Hs Hlev. cbn beta iota in Hlev. apply bind_ok_inv in Hlev as (s1 & Hlev & [= <-]).
  by apply (for_each_ok (has_procs n)) in Hlev as [? _]; [|apply parser_entry_procs|].
Qed.

Lemma gateway_procs j i : keeps (extract_gateway j i).
Proof.
  intros st st' Hn Hrun. unfold extract_gateway in Hrun. apply bind_ok_inv in Hrun as (st1 & Hc & Hrun).
  apply bind_ok_inv in Hrun as (st2 & He & Hrun). apply bind_ok_inv in Hrun as (st3 & Hd & Hrun).
  apply (do_call_procs n) in Hc; [|done]. apply (for_each_ok (has_procs n)) in He as [He _]; [| |done].
  - apply (do_call_procs n) in Hd; [|done]. apply (for_each_ok (has_procs n)) in Hrun as [? _]; [done| |done].
    intros [b v] s s' Hs Hb. by eapply do_call_procs.
  - intros e s s' Hs Hb. run_steps Hb. by eapply do_call_procs.
Qed.

Lemma matcher_procs j i : keeps (extract_matcher j i).
Proof.
  intros st st' Hn Hrun. eapply (for_each_ok (has_procs n)) in Hrun as [? _]; [done| |done].
  intros t s s' Hs Ht. unfold extract_matcher_thread in Ht. run_steps Ht. eauto using do_call_procs.
Qed.

Lemma executor_procs j i : keeps (extract_executor j i).
Proof.
  intros st st' Hn Hrun. eapply (for_each_ok (has_procs n)) in Hrun as [? _]; [done| |done].
  intros a s s' Hs Ha. unfold extract_action in Ha. run_steps Ha. eauto using do_call_procs.
Qed.

Lemma processor_procs md i p : keeps (extract_processor md i p).
Proof.
  intros st st' Hn Hrun. unfold extract_processor in Hrun. run_steps Hrun.
  eauto 7 using do_call_procs, parser_procs, gateway_procs, matcher_procs, executor_procs.
Qed.

(** Every processor of a file that is loaded was set up. *)
Lemma extract_reaches j st st' i p :
  has_procs n st → extract j st = Ok st' → 0 ≤ i < 16 → rd j.(j_processors) i = Ok (Some p) →
  ∃ t t', has_procs n t ∧ extract_processor j.(j_metadata) i p t = Ok t'.
Proof.
  intros Hn Hrun Hi Hp. unfold extract, for_lt in Hrun.
  eapply (for_up_ok (has_procs n)) in Hrun as (t & t' & Ht & Hb); [| |done|exact Hi].
  - rewrite Hp in Hb. by exists t, t'.
  - intros k s s' Hs Hb. run_steps Hb. destruct st0; [by eapply processor_procs|by injection Hb as <-].
Qed.
End keeps.

(** The client reads every object after its lifetime. *)
Lemma transition_fields_dead tfs :
  ∃ fd_infos objs, transition_fields tfs = (fd_infos, objs) ∧ length fd_infos = length tfs ∧
    length objs = length tfs ∧ Forall (λ o, o = None) objs.
Proof.
  unfold transition_fields. induction tfs as [|tf tfs (fd_infos & objs & Hf & Hl & Ho & Hn)] using rev_ind; [by exists [], []|].
  rewrite fold_left_app, Hf. cbn [fold_left declare]. eexists _, _. split; [done|].
  unfold end_lifetime. rewrite !length_app, length_insert, length_app. cbn. split; [lia|]. split; [lia|].
  rewrite insert_app_r_alt by lia. rewrite Nat.sub_diag. apply Forall_app. split; [done|]. by constructor.
Qed.

Lemma dead_read tfs : tfs ≠ [] → let '(fd_infos, objs) := transition_fields tfs in
  collect (read_object objs) fd_infos = Fault UseAfterFree.
Proof.
  intros Hne. destruct (transition_fields_dead tfs) as (fd_infos & objs & -> & Hl & _ & Hn).
  destruct fd_infos as [|p ps]; [by destruct tfs|]. unfold collect. cbn [for_each]. unfold read_object.
  destruct (objs !! p) as [o|] eqn:E; [|done]. by rewrite (Forall_lookup_1 _ _ _ _ Hn E).
Qed.

(** What C++ gives no meaning to: a file with a transition field makes the controller
    hand the client the address of a variable that is gone, which the client reads; a
    file that describes a processor the data plane does not have makes it go outside
    the array of the processors, though the controller goes on to processor 15. *)
Lemma unloadable_files `{Target} j st n i p :
  has_procs n st → 0 ≤ i < 16 → rd j.(j_processors) i = Ok (Some p) →
  n ≤ i ∨ (∃ l e, l ∈ p.(j_parser).(j_levels) ∧ e ∈ l ∧ e.(j_transition_fields) ≠ []) →
  ∀ st', extract j st ≠ Ok st'.
Proof.
  intros Hn Hi Hp Hbad st' Hrun. destruct (extract_reaches n j st st' i p) as (t & t' & Ht & Hx); [done..|].
  unfold extract_processor in Hx. apply bind_ok_inv in Hx as (t1 & Hx & _). unfold extract_parser in Hx.
  apply bind_ok_inv in Hx as (t2 & Hc & Hx). destruct Hbad as [Hni|(l & e & Hl & He & Htf)].
  - destruct Ht as (pl & Hpl & Hlen). destruct t as [q m]. cbn in Hpl. subst q. unfold do_call in Hc.
    apply bind_ok_inv in Hc as (? & Hc & _). unfold call, cli_init_parser_level, stub, handle, initParserLevel, on_ppl in Hc.
    cbn [ppl] in Hc. unfold ppl_init_parser_level in Hc. rewrite on_proc_oob in Hc by lia. done.
  - apply bind_ok_inv in Hx as ([t3 k] & Hx & _).
    apply (for_each_ok (λ _, True)) in Hx as [_ Hx]; [|done|done].
    destruct (Hx l Hl) as ([t4 k4] & t5 & Hb). cbn beta iota in Hb. apply bind_ok_inv in Hb as (t6 & Hb & _).
    apply (for_each_ok (λ _, True)) in Hb as [_ Hb]; [|done|done]. destruct (Hb e He) as (t7 & t8 & Hbe).
    unfold extract_parser_entry in Hbe. pose proof (dead_read _ Htf) as Hd. destruct (transition_fields _) as [fd_infos objs].
    by rewrite Hd in Hbe.
Qed.

(** ** The theorems at concrete inputs *)
Definition demo_field : FieldJson := mkFieldJson 0 0 16 "FIELD".

(** Table 7 of processor 4: one block of keys and one of values. *)
Definition demo_table : MatcherJson := {|
  j_matcher_id := 7; j_miss_action_id := 9; j_no_table := 0; j_match_type := "EXACT";
  j_depth := 1; j_key_width := 1; j_key_config := [3]; j_value_width := 1; j_value_config := [5];
  j_action_to_proc := [(5, 6)]; j_field_infos := [demo_field]
|}.

Lemma demo_table_ok : table_json_ok demo_table demo_field.
Proof.
  assert (H0 : ∀ i, 0 ≤ i < 1 * 1 → i = 0) by lia.
  split; [reflexivity| | | |reflexivity|discriminate|vm_compute; reflexivity|vm_compute; discriminate].
  - split; cbn [demo_table j_depth j_key_width j_key_config j_value_width j_value_config];
      [lia|vm_compute; repeat split; discriminate..| | | | |].
    + intros i Hi. rewrite (H0 i Hi). vm_compute. split; [discriminate|reflexivity].
    + intros i Hi. rewrite (H0 i Hi). vm_compute. split; [discriminate|reflexivity].
    + intros i j Hi Hj _. by rewrite (H0 i Hi), (H0 j Hj).
    + intros i j Hi Hj _. by rewrite (H0 i Hi), (H0 j Hj).
    + intros i j Hi Hj. rewrite (H0 i Hi), (H0 j Hj). vm_compute. discriminate.
  - split; [reflexivity|]. repeat constructor; lia.
  - split; [reflexivity|]. repeat constructor; lia.
Qed.

Lemma table_as_described_witness :
  ∃ pl' th', extract_matcher_thread (H := x86) 4 demo_table demo_server = Ok (mkServer (Some pl') init_mem) ∧
    get_thread pl' 4 7 = Ok th' ∧ th'.(action_proc_map) = {[5 := 6]} ∧ th'.(miss_act_id) = 9.
Proof.
  destruct (table_as_described (H := x86) 4 demo_table demo_field (Pipeline_init (H := x86) true PROC_NUM) init_mem demo_unconf)
    as (th' & Hrun & Hget & [_ _ Hmiss Hmap _ _]).
  - reflexivity.
  - exact demo_unconfigured.
  - reflexivity.
  - exact demo_table_ok.
  - eexists _, th'. split; [exact Hrun|]. split; [exact Hget|]. split; [rewrite Hmap; reflexivity|exact Hmiss].
Defined.

Definition demo_fill : UpdateJson := {|
  u_proc_id := 4; u_matcher_id := 7; u_action_id := 2; u_match_type := "EXACT";
  u_keys := [mkKeyJson 16 [0; 0] []]; u_action_para := [mkKeyJson 48 [0; 5; 0; 0; 255; 0] []] |}.

Lemma configured_then_filled_witness :
  ∃ st pl' m' th', extract_matcher_thread (H := x86) 4 demo_table demo_server = Ok st ∧
    update (H := x86) demo_fill st = Ok (1, mkServer (Some pl') m') ∧
    get_thread pl' 4 7 = Ok th' ∧ gets_value (H := x86) m' th' [0; 5; 0; 0; 255; 0] (PHV_init (H := x86)).
Proof.
  destruct (configured_then_filled (H := x86) 4 demo_table demo_field demo_fill (mkKeyJson 16 [0; 0] [])
    (Pipeline_init (H := x86) true PROC_NUM) init_mem demo_unconf) as (st & pl' & m' & th' & Hcfg & Hup & Hget & _ & _ & Hall).
  - reflexivity.
  - exact demo_unconfigured.
  - reflexivity.
  - exact demo_table_ok.
  - reflexivity.
  - reflexivity.
  - reflexivity.
  - reflexivity.
  - split; [cbn; lia|]. split; [repeat constructor; lia|]. split; [reflexivity|]. vm_compute. reflexivity.
  - reflexivity.
  - constructor; [|constructor]. split; [|reflexivity].
    split; [cbn; lia|]. split; [repeat constructor; lia|]. split; [reflexivity|]. vm_compute. reflexivity.
  - vm_compute. reflexivity.
  - vm_compute. discriminate.
  - split; vm_compute; discriminate.
  - split; vm_compute; discriminate.
  - exists st, pl', m', th'. split; [exact Hcfg|]. split; [exact Hup|]. split; [exact Hget|].
    apply (Hall (PHV_init (H := x86)) (PHV_init_wf (H := x86))).
    + vm_compute. discriminate.
    + reflexivity.
Defined.

Definition demo_processor (tfs : list FieldJson) : ProcessorJson := {|
  j_parser := mkParserJson 0 [[mkParserEntryJson 0 2048 65535 1 160 1 (zlen tfs) 0 tfs]];
  j_gateway := mkGatewayJson [] (mkEntryJson "TABLE" 0) []; j_matcher := [demo_table]; j_executor := []
|}.


(** The first file is loaded.  The second differs from it only by a transition field,
    the third only by the number of the processor. *)
Lemma unloadable_files_witness :
  (∃ st, extract (H := x86) (mkConfigJson (Some (demo_processor []) :: replicate 15 None) []) demo_server = Ok st) ∧
  (∀ st, extract (H := x86) (mkConfigJson (Some (demo_processor [demo_field]) :: replicate 15 None) []) demo_server ≠ Ok st) ∧
  (∀ st, extract (H := x86) (mkConfigJson (replicate 12 None ++ Some (demo_processor []) :: replicate 3 None) []) demo_server
    ≠ Ok st).
Proof.
  assert (Hn : has_procs 12 demo_server) by (eexists; split; reflexivity).
  split; [|split].
  - eexists. vm_compute. reflexivity.
  - apply (unloadable_files (H := x86) _ _ 12 0 (demo_processor [demo_field]) Hn).
    + lia.
    + reflexivity.
    + right. eexists _, _. split; [by left|]. split; [by left|]. discriminate.
  - apply (unloadable_files (H := x86) _ _ 12 12 (demo_processor []) Hn).
    + lia.
    + reflexivity.
    + left. lia.
Defined.
