(* ===== verification/Topology.v ===== *)
(** * The rP4 compiler: topological order (ipsa_distribution.h)

    A graph is kept as two maps: the successors and the predecessors of each node.
    [topologicalSort] takes the nodes in an order in which every edge goes forward;
    when there is none it prints an error and goes on with the node -1, which
    [std::map::at] does not find. *)

From stdpp Require Import base numbers list gmap sorting.
From Stdlib Require Import ZArith Lia.
From S2P Require Import Prelude.

#[local] Open Scope Z_scope.

Abbreviation graph := (gmap Z (list Z)).

(** ** The sort *)
Definition free_node (in_degree : gmap Z Z) : Z :=
  default (-1) (head (filter (λ k, in_degree !! k = Some 0) (map_keys in_degree))).

Definition dec_degrees (nexts : list Z) (in_degree : gmap Z Z) : gmap Z Z :=
  fold_left (λ d n, <[n := map_ref 0 d n - 1]> d) nexts in_degree.

Definition topo_step (next_table : graph) (st : gmap Z Z * list Z) : res (gmap Z Z * list Z) :=
  let '(in_degree, topo_sequence) := st in
  let next := free_node in_degree in
  nexts ← map_at next_table next;
  mret (dec_degrees nexts (<[next := -1]> in_degree), topo_sequence ++ [next]).

Definition topologicalSort (last_table next_table : graph) : res (list Z) :=
  '(_, topo_sequence) ← for_lt 0 (Z.of_nat (size last_table)) (λ _, topo_step next_table)
                          (zlen <$> last_table, []);
  mret topo_sequence.

(** The predecessors, from the successors. *)
Definition link_node (next_table : graph) (last_table : graph) (p : Z) : graph :=
  fold_left (λ l n, <[n := map_ref [] l n ++ [p]]> l) (map_ref [] next_table p) last_table.

Definition last_of (next_table : graph) : graph :=
  fold_left (link_node next_table) (map_keys next_table) ((λ _, []) <$> next_table).

(** ** Graphs *)
Definition edge (next : graph) (p n : Z) : Prop := ∃ l, next !! p = Some l ∧ n ∈ l.

(** Edges lead to nodes, and nodes are not negative. *)
Record graph_ok (next : graph) : Prop := {
  go_nonneg : ∀ k, is_Some (next !! k) → 0 ≤ k;
  go_closed : ∀ p n, edge next p n → is_Some (next !! n)
}.

(** No cycle: the nodes have ranks that edges raise. *)
Definition acyclic (next : graph) : Prop := ∃ rank : Z → nat, ∀ p n, edge next p n → (rank p < rank n)%nat.

(** Every node comes after its predecessors. *)
Definition topo_sorted (next : graph) (seq : list Z) : Prop :=
  ∀ l1 k l2, seq = l1 ++ k :: l2 → ∀ p, edge next p k → p ∈ l1.

(** The number of edges from [p] to [n]. *)
Definition times (n : Z) (l : list Z) : Z := sum_of_map (λ x, b2z (x =? n)) l.
Definition edges (next : graph) (n p : Z) : Z := times n (map_ref [] next p).

Lemma times_nonneg n l : 0 ≤ times n l.
Proof. apply sum_of_map_nonneg. intros x _. by destruct (x =? n). Qed.

Lemma times_pos n l : n ∈ l ↔ 0 < times n l.
Proof.
  induction l as [|x l IH]; unfold times in *; cbn.
  - split; [by intros ?%not_elem_of_nil|lia].
  - pose proof (times_nonneg n l) as Hn. unfold times in Hn. rewrite elem_of_cons, IH.
    destruct (Z.eqb_spec x n) as [->|]; cbn [b2z]; [split; [lia|by left]|]. split; [|by right].
    intros [->|]; [done|lia].
Qed.

Lemma edge_edges next n p : edge next p n ↔ 0 < edges next n p.
Proof.
  unfold edge, edges, map_ref. destruct (next !! p) as [l|]; cbn [from_option]; unfold id.
  - rewrite <- times_pos. split; [by intros (? & [= ->] & ?)|by exists l].
  - split; [by intros (? & ? & _)|]. cbn. lia.
Qed.

Lemma dec_degrees_ref nexts d k : map_ref 0 (dec_degrees nexts d) k = map_ref 0 d k - times k nexts.
Proof.
  unfold dec_degrees. revert d. induction nexts as [|n l IH]; intros d; cbn [fold_left]; [cbn; lia|].
  rewrite IH. unfold times at 2. cbn. fold (times k l). unfold map_ref at 1.
  destruct (Z.eqb_spec n k) as [->|Hne]; cbn [b2z].
  - rewrite lookup_insert_eq. cbn. lia.
  - rewrite lookup_insert_ne by done. unfold map_ref. lia.
Qed.

Lemma dec_degrees_dom nexts d k :
  (∀ n, n ∈ nexts → is_Some (d !! n)) → is_Some (dec_degrees nexts d !! k) ↔ is_Some (d !! k).
Proof.
  unfold dec_degrees. revert d. induction nexts as [|n l IH]; intros d Hd; cbn [fold_left]; [done|].
  assert (Hk : ∀ j, is_Some ((<[n:=map_ref 0 d n - 1]> d) !! j) ↔ is_Some (d !! j)).
  { intros j. destruct (decide (n = j)) as [<-|]; [|by rewrite lookup_insert_ne].
    rewrite lookup_insert_eq. split; [intros _; apply Hd; by left|done]. }
  rewrite IH; [apply Hk|]. intros j Hj. apply Hk, Hd. by right.
Qed.

(** ** The predecessor map counts the edges *)
Lemma link_node_ref next last p k :
  zlen (map_ref [] (link_node next last p) k) = zlen (map_ref [] last k) + edges next k p.
Proof.
  unfold link_node, edges. generalize (map_ref [] next p) as nexts. intros nexts. revert last.
  induction nexts as [|n l IH]; intros last; cbn [fold_left]; [cbn; lia|].
  rewrite IH. unfold times at 2. cbn. fold (times k l). unfold map_ref at 1.
  destruct (Z.eqb_spec n k) as [->|Hne]; cbn [b2z].
  - rewrite lookup_insert_eq. cbn [from_option]. unfold id. rewrite zlen_app. unfold zlen at 2. cbn. lia.
  - rewrite lookup_insert_ne by done. unfold map_ref. lia.
Qed.

Lemma link_node_dom next last p k :
  (∀ n, edge next p n → is_Some (last !! n)) → is_Some (link_node next last p !! k) ↔ is_Some (last !! k).
Proof.
  unfold link_node, edge, map_ref. destruct (next !! p) as [nexts|]; cbn [from_option]; [unfold id|done].
  intros Hd. assert (Hd' : ∀ n, n ∈ nexts → is_Some (last !! n)) by (intros n Hn; apply Hd; eauto). clear Hd.
  revert last Hd'. induction nexts as [|n l IH]; intros last Hd; cbn [fold_left]; [done|].
  assert (Hk : ∀ v j, is_Some ((<[n:=v]> last) !! j) ↔ is_Some (last !! j)).
  { intros v j. destruct (decide (n = j)) as [<-|]; [|by rewrite lookup_insert_ne].
    rewrite lookup_insert_eq. split; [intros _; apply Hd; by left|done]. }
  rewrite IH; [apply Hk|]. intros j Hj. apply Hk, Hd. by right.
Qed.

Lemma last_of_spec next :
  graph_ok next → (∀ k, is_Some (last_of next !! k) ↔ is_Some (next !! k)) ∧
  ∀ k, zlen (map_ref [] (last_of next) k) = sum_of_map (edges next k) (map_keys next).
Proof.
  intros Hok. unfold last_of.
  assert (H : ∀ ps last, (∀ k, is_Some (last !! k) ↔ is_Some (next !! k)) →
    (∀ k, is_Some (fold_left (link_node next) ps last !! k) ↔ is_Some (next !! k)) ∧
    ∀ k, zlen (map_ref [] (fold_left (link_node next) ps last) k) = zlen (map_ref [] last k) + sum_of_map (edges next k) ps).
  { induction ps as [|p ps IH]; intros last Hl; cbn; [split; [done|lia]|].
    destruct (IH (link_node next last p)) as [H1 H2].
    - intros k. rewrite link_node_dom; [done|]. intros n Hn. apply Hl. by apply (go_closed _ Hok p).
    - split; [done|]. intros k. rewrite H2, link_node_ref. lia. }
  destruct (H (map_keys next) ((λ _, []) <$> next)) as [H1 H2].
  - intros k. rewrite lookup_fmap. by destruct (next !! k).
  - split; [done|]. intros k. rewrite H2. unfold map_ref at 1. rewrite lookup_fmap.
    by destruct (next !! k).
Qed.

(** ** The loop *)
Lemma free_node_spec d :
  d !! free_node d = Some 0 ∨ (free_node d = -1 ∧ ∀ k, d !! k ≠ Some 0).
Proof.
  unfold free_node. set (l := filter _ _). assert (Hl : ∀ k, k ∈ l ↔ d !! k = Some 0).
  { intros k. unfold l. rewrite list_elem_of_filter, elem_of_map_keys. split; [by intros []|eauto]. }
  destruct l as [|k l]; cbn [head from_option]; unfold id.
  - right. split; [done|]. intros k Hk%Hl. by apply not_elem_of_nil in Hk.
  - left. apply Hl. by left.
Qed.

(** The nodes [seq] are in the sequence, the nodes [todo] are not. *)
Record sorting (next : graph) (d : gmap Z Z) (seq todo : list Z) : Prop := {
  sg_nodes : seq ++ todo ≡ₚ map_keys next;
  sg_dom : ∀ k, is_Some (d !! k) ↔ is_Some (next !! k);
  sg_todo : ∀ k, k ∈ todo → map_ref 0 d k = sum_of_map (edges next k) todo;
  sg_seq : ∀ k, k ∈ seq → map_ref 0 d k = -1;
  sg_sorted : topo_sorted next seq
}.

Lemma sorting_node next d seq todo k : sorting next d seq todo → is_Some (next !! k) ↔ k ∈ seq ∨ k ∈ todo.
Proof. intros Hs. by rewrite <- elem_of_map_keys, <- (sg_nodes _ _ _ _ Hs), elem_of_app. Qed.

Lemma edge_node next p n : edge next p n → is_Some (next !! p).
Proof. intros (l & Hl & _). by rewrite Hl. Qed.

Lemma edges_nonneg next n p : 0 ≤ edges next n p.
Proof. apply times_nonneg. Qed.

Lemma sorting_start next :
  graph_ok next → sorting next (zlen <$> last_of next) [] (map_keys next).
Proof.
  intros Hok. destruct (last_of_spec next Hok) as [Hdom Hlen]. split; [done| | | |].
  - intros k. by rewrite lookup_fmap, fmap_is_Some, Hdom.
  - intros k Hk. rewrite <- Hlen. apply elem_of_map_keys, Hdom in Hk as [l Hl].
    unfold map_ref. rewrite lookup_fmap, Hl. done.
  - intros k Hk. by apply not_elem_of_nil in Hk.
  - intros [|x l1] k l2 H; done.
Qed.

(** One round: a node without predecessors left is taken, or every node left has one. *)
Lemma topo_step_spec next d seq todo :
  graph_ok next → sorting next d seq todo → todo ≠ [] →
  (∃ n d' todo', topo_step next (d, seq) = Ok (d', seq ++ [n]) ∧ todo ≡ₚ n :: todo' ∧
     sorting next d' (seq ++ [n]) todo') ∨
  (topo_step next (d, seq) = Fault Thrown ∧ ∀ k, k ∈ todo → ∃ p, p ∈ todo ∧ edge next p k).
Proof.
  intros Hok Hs Hne. unfold topo_step. destruct (free_node_spec d) as [Hf|[Hf Hno]].
  - left. set (n := free_node d) in *. assert (Hn : map_ref 0 d n = 0) by (unfold map_ref; by rewrite Hf).
    assert (Hin : n ∈ todo).
    { assert (Hnode : is_Some (next !! n)) by (apply (sg_dom _ _ _ _ Hs); by rewrite Hf).
      apply (sorting_node _ _ _ _ n Hs) in Hnode as [Hq|]; [|done]. pose proof (sg_seq _ _ _ _ Hs n Hq). lia. }
    assert (Hnoedge : ∀ p, p ∈ todo → ¬ edge next p n).
    { intros p Hp He%edge_edges. pose proof (sg_todo _ _ _ _ Hs n Hin) as Hsum.
      pose proof (sum_of_map_pos (edges next n) todo p (λ y _, edges_nonneg next n y) Hp). lia. }
    apply elem_of_Permutation in Hin as [todo' Hperm].
    destruct (proj1 (sg_dom _ _ _ _ Hs n) ltac:(by rewrite Hf)) as [nexts Hnexts].
    unfold map_at. rewrite Hnexts. cbn [mbind res_mbind mret res_mret].
    eexists n, _, todo'. split; [done|]. split; [done|].
    assert (Hnd : NoDup (n :: todo')).
    { rewrite <- Hperm. pose proof (NoDup_map_keys next) as Hk. rewrite <- (sg_nodes _ _ _ _ Hs) in Hk.
      by apply NoDup_app in Hk as (_ & _ & ?). }
    assert (Href : ∀ k, k ≠ n → map_ref 0 (dec_degrees nexts (<[n:=-1]> d)) k = map_ref 0 d k - edges next k n).
    { intros k Hk. rewrite dec_degrees_ref. unfold edges. unfold map_ref at 1 3. rewrite Hnexts, lookup_insert_ne by done.
      reflexivity. }
    assert (Hself : edges next n n = 0).
    { pose proof (edges_nonneg next n n). destruct (decide (0 < edges next n n)) as [He%edge_edges|]; [|lia].
      destruct (Hnoedge n); [rewrite Hperm; by left|done]. }
    split.
    + rewrite <- (sg_nodes _ _ _ _ Hs), Hperm. by rewrite <- app_assoc.
    + intros k. rewrite dec_degrees_dom.
      * destruct (decide (n = k)) as [<-|]; [|rewrite lookup_insert_ne by done; apply Hs].
        rewrite lookup_insert_eq, Hnexts. done.
      * intros k' Hk'. assert (is_Some (d !! k')) as [v Hv].
        { apply Hs, (go_closed _ Hok n). by exists nexts. }
        destruct (decide (n = k')) as [<-|]; [by rewrite lookup_insert_eq|by rewrite lookup_insert_ne, Hv].
    + intros k Hk. apply NoDup_cons in Hnd as [Hnn _]. rewrite Href by (by intros ->).
      rewrite (sg_todo _ _ _ _ Hs k), (sum_of_map_perm _ _ _ Hperm) by (rewrite Hperm; by right). cbn. lia.
    + intros k [Hk|Hk]%elem_of_app.
      * rewrite Href by (intros ->; apply NoDup_cons in Hnd; pose proof (sg_seq _ _ _ _ Hs n Hk); lia).
        rewrite (sg_seq _ _ _ _ Hs k Hk). pose proof (edges_nonneg next k n).
        destruct (decide (0 < edges next k n)) as [He%edge_edges|]; [|lia]. exfalso.
        apply list_elem_of_split in Hk as (l1 & l2 & ->).
        pose proof (sg_sorted _ _ _ _ Hs l1 k l2 eq_refl n He) as Hl1.
        assert (Hq : n ∈ l1 ++ k :: l2) by (apply elem_of_app; by left).
        pose proof (sg_seq _ _ _ _ Hs n Hq). lia.
      * apply list_elem_of_singleton in Hk as ->. rewrite dec_degrees_ref. unfold map_ref at 1.
        rewrite lookup_insert_eq. cbn [from_option]. unfold id. unfold edges, map_ref in Hself. rewrite Hnexts in Hself.
        cbn [from_option] in Hself. unfold id in Hself. lia.
    + intros l1 k l2 Heq p He. destruct l2 as [|x l2 _] using rev_ind.
      * apply app_inj_tail in Heq as [-> ->].
        pose proof (proj1 (sorting_node _ _ _ _ p Hs) (edge_node _ _ _ He)) as [?|Hp]; [done|].
        by destruct (Hnoedge p Hp).
      * rewrite app_comm_cons, app_assoc in Heq. apply app_inj_tail in Heq as [-> _].
        by apply (sg_sorted _ _ _ _ Hs l1 k l2 eq_refl).
  - right. rewrite Hf. unfold map_at. destruct (next !! (-1)) eqn:Hm.
    { pose proof (go_nonneg _ Hok (-1) ltac:(by rewrite Hm)). lia. }
    split; [done|]. intros k Hk.
    destruct (decide (Exists (λ p, 0 < edges next k p) todo)) as [(p & Hp & He)%Exists_exists|Hall].
    + exists p. split; [done|by apply edge_edges].
    + exfalso. pose proof (sg_todo _ _ _ _ Hs k Hk) as Hd.
      assert (Hz : sum_of_map (edges next k) todo = sum_of_map (λ _, 0) todo).
      { apply sum_of_map_ext. intros p Hp. pose proof (edges_nonneg next k p).
        destruct (decide (0 < edges next k p)); [|lia]. destruct Hall. apply Exists_exists. eauto. }
      assert (H0 : sum_of_map (λ _ : Z, 0) todo = 0) by (clear; induction todo; cbn; lia).
      destruct (proj2 (sg_dom _ _ _ _ Hs k) (proj2 (sorting_node _ _ _ _ k Hs) (or_intror Hk))) as [v Hv].
      unfold map_ref in Hd. rewrite Hv in Hd. cbn in Hd. apply (Hno k). rewrite Hv. f_equal. lia.
Qed.

Lemma no_rank next todo :
  todo ≠ [] → (∀ k, k ∈ todo → ∃ p, p ∈ todo ∧ edge next p k) → ¬ acyclic next.
Proof.
  intros Hne Hall [rank Hr]. assert (H : ∀ n k, k ∈ todo → rank k = n → False).
  { intros n. induction n as [n IH] using lt_wf_ind. intros k Hk <-. destruct (Hall k Hk) as (p & Hp & He).
    by apply (IH (rank p)) with p; [apply Hr|..]. }
  destruct todo as [|k todo]; [done|]. by apply (H (rank k) k); [left|].
Qed.

Lemma topo_loop next n d seq todo i :
  graph_ok next → sorting next d seq todo → length todo = n →
  match for_up n i (λ _, topo_step next) (d, seq) with
  | Ok (_, seq') => seq' ≡ₚ map_keys next ∧ topo_sorted next seq'
  | Fault f => f = Thrown ∧ ¬ acyclic next
  end.
Proof.
  intros Hok. revert d seq todo i. induction n as [|n IH]; intros d seq todo i Hs Hlen; cbn [for_up].
  - apply nil_length_inv in Hlen as ->. split; [|apply Hs]. by rewrite <- (sg_nodes _ _ _ _ Hs), app_nil_r.
  - assert (Hne : todo ≠ []) by (by intros ->).
    destruct (topo_step_spec next d seq todo Hok Hs Hne) as [(x & d' & todo' & -> & Hp & Hs')|[-> Hall]].
    + cbn [mbind res_mbind]. apply (IH _ _ todo'); [done|]. rewrite Hp in Hlen. cbn in Hlen. lia.
    + split; [done|]. by apply (no_rank next todo).
Qed.

Lemma last_of_size next : graph_ok next → size (last_of next) = length (map_keys next).
Proof.
  intros Hok. destruct (last_of_spec next Hok) as [Hdom _].
  unfold map_keys. rewrite merge_sort_Permutation, length_fmap, length_map_to_list.
  rewrite <- !size_dom. f_equal. apply set_eq. intros k. by rewrite !elem_of_dom.
Qed.

(** The lists of predecessors hold the predecessors. *)
Lemma link_node_elem next last p k x :
  x ∈ map_ref [] (link_node next last p) k ↔ x ∈ map_ref [] last k ∨ (x = p ∧ k ∈ map_ref [] next p).
Proof.
  unfold link_node. generalize (map_ref [] next p) as nexts. intros nexts. revert last.
  induction nexts as [|n l IH]; intros last; cbn [fold_left].
  - split; [by left|]. by intros [?|[_ ?%not_elem_of_nil]].
  - rewrite IH. unfold map_ref at 1. destruct (decide (n = k)) as [->|Hne].
    + rewrite lookup_insert_eq. cbn [from_option]. unfold id. set_solver.
    + rewrite lookup_insert_ne by done. unfold map_ref. set_solver.
Qed.

Lemma last_of_elem next k p : p ∈ map_ref [] (last_of next) k ↔ edge next p k.
Proof.
  unfold last_of. assert (H : ∀ ps last, p ∈ map_ref [] (fold_left (link_node next) ps last) k ↔
    p ∈ map_ref [] last k ∨ (p ∈ ps ∧ k ∈ map_ref [] next p)).
  { induction ps as [|q ps IH]; intros last; cbn [fold_left]; [set_solver|]. rewrite IH, link_node_elem. set_solver. }
  rewrite H. unfold map_ref at 1. rewrite lookup_fmap. rewrite elem_of_map_keys. unfold edge, map_ref.
  split.
  - intros [Hn|[[l Hl] Hk]].
    + destruct (next !! k); by apply not_elem_of_nil in Hn.
    + rewrite Hl in Hk. cbn in Hk. eauto.
  - intros (l & Hl & Hk). right. rewrite Hl. split; [done|exact Hk].
Qed.

Lemma last_of_dom next k : graph_ok next → is_Some (last_of next !! k) ↔ is_Some (next !! k).
Proof. intros Hok. apply last_of_spec. done. Qed.

(** C25. The order of the stages and of the parser states: on a graph without a cycle
    the sort ends with every node once and after all its predecessors; on a graph with
    a cycle it ends in an exception, after the error message. *)
Theorem topological_order next :
  graph_ok next →
  match topologicalSort (last_of next) next with
  | Ok seq => seq ≡ₚ map_keys next ∧ topo_sorted next seq
  | Fault f => f = Thrown ∧ ¬ acyclic next
  end.
Proof.
  intros Hok. unfold topologicalSort, for_lt. rewrite Z.sub_0_r, Nat2Z.id, last_of_size by done.
  pose proof (topo_loop next (length (map_keys next)) _ _ _ 0 Hok (sorting_start next Hok) eq_refl) as H.
  by destruct (for_up _ _ _ _) as [[d seq]|f].
Qed.

Lemma acyclic_sorted next :
  graph_ok next → acyclic next →
  ∃ seq, topologicalSort (last_of next) next = Ok seq ∧ seq ≡ₚ map_keys next ∧ topo_sorted next seq.
Proof.
  intros Hok Hac. unfold topologicalSort, for_lt. rewrite Z.sub_0_r, Nat2Z.id, last_of_size by done.
  pose proof (topo_loop next (length (map_keys next)) _ _ _ 0 Hok (sorting_start next Hok) eq_refl) as H.
  destruct (for_up _ _ _ _) as [[d seq]|f]; [by exists seq|]. by destruct H.
Qed.

(** Three nodes in a row, and two nodes in a circle. *)
Definition row_graph : graph := {[0 := [2]; 2 := [1]; 1 := []]}.
Definition ring_graph : graph := {[0 := [1]; 1 := [0]]}.

Lemma graph_ok_check next :
  bool_decide (Forall (λ '(k, l), 0 ≤ k ∧ Forall (λ n, is_Some (next !! n)) l) (map_to_list next)) = true →
  graph_ok next.
Proof.
  intros H%bool_decide_eq_true. rewrite Forall_forall in H. split.
  - intros k [l Hl%elem_of_map_to_list]. by apply (H _ Hl).
  - intros p n (l & Hl%elem_of_map_to_list & Hn). destruct (H _ Hl) as [_ Hall].
    rewrite Forall_forall in Hall. auto.
Qed.

Lemma acyclic_check next (rank : Z → nat) :
  bool_decide (Forall (λ '(k, l), Forall (λ n, (rank k < rank n)%nat) l) (map_to_list next)) = true → acyclic next.
Proof.
  intros H%bool_decide_eq_true. rewrite Forall_forall in H. exists rank. intros p n (l & Hl%elem_of_map_to_list & Hn).
  specialize (H _ Hl). cbn in H. rewrite Forall_forall in H. auto.
Qed.

Lemma topological_order_witness :
  (topologicalSort (last_of row_graph) row_graph = Ok [0; 2; 1] ∧ topo_sorted row_graph [0; 2; 1]) ∧
  (topologicalSort (last_of ring_graph) ring_graph = Fault Thrown ∧ ¬ acyclic ring_graph).
Proof.
  assert (H1 : graph_ok row_graph) by (apply graph_ok_check; vm_compute; reflexivity).
  assert (H2 : graph_ok ring_graph) by (apply graph_ok_check; vm_compute; reflexivity).
  pose proof (topological_order row_graph H1) as T1. pose proof (topological_order ring_graph H2) as T2.
  assert (E1 : topologicalSort (last_of row_graph) row_graph = Ok [0; 2; 1]) by (vm_compute; reflexivity).
  assert (E2 : topologicalSort (last_of ring_graph) ring_graph = Fault Thrown) by (vm_compute; reflexivity).
  rewrite E1 in T1. rewrite E2 in T2. split; split; [exact E1|apply T1|exact E2|apply T2].
Defined.
