(* ===== verification/Headers.v ===== *)
(** * The rP4 compiler: headers and their fields (ipsa_header_manager.h)

    The syntax tree the parser builds is given as records.  A header gets an id and
    its fields offsets, one after the other; metadata structures are headers that are
    not parsed, and [standard_metadata] has the id 31.  Error messages are left out:
    the code goes on after them. *)

From stdpp Require Import base numbers list gmap strings sorting.
From Stdlib Require Import ZArith Lia.
From S2P Require Import Prelude.

#[local] Open Scope Z_scope.

(** ** The syntax tree *)
Inductive Rp4Type : Set := BitType (length : Z) | NamedType (name : string).
Record Rp4FieldDef : Set := mkFieldDef { fdf_type : Rp4Type; fdf_name : string }.
Record Rp4HeaderDef : Set := mkHeaderDef { hd_name : string; hd_fields : list Rp4FieldDef }.
Record Rp4StructDef : Set := mkStructDef {
  sd_struct_name : string; sd_fields : list Rp4FieldDef; sd_name : string; sd_is_header : bool
}.

(** An assignable place: [meta.field] or [hdr.header.field]. *)
Inductive Rp4LValue : Set :=
| MetaLValue (instance_name member_name : string)
| HeaderLValue (instance_name member_name field_name : string).

(** ** Headers *)
Inductive IpsaFieldType : Set := FT_FIELD | FT_VALID | FT_HIT | FT_MISS.

Definition field_type_string (t : IpsaFieldType) : string :=
  match t with FT_FIELD => "FIELD" | FT_VALID => "VALID" | FT_HIT => "HIT" | FT_MISS => "MISS" end.

Record IpsaHeaderField : Set := mkHeaderField {
  ihf_type : IpsaFieldType; ihf_header_id : Z; ihf_offset : Z; ihf_length : Z
}.

Record IpsaHeader : Type := mkHeader {
  is_header : bool; is_standard_metadata : bool; header_id : Z; offset : Z;
  fields : gmap string IpsaHeaderField
}.

(** A field of a bit type goes behind the ones before it; its name is recorded unless
    there is a field of that name. *)
Definition add_field (id : Z) (st : gmap string IpsaHeaderField * Z) (f : Rp4FieldDef) :
    gmap string IpsaHeaderField * Z :=
  match f.(fdf_type) with
  | BitType length => (insert_new f.(fdf_name) (mkHeaderField FT_FIELD id st.2 length) st.1, st.2 + length)
  | NamedType _ => st
  end.

Definition lay_out (id : Z) (fs : list Rp4FieldDef) : gmap string IpsaHeaderField * Z :=
  fold_left (add_field id) fs ({["isValid"%string := mkHeaderField FT_VALID id 0 0]}, 0).

Definition IpsaHeader_of_header (def : Rp4HeaderDef) (id : Z) : IpsaHeader :=
  let '(fs, off) := lay_out id def.(hd_fields) in mkHeader true false id off fs.

Definition IpsaHeader_of_struct (def : Rp4StructDef) (id : Z) : IpsaHeader :=
  let '(fs, off) := lay_out id def.(sd_fields) in
  mkHeader false (bool_decide (def.(sd_name) = "standard_metadata"%string)) id off fs.

Definition getLength (h : IpsaHeader) : Z :=
  Z.quot (sum_of_map (λ kv, kv.2.(ihf_length)) (map_to_list h.(fields)) + 7) 8.

(** ** The manager *)
Record HeaderManager : Type := mkHeaderManager {
  global_header_id : Z;
  header_name : string;
  headers : gmap string IpsaHeader;
  metadata : list (Z * Z * Z)          (* id, offset and length *)
}.

Definition HeaderManager_init : HeaderManager := mkHeaderManager 0 "" ∅ [].

Definition get_header (hm : HeaderManager) (name : string) : option IpsaHeader := hm.(headers) !! name.

Definition get_header_member (hm : HeaderManager) (instance_name member_name : string) : option IpsaHeader :=
  if decide (instance_name = hm.(header_name)) then get_header hm member_name else None.

(** A pointer to a field of the manager: the names of its header and of the field. *)
Abbreviation FieldRef := (string * string)%type.

Definition lookup_names (hm : HeaderManager) (header_name field_name : string) : option FieldRef :=
  match hm.(headers) !! header_name with
  | Some h => match h.(fields) !! field_name with Some _ => Some (header_name, field_name) | None => None end
  | None => None
  end.

Definition lookup_lvalue (hm : HeaderManager) (lvalue : Rp4LValue) : option FieldRef :=
  match lvalue with
  | MetaLValue inst mem => lookup_names hm inst mem
  | HeaderLValue inst mem fld =>
      if decide (inst = hm.(header_name)) then lookup_names hm mem fld else None
  end.

Definition deref_field (hm : HeaderManager) (r : option FieldRef) : res IpsaHeaderField :=
  match r with
  | None => Fault NullDeref
  | Some (h, f) =>
      match hm.(headers) !! h with
      | Some hd => match hd.(fields) !! f with Some x => Ok x | None => Fault UseAfterFree end
      | None => Fault UseAfterFree
      end
  end.

Definition addHeader (def : Rp4HeaderDef) (name : string) (hm : HeaderManager) : HeaderManager :=
  match hm.(headers) !! name with
  | Some _ => hm
  | None => mkHeaderManager (hm.(global_header_id) + 1) hm.(header_name)
              (<[name := IpsaHeader_of_header def hm.(global_header_id)]> hm.(headers)) hm.(metadata)
  end.

Definition addMetadata (def : Rp4StructDef) (hm : HeaderManager) : HeaderManager :=
  match hm.(headers) !! def.(sd_name) with
  | Some _ => hm
  | None =>
      if decide (def.(sd_name) = "standard_metadata"%string) then
        mkHeaderManager hm.(global_header_id) hm.(header_name)
          (<[def.(sd_name) := IpsaHeader_of_struct def 31]> hm.(headers)) hm.(metadata)
      else
        mkHeaderManager (hm.(global_header_id) + 1) hm.(header_name)
          (<[def.(sd_name) := IpsaHeader_of_struct def hm.(global_header_id)]> hm.(headers)) hm.(metadata)
  end.

(** The headers of the program are the members of the structure that is marked so. *)
Definition load_member (header_defs : list Rp4HeaderDef) (hm : HeaderManager) (f : Rp4FieldDef) : HeaderManager :=
  match f.(fdf_type) with
  | NamedType n =>
      match list_find (λ h, h.(hd_name) = n) header_defs with
      | Some (_, def) => addHeader def f.(fdf_name) hm
      | None => hm
      end
  | BitType _ => hm
  end.

Definition load_struct (header_defs : list Rp4HeaderDef) (hm : HeaderManager) (s : Rp4StructDef) : HeaderManager :=
  if s.(sd_is_header) then
    fold_left (load_member header_defs) s.(sd_fields)
      (mkHeaderManager hm.(global_header_id) s.(sd_name) hm.(headers) hm.(metadata))
  else addMetadata s hm.

(** The order of the names in [std::map<std::string, ...>]. *)
Definition name_le {V} (a b : string * V) : Prop := String.leb a.1 b.1 = true.
#[export] Instance name_le_dec {V} : RelDecision (@name_le V).
Proof. intros a b. unfold name_le. apply _. Defined.
Definition in_name_order {V} (m : gmap string V) : list (string * V) := merge_sort name_le (map_to_list m).

Definition place_metadata (st : list (Z * Z * Z) * Z) (kv : string * IpsaHeader) : list (Z * Z * Z) * Z :=
  let '(entries, off) := st in
  let h := kv.2 in
  if h.(is_header) || h.(is_standard_metadata) then st
  else
    let length := Z.max 8 (getLength h * 2) in
    (entries ++ [(h.(header_id), off, length)], off + length).

Definition load_headers (header_defs : list Rp4HeaderDef) (struct_defs : list Rp4StructDef) (hm : HeaderManager)
    : HeaderManager :=
  let hm := fold_left (load_struct header_defs) struct_defs
              (mkHeaderManager 0 hm.(header_name) hm.(headers) hm.(metadata)) in
  let '(entries, _) := fold_left place_metadata (in_name_order hm.(headers)) (hm.(metadata) ++ [(31, 0, 20)], 20) in
  mkHeaderManager hm.(global_header_id) hm.(header_name) hm.(headers) entries.

(** ** Fields lie one after the other *)
Definition field_width (f : Rp4FieldDef) : Z := match f.(fdf_type) with BitType n => n | NamedType _ => 0 end.

Lemma add_field_off id st f : (add_field id st f).2 = st.2 + field_width f.
Proof. unfold add_field, field_width. destruct (fdf_type f); cbn; lia. Qed.

Lemma add_field_other id st f name :
  name ≠ f.(fdf_name) ∨ is_Some (st.1 !! name) → (add_field id st f).1 !! name = st.1 !! name.
Proof.
  unfold add_field, insert_new. intros Hn. destruct (fdf_type f); [|done]. cbn [fst].
  destruct (st.1 !! fdf_name f) eqn:E; [done|]. destruct Hn as [Hn|[v Hv]]; [by rewrite lookup_insert_ne|].
  rewrite lookup_insert_ne; [done|]. intros <-. congruence.
Qed.

Lemma add_fields_off id fs st : (fold_left (add_field id) fs st).2 = st.2 + sum_of_map field_width fs.
Proof. revert st. induction fs as [|f fs IH]; intros st; cbn; [lia|]. rewrite IH, add_field_off. lia. Qed.

Lemma add_fields_other id fs st name :
  (∀ f, f ∈ fs → name ≠ f.(fdf_name)) ∨ is_Some (st.1 !! name) →
  (fold_left (add_field id) fs st).1 !! name = st.1 !! name.
Proof.
  revert st. induction fs as [|f fs IH]; intros st Hn; cbn; [done|]. rewrite IH, add_field_other; [done| |].
  - destruct Hn as [Hn|?]; [left; apply Hn; by left|by right].
  - destruct Hn as [Hn|?]; [left; intros g Hg; apply Hn; by right|right]. by rewrite add_field_other by by right.
Qed.

(** The fields of a header lie one after the other in the order of its definition:
    the offset of a field is the width of those before it, and the offset kept for the
    header is the width of all of them, which is the length the parser is given. *)
Lemma field_layout def id pre name n post :
  def.(hd_fields) = pre ++ mkFieldDef (BitType n) name :: post → name ≠ "isValid"%string →
  (∀ f, f ∈ pre → name ≠ f.(fdf_name)) →
  let h := IpsaHeader_of_header def id in
  h.(fields) !! name = Some (mkHeaderField FT_FIELD id (sum_of_map field_width pre) n) ∧
  h.(offset) = sum_of_map field_width def.(hd_fields) ∧ h.(header_id) = id ∧
  h.(fields) !! "isValid"%string = Some (mkHeaderField FT_VALID id 0 0).
Proof.
  intros Hdef Hname Hpre. unfold IpsaHeader_of_header.
  destruct (lay_out id (hd_fields def)) as [fs off] eqn:E. cbn [fields offset header_id].
  unfold lay_out in E. rewrite (surjective_pairing (fold_left _ _ _)) in E. injection E as <- <-.
  split; [|split; [by rewrite add_fields_off|split; [done|]]].
  - rewrite Hdef, fold_left_app. cbn [fold_left].
    set (st := fold_left (add_field id) pre _). assert (Hst : st.1 !! name = None).
    { unfold st. rewrite add_fields_other by by left. cbn. by rewrite lookup_singleton_ne. }
    assert (Hadd : (add_field id st (mkFieldDef (BitType n) name)).1 !! name =
      Some (mkHeaderField FT_FIELD id (sum_of_map field_width pre) n)).
    { unfold add_field, insert_new. cbn. rewrite Hst, lookup_insert_eq. unfold st. by rewrite add_fields_off. }
    by rewrite add_fields_other by (right; by rewrite Hadd).
  - rewrite add_fields_other; cbn [fst]; [|right]; by rewrite lookup_singleton_eq.
Qed.

(** ** Ids *)

(** The ids given so far are those below [global_header_id], each to one header, and
    31 to [standard_metadata]. *)
Record ids_ok (hm : HeaderManager) : Prop := {
  io_pos : 0 ≤ hm.(global_header_id);
  io_std : ∀ n h, hm.(headers) !! n = Some h → h.(is_standard_metadata) = true →
    n = "standard_metadata"%string ∧ h.(header_id) = 31;
  io_below : ∀ n h, hm.(headers) !! n = Some h → h.(is_standard_metadata) = false →
    0 ≤ h.(header_id) < hm.(global_header_id);
  io_inj : ∀ n n' h h', hm.(headers) !! n = Some h → hm.(headers) !! n' = Some h' →
    h.(is_standard_metadata) = false → h'.(is_standard_metadata) = false →
    h.(header_id) = h'.(header_id) → n = n'
}.

(** A header with the next id. *)
Lemma ids_ok_new hm name h :
  ids_ok hm → h.(is_standard_metadata) = false → h.(header_id) = hm.(global_header_id) →
  ids_ok (mkHeaderManager (hm.(global_header_id) + 1) hm.(header_name) (<[name := h]> hm.(headers)) hm.(metadata)).
Proof.
  intros [Hp Hs Hb Hi] Hh Hid. split; cbn; [lia| | |].
  - intros n g. rewrite lookup_insert_Some. intros [[<- <-]|[_ Hg]] Hstd; [congruence|eauto].
  - intros n g. rewrite lookup_insert_Some. intros [[<- <-]|[_ Hg]] Hstd; [lia|]. specialize (Hb n g Hg Hstd). lia.
  - intros n n' g g'. rewrite !lookup_insert_Some. intros [[<- <-]|[_ Hg]] [[<- <-]|[_ Hg']] H1 H2 Heq; [done| | |eauto].
    + specialize (Hb n' g' Hg' H2). lia.
    + specialize (Hb n g Hg H1). lia.
Qed.

Lemma of_header_std def id : (IpsaHeader_of_header def id).(is_standard_metadata) = false ∧
  (IpsaHeader_of_header def id).(header_id) = id.
Proof. unfold IpsaHeader_of_header. by destruct (lay_out _ _). Qed.

Lemma of_struct_std def id : (IpsaHeader_of_struct def id).(is_standard_metadata) =
    bool_decide (def.(sd_name) = "standard_metadata"%string) ∧ (IpsaHeader_of_struct def id).(header_id) = id.
Proof. unfold IpsaHeader_of_struct. by destruct (lay_out _ _). Qed.

Lemma addHeader_ok def name hm : ids_ok hm → ids_ok (addHeader def name hm).
Proof.
  intros Hok. unfold addHeader. destruct (headers hm !! name); [done|]. by apply ids_ok_new; [|apply of_header_std..].
Qed.

Lemma addMetadata_ok def hm : ids_ok hm → ids_ok (addMetadata def hm).
Proof.
  intros Hok. unfold addMetadata. destruct (headers hm !! sd_name def); [done|].
  destruct (of_struct_std def 31) as [Hs31 Hid31]. destruct (of_struct_std def (global_header_id hm)) as [Hs Hid].
  destruct (decide (sd_name def = "standard_metadata"%string)) as [Hn|Hn].
  - rewrite bool_decide_true in Hs31 by done. destruct Hok as [Hp Hs' Hb Hi]. split; cbn [headers global_header_id]; [done| | |].
    + intros n g. rewrite lookup_insert_Some. intros [[<- <-]|[_ Hg]] Hstd; [done|eauto].
    + intros n g. rewrite lookup_insert_Some. intros [[<- <-]|[_ Hg]] Hstd; [congruence|eauto].
    + intros n n' g g'. rewrite !lookup_insert_Some. intros [[<- <-]|[_ Hg]] [[<- <-]|[_ Hg']] H1 H2; [done|congruence..|eauto].
  - rewrite bool_decide_false in Hs by done. by apply ids_ok_new.
Qed.

Lemma fold_left_pres {A S} (P : S → Prop) (f : S → A → S) l s :
  (∀ t x, P t → P (f t x)) → P s → P (fold_left f l s).
Proof. intros Hf. revert s. induction l as [|x l IH]; intros s Hs; cbn; eauto. Qed.

Lemma load_headers_ok defs structs : ids_ok (load_headers defs structs HeaderManager_init).
Proof.
  unfold load_headers. set (hm := fold_left (load_struct _) _ _). assert (Hok : ids_ok hm).
  { unfold hm. apply (fold_left_pres ids_ok).
    - intros t s Ht. unfold load_struct. destruct (sd_is_header s); [|by apply addMetadata_ok].
      apply (fold_left_pres ids_ok); [|by destruct Ht].
      intros u f Hu. unfold load_member. destruct (fdf_type f); [done|].
      destruct (list_find _ _) as [[i def]|]; [by apply addHeader_ok|done].
    - split; [done|intros n h H|intros n h H|intros n n' h h' H];
        change ((∅ : gmap string IpsaHeader) !! n = Some h) in H; by apply lookup_empty_Some in H. }
  destruct (fold_left place_metadata _ _) as [es off]. by destruct Hok.
Qed.

(** C29. As long as the program has no more than 31 headers besides the standard
    metadata, the ids are places of the header vector of the data plane, and no two
    headers share one. *)
Theorem header_ids_distinct defs structs n n' h h' :
  let hm := load_headers defs structs HeaderManager_init in
  hm.(global_header_id) ≤ 31 → hm.(headers) !! n = Some h → hm.(headers) !! n' = Some h' →
  0 ≤ h.(header_id) < 32 ∧ (n ≠ n' → h.(header_id) ≠ h'.(header_id)).
Proof.
  intros hm Hmax Hh Hh'. destruct (load_headers_ok defs structs) as [Hp Hs Hb Hi]. fold hm in Hp, Hs, Hb, Hi.
  destruct (is_standard_metadata h) eqn:E, (is_standard_metadata h') eqn:E'.
  - destruct (Hs n h Hh E) as [-> ->], (Hs n' h' Hh' E') as [-> ->]. split; [lia|done].
  - destruct (Hs n h Hh E) as [-> ->]. pose proof (Hb n' h' Hh' E'). split; lia.
  - destruct (Hs n' h' Hh' E') as [-> ->]. pose proof (Hb n h Hh E). split; lia.
  - pose proof (Hb n h Hh E). split; [lia|]. intros Hne Heq. apply Hne. by apply (Hi n n' h h').
Qed.

(** ** The theorems at concrete inputs *)
Definition demo_ethernet : Rp4HeaderDef :=
  mkHeaderDef "ethernet_t" [mkFieldDef (BitType 48) "dst"; mkFieldDef (BitType 48) "src"; mkFieldDef (BitType 16) "type"].
Definition demo_structs : list Rp4StructDef :=
  [mkStructDef "headers_t" [mkFieldDef (NamedType "ethernet_t") "ethernet"] "hdr" true;
   mkStructDef "meta_t" [mkFieldDef (BitType 9) "port"] "meta" false;
   mkStructDef "std_t" [mkFieldDef (BitType 32) "in_port"] "standard_metadata" false].

(** Ethernet and IPv4, for the files that use headers. *)
Definition demo_headers : HeaderManager :=
  load_headers [demo_ethernet; mkHeaderDef "ipv4_t" [mkFieldDef (BitType 8) "ttl"; mkFieldDef (BitType 32) "dst"]]
    [mkStructDef "headers_t" [mkFieldDef (NamedType "ethernet_t") "ethernet"; mkFieldDef (NamedType "ipv4_t") "ipv4"] "hdr" true]
    HeaderManager_init.

Lemma field_layout_witness :
  (IpsaHeader_of_header demo_ethernet 3).(fields) !! "type"%string = Some (mkHeaderField FT_FIELD 3 96 16) ∧
  (IpsaHeader_of_header demo_ethernet 3).(offset) = 112.
Proof.
  destruct (field_layout demo_ethernet 3 [mkFieldDef (BitType 48) "dst"; mkFieldDef (BitType 48) "src"] "type" 16 [])
    as (Hf & Ho & _).
  - reflexivity.
  - discriminate.
  - intros f [->|[->|[]%not_elem_of_nil]%elem_of_cons]%elem_of_cons; discriminate.
  - split; [exact Hf|exact Ho].
Defined.

Lemma header_ids_distinct_witness :
  ∃ h h', (load_headers [demo_ethernet] demo_structs HeaderManager_init).(headers) !! "ethernet"%string = Some h ∧
    (load_headers [demo_ethernet] demo_structs HeaderManager_init).(headers) !! "meta"%string = Some h' ∧
    h.(header_id) ≠ h'.(header_id).
Proof.
  eexists _, _. split; [vm_compute; reflexivity|]. split; [vm_compute; reflexivity|].
  eapply (header_ids_distinct [demo_ethernet] demo_structs "ethernet" "meta").
  - vm_compute. discriminate.
  - vm_compute. reflexivity.
  - vm_compute. reflexivity.
  - discriminate.
Defined.
