(* ===== verification/Actions.v ===== *)
(** * The rP4 compiler: expressions and actions (ipsa_expression.h, ipsa_action_manager.h)

    An action of the program becomes a list of assignments, its parameters get their
    places.  Stages that do nothing but run one action are merged into the stages
    before them, when the two actions assign to different fields. *)

From stdpp Require Import base numbers list gmap strings.
From Stdlib Require Import ZArith Lia.
From S2P Require Import Prelude Headers.

#[local] Open Scope Z_scope.

(** ** The syntax tree *)
Inductive Rp4Operator : Set :=
| OP_PLUS | OP_MINUS | OP_AND | OP_OR | OP_XOR | OP_EQ | OP_NE | OP_LT | OP_GT | OP_LE | OP_GE
| OP_NOT | OP_NOTL | OP_MUL | OP_DIV.

Definition operator_string (op : Rp4Operator) : string :=
  match op with
  | OP_EQ => "==" | OP_NE => "!=" | OP_LT => "<" | OP_GT => ">" | OP_LE => "<=" | OP_GE => ">="
  | OP_PLUS => "+" | OP_MINUS => "-" | OP_AND => "&" | OP_OR => "|" | OP_XOR => "^" | OP_NOT => "~"
  | OP_MUL => "*" | OP_DIV => "/" | OP_NOTL => "!"
  end.

Inductive Rp4Operation : Set :=
| Rp4Literal (value : Z)
| Rp4LValueOp (lvalue : Rp4LValue)
| Rp4Parameter (name : string)
| Rp4Binary (op : Rp4Operator) (left right : Rp4Operation).

Record Rp4ActionDef : Set := mkActionDef {
  ad_name : string; ad_parameters : list Rp4FieldDef; ad_expressions : list (Rp4LValue * Rp4Operation)
}.

(** ** Operands *)
Inductive IpsaOperand : Set :=
| IpsaConstant (value : Z)
| IpsaParameter (parameter_id : Z)
| IpsaField (header_field : option FieldRef)
| IpsaExpression (op : Rp4Operator) (left right : option IpsaOperand).

(** The place of a parameter in the list of an action. *)
Definition parameter_index (name : string) (params : list Rp4FieldDef) : option Z :=
  match list_find (λ p, p.(fdf_name) = name) params with Some (i, _) => Some (Z.of_nat i) | None => None end.

(** [parse_expr]; the definition of the action is null for the expressions of a
    gateway. *)
Fixpoint parse_expr (hm : HeaderManager) (action_def : option Rp4ActionDef) (v : Rp4Operation)
    : res (option IpsaOperand) :=
  match v with
  | Rp4Literal x => mret (Some (IpsaConstant x))
  | Rp4LValueOp lv => mret (Some (IpsaField (lookup_lvalue hm lv)))
  | Rp4Parameter name =>
      match action_def with
      | None => Fault NullDeref
      | Some d => mret (IpsaParameter <$> parameter_index name d.(ad_parameters))
      end
  | Rp4Binary op l r =>
      l ← parse_expr hm action_def l;
      r ← parse_expr hm action_def r;
      mret (Some (IpsaExpression op l r))
  end.

(** [expr_to_expr]: what is not an expression is compared with 1.  A parameter object
    is taken for an expression object. *)
Definition expr_to_expr (hm : HeaderManager) (v : Rp4Operation)
    : res (Rp4Operator * option IpsaOperand * option IpsaOperand) :=
  x ← parse_expr hm None v;
  match x with
  | None => Fault NullDeref
  | Some (IpsaConstant _) | Some (IpsaField _) => mret (OP_EQ, Some (IpsaConstant 1), x)
  | Some (IpsaExpression op l r) => mret (op, l, r)
  | Some (IpsaParameter _) => Fault WildPointer
  end.

(** ** Actions *)
Record IpsaAssign : Set := mkAssign { as_lvalue : option FieldRef; as_rvalue : option IpsaOperand }.

Record IpsaAction : Set := mkIpsaAction {
  ac_id : Z; ac_parameter_num : Z; ac_parameters_lengths : list Z; ac_primitives : list IpsaAssign
}.

Record ActionManager : Type := mkActionManager { global_action_id : Z; actions : gmap string IpsaAction }.

Definition ActionManager_init : ActionManager := mkActionManager 0 ∅.

Definition lookup_action (am : ActionManager) (name : string) : option IpsaAction := am.(actions) !! name.

(** The action of an id; ids are not given twice. *)
Definition lookup_action_id (am : ActionManager) (id : Z) : option (string * IpsaAction) :=
  snd <$> list_find (λ kv, kv.2.(ac_id) = id) (in_name_order am.(actions)).

Definition param_length (p : Rp4FieldDef) : Z := match p.(fdf_type) with BitType n => n | NamedType _ => 0 end.

Definition assign_of (hm : HeaderManager) (d : Rp4ActionDef) (e : Rp4LValue * Rp4Operation) (acc : list IpsaAssign)
    : res (list IpsaAssign) :=
  r ← parse_expr hm (Some d) e.2;
  mret (acc ++ [mkAssign (lookup_lvalue hm e.1) r]).

Definition addAction (hm : HeaderManager) (d : Rp4ActionDef) (am : ActionManager) : res ActionManager :=
  match am.(actions) !! d.(ad_name) with
  | Some _ => mret am
  | None =>
      prims ← for_each (assign_of hm d) d.(ad_expressions) [];
      mret (mkActionManager (am.(global_action_id) + 1)
        (<[d.(ad_name) := mkIpsaAction am.(global_action_id) (zlen d.(ad_parameters))
             (param_length <$> d.(ad_parameters)) prims]> am.(actions)))
  end.

Definition load_actions (hm : HeaderManager) (defs : list Rp4ActionDef) (am : ActionManager) : res ActionManager :=
  for_each (addAction hm) defs (mkActionManager 0 am.(actions)).

(** [concatAction]: the assignments of [next_action] behind those of the action [id],
    unless a field is assigned by both. *)
Definition can_concat (assign1 assign2 : list IpsaAssign) : bool :=
  forallb (λ a1, forallb (λ a2, negb (bool_decide (a1.(as_lvalue) = a2.(as_lvalue)))) assign2) assign1.

Definition concatAction (id : Z) (next_action : IpsaAction) (am : ActionManager) : bool * ActionManager :=
  match lookup_action_id am id with
  | Some (name, x) =>
      if can_concat x.(ac_primitives) next_action.(ac_primitives) then
        (true, mkActionManager am.(global_action_id)
           (<[name := mkIpsaAction x.(ac_id) x.(ac_parameter_num) x.(ac_parameters_lengths)
                (x.(ac_primitives) ++ next_action.(ac_primitives))]> am.(actions)))
      else (false, am)
  | None => (false, am)
  end.
