(* ===== verification/Tables.v ===== *)
(** * The rP4 compiler: tables (ipsa_configuration.h, ipsa_table.h, ipsa_table_manager.h)

    A table of the program gets an id, the fields of its key, and the sizes of its
    memories in blocks; the blocks themselves are given out later (Allocation.v). *)

From stdpp Require Import base numbers list gmap strings.
From Stdlib Require Import ZArith Lia.
From S2P Require Import Prelude Headers Actions.

#[local] Open Scope Z_scope.

(** ** The sizes the compiler assumes: namespace ipsa_configuration *)
Module ipsa_configuration.
Definition SRAM_WIDTH : Z := 128.
Definition TCAM_WIDTH : Z := 64.
Definition SRAM_DEPTH : Z := 1024.
Definition TCAM_DEPTH : Z := 1024.
Definition MAX_LEVEL : Z := 4.
Definition CLUSTER_COUNT : Z := 4.
Definition CLUSTER_PROC_COUNT : Z := 4.
Definition CLUSTER_SRAM_COUNT : Z := 256.
Definition CLUSTER_TCAM_COUNT : Z := 128.
Definition PROC_COUNT : Z := CLUSTER_PROC_COUNT * CLUSTER_COUNT.
End ipsa_configuration.

(** ** The syntax tree *)
Inductive Rp4MatchType : Set := MT_EXACT | MT_TERNARY | MT_LPM.
#[export] Instance Rp4MatchType_eq_dec : EqDecision Rp4MatchType.
Proof. solve_decision. Defined.

Definition match_type_string (mt : Rp4MatchType) : string :=
  match mt with MT_EXACT => "EXACT" | MT_TERNARY => "TERNARY" | MT_LPM => "LPM" end.

Inductive Rp4TableOptionalStmt : Set :=
| TableSizeStmt (size : Z)
| TableValueWidthStmt (width : Z)
| DefaultActionStmt (action_name : string)
| TableEntriesStmt.

Record Rp4TableDef : Set := mkTableDef {
  td_name : string; td_key : list (Rp4LValue * Rp4MatchType); td_optional_stmts : list Rp4TableOptionalStmt
}.

(** ** Tables *)
Inductive IpsaMemoryType : Set := MEM_TCAM | MEM_SRAM.
#[export] Instance IpsaMemoryType_eq_dec : EqDecision IpsaMemoryType.
Proof. solve_decision. Defined.

(** [IpsaValueMemory] and [IpsaKeyMemory]. *)
Record IpsaMem : Set := mkIpsaMem {
  im_type : IpsaMemoryType; im_config : list Z; im_width : Z; im_depth : Z
}.

Record IpsaTable : Set := mkIpsaTable {
  tb_proc_id : Z;
  key_width_vec : list Z;
  tb_id : Z;
  table_id : Z;
  tb_miss_action_id : Z;
  tb_no_table : Z;
  action_to_proc : list (Z * Z);
  tb_match_type : Rp4MatchType;
  key_memory : IpsaMem;
  value_memory : IpsaMem;
  field_infos : list IpsaHeaderField
}.

(** The memories of a new table: the width and the depth are what the store holds. *)
Definition Mem_new `{Target} (place : nat) : IpsaMem :=
  mkIpsaMem MEM_SRAM [] (i32 (junk place)) (i32 (junk (S place))).

Record TableManager : Type := mkTableManager { global_table_id : Z; tables : gmap string IpsaTable }.

Definition TableManager_init : TableManager := mkTableManager 0 ∅.

Definition lookup_table (tm : TableManager) (name : string) : option IpsaTable := tm.(tables) !! name.

Definition lookup_table_id (tm : TableManager) (id : Z) : option (string * IpsaTable) :=
  snd <$> list_find (λ kv, kv.2.(table_id) = id) (in_name_order tm.(tables)).

(** [load]: the pieces of the loop body. *)

(** The default action of the last statement that names one that exists. *)
Definition default_action (am : ActionManager) (stmts : list Rp4TableOptionalStmt) : Z :=
  fold_left (λ d s,
    match s with
    | DefaultActionStmt name => match lookup_action am name with Some a => a.(ac_id) | None => d end
    | _ => d
    end) stmts 0.

(** The number of blocks of [mem] entries that [n] entries take. *)
Definition blocks (n mem : Z) : Z := Z.quot (n + (mem - 1)) mem.

Definition size_stmt (s : Rp4TableOptionalStmt) : option Z :=
  match s with TableSizeStmt n => Some n | _ => None end.
Definition width_stmt (s : Rp4TableOptionalStmt) : option Z :=
  match s with TableValueWidthStmt n => Some n | _ => None end.

(** The first statement of a kind, in blocks; one block when there is none. *)
Definition stmt_blocks (stmt : Rp4TableOptionalStmt → option Z) (mem : Z) (stmts : list Rp4TableOptionalStmt) : Z :=
  match head (omap stmt stmts) with Some n => blocks n mem | None => 1 end.

Definition key_match_type (entries : list (Rp4LValue * Rp4MatchType)) : Rp4MatchType :=
  match entries with
  | [e] => e.2
  | _ => if forallb (λ e, bool_decide (e.2 = MT_EXACT)) entries then MT_EXACT else MT_TERNARY
  end.

Definition load_table `{Target} (hm : HeaderManager) (am : ActionManager) (def : Rp4TableDef) (id : Z) : res IpsaTable :=
  let miss := default_action am def.(td_optional_stmts) in
  match def.(td_key) with
  | [] => mret (mkIpsaTable 0 [] 0 id miss 1 [] MT_EXACT (Mem_new 0) (Mem_new 2) [])
  | entries =>
      let match_type := key_match_type entries in
      let type := if decide (match_type = MT_EXACT) then MEM_SRAM else MEM_TCAM in
      '(widths, infos) ← for_each (λ e '(ws, fs),
        x ← deref_field hm (lookup_lvalue hm e.1);
        mret (ws ++ [x.(ihf_length)], fs ++ [x])) entries ([], []);
      let table_key_width := sum_of_map (λ w, w) widths in
      let mem_width := if decide (type = MEM_SRAM) then ipsa_configuration.SRAM_WIDTH else ipsa_configuration.TCAM_WIDTH in
      let mem_depth := if decide (type = MEM_SRAM) then ipsa_configuration.SRAM_DEPTH else ipsa_configuration.TCAM_DEPTH in
      let depth := stmt_blocks size_stmt mem_depth def.(td_optional_stmts) in
      let width := stmt_blocks width_stmt ipsa_configuration.SRAM_WIDTH def.(td_optional_stmts) in
      mret (mkIpsaTable 0 widths 0 id miss 0 [] match_type
        (mkIpsaMem type [] (blocks table_key_width mem_width) depth) (mkIpsaMem MEM_SRAM [] width depth) infos)
  end.

Definition load_tables `{Target} (hm : HeaderManager) (am : ActionManager) (defs : list Rp4TableDef) (tm : TableManager)
    : res TableManager :=
  for_each (λ def tm,
    t ← load_table hm am def tm.(global_table_id);
    mret (mkTableManager (tm.(global_table_id) + 1) (insert_new def.(td_name) t tm.(tables))))
    defs (mkTableManager 0 tm.(tables)).

(** A change of the table of an id. *)
Definition update_table (f : IpsaTable → IpsaTable) (id : Z) (tm : TableManager) : TableManager :=
  match lookup_table_id tm id with
  | Some (name, t) => mkTableManager tm.(global_table_id) (<[name := f t]> tm.(tables))
  | None => tm
  end.

Definition with_place (proc id : Z) (a2p : list (Z * Z)) (t : IpsaTable) : IpsaTable :=
  mkIpsaTable proc t.(key_width_vec) id t.(table_id) t.(tb_miss_action_id) t.(tb_no_table) a2p t.(tb_match_type)
    t.(key_memory) t.(value_memory) t.(field_infos).

Definition setMatcherId (id proc_id matcher_id : Z) (action_proc : list (Z * Z)) : TableManager → TableManager :=
  update_table (λ t, with_place proc_id matcher_id (t.(action_to_proc) ++ action_proc) t) id.

(** [proc_proc[...]]: a processor that is not in the map becomes processor 0. *)
Definition reorder_tables (proc_proc : gmap Z Z) (tm : TableManager) : TableManager :=
  mkTableManager tm.(global_table_id)
    ((λ t, with_place (map_ref 0 proc_proc t.(tb_proc_id)) t.(tb_id)
        ((λ ap, (ap.1, map_ref 0 proc_proc ap.2)) <$> t.(action_to_proc)) t) <$> tm.(tables)).
