(* ===== verification/Stages.v ===== *)
(** * The rP4 compiler: stages (rp4_stage.h, ipsa_stage_manager.h, ipsa_processor_manager.h)

    Every stage of the program is one processor, except the stages that only run one
    action without parameters: these are removed, and their action is put behind the
    actions that lead to them. *)

From stdpp Require Import base numbers list gmap strings.
From Stdlib Require Import ZArith Lia.
From S2P Require Import Prelude Headers Actions Tables.

#[local] Open Scope Z_scope.

(** ** The syntax tree *)
Inductive Rp4Key : Set := ExactKey (key : Z) | LpmKey (key prelen : Z) | TernaryKey (key mask : Z) | DefaultKey.

Definition get_key (k : Rp4Key) : Z :=
  match k with ExactKey key | LpmKey key _ | TernaryKey key _ => key | DefaultKey => 0 end.

(** [-1 << 32 - prelen]. *)
Definition get_mask `{Target} (k : Rp4Key) : Z :=
  match k with
  | ExactKey _ => -1
  | LpmKey _ prelen => i32 (shl32 (u32 (-1)) (32 - prelen))
  | TernaryKey _ mask => mask
  | DefaultKey => 0
  end.

Inductive Rp4SwitchValue : Set :=
| SwitchTable (name : string) | SwitchStage (name : string) (to_none : bool) | SwitchAction (name : string).

Definition isTableStmt (v : Rp4SwitchValue) : bool := match v with SwitchTable _ => true | _ => false end.

Record Rp4StageDef : Set := mkStageDef {
  sg_name : string;
  sg_headers : list string;
  sg_ops : list Rp4Operation;
  sg_switch : list (Rp4Key * Rp4SwitchValue);
  sg_executor : list (string * string)      (* action and next stage *)
}.

(** The action of a stage that can be removed. *)
Definition get_virtual_action (d : Rp4StageDef) : option (string * string) :=
  if forallb (λ e, isTableStmt e.2) d.(sg_switch) then
    match d.(sg_executor) with [e] => Some e | _ => None end
  else None.

(** ** Stages *)
Record IpsaStage : Set := mkStage {
  stage_id : Z; in_ingress : bool; removed : bool; action_proc : list (Z * Z);
  gateway_id : Z; stage_tables : list Z; stage_def : Rp4StageDef
}.

Record StageManager : Type := mkStageManager {
  global_stage_id : Z; logical_stages : list IpsaStage; logical_stages_map : gmap string Z
}.

Definition StageManager_init : StageManager := mkStageManager 0 [] ∅.

(** [gateway_id] is set when the gateways are loaded. *)
Definition add_stage `{Target} (in_ingress : bool) (d : Rp4StageDef) (sm : StageManager) : StageManager :=
  match sm.(logical_stages_map) !! d.(sg_name) with
  | Some _ => sm
  | None => mkStageManager (sm.(global_stage_id) + 1)
      (sm.(logical_stages) ++ [mkStage sm.(global_stage_id) in_ingress false [] (i32 (junk 0)) [] d])
      (<[d.(sg_name) := zlen sm.(logical_stages)]> sm.(logical_stages_map))
  end.

Definition load_stages `{Target} (ingress egress : list Rp4StageDef) (sm : StageManager) : StageManager :=
  fold_left (λ sm d, add_stage false d sm) egress
    (fold_left (λ sm d, add_stage true d sm) ingress
       (mkStageManager 0 sm.(logical_stages) sm.(logical_stages_map))).

Definition lookup_stage (sm : StageManager) (name : string) : option IpsaStage :=
  match sm.(logical_stages_map) !! name with
  | Some x => sm.(logical_stages) !! Z.to_nat x
  | None => None
  end.

Definition lookup_stage_id (sm : StageManager) (id : Z) : option IpsaStage :=
  snd <$> list_find (λ s, s.(removed) = false ∧ s.(stage_id) = id) sm.(logical_stages).

(** Copies with one member changed. *)
Definition set_action_proc (l : list (Z * Z)) (s : IpsaStage) : IpsaStage :=
  mkStage s.(stage_id) s.(in_ingress) s.(removed) l s.(gateway_id) s.(stage_tables) s.(stage_def).
Definition set_removed (s : IpsaStage) : IpsaStage :=
  mkStage s.(stage_id) s.(in_ingress) true s.(action_proc) s.(gateway_id) s.(stage_tables) s.(stage_def).
Definition set_stage_tables (l : list Z) (s : IpsaStage) : IpsaStage :=
  mkStage s.(stage_id) s.(in_ingress) s.(removed) s.(action_proc) s.(gateway_id) l s.(stage_def).
Definition set_stage_id (i : Z) (s : IpsaStage) : IpsaStage :=
  mkStage i s.(in_ingress) s.(removed) s.(action_proc) s.(gateway_id) s.(stage_tables) s.(stage_def).
Definition set_gateway_id (i : Z) (s : IpsaStage) : IpsaStage :=
  mkStage s.(stage_id) s.(in_ingress) s.(removed) s.(action_proc) i s.(stage_tables) s.(stage_def).

(** The stages of a manager replaced. *)
Definition with_stages (l : list IpsaStage) (sm : StageManager) : StageManager :=
  mkStageManager sm.(global_stage_id) l sm.(logical_stages_map).
