(* ===== verification/Levels.v ===== *)
(** * The rP4 compiler: parser levels (rp4_state.h, ipsa_level_manager.h)

    Every state of the parser becomes a level of the hardware parser, with an entry
    for each of its transitions; level 0 leads to the first state. *)

From stdpp Require Import base numbers list gmap strings.
From Stdlib Require Import ZArith Lia.
From S2P Require Import Prelude Headers Actions Tables Stages.

#[local] Open Scope Z_scope.

(** ** The syntax tree *)
Record Rp4TransitionEntry : Set := mkTransitionEntry { te_key : Rp4Key; te_next : string; te_accept_drop : Z }.

Inductive Rp4Transition : Set :=
| DirectTransition (entry : Rp4TransitionEntry)
| SelectTransition (targets : list (string * string * string)) (entries : list Rp4TransitionEntry).

Record Rp4StateDef : Set := mkStateDef {
  st_name : string; st_extract : string * string; st_transition : Rp4Transition
}.

(** ** Levels *)
Record IpsaParserTcamEntry : Set := mkLevelTcam { lt_current_state : Z; lt_entry : Z; lt_mask : Z }.
Record IpsaParserSramEntry : Set := mkLevelSram {
  ls_header_id : Z; ls_header_length : Z; ls_next_state : Z;
  ls_transition_fields : list IpsaHeaderField; ls_accept_drop : Z
}.
Record IpsaLevelEntry : Set := mkLevelEntry { le_tcam : IpsaParserTcamEntry; le_sram : IpsaParserSramEntry }.
Abbreviation IpsaLevel := (list IpsaLevelEntry).

Record LevelManager : Type := mkLevelManager { global_level_id : Z; levels : list IpsaLevel; states : gmap string Z }.

Definition LevelManager_init : LevelManager := mkLevelManager 0 [] ∅.

Definition get_state (defs : list Rp4StateDef) (name : string) : option Rp4StateDef :=
  snd <$> list_find (λ s, s.(st_name) = name) defs.

(** The fields a state selects on; the name in front of the header is not looked at. *)
Definition get_select (hm : HeaderManager) (d : Rp4StateDef) : res (list IpsaHeaderField) :=
  match d.(st_transition) with
  | DirectTransition _ => mret []
  | SelectTransition targets _ =>
      collect (λ '(_, mem, fld), deref_field hm (lookup_names hm mem fld)) targets
  end.

Definition deref_header (h : option IpsaHeader) : res IpsaHeader :=
  match h with Some h => Ok h | None => Fault NullDeref end.

Definition header_of_state (hm : HeaderManager) (d : Rp4StateDef) : res IpsaHeader :=
  deref_header (get_header_member hm d.(st_extract).1 d.(st_extract).2).

(** The entry that leads to a state. *)
Definition enter_state (hm : HeaderManager) (lm : LevelManager) (tcam : IpsaParserTcamEntry) (d : Rp4StateDef)
    : res IpsaLevelEntry :=
  m ← header_of_state hm d;
  fs ← get_select hm d;
  mret (mkLevelEntry tcam (mkLevelSram m.(header_id) m.(offset) (default 0 (lm.(states) !! d.(st_name))) fs 2)).

Definition build_entry `{Target} (hm : HeaderManager) (lm : LevelManager) (defs : list Rp4StateDef) (state : Z)
    (e : Rp4TransitionEntry) : res IpsaLevelEntry :=
  let tcam := mkLevelTcam state (get_key e.(te_key)) (get_mask e.(te_key)) in
  if e.(te_accept_drop) =? 2 then
    match get_state defs e.(te_next) with
    | None => Fault NullDeref
    | Some next_state => enter_state hm lm tcam next_state
    end
  else mret (mkLevelEntry tcam (mkLevelSram 0 0 0 [] e.(te_accept_drop))).

Definition add_entry (level : Z) (e : IpsaLevelEntry) (lm : LevelManager) : LevelManager :=
  mkLevelManager lm.(global_level_id) (alter (λ l, l ++ [e]) (Z.to_nat level) lm.(levels)) lm.(states).

Definition build_entries `{Target} (hm : HeaderManager) (defs : list Rp4StateDef) (level : Z)
    (es : list Rp4TransitionEntry) (lm : LevelManager) : res LevelManager :=
  for_each (λ e lm,
    x ← build_entry hm lm defs level e;
    mret (add_entry level x lm)) es lm.

Definition entries_of (t : Rp4Transition) : list Rp4TransitionEntry :=
  match t with DirectTransition e => [e] | SelectTransition _ es => es end.

Definition add_level (name : string) (lm : LevelManager) : LevelManager :=
  mkLevelManager (lm.(global_level_id) + 1) (lm.(levels) ++ [[]]) (insert_new name lm.(global_level_id) lm.(states)).

Definition load_levels `{Target} (hm : HeaderManager) (defs : list Rp4StateDef) (lm : LevelManager) : res LevelManager :=
  match defs with
  | [] => mret (mkLevelManager 0 lm.(levels) lm.(states))
  | first_state :: _ =>
      _ ← header_of_state hm first_state;
      let lm := fold_left (λ lm d, add_level d.(st_name) lm) defs
                  (add_level "" (mkLevelManager 0 lm.(levels) lm.(states))) in
      e ← enter_state hm lm (mkLevelTcam 0 0 0) first_state;
      for_each (λ d lm,
        match lm.(states) !! d.(st_name) with
        | Some level => build_entries hm defs level (entries_of d.(st_transition)) lm
        | None => mret lm
        end) defs (add_entry 0 e lm)
  end.
