(* ===== verification/Distribution.v ===== *)
(** * The rP4 compiler: the distribution of the parser (ipsa_distribution.h)

    [distributeParsers] gives every stage the parser levels it has to run, so that a
    packet that comes to a stage has been through the levels the stage needs. *)

From stdpp Require Import base numbers list gmap strings sorting relations.
From Stdlib Require Import ZArith Lia.
From S2P Require Import Prelude Topology Headers Actions Tables Stages Levels.

#[local] Open Scope Z_scope.

(** ** Parsers: [distributeParsers]

    A stage needs the levels that extract its headers, and the levels that lead to
    them.  It gets those that no stage on every way to it has got already. *)
Definition insert_once (x : Z) (l : list Z) : list Z := if bool_decide (x ∈ l) then l else l ++ [x].
Definition add_once (xs l : list Z) : list Z := fold_left (λ l x, insert_once x l) xs l.

(** The levels that extract a header, from the entries that do not accept or drop. *)
Definition live_entries (l : IpsaLevel) : list IpsaParserSramEntry :=
  filter (λ e, 2 ≤ e.(ls_accept_drop)) (le_sram <$> l).

Definition header_levels (ids : list Z) (levels : list IpsaLevel) : graph :=
  fold_left (λ m '(level_id, l),
    fold_left (λ m e, <[e.(ls_header_id) := insert_once level_id (map_ref [] m e.(ls_header_id))]> m)
      (live_entries l) m)
    (zip (seqZ 0 (zlen levels)) levels) (list_to_map ((λ i, (i, [])) <$> ids)).

(** The levels a level leads to. *)
Definition level_next (levels : list IpsaLevel) : graph :=
  list_to_map (zip (seqZ 0 (zlen levels)) ((λ l, add_once (ls_next_state <$> live_entries l) []) <$> levels)).

(** A level and those before it, for the levels in their order. *)
Definition level_closure (last : graph) (order : list Z) (start : graph) : res graph :=
  for_each (λ level m,
    preds ← map_at last level;
    l ← for_each (λ p l, xs ← map_at m p; mret (add_once xs l)) preds (map_ref [] m level);
    mret (<[level := l]> m)) order start.

Definition levels_of_stage (hm : HeaderManager) (header_level level_level : graph) (s : IpsaStage) : res (list Z) :=
  for_each (λ name l,
    h ← deref_header (get_header hm name);
    mret (fold_left (λ l level, add_once (map_ref [] level_level level) l) (map_ref [] header_level h.(header_id)) l))
    s.(stage_def).(sg_headers) [].

Definition live_stages (stages : list IpsaStage) : list IpsaStage := filter (λ s, s.(removed) = false) stages.

Definition stage_next (stages : list IpsaStage) : graph :=
  fold_left (λ m s, insert_new s.(stage_id) (add_once (filter (λ p, 0 ≤ p) s.(action_proc).*2) []) m)
    (live_stages stages) ∅.

(** The levels a stage gets, and those that it and the stages before it have. *)
Definition distribute_stage (last proc_level : graph) (id : Z) (st : graph * graph) : graph * graph :=
  let '(distributed, total_levels) := st in
  let level_ids := map_ref [] proc_level id in
  match map_ref [] last id with
  | [] => (insert_new id level_ids distributed, insert_new id level_ids total_levels)
  | p :: ps =>
      let total := filter (λ x, Forall (λ q, x ∈ map_ref [] total_levels q) ps) (map_ref [] total_levels p) in
      let '(temp, total) := fold_left (λ '(temp, total) x,
        if bool_decide (x ∈ total) then (temp, total) else (temp ++ [x], total ++ [x])) level_ids ([], total) in
      (insert_new id temp distributed, insert_new id total total_levels)
  end.

(** The place of a level in the order; the comparison [std::sort] is given. *)
Definition position (order : list Z) (x : Z) : nat := default (length order) (fst <$> list_find (λ z, z = x) order).
Definition before (order : list Z) (x y : Z) : Prop := (position order x ≤ position order y)%nat.
#[export] Instance before_dec order : RelDecision (before order).
Proof. intros x y. unfold before. apply _. Defined.

(** What the distribution leaves: the order of the stages and the levels of each. *)
Definition distributeParsers (hm : HeaderManager) (lm : LevelManager) (stages : list IpsaStage)
    : res (list Z * graph) :=
  let ids := (λ kv, kv.2.(header_id)) <$> in_name_order hm.(headers) in
  let header_level := header_levels ids lm.(levels) in
  let level_next_table := level_next lm.(levels) in
  let level_last_table := last_of level_next_table in
  level_topological ← topologicalSort level_last_table level_next_table;
  level_level ← level_closure level_last_table level_topological
    (list_to_map ((λ i, (i, [i])) <$> seqZ 0 (zlen lm.(levels))));
  proc_level ← for_each (λ s m,
    l ← levels_of_stage hm header_level level_level s;
    mret (insert_new s.(stage_id) l m)) (live_stages stages) ∅;
  let next_table := stage_next stages in
  let last_table := last_of next_table in
  topo_sequence ← topologicalSort last_table next_table;
  let '(distributed, _) := fold_left (λ st id, distribute_stage last_table proc_level id st) topo_sequence (∅, ∅) in
  mret (topo_sequence, merge_sort (before level_topological) <$> distributed).

(** ** What a stage needs *)

(** Level [lvl] extracts the header [id]. *)
Definition extracts (levels : list IpsaLevel) (id lvl : Z) : Prop :=
  ∃ l e, 0 ≤ lvl ∧ levels !! Z.to_nat lvl = Some l ∧ e ∈ live_entries l ∧ e.(ls_header_id) = id.

(** A stage needs the levels that extract its headers, and those before them. *)
Definition needs (hm : HeaderManager) (levels : list IpsaLevel) (s : IpsaStage) (x : Z) : Prop :=
  ∃ name h lvl, name ∈ s.(stage_def).(sg_headers) ∧ get_header hm name = Some h ∧
    extracts levels h.(header_id) lvl ∧ rtc (edge (level_next levels)) x lvl.

(** A way along the actions of the stages, from a stage that no action leads to. *)
Inductive action_way (next : graph) : list Z → Z → Prop :=
| way_start k : is_Some (next !! k) → (∀ p, ¬ edge next p k) → action_way next [k] k
| way_step w p k : action_way next w p → edge next p k → action_way next (w ++ [k]) k.

(** A way of the data plane, on which gateways lead from stage to stage too; [gate] are
    the stages their entries name. A gateway may lead to a stage that no action leads
    to, or where an action of the same stage leads. *)
Inductive data_way (next : graph) (gate : Z → Z → Prop) : list Z → Z → Prop :=
| data_start k : is_Some (next !! k) → (∀ p, ¬ edge next p k) → data_way next gate [k] k
| data_action w p k : data_way next gate w p → edge next p k → data_way next gate (w ++ [k]) k
| data_gate w p k : data_way next gate w p → gate p k → is_Some (next !! k) → (∀ q, edge next q k → q = p) →
    data_way next gate (w ++ [k]) k.

(** ** Lists without repetitions *)
Lemma insert_once_elem x y l : y ∈ insert_once x l ↔ y = x ∨ y ∈ l.
Proof. unfold insert_once. case_bool_decide; set_solver. Qed.

Lemma add_once_elem xs l y : y ∈ add_once xs l ↔ y ∈ xs ∨ y ∈ l.
Proof.
  unfold add_once. revert l. induction xs as [|x xs IH]; intros l; cbn [fold_left]; [set_solver|].
  rewrite IH, insert_once_elem. set_solver.
Qed.

Lemma insert_once_nodup x l : NoDup l → NoDup (insert_once x l).
Proof.
  intros Hl. unfold insert_once. case_bool_decide; [done|]. apply NoDup_app. split; [done|].
  split; [set_solver|apply NoDup_singleton].
Qed.

Lemma add_once_nodup xs l : NoDup l → NoDup (add_once xs l).
Proof.
  unfold add_once. revert l. induction xs as [|x xs IH]; intros l Hl; cbn [fold_left]; [done|].
  by apply IH, insert_once_nodup.
Qed.

(** ** Lists as maps from places *)
Lemma elem_of_indexed {V} (l : list V) i v :
  (i, v) ∈ zip (seqZ 0 (zlen l)) l ↔ 0 ≤ i ∧ l !! Z.to_nat i = Some v.
Proof.
  rewrite elem_of_lookup_zip_with. split.
  - intros (n & a & b & [= <- <-] & [-> Hn]%lookup_seqZ & Hb). rewrite Z.add_0_l, Nat2Z.id. split; [lia|done].
  - intros [Hi Hv]. exists (Z.to_nat i), i, v. split; [done|]. split; [|done]. apply lookup_seqZ.
    apply lookup_lt_Some in Hv. unfold zlen. lia.
Qed.

Lemma lookup_indexed {V} (l : list V) i v :
  (list_to_map (zip (seqZ 0 (zlen l)) l) : gmap Z V) !! i = Some v ↔ 0 ≤ i ∧ l !! Z.to_nat i = Some v.
Proof.
  rewrite <- elem_of_indexed. symmetry. apply elem_of_list_to_map. rewrite fst_zip; [apply NoDup_seqZ|].
  rewrite length_seqZ. unfold zlen. lia.
Qed.

Lemma level_next_lookup levels i ns :
  level_next levels !! i = Some ns ↔
  ∃ l, 0 ≤ i ∧ levels !! Z.to_nat i = Some l ∧ ns = add_once (ls_next_state <$> live_entries l) [].
Proof.
  unfold level_next. replace (zlen levels) with (zlen ((λ l, add_once (ls_next_state <$> live_entries l) []) <$> levels))
    by (unfold zlen; by rewrite length_fmap).
  rewrite lookup_indexed, list_lookup_fmap. destruct (levels !! Z.to_nat i) as [l|]; cbn; [|naive_solver].
  split; [intros [? [= <-]]; eauto|]. intros (l' & ? & [= <-] & ->). done.
Qed.

(** ** The levels of a header *)
Lemma header_level_elem es level m id y :
  y ∈ map_ref [] (fold_left (λ m e, <[e.(ls_header_id) := insert_once level (map_ref [] m e.(ls_header_id))]> m) es m) id ↔
  y ∈ map_ref [] m id ∨ (y = level ∧ ∃ e, e ∈ es ∧ e.(ls_header_id) = id).
Proof.
  revert m. induction es as [|e es IH]; intros m; cbn [fold_left]; [set_solver|]. rewrite IH.
  unfold map_ref at 1. destruct (decide (ls_header_id e = id)) as [<-|Hne].
  - rewrite lookup_insert_eq. cbn [from_option]. unfold id. rewrite insert_once_elem. set_solver.
  - rewrite lookup_insert_ne by done. unfold map_ref. set_solver.
Qed.

Lemma header_levels_elem ids levels h y :
  y ∈ map_ref [] (header_levels ids levels) h ↔ extracts levels h y.
Proof.
  unfold header_levels. set (f := λ m '(level_id, l), fold_left _ (live_entries l) m).
  assert (H : ∀ ps m, y ∈ map_ref [] (fold_left f ps m) h ↔
    y ∈ map_ref [] m h ∨ ∃ l e, (y, l) ∈ ps ∧ e ∈ live_entries l ∧ e.(ls_header_id) = h).
  { induction ps as [|[i l] ps IH]; intros m; cbn [fold_left]; [set_solver|]. rewrite IH. unfold f at 1.
    rewrite header_level_elem. split.
    - intros [[?|(-> & e & He & Hh)]|(l' & e & Hl & He)]; [by left|right|right].
      + exists l, e. split; [by left|done].
      + exists l', e. split; [by right|done].
    - intros [?|(l' & e & [[= <- <-]|Hl]%elem_of_cons & He & Hh)]; [by left; left|left; right; eauto|right; eauto]. }
  rewrite H. split.
  - intros [Hm|(l & e & [Hi Hl]%elem_of_indexed & He)]; [|by exists l, e].
    exfalso. unfold map_ref in Hm. destruct (list_to_map _ !! h) as [v|] eqn:E; [|by apply not_elem_of_nil in Hm].
    apply elem_of_list_to_map_2 in E. apply list_elem_of_fmap in E as (i & [= -> ->] & _).
    by apply not_elem_of_nil in Hm.
  - intros (l & e & Hi & Hl & He). right. exists l, e. split; [by apply elem_of_indexed|done].
Qed.

(** ** A level and those before it *)
Lemma map_at_ok {V} (m : gmap Z V) k v : m !! k = Some v → map_at m k = Ok v.
Proof. unfold map_at. by intros ->. Qed.

Lemma join_preds (m : graph) preds l :
  (∀ p, p ∈ preds → is_Some (m !! p)) →
  ∃ l', for_each (λ p l, xs ← map_at m p; mret (add_once xs l)) preds l = Ok l' ∧
    ∀ x, x ∈ l' ↔ x ∈ l ∨ ∃ p, p ∈ preds ∧ x ∈ map_ref [] m p.
Proof.
  revert l. induction preds as [|p preds IH]; intros l Hm; cbn [for_each].
  - exists l. split; [done|]. intros x. split; [by left|]. by intros [?|(p & ?%not_elem_of_nil & _)].
  - destruct (Hm p) as [xs Hxs]; [by left|]. rewrite (map_at_ok m p xs Hxs). cbn [mbind res_mbind mret res_mret].
    destruct (IH (add_once xs l)) as (l' & -> & Hl'); [intros q Hq; apply Hm; by right|].
    exists l'. split; [done|]. intros x. rewrite Hl', add_once_elem. split.
    + intros [[?|?]|(q & ? & ?)]; [right; exists p; split; [by left|unfold map_ref; by rewrite Hxs]|by left|right; exists q; split; [by right|done]].
    + intros [?|(q & [->|?]%elem_of_cons & Hq)]; [by left; right| |by right; exists q].
      left. left. unfold map_ref in Hq. by rewrite Hxs in Hq.
Qed.

(** The levels done so far hold those that lead to them, the others only themselves. *)
Record closed_for (next : graph) (seq : list Z) (m : graph) : Prop := {
  cf_dom : ∀ k, is_Some (m !! k) ↔ is_Some (next !! k);
  cf_done : ∀ k x, k ∈ seq → x ∈ map_ref [] m k ↔ rtc (edge next) x k;
  cf_todo : ∀ k, is_Some (next !! k) → k ∉ seq → map_ref [] m k = [k]
}.

Lemma level_closure_step next seq k m :
  graph_ok next → closed_for next seq m → is_Some (next !! k) → k ∉ seq → (∀ p, edge next p k → p ∈ seq) →
  ∃ m', level_closure (last_of next) [k] m = Ok m' ∧ closed_for next (seq ++ [k]) m'.
Proof.
  intros Hok [Hdom Hdone Htodo] Hk Hnew Hpre. unfold level_closure. cbn [for_each].
  assert (Hlast : ∃ preds, last_of next !! k = Some preds ∧ ∀ p, p ∈ preds ↔ edge next p k).
  { destruct (proj2 (last_of_dom next k Hok) Hk) as [preds Hp]. exists preds. split; [done|].
    intros p. rewrite <- last_of_elem. unfold map_ref. by rewrite Hp. }
  destruct Hlast as (preds & Hl & Hpreds). rewrite (map_at_ok _ _ _ Hl). cbn [mbind res_mbind].
  clear Hl.
  destruct (join_preds m preds (map_ref [] m k)) as (l & -> & Hl).
  { intros p Hp%Hpreds. by apply Hdom, (edge_node next p k). }
  cbn [mbind res_mbind mret res_mret]. eexists. split; [done|].
  assert (Hother : ∀ j, j ≠ k → map_ref [] (<[k:=l]> m) j = map_ref [] m j).
  { intros j Hj. unfold map_ref. by rewrite lookup_insert_ne. }
  split.
  - intros j. destruct (decide (k = j)) as [<-|]; [by rewrite lookup_insert_eq|by rewrite lookup_insert_ne].
  - intros j x [Hj| ->%list_elem_of_singleton]%elem_of_app; [rewrite Hother by (by intros ->); by apply Hdone|].
    unfold map_ref. rewrite lookup_insert_eq. cbn [from_option]. unfold id. rewrite Hl, (Htodo k Hk Hnew).
    rewrite list_elem_of_singleton. split.
    + intros [->|(p & Hp%Hpreds & Hx)]; [constructor|]. eapply rtc_r; [|done]. apply Hdone; auto.
    + intros [->|(p & Hxp & He)]%rtc_inv_r; [by left|right]. exists p. split; [by apply Hpreds|]. apply Hdone; auto.
  - intros j Hj Hnj. rewrite Hother by set_solver. apply Htodo; set_solver.
Qed.

Lemma level_closure_app last o1 o2 m :
  level_closure last (o1 ++ o2) m = (m ← level_closure last o1 m; level_closure last o2 m).
Proof. apply for_each_app. Qed.

Lemma level_closure_ok next order m :
  graph_ok next → order ≡ₚ map_keys next → topo_sorted next order → closed_for next [] m →
  ∃ m', level_closure (last_of next) order m = Ok m' ∧ closed_for next order m'.
Proof.
  intros Hok Hp Hs Hm. assert (Hnd : NoDup order) by (rewrite Hp; apply NoDup_map_keys).
  assert (Hn : ∀ k, k ∈ order → is_Some (next !! k)) by (intros k Hk; apply elem_of_map_keys; by rewrite <- Hp).
  clear Hp. induction order as [|k order IH] using rev_ind; [by exists m|].
  apply NoDup_app in Hnd as (Hnd & Hnk & _).
  destruct IH as (m1 & Hm1 & Hc); [|done| |].
  { intros l1 j l2 -> p He. apply (Hs l1 j (l2 ++ [k])); [by rewrite <- app_assoc|done]. }
  { intros j Hj. apply Hn, elem_of_app. by left. }
  destruct (level_closure_step next order k m1 Hok Hc) as (m' & Hm' & Hc').
  - apply Hn, elem_of_app. right. by left.
  - intros Hk. apply (Hnk k Hk). by left.
  - intros p He. by apply (Hs order k []).
  - exists m'. split; [|done]. rewrite level_closure_app, Hm1. exact Hm'.
Qed.

(** Every level starts with itself. *)
Lemma closed_for_start levels :
  closed_for (level_next levels) [] (list_to_map ((λ i, (i, [i])) <$> seqZ 0 (zlen levels))).
Proof.
  set (m := list_to_map _). assert (Hm : ∀ k v, m !! k = Some v ↔ 0 ≤ k < zlen levels ∧ v = [k]).
  { intros k v. unfold m. rewrite <- elem_of_list_to_map.
    - rewrite list_elem_of_fmap. split.
      + intros (i & [= -> ->] & Hi%elem_of_seqZ). split; [lia|done].
      + intros [Hi ->]. exists k. split; [done|]. apply elem_of_seqZ. lia.
    - rewrite <- list_fmap_compose, (list_fmap_ext _ id), list_fmap_id; [apply NoDup_seqZ|done]. }
  assert (Hn : ∀ k, is_Some (level_next levels !! k) ↔ 0 ≤ k < zlen levels).
  { intros k. split.
    - intros [v (l & Hk & Hl & _)%level_next_lookup]. apply lookup_lt_Some in Hl. unfold zlen. lia.
    - intros Hk. destruct (lookup_lt_is_Some_2 levels (Z.to_nat k)) as [l Hl]; [unfold zlen in Hk; lia|].
      eexists. apply level_next_lookup. exists l. split; [lia|done]. }
  split.
  - intros k. rewrite Hn. split; [intros [v [? _]%Hm]; done|]. intros Hk. exists [k]. by apply Hm.
  - intros k x Hk. by apply not_elem_of_nil in Hk.
  - intros k Hk%Hn _. unfold map_ref. rewrite (proj2 (Hm k [k])); done.
Qed.

(** ** The levels of the stages *)
Definition headers_known (hm : HeaderManager) (s : IpsaStage) : Prop :=
  Forall (λ name, is_Some (get_header hm name)) s.(stage_def).(sg_headers).

Lemma fold_levels_elem m lvls l x :
  x ∈ fold_left (λ l level, add_once (map_ref [] m level) l) lvls l ↔ x ∈ l ∨ ∃ v, v ∈ lvls ∧ x ∈ map_ref [] m v.
Proof.
  revert l. induction lvls as [|v lvls IH]; intros l; cbn [fold_left].
  - split; [by left|]. by intros [?|(v & ?%not_elem_of_nil & _)].
  - rewrite IH, add_once_elem. split.
    + intros [[?|?]|(w & ? & ?)]; [right; exists v; split; [by left|done]|by left|right; exists w; split; [by right|done]].
    + intros [?|(w & [->|?]%elem_of_cons & ?)]; [by left; right|by left; left|by right; exists w].
Qed.

Lemma fold_levels_nodup m lvls l : NoDup l → NoDup (fold_left (λ l level, add_once (map_ref [] m level) l) lvls l).
Proof. revert l. induction lvls; intros l Hl; cbn [fold_left]; [done|]. by apply IHlvls, add_once_nodup. Qed.

Lemma levels_of_stage_ok hm levels ids m s :
  headers_known hm s → (∀ k x, extracts levels k x → is_Some (level_next levels !! x)) →
  (∀ k x, is_Some (level_next levels !! k) → x ∈ map_ref [] m k ↔ rtc (edge (level_next levels)) x k) →
  ∃ l, levels_of_stage hm (header_levels ids levels) m s = Ok l ∧ NoDup l ∧ ∀ x, x ∈ l ↔ needs hm levels s x.
Proof.
  intros Hk Hex Hm. unfold levels_of_stage, needs, headers_known in *.
  assert (H : ∀ names l, Forall (λ name, is_Some (get_header hm name)) names → NoDup l →
    ∃ l', for_each (λ name l, h ← deref_header (get_header hm name);
      mret (fold_left (λ l level, add_once (map_ref [] m level) l) (map_ref [] (header_levels ids levels) h.(header_id)) l))
      names l = Ok l' ∧ NoDup l' ∧ ∀ x, x ∈ l' ↔ x ∈ l ∨ ∃ name h lvl, name ∈ names ∧ get_header hm name = Some h ∧
        extracts levels h.(header_id) lvl ∧ rtc (edge (level_next levels)) x lvl).
  { induction names as [|name names IH]; intros l Hnames Hl; cbn [for_each].
    - exists l. split; [done|]. split; [done|]. intros x. split; [by left|]. by intros [?|(n & h & v & ?%not_elem_of_nil & _)].
    - apply Forall_cons in Hnames as [[h Hh] Hnames]. rewrite Hh. cbn [deref_header mbind res_mbind mret res_mret].
      destruct (IH (fold_left (λ l level, add_once (map_ref [] m level) l) (map_ref [] (header_levels ids levels) h.(header_id)) l) Hnames)
        as (l' & -> & Hnd & Hl'); [by apply fold_levels_nodup|].
      exists l'. split; [done|]. split; [done|]. intros x. rewrite Hl', fold_levels_elem. split.
      + intros [[?|(v & Hv%header_levels_elem & Hx)]|(n & h' & v & ? & ?)]; [by left|right; exists name, h, v|right; exists n, h', v].
        * split; [by left|]. split; [done|]. split; [done|]. apply (Hm v); eauto.
        * split; [by right|done].
      + intros [?|(n & h' & v & [->|Hn]%elem_of_cons & Hh' & Hv & Hx)]; [by left; left| |right; eauto 10].
        simplify_eq. left. right. exists v. split; [by apply header_levels_elem|]. apply Hm; eauto. }
  destruct (H (sg_headers (stage_def s)) [] Hk ltac:(constructor)) as (l & -> & Hnd & Hl).
  exists l. split; [done|]. split; [done|]. intros x. rewrite Hl. set_solver.
Qed.

Lemma proc_levels_ok hm levels ids m ss pl :
  (∀ s, s ∈ ss → ∃ l, levels_of_stage hm (header_levels ids levels) m s = Ok l ∧ NoDup l ∧ ∀ x, x ∈ l ↔ needs hm levels s x) →
  NoDup (stage_id <$> ss) → (∀ s, s ∈ ss → pl !! s.(stage_id) = None) →
  ∃ pl', for_each (λ s m', l ← levels_of_stage hm (header_levels ids levels) m s;
      mret (insert_new s.(stage_id) l m')) ss pl = Ok pl' ∧
    (∀ s, s ∈ ss → ∃ l, pl' !! s.(stage_id) = Some l ∧ NoDup l ∧ ∀ x, x ∈ l ↔ needs hm levels s x) ∧
    (∀ k, k ∉ stage_id <$> ss → pl' !! k = pl !! k).
Proof.
  revert pl. induction ss as [|s ss IH]; intros pl Hs Hnd Hpl; cbn [for_each fmap list_fmap] in *.
  - exists pl. split; [done|]. split; [|done]. by intros s ?%not_elem_of_nil.
  - apply NoDup_cons in Hnd as [Hns Hnd]. destruct (Hs s) as (l & -> & Hl); [by left|]. cbn [mbind res_mbind mret res_mret].
    assert (Hnew : insert_new (stage_id s) l pl = <[stage_id s := l]> pl).
    { unfold insert_new. by rewrite (Hpl s) by by left. }
    rewrite Hnew. destruct (IH (<[stage_id s := l]> pl)) as (pl' & -> & H1 & H2); [|done| |].
    + intros t Ht. apply Hs. by right.
    + intros t Ht. rewrite lookup_insert_ne; [apply Hpl; by right|].
      intros Heq. apply Hns. rewrite Heq. by apply list_elem_of_fmap_2.
    + exists pl'. split; [done|]. split.
      * intros t [->|Ht]%elem_of_cons; [|by apply H1]. exists l. rewrite H2 by done. by rewrite lookup_insert_eq.
      * intros k Hk. rewrite H2 by set_solver. rewrite lookup_insert_ne by set_solver. done.
Qed.

(** ** The stages in their order *)
Section spread.
Context (next need : graph) (R : relation Z).
Context (need_nodup : ∀ k, NoDup (map_ref [] need k)).
Context (need_closed : ∀ k p x, x ∈ map_ref [] need k → R p x → p ∈ map_ref [] need k).

(** A level all stages before [k] have. *)
Definition common (T : graph) (k x : Z) : Prop := (∃ p, edge next p k) ∧ ∀ p, edge next p k → x ∈ map_ref [] T p.

(** The stages [pre] have their levels [D]; [T] are those of a stage and of all ways to it. *)
Record spread (pre : list Z) (D T : graph) : Prop := {
  sp_D : ∀ k, is_Some (D !! k) ↔ k ∈ pre;
  sp_T : ∀ k, is_Some (T !! k) ↔ k ∈ pre;
  sp_from : ∀ k x, k ∈ pre → x ∈ map_ref [] T k ↔ x ∈ map_ref [] D k ∨ common T k x;
  sp_need : ∀ k x, k ∈ pre → x ∈ map_ref [] need k → x ∈ map_ref [] T k;
  sp_sub : ∀ k x, k ∈ pre → x ∈ map_ref [] D k → x ∈ map_ref [] need k;
  sp_nodup : ∀ k, k ∈ pre → NoDup (map_ref [] D k);
  sp_closed : ∀ k p x, k ∈ pre → x ∈ map_ref [] T k → R p x → p ∈ map_ref [] T k
}.

(** The levels that are not in [total] yet, in both lists. *)
Definition take_fresh : list Z * list Z → Z → list Z * list Z :=
  λ '(temp, total) x, if bool_decide (x ∈ total) then (temp, total) else (temp ++ [x], total ++ [x]).

Lemma fresh_levels level_ids t0 tot0 :
  NoDup t0 → (∀ x, x ∈ t0 → x ∈ tot0) →
  let st := fold_left take_fresh level_ids (t0, tot0) in
  NoDup st.1 ∧ (∀ x, x ∈ t0 → x ∈ st.1) ∧ (∀ x, x ∈ st.2 ↔ x ∈ tot0 ∨ x ∈ level_ids) ∧
  (∀ x, x ∈ st.2 ↔ x ∈ tot0 ∨ x ∈ st.1) ∧ (∀ x, x ∈ st.1 → x ∈ t0 ∨ x ∈ level_ids).
Proof.
  cbn zeta. revert t0 tot0. induction level_ids as [|y ys IH]; intros t0 tot0 Hnd Hsub; cbn [fold_left].
  - cbn. setoid_rewrite elem_of_nil. split; [done|]. split; [done|]. split; [|split]; intros x; [tauto| |tauto]. specialize (Hsub x). tauto.
  - destruct (decide (y ∈ tot0)) as [Hy|Hy].
    + replace (take_fresh (t0, tot0) y) with (t0, tot0) by (unfold take_fresh; by rewrite bool_decide_true).
      destruct (IH t0 tot0 Hnd Hsub) as (? & ? & H1 & H2 & H3). split; [done|]. split; [done|].
      split; [|split; [done|intros x Hx; rewrite elem_of_cons; destruct (H3 x Hx); tauto]].
      intros x. rewrite H1, elem_of_cons. split; [tauto|]. intros [?|[->|?]]; tauto.
    + replace (take_fresh (t0, tot0) y) with (t0 ++ [y], tot0 ++ [y]) by (unfold take_fresh; by rewrite bool_decide_false).
      destruct (IH (t0 ++ [y]) (tot0 ++ [y])) as (? & Hin & H1 & H2 & H3).
      * apply NoDup_app. split; [done|]. split; [|apply NoDup_singleton].
        intros x Hx ->%list_elem_of_singleton. by apply Hy, Hsub.
      * intros x. rewrite !elem_of_app. specialize (Hsub x). tauto.
      * set (st := fold_left _ _ _) in *. assert (y ∈ st.1) by (apply Hin, elem_of_app; right; by left).
        split; [done|]. split; [intros x Hx; apply Hin, elem_of_app; by left|].
        setoid_rewrite elem_of_app in H1. setoid_rewrite elem_of_app in H2.
        setoid_rewrite list_elem_of_singleton in H1. setoid_rewrite list_elem_of_singleton in H2.
        setoid_rewrite elem_of_app in H3. setoid_rewrite list_elem_of_singleton in H3. setoid_rewrite elem_of_cons.
        split; [|split]; intros x; [rewrite H1; tauto| |intros Hx; destruct (H3 x Hx); tauto].
        rewrite H2. split; [|tauto]. intros [[?| ->]|?]; tauto.
Qed.

Lemma common_elem (T : graph) k x p ps :
  map_ref [] (last_of next) k = p :: ps →
  x ∈ filter (λ x, Forall (λ q, x ∈ map_ref [] T q) ps) (map_ref [] T p) ↔ common T k x.
Proof.
  intros Hl. assert (He : ∀ q, edge next q k ↔ q ∈ p :: ps) by (intros q; by rewrite <- last_of_elem, Hl).
  rewrite list_elem_of_filter, Forall_forall. unfold common. setoid_rewrite He. split.
  - intros [Hall Hp]. split; [exists p; by left|]. intros q [->|Hq]%elem_of_cons; [done|by apply Hall].
  - intros [_ Hall]. split; [|apply Hall; by left]. intros q Hq. apply Hall. by right.
Qed.

(** The lists a stage adds. *)
Lemma distribute_stage_lists k (D T : graph) :
  ∃ temp total, distribute_stage (last_of next) need k (D, T) = (insert_new k temp D, insert_new k total T) ∧
    NoDup temp ∧ (∀ x, x ∈ total ↔ common T k x ∨ x ∈ map_ref [] need k) ∧
    (∀ x, x ∈ total ↔ common T k x ∨ x ∈ temp) ∧ (∀ x, x ∈ temp → x ∈ map_ref [] need k).
Proof.
  unfold distribute_stage. destruct (map_ref [] (last_of next) k) as [|p ps] eqn:Hl.
  - eexists _, _. split; [done|]. split; [apply need_nodup|].
    assert (Hno : ∀ x, ¬ common T k x).
    { intros x [[p Hp%last_of_elem] _]. rewrite Hl in Hp. by apply not_elem_of_nil in Hp. }
    split; [|split; [|done]]; intros x; (split; [by right|intros [Hc|?]; [by destruct (Hno x)|done]]).
  - set (tot0 := filter _ _). destruct (fresh_levels (map_ref [] need k) [] tot0) as (H1 & _ & H2 & H3 & H4); [constructor|by intros x ?%not_elem_of_nil|].
    change (fold_left _ _ _) with (fold_left take_fresh (map_ref [] need k) ([], tot0)).
    destruct (fold_left take_fresh _ _) as [temp total]. exists temp, total. split; [done|]. split; [done|].
    assert (Hc : ∀ x, x ∈ tot0 ↔ common T k x) by (intros x; by apply common_elem).
    split; [|split]; intros x; [by rewrite H2, Hc|by rewrite H3, Hc|]. intros Hx. destruct (H4 x Hx) as [?%not_elem_of_nil|?]; done.
Qed.

Lemma insert_new_fresh (k : Z) (v : list Z) (m : graph) : m !! k = None → insert_new k v m = <[k := v]> m.
Proof. unfold insert_new. by intros ->. Qed.

Lemma map_ref_insert (k j : Z) (v : list Z) (m : graph) :
  map_ref [] (<[k := v]> m) j = if decide (k = j) then v else map_ref [] m j.
Proof. unfold map_ref. case_decide as Hk; [by rewrite Hk, lookup_insert_eq|by rewrite lookup_insert_ne]. Qed.

Lemma spread_step pre D T k :
  spread pre D T → k ∉ pre → (∀ p, edge next p k → p ∈ pre) →
  (∀ j, j ∈ pre → ∀ p, edge next p j → p ∈ pre) →
  let '(D', T') := distribute_stage (last_of next) need k (D, T) in spread (pre ++ [k]) D' T'.
Proof.
  intros [HD HT Hfrom Hneed Hin Hnd Hcl] Hk Hpk Hpre.
  destruct (distribute_stage_lists k D T) as (temp & total & -> & Htemp & Htot & Htot' & Hsub).
  assert (HDk : D !! k = None) by (apply eq_None_not_Some; by rewrite HD).
  assert (HTk : T !! k = None) by (apply eq_None_not_Some; by rewrite HT).
  rewrite !insert_new_fresh by done.
  assert (Hcom : ∀ j x, (∀ p, edge next p j → p ∈ pre) → common (<[k:=total]> T) j x ↔ common T j x).
  { intros j x Hj. unfold common. split; intros [He H]; (split; [done|]); intros p Hp; specialize (H p Hp);
      rewrite map_ref_insert, decide_False in * by (intros <-; by apply Hk, Hj); done. }
  assert (Hdom : ∀ (m : graph) v j, (∀ i, is_Some (m !! i) ↔ i ∈ pre) → is_Some (<[k:=v]> m !! j) ↔ j ∈ pre ++ [k]).
  { intros m v j Hm. rewrite elem_of_app, list_elem_of_singleton, <- Hm. destruct (decide (k = j)) as [<-|Hne].
    - rewrite lookup_insert_eq. split; [by right|done].
    - rewrite lookup_insert_ne by done. split; [by left|]. by intros [?| ->]. }
  split.
  - intros j. by apply Hdom.
  - intros j. by apply Hdom.
  - intros j x Hj. rewrite !map_ref_insert. case_decide as Hkj.
    + subst j. rewrite Hcom by done. rewrite Htot'. tauto.
    + assert (Hj' : j ∈ pre) by set_solver. rewrite Hcom by (by apply Hpre). by apply Hfrom.
  - intros j x Hj. rewrite map_ref_insert. case_decide as Hkj; [subst j; intros ?; apply Htot; by right|].
    apply Hneed. set_solver.
  - intros j x Hj. rewrite map_ref_insert. case_decide as Hkj; [subst j; apply Hsub|]. apply Hin. set_solver.
  - intros j Hj. rewrite map_ref_insert. case_decide as Hkj; [done|]. apply Hnd. set_solver.
  - intros j p x Hj. rewrite map_ref_insert. case_decide as Hkj; [subst j|apply Hcl; set_solver].
    rewrite !Htot. intros [[He Hc]|Hx] HR; [left|right; by apply (need_closed k p x)].
    split; [done|]. intros q Hq. apply (Hcl q p x); auto.
Qed.

Lemma spread_all order :
  NoDup order → topo_sorted next order →
  let '(D, T) := fold_left (λ st k, distribute_stage (last_of next) need k st) order (∅, ∅) in spread order D T.
Proof.
  induction order as [|k order IH] using rev_ind; intros Hnd Hs.
  - cbn. split; try (intros; by rewrite lookup_empty, elem_of_nil, is_Some_alt); intros k **; set_solver.
  - apply NoDup_app in Hnd as (Hnd & Hk & _). rewrite fold_left_app. cbn [fold_left].
    assert (Hs' : topo_sorted next order).
    { intros l1 j l2 -> p He. apply (Hs l1 j (l2 ++ [k])); [by rewrite <- app_assoc|done]. }
    specialize (IH Hnd Hs'). destruct (fold_left _ order _) as [D T].
    apply spread_step; [done|set_solver|by apply (Hs order k [])|].
    intros j (l1 & l2 & ->)%list_elem_of_split p He. apply elem_of_app. left. by apply (Hs' l1 j l2).
Qed.

(** Whatever way leads to a stage, its levels are on the way. *)
Lemma spread_covers order D T w k x :
  spread order D T → (∀ j, is_Some (next !! j) → j ∈ order) → graph_ok next →
  action_way next w k → x ∈ map_ref [] T k → x ∈ concat (map_ref [] D <$> w).
Proof.
  intros Hsp Hall Hok Hw. revert x. induction Hw as [k Hk Hno|w p k Hw IH He]; intros x Hx.
  - apply (sp_from _ _ _ Hsp) in Hx as [Hx|[[p Hp] _]]; [|by destruct (Hno p)|by apply Hall].
    cbn. by rewrite app_nil_r.
  - rewrite fmap_app, concat_app, elem_of_app. cbn. rewrite app_nil_r.
    apply (sp_from _ _ _ Hsp) in Hx as [Hx|[_ Hc]]; [by right|left; by apply IH, Hc|].
    apply Hall, (go_closed _ Hok p), He.
Qed.
End spread.

(** ** The order of the levels of a stage *)
#[export] Instance before_total order : Total (before order).
Proof. intros x y. unfold before. lia. Qed.
#[export] Instance before_trans order : Transitive (before order).
Proof. intros x y z. unfold before. lia. Qed.

Lemma position_in l1 l2 p : p ∈ l1 → (position (l1 ++ l2) p < length l1)%nat.
Proof.
  intros Hp. unfold position. destruct (list_find_elem_of (λ z, z = p) l1 p) as [[i y] Hf]; [done..|].
  rewrite (list_find_app_l _ _ _ _ _ Hf). cbn. apply list_find_Some in Hf as [Hi _]. by apply lookup_lt_Some in Hi.
Qed.

Lemma position_at l1 l2 k : k ∉ l1 → position (l1 ++ k :: l2) k = length l1.
Proof.
  intros Hk. unfold position. rewrite list_find_app_r.
  - cbn. rewrite decide_True by done. cbn. lia.
  - apply list_find_None, Forall_forall. by intros x Hx ->.
Qed.

Lemma topo_position next order p k :
  NoDup order → topo_sorted next order → k ∈ order → edge next p k → (position order p < position order k)%nat.
Proof.
  intros Hnd Hs (l1 & l2 & ->)%list_elem_of_split He. apply NoDup_app in Hnd as (_ & Hk & _).
  rewrite position_at by (intros Hin; apply (Hk k Hin); by left). by apply position_in, (Hs l1 k l2).
Qed.

(** In the sorted list of a stage the levels before a level come before it. *)
Lemma sorted_levels next order l l1 k l2 p :
  NoDup order → topo_sorted next order → (∀ x, x ∈ l → x ∈ order) →
  merge_sort (before order) l = l1 ++ k :: l2 → edge next p k → p ∈ l → p ∈ l1.
Proof.
  intros Hnd Hs Hsub Hl He Hp. assert (Hin : ∀ x, x ∈ l ↔ x ∈ l1 ++ k :: l2) by (intros x; by rewrite <- Hl, merge_sort_Permutation).
  assert (Hk : k ∈ l) by (apply Hin, elem_of_app; right; by left).
  pose proof (topo_position next order p k Hnd Hs (Hsub k Hk) He) as Hlt.
  pose proof (StronglySorted_merge_sort (before order) l) as Hst. rewrite Hl in Hst.
  apply Hin, elem_of_app in Hp as [?|[->|Hp]%elem_of_cons]; [done|lia|]. exfalso.
  apply StronglySorted_app_1_r in Hst. apply StronglySorted_inv in Hst as [_ Hall]. rewrite Forall_forall in Hall.
  specialize (Hall p Hp). unfold before in Hall. lia.
Qed.

Lemma topo_sorted_app next l l' :
  topo_sorted next l → (∀ l1 k l2, l' = l1 ++ k :: l2 → ∀ p, edge next p k → p ∈ l ∨ p ∈ l1) → topo_sorted next (l ++ l').
Proof.
  intros Hl Hl' m1 k m2 Heq p He. apply app_eq_inv in Heq as [(m & -> & Hm)|(m & -> & Hm)].
  - destruct m as [|x m]; cbn in Hm.
    + subst l'. destruct (Hl' [] k m2 eq_refl p He) as [Hp|?%not_elem_of_nil]; [|done].
      by rewrite app_nil_r in Hp.
    + injection Hm as Hx _. subst x. by apply (Hl m1 k m).
  - apply elem_of_app. by apply (Hl' m k m2).
Qed.

Lemma sorted_D levels (D : graph) k :
  map_ref [] (merge_sort (before levels) <$> D) k = merge_sort (before levels) (map_ref [] D k).
Proof. unfold map_ref. rewrite lookup_fmap. by destruct (D !! k). Qed.

Lemma concat_sorted_D levels (D : graph) w x :
  x ∈ concat (map_ref [] D <$> w) → x ∈ concat (map_ref [] (merge_sort (before levels) <$> D) <$> w).
Proof.
  induction w as [|j w IHw]; cbn; [done|]. rewrite !elem_of_app, sorted_D, merge_sort_Permutation. intros [?|?]; [by left|right; auto].
Qed.

Section order.
Context (stage_graph level_graph need : graph) (order levels : list Z) (D T : graph).
Context (spread_D : spread stage_graph need (edge level_graph) order D T).
Context (all_stages : ∀ j, is_Some (stage_graph !! j) → j ∈ order) (stages_ok : graph_ok stage_graph).
Context (levels_nodup : NoDup levels) (levels_sorted : topo_sorted level_graph levels).
Context (only_levels : ∀ k x, x ∈ map_ref [] need k → x ∈ levels).

Lemma spread_sorted w k :
  action_way stage_graph w k → topo_sorted level_graph (concat (map_ref [] (merge_sort (before levels) <$> D) <$> w)).
Proof.
  assert (Hstage : ∀ k l1 x l2 p, k ∈ order → map_ref [] (merge_sort (before levels) <$> D) k = l1 ++ x :: l2 →
    edge level_graph p x → p ∈ l1 ∨ common stage_graph T k p).
  { intros j l1 x l2 p Hj Hl He. rewrite sorted_D in Hl.
    assert (Hx : x ∈ map_ref [] D j).
    { rewrite <- (merge_sort_Permutation (before levels)), Hl. apply elem_of_app. right. by left. }
    assert (Hp : p ∈ map_ref [] T j).
    { apply (sp_closed _ _ _ _ _ _ spread_D j p x Hj); [|done]. apply (sp_from _ _ _ _ _ _ spread_D j x Hj). by left. }
    apply (sp_from _ _ _ _ _ _ spread_D j p Hj) in Hp as [Hp|?]; [left|by right].
    apply (sorted_levels level_graph levels (map_ref [] D j) l1 x l2); try done.
    intros y Hy. by apply (only_levels j), (sp_sub _ _ _ _ _ _ spread_D j y). }
  induction 1 as [k Hk Hno|w p k Hw IH He].
  - intros l1 x l2 Heq q Hq. cbn in Heq. rewrite app_nil_r in Heq.
    destruct (Hstage k l1 x l2 q (all_stages k Hk) Heq Hq) as [?|[[r Hr] _]]; [done|by destruct (Hno r)].
  - rewrite fmap_app, concat_app. apply topo_sorted_app; [done|]. intros l1 x l2 Heq q Hq. cbn in Heq. rewrite app_nil_r in Heq.
    assert (Hk : is_Some (stage_graph !! k)) by by apply (go_closed _ stages_ok p).
    destruct (Hstage k l1 x l2 q (all_stages k Hk) Heq Hq) as [?|[_ Hc]]; [by right|left].
    assert (Hin : q ∈ concat (map_ref [] D <$> w)).
    { eapply spread_covers; [exact spread_D|done..|by apply Hc]. }
    by apply concat_sorted_D.
Qed.
End order.

(** ** Every level a stage needs is on every way to it *)

(** What the compiler relies on: no cycles, neither of stages nor of parser states,
    entries that lead to levels and stages that are there, and headers that are known. *)
Record parsers_ok (hm : HeaderManager) (lm : LevelManager) (stages : list IpsaStage) : Prop := {
  po_levels : graph_ok (level_next lm.(levels)) ∧ acyclic (level_next lm.(levels));
  po_stages : graph_ok (stage_next stages) ∧ acyclic (stage_next stages);
  po_ids : NoDup (stage_id <$> live_stages stages);
  po_headers : Forall (headers_known hm) (live_stages stages)
}.

Lemma way_node next w k : graph_ok next → action_way next w k → is_Some (next !! k).
Proof. intros Hok [|w' p k' _ He]; [done|]. by apply (go_closed _ Hok p). Qed.

Lemma extracts_level levels h x : extracts levels h x → is_Some (level_next levels !! x).
Proof. intros (l & e & Hx & Hl & _). eexists. apply level_next_lookup. eauto. Qed.

Lemma needs_before hm levels s p x :
  edge (level_next levels) p x → needs hm levels s x → needs hm levels s p.
Proof.
  intros He (name & h & lvl & Hn & Hh & Hl & Hr). exists name, h, lvl. split; [done|]. split; [done|]. split; [done|].
  by eapply rtc_l.
Qed.

Lemma needs_level hm levels s x : needs hm levels s x → is_Some (level_next levels !! x).
Proof.
  intros (name & h & lvl & _ & _ & Hl & Hr). apply rtc_inv in Hr as [->|(y & He & _)]; [by eapply extracts_level|].
  by eapply edge_node.
Qed.

Lemma distributeParsers_run hm lm stages :
  parsers_ok hm lm stages →
  ∃ levels order need D T,
    distributeParsers hm lm stages = Ok (order, merge_sort (before levels) <$> D) ∧
    (levels ≡ₚ map_keys (level_next lm.(Levels.levels)) ∧ topo_sorted (level_next lm.(Levels.levels)) levels) ∧
    (order ≡ₚ map_keys (stage_next stages) ∧ topo_sorted (stage_next stages) order) ∧
    spread (stage_next stages) need (edge (level_next lm.(Levels.levels))) order D T ∧
    (∀ s, s ∈ live_stages stages → ∀ x, x ∈ map_ref [] need s.(stage_id) ↔ needs hm lm.(Levels.levels) s x) ∧
    (∀ k x, x ∈ map_ref [] need k → x ∈ levels).
Proof.
  intros [[Hlg Hla] [Hsg Hsa] Hids Hh]. set (lg := level_next _) in *.
  destruct (acyclic_sorted lg Hlg Hla) as (levels & Hrun & Hlp & Hls).
  destruct (acyclic_sorted _ Hsg Hsa) as (order & Hrun' & Hop & Hos).
  destruct (level_closure_ok lg levels _ Hlg Hlp Hls (closed_for_start lm.(Levels.levels))) as (m & Hm & Hc).
  unfold distributeParsers. fold lg. rewrite Hrun. cbn [mbind res_mbind]. rewrite Hm. cbn [mbind res_mbind].
  assert (Hin : ∀ k, is_Some (lg !! k) → k ∈ levels) by (intros k Hk; rewrite Hlp; by apply elem_of_map_keys).
  destruct (proc_levels_ok hm lm.(Levels.levels) ((λ kv, kv.2.(header_id)) <$> in_name_order hm.(headers)) m
    (live_stages stages) ∅) as (need & Hneed & Hn1 & Hn2); [|done|done|].
  { intros s Hs. apply levels_of_stage_ok; [by eapply Forall_forall in Hh|by apply extracts_level|].
    intros k x Hk. by apply (cf_done _ _ _ Hc), Hin. }
  rewrite Hneed. cbn [mbind res_mbind]. rewrite Hrun'. cbn [mbind res_mbind].
  assert (Hwhere : ∀ k, (∃ s, s ∈ live_stages stages ∧ s.(stage_id) = k) ∨ map_ref [] need k = []).
  { intros k. destruct (decide (k ∈ stage_id <$> live_stages stages)) as [(s & -> & Hs)%list_elem_of_fmap|Hk]; [left; eauto|right].
    unfold map_ref. by rewrite Hn2, lookup_empty. }
  assert (Hneeds : ∀ s, s ∈ live_stages stages → ∀ x, x ∈ map_ref [] need s.(stage_id) ↔ needs hm lm.(Levels.levels) s x).
  { intros s Hs x. destruct (Hn1 s Hs) as (l & Hl & _ & Hx). unfold map_ref. rewrite Hl. apply Hx. }
  assert (Hnd : ∀ k, NoDup (map_ref [] need k)).
  { intros k. destruct (Hwhere k) as [(s & Hs & <-)| ->]; [|constructor].
    destruct (Hn1 s Hs) as (l & Hl & Hnd & _). unfold map_ref. by rewrite Hl. }
  assert (Hcl : ∀ k p x, x ∈ map_ref [] need k → edge lg p x → p ∈ map_ref [] need k).
  { intros k p x Hx He. destruct (Hwhere k) as [(s & Hs & <-)|Hk]; [|by rewrite Hk in Hx; apply not_elem_of_nil in Hx].
    apply Hneeds; [done|]. apply Hneeds in Hx; [|done]. by apply (needs_before _ _ _ p x). }
  pose proof (spread_all (stage_next stages) need (edge lg) Hnd Hcl order) as Hsp.
  destruct (fold_left _ order (∅, ∅)) as [D T].
  exists levels, order, need, D, T. split; [done|]. split; [done|]. split; [done|].
  split; [apply Hsp; [rewrite Hop; apply NoDup_map_keys|done]|]. split; [done|].
  intros k x Hx. destruct (Hwhere k) as [(s & Hs & <-)|Hk]; [|by rewrite Hk in Hx; apply not_elem_of_nil in Hx].
  apply Hin. apply Hneeds in Hx; [|done]. by apply (needs_level hm _ s).
Qed.

(** A way of the data plane ends with a way of actions. *)
Lemma data_way_suffix next gate w k : data_way next gate w k → ∃ u v, w = u ++ v ∧ action_way next v k.
Proof.
  induction 1 as [k Hk Hno|w p k _ (u & v & -> & Hv) He|w p k _ (u & v & -> & Hv) _ Hk Honly].
  - exists [], [k]. split; [done|by apply way_start].
  - exists u, (v ++ [k]). split; [by rewrite app_assoc|by eapply way_step].
  - destruct (decide (k ∈ map_ref [] next p)) as [Hin|Hin].
    + exists u, (v ++ [k]). split; [by rewrite app_assoc|]. eapply way_step; [done|]. unfold map_ref in Hin. unfold edge.
      destruct (next !! p) as [l|]; [eauto|by apply not_elem_of_nil in Hin].
    + exists (u ++ v), [k]. split; [done|]. apply way_start; [done|]. intros q Hq. apply Hin. pose proof (Honly q Hq) as ->.
      destruct Hq as (l & Hl & Hx). unfold map_ref. by rewrite Hl.
Qed.

(** C23. The parser levels are where they are needed: when neither the stages nor the
    parser states lead in a circle, the compiler orders the stages so that each comes
    after those whose actions lead to it, and gives them parser levels so that, on
    every way to a stage along the actions, every level that extracts a header of the
    stage is run by a stage of the way, and so is every level that leads to one; and
    the levels along the way are run in an order in which each comes after all that
    lead to it. The levels are run as well on ways on which gateways lead from stage to
    stage, if they lead to stages no action leads to, or where an action of the same
    stage leads and no other. (The compiler does not look at the gateways: a gateway
    that leads to a stage which the action of another stage leads to can miss levels.) *)
Theorem levels_on_every_way hm lm stages :
  parsers_ok hm lm stages →
  ∃ order D, distributeParsers hm lm stages = Ok (order, D) ∧
    order ≡ₚ map_keys (stage_next stages) ∧ topo_sorted (stage_next stages) order ∧
    ∀ s, s ∈ live_stages stages →
      (∀ gate w, data_way (stage_next stages) gate w s.(stage_id) →
         ∀ x, needs hm lm.(Levels.levels) s x → x ∈ concat (map_ref [] D <$> w)) ∧
      (∀ w, action_way (stage_next stages) w s.(stage_id) →
         (∀ x, needs hm lm.(Levels.levels) s x → x ∈ concat (map_ref [] D <$> w)) ∧
         topo_sorted (level_next lm.(Levels.levels)) (concat (map_ref [] D <$> w))).
Proof.
  intros Hok. pose proof (po_stages _ _ _ Hok) as [Hsg _].
  destruct (distributeParsers_run hm lm stages Hok) as (levels & order & need & D & T & -> & [Hlp Hls] & [Hop Hos] & Hsp & Hneeds & Hlev).
  exists order, (merge_sort (before levels) <$> D). split; [done|]. split; [done|]. split; [done|].
  assert (Hall : ∀ j, is_Some (stage_next stages !! j) → j ∈ order) by (intros j Hj; rewrite Hop; by apply elem_of_map_keys).
  intros s Hs.
  assert (Hcov : ∀ w, action_way (stage_next stages) w s.(stage_id) →
    ∀ x, needs hm lm.(Levels.levels) s x → x ∈ concat (map_ref [] (merge_sort (before levels) <$> D) <$> w)).
  { intros w Hw x Hx%(Hneeds s Hs). eapply concat_sorted_D, spread_covers; [done..|].
    apply (sp_need _ _ _ _ _ _ Hsp); [|done]. apply Hall. by apply (way_node _ w). }
  split.
  - intros gate w (u & v & -> & Hv)%data_way_suffix x Hx. rewrite fmap_app, concat_app. apply elem_of_app. right. by apply Hcov.
  - intros w Hw. split; [by apply Hcov|].
    eapply (spread_sorted (stage_next stages) _ need order levels D T); try done. rewrite Hlp. apply NoDup_map_keys.
Qed.

(** ** The theorem at a concrete program: Ethernet, then IPv4 *)
Definition demo_states : list Rp4StateDef :=
  [mkStateDef "start" ("hdr", "ethernet") (SelectTransition [("hdr", "ethernet", "type")]
     [mkTransitionEntry (ExactKey 2048) "parse_ipv4" 2; mkTransitionEntry DefaultKey "" 0]);
   mkStateDef "parse_ipv4" ("hdr", "ipv4") (DirectTransition (mkTransitionEntry DefaultKey "" 0))]%string.

Definition demo_levels : LevelManager :=
  match load_levels (H := x86) demo_headers demo_states LevelManager_init with Ok lm => lm | Fault _ => LevelManager_init end.

Definition demo_parser_stage (i : Z) (hs : list string) (next : list (Z * Z)) : IpsaStage :=
  mkStage i true false next 0 [] (mkStageDef "" hs [] [] []).
Definition demo_chain : list IpsaStage :=
  [demo_parser_stage 0 ["ethernet"] [(1, 1)]; demo_parser_stage 1 ["ipv4"] [(2, -1)]]%string.

Lemma demo_parsers_ok : parsers_ok demo_headers demo_levels demo_chain.
Proof.
  split.
  - split; [apply graph_ok_check|apply (acyclic_check _ Z.to_nat)]; vm_compute; reflexivity.
  - split; [apply graph_ok_check|apply (acyclic_check _ Z.to_nat)]; vm_compute; reflexivity.
  - apply (bool_decide_unpack _). vm_compute. exact I.
  - repeat constructor; eexists; vm_compute; reflexivity.
Qed.

Lemma levels_on_every_way_witness :
  ∃ order D, distributeParsers demo_headers demo_levels demo_chain = Ok (order, D) ∧
    topo_sorted (level_next demo_levels.(Levels.levels)) (map_ref [] D 0 ++ map_ref [] D 1 ++ []).
Proof.
  destruct (levels_on_every_way _ _ _ demo_parsers_ok) as (order & D & Hrun & _ & _ & H).
  exists order, D. split; [exact Hrun|]. apply (H (demo_parser_stage 1 ["ipv4"%string] [(2, -1)])) with (w := [0; 1]).
  - apply list_elem_of_filter. split; [reflexivity|]. right. by left.
  - apply (way_step _ [0] 0).
    + constructor; [eexists; vm_compute; reflexivity|]. intros p (l & Hl%elem_of_map_to_list & Hp).
      assert (Hall : Forall (λ kv : Z * list Z, 0 ∉ kv.2) (map_to_list (stage_next demo_chain)))
        by (apply (bool_decide_unpack _); vm_compute; exact I).
      rewrite Forall_forall in Hall. by apply (Hall _ Hl).
    + eexists. split; [vm_compute; reflexivity|]. by left.
Defined.

(** A gateway of stage 0 may lead to stage 2, to which an action of stage 1 leads: stage 2
    needs the level of Ethernet, and stage 1 runs it, so that it is not run on the way
    from stage 0. *)
Example gateway_way_missed :
  let stages := [demo_parser_stage 0 [] [(1, 1)]; demo_parser_stage 1 ["ethernet"] [(1, 2)];
                 demo_parser_stage 2 ["ethernet"] [(1, -1)]]%string in
  (∃ order, distributeParsers demo_headers demo_levels stages = Ok (order, {[ 0 := []; 1 := [0]; 2 := [] ]})) ∧
  levels_of_stage demo_headers (header_levels [0; 1] demo_levels.(Levels.levels)) (list_to_map [(0, [0])])
    (demo_parser_stage 2 ["ethernet"%string] [(1, -1)]) = Ok [0].
Proof. split; [eexists|]; vm_compute; reflexivity. Qed.
