(* ===== verification/Allocation.v ===== *)
(** * The rP4 compiler: memory (ipsa_memory.h)

    The stages are placed one by one, each in the first cluster that has a free
    processor and enough blocks left; then the blocks are given to the tables, in the
    order of the stages, starting from block 0 of every cluster. *)

From stdpp Require Import base numbers list gmap strings sorting.
From Stdlib Require Import ZArith Lia.
From S2P Require Import Prelude Headers Actions Tables Stages.

#[local] Open Scope Z_scope.
Import ipsa_configuration.

(** ** The blocks a table and a stage need: pairs of SRAM and TCAM blocks *)
Definition pair_add (p q : Z * Z) : Z * Z := (p.1 + q.1, p.2 + q.2).
Definition pair_sub (p q : Z * Z) : Z * Z := (p.1 - q.1, p.2 - q.2).

Definition mem_blocks (m : IpsaMem) : Z := m.(im_width) * m.(im_depth).

Definition table_blocks (t : IpsaTable) : Z * Z :=
  if decide (t.(key_memory).(im_type) = MEM_SRAM) then (mem_blocks t.(key_memory) + mem_blocks t.(value_memory), 0)
  else (mem_blocks t.(value_memory), mem_blocks t.(key_memory)).

(** [calculateTableSpace]: the spaces of the tables, the first table of each id, and
    the spaces of the stages. *)
Definition table_spaces (ts : list (string * IpsaTable)) : gmap Z (Z * Z) * gmap Z string :=
  fold_left (λ '(space, tabs) '(name, t),
    (insert_new t.(table_id) (table_blocks t) space, insert_new t.(table_id) name tabs)) ts (∅, ∅).

Definition stage_blocks (space : gmap Z (Z * Z)) (s : IpsaStage) : Z * Z :=
  foldr (λ id acc, pair_add (map_ref (0, 0) space id) acc) (0, 0) s.(stage_tables).

Definition stage_spaces (space : gmap Z (Z * Z)) (stages : list IpsaStage) : gmap Z (Z * Z) :=
  fold_left (λ m s, if s.(removed) then m else insert_new s.(stage_id) (stage_blocks space s) m) stages ∅.

(** ** Placing the stages *)
Record Placement : Type := mkPlacement {
  cluster_space : list (Z * Z);
  cluster_proc : list (list Z);
  physical_proc_id : gmap Z Z
}.

Definition Placement_init : Placement :=
  mkPlacement (replicate (Z.to_nat CLUSTER_COUNT) (CLUSTER_SRAM_COUNT, CLUSTER_TCAM_COUNT))
    (replicate (Z.to_nat CLUSTER_COUNT) [])
    (list_to_map ((λ i, (i, -1)) <$> seqZ 0 PROC_COUNT)).

(** Whether cluster [i] takes a stage that needs [need]. *)
Definition takes (pl : Placement) (need : Z * Z) (i : Z) : bool :=
  (zlen (at_ pl.(cluster_proc) i) <? CLUSTER_PROC_COUNT) &&
  (need.1 <=? (at_ pl.(cluster_space) i).1) && (need.2 <=? (at_ pl.(cluster_space) i).2).

(** One stage; a stage that no cluster takes is reported and left out. *)
Definition place_stage (space : gmap Z (Z * Z)) (stage : Z) (pl : Placement) : Placement :=
  let need := map_ref (0, 0) space stage in
  match head (filter (λ i, takes pl need i = true) (seqZ 0 CLUSTER_COUNT)) with
  | None => pl
  | Some i =>
      let target := i * CLUSTER_PROC_COUNT + zlen (at_ pl.(cluster_proc) i) in
      mkPlacement (<[Z.to_nat i := pair_sub (at_ pl.(cluster_space) i) need]> pl.(cluster_space))
        (<[Z.to_nat i := at_ pl.(cluster_proc) i ++ [stage]]> pl.(cluster_proc))
        (<[target := stage]> pl.(physical_proc_id))
  end.

Definition place_stages (space : gmap Z (Z * Z)) (topo_sequence : list Z) : Placement :=
  fold_left (λ pl s, place_stage space s pl) topo_sequence Placement_init.

(** The cluster of each stage that was placed. *)
Definition proc_clusters (phys : gmap Z Z) : gmap Z Z :=
  fold_left (λ m i, let s := map_ref 0 phys i in
    if 0 <=? s then insert_new s (i / CLUSTER_PROC_COUNT) m else m) (seqZ 0 PROC_COUNT) ∅.

(** ** Giving out the blocks *)

(** [for (int i = 0; i < n; i++) config.push_back(x++)]. *)
Fixpoint push_blocks (n : nat) (x : Z) (config : list Z) : list Z * Z :=
  match n with O => (config, x) | S n' => push_blocks n' (x + 1) (config ++ [x]) end.

Definition give_blocks (m : IpsaMem) (x : Z) : IpsaMem * Z :=
  let '(config, x) := push_blocks (Z.to_nat (m.(im_depth) * m.(im_width))) x m.(im_config) in
  (mkIpsaMem m.(im_type) config m.(im_width) m.(im_depth), x).

(** The blocks of a table, from TCAM block [x] and SRAM block [y] on. *)
Definition give_table (t : IpsaTable) (xy : Z * Z) : IpsaTable * (Z * Z) :=
  let '(key, x, y) :=
    if decide (t.(key_memory).(im_type) = MEM_TCAM) then let '(k, x) := give_blocks t.(key_memory) xy.1 in (k, x, xy.2)
    else let '(k, y) := give_blocks t.(key_memory) xy.2 in (k, xy.1, y) in
  let '(value, y) := give_blocks t.(value_memory) y in
  (mkIpsaTable t.(tb_proc_id) t.(key_width_vec) t.(tb_id) t.(table_id) t.(tb_miss_action_id) t.(tb_no_table)
     t.(action_to_proc) t.(tb_match_type) key value t.(field_infos), (x, y)).

(** A table of a stage: [tables[table_id]] is a null pointer for an unknown id. *)
Definition give_id (tabs : gmap Z string) (id : Z) (st : gmap string IpsaTable * (Z * Z))
    : res (gmap string IpsaTable * (Z * Z)) :=
  match tabs !! id with
  | None => Fault NullDeref
  | Some name =>
      match st.1 !! name with
      | None => Fault UseAfterFree
      | Some t => let '(t, xy) := give_table t st.2 in mret (<[name := t]> st.1, xy)
      end
  end.

(** A stage: its cluster is 0 when it was not placed. *)
Definition give_stage (tabs : gmap Z string) (clusters : gmap Z Z) (s : IpsaStage)
    (st : gmap string IpsaTable * list (Z * Z)) : res (gmap string IpsaTable * list (Z * Z)) :=
  if s.(removed) then mret st
  else
    let c := map_ref 0 clusters s.(stage_id) in
    '(ts, xy) ← for_each (give_id tabs) s.(stage_tables) (st.1, at_ st.2 c);
    mret (ts, <[Z.to_nat c := xy]> st.2).

(** [allocateMemory]: the processors of the stages, and the tables with their blocks. *)
Definition placement (tm : TableManager) (stages : list IpsaStage) (topo_sequence : list Z) : Placement :=
  place_stages (stage_spaces (table_spaces (in_name_order tm.(tables))).1 stages) topo_sequence.

Definition allocateMemory (tm : TableManager) (stages : list IpsaStage) (topo_sequence : list Z)
    : res (gmap Z Z * TableManager) :=
  let tabs := (table_spaces (in_name_order tm.(tables))).2 in
  let phys := (placement tm stages topo_sequence).(physical_proc_id) in
  '(ts, _) ← for_each (give_stage tabs (proc_clusters phys)) stages
    (tm.(tables), replicate (Z.to_nat CLUSTER_COUNT) (0, 0));
  mret (phys, mkTableManager tm.(global_table_id) ts).

(** ** Every cluster has the blocks its stages need *)
Definition sram_of_space (space : gmap Z (Z * Z)) (s : Z) : Z := (map_ref (0, 0) space s).1.
Definition tcam_of_space (space : gmap Z (Z * Z)) (s : Z) : Z := (map_ref (0, 0) space s).2.

Record placed (space : gmap Z (Z * Z)) (seq : list Z) (pl : Placement) : Prop := {
  pd_len : zlen pl.(cluster_space) = CLUSTER_COUNT ∧ zlen pl.(cluster_proc) = CLUSTER_COUNT;
  pd_space : ∀ i, 0 ≤ i < CLUSTER_COUNT → at_ pl.(cluster_space) i =
    (CLUSTER_SRAM_COUNT - sum_of_map (sram_of_space space) (at_ pl.(cluster_proc) i),
     CLUSTER_TCAM_COUNT - sum_of_map (tcam_of_space space) (at_ pl.(cluster_proc) i));
  pd_fits : ∀ i, 0 ≤ i < CLUSTER_COUNT → 0 ≤ (at_ pl.(cluster_space) i).1 ∧ 0 ≤ (at_ pl.(cluster_space) i).2;
  pd_count : ∀ i, 0 ≤ i < CLUSTER_COUNT → zlen (at_ pl.(cluster_proc) i) ≤ CLUSTER_PROC_COUNT;
  pd_phys : ∀ i k, 0 ≤ i < CLUSTER_COUNT → 0 ≤ k < CLUSTER_PROC_COUNT →
    map_ref 0 pl.(physical_proc_id) (i * CLUSTER_PROC_COUNT + k) = default (-1) (at_ pl.(cluster_proc) i !! Z.to_nat k);
  pd_seq : ∀ i s, 0 ≤ i < CLUSTER_COUNT → s ∈ at_ pl.(cluster_proc) i → s ∈ seq
}.

Lemma at_insert_Z {A} `{Inhabited A} (l : list A) i j x :
  0 ≤ i < zlen l → 0 ≤ j → at_ (<[Z.to_nat i := x]> l) j = if decide (i = j) then x else at_ l j.
Proof. intros. rewrite at_insert by done. destruct (Z.eqb_spec i j); by case_decide. Qed.

Lemma placed_init space : placed space [] Placement_init.
Proof.
  split; [done| | | | |].
  - intros i Hi. assert (i = 0 ∨ i = 1 ∨ i = 2 ∨ i = 3) as [->|[->|[->| ->]]] by (change CLUSTER_COUNT with 4 in Hi; lia); done.
  - intros i Hi. assert (i = 0 ∨ i = 1 ∨ i = 2 ∨ i = 3) as [->|[->|[->| ->]]] by (change CLUSTER_COUNT with 4 in Hi; lia); done.
  - intros i Hi. assert (i = 0 ∨ i = 1 ∨ i = 2 ∨ i = 3) as [->|[->|[->| ->]]] by (change CLUSTER_COUNT with 4 in Hi; lia); done.
  - intros i k Hi Hk. change CLUSTER_COUNT with 4 in Hi. change CLUSTER_PROC_COUNT with 4 in *.
    assert (He : at_ (cluster_proc Placement_init) i = []).
    { assert (i = 0 ∨ i = 1 ∨ i = 2 ∨ i = 3) as [->|[->|[->| ->]]] by lia; done. }
    rewrite He. assert (Hph : ∀ j, 0 ≤ j < 16 → map_ref 0 (physical_proc_id Placement_init) j = -1).
    { intros j Hj. assert (H : Forall (λ j, map_ref 0 (physical_proc_id Placement_init) j = -1) (seqZ 0 16)).
      { apply (bool_decide_unpack _). vm_compute. exact I. }
      rewrite Forall_forall in H. apply H, elem_of_seqZ. lia. }
    rewrite Hph by lia. done.
  - intros i s Hi. assert (i = 0 ∨ i = 1 ∨ i = 2 ∨ i = 3) as [->|[->|[->| ->]]] by (change CLUSTER_COUNT with 4 in Hi; lia); by intros ?%not_elem_of_nil.
Qed.

Lemma placed_step space seq pl s :
  placed space seq pl → placed space (seq ++ [s]) (place_stage space s pl).
Proof.
  intros [[Hl1 Hl2] Hsp Hfit Hcnt Hph Hseq]. unfold place_stage.
  destruct (head _) as [i|] eqn:E; [|split; try done; intros; apply elem_of_app; left; eauto].
  apply head_Some_elem_of, list_elem_of_filter in E as [Ht Hi%elem_of_seqZ]. rewrite Z.add_0_l in Hi.
  unfold takes in Ht. apply andb_true_iff in Ht as [[Ht1 Ht2]%andb_true_iff Ht3].
  apply Z.ltb_lt in Ht1. apply Z.leb_le in Ht2, Ht3. set (need := map_ref (0, 0) space s) in *.
  split; cbn [cluster_space cluster_proc physical_proc_id].
  - by rewrite !zlen_insert.
  - intros j Hj. rewrite !at_insert_Z by lia. case_decide; [subst j|by apply Hsp].
    rewrite !sum_of_map_app, (Hsp i Hi). cbn. unfold pair_sub, sram_of_space, tcam_of_space. fold need. f_equal; cbn; lia.
  - intros j Hj. rewrite !at_insert_Z by lia. case_decide; [subst j|by apply Hfit]. unfold pair_sub. cbn [fst snd]. lia.
  - intros j Hj. rewrite !at_insert_Z by lia. case_decide; [subst j|by apply Hcnt]. rewrite zlen_app. unfold zlen at 2. cbn. lia.
  - intros j k Hj Hk. rewrite at_insert_Z by lia. change CLUSTER_PROC_COUNT with 4 in *.
    set (n := zlen (at_ (cluster_proc pl) i)) in *. pose proof (zlen_nonneg (at_ (cluster_proc pl) i)).
    specialize (Hph j k Hj Hk). unfold map_ref in *.
    destruct (decide (i * 4 + n = j * 4 + k)) as [Heq|Hne].
    + assert (j = i ∧ k = n) as [-> ->] by lia. rewrite lookup_insert_eq, decide_True by done.
      unfold n, zlen. rewrite Nat2Z.id, lookup_app_r, Nat.sub_diag by lia. done.
    + rewrite lookup_insert_ne by done. rewrite Hph. case_decide; [subst j|done].
      destruct (decide (k < n)); [by rewrite lookup_app_l by (unfold n, zlen in *; lia)|].
      rewrite !lookup_ge_None_2; [done|rewrite length_app; cbn|]; unfold n, zlen in *; lia.
  - intros j s' Hj. rewrite at_insert_Z by lia. rewrite elem_of_app. case_decide; [subst j|by eauto].
    intros [?|?]%elem_of_app; [left; eauto|by right].
Qed.

Lemma place_stages_ok space seq : placed space seq (place_stages space seq).
Proof.
  unfold place_stages. assert (H : ∀ l done_ pl, placed space done_ pl →
    placed space (done_ ++ l) (fold_left (λ pl s, place_stage space s pl) l pl)).
  { induction l as [|s l IH]; intros done_ pl Hp; cbn; [by rewrite app_nil_r|].
    replace (done_ ++ s :: l) with ((done_ ++ [s]) ++ l) by by rewrite <- app_assoc. by apply IH, placed_step. }
  apply (H seq [] Placement_init), placed_init.
Qed.

(** ** Where a stage is *)
Lemma proc_clusters_fold phys is_ m :
  let m' := fold_left (λ m i, let s := map_ref 0 phys i in
    if 0 <=? s then insert_new s (i / CLUSTER_PROC_COUNT) m else m) is_ m in
  (∀ s c, m' !! s = Some c → m !! s = Some c ∨ ∃ i, i ∈ is_ ∧ map_ref 0 phys i = s ∧ c = i / CLUSTER_PROC_COUNT) ∧
  (∀ s, is_Some (m !! s) → is_Some (m' !! s)) ∧
  (∀ i, i ∈ is_ → 0 ≤ map_ref 0 phys i → is_Some (m' !! map_ref 0 phys i)).
Proof.
  cbn zeta. revert m. induction is_ as [|i is_ IH]; intros m; cbn [fold_left].
  - split; [by left|]. split; [done|]. by intros i ?%not_elem_of_nil.
  - set (m1 := if _ <=? _ then _ else _). destruct (IH m1) as (H1 & H2 & H3).
    assert (Hm1 : ∀ s, is_Some (m !! s) → is_Some (m1 !! s)).
    { intros s Hs. unfold m1, insert_new. destruct (0 <=? _); [|done]. destruct (m !! map_ref 0 phys i); [done|].
      destruct (decide (map_ref 0 phys i = s)) as [->|]; [by rewrite lookup_insert_eq|by rewrite lookup_insert_ne]. }
    split; [|split].
    + intros s c Hs. destruct (H1 s c Hs) as [Hm|(k & Hk & ?)]; [|right; exists k; split; [by right|done]].
      unfold m1, insert_new in Hm. destruct (0 <=? _); [|by left]. destruct (m !! map_ref 0 phys i); [by left|].
      apply lookup_insert_Some in Hm as [[<- <-]|[_ Hm]]; [right; exists i; split; [by left|done]|by left].
    + intros s Hs. by apply H2, Hm1.
    + intros k [->|Hk]%elem_of_cons Hpos; [|by apply H3]. apply H2. unfold m1, insert_new.
      rewrite (proj2 (Z.leb_le _ _)) by done. destruct (m !! map_ref 0 phys i) eqn:E; [by rewrite E|by rewrite lookup_insert_eq].
Qed.

(** A stage on a processor is in the cluster of that processor. *)
Lemma proc_clusters_placed space seq pl s :
  placed space seq pl → 0 ≤ s → (∃ i, 0 ≤ i < PROC_COUNT ∧ map_ref 0 pl.(physical_proc_id) i = s) →
  let c := map_ref 0 (proc_clusters pl.(physical_proc_id)) s in
  0 ≤ c < CLUSTER_COUNT ∧ s ∈ at_ pl.(cluster_proc) c.
Proof.
  intros Hp Hs (i & Hi & Hat) c.
  destruct (proc_clusters_fold pl.(physical_proc_id) (seqZ 0 PROC_COUNT) ∅) as (H1 & _ & H3).
  change (fold_left _ _ _) with (proc_clusters pl.(physical_proc_id)) in H1, H3.
  destruct (H3 i) as [c' Hc']; [apply elem_of_seqZ; lia|lia|]. rewrite Hat in Hc'.
  assert (c = c') as -> by (unfold c, map_ref; by rewrite Hc').
  destruct (H1 s c' Hc') as [H|(k & Hk%elem_of_seqZ & Hks & ->)]; [by apply lookup_empty_Some in H|].
  change PROC_COUNT with 16 in Hk. change CLUSTER_PROC_COUNT with 4. change CLUSTER_COUNT with 4.
  split; [dlia|].
  pose proof (pd_phys _ _ _ Hp (k / 4) (k mod 4)) as Hph. change CLUSTER_PROC_COUNT with 4 in Hph. change CLUSTER_COUNT with 4 in Hph.
  replace (k / 4 * 4 + k mod 4) with k in Hph by dlia. rewrite Hks in Hph.
  specialize (Hph ltac:(dlia) ltac:(dlia)).
  destruct (at_ (cluster_proc pl) (k / 4) !! Z.to_nat (k mod 4)) as [x|] eqn:E; cbn in Hph; [|lia].
  subst x. by apply list_elem_of_lookup_2 in E.
Qed.

(** ** The blocks of a table *)
Lemma push_blocks_seq n x config : push_blocks n x config = (config ++ seqZ x (Z.of_nat n), x + Z.of_nat n).
Proof.
  revert x config. induction n as [|n IH]; intros x config; cbn [push_blocks]; [by rewrite Z.add_0_r, app_nil_r|].
  rewrite IH, (seqZ_cons x) by lia. rewrite <- app_assoc. cbn [app].
  replace (Z.succ x) with (x + 1) by lia. replace (Z.pred (Z.of_nat (S n))) with (Z.of_nat n) by lia. f_equal. lia.
Qed.

Lemma give_blocks_new m x :
  im_config m = [] → 0 ≤ mem_blocks m →
  give_blocks m x = (mkIpsaMem m.(im_type) (seqZ x (mem_blocks m)) m.(im_width) m.(im_depth), x + mem_blocks m).
Proof.
  intros Hc Hb. unfold give_blocks. rewrite push_blocks_seq, Hc. cbn [app]. unfold mem_blocks in *.
  rewrite Z2Nat.id by lia. by rewrite (Z.mul_comm (im_depth m)).
Qed.

(** The blocks a table owns of each kind. *)
Definition sram_blocks (t : IpsaTable) : list Z :=
  (if decide (t.(key_memory).(im_type) = MEM_SRAM) then t.(key_memory).(im_config) else []) ++ t.(value_memory).(im_config).
Definition tcam_blocks (t : IpsaTable) : list Z :=
  if decide (t.(key_memory).(im_type) = MEM_SRAM) then [] else t.(key_memory).(im_config).

(** A table without blocks, and the table with them. *)
Record table_new (t : IpsaTable) : Prop := {
  tn_key : t.(key_memory).(im_config) = [] ∧ 0 ≤ mem_blocks t.(key_memory);
  tn_value : t.(value_memory).(im_config) = [] ∧ 0 ≤ mem_blocks t.(value_memory)
}.

Definition with_blocks (kc vc : list Z) (t : IpsaTable) : IpsaTable :=
  mkIpsaTable t.(tb_proc_id) t.(key_width_vec) t.(tb_id) t.(table_id) t.(tb_miss_action_id) t.(tb_no_table)
    t.(action_to_proc) t.(tb_match_type)
    (mkIpsaMem t.(key_memory).(im_type) kc t.(key_memory).(im_width) t.(key_memory).(im_depth))
    (mkIpsaMem t.(value_memory).(im_type) vc t.(value_memory).(im_width) t.(value_memory).(im_depth)) t.(field_infos).

Record table_given (t t' : IpsaTable) : Prop := {
  tg_shape : t' = with_blocks t'.(key_memory).(im_config) t'.(value_memory).(im_config) t;
  tg_key : zlen t'.(key_memory).(im_config) = mem_blocks t.(key_memory);
  tg_value : zlen t'.(value_memory).(im_config) = mem_blocks t.(value_memory)
}.

Lemma zlen_seqZ x n : 0 ≤ n → zlen (seqZ x n) = n.
Proof. intros. unfold zlen. rewrite length_seqZ. lia. Qed.

Lemma give_table_new t x y :
  table_new t → ∃ t', give_table t (x, y) = (t', (x + (table_blocks t).2, y + (table_blocks t).1)) ∧
    table_given t t' ∧ sram_blocks t' = seqZ y (table_blocks t).1 ∧ tcam_blocks t' = seqZ x (table_blocks t).2.
Proof.
  intros [[Hkc Hkb] [Hvc Hvb]]. unfold give_table, table_blocks, sram_blocks, tcam_blocks. cbn [fst snd].
  destruct (key_memory t) as [[] kc kw kd] eqn:Ek; cbn [im_type im_config] in *;
    repeat (first [rewrite (decide_True (P := MEM_TCAM = MEM_TCAM)) by done | rewrite (decide_False (P := MEM_TCAM = MEM_SRAM)) by done
      | rewrite (decide_True (P := MEM_SRAM = MEM_SRAM)) by done | rewrite (decide_False (P := MEM_SRAM = MEM_TCAM)) by done]).
  all: rewrite !give_blocks_new by done; cbn [fst snd key_memory value_memory im_config im_type].
  - eexists. split; [|split].
    + by rewrite Z.add_0_r || reflexivity.
    + split; [by unfold with_blocks; rewrite Ek|cbn [key_memory value_memory im_config]; rewrite ?Ek; by apply zlen_seqZ..].
    + rewrite decide_False by done. done.
  - eexists. split; [|split].
    + by rewrite Z.add_0_r, Z.add_assoc.
    + split; [by unfold with_blocks; rewrite Ek|cbn [key_memory value_memory im_config]; rewrite ?Ek; by apply zlen_seqZ..].
    + rewrite !decide_True by done. split; [|done]. symmetry. by apply seqZ_app.
Qed.

(** ** The spaces *)
Definition ids_distinct (l : list (string * IpsaTable)) : Prop :=
  ∀ n n' t t', (n, t) ∈ l → (n', t') ∈ l → t.(table_id) = t'.(table_id) → n = n' ∧ t = t'.

Lemma lookup_insert_new {V} (k : Z) (v : V) m j w :
  insert_new k v m !! j = Some w ↔ m !! j = Some w ∨ (m !! k = None ∧ j = k ∧ v = w).
Proof.
  unfold insert_new. destruct (m !! k) as [u|] eqn:E.
  - split; [by left|]. by intros [?|(? & ? & ?)].
  - rewrite lookup_insert_Some. split.
    + intros [[<- <-]|[? ?]]; [by right|by left].
    + intros [Hj|(_ & -> & ->)]; [right|by left]. split; [congruence|done].
Qed.

Lemma table_spaces_spec l :
  ids_distinct l →
  (∀ id name, (table_spaces l).2 !! id = Some name ↔ ∃ t, (name, t) ∈ l ∧ t.(table_id) = id) ∧
  (∀ id sp, (table_spaces l).1 !! id = Some sp ↔ ∃ name t, (name, t) ∈ l ∧ t.(table_id) = id ∧ sp = table_blocks t).
Proof.
  induction l as [|[n t] l IH] using rev_ind; intros Hd.
  - cbn. split.
    + intros id name. rewrite lookup_empty. split; [done|]. by intros (t & ?%not_elem_of_nil & _).
    + intros id sp. rewrite lookup_empty. split; [done|]. by intros (name & t & ?%not_elem_of_nil & _).
  - destruct IH as [H2 H1].
    { intros a b x y Ha Hb. apply Hd; apply elem_of_app; by left. }
    assert (Hnew : ∀ n' t', (n', t') ∈ l → t'.(table_id) = t.(table_id) → n' = n ∧ t' = t).
    { intros n' t' Hin Heq. apply Hd; [..|done]; apply elem_of_app; [by left|by right; left]. }
    unfold table_spaces in *. rewrite fold_left_app. cbn [fold_left].
    destruct (fold_left _ l (∅, ∅)) as [space tabs]. cbn [fst snd] in *. split.
    + intros id name. rewrite lookup_insert_new, H2. setoid_rewrite elem_of_app. setoid_rewrite list_elem_of_singleton. split.
      * intros [(t' & ? & ?)|(_ & -> & ->)]; eauto.
      * intros (t' & [?|[= -> ->]] & <-); [eauto|]. destruct (tabs !! table_id t) as [m|] eqn:E; [left|by right].
        apply H2 in E as (t' & Hin & Heq). destruct (Hnew _ _ Hin Heq) as [-> ->]. eauto.
    + intros id sp. rewrite lookup_insert_new, H1. setoid_rewrite elem_of_app. setoid_rewrite list_elem_of_singleton. split.
      * intros [(name & t' & ? & ? & ?)|(_ & -> & <-)]; [eauto 6|]. exists n, t. auto.
      * intros (name & t' & [?|[= -> ->]] & <- & ->); [eauto 6|]. destruct (space !! table_id t) as [m|] eqn:E; [left|by right].
        apply H1 in E as (name & t' & Hin & Heq & ->). destruct (Hnew _ _ Hin Heq) as [-> ->]. eauto.
Qed.

Lemma stage_blocks_sums space s :
  stage_blocks space s = (sum_of_map (sram_of_space space) s.(stage_tables), sum_of_map (tcam_of_space space) s.(stage_tables)).
Proof. unfold stage_blocks. induction (stage_tables s) as [|id l IH]; cbn; [done|]. by rewrite IH. Qed.

Definition live (stages : list IpsaStage) : list IpsaStage := filter (λ s, s.(removed) = false) stages.

Lemma stage_spaces_spec space stages :
  NoDup (stage_id <$> live stages) → ∀ id sp, stage_spaces space stages !! id = Some sp ↔
    ∃ s, s ∈ live stages ∧ s.(stage_id) = id ∧ sp = stage_blocks space s.
Proof.
  unfold stage_spaces, live. induction stages as [|s l IH] using rev_ind; intros Hnd id sp.
  - cbn. rewrite lookup_empty. split; [done|]. by intros (s & ?%not_elem_of_nil & _).
  - rewrite fold_left_app, filter_app. cbn [fold_left]. rewrite filter_app, fmap_app in Hnd.
    apply NoDup_app in Hnd as (Hnd & Hdis & _). specialize (IH Hnd). rewrite filter_cons, filter_nil in *.
    destruct (removed s) eqn:Er.
    + rewrite decide_False by done. by rewrite app_nil_r.
    + rewrite decide_True in * by done. rewrite lookup_insert_new, IH. setoid_rewrite elem_of_app.
      setoid_rewrite list_elem_of_singleton. split.
      * intros [(s' & ? & ?)|(_ & -> & <-)]; eauto.
      * intros (s' & [?| ->] & <- & ->); [eauto|]. right. split; [|done].
        destruct (fold_left _ l ∅ !! stage_id s) as [sp'|] eqn:E; [|done]. exfalso.
        apply IH in E as (s' & Hin & Heq & _). apply (Hdis (stage_id s')); [by apply list_elem_of_fmap_2|].
        rewrite Heq. by left.
Qed.

(** What a part of a cluster takes is no more than what the cluster takes. *)
Lemma sum_of_map_subset (f : Z → Z) l k :
  NoDup l → (∀ x, x ∈ l → x ∈ k) → (∀ x, 0 ≤ f x) → sum_of_map f l ≤ sum_of_map f k.
Proof.
  intros Hnd Hsub Hf. assert (Hlk : l ⊆+ k) by (by apply NoDup_submseteq).
  apply submseteq_Permutation in Hlk as [r Hp]. rewrite (sum_of_map_perm _ _ _ Hp), sum_of_map_app.
  pose proof (sum_of_map_nonneg f r (λ x _, Hf x)). lia.
Qed.

(** ** Giving out the blocks of all stages *)
Section give.
Context (ts0 : gmap string IpsaTable) (space : gmap Z (Z * Z)) (tabs : gmap Z string).
Hypothesis Hnew : ∀ name t, ts0 !! name = Some t → table_new t.
Hypothesis Htabs : ∀ id name, tabs !! id = Some name ↔ ∃ t, ts0 !! name = Some t ∧ t.(table_id) = id.
Hypothesis Hspace : ∀ name t, ts0 !! name = Some t → map_ref (0, 0) space t.(table_id) = table_blocks t.

(** The table of an id. *)
Definition get_id (ts : gmap string IpsaTable) (id : Z) : option IpsaTable := name ← tabs !! id; ts !! name.

(** The ids served for cluster [c], of all those served, with their clusters. *)
Definition ids_in (c : Z) (D : list (Z * Z)) : list Z := (filter (λ p, p.1 = c) D).*2.

(** The tables of the ids served have their blocks, up to the block [num c] of each
    cluster; the others are as they were. *)
Record giving (D : list (Z * Z)) (ts : gmap string IpsaTable) (num : Z → Z * Z) : Prop := {
  gv_sram : ∀ c, 0 ≤ c → concat (sram_blocks <$> omap (get_id ts) (ids_in c D)) = seqZ 0 (num c).2;
  gv_tcam : ∀ c, 0 ≤ c → concat (tcam_blocks <$> omap (get_id ts) (ids_in c D)) = seqZ 0 (num c).1;
  gv_num : ∀ c, 0 ≤ c → num c = (sum_of_map (tcam_of_space space) (ids_in c D), sum_of_map (sram_of_space space) (ids_in c D));
  gv_rest : ∀ name t, ts0 !! name = Some t → t.(table_id) ∉ D.*2 → ts !! name = Some t;
  gv_done : ∀ name t, ts0 !! name = Some t → t.(table_id) ∈ D.*2 → ∃ t', ts !! name = Some t' ∧ table_given t t'
}.

Lemma giving_start : giving [] ts0 (λ _, (0, 0)).
Proof. split; try done. by intros name t _ ?%not_elem_of_nil. Qed.

Lemma giving_ext D ts num num' : (∀ c, 0 ≤ c → num c = num' c) → giving D ts num → giving D ts num'.
Proof. intros He [H1 H2 H3 H4 H5]. split; try done; intros c Hc; rewrite <- He; auto. Qed.

Lemma table_blocks_nonneg t : table_new t → 0 ≤ (table_blocks t).1 ∧ 0 ≤ (table_blocks t).2.
Proof. intros [[_ ?] [_ ?]]. unfold table_blocks. case_decide; cbn; lia. Qed.

Lemma spaces_nonneg c D : (∀ id, id ∈ D.*2 → is_Some (tabs !! id)) →
  0 ≤ sum_of_map (sram_of_space space) (ids_in c D) ∧ 0 ≤ sum_of_map (tcam_of_space space) (ids_in c D).
Proof.
  intros HD. assert (Hx : ∀ id, id ∈ ids_in c D → 0 ≤ sram_of_space space id ∧ 0 ≤ tcam_of_space space id).
  { intros id ([c' i] & -> & [_ Hin]%list_elem_of_filter)%list_elem_of_fmap.
    destruct (HD i) as [name (t & Ht & <-)%Htabs]; [apply list_elem_of_fmap; by exists (c', i)|]. cbn.
    unfold sram_of_space, tcam_of_space. rewrite (Hspace _ _ Ht). by eapply table_blocks_nonneg, Hnew. }
  split; apply sum_of_map_nonneg; intros id Hid; by apply Hx.
Qed.

(** One table. *)
Lemma give_id_step D ts num c xy id :
  giving D ts num → 0 ≤ c → num c = xy → (∀ i, i ∈ D.*2 → is_Some (tabs !! i)) → is_Some (tabs !! id) → id ∉ D.*2 →
  ∃ ts' xy', give_id tabs id (ts, xy) = Ok (ts', xy') ∧
    giving (D ++ [(c, id)]) ts' (λ j, if decide (j = c) then xy' else num j).
Proof.
  intros [H1 H2 H3 H4 H5] Hc0 Hxy HD [name Hname] Hid. pose proof Hname as (t & Ht & Htid)%Htabs.
  destruct xy as [x y]. unfold give_id. cbn [fst snd]. rewrite Hname, (H4 name t Ht) by congruence.
  destruct (give_table_new t x y (Hnew _ _ Ht)) as (t' & -> & Hg & Hs & Htc). cbn [mbind res_mbind mret res_mret].
  eexists _, _. split; [done|].
  assert (Hsp : map_ref (0, 0) space id = table_blocks t) by (rewrite <- Htid; by eapply Hspace).
  assert (Hget : ∀ i, i ∈ D.*2 → get_id (<[name:=t']> ts) i = get_id ts i).
  { intros i Hi. unfold get_id. destruct (tabs !! i) as [name'|] eqn:E; [|done]. cbn.
    rewrite lookup_insert_ne; [done|]. intros <-. apply Htabs in E as (t2 & Ht2 & Hi2). congruence. }
  assert (Hids : ∀ j, ids_in j (D ++ [(c, id)]) = ids_in j D ++ if decide (j = c) then [id] else []).
  { intros j. unfold ids_in. rewrite filter_app, fmap_app, filter_cons, filter_nil. cbn [fst].
    destruct (decide (c = j)), (decide (j = c)); done || congruence. }
  assert (Hin : ∀ j i, i ∈ ids_in j D → i ∈ D.*2).
  { intros j i (p & -> & [_ Hp]%list_elem_of_filter)%list_elem_of_fmap. by apply list_elem_of_fmap_2. }
  assert (Homap : ∀ j, omap (get_id (<[name:=t']> ts)) (ids_in j (D ++ [(c, id)])) =
    omap (get_id ts) (ids_in j D) ++ if decide (j = c) then [t'] else []).
  { intros j. rewrite Hids, omap_app. f_equal.
    - specialize (Hin j). induction (ids_in j D) as [|i l IH]; [done|]. cbn. rewrite Hget by (apply Hin; by left).
      rewrite IH; [done|]. intros k Hk. apply Hin. by right.
    - case_decide; [|done]. cbn. unfold get_id. rewrite Hname. cbn. by rewrite lookup_insert_eq. }
  destruct (table_blocks_nonneg t (Hnew _ _ Ht)) as [Hb1 Hb2].
  pose proof (spaces_nonneg c D HD) as [Hn1 Hn2]. pose proof (H3 c Hc0) as Hc. rewrite Hxy in Hc. injection Hc as Hx Hy.
  split.
  - intros j Hj0. rewrite Homap, fmap_app, concat_app, H1 by done. case_decide as Hj; [subst j|by rewrite app_nil_r].
    cbn. rewrite app_nil_r, Hs, Hxy. cbn [snd]. symmetry. rewrite <- (Z.add_0_l y) at 2. apply seqZ_app; lia.
  - intros j Hj0. rewrite Homap, fmap_app, concat_app, H2 by done. case_decide as Hj; [subst j|by rewrite app_nil_r].
    cbn. rewrite app_nil_r, Htc, Hxy. cbn [fst]. symmetry. rewrite <- (Z.add_0_l x) at 2. apply seqZ_app; lia.
  - intros j Hj0. rewrite Hids, !sum_of_map_app. case_decide as Hj; [subst j|cbn; rewrite H3 by done; f_equal; lia].
    cbn. unfold sram_of_space at 2, tcam_of_space at 2. rewrite Hsp. f_equal; lia.
  - intros name' t2 Ht2 Hnin. rewrite fmap_app, not_elem_of_app in Hnin. destruct Hnin as [Hnin1 Hnin2].
    rewrite lookup_insert_ne; [by apply H4|]. intros <-. apply Hnin2. cbn. apply list_elem_of_singleton. congruence.
  - intros name' t2 Ht2 Hin2. destruct (decide (name = name')) as [<-|Hne].
    + rewrite lookup_insert_eq. exists t'. split; [done|]. congruence.
    + rewrite lookup_insert_ne by done. apply H5; [done|]. rewrite fmap_app, elem_of_app in Hin2.
      destruct Hin2 as [?|Hin2]; [done|]. apply list_elem_of_singleton in Hin2. cbn in Hin2. exfalso. apply Hne.
      assert (Hnm : tabs !! id = Some name') by (apply Htabs; eauto). congruence.
Qed.

(** The tables of a stage. *)
Lemma give_ids_run ids D ts num c :
  giving D ts num → 0 ≤ c → (∀ i, i ∈ D.*2 ++ ids → is_Some (tabs !! i)) → NoDup (D.*2 ++ ids) →
  ∃ ts' xy', for_each (give_id tabs) ids (ts, num c) = Ok (ts', xy') ∧
    giving (D ++ ((λ i, (c, i)) <$> ids)) ts' (λ j, if decide (j = c) then xy' else num j).
Proof.
  revert D ts num. induction ids as [|id ids IH]; intros D ts num HG Hc0 HD Hnd; cbn [for_each fmap list_fmap].
  - exists ts, (num c). split; [done|]. rewrite app_nil_r. eapply giving_ext; [|done].
    intros j _. by case_decide; subst.
  - destruct (give_id_step D ts num c (num c) id) as (ts1 & xy1 & -> & HG1); [done|done|done| | | |].
    + intros i Hi. apply HD, elem_of_app. by left.
    + apply HD, elem_of_app. right. by left.
    + apply NoDup_app in Hnd as (_ & Hdis & _). intros Hi. apply (Hdis id Hi). by left.
    + cbn [mbind res_mbind]. assert (Hfst : (D ++ [(c, id)]).*2 = D.*2 ++ [id]) by by rewrite fmap_app.
      destruct (IH (D ++ [(c, id)]) ts1 _ HG1 Hc0) as (ts' & xy' & Hrun & HG').
      * rewrite Hfst, <- app_assoc. exact HD.
      * rewrite Hfst, <- app_assoc. exact Hnd.
      * rewrite decide_True in Hrun by done. exists ts', xy'. split; [done|]. rewrite <- app_assoc in HG'.
        eapply giving_ext; [|exact HG']. intros j _. cbn. by case_decide.
Qed.

(** All stages. *)
Definition served (clusters : gmap Z Z) (stages : list IpsaStage) : list (Z * Z) :=
  concat ((λ s, (λ i, (map_ref 0 clusters s.(stage_id), i)) <$> s.(stage_tables)) <$> live stages).

Lemma give_stages_run clusters stages D ts nums :
  giving D ts (at_ nums) → zlen nums = CLUSTER_COUNT →
  (∀ s, s ∈ live stages → 0 ≤ map_ref 0 clusters s.(stage_id) < CLUSTER_COUNT) →
  (∀ i, i ∈ D.*2 ++ concat (stage_tables <$> live stages) → is_Some (tabs !! i)) →
  NoDup (D.*2 ++ concat (stage_tables <$> live stages)) →
  ∃ ts' nums', for_each (give_stage tabs clusters) stages (ts, nums) = Ok (ts', nums') ∧
    giving (D ++ served clusters stages) ts' (at_ nums').
Proof.
  revert D ts nums. unfold served, live. induction stages as [|s l IH]; intros D ts nums HG Hlen Hcl HD Hnd; cbn [for_each].
  - exists ts, nums. split; [done|]. by rewrite app_nil_r.
  - rewrite filter_cons in *. unfold give_stage. destruct (removed s) eqn:Er.
    + rewrite decide_False in * by done. cbn [mbind res_mbind mret res_mret]. by apply IH.
    + rewrite decide_True in * by done. cbn [mbind res_mbind mret res_mret fst snd]. set (c := map_ref 0 clusters (stage_id s)) in *.
      cbn [fmap list_fmap concat] in *. rewrite app_assoc in HD, Hnd.
      pose proof (Hcl s ltac:(by left)) as Hc. fold c in Hc.
      destruct (give_ids_run (stage_tables s) D ts (at_ nums) c HG) as (ts1 & xy & -> & HG1); [lia| | |].
      * intros i Hi. apply HD, elem_of_app. by left.
      * by apply NoDup_app in Hnd as (? & _ & _).
      * cbn [mbind res_mbind mret res_mret].
        assert (Hfst : (D ++ ((λ i, (c, i)) <$> stage_tables s)).*2 = D.*2 ++ stage_tables s).
        { rewrite fmap_app, <- list_fmap_compose. f_equal. apply list_fmap_id. }
        destruct (IH (D ++ ((λ i, (c, i)) <$> stage_tables s)) ts1 (<[Z.to_nat c:=xy]> nums)) as (ts' & nums' & Hrun & HG').
        -- eapply giving_ext; [|exact HG1]. intros j Hj. cbn. rewrite at_insert_Z by lia.
           destruct (decide (j = c)), (decide (c = j)); congruence || done.
        -- by rewrite zlen_insert.
        -- intros s' Hs'. apply Hcl. by right.
        -- by rewrite Hfst.
        -- by rewrite Hfst.
        -- exists ts', nums'. split; [done|]. by rewrite <- app_assoc in HG'.
Qed.
End give.

(** ** The whole allocation *)
Lemma sum_of_map_fmap {A B} (f : B → Z) (g : A → B) l : sum_of_map f (g <$> l) = sum_of_map (λ x, f (g x)) l.
Proof. induction l as [|x l IH]; cbn; [done|]. by rewrite IH. Qed.

Lemma elem_of_in_name_order {V} (m : gmap string V) n v : (n, v) ∈ in_name_order m ↔ m !! n = Some v.
Proof. unfold in_name_order. by rewrite merge_sort_Permutation, elem_of_map_to_list. Qed.

Lemma served_sum (f : Z → Z) clusters stages c :
  sum_of_map f (ids_in c (served clusters stages)) =
  sum_of_map (λ s, sum_of_map f s.(stage_tables)) (filter (λ s, map_ref 0 clusters s.(stage_id) = c) (live stages)).
Proof.
  unfold served. induction (live stages) as [|s l IH]; [done|]. cbn [fmap list_fmap concat]. unfold ids_in in *.
  rewrite filter_app, fmap_app, sum_of_map_app, IH, filter_cons.
  assert (Hs : ∀ ids, (filter (λ p : Z * Z, p.1 = c) ((λ i, (map_ref 0 clusters (stage_id s), i)) <$> ids)).*2 =
    if decide (map_ref 0 clusters (stage_id s) = c) then ids else []).
  { induction ids as [|i ids IHi]; cbn [fmap list_fmap]; [by case_decide|]. rewrite filter_cons. cbn [fst].
    destruct (decide (map_ref 0 clusters (stage_id s) = c)); cbn [fmap list_fmap snd]; by rewrite IHi. }
  rewrite Hs. by case_decide.
Qed.

Lemma served_ids clusters stages : (served clusters stages).*2 = concat (stage_tables <$> live stages).
Proof.
  unfold served. induction (live stages) as [|s l IH]; [done|]. cbn [fmap list_fmap concat].
  rewrite fmap_app, IH, <- list_fmap_compose. f_equal. apply list_fmap_id.
Qed.

(** The conditions of the theorem: the tables are new and have their own ids, the
    stages their own ids and tables, and every stage got a processor. *)
Record allocation_ok (tm : TableManager) (stages : list IpsaStage) (pl : Placement) : Prop := {
  al_ids : ∀ n n' t t', tm.(tables) !! n = Some t → tm.(tables) !! n' = Some t' → t.(table_id) = t'.(table_id) → n = n';
  al_new : ∀ n t, tm.(tables) !! n = Some t → table_new t;
  al_stages : NoDup (stage_id <$> live stages);
  al_placed : ∀ s, s ∈ live stages → 0 ≤ s.(stage_id) ∧
    ∃ i, 0 ≤ i < PROC_COUNT ∧ map_ref 0 pl.(physical_proc_id) i = s.(stage_id);
  al_tables : NoDup (concat (stage_tables <$> live stages));
  al_known : ∀ id, id ∈ concat (stage_tables <$> live stages) → ∃ n t, tm.(tables) !! n = Some t ∧ t.(table_id) = id
}.

(** The tables of cluster [c], in the order of the stages. *)
Definition cluster_tables (tm : TableManager) (pl : Placement) (stages : list IpsaStage) (ts : gmap string IpsaTable) (c : Z)
    : list IpsaTable :=
  omap (get_id (table_spaces (in_name_order tm.(tables))).2 ts)
    (ids_in c (served (proc_clusters pl.(physical_proc_id)) stages)).

Lemma distinct_tables tm :
  (∀ n n' t t', tm.(tables) !! n = Some t → tm.(tables) !! n' = Some t' → t.(table_id) = t'.(table_id) → n = n') →
  ids_distinct (in_name_order tm.(tables)).
Proof.
  intros Hd n n' t t' Hn%elem_of_in_name_order Hn'%elem_of_in_name_order Heq.
  pose proof (Hd n n' t t' Hn Hn' Heq) as <-. split; congruence.
Qed.

(** The blocks the tables of a cluster need are there. *)
Lemma cluster_fits tm stages topo c (f : Z * Z → Z) cap :
  let pl := placement tm stages topo in
  let space := (table_spaces (in_name_order tm.(tables))).1 in
  allocation_ok tm stages pl → (∀ p q, f (pair_add p q) = f p + f q) → f (0, 0) = 0 → (∀ t, table_new t → 0 ≤ f (table_blocks t)) →
  sum_of_map (λ s, f (map_ref (0, 0) (stage_spaces space stages) s)) (at_ pl.(cluster_proc) c) ≤ cap →
  0 ≤ c < CLUSTER_COUNT →
  sum_of_map (λ id, f (map_ref (0, 0) space id)) (ids_in c (served (proc_clusters pl.(physical_proc_id)) stages)) ≤ cap.
Proof.
  intros pl space Hok Hadd H0 Hpos Hcap Hc. rewrite served_sum. set (mine := filter _ (live stages)).
  pose proof (place_stages_ok (stage_spaces space stages) topo) as Hpl. fold pl in Hpl.
  destruct (table_spaces_spec _ (distinct_tables tm (al_ids _ _ _ Hok))) as [_ Hsp]. fold space in Hsp.
  pose proof (stage_spaces_spec space stages (al_stages _ _ _ Hok)) as Hst.
  assert (Hsum : ∀ s, sum_of_map (λ id, f (map_ref (0, 0) space id)) (stage_tables s) = f (stage_blocks space s)).
  { intros s. unfold stage_blocks. induction (stage_tables s) as [|id l IH]; cbn; [done|]. by rewrite Hadd, IH. }
  assert (Hnn : ∀ i, 0 ≤ f (map_ref (0, 0) space i)).
  { intros i. unfold map_ref. destruct (space !! i) as [sp|] eqn:E; cbn; unfold id; [|lia].
    apply Hsp in E as (n & t & Hn%elem_of_in_name_order & _ & ->). by eapply Hpos, (al_new _ _ _ Hok). }
  assert (Hmine : ∀ s, s ∈ mine → s ∈ live stages ∧ map_ref 0 (proc_clusters pl.(physical_proc_id)) s.(stage_id) = c).
  { by intros s [? ?]%list_elem_of_filter. }
  transitivity (sum_of_map (λ s, f (map_ref (0, 0) (stage_spaces space stages) s)) (stage_id <$> mine)).
  { rewrite sum_of_map_fmap. apply Z.eq_le_incl, sum_of_map_ext. intros s Hs%Hmine. rewrite Hsum. unfold map_ref at 1.
    by rewrite (proj2 (Hst (stage_id s) (stage_blocks space s))) by (exists s; split; [apply Hs|done]). }
  etransitivity; [|exact Hcap]. apply sum_of_map_subset.
  - eapply sublist_NoDup; [apply (al_stages _ _ _ Hok)|]. unfold mine. apply fmap_sublist, sublist_filter.
  - intros x (s & -> & [Hs Hcl]%Hmine)%list_elem_of_fmap. destruct (al_placed _ _ _ Hok s Hs) as [Hs0 Hph].
    destruct (proc_clusters_placed _ _ pl (stage_id s) Hpl Hs0 Hph) as [_ Hin]. by rewrite Hcl in Hin.
  - intros x. unfold map_ref. destruct (stage_spaces space stages !! x) as [sp|] eqn:E; cbn; unfold id; [|lia].
    apply Hst in E as (s & _ & _ & ->). rewrite <- Hsum. apply sum_of_map_nonneg. intros i _. apply Hnn.
Qed.

(** C16. When every stage gets a processor, the tables are new, with ids of their own,
    and no table is named twice, by two stages or by one, the memory is partitioned:
    the SRAM blocks of the tables of a cluster, in the order of the stages, are the
    blocks 0, 1, 2 and so on, none missing, none twice and none beyond the cluster, and
    so are its TCAM blocks; every table that a stage names gets as many blocks as its
    width and depth ask for. (A table that is named twice gets its blocks twice.) *)
Theorem memory_partitioned tm stages topo_sequence :
  let pl := placement tm stages topo_sequence in
  allocation_ok tm stages pl →
  ∃ tm', allocateMemory tm stages topo_sequence = Ok (pl.(physical_proc_id), tm') ∧
    (∀ name t, tm.(tables) !! name = Some t → t.(table_id) ∈ concat (stage_tables <$> live stages) →
       ∃ t', tm'.(tables) !! name = Some t' ∧ table_given t t') ∧
    ∀ c, 0 ≤ c < CLUSTER_COUNT → ∃ sram tcam,
      concat (sram_blocks <$> cluster_tables tm pl stages tm'.(tables) c) = seqZ 0 sram ∧ sram ≤ CLUSTER_SRAM_COUNT ∧
      concat (tcam_blocks <$> cluster_tables tm pl stages tm'.(tables) c) = seqZ 0 tcam ∧ tcam ≤ CLUSTER_TCAM_COUNT.
Proof.
  intros pl Hok. unfold allocateMemory. fold pl.
  destruct (table_spaces_spec _ (distinct_tables tm (al_ids _ _ _ Hok))) as [Htabs Hsp].
  set (tabs := (table_spaces (in_name_order (tables tm))).2) in *.
  set (space := (table_spaces (in_name_order (tables tm))).1) in *.
  assert (Htabs' : ∀ i name, tabs !! i = Some name ↔ ∃ t, tables tm !! name = Some t ∧ table_id t = i).
  { intros i name. rewrite Htabs. by setoid_rewrite elem_of_in_name_order. }
  assert (Hsp' : ∀ name t, tables tm !! name = Some t → map_ref (0, 0) space (table_id t) = table_blocks t).
  { intros name t Ht. unfold map_ref. rewrite (proj2 (Hsp (table_id t) (table_blocks t))); [done|].
    exists name, t. by rewrite elem_of_in_name_order. }
  pose proof (place_stages_ok (stage_spaces space stages) topo_sequence) as Hpl. fold space pl in Hpl.
  change (place_stages _ _) with pl in Hpl.
  assert (Hcl : ∀ s, s ∈ live stages → 0 ≤ map_ref 0 (proc_clusters pl.(physical_proc_id)) s.(stage_id) < CLUSTER_COUNT).
  { intros s Hs. destruct (al_placed _ _ _ Hok s Hs) as [Hs0 Hph]. by apply (proc_clusters_placed _ _ pl _ Hpl Hs0 Hph). }
  destruct (give_stages_run (tables tm) space tabs (al_new _ _ _ Hok) Htabs' Hsp' (proc_clusters pl.(physical_proc_id)) stages
    [] (tables tm) (replicate (Z.to_nat CLUSTER_COUNT) (0, 0))) as (ts' & nums' & -> & [G1 G2 G3 _ G5]).
  - eapply giving_ext; [|by apply giving_start]. intros j Hj. unfold at_.
    destruct (decide (j < 4)); [by rewrite lookup_total_replicate_2 by (change CLUSTER_COUNT with 4; lia)|].
    rewrite list_lookup_total_alt, lookup_ge_None_2; [done|]. rewrite length_replicate. change CLUSTER_COUNT with 4. lia.
  - done.
  - exact Hcl.
  - intros i Hi. destruct (al_known _ _ _ Hok i Hi) as (n & t & Ht & <-). exists n. apply Htabs'. eauto.
  - apply Hok.
  - cbn [mbind res_mbind mret res_mret app] in *. eexists. split; [done|]. cbn [tables]. split.
    + intros name t Ht Hin. apply G5; [done|]. by rewrite served_ids.
    + intros c Hc. exists (at_ nums' c).2, (at_ nums' c).1. unfold cluster_tables. fold tabs.
      rewrite G1, G2, G3 by lia. cbn [fst snd]. pose proof (pd_space _ _ _ Hpl c Hc) as Hs.
      destruct (pd_fits _ _ _ Hpl c Hc) as [Hf1 Hf2]. rewrite Hs in Hf1, Hf2. cbn [fst snd] in Hf1, Hf2.
      split; [done|]. split; [|split; [done|]].
      * apply (cluster_fits tm stages topo_sequence c fst); [done..| | |done].
        -- intros t Ht. by apply table_blocks_nonneg.
        -- exact (proj1 (Z.le_0_sub _ _) Hf1).
      * apply (cluster_fits tm stages topo_sequence c snd); [done..| | |done].
        -- intros t Ht. by apply table_blocks_nonneg.
        -- exact (proj1 (Z.le_0_sub _ _) Hf2).
Qed.

(** ** The theorem at a concrete input: an exact table and a ternary one, in two stages *)
Definition demo_table (tid : Z) (mt : Rp4MatchType) (ty : IpsaMemoryType) (kw d vw : Z) : IpsaTable :=
  mkIpsaTable 0 [] 0 tid 0 0 [] mt (mkIpsaMem ty [] kw d) (mkIpsaMem MEM_SRAM [] vw d) [].
Definition demo_tables : TableManager := mkTableManager 2
  {["acl"%string := demo_table 0 MT_TERNARY MEM_TCAM 2 1 1; "fib"%string := demo_table 1 MT_EXACT MEM_SRAM 1 2 1]}.
Definition demo_stage (i : Z) (ids : list Z) : IpsaStage :=
  mkStage i true false [] 0 ids (mkStageDef "s" [] [] [] []).
Definition demo_stages : list IpsaStage := [demo_stage 0 [1]; demo_stage 1 [0]].

Lemma demo_tables_lookup n t :
  demo_tables.(tables) !! n = Some t →
  n = "acl"%string ∧ t = demo_table 0 MT_TERNARY MEM_TCAM 2 1 1 ∨
  n = "fib"%string ∧ t = demo_table 1 MT_EXACT MEM_SRAM 1 2 1.
Proof.
  cbn [tables demo_tables]. rewrite lookup_insert_Some, lookup_singleton_Some.
  intros [[<- <-]|[_ [<- <-]]]; [by left|by right].
Qed.

Lemma demo_allocation_ok : allocation_ok demo_tables demo_stages (placement demo_tables demo_stages [0; 1]).
Proof.
  split.
  - intros n n' t t' [[-> ->]|[-> ->]]%demo_tables_lookup [[-> ->]|[-> ->]]%demo_tables_lookup; done.
  - intros n t [[-> ->]|[-> ->]]%demo_tables_lookup; repeat split; vm_compute; discriminate.
  - apply (bool_decide_unpack _). vm_compute. exact I.
  - intros s [->|[->|[]%not_elem_of_nil]%elem_of_cons]%elem_of_cons; (split; [cbn; lia|]).
    + exists 0. split; [vm_compute; by split|]. vm_compute. reflexivity.
    + exists 1. split; [vm_compute; by split|]. vm_compute. reflexivity.
  - apply (bool_decide_unpack _). vm_compute. exact I.
  - intros i [->|[->|[]%not_elem_of_nil]%elem_of_cons]%elem_of_cons.
    + exists "fib"%string, (demo_table 1 MT_EXACT MEM_SRAM 1 2 1). split; reflexivity.
    + exists "acl"%string, (demo_table 0 MT_TERNARY MEM_TCAM 2 1 1). split; reflexivity.
Qed.

Lemma memory_partitioned_witness :
  ∃ phys tm', allocateMemory demo_tables demo_stages [0; 1] = Ok (phys, tm') ∧
    ∃ t', tm'.(tables) !! "acl"%string = Some t' ∧ zlen t'.(key_memory).(im_config) = 2.
Proof.
  destruct (memory_partitioned demo_tables demo_stages [0; 1] demo_allocation_ok) as (tm' & Hrun & Hgiven & _).
  eexists _, tm'. split; [exact Hrun|].
  destruct (Hgiven "acl"%string (demo_table 0 MT_TERNARY MEM_TCAM 2 1 1)) as (t' & Ht' & [_ Hk _]).
  - reflexivity.
  - right. left.
  - exists t'. split; [exact Ht'|exact Hk].
Defined.

(** A table that a stage names twice, as it does when two patterns of its matcher
    apply the table, gets its blocks twice: four key blocks where its width and depth
    ask for two. *)
Example named_twice_given_twice :
  ∃ phys tm' t', allocateMemory demo_tables [demo_stage 0 [1; 1]] [0] = Ok (phys, tm') ∧
    tm'.(tables) !! "fib"%string = Some t' ∧ t'.(key_memory).(im_config) = [0; 1; 4; 5] ∧
    t'.(value_memory).(im_config) = [2; 3; 6; 7] ∧ t'.(key_memory).(im_width) * t'.(key_memory).(im_depth) = 2.
Proof. vm_compute. by eexists _, _, _. Qed.
