(* ===== verification/TableKey.v ===== *)
(** * The rP4 compiler: table updates (ipsa_tableupdate_key.h, ipsa_tableupdate.h, rp4_runtime.h)

    A command names a table, the values of its key fields, an action and its
    parameters; the values are written as numbers or addresses, and the update file
    holds them as bytes.  Strings are lists of characters here.  [inet_pton], of the C
    library, is a parameter. *)

From stdpp Require Import base numbers list gmap strings pretty.
From Stdlib Require Import ZArith Lia Ascii.
From S2P Require Import Prelude Bits Headers Actions Tables Controller.

#[local] Open Scope Z_scope.

Abbreviation chars := (list ascii).
Definition code (c : ascii) : Z := Z.of_nat (nat_of_ascii c).

(** [inet_pton(AF_INET, ...)] and [inet_pton(AF_INET6, ...)]: the bytes written, if any. *)
Class InetPton : Type := { pton4 : chars → option (list Z); pton6 : chars → option (list Z) }.

(** ** Characters *)

(** [convert]: the value of a hexadecimal digit. *)
Definition convert (c : ascii) : res Z :=
  let x := code c in
  if (48 <=? x) && (x <=? 57) then Ok (x - 48)
  else if (65 <=? x) && (x <=? 70) then Ok (x - 55)
  else if (97 <=? x) && (x <=? 102) then Ok (x - 87)
  else Fault Thrown.

(** [std::stoi]: blanks, a sign, and the digits up to the first other character. *)
Definition is_space (c : ascii) : bool := let x := code c in (x =? 32) || ((9 <=? x) && (x <=? 13)).
Definition is_digit (c : ascii) : bool := (48 <=? code c) && (code c <=? 57).

Fixpoint skip_spaces (s : chars) : chars :=
  match s with c :: s' => if is_space c then skip_spaces s' else s | [] => [] end.

Fixpoint leading_digits (s : chars) : chars :=
  match s with c :: s' => if is_digit c then c :: leading_digits s' else [] | [] => [] end.

Definition dec_value (s : chars) : Z := fold_left (λ x c, 10 * x + (code c - 48)) s 0.

Definition stoi (s : chars) : res Z :=
  let s := skip_spaces s in
  let '(neg, s) := match s with
    | "-"%char :: s' => (true, s') | "+"%char :: s' => (false, s') | _ => (false, s) end in
  match leading_digits s with
  | [] => Fault Thrown
  | ds => let x := (if neg then - dec_value ds else dec_value ds) in
      if (-2147483648 <=? x) && (x <? 2147483648) then Ok x else Fault Thrown
  end.

(** [s.find(c)], and [s.substr(pos)]. *)
Definition find_char (c : ascii) (s : chars) : option nat := fst <$> list_find (λ x, x = c) s.
Definition has (c : ascii) (s : chars) : bool := bool_decide (c ∈ s).
Definition substr (s : chars) (pos : nat) : res chars :=
  if (length s <? pos)%nat then Fault Thrown else Ok (drop pos s).

(** [s[i]]; the character behind the last one is 0. *)
Definition char_at (s : chars) (i : Z) : res ascii :=
  if i =? zlen s then Ok "000"%char else rd s i.

(** Two hexadecimal digits. *)
Definition hex_pair (s : chars) (i : Z) : res Z :=
  a ← char_at s i; x ← convert a;
  b ← char_at s (i + 1); y ← convert b;
  mret (Z.land (Z.lor (Z.shiftl x 4) y) 255).

(** ** Keys *)

(** [parseNumber]: from the last digits to the first; the place in the result is not
    checked. *)
Fixpoint hex_loop (n : nat) (value : chars) (i j : Z) (result : list Z) : res (list Z) :=
  match n with
  | O => Ok result
  | S n' =>
      if 2 <=? i then
        a ← rd value i;
        c ← convert a;
        c ← (if 2 <? i then b ← rd value (i - 1); d ← convert b; mret (u8 (Z.lor c (Z.shiftl d 4))) else mret c);
        result ← wr result j c;
        hex_loop n' value (i - 2) (j - 1) result
      else Ok result
  end.

(** [for (j = size - 1; j >= 0 && x > 0; x >>= 8, j--) result[j] = x & 0xFF]. *)
Fixpoint dec_loop (n : nat) (x j : Z) (result : list Z) : res (list Z) :=
  match n with
  | O => Ok result
  | S n' =>
      if (0 <=? j) && (0 <? x) then
        result ← wr result j (Z.land x 255);
        dec_loop n' (Z.shiftr x 8) (j - 1) result
      else Ok result
  end.

Definition is_hex (value : chars) : bool :=
  match value with "0"%char :: "x"%char :: _ => true | _ => false end.

Definition key_size (width : Z) : Z := Z.quot (width + 7) 8.

Definition parseNumber (value : chars) (width : Z) : res (list Z) :=
  let size := key_size width in
  result ← (if size <? 0 then Fault Thrown else mret (replicate (Z.to_nat size) 0));
  if is_hex value then hex_loop (length value) value (zlen value - 1) (size - 1) result
  else x ← stoi value; dec_loop (Z.to_nat size) x (size - 1) result.

(** [generateMask]; [x] is a [uint8_t]. *)
Fixpoint prefix_loop `{Target} (n : nat) (z i : Z) (result : list Z) : res (list Z) :=
  match n with
  | O => Ok result
  | S n' =>
      if 0 <? z then
        b ← rd result i;
        result ← wr result i (Z.land b (shl32 (u32 (-1)) (Z.max z 8)));
        prefix_loop n' (z - 8) (i - 1) result
      else Ok result
  end.

Definition generateMask `{Target} (width prelen : Z) : res (list Z) :=
  let size := key_size width in
  if size <? 0 then Fault Thrown
  else
    let result := replicate (Z.to_nat size) 255 in
    let x := u8 (Z.rem width 8) in
    result ← (if 0 <? x then wr result 0 (Z.land (Z.lnot (Z.shiftl (-1) x)) 255) else mret result);
    if 0 <=? prelen then prefix_loop (Z.to_nat (width - prelen)) (width - prelen) (size - 1) result
    else mret result.

(** The length behind the slash, and what is in front of it. *)
Definition split_slash (value : chars) : res (chars * Z) :=
  match find_char "/" value with
  | None => mret (value, -1)
  | Some pos =>
      s ← substr value (pos + 1);
      prelen ← stoi s;
      mret (take pos value, prelen)
  end.

Definition address `{Target} (pton : chars → option (list Z)) (size : nat) (value : chars) (width : Z) : res (list Z * list Z) :=
  '(addr, prelen) ← split_slash value;
  mask ← generateMask width prelen;
  mret (default (replicate size 0) (pton addr), mask).

(** The constructor: the bytes of the value and of its mask. *)
Definition IpsaTableUpdateKey `{Target} `{InetPton} (value : chars) (width : Z) : res (list Z * list Z) :=
  match find_char "&" value with
  | Some and_pos =>
      m ← substr value (and_pos + 3);
      entry ← parseNumber (take and_pos value) width;
      mask ← parseNumber m width;
      mret (entry, mask)
  | None =>
      if has "-" value then
        entry ← for_lt 0 6 (λ i e, c ← hex_pair value (i * 3); mret (e ++ [c])) [];
        mask ← generateMask width (-1);
        mret (entry, mask)
      else if has "." value then address pton4 4 value width
      else if has ":" value then address pton6 16 value width
      else
        entry ← parseNumber value width;
        mask ← generateMask width (-1);
        mret (entry, mask)
  end.

(** ** The update file *)
Inductive IpsaTableUpdateType : Set := TBL_UPD_ADD | TBL_UPD_MOD | TBL_UPD_DEL.

(** [IpsaTableUpdater] as the controller reads it back. *)
Record IpsaTableUpdater : Set := mkUpdater { up_type : IpsaTableUpdateType; up_json : UpdateJson }.

Definition update_type (cmd : chars) : IpsaTableUpdateType :=
  if bool_decide (cmd = String.list_ascii_of_string "table_mod") then TBL_UPD_MOD
  else if bool_decide (cmd = String.list_ascii_of_string "table_del") then TBL_UPD_DEL else TBL_UPD_ADD.

(** The parameters up to "=>", and those behind it. *)
Fixpoint split_arrow (ps : list chars) : list chars * list chars :=
  match ps with
  | [] => ([], [])
  | p :: ps' => if bool_decide (p = String.list_ascii_of_string "=>") then ([], ps')
                else let '(a, b) := split_arrow ps' in (p :: a, b)
  end.

(** The values, each with the width given for its place, 32 when there is none. *)
Definition values_of `{Target} `{InetPton} (with_mask : bool) (ps : list chars) (widths : list Z) : res (list KeyJson) :=
  '(ks, _) ← for_each (λ p '(acc, index),
    let width := default 32 (widths !! Z.to_nat index) in
    '(entry, mask) ← IpsaTableUpdateKey p width;
    mret (acc ++ [mkKeyJson width entry (if with_mask then mask else [])], index + 1)) ps ([], 0);
  mret ks.

(** [emitUpdate]: what is written to the file; without a compiled program nothing is. *)
Definition emitUpdate `{Target} `{InetPton} (task : option (TableManager * ActionManager)) (params : list chars)
    : res (option IpsaTableUpdater) :=
  match task with
  | None => mret None
  | Some (tm, am) =>
      cmd ← rd params 0;
      table_name ← rd params 1;
      match lookup_table tm (String.string_of_list_ascii table_name) with
      | None => Fault NullDeref
      | Some table =>
          action_name ← rd params 2;
          match lookup_action am (String.string_of_list_ascii action_name) with
          | None => Fault NullDeref
          | Some action =>
              let '(keys, paras) := split_arrow (drop 3 params) in
              keys ← values_of true keys table.(key_width_vec);
              paras ← values_of false paras action.(ac_parameters_lengths);
              mret (Some (mkUpdater (update_type cmd) (mkUpdate table.(tb_proc_id) table.(tb_id) action.(ac_id)
                (match_type_string table.(tb_match_type)) keys paras)))
          end
      end
  end.

(** ** Numbers *)
Lemma be_val_snoc l x : be_val (l ++ [x]) = be_val l * 256 + x.
Proof.
  induction l as [|y l IH]; cbn [be_val app].
  - change (zlen []) with 0. lia.
  - rewrite IH, zlen_app. change (zlen [x]) with 1. pose proof (zlen_nonneg l). rewrite Z.pow_add_r by lia. lia.
Qed.

Lemma insert_middle {A} (l k : list A) x y : <[length l := x]> (l ++ y :: k) = l ++ x :: k.
Proof. by rewrite insert_app_r_alt, Nat.sub_diag by lia. Qed.

Lemma wr_last_zero n t x :
  wr (replicate (S n) 0 ++ t) (Z.of_nat n) x = Ok (replicate n 0 ++ x :: t).
Proof.
  rewrite wr_ok by (unfold zlen; rewrite length_app, length_replicate; lia). f_equal. rewrite Nat2Z.id.
  rewrite replicate_S_end, <- app_assoc. cbn [app]. rewrite <- (insert_middle _ t x 0). by rewrite length_replicate.
Qed.

Lemma byte_mask x : Z.land x 255 = x mod 256.
Proof. change 255 with (Z.ones 8). by rewrite Z.land_ones by lia. Qed.

(** The bytes stored from the last place down hold the number. *)
Lemma dec_loop_spec n x t :
  0 ≤ x → ∃ b, dec_loop n x (Z.of_nat n - 1) (replicate n 0 ++ t) = Ok (b ++ t) ∧ length b = n ∧ bytes b ∧
    be_val b = x mod 256 ^ Z.of_nat n.
Proof.
  revert x t. induction n as [|n IH]; intros x t Hx.
  - exists []. cbn. split; [done|]. split; [done|]. split; [constructor|]. by rewrite Z.mod_1_r.
  - cbn [dec_loop]. replace (Z.of_nat (S n) - 1) with (Z.of_nat n) by lia.
    rewrite (proj2 (Z.leb_le 0 (Z.of_nat n))) by lia. cbn [andb]. destruct (Z.ltb_spec 0 x).
    + rewrite wr_last_zero. cbn [mbind res_mbind]. rewrite Z.shiftr_div_pow2 by lia. change (2 ^ 8) with 256.
      destruct (IH (x / 256) (Z.land x 255 :: t)) as (b & -> & Hl & Hb & Hv); [dlia|].
      exists (b ++ [Z.land x 255]). rewrite byte_mask, <- app_assoc. split; [done|]. rewrite length_app. cbn.
      split; [lia|]. split; [apply Forall_app; split; [done|]; apply Forall_singleton; dlia|].
      rewrite be_val_snoc, Hv, Nat2Z.inj_succ, Z.pow_succ_r by lia.
      rewrite Z.rem_mul_r by (pose proof (Z.pow_pos_nonneg 256 (Z.of_nat n)); lia). lia.
    + assert (x = 0) as -> by lia. exists (replicate (S n) 0). split; [done|]. split; [apply length_replicate|].
      split; [apply bytes_replicate|]. rewrite Z.mod_0_l by (pose proof (Z.pow_pos_nonneg 256 (Z.of_nat (S n))); lia).
      clear. induction (S n) as [|k IHk]; [done|]. cbn [replicate be_val]. by rewrite IHk.
Qed.

(** What [std::stoi] makes of the digits of a number. *)
Lemma leading_digits_all s : Forall (λ c, is_digit c = true) s → leading_digits s = s.
Proof. induction 1 as [|c s Hc _ IH]; [done|]. cbn. by rewrite Hc, IH. Qed.

Lemma digit_no_space c : is_digit c = true → is_space c = false ∧ c ≠ "-"%char ∧ c ≠ "+"%char ∧ c ≠ "&"%char ∧
  c ≠ "."%char ∧ c ≠ ":"%char ∧ c ≠ "x"%char.
Proof.
  unfold is_digit, is_space. intros [H1%Z.leb_le H2%Z.leb_le]%andb_true_iff.
  split; [zcmp|]. repeat split; intros ->; vm_compute in H1, H2; congruence.
Qed.

Lemma stoi_digits s :
  Forall (λ c, is_digit c = true) s → s ≠ [] → 0 ≤ dec_value s < 2147483648 → stoi s = Ok (dec_value s).
Proof.
  intros Hs Hne Hv. destruct s as [|c s]; [done|]. pose proof Hs as Hcs. inversion_clear Hcs as [|? ? Hc _].
  destruct (digit_no_space c Hc) as (Hsp & Hm & Hp & _). unfold stoi. cbn [skip_spaces]. rewrite Hsp.
  assert (Hsgn : (match c :: s with "-"%char :: s' => (true, s') | "+"%char :: s' => (false, s') | _ => (false, c :: s) end)
    = (false, c :: s)).
  { clear -Hm Hp. destruct c as [[] [] [] [] [] [] [] []]; try done; by destruct Hm || destruct Hp. }
  rewrite Hsgn, leading_digits_all by done.
  rewrite (proj2 (Z.leb_le _ _)), (proj2 (Z.ltb_lt _ _)) by lia. done.
Qed.

(** The decimal digits of a number. *)
Definition decimal (n : N) : chars := String.list_ascii_of_string (pretty n).

Lemma pretty_char_digit x : (x < 10)%N → is_digit (pretty_N_char x) = true ∧ code (pretty_N_char x) - 48 = Z.of_N x.
Proof.
  intros Hx. assert (x = 0 ∨ x = 1 ∨ x = 2 ∨ x = 3 ∨ x = 4 ∨ x = 5 ∨ x = 6 ∨ x = 7 ∨ x = 8 ∨ x = 9)%N as H by lia.
  by destruct H as [->|[->|[->|[->|[->|[->|[->|[->|[->| ->]]]]]]]]].
Qed.

Lemma pretty_go_digits x s :
  let cs := String.list_ascii_of_string (pretty_N_go x s) in
  (Forall (λ c, is_digit c = true) (String.list_ascii_of_string s) → Forall (λ c, is_digit c = true) cs) ∧
  fold_left (λ a c, 10 * a + (code c - 48)) cs 0 =
  fold_left (λ a c, 10 * a + (code c - 48)) (String.list_ascii_of_string s) (Z.of_N x).
Proof.
  cbn zeta. revert s. induction (N.lt_wf_0 x) as [x _ IH]; intros s. destruct (decide (x = 0%N)) as [->|Hx]; [done|].
  rewrite pretty_N_go_step by lia. pose proof (N.mod_lt x 10 ltac:(lia)) as Hm.
  destruct (IH (x / 10)%N ltac:(apply N.div_lt; lia) (String (pretty_N_char (x mod 10)) s)) as [H1 H2].
  destruct (pretty_char_digit (x mod 10) Hm) as [Hd Hc]. split.
  - intros Hs. apply H1. cbn. by constructor.
  - rewrite H2. cbn [String.list_ascii_of_string fold_left]. rewrite Hc. f_equal.
    rewrite N2Z.inj_div, N2Z.inj_mod. pose proof (Z.div_mod (Z.of_N x) 10). lia.
Qed.

Lemma decimal_digits n : Forall (λ c, is_digit c = true) (decimal n) ∧ dec_value (decimal n) = Z.of_N n ∧ decimal n ≠ [].
Proof.
  unfold decimal, dec_value, pretty, pretty_N. destruct (decide (n = 0%N)) as [->|Hn].
  - by repeat constructor.
  - destruct (pretty_go_digits n "") as [H1 H2]. split; [by apply H1|]. rewrite H2. split; [done|].
    intros Hnil. rewrite Hnil in H2. cbn in H2. lia.
Qed.

Lemma not_hex s : Forall (λ c, is_digit c = true) s → is_hex s = false.
Proof.
  intros Hs. destruct s as [|c [|d s]]; [done|by destruct c as [[] [] [] [] [] [] [] []]|].
  inversion_clear Hs as [|? ? _ H]. inversion_clear H as [|? ? Hd _].
  destruct (digit_no_space d Hd) as (_ & _ & _ & _ & _ & _ & Hx). unfold is_hex.
  clear -Hx. destruct c as [[] [] [] [] [] [] [] []]; try done.
  destruct d as [[] [] [] [] [] [] [] []]; try done; by destruct Hx.
Qed.

Lemma key_size_ceil w : 0 ≤ w → key_size w = ceil8 w.
Proof. intros. unfold key_size, ceil8. apply Z.quot_div_nonneg; lia. Qed.

Lemma parse_decimal n width :
  0 ≤ width → (n < 2147483648)%N →
  ∃ b, parseNumber (decimal n) width = Ok b ∧ zlen b = ceil8 width ∧ bytes b ∧
    be_val b = Z.of_N n mod 256 ^ ceil8 width.
Proof.
  intros Hw Hn. destruct (decimal_digits n) as (Hd & Hv & Hne). unfold parseNumber.
  assert (0 ≤ ceil8 width) by (unfold ceil8; dlia). rewrite key_size_ceil, (proj2 (Z.ltb_ge _ _)) by done.
  cbn [mbind res_mbind mret res_mret]. rewrite not_hex, stoi_digits, Hv by (done || lia). cbn [mbind res_mbind].
  destruct (dec_loop_spec (Z.to_nat (ceil8 width)) (Z.of_N n) []) as (b & Hrun & Hl & Hb & Hval); [lia|].
  rewrite Z2Nat.id in Hrun, Hval by done. rewrite !app_nil_r in Hrun. exists b. split; [done|].
  split; [unfold zlen; lia|done].
Qed.

(** Hexadecimal digits, and what they mean. *)
Definition hex_digits (ds : chars) (vs : list Z) : Prop := Forall2 (λ c v, convert c = Ok v) ds vs.
Definition hex_value (vs : list Z) : Z := fold_left (λ a v, 16 * a + v) vs 0.

Lemma hex_value_snoc vs v : hex_value (vs ++ [v]) = 16 * hex_value vs + v.
Proof. unfold hex_value. by rewrite fold_left_app. Qed.

Lemma convert_range c v : convert c = Ok v → 0 ≤ v < 16.
Proof.
  unfold convert. repeat (match goal with |- context [if ?b then _ else _] => destruct b eqn:? end; [intros [= <-]; lia|]).
  done.
Qed.

Lemma hex_join c d : 0 ≤ c < 16 → 0 ≤ d < 16 → u8 (Z.lor c (Z.shiftl d 4)) = 16 * d + c.
Proof.
  intros Hc Hd. assert (H : Forall (λ c, Forall (λ d, u8 (Z.lor c (Z.shiftl d 4)) = 16 * d + c) (seqZ 0 16)) (seqZ 0 16)).
  { apply (bool_decide_unpack _). vm_compute. exact I. }
  rewrite Forall_forall in H. specialize (H c ltac:(apply elem_of_seqZ; lia)). rewrite Forall_forall in H.
  apply H, elem_of_seqZ. lia.
Qed.

Lemma rd_middle {A} (l k : list A) x i : i = zlen l → rd (l ++ x :: k) i = Ok x.
Proof.
  intros ->. unfold rd. rewrite (proj2 (Z.leb_le 0 (zlen l))) by apply zlen_nonneg. unfold zlen.
  by rewrite Nat2Z.id, lookup_app_r, Nat.sub_diag by lia.
Qed.

Lemma list_pairs_end {A} (l : list A) : l = [] ∨ (∃ x, l = [x]) ∨ ∃ k x y, l = k ++ [x; y].
Proof.
  destruct l as [|y l _] using rev_ind; [by left|]. right. destruct l as [|x l _] using rev_ind; [left; by exists y|].
  right. exists l, x, y. by rewrite <- app_assoc.
Qed.

(** The loop over the digits, two for a byte, from the last. *)
Lemma hex_loop_spec pre ds vs rest n fuel t :
  zlen pre = 2 → hex_digits ds vs → (length ds ≤ fuel)%nat →
  if decide (length ds ≤ 2 * n)%nat then
    ∃ b, hex_loop fuel (pre ++ ds ++ rest) (1 + zlen ds) (Z.of_nat n - 1) (replicate n 0 ++ t) = Ok (b ++ t) ∧
      length b = n ∧ bytes b ∧ be_val b = hex_value vs
  else hex_loop fuel (pre ++ ds ++ rest) (1 + zlen ds) (Z.of_nat n - 1) (replicate n 0 ++ t) = Fault OutOfBounds.
Proof.
  intros Hpre. remember (length ds) as len eqn:Hlen. revert ds vs rest n fuel t Hlen.
  induction len as [len IH] using lt_wf_ind. intros ds vs rest n fuel t Hlen Hd Hfuel.
  assert (Hz : ∀ n, be_val (replicate n 0) = 0) by (clear; induction n as [|k IHk]; [done|]; cbn [replicate be_val]; by rewrite IHk).
  destruct (list_pairs_end ds) as [->|[[c ->]|(ds' & a & c & ->)]].
  - cbn in Hlen. subst len. rewrite decide_True by lia. apply Forall2_nil_inv_l in Hd as ->.
    exists (replicate n 0). split; [by destruct fuel|]. split; [apply length_replicate|]. split; [apply bytes_replicate|apply Hz].
  - cbn in Hlen. subst len. destruct fuel as [|fuel]; [lia|]. apply Forall2_cons_inv_l in Hd as (v & vs' & Hc & Hn & ->).
    apply Forall2_nil_inv_l in Hn as ->. pose proof (convert_range _ _ Hc). cbn [hex_loop]. change (1 + zlen [c]) with 2.
    cbn [Z.leb Z.compare Pos.compare Pos.compare_cont app].
    rewrite (rd_middle pre rest c 2) by lia. cbn [mbind res_mbind]. rewrite Hc.
    cbn [mbind res_mbind Z.ltb Z.compare Pos.compare Pos.compare_cont mret res_mret]. destruct n as [|n].
    + rewrite decide_False by lia. by rewrite wr_oob by (unfold zlen; lia).
    + rewrite decide_True by lia. replace (Z.of_nat (S n) - 1) with (Z.of_nat n) by lia. rewrite wr_last_zero. cbn [mbind res_mbind].
      exists (replicate n 0 ++ [v]). split; [by destruct fuel; rewrite <- app_assoc|]. rewrite length_app, length_replicate. cbn.
      split; [lia|]. split; [apply Forall_app; split; [apply bytes_replicate|apply Forall_singleton; lia]|].
      by rewrite be_val_snoc, Hz.
  - apply Forall2_app_inv_l in Hd as (vs' & k & Hd' & Hk & ->). apply Forall2_cons_inv_l in Hk as (v & k' & Ha & Hk & ->).
    apply Forall2_cons_inv_l in Hk as (w & k'' & Hc & Hn & ->). apply Forall2_nil_inv_l in Hn as ->.
    rewrite length_app in Hlen. cbn in Hlen. destruct fuel as [|fuel]; [lia|]. cbn [hex_loop].
    pose proof (convert_range _ _ Ha). pose proof (convert_range _ _ Hc). pose proof (zlen_nonneg ds').
    assert (Hds : zlen (ds' ++ [a; c]) = zlen ds' + 2) by by rewrite zlen_app. rewrite Hds.
    rewrite (proj2 (Z.leb_le 2 _)), (proj2 (Z.ltb_lt 2 _)) by lia.
    assert (Hval : pre ++ (ds' ++ [a; c]) ++ rest = (pre ++ ds') ++ a :: c :: rest) by (by rewrite <- !app_assoc).
    assert (Hval2 : pre ++ (ds' ++ [a; c]) ++ rest = ((pre ++ ds') ++ [a]) ++ c :: rest) by (by rewrite <- !app_assoc).
    assert (Hrc : rd (pre ++ (ds' ++ [a; c]) ++ rest) (1 + (zlen ds' + 2)) = Ok c).
    { rewrite Hval2. apply rd_middle. rewrite !zlen_app, Hpre. change (zlen [a]) with 1. lia. }
    assert (Hra : rd (pre ++ (ds' ++ [a; c]) ++ rest) (1 + (zlen ds' + 2) - 1) = Ok a).
    { rewrite Hval. apply rd_middle. rewrite !zlen_app, Hpre. lia. }
    rewrite Hrc, Hra. cbn [mbind res_mbind]. rewrite Hc. cbn [mbind res_mbind]. rewrite Ha.
    cbn [mbind res_mbind mret res_mret]. rewrite hex_join by done. destruct n as [|n].
    + rewrite decide_False by lia. by rewrite wr_oob by (unfold zlen; lia).
    + replace (Z.of_nat (S n) - 1) with (Z.of_nat n) by lia. rewrite wr_last_zero. cbn [mbind res_mbind].
      replace (1 + (zlen ds' + 2) - 2) with (1 + zlen ds') by lia. rewrite <- app_assoc.
      specialize (IH (length ds') ltac:(lia) ds' vs' ([a; c] ++ rest) n fuel (16 * v + w :: t) eq_refl Hd' ltac:(lia)).
      destruct (decide (length ds' ≤ 2 * n)%nat); [rewrite decide_True by lia|by rewrite decide_False by lia].
      destruct IH as (b & -> & Hl & Hb & Hv). exists (b ++ [16 * v + w]). rewrite <- app_assoc. split; [done|].
      rewrite length_app. cbn. split; [lia|]. split; [apply Forall_app; split; [done|apply Forall_singleton; lia]|].
      replace [v; w] with ([v] ++ [w]) by done. rewrite app_assoc, be_val_snoc, Hv, !hex_value_snoc. lia.
Qed.

Definition hex_literal (ds : chars) : chars := "0"%char :: "x"%char :: ds.

Lemma parse_hex ds vs width :
  0 ≤ width → hex_digits ds vs →
  if decide (zlen ds ≤ 2 * ceil8 width) then
    ∃ b, parseNumber (hex_literal ds) width = Ok b ∧ zlen b = ceil8 width ∧ bytes b ∧ be_val b = hex_value vs
  else parseNumber (hex_literal ds) width = Fault OutOfBounds.
Proof.
  intros Hw Hd. assert (0 ≤ ceil8 width) by (unfold ceil8; dlia).
  pose proof (hex_loop_spec ["0"%char; "x"%char] ds vs [] (Z.to_nat (ceil8 width)) (length (hex_literal ds)) [] eq_refl Hd
    ltac:(cbn; lia)) as Hloop.
  unfold parseNumber. rewrite key_size_ceil, (proj2 (Z.ltb_ge _ _)) by done. cbn [mbind res_mbind mret res_mret is_hex hex_literal].
  rewrite Z2Nat.id, !app_nil_r in Hloop by done. cbn [app] in Hloop. fold (hex_literal ds) in Hloop |- *.
  replace (zlen (hex_literal ds) - 1) with (1 + zlen ds) by (unfold zlen, hex_literal; cbn [length]; lia).
  destruct (decide (length ds ≤ 2 * Z.to_nat (ceil8 width))%nat).
  - rewrite decide_True by (unfold zlen; lia). destruct Hloop as (b & Hrun & Hl & Hb & Hv). rewrite app_nil_r in Hrun. exists b.
    split; [done|]. split; [unfold zlen; lia|done].
  - rewrite decide_False by (unfold zlen; lia). done.
Qed.

(** The numbers of a command: the bytes of a key read back as the number that was
    written, in decimal digits or in hexadecimal ones.  A decimal number that is too
    large for the bytes of its field is cut without notice; more hexadecimal digits
    than the field has room for are stored in front of the vector. *)
Lemma number_roundtrip n ds vs width :
  0 ≤ width → (n < 2147483648)%N → hex_digits ds vs →
  (∃ b, parseNumber (decimal n) width = Ok b ∧ zlen b = ceil8 width ∧ bytes b ∧
     be_val b = Z.of_N n mod 256 ^ ceil8 width) ∧
  if decide (zlen ds ≤ 2 * ceil8 width) then
    ∃ b, parseNumber (hex_literal ds) width = Ok b ∧ zlen b = ceil8 width ∧ bytes b ∧ be_val b = hex_value vs
  else parseNumber (hex_literal ds) width = Fault OutOfBounds.
Proof. intros Hw Hn Hd. split; [by apply parse_decimal|by apply parse_hex]. Qed.

(** ** Masks *)
Lemma high_mask `{Target} z : 0 < z < 32 → Z.land 255 (shl32 (u32 (-1)) (Z.max z 8)) = 0.
Proof.
  intros Hz. rewrite shl32_in by lia. rewrite Z.land_comm, byte_mask. unfold u32. set (k := Z.max z 8).
  assert (Hk : 2 ^ k = 256 * 2 ^ (k - 8)) by (rewrite <- (Z.pow_add_r 2 8) by (subst k; lia); f_equal; subst k; lia).
  rewrite Hk. dlia.
Qed.

Lemma prefix_loop_spec `{Target} fuel z (k t : list Z) :
  0 ≤ z < 32 → z ≤ 8 * Z.of_nat (length k) → z ≤ Z.of_nat fuel → Forall (λ b, b = 255) k →
  prefix_loop fuel z (zlen k - 1) (k ++ t) =
  Ok (take (length k - Z.to_nat (ceil8 z)) k ++ replicate (Z.to_nat (ceil8 z)) 0 ++ t).
Proof.
  intros Hz Hk Hf Hall. revert z t fuel Hz Hk Hf. induction k as [|b k IH] using rev_ind; intros z t fuel Hz Hk Hf.
  - cbn in Hk. assert (z = 0) as -> by lia. by destruct fuel.
  - apply Forall_app in Hall as [Hall Hb]. apply Forall_singleton in Hb as ->. destruct (decide (z = 0)) as [->|Hz0].
    + cbn. rewrite Nat.sub_0_r, take_ge by done. by destruct fuel.
    + destruct fuel as [|fuel]; [lia|]. cbn [prefix_loop]. rewrite (proj2 (Z.ltb_lt 0 z)) by lia.
      rewrite <- app_assoc. cbn [app]. rewrite zlen_app. change (zlen [255]) with 1.
      replace (zlen k + 1 - 1) with (zlen k) by lia. rewrite rd_middle by done. cbn [mbind res_mbind].
      rewrite wr_ok by (rewrite zlen_app; unfold zlen; cbn [length]; lia). cbn [mbind res_mbind].
      rewrite high_mask by lia. replace (Z.to_nat (zlen k)) with (length k) by (unfold zlen; lia). rewrite insert_middle.
      rewrite length_app in Hk. cbn in Hk.
      assert (Hc : ceil8 z = ceil8 (Z.max 0 (z - 8)) + 1) by (unfold ceil8; dlia).
      assert (Hrun : prefix_loop fuel (z - 8) (zlen k - 1) (k ++ 0 :: t) = prefix_loop fuel (Z.max 0 (z - 8)) (zlen k - 1) (k ++ 0 :: t)).
      { destruct (decide (8 ≤ z)); [by rewrite Z.max_r by lia|]. rewrite Z.max_l by lia.
        destruct fuel; [done|]. cbn [prefix_loop]. by rewrite (proj2 (Z.ltb_ge 0 (z - 8))) by lia. }
      rewrite Hrun, IH by (done || lia). f_equal. assert (0 ≤ ceil8 (Z.max 0 (z - 8))) by (unfold ceil8; dlia).
      set (c := ceil8 (Z.max 0 (z - 8))) in *. assert (Hn : Z.to_nat (ceil8 z) = S (Z.to_nat c)) by lia. rewrite Hn.
      replace (length (k ++ [255%Z]) - S (Z.to_nat c))%nat with (length k - Z.to_nat c)%nat by (rewrite length_app; cbn; lia).
      rewrite take_app_le by lia. by rewrite replicate_S_end, <- app_assoc.
Qed.

(** The mask of a prefix of a whole number of bytes is that prefix; the mask of any
    other prefix ends at the byte the prefix ends in: the bits it has in that byte are
    not compared. *)
Lemma prefix_mask `{Target} width prelen :
  0 < width → width mod 8 = 0 → 0 ≤ prelen ≤ width → width - prelen < 32 →
  generateMask width prelen =
    Ok (replicate (Z.to_nat (prelen / 8)) 255 ++ replicate (Z.to_nat (width / 8 - prelen / 8)) 0).
Proof.
  intros Hw H8 Hp Hd. unfold generateMask.
  assert (Hs : key_size width = width / 8) by (rewrite key_size_ceil by lia; unfold ceil8; dlia).
  rewrite Hs, (proj2 (Z.ltb_ge _ _)) by dlia.
  rewrite Z.rem_mod_nonneg, H8 by lia. cbn [u8 Z.ltb Z.compare mbind res_mbind mret res_mret].
  change (u8 0) with 0. cbn [Z.ltb Z.compare mbind res_mbind mret res_mret].
  rewrite (proj2 (Z.leb_le 0 prelen)) by lia.
  pose proof (prefix_loop_spec (Z.to_nat (width - prelen)) (width - prelen) (replicate (Z.to_nat (width / 8)) 255) []) as Hl.
  unfold zlen in Hl. rewrite length_replicate, Z2Nat.id in Hl by dlia.
  rewrite app_nil_r in Hl. rewrite Hl; [|lia|dlia|lia|by apply Forall_replicate].
  rewrite app_nil_r. f_equal. assert (Hc : ceil8 (width - prelen) = width / 8 - prelen / 8) by (unfold ceil8; dlia).
  rewrite Hc, take_replicate. f_equal. f_equal. rewrite Z2Nat.inj_sub by dlia.
  assert (prelen / 8 ≤ width / 8) by dlia. lia.
Qed.

Lemma number_roundtrip_witness :
  (∃ b, parseNumber (decimal 2048) 16 = Ok b ∧ be_val b = 2048) ∧
  parseNumber (hex_literal ["1"%char; "2"%char; "f"%char]) 8 = Fault OutOfBounds.
Proof.
  destruct (number_roundtrip 2048 ["1"%char; "2"%char; "f"%char] [1; 2; 15] 16) as [(b & Hb & _ & _ & Hv) _].
  - lia.
  - lia.
  - repeat constructor.
  - split; [exists b; split; [exact Hb|rewrite Hv; reflexivity]|].
    apply (number_roundtrip 0 ["1"%char; "2"%char; "f"%char] [1; 2; 15] 8); [lia|lia|repeat constructor].
Defined.

Lemma prefix_mask_witness : generateMask (H := x86) 32 20 = Ok [255; 255; 0; 0].
Proof. apply (prefix_mask (H := x86) 32 20); [lia|reflexivity|lia|lia]. Defined.
