(* ===== verification/Output.v ===== *)
(** * The rP4 compiler: the output, and what the switch makes of it

    The compiler writes its objects with [toIpsaValue], the controller reads them
    back.  The functions here give, for an object of the compiler, the values the
    controller reads from the file.  The theorems put compiler, controller and data
    plane together. *)

From stdpp Require Import base numbers list gmap strings pretty.
From Stdlib Require Import ZArith Lia Ascii.
From S2P Require Import Prelude Bits Phv Parser Executor Gateway Matcher Pipeline Server Client Controller Configure.
From S2P Require Import Headers Actions Tables Stages Levels Allocation TableKey.

#[local] Open Scope Z_scope.

(** ** What is written, as it is read *)
Definition field_json (f : IpsaHeaderField) : FieldJson :=
  mkFieldJson f.(ihf_header_id) f.(ihf_offset) f.(ihf_length) (field_type_string f.(ihf_type)).

(** The type of the key memory is written and not read; the depth of the value memory
    is not written. *)
Definition table_json (t : IpsaTable) : MatcherJson := {|
  j_matcher_id := t.(tb_id); j_miss_action_id := t.(tb_miss_action_id); j_no_table := t.(tb_no_table);
  j_match_type := match_type_string t.(tb_match_type);
  j_depth := t.(key_memory).(im_depth); j_key_width := t.(key_memory).(im_width);
  j_key_config := t.(key_memory).(im_config);
  j_value_width := t.(value_memory).(im_width); j_value_config := t.(value_memory).(im_config);
  j_action_to_proc := t.(action_to_proc); j_field_infos := field_json <$> t.(field_infos)
|}.

Definition level_entry_json (e : IpsaLevelEntry) : ParserEntryJson := {|
  j_current_state := e.(le_tcam).(lt_current_state); j_entry := e.(le_tcam).(lt_entry); j_mask := e.(le_tcam).(lt_mask);
  j_hdr_id := e.(le_sram).(ls_header_id); j_header_length := e.(le_sram).(ls_header_length);
  j_next_state := e.(le_sram).(ls_next_state);
  j_transition_field_num := zlen e.(le_sram).(ls_transition_fields);
  j_accept_drop := e.(le_sram).(ls_accept_drop);
  j_transition_fields := field_json <$> e.(le_sram).(ls_transition_fields)
|}.

(** Operands: a field that was not found and an operand that is missing are written as
    null, on which the controller throws. *)
Fixpoint operand_json (hm : HeaderManager) (o : IpsaOperand) : res JTree :=
  match o with
  | IpsaConstant n => mret (JNode (JConst n) JNone JNone)
  | IpsaParameter i => mret (JNode (JParam i) JNone JNone)
  | IpsaField None => Fault Thrown
  | IpsaField r => f ← deref_field hm r; mret (JNode (JField (field_json f)) JNone JNone)
  | IpsaExpression op l r =>
      l ← match l with Some l => operand_json hm l | None => Fault Thrown end;
      r ← match r with Some r => operand_json hm r | None => Fault Thrown end;
      mret (JNode (JExpr (operator_string op)) l r)
  end.

Definition assign_json (hm : HeaderManager) (a : IpsaAssign) : res (FieldJson * JTree) :=
  f ← deref_field hm a.(as_lvalue);
  match a.(as_rvalue) with
  | None => Fault NullDeref
  | Some o => e ← operand_json hm o; mret (field_json f, e)
  end.

Definition action_json (hm : HeaderManager) (a : IpsaAction) : res ActionJson :=
  ps ← collect (assign_json hm) a.(ac_primitives);
  mret (mkActionJson a.(ac_id) a.(ac_parameter_num) a.(ac_parameters_lengths) ps).

Definition metadata_json (hm : HeaderManager) : list MetaJson :=
  (λ '(id, offset, length), mkMetaJson id length offset) <$> hm.(metadata).

(** ** Tables *)

(** A field the messages can carry. *)
Record field_fits (f : IpsaHeaderField) : Prop := {
  ff_type : f.(ihf_type) = FT_FIELD;
  ff_hdr : 0 ≤ f.(ihf_header_id) < 32;
  ff_off : 0 ≤ f.(ihf_offset) < 65536;
  ff_len : 1 ≤ f.(ihf_length) < 65536
}.

(** The table [t] is what the compiler makes of an exact table keyed by the field [f]:
    it is loaded, gets blocks the data plane has, and a place in a processor. *)
Record compiled (hm : HeaderManager) (am : ActionManager) (def : Rp4TableDef) (f : IpsaHeaderField) (t : IpsaTable)
    `{Target} : Prop := {
  cp_key : ∃ lv, def.(td_key) = [(lv, MT_EXACT)] ∧ deref_field hm (lookup_lvalue hm lv) = Ok f;
  cp_sizes : Forall (λ s, match s with TableSizeStmt n | TableValueWidthStmt n => 1 ≤ n | _ => True end) def.(td_optional_stmts);
  cp_table : ∃ id t0 xy t1 xy' proc matcher a2p, load_table hm am def id = Ok t0 ∧ give_table t0 xy = (t1, xy') ∧
    0 ≤ xy.2 ∧ xy'.2 ≤ SRAM_NUM_PER_CLUSTER ∧ t = with_place proc matcher a2p t1
}.

Lemma ctrl_field_json f : field_fits f →
  ctrl_field (field_json f) = mkFieldInfo f.(ihf_header_id) f.(ihf_offset) f.(ihf_length) FIELD.
Proof.
  intros [Ht Hh Ho Hl]. unfold ctrl_field, field_json. cbn [j_header_id j_field_internal_offset j_field_length j_type].
  by rewrite u8_small, !u16_small, Ht by lia.
Qed.

Lemma at_seqZ x n i : 0 ≤ i < n → at_ (seqZ x n) i = x + i.
Proof.
  intros Hi. unfold at_. assert (Hl : seqZ x n !! Z.to_nat i = Some (x + i)) by (apply lookup_seqZ; lia).
  rewrite list_lookup_total_alt, Hl. done.
Qed.

Lemma bytes_seqZ x n : 0 ≤ x → 0 ≤ n → x + n ≤ 256 → bytes (seqZ x n).
Proof. intros. apply Forall_forall. intros b Hb%elem_of_seqZ. lia. Qed.

(** Consecutive blocks are a configuration the data plane takes. *)
Lemma seq_config_ok kw vw d y :
  1 ≤ d → 1 ≤ kw → 1 ≤ vw → 0 ≤ y → y + kw * d + vw * d ≤ SRAM_NUM_PER_CLUSTER →
  config_ok kw vw d (seqZ y (kw * d)) (seqZ (y + kw * d) (vw * d)).
Proof.
  intros Hd Hk Hv Hy Hs. assert (1 ≤ kw * d) by nia. assert (1 ≤ vw * d) by nia.
  split; rewrite ?zlen_seqZ by lia; try lia.
  - intros i Hi. rewrite at_seqZ by lia. lia.
  - intros i Hi. rewrite at_seqZ by lia. lia.
  - intros i j Hi Hj. rewrite !at_seqZ by lia. lia.
  - intros i j Hi Hj. rewrite !at_seqZ by lia. lia.
  - intros i j Hi Hj. rewrite !at_seqZ by lia. lia.
Qed.

Lemma blocks_pos n mem : 1 ≤ n → 1 ≤ mem → 1 ≤ blocks n mem.
Proof. intros. unfold blocks. rewrite Z.quot_div_nonneg by lia. apply Z.div_le_lower_bound; lia. Qed.

Lemma stmt_blocks_pos stmt mem stmts :
  1 ≤ mem → (∀ s n, s ∈ stmts → stmt s = Some n → 1 ≤ n) → 1 ≤ stmt_blocks stmt mem stmts.
Proof.
  intros Hm Hs. unfold stmt_blocks. destruct (head (omap stmt stmts)) as [n|] eqn:E; [|lia].
  apply head_Some_elem_of in E. apply list_elem_of_omap in E as (s & Hin & Hn). apply blocks_pos; [by apply (Hs s)|done].
Qed.

(** An exact table of one key, as it is loaded. *)
Lemma load_table_exact `{Target} hm am def id lv f :
  def.(td_key) = [(lv, MT_EXACT)] → deref_field hm (lookup_lvalue hm lv) = Ok f →
  ∃ miss d vw, load_table hm am def id = Ok (mkIpsaTable 0 [f.(ihf_length)] 0 id miss 0 [] MT_EXACT
      (mkIpsaMem MEM_SRAM [] (blocks f.(ihf_length) ipsa_configuration.SRAM_WIDTH) d) (mkIpsaMem MEM_SRAM [] vw d) [f]) ∧
    d = stmt_blocks size_stmt ipsa_configuration.SRAM_DEPTH def.(td_optional_stmts) ∧
    vw = stmt_blocks width_stmt ipsa_configuration.SRAM_WIDTH def.(td_optional_stmts).
Proof.
  intros Hk Hf. unfold load_table. rewrite Hk. cbn [key_match_type snd]. rewrite !(decide_True (P := MT_EXACT = MT_EXACT)) by done.
  cbn [for_each fst]. rewrite Hf. cbn [mbind res_mbind mret res_mret].
  rewrite !(decide_True (P := MEM_SRAM = MEM_SRAM)) by done. cbn [app]. eexists _, _, _. split; [|split; reflexivity].
  unfold sum_of_map. cbn. by rewrite Z.add_0_r.
Qed.

Lemma sizes_pos (stmts : list Rp4TableOptionalStmt) :
  Forall (λ s, match s with TableSizeStmt n | TableValueWidthStmt n => 1 ≤ n | _ => True end) stmts →
  1 ≤ stmt_blocks size_stmt ipsa_configuration.SRAM_DEPTH stmts ∧ 1 ≤ stmt_blocks width_stmt ipsa_configuration.SRAM_WIDTH stmts.
Proof.
  rewrite Forall_forall. intros Hall. split; (apply stmt_blocks_pos; [done|]); intros s n Hs Hn;
    specialize (Hall s Hs); destruct s; cbn in Hn; simplify_eq; done.
Qed.

(** What is known of the table in the end. *)
Record compiled_as (f : IpsaHeaderField) (t : IpsaTable) : Prop := {
  ca_json : table_json_ok (table_json t) (field_json f);
  ca_widths : t.(key_width_vec) = [f.(ihf_length)];
  ca_match : t.(tb_match_type) = MT_EXACT;
  ca_key : fits (ceil8 f.(ihf_length)) t.(key_memory).(im_width)
}.

Lemma key_fits n : 1 ≤ n → fits (ceil8 n) (blocks n ipsa_configuration.SRAM_WIDTH).
Proof.
  intros Hn. unfold fits, blocks, ceil8. change ipsa_configuration.SRAM_WIDTH with 128. change SRAM_ROW with 16.
  rewrite Z.quot_div_nonneg by lia. dlia.
Qed.

Lemma compiled_table_json `{Target} hm am def f t :
  compiled hm am def f t → field_fits f → compiled_as f t.
Proof.
  intros [(lv & Hk & Hf) Hsz (id & t0 & [x y] & t1 & xy' & proc & mid & a2p & Hload & Hgive & Hy & Hcap & ->)] Hff.
  destruct (load_table_exact hm am def id lv f Hk Hf) as (miss & d & vw & Hrun & Hd & Hv).
  rewrite Hload in Hrun. injection Hrun as ->. destruct (sizes_pos _ Hsz) as [Hd1 Hv1]. rewrite <- Hd in Hd1. rewrite <- Hv in Hv1.
  destruct Hff as [Hty Hh Ho Hl]. set (kw := blocks _ _) in *. assert (Hkw : 1 ≤ kw) by (by apply blocks_pos; [lia|]).
  unfold give_table in Hgive. cbn [key_memory value_memory im_type fst snd] in Hgive. rewrite decide_False in Hgive by done.
  cbn [snd] in Hy, Hcap.
  rewrite !give_blocks_new in Hgive by (done || (unfold mem_blocks; cbn [im_width im_depth]; nia)).
  unfold mem_blocks in Hgive. cbn [im_width im_depth im_type] in Hgive. injection Hgive as <- <-. cbn [snd] in Hcap.
  change SRAM_NUM_PER_CLUSTER with 20 in *. assert (1 ≤ kw * d ∧ 1 ≤ vw * d) as [? ?] by nia.
  split; [|done|done|by apply key_fits; lia]. split; cbn.
  - done.
  - by apply seq_config_ok.
  - rewrite zlen_seqZ by lia. split; [done|]. apply bytes_seqZ; lia.
  - rewrite zlen_seqZ by lia. split; [done|]. apply bytes_seqZ; lia.
  - done.
  - by rewrite Hty.
  - rewrite u8_small by lia. lia.
  - rewrite u16_small by lia. lia.
Qed.

(** ** Commands *)
Definition words (s : string) : chars := String.list_ascii_of_string s.

(** The values of a command are the numbers [ns], in fields of the widths [ws]. *)
Definition number_json (n : N) (w : Z) (k : KeyJson) : Prop :=
  k.(kj_width) = w ∧ bytes k.(kj_value) ∧ zlen k.(kj_value) = ceil8 w ∧ be_val k.(kj_value) = Z.of_N n.

Definition number_fits (n : N) (w : Z) : Prop := 1 ≤ w < 65536 ∧ (n < 2147483648)%N ∧ Z.of_N n < 2 ^ w.

Lemma digits_plain s c : Forall (λ c, is_digit c = true) s → is_digit c = false → c ∉ s.
Proof. rewrite Forall_forall. intros Hs Hc Hin. rewrite Hs in Hc; done. Qed.

Lemma full_mask `{Target} w : 1 ≤ w → ∃ m, generateMask w (-1) = Ok m.
Proof.
  intros Hw. unfold generateMask. assert (1 ≤ ceil8 w) by (unfold ceil8; dlia). rewrite key_size_ceil by lia.
  rewrite (proj2 (Z.ltb_ge _ _)) by lia. destruct (0 <? u8 (Z.rem w 8)); [|by eexists].
  rewrite wr_ok by (rewrite zlen_replicate; lia). by eexists.
Qed.

Lemma decimal_key `{Target} `{InetPton} n w :
  number_fits n w → ∃ entry mask, IpsaTableUpdateKey (decimal n) w = Ok (entry, mask) ∧
    bytes entry ∧ zlen entry = ceil8 w ∧ be_val entry = Z.of_N n.
Proof.
  intros (Hw & Hn & Hfit). destruct (decimal_digits n) as (Hd & _ & _).
  destruct (parse_decimal n w) as (b & Hb & Hl & Hbb & Hv); [lia|done|]. destruct (full_mask w) as [m Hm]; [lia|].
  exists b, m. split.
  - unfold IpsaTableUpdateKey, find_char, has.
    replace (list_find (λ x, x = "&"%char) (decimal n)) with (@None (nat * ascii)).
    + cbn [fmap option_fmap option_map]. rewrite !bool_decide_false by (by apply digits_plain). by rewrite Hb, Hm.
    + symmetry. apply list_find_None. apply Forall_forall. intros c Hc ->. by apply (digits_plain _ "&"%char Hd).
  - split; [done|]. split; [done|]. rewrite Hv. apply Z.mod_small. split; [lia|]. eapply Z.lt_le_trans; [done|].
    change 256 with (2 ^ 8). rewrite <- Z.pow_mul_r by (unfold ceil8; dlia || lia). apply Z.pow_le_mono_r; unfold ceil8; dlia.
Qed.

Lemma values_loop `{Target} `{InetPton} with_mask ns ws (all : list Z) pre acc :
  all = pre ++ ws → Forall2 number_fits ns ws →
  ∃ ks, for_each (λ p '(acc, index),
      let width := default 32 (all !! Z.to_nat index) in
      '(entry, mask) ← IpsaTableUpdateKey p width;
      mret (acc ++ [mkKeyJson width entry (if with_mask : bool then mask else [])], index + 1)) (decimal <$> ns) (acc, zlen pre) =
    Ok (acc ++ ks, zlen pre + zlen ns) ∧ Forall2 (λ nw, number_json nw.1 nw.2) (zip ns ws) ks.
Proof.
  intros Hall Hf. revert pre acc Hall. induction Hf as [|n w ns ws Hn Hf IH]; intros pre acc Hall; cbn [fmap list_fmap for_each].
  - exists []. rewrite app_nil_r. split; [by rewrite Z.add_0_r|constructor].
  - assert (Hw : all !! Z.to_nat (zlen pre) = Some w).
    { rewrite Hall. unfold zlen. rewrite Nat2Z.id, lookup_app_r, Nat.sub_diag by lia. done. }
    rewrite Hw. cbn [default from_option]. unfold id. destruct (decimal_key n w Hn) as (e & m & -> & Hb & Hl & Hv).
    cbn [mbind res_mbind mret res_mret].
    destruct (IH (pre ++ [w]) (acc ++ [mkKeyJson w e (if with_mask then m else [])])) as (ks & Hrun & Hks).
    { by rewrite Hall, <- app_assoc. }
    rewrite zlen_app in Hrun. change (zlen [w]) with 1 in Hrun.
    exists (mkKeyJson w e (if with_mask then m else []) :: ks). split; [|by constructor].
    eapply eq_trans; [exact Hrun|]. rewrite <- app_assoc. cbn [app]. f_equal. f_equal. unfold zlen. cbn [length]. lia.
Qed.

Lemma values_of_numbers `{Target} `{InetPton} with_mask ns ws :
  Forall2 number_fits ns ws →
  ∃ ks, values_of with_mask (decimal <$> ns) ws = Ok ks ∧ Forall2 (λ nw, number_json nw.1 nw.2) (zip ns ws) ks.
Proof.
  intros Hf. unfold values_of. destruct (values_loop with_mask ns ws ws [] [] eq_refl Hf) as (ks & Hrun & Hks).
  exists ks. split; [|done]. exact (f_equal (λ r : res (list KeyJson * Z), '(ks, _) ← r; mret ks) Hrun).
Qed.

(** The command that adds the entry [n] with the parameters [ns]. *)
Definition add_command (name action : string) (n : N) (ns : list N) : list chars :=
  [words "table_add"; words name; words action; decimal n; words "=>"] ++ (decimal <$> ns).

Lemma decimal_not_arrow n : decimal n ≠ words "=>".
Proof.
  intros Heq. destruct (decimal_digits n) as (Hd & _ & _). rewrite Heq in Hd. by inversion_clear Hd.
Qed.

Lemma update_for_numbers `{Target} `{InetPton} tm am name t aname a n ns w :
  lookup_table tm name = Some t → lookup_action am aname = Some a →
  t.(key_width_vec) = [w] → number_fits n w → Forall2 number_fits ns a.(ac_parameters_lengths) →
  ∃ k ks, emitUpdate (Some (tm, am)) (add_command name aname n ns) =
      Ok (Some (mkUpdater TBL_UPD_ADD (mkUpdate t.(tb_proc_id) t.(tb_id) a.(ac_id) (match_type_string t.(tb_match_type)) [k] ks))) ∧
    number_json n w k ∧ Forall2 (λ nw, number_json nw.1 nw.2) (zip ns a.(ac_parameters_lengths)) ks.
Proof.
  intros Ht Ha Hw Hn Hns. destruct (values_of_numbers true [n] [w]) as (kk & Hk & Hkj); [by apply Forall2_cons|].
  destruct (values_of_numbers false ns a.(ac_parameters_lengths) Hns) as (ks & Hks & Hksj).
  apply (Forall2_cons_inv_l _ (n, w) []) in Hkj as (k & l & Hkn & ->%Forall2_nil_inv_l & ->). exists k, ks.
  split; [|done]. unfold emitUpdate, add_command. cbn [app]. unfold words at 1 2 3.
  change (rd (?a :: ?b :: ?c :: ?l) 0) with (Ok a). change (rd (?a :: ?b :: ?c :: ?l) 1) with (Ok b).
  change (rd (?a :: ?b :: ?c :: ?l) 2) with (Ok c). cbn [mbind res_mbind drop].
  rewrite !String.string_of_list_ascii_of_string, Ht, Ha.
  cbn [split_arrow]. rewrite bool_decide_false by apply decimal_not_arrow. rewrite bool_decide_true by reflexivity.
  cbn [fmap list_fmap] in Hk. rewrite Hw. rewrite Hk. cbn [mbind res_mbind]. rewrite Hks. reflexivity.
Qed.

(** The bytes of the parameters, one after the other. *)
Definition parameter_bytes (value : list Z) (ns : list N) (ws : list Z) : Prop :=
  ∃ vs, value = concat vs ∧ Forall2 (λ (nw : N * Z) v, zlen v = nw.2 / 8 ∧ be_val v = Z.of_N nw.1) (zip ns ws) vs.

Lemma number_key_ok n w k : number_fits n w → number_json n w k → key_json_ok k.
Proof. intros (Hw & _ & Hlt) (<- & Hb & Hl & Hv). split; [lia|]. split; [done|]. split; [done|]. by rewrite Hv. Qed.

Lemma numbers_whole ns ws ks :
  Forall2 number_fits ns ws → Forall (λ w, w mod 8 = 0) ws → Forall2 (λ nw, number_json nw.1 nw.2) (zip ns ws) ks →
  Forall whole_json ks ∧ total_width ks = sum_of_map (λ w, w) ws ∧ parameter_bytes (concat (kj_value <$> ks)) ns ws.
Proof.
  intros Hf. revert ks. induction Hf as [|n w ns ws Hn Hf IH]; intros ks H8 Hks; cbn [zip zip_with] in Hks.
  - inversion Hks; subst. split; [constructor|]. split; [done|]. exists []. by split; [|constructor].
  - inversion_clear Hks as [|? k ? ks' Hk Hks']. apply Forall_cons in H8 as [H8 H8s].
    destruct (IH ks' H8s Hks') as (Hall & Htot & vs & Hvs & Hb). cbn [fst snd] in Hk.
    pose proof (number_key_ok n w k Hn Hk) as Hok. destruct Hk as (Hkw & Hkb & Hkl & Hkv).
    split; [|split].
    + constructor; [|done]. split; [done|]. by rewrite Hkw.
    + unfold total_width in *. cbn. by rewrite Hkw, Htot.
    + exists (k.(kj_value) :: vs). split; [cbn; by rewrite Hvs|]. constructor; [|done]. split; [|done].
      rewrite Hkl. unfold ceil8. cbn. dlia.
Qed.

Lemma parameter_bytes_len value ns ws :
  parameter_bytes value ns ws → length ns = length ws → Forall (λ w, w mod 8 = 0) ws → 8 * zlen value = sum_of_map (λ w, w) ws.
Proof.
  intros (vs & -> & Hvs). revert ns vs Hvs. induction ws as [|w ws IH]; intros [|n ns] vs Hvs Hl H8; try done;
    cbn [zip zip_with] in Hvs; inversion_clear Hvs as [|? v ? vs' [Hv _] Hvs']; [done|].
  apply Forall_cons in H8 as [H8 H8s]. cbn [concat]. rewrite zlen_app. cbn. cbn in Hv.
  specialize (IH ns vs' Hvs' ltac:(cbn in Hl; lia) H8s). unfold zlen in *. dlia.
Qed.

(** C3. From the program to the packet: an exact table of the program, keyed by one
    field, which the compiler loads and gives blocks the data plane has, which the
    controller then configures from the file of the compiler, and to which it adds the
    entry of a command, is hit by every packet whose key field is the number of the
    command; the packet gets the parameters of the command, and the first 16 bits of
    them, not the action of the command, choose the action. *)
Theorem compiled_table_served `{Target} `{InetPton} hm am def f t tm name aname a n ns pl m th :
  compiled hm am def f t → field_fits f →
  lookup_table tm name = Some t → lookup_action am aname = Some a →
  number_fits n f.(ihf_length) → Forall2 number_fits ns a.(ac_parameters_lengths) →
  Forall (λ w, w mod 8 = 0) a.(ac_parameters_lengths) →
  let bits := sum_of_map (λ w, w) a.(ac_parameters_lengths) in
  16 ≤ bits < 65536 → fits (bits / 8) t.(value_memory).(im_width) →
  get_thread pl t.(tb_proc_id) t.(tb_id) = Ok th → unconfigured th → zlen m.(srams) = SRAM_NUM_ALL →
  ∃ up st pl' m' th' value,
    emitUpdate (Some (tm, am)) (add_command name aname n ns) = Ok (Some up) ∧
    extract_matcher_thread t.(tb_proc_id) (table_json t) (mkServer (Some pl) m) = Ok st ∧
    update up.(up_json) st = Ok (1, mkServer (Some pl') m') ∧
    get_thread pl' t.(tb_proc_id) t.(tb_id) = Ok th' ∧ th'.(action_proc_map) = action_map (table_json t) ∧
    parameter_bytes value ns a.(ac_parameters_lengths) ∧
    ∀ phv, phv_wf phv →
      let b := (at_ phv.(parsed_headers) f.(ihf_header_id)).(hdr_offset) + f.(ihf_offset) in
      b + f.(ihf_length) ≤ 8 * (FRONT_HEADER_LEN + META_LEN) →
      field_val phv.(packet) b f.(ihf_length) = Z.of_N n →
      gets_value m' th' value phv.
Proof.
  intros Hc Hff Htm Ham Hn Hns H8 bits Hbits Hvf Hth Hun Hm.
  destruct (compiled_table_json hm am def f t Hc Hff) as [Hj Hkw Hmt Hkf].
  destruct (update_for_numbers tm am name t aname a n ns f.(ihf_length)) as (k & ks & Hup & Hk & Hks); [done..|].
  destruct (numbers_whole ns a.(ac_parameters_lengths) ks Hns H8 Hks) as (Hwhole & Htot & Hval). fold bits in Htot.
  pose proof (parameter_bytes_len _ _ _ Hval (Forall2_length _ _ _ Hns) H8) as Hlen. fold bits in Hlen.
  destruct (table_installs t.(tb_proc_id) (table_json t) (field_json f) pl m th) as (th' & Hrun & [Hkb Hnt Hms Hap Hkwt Hvwt]); [done..|].
  pose proof (ctrl_field_json f Hff) as Hcf. pose proof Hk as (Hkwd & Hkbytes & Hklen & Hkval).
  set (j := mkUpdate t.(tb_proc_id) t.(tb_id) a.(ac_id) (match_type_string t.(tb_match_type)) [k] ks).
  destruct (update_hits j k (ctrl_field (field_json f)) (put_thread t.(tb_proc_id) t.(tb_id) th' pl) m th')
    as (pl' & m' & Hupd & Hget & Hall).
  - cbn. by rewrite Hmt.
  - done.
  - by eapply number_key_ok.
  - done.
  - unfold j. cbn [u_action_para]. rewrite Htot. lia.
  - by eapply get_put.
  - done.
  - rewrite Hcf, Hkwd. done.
  - unfold j. cbn [u_action_para]. lia.
  - rewrite Hkwd, Hkwt. done.
  - unfold j. cbn [u_action_para]. rewrite Hvwt. cbn [table_json j_value_width]. replace (zlen (concat (kj_value <$> ks))) with (bits / 8) by dlia. done.
  - eexists (mkUpdater TBL_UPD_ADD j), _, pl', m', th', _. repeat (split; [done|]). intros phv Hp b Hend Hfv.
    apply Hall; rewrite ?Hcf; cbn [fd_len hdr_id internal_offset]; [done..|by rewrite Hkval].
Qed.

(** ** Parser entries that accept *)

(** An entry of the parser that accepts is written with header 0 and length 0: a
    packet that meets it in the data plane has the header 0 it may have parsed before
    recorded anew, behind the last header, with length 0. *)
Lemma accept_moves_header_0 `{Target} hm lm defs te e p p' level s phv :
  build_entry hm lm defs phv.(cur_state) te = Ok e → te.(te_accept_drop) = 0 →
  let j := level_entry_json e in
  rd p.(parser_levels) level = Ok s → stage_wf s → stage_cleared s → phv_wf phv →
  ¬ (phv.(cur_state) = 0 ∧ phv.(cur_trans_key) = 4294967295) →
  Z.land phv.(cur_trans_key) (u32 j.(j_mask)) = u32 j.(j_entry) →
  modify_parser_entry_direct level j.(j_current_state) (u32 j.(j_entry)) (u32 j.(j_mask)) j.(j_hdr_id)
    j.(j_header_length) j.(j_next_state) j.(j_transition_field_num) [] (u8 j.(j_accept_drop)) p = Ok p' →
  ∃ s' phv', rd p'.(parser_levels) level = Ok s' ∧ stage_parse s' phv = Ok phv' ∧
    header_of phv' 0 = Ok (mkHeaderInfo 0 phv.(cur_offset) 0) ∧ phv'.(miss_act) = 0.
Proof.
  intros Hb Hacc j Hs Hswf Hcl Hwf Hne Hm Hrun. unfold build_entry in Hb. rewrite Hacc in Hb. cbn in Hb. injection Hb as <-.
  unfold modify_parser_entry_direct in Hrun. rewrite Hs in Hrun. cbn [mbind res_mbind] in Hrun.
  inv_ok. apply wr_ok_inv in Hok0 as [Hl ->]. cbn [parser_levels]. exists x.
  pose proof (programmed_entry_found _ _ _ _ _ _ _ _ _ _ _ _ Hcl Hok (wf_key _ Hwf) Hne Hm) as Hf.
  destruct (programmed_act _ _ _ _ _ _ 0 [] _ _ _ Hswf ltac:(lia) ltac:(done) Hok) as (fds' & He & _).
  set (en := mkSramEntry _ _ _ _ _ _) in He.
  pose proof (stage_parse_hit x phv _ en Hwf Hf He) as Hp. cbn in Hp.
  exists (extracted en phv). split; [by apply rd_insert_eq|]. split; [by apply Hp|]. split; [|done].
  by apply (extracted_header en phv Hwf).
Qed.

(** ** The operators of the program *)

(** What the controller makes of an operator of an action: all but subtraction and the
    bit operations become an addition. *)
Lemma operator_read op :
  ctrl_op_code (operator_string op) =
  match op with
  | OP_MINUS => SUB | OP_AND => BIT_AND | OP_OR => BIT_OR | OP_XOR => BIT_XOR | OP_NOT => BIT_NEG | _ => ADD
  end.
Proof. by destruct op. Qed.

(** ** The theorems at concrete inputs *)
#[local] Instance no_addresses : InetPton := { pton4 := λ _, None; pton6 := λ _, None }.

Definition demo_key : Rp4LValue := HeaderLValue "hdr" "ipv4" "dst".
Definition demo_route : Rp4TableDef := mkTableDef "route" [(demo_key, MT_EXACT)] [TableSizeStmt 1024].
Definition demo_dst : IpsaHeaderField := mkHeaderField FT_FIELD 1 8 32.

Definition demo_loaded : IpsaTable :=
  mkIpsaTable 0 [32] 0 0 0 0 [] MT_EXACT (mkIpsaMem MEM_SRAM [] 1 1) (mkIpsaMem MEM_SRAM [] 1 1) [demo_dst].
Definition demo_compiled : IpsaTable := with_place 4 7 [(5, 6)] (give_table demo_loaded (0, 0)).1.
Definition demo_actions : ActionManager := mkActionManager 6 {["forward"%string := mkIpsaAction 5 2 [16; 32] []]}.

Lemma demo_compiled_ok : compiled demo_headers demo_actions demo_route demo_dst demo_compiled (H := x86).
Proof.
  split.
  - exists demo_key. split; [reflexivity|]. vm_compute. reflexivity.
  - repeat constructor. lia.
  - exists 0, demo_loaded, (0, 0), (give_table demo_loaded (0, 0)).1, (0, 2), 4, 7, [(5, 6)].
    split; [vm_compute; reflexivity|]. split; [vm_compute; reflexivity|]. split; [vm_compute; discriminate|].
    split; [vm_compute; discriminate|reflexivity].
Qed.

Lemma compiled_table_served_witness :
  ∃ up st pl' m' th' value,
    emitUpdate (H := x86) (Some (mkTableManager 1 {["route"%string := demo_compiled]}, demo_actions))
      (add_command "route" "forward" 0 [6; 99]%N) = Ok (Some up) ∧
    extract_matcher_thread (H := x86) 4 (table_json demo_compiled) demo_server = Ok st ∧
    update (H := x86) up.(up_json) st = Ok (1, mkServer (Some pl') m') ∧
    get_thread pl' 4 7 = Ok th' ∧ gets_value (H := x86) m' th' value (PHV_init (H := x86)) ∧
    parameter_bytes value [6; 99]%N [16; 32].
Proof.
  destruct (compiled_table_served (H := x86) demo_headers demo_actions demo_route demo_dst demo_compiled
    (mkTableManager 1 {["route"%string := demo_compiled]}) "route" "forward" (mkIpsaAction 5 2 [16; 32] [])
    0 [6; 99]%N (Pipeline_init (H := x86) true PROC_NUM) init_mem demo_unconf)
    as (up & st & pl' & m' & th' & value & Hup & Hcfg & Hupd & Hget & _ & Hval & Hall).
  - exact demo_compiled_ok.
  - split; cbn; lia || reflexivity.
  - reflexivity.
  - reflexivity.
  - split; [cbn; lia|]. split; [lia|vm_compute; reflexivity].
  - constructor; [|constructor; [|constructor]]; (split; [lia|split; [lia|vm_compute; reflexivity]]).
  - repeat constructor.
  - vm_compute. split; [discriminate|reflexivity].
  - split; vm_compute; discriminate.
  - reflexivity.
  - exact demo_unconfigured.
  - reflexivity.
  - exists up, st, pl', m', th', value. do 4 (split; [assumption|]). split; [|exact Hval].
    apply (Hall (PHV_init (H := x86)) (PHV_init_wf (H := x86))).
    + vm_compute. discriminate.
    + reflexivity.
Defined.

Definition demo_accept : Rp4TransitionEntry := mkTransitionEntry (ExactKey 65535) "" 0.

Lemma accept_moves_header_0_witness :
  ∃ e p' s' phv', build_entry (H := x86) demo_headers LevelManager_init [] 0 demo_accept = Ok e ∧
    modify_parser_entry_direct 0 0 65535 4294967295 0 0 0 0 [] 0 (init_parser_level 1 (Parser_init (H := x86))) = Ok p' ∧
    rd p'.(parser_levels) 0 = Ok s' ∧ stage_parse (H := x86) s' demo_parse_phv = Ok phv' ∧
    header_of phv' 0 = Ok (mkHeaderInfo 0 demo_parse_phv.(cur_offset) 0).
Proof.
  destruct (modify_parser_entry_direct 0 0 65535 4294967295 0 0 0 0 [] 0 (init_parser_level 1 (Parser_init (H := x86))))
    as [p'|] eqn:E; [|vm_compute in E; discriminate].
  destruct (build_entry (H := x86) demo_headers LevelManager_init [] 0 demo_accept) as [e|] eqn:Ee; [|vm_compute in Ee; discriminate].
  assert (He : level_entry_json e = mkParserEntryJson 0 65535 (-1) 0 0 0 0 0 []).
  { vm_compute in Ee. injection Ee as <-. reflexivity. }
  destruct (accept_moves_header_0 (H := x86) demo_headers LevelManager_init [] demo_accept e
    (init_parser_level 1 (Parser_init (H := x86))) p' 0 (ParserStage_init (H := x86)) demo_parse_phv)
    as (s' & phv' & Hs & Hrun & Hh & _).
  - exact Ee.
  - reflexivity.
  - reflexivity.
  - apply ParserStage_init_wf.
  - split; reflexivity.
  - exact demo_parse_wf.
  - cbn. lia.
  - rewrite He. reflexivity.
  - rewrite He. exact E.
  - exists e, p', s', phv'. split; [reflexivity|]. split; [reflexivity|]. split; [exact Hs|]. split; [exact Hrun|exact Hh].
Defined.
