(* ===== verification/Gateways.v ===== *)
(** * The rP4 compiler: gateways (ipsa_gateway.h, ipsa_gateway_manager.h)

    The matcher of a stage becomes a gateway: its expressions, and the tables or stages
    their results lead to.  Entries are shared pointers: a matcher without a default
    entry has its first entry, the same object, for default. *)

From stdpp Require Import base numbers list gmap strings.
From Stdlib Require Import ZArith Lia.
From S2P Require Import Prelude Headers Actions Tables Stages.

#[local] Open Scope Z_scope.

Inductive IpsaGatewayEntry : Set := GatewayTable (table_id matcher_id : Z) | GatewayStage (stage_id : Z).

(** The default entry: null, an object of its own, or the object of the first entry. *)
Inductive DefaultEntry : Set := NoDefault | OwnDefault (e : IpsaGatewayEntry) | FirstDefault.

Record IpsaGateway : Set := mkIpsaGateway {
  gw_expressions : list (Rp4Operator * option IpsaOperand * option IpsaOperand);
  gw_default : DefaultEntry;
  gw_entries : list (Z * IpsaGatewayEntry)
}.

(** [setMatcherId] of an entry, and of all entries; the object that is entry and
    default entry at once is set twice to the same value. *)
Definition entry_matcher (table_id matcher_id : Z) (e : IpsaGatewayEntry) : IpsaGatewayEntry :=
  match e with
  | GatewayTable t m => GatewayTable t (if t =? table_id then matcher_id else m)
  | GatewayStage s => GatewayStage s
  end.

Definition gateway_matcher (table_id matcher_id : Z) (g : IpsaGateway) : res IpsaGateway :=
  let es := (λ be, (be.1, entry_matcher table_id matcher_id be.2)) <$> g.(gw_entries) in
  match g.(gw_default) with
  | NoDefault => Fault NullDeref
  | OwnDefault e => mret (mkIpsaGateway g.(gw_expressions) (OwnDefault (entry_matcher table_id matcher_id e)) es)
  | FirstDefault => mret (mkIpsaGateway g.(gw_expressions) FirstDefault es)
  end.

(** [setNextId] of an entry, and of the default entry of a gateway. *)
Definition entry_next (proc_proc : gmap Z Z) (e : IpsaGatewayEntry) : IpsaGatewayEntry :=
  match e with GatewayTable t m => e | GatewayStage s => GatewayStage (default s (proc_proc !! s)) end.

Definition gateway_next (proc_proc : gmap Z Z) (g : IpsaGateway) : IpsaGateway :=
  match g.(gw_default) with
  | NoDefault => g
  | OwnDefault e => mkIpsaGateway g.(gw_expressions) (OwnDefault (entry_next proc_proc e)) g.(gw_entries)
  | FirstDefault => mkIpsaGateway g.(gw_expressions) FirstDefault
      (match g.(gw_entries) with [] => [] | (b, e) :: es => (b, entry_next proc_proc e) :: es end)
  end.

(** ** [load] *)

(** A statement that is not a table is taken for a stage; the member [to_none] of an
    action statement is not there. *)
Definition make_gateway_entry `{Target} (tm : TableManager) (sm : StageManager) (v : Rp4SwitchValue) : res IpsaGatewayEntry :=
  match v with
  | SwitchTable name =>
      match lookup_table tm name with
      | Some t => mret (GatewayTable t.(table_id) (i32 (junk 0)))
      | None => Fault NullDeref
      end
  | SwitchStage name to_none =>
      if to_none : bool then mret (GatewayStage (-1))
      else match lookup_stage sm name with
           | Some s => mret (GatewayStage s.(stage_id))
           | None => Fault NullDeref
           end
  | SwitchAction _ => Fault WildPointer
  end.

Definition add_switch `{Target} (tm : TableManager) (sm : StageManager) (e : Rp4Key * Rp4SwitchValue)
    (st : DefaultEntry * list (Z * IpsaGatewayEntry)) : res (DefaultEntry * list (Z * IpsaGatewayEntry)) :=
  g ← make_gateway_entry tm sm e.2;
  match e.1 with
  | DefaultKey => mret (OwnDefault g, st.2)
  | k => mret (st.1, st.2 ++ [(get_key k, g)])
  end.

Definition build_gateway `{Target} (hm : HeaderManager) (tm : TableManager) (sm : StageManager) (d : Rp4StageDef)
    : res IpsaGateway :=
  exprs ← collect (expr_to_expr hm) d.(sg_ops);
  '(dflt, es) ← for_each (add_switch tm sm) d.(sg_switch) (NoDefault, []);
  match dflt with
  | NoDefault => _ ← rd es 0; mret (mkIpsaGateway exprs FirstDefault es)
  | _ => mret (mkIpsaGateway exprs dflt es)
  end.

(** The gateways of all stages, and the stages with the ids of theirs. *)
Definition load_gateways `{Target} (hm : HeaderManager) (tm : TableManager) (sm : StageManager)
    : res (list IpsaGateway * StageManager) :=
  gs ← collect (λ s, build_gateway hm tm sm s.(stage_def)) sm.(logical_stages);
  mret (gs, with_stages (imap (λ i s, set_gateway_id (Z.of_nat i) s) sm.(logical_stages)) sm).
