(* ===== verification/Processors.v ===== *)
(** * The rP4 compiler: merging and numbering the stages (ipsa_processor_manager.h)

    Every stage takes a processor, except the stages that only run an action without
    parameters: the action goes to the end of the actions that lead to the stage, and
    the stage is removed.  Then the stages that stay are numbered. *)

From stdpp Require Import base numbers list gmap strings.
From Stdlib Require Import ZArith Lia.
From S2P Require Import Prelude Topology Headers Actions Tables Stages Levels Distribution Gateways.

#[local] Open Scope Z_scope.

(** ** The actions of the stages and the stages they lead to *)
Definition stage_actions (am : ActionManager) (sm : StageManager) (s : IpsaStage) : IpsaStage :=
  set_action_proc (s.(action_proc) ++
    ((λ e, (match lookup_action am e.1 with Some a => a.(ac_id) | None => 0 end,
            match lookup_stage sm e.2 with Some n => n.(stage_id) | None => -1 end)) <$> s.(stage_def).(sg_executor))) s.

(** ** Merging *)

(** The entries of one stage that lead to the stage [sid]: the action is put behind
    theirs, and they lead to [next] instead, unless the actions conflict. *)
Definition merge_entry (sid next : Z) (action : IpsaAction) (st : list (Z * Z) * ActionManager * bool) (ap : Z * Z)
    : list (Z * Z) * ActionManager * bool :=
  let '(done_, am, conflict) := st in
  if ap.2 =? sid then
    let '(ok, am) := concatAction ap.1 action am in
    if ok : bool then (done_ ++ [(ap.1, next)], am, conflict) else (done_ ++ [ap], am, true)
  else (done_ ++ [ap], am, conflict).

Definition merge_prev (sid next : Z) (action : IpsaAction) (st : list IpsaStage * ActionManager * bool) (prev : IpsaStage)
    : list IpsaStage * ActionManager * bool :=
  let '(done_, am, conflict) := st in
  if prev.(removed) then (done_ ++ [prev], am, conflict)
  else
    let '(l, am, conflict) := fold_left (merge_entry sid next action) prev.(action_proc) ([], am, conflict) in
    (done_ ++ [set_action_proc l prev], am, conflict).

(** One round of the loop that removes the empty stages. *)
Definition merge_stage (sm : StageManager) (i : Z) (st : list IpsaStage * ActionManager * gmap Z Z)
    : res (list IpsaStage * ActionManager * gmap Z Z) :=
  let '(stages, am, goto) := st in
  s ← rd stages i;
  match get_virtual_action s.(stage_def) with
  | None => mret st
  | Some (action_name, stage_name) =>
      match lookup_action am action_name with
      | None => Fault NullDeref
      | Some action =>
          if 0 <? action.(ac_parameter_num) then mret st
          else
            let next := match lookup_stage (with_stages stages sm) stage_name with Some n => n.(stage_id) | None => -1 end in
            let '(stages, am, conflict) := fold_left (merge_prev s.(stage_id) next action) stages ([], am, false) in
            if conflict : bool then mret (stages, am, goto)
            else mret (alter set_removed (Z.to_nat i) stages, am, insert_new s.(stage_id) next goto)
      end
  end.

(** ** Numbering *)

(** The stages that stay are numbered from 0; -1 stays. *)
Definition number_stages (stages : list IpsaStage) : gmap Z Z * Z :=
  fold_left (λ '(m, n) s, if s.(removed) then (m, n) else (insert_new s.(stage_id) n m, n + 1)) stages ({[-1 := -1]}, 0).

(** A removed stage gets the number of the first stage behind it that stays.  The loop
    variable is a reference: going on to a stage that is removed too overwrites the
    first with it.  The loop may not end; [fuel] bounds its rounds. *)
Fixpoint chase (fuel : nat) (goto : gmap Z Z) (i : Z) (st : list IpsaStage * gmap Z Z)
    : option (res (list IpsaStage * gmap Z Z)) :=
  match fuel with
  | O => None
  | S fuel' =>
      let '(stages, numbers) := st in
      match rd stages i with
      | Fault f => Some (Fault f)
      | Ok x =>
          if x.(removed) then
            match rd stages (map_ref 0 goto x.(stage_id)) with
            | Fault f => Some (Fault f)
            | Ok y =>
                if y.(removed) then chase fuel' goto i (<[Z.to_nat i := y]> stages, numbers)
                else Some (mret (stages, insert_new x.(stage_id) (map_ref 0 numbers y.(stage_id)) numbers))
            end
          else Some (mret st)
      end
  end.

Fixpoint chase_all (fuel : nat) (goto : gmap Z Z) (is_ : list Z) (st : list IpsaStage * gmap Z Z)
    : option (res (list IpsaStage * gmap Z Z)) :=
  match is_ with
  | [] => Some (mret st)
  | i :: is_ =>
      match chase fuel goto i st with
      | Some (Ok st) => chase_all fuel goto is_ st
      | r => r
      end
  end.

(** [reorderStages]: a number that is not in the map becomes 0. *)
Definition renumber (proc_proc : gmap Z Z) (s : IpsaStage) : IpsaStage :=
  set_action_proc ((λ ap, (ap.1, map_ref 0 proc_proc ap.2)) <$> s.(action_proc))
    (set_stage_id (map_ref 0 proc_proc s.(stage_id)) s).

(** The tables of a stage. *)
Definition switch_table (tm : TableManager) (e : Rp4Key * Rp4SwitchValue) (l : list Z) : res (list Z) :=
  match e.2 with
  | SwitchTable name => match lookup_table tm name with Some t => mret (l ++ [t.(table_id)]) | None => Fault NullDeref end
  | _ => mret l
  end.

Definition fill_tables (tm : TableManager) (s : IpsaStage) (acc : list IpsaStage) : res (list IpsaStage) :=
  l ← for_each (switch_table tm) s.(stage_def).(sg_switch) s.(stage_tables);
  mret (acc ++ [set_stage_tables l s]).

(** [initializeStages]. *)
Definition initializeStages (fuel : nat) (am : ActionManager) (tm : TableManager) (sm : StageManager)
    : option (res (StageManager * ActionManager)) :=
  let stages := stage_actions am sm <$> sm.(logical_stages) in
  match for_lt 0 (zlen stages) (merge_stage sm) (stages, am, ∅) with
  | Fault f => Some (Fault f)
  | Ok (stages, am, goto) =>
      match chase_all fuel goto (seqZ 0 (zlen stages)) (stages, (number_stages stages).1) with
      | None => None
      | Some (Fault f) => Some (Fault f)
      | Some (Ok (stages, numbers)) =>
          Some (stages ← for_each (fill_tables tm) (renumber numbers <$> stages) [];
                mret (with_stages stages sm, am))
      end
  end.

(** [setupStages]: the tables of a stage get their places in its processor. *)
Definition setup_table (s : IpsaStage) (table_id : Z) (st : TableManager * list IpsaGateway * Z)
    : res (TableManager * list IpsaGateway * Z) :=
  let '(tm, gs, matcher_id) := st in
  g ← rd gs s.(gateway_id);
  g ← gateway_matcher table_id matcher_id g;
  gs ← wr gs s.(gateway_id) g;
  mret (setMatcherId table_id s.(stage_id) matcher_id s.(action_proc) tm, gs, matcher_id + 1).

Definition setupStages (sm : StageManager) (tm : TableManager) (gs : list IpsaGateway)
    : res (TableManager * list IpsaGateway) :=
  for_each (λ s '(tm, gs),
    '(tm, gs, _) ← for_each (setup_table s) s.(stage_tables) (tm, gs, 0);
    mret (tm, gs)) sm.(logical_stages) (tm, gs).

(** ** The stages are numbered *)

(** The stages as [load] leaves them: numbered by their places, none removed. *)
Definition fresh_stages (sm : StageManager) : Prop :=
  ∀ i s, sm.(logical_stages) !! i = Some s → s.(stage_id) = Z.of_nat i ∧ s.(removed) = false ∧ s.(action_proc) = [].

(** A program the merging can treat: an empty stage leads to a later stage, its action
    is known, and so are the tables of all stages. *)
Record mergeable (am : ActionManager) (tm : TableManager) (sm : StageManager) : Prop := {
  mb_virtual : ∀ i s a nm, sm.(logical_stages) !! i = Some s → get_virtual_action s.(stage_def) = Some (a, nm) →
    is_Some (lookup_action am a) ∧ ∃ j, sm.(logical_stages_map) !! nm = Some j ∧ Z.of_nat i < j < zlen sm.(logical_stages);
  mb_tables : ∀ i s k nm, sm.(logical_stages) !! i = Some s → (k, SwitchTable nm) ∈ s.(stage_def).(sg_switch) →
    is_Some (lookup_table tm nm)
}.

(** A stage with other next stages. *)
Definition same_stage (s s' : IpsaStage) : Prop :=
  s'.(stage_id) = s.(stage_id) ∧ s'.(stage_def) = s.(stage_def) ∧ s'.(removed) = s.(removed).

Definition keeps_actions (am am' : ActionManager) : Prop :=
  ∀ name, is_Some (lookup_action am name) → is_Some (lookup_action am' name).

Lemma concatAction_keeps i a am : keeps_actions am (concatAction i a am).2.
Proof.
  unfold concatAction, keeps_actions, lookup_action. intros name Hn. destruct (lookup_action_id am i) as [[nm x]|]; [|done].
  destruct (can_concat _ _); [|done]. cbn. destruct (decide (nm = name)) as [->|]; [by rewrite lookup_insert_eq|by rewrite lookup_insert_ne].
Qed.

Lemma merge_entries_keep sid next a l done_ am c :
  keeps_actions am (fold_left (merge_entry sid next a) l (done_, am, c)).1.2.
Proof.
  revert done_ am c. induction l as [|ap l IH]; intros done_ am c; cbn [fold_left]; [by intros name|].
  unfold merge_entry at 2. destruct (ap.2 =? sid); [|apply IH].
  pose proof (concatAction_keeps ap.1 a am) as Hk. destruct (concatAction ap.1 a am) as [ok am']. cbn [snd] in Hk.
  destruct ok; intros name Hn; by apply IH, Hk.
Qed.

Lemma merge_prevs sid next a stages done_ am c :
  ∃ l am' c', fold_left (merge_prev sid next a) stages (done_, am, c) = (done_ ++ l, am', c') ∧
    Forall2 same_stage stages l ∧ keeps_actions am am'.
Proof.
  revert done_ am c. induction stages as [|s stages IH]; intros done_ am c; cbn [fold_left].
  - exists [], am, c. split; [by rewrite app_nil_r|]. split; [constructor|by intros name].
  - unfold merge_prev at 2. destruct (removed s) eqn:E.
    + destruct (IH (done_ ++ [s]) am c) as (l & am' & c' & -> & Hf & Hk). exists (s :: l), am', c'.
      split; [by rewrite <- app_assoc|]. split; [by constructor|done].
    + pose proof (merge_entries_keep sid next a s.(action_proc) [] am c) as Hk.
      destruct (fold_left (merge_entry _ _ _) _ _) as [[ap am1] c1]. cbn [fst snd] in Hk.
      destruct (IH (done_ ++ [set_action_proc ap s]) am1 c1) as (l & am' & c' & -> & Hf & Hk').
      exists (set_action_proc ap s :: l), am', c'. split; [by rewrite <- app_assoc|]. split; [by constructor|].
      intros name Hn. by apply Hk', Hk.
Qed.

(** What the rounds of the loop keep. *)
Record merged (am : ActionManager) (sm : StageManager) (st : list IpsaStage * ActionManager * gmap Z Z) : Prop := {
  mg_len : zlen st.1.1 = zlen sm.(logical_stages);
  mg_stage : ∀ i s, st.1.1 !! i = Some s → s.(stage_id) = Z.of_nat i ∧
    ∃ s0, sm.(logical_stages) !! i = Some s0 ∧ s.(stage_def) = s0.(stage_def);
  mg_actions : keeps_actions am st.1.2;
  mg_removed : ∀ i s, st.1.1 !! i = Some s → s.(removed) = true → is_Some (st.2 !! Z.of_nat i);
  mg_goto : ∀ k j, st.2 !! k = Some j → k < j < zlen sm.(logical_stages)
}.

Lemma merged_same am sm stages l am0 am1 goto :
  merged am sm (stages, am0, goto) → Forall2 same_stage stages l → keeps_actions am0 am1 → merged am sm (l, am1, goto).
Proof.
  intros [Hl Hs Ha Hr Hg] Hf Hk. cbn [fst snd] in *.
  assert (Hof : ∀ i s', l !! i = Some s' → ∃ s, stages !! i = Some s ∧ same_stage s s').
  { intros i s' Hi. by eapply Forall2_lookup_r in Hi as (s & ? & ?); [|done]; exists s. }
  split; cbn [fst snd].
  - rewrite <- Hl. unfold zlen. by rewrite (Forall2_length _ _ _ Hf).
  - intros i s' Hi. destruct (Hof i s' Hi) as (s & Hsi & -> & -> & _). by apply Hs.
  - intros name Hn. by apply Hk, Ha.
  - intros i s' Hi Hrem. destruct (Hof i s' Hi) as (s & Hsi & _ & _ & Heq). apply (Hr i s Hsi). congruence.
  - done.
Qed.

Lemma merge_stage_ok am tm sm st i :
  mergeable am tm sm → merged am sm st → 0 ≤ i < zlen sm.(logical_stages) →
  ∃ st', merge_stage sm i st = Ok st' ∧ merged am sm st'.
Proof.
  intros Hmb Hmg Hi. destruct st as [[stages am0] goto]. unfold merge_stage.
  destruct (lookup_lt_is_Some_2 stages (Z.to_nat i)) as [s Hs].
  { pose proof (mg_len _ _ _ Hmg) as Hl. cbn in Hl. unfold zlen in *. lia. }
  assert (Hrd : rd stages i = Ok s) by (unfold rd; rewrite (proj2 (Z.leb_le 0 i)) by lia; by rewrite Hs).
  rewrite Hrd. cbn [mbind res_mbind]. destruct (mg_stage _ _ _ Hmg _ _ Hs) as (Hid & s0 & Hs0 & Hdef). rewrite Z2Nat.id in Hid by lia.
  destruct (get_virtual_action (stage_def s)) as [[a nm]|] eqn:Hv; [|by eexists]. rewrite Hdef in Hv.
  destruct (mb_virtual _ _ _ Hmb _ _ _ _ Hs0 Hv) as (Hact & j & Hj & Hij). rewrite Z2Nat.id in Hij by lia.
  destruct (mg_actions _ _ _ Hmg a Hact) as [action Hac]. cbn [fst snd] in Hac. rewrite Hac.
  destruct (0 <? ac_parameter_num action); [by eexists|].
  assert (Hnext : lookup_stage (with_stages stages sm) nm = stages !! Z.to_nat j) by (unfold lookup_stage; cbn; by rewrite Hj).
  rewrite Hnext. destruct (lookup_lt_is_Some_2 stages (Z.to_nat j)) as [n Hn].
  { pose proof (mg_len _ _ _ Hmg) as Hl. cbn in Hl. unfold zlen in *. lia. }
  rewrite Hn. destruct (mg_stage _ _ _ Hmg _ _ Hn) as (Hnid & _). rewrite Z2Nat.id in Hnid by lia. rewrite Hnid, Hid.
  destruct (merge_prevs i j action stages [] am0 false) as (l & am1 & c & -> & Hf & Hk). cbn [app].
  pose proof (merged_same _ _ _ _ _ _ _ Hmg Hf Hk) as Hmg'. destruct c; [by eexists|]. eexists. split; [done|].
  destruct Hmg' as [Hl Hst Ha Hr Hg]. cbn [fst snd] in *. split; cbn [fst snd].
  - rewrite <- Hl. unfold zlen. by rewrite length_alter.
  - intros k t Hk'. destruct (decide (Z.to_nat i = k)) as [<-|Hne].
    + rewrite list_lookup_alter_eq in Hk'. destruct (l !! Z.to_nat i) as [u|] eqn:Eu; [|done]. injection Hk' as <-. by apply (Hst _ u).
    + rewrite list_lookup_alter_ne in Hk' by done. by apply Hst.
  - done.
  - intros k t Hk' Hrem. unfold insert_new. destruct (decide (Z.to_nat i = k)) as [<-|Hne].
    + rewrite Z2Nat.id by lia. destruct (goto !! i) eqn:Eg; [done|by rewrite lookup_insert_eq].
    + rewrite list_lookup_alter_ne in Hk' by done. destruct (Hr k t Hk' Hrem) as [v Hv'].
      destruct (goto !! i) eqn:Eg; [done|]. rewrite lookup_insert_ne by (intros Heq; lia). done.
  - intros k j'. unfold insert_new. destruct (goto !! i) eqn:Eg; [apply Hg|].
    rewrite lookup_insert_Some. intros [[<- <-]|[_ ?]]; [lia|by apply Hg].
Qed.

(** The number of a stage: the stages before it that stay. *)
Definition rank (stages : list IpsaStage) (i : nat) : Z := zlen (live_stages (take i stages)).

Lemma live_snoc stages s :
  live_stages (stages ++ [s]) = live_stages stages ++ (if s.(removed) then [] else [s]).
Proof. unfold live_stages. rewrite filter_app. cbn. destruct (removed s); [by rewrite decide_False|by rewrite decide_True]. Qed.

Lemma rank_snoc stages s i : (i ≤ length stages)%nat → rank (stages ++ [s]) i = rank stages i.
Proof. intros Hi. unfold rank. by rewrite take_app_le. Qed.

Lemma rank_range stages i s : stages !! i = Some s → s.(removed) = false → 0 ≤ rank stages i < zlen (live_stages stages).
Proof.
  intros Hi Hs. unfold rank. split; [apply zlen_nonneg|].
  rewrite <- (take_drop_middle stages i s Hi) at 2. replace (take i stages ++ s :: drop (S i) stages) with
    ((take i stages ++ [s]) ++ drop (S i) stages) by by rewrite <- app_assoc.
  unfold live_stages at 2. rewrite filter_app. fold (live_stages (take i stages ++ [s])).
  rewrite live_snoc, Hs, !zlen_app. pose proof (zlen_nonneg (filter (λ s0, removed s0 = false) (drop (S i) stages))).
  change (zlen [s]) with 1. lia.
Qed.

Record numbered (stages : list IpsaStage) (m : gmap Z Z) : Prop := {
  nu_none : m !! (-1) = Some (-1);
  nu_live : ∀ i s, stages !! i = Some s → s.(removed) = false → m !! Z.of_nat i = Some (rank stages i);
  nu_vals : ∀ k v, m !! k = Some v → v = -1 ∨ 0 ≤ v < zlen (live_stages stages)
}.

Lemma number_stages_ok stages :
  (∀ i s, stages !! i = Some s → s.(stage_id) = Z.of_nat i) →
  numbered stages (number_stages stages).1 ∧ (number_stages stages).2 = zlen (live_stages stages) ∧
  ∀ k, is_Some ((number_stages stages).1 !! k) → k < zlen stages.
Proof.
  unfold number_stages. induction stages as [|s stages IH] using rev_ind; intros Hid.
  - cbn. split; [|split; [done|]].
    + split; [by rewrite lookup_singleton_eq|done|]. intros k v [<- <-]%lookup_singleton_Some. by left.
    + intros k [v [<- _]%lookup_singleton_Some]. done.
  - rewrite fold_left_app. cbn [fold_left].
    destruct IH as ([Hn Hl Hv] & Hc & Hk). { intros i t Hi. apply Hid. by apply lookup_app_l_Some. }
    destruct (fold_left _ stages _) as [m n]. cbn [fst snd] in *. subst n.
    assert (Hs : stage_id s = zlen stages).
    { apply (Hid (length stages)). by rewrite lookup_app_r, Nat.sub_diag by lia. }
    rewrite live_snoc, zlen_app. destruct (removed s) eqn:E; cbn [fst snd].
    + change (zlen (@nil IpsaStage)) with 0. rewrite Z.add_0_r. split; [|split; [done|]].
      * split; [done| |]; [|by rewrite live_snoc, E, app_nil_r]. intros i t Hi Ht.
        apply lookup_snoc_Some in Hi as [[Hlt Hi]|[-> <-]]; [|congruence]. rewrite rank_snoc by lia. by apply Hl with t.
      * intros k Hk'. rewrite zlen_app. specialize (Hk k Hk'). change (zlen [s]) with 1. lia.
    + change (zlen [s]) with 1. assert (Hm : m !! stage_id s = None).
      { apply eq_None_not_Some. intros Hk'%Hk. lia. }
      unfold insert_new. rewrite Hm. split; [|split; [done|]].
      * split.
        -- rewrite lookup_insert_ne; [done|]. pose proof (zlen_nonneg stages). lia.
        -- intros i t Hi Ht. apply lookup_snoc_Some in Hi as [[Hlt Hi]|[-> <-]].
           ++ rewrite rank_snoc by lia. rewrite lookup_insert_ne by (unfold zlen in *; lia). by apply Hl with t.
           ++ rewrite Hs. unfold zlen at 1. rewrite lookup_insert_eq. unfold rank. by rewrite take_app_length.
        -- intros k v. rewrite live_snoc, E, zlen_app. change (zlen [s]) with 1.
           rewrite lookup_insert_Some. pose proof (zlen_nonneg (live_stages stages)).
           intros [[_ <-]|[_ Hkv]]; [right; lia|]. destruct (Hv k v Hkv); [by left|right; lia].
      * intros k. rewrite zlen_app. change (zlen [s]) with 1.
        destruct (decide (stage_id s = k)) as [<-|]; [lia|]. rewrite lookup_insert_ne by done. intros Hk'%Hk. lia.
Qed.

(** ** The loop over the removed stages *)
Section chase.
Context (stages0 : list IpsaStage) (goto : gmap Z Z).
Context (ids : ∀ i s, stages0 !! i = Some s → s.(stage_id) = Z.of_nat i).
Context (goto_some : ∀ i s, stages0 !! i = Some s → s.(removed) = true → is_Some (goto !! Z.of_nat i)).
Context (goto_later : ∀ k j, goto !! k = Some j → k < j < zlen stages0).

(** Stages that stay are where they were; in the place of a removed one there is a
    removed one, it or a later one. *)
Record chased (st : list IpsaStage * gmap Z Z) : Prop := {
  ch_len : length st.1 = length stages0;
  ch_live : ∀ i s, stages0 !! i = Some s → s.(removed) = false → st.1 !! i = Some s;
  ch_removed : ∀ i s, stages0 !! i = Some s → s.(removed) = true →
    ∃ k s', st.1 !! i = Some s' ∧ stages0 !! k = Some s' ∧ s'.(removed) = true ∧ (i ≤ k)%nat;
  ch_numbers : numbered stages0 st.2
}.

Lemma chased_at st i : chased st → (i < length stages0)%nat →
  ∃ s, st.1 !! i = Some s ∧ (s.(removed) = false → stages0 !! i = Some s) ∧
    (s.(removed) = true → ∃ k, stages0 !! k = Some s ∧ (i ≤ k)%nat).
Proof.
  intros Hc Hi. destruct (lookup_lt_is_Some_2 stages0 i Hi) as [s Hs]. destruct (removed s) eqn:E.
  - destruct (ch_removed _ Hc i s Hs E) as (k & s' & Hi' & Hk & Hr & Hik). exists s'. split; [done|]. split; [congruence|by exists k].
  - exists s. split; [by apply (ch_live _ Hc)|]. split; [done|congruence].
Qed.

Lemma rd_nat {A} (l : list A) i x : l !! i = Some x → rd l (Z.of_nat i) = Ok x.
Proof. intros Hi. unfold rd. rewrite (proj2 (Z.leb_le 0 _)) by lia. by rewrite Nat2Z.id, Hi. Qed.

Lemma chase_ok fuel i st :
  chased st → (i < length stages0)%nat →
  (∀ s k, st.1 !! i = Some s → s.(removed) = true → stages0 !! k = Some s → (length stages0 < fuel + k)%nat) → (0 < fuel)%nat →
  ∃ st', chase fuel goto (Z.of_nat i) st = Some (Ok st') ∧ chased st'.
Proof.
  revert st. induction fuel as [|fuel IH]; intros [stages numbers] Hc Hi Hfuel Hpos; [lia|]. cbn [chase].
  destruct (chased_at _ i Hc Hi) as (x & Hx & _ & Hxr). cbn [fst] in Hx. rewrite (rd_nat _ _ _ Hx).
  destruct (removed x) eqn:Erx; [|by eexists]. destruct (Hxr eq_refl) as (k & Hk & Hik).
  specialize (Hfuel x k Hx Erx Hk). rewrite (ids _ _ Hk). destruct (goto_some k x Hk Erx) as [j Hj].
  assert (Hgj : map_ref 0 goto (Z.of_nat k) = Z.of_nat (Z.to_nat j)).
  { unfold map_ref. rewrite Hj. cbn. apply goto_later in Hj. lia. }
  apply goto_later in Hj. rewrite Hgj. set (jn := Z.to_nat j) in *.
  destruct (chased_at _ jn Hc) as (y & Hy & Hyl & Hyr); [unfold zlen in Hj; lia|]. cbn [fst] in Hy. rewrite (rd_nat _ _ _ Hy).
  destruct (removed y) eqn:Ery.
  - destruct (Hyr eq_refl) as (k2 & Hk2 & Hjk2). apply IH; [|done| |].
    + destruct Hc as [Hl Hli Hre Hnu]. cbn [fst snd] in *. rewrite Nat2Z.id. split; cbn [fst snd]; [by rewrite length_insert| | |done].
      * intros i' s Hs Hlive. destruct (decide (i = i')) as [<-|]; [|rewrite list_lookup_insert_ne by done; by apply Hli].
        exfalso. pose proof (Hli i s Hs Hlive). congruence.
      * intros i' s Hs Hrem. destruct (decide (i = i')) as [<-|]; [|rewrite list_lookup_insert_ne by done; by apply (Hre i' s)].
        exists k2, y. rewrite list_lookup_insert_eq by lia. split; [done|]. split; [done|]. split; [done|]. lia.
    + cbn [fst]. rewrite Nat2Z.id. intros s k3 Hs Hr Hk3. rewrite list_lookup_insert_eq in Hs by (pose proof (ch_len _ Hc) as Hlen; cbn in Hlen; lia).
      injection Hs as <-. pose proof (ids _ _ Hk2). pose proof (ids _ _ Hk3). lia.
    + pose proof (lookup_lt_Some _ _ _ Hk2). lia.
  - specialize (Hyl eq_refl). rewrite (ids _ _ Hyl). eexists. split; [done|].
    destruct Hc as [Hl Hli Hre [Hn1 Hn2 Hn3]]. cbn [fst snd] in *. split; try done. cbn [snd].
    unfold map_ref. rewrite (Hn2 jn y Hyl Ery). cbn [from_option]. unfold id.
    unfold insert_new. destruct (numbers !! Z.of_nat k) eqn:Ek; [done|]. split.
    + by rewrite lookup_insert_ne by lia.
    + intros i' s Hs Hlive. rewrite lookup_insert_ne; [by apply (Hn2 i' s)|]. intros Heq.
      assert (k = i') as -> by lia. congruence.
    + intros k' v. rewrite lookup_insert_Some. intros [[_ <-]|[_ ?]]; [right|by apply (Hn3 k')].
      by apply (rank_range _ _ y).
Qed.

Lemma chase_all_ok is_ st :
  chased st → Forall (λ i, 0 ≤ i < zlen stages0) is_ →
  ∃ st', chase_all (S (length stages0)) goto is_ st = Some (Ok st') ∧ chased st'.
Proof.
  intros Hc Hall. revert st Hc. induction Hall as [|i is_ Hi Hall IH]; intros st Hc; [by exists st|].
  destruct (chase_ok (S (length stages0)) (Z.to_nat i) st Hc) as (st' & Hrun & Hc'); [unfold zlen in Hi; lia| |lia|].
  - intros s k _ _ Hk. apply lookup_lt_Some in Hk. lia.
  - rewrite Z2Nat.id in Hrun by lia. change (chase_all ?f ?g (i :: is_) ?s) with
      (match chase f g i s with Some (Ok s) => chase_all f g is_ s | r => r end). rewrite Hrun. by apply IH.
Qed.
End chase.

(** ** The tables of the stages *)
Lemma switch_tables_ok tm sw l :
  (∀ k nm, (k, SwitchTable nm) ∈ sw → is_Some (lookup_table tm nm)) → ∃ l', for_each (switch_table tm) sw l = Ok l'.
Proof.
  revert l. induction sw as [|[k v] sw IH]; intros l Hsw; cbn [for_each]; [by exists l|].
  assert (Hrest : ∀ l, ∃ l', for_each (switch_table tm) sw l = Ok l') by (intros; apply IH; intros k' nm Hin; apply (Hsw k'); by right).
  assert (∃ l1, switch_table tm (k, v) l = Ok l1) as [l1 ->]; [|apply Hrest].
  destruct v as [nm| |]; [|by eexists|by eexists]. destruct (Hsw k nm) as [t Ht]; [by left|].
  unfold switch_table. cbn [snd]. rewrite Ht. by eexists.
Qed.

(** The number and the next stages of a stage, and whether it stays. *)
Definition numbers_of (s : IpsaStage) : Z * list (Z * Z) * bool := (s.(stage_id), s.(action_proc), s.(removed)).

Lemma fill_tables_ok tm ss acc :
  (∀ s k nm, s ∈ ss → (k, SwitchTable nm) ∈ s.(stage_def).(sg_switch) → is_Some (lookup_table tm nm)) →
  ∃ l, for_each (fill_tables tm) ss acc = Ok (acc ++ l) ∧ numbers_of <$> l = numbers_of <$> ss.
Proof.
  revert acc. induction ss as [|s ss IH]; intros acc Hss; cbn [for_each]; [exists []; by rewrite app_nil_r|].
  destruct (switch_tables_ok tm s.(stage_def).(sg_switch) s.(stage_tables)) as (l & Hl).
  { intros k nm Hin. apply (Hss s k nm); [by left|done]. }
  assert (Hft : fill_tables tm s acc = Ok (acc ++ [set_stage_tables l s])) by (unfold fill_tables; by rewrite Hl).
  rewrite Hft.
  cbn [mbind res_mbind mret res_mret]. destruct (IH (acc ++ [set_stage_tables l s])) as (l' & -> & Hl').
  { intros t k nm Ht. apply Hss. by right. }
  exists (set_stage_tables l s :: l'). split; [by rewrite <- app_assoc|]. cbn. by rewrite Hl'.
Qed.

Lemma live_cons s l : live_stages (s :: l) = if s.(removed) then live_stages l else s :: live_stages l.
Proof. unfold live_stages. rewrite filter_cons. by destruct (removed s); [rewrite decide_False|rewrite decide_True]. Qed.

Lemma live_numbers l l' : numbers_of <$> l = numbers_of <$> l' → numbers_of <$> live_stages l = numbers_of <$> live_stages l'.
Proof.
  revert l'. induction l as [|s l IH]; intros [|s' l'] Heq; try done. cbn in Heq. injection Heq as Hi Ha Hr Heq.
  rewrite !live_cons, Hr. destruct (removed s') eqn:E; [by apply IH|]. rewrite !fmap_cons. f_equal; [|by apply IH].
  unfold numbers_of. congruence.
Qed.

(** ** The numbers in the end *)
Lemma ids_seq (f : IpsaStage → Z) stages :
  (∀ i s, stages !! i = Some s → s.(removed) = false → f s = rank stages i) →
  f <$> live_stages stages = seqZ 0 (zlen (live_stages stages)).
Proof.
  induction stages as [|s stages IH] using rev_ind; intros Hf; [done|]. rewrite live_snoc, fmap_app, zlen_app, IH.
  - destruct (removed s) eqn:E; [by rewrite app_nil_r, Z.add_0_r|]. change (zlen [s]) with 1.
    rewrite seqZ_app by (pose proof (zlen_nonneg (live_stages stages)); lia). f_equal. cbn.
    rewrite (Hf (length stages) s); [|by rewrite lookup_app_r, Nat.sub_diag by lia|done]. unfold rank. by rewrite take_app_length.
  - intros i t Hi Ht. rewrite (Hf i t); [|by apply lookup_app_l_Some|done]. apply rank_snoc. apply lookup_lt_Some in Hi. lia.
Qed.

Lemma live_renumber m stages : live_stages (renumber m <$> stages) = renumber m <$> live_stages stages.
Proof.
  induction stages as [|s stages IH]; [done|]. rewrite fmap_cons, !live_cons, IH. cbn. by destruct (removed s).
Qed.

Lemma live_same stages stages' :
  length stages' = length stages →
  (∀ i s, stages !! i = Some s → s.(removed) = false → stages' !! i = Some s) →
  (∀ i s, stages !! i = Some s → s.(removed) = true → ∃ s', stages' !! i = Some s' ∧ s'.(removed) = true) →
  live_stages stages' = live_stages stages.
Proof.
  revert stages'. induction stages as [|s stages IH]; intros [|s' stages'] Hl H1 H2; try done.
  assert (Hrest : live_stages stages' = live_stages stages).
  { apply IH; [by injection Hl|intros i; apply (H1 (S i))|intros i; apply (H2 (S i))]. }
  rewrite !live_cons, Hrest. destruct (removed s) eqn:E.
  - destruct (H2 0%nat s eq_refl E) as (t & [= ->] & Ht). by rewrite Ht.
  - specialize (H1 0%nat s eq_refl E). injection H1 as ->. by rewrite E.
Qed.

Lemma stage_next_edge stages p n :
  edge (stage_next stages) p n → 0 ≤ n ∧ ∃ s a, s ∈ live_stages stages ∧ (a, n) ∈ s.(action_proc).
Proof.
  intros (l & Hl & Hn). unfold stage_next in Hl.
  assert (H : ∀ ss (m : graph), (∀ k l, m !! k = Some l → ∀ n, n ∈ l → 0 ≤ n ∧ ∃ s a, s ∈ live_stages stages ∧ (a, n) ∈ s.(action_proc)) →
    (∀ s, s ∈ ss → s ∈ live_stages stages) → ∀ k l,
    fold_left (λ m s, insert_new s.(stage_id) (add_once (filter (λ p, 0 ≤ p) s.(action_proc).*2) []) m) ss m !! k = Some l →
    ∀ n, n ∈ l → 0 ≤ n ∧ ∃ s a, s ∈ live_stages stages ∧ (a, n) ∈ s.(action_proc)).
  { induction ss as [|s ss IH]; intros m Hm Hss; cbn [fold_left]; [exact Hm|]. apply IH; [|intros t Ht; apply Hss; by right].
    intros k v Hk. unfold insert_new in Hk. destruct (m !! stage_id s); [by apply (Hm k)|].
    apply lookup_insert_Some in Hk as [[_ <-]|[_ Hk]]; [|by apply (Hm k)].
    intros x [Hx|Hx%not_elem_of_nil]%add_once_elem; [|done]. apply list_elem_of_filter in Hx as [Hpos Hx]. split; [done|].
    apply list_elem_of_fmap in Hx as ([a y] & -> & Hx). exists s, a. split; [apply Hss; by left|done]. }
  apply (H (live_stages stages) ∅) with p l; [|done|exact Hl|done]. intros k v Hk. by apply lookup_empty_Some in Hk.
Qed.

Lemma stage_next_node stages k : is_Some (stage_next stages !! k) ↔ k ∈ stage_id <$> live_stages stages.
Proof.
  unfold stage_next. assert (H : ∀ ss (m : graph), is_Some
    (fold_left (λ m s, insert_new s.(stage_id) (add_once (filter (λ p, 0 ≤ p) s.(action_proc).*2) []) m) ss m !! k) ↔
    is_Some (m !! k) ∨ k ∈ stage_id <$> ss).
  { induction ss as [|s ss IH]; intros m; cbn [fold_left fmap list_fmap]; [rewrite elem_of_nil; tauto|].
    rewrite IH, elem_of_cons. assert (Hi : is_Some (insert_new (stage_id s)
      (add_once (filter (λ p, 0 ≤ p) s.(action_proc).*2) []) m !! k) ↔ is_Some (m !! k) ∨ k = stage_id s).
    { unfold insert_new. destruct (m !! stage_id s) eqn:E.
      - split; [by left|]. intros [?| ->]; [done|by rewrite E].
      - destruct (decide (stage_id s = k)) as [<-|Hne]; [rewrite lookup_insert_eq; split; [by right|done]|].
        rewrite lookup_insert_ne by done. split; [by left|]. intros [?| ->]; done. }
    rewrite Hi. tauto. }
  rewrite H, lookup_empty, is_Some_alt. cbn. tauto.
Qed.

Lemma merged_start am sm :
  fresh_stages sm → merged am sm (stage_actions am sm <$> sm.(logical_stages), am, ∅).
Proof.
  intros Hf. split; cbn [fst snd].
  - unfold zlen. by rewrite length_fmap.
  - intros i s Hi. rewrite list_lookup_fmap in Hi. destruct (logical_stages sm !! i) as [s0|] eqn:E; [|done].
    injection Hi as <-. destruct (Hf i s0 E) as (Hid & _). split; [done|by exists s0].
  - by intros name.
  - intros i s Hi Hr. rewrite list_lookup_fmap in Hi. destruct (logical_stages sm !! i) as [s0|] eqn:E; [|done].
    injection Hi as <-. destruct (Hf i s0 E) as (_ & Hrem & _). cbn in Hr. congruence.
  - intros k j Hk. by apply lookup_empty_Some in Hk.
Qed.

(** The loop ends, and the stages after it. *)
Lemma initializeStages_run am tm sm :
  fresh_stages sm → mergeable am tm sm →
  ∃ stages numbers l am', initializeStages (S (length sm.(logical_stages))) am tm sm = Some (Ok (with_stages l sm, am')) ∧
    numbered stages numbers ∧ (∀ i s, stages !! i = Some s → s.(stage_id) = Z.of_nat i) ∧
    numbers_of <$> live_stages l = numbers_of <$> (renumber numbers <$> live_stages stages).
Proof.
  intros Hf Hmb. unfold initializeStages. set (ss0 := stage_actions am sm <$> logical_stages sm).
  assert (Hlen0 : zlen ss0 = zlen sm.(logical_stages)) by (unfold zlen, ss0; by rewrite length_fmap).
  destruct (for_lt_inv (λ _ st, merged am sm st) 0 (zlen ss0) (merge_stage sm) (ss0, am, ∅)) as ([[stages am'] goto] & -> & Hmg).
  { apply zlen_nonneg. }
  { by apply merged_start. }
  { intros i st Hi Hst. apply (merge_stage_ok am tm sm); [done|done|lia]. }
  destruct Hmg as [Hl Hst Ha Hr Hg]. cbn [fst snd] in *.
  assert (Hids : ∀ i s, stages !! i = Some s → s.(stage_id) = Z.of_nat i) by (intros i s Hi; by apply Hst).
  destruct (number_stages_ok stages Hids) as (Hnum & _ & _). rewrite <- Hl in Hg.
  assert (Hlen : length stages = length sm.(logical_stages)) by (unfold zlen in Hl; lia). rewrite <- Hlen.
  destruct (chase_all_ok stages goto Hids Hr Hg (seqZ 0 (zlen stages)) (stages, (number_stages stages).1))
    as ([stages' numbers] & -> & Hc).
  { split; try done. intros i s Hi Hrem. exists i, s. done. }
  { apply Forall_forall. intros i Hi%elem_of_seqZ. lia. }
  destruct (fill_tables_ok tm (renumber numbers <$> stages') []) as (l & -> & Hll).
  { intros s k nm (s' & -> & Hs')%list_elem_of_fmap Hin. cbn in Hin.
    assert (Hd : ∃ i s0, logical_stages sm !! i = Some s0 ∧ s'.(stage_def) = s0.(stage_def)).
    { apply list_elem_of_lookup in Hs' as (i & Hi). pose proof (lookup_lt_Some _ _ _ Hi) as Hlt.
      pose proof (ch_len _ _ Hc) as Hcl. cbn [fst] in Hcl. rewrite Hcl in Hlt. destruct (chased_at stages (stages', numbers) i Hc Hlt) as (s1 & Hs1 & Hlive & Hrem).
      cbn [fst] in Hs1. assert (s1 = s') as -> by congruence.
      destruct (removed s'); [destruct (Hrem eq_refl) as (k' & Hk' & _); exists k'; by apply Hst|exists i; by apply Hst, Hlive]. }
    destruct Hd as (i & s0 & Hs0 & Hdef). apply (mb_tables _ _ _ Hmb i s0 k nm Hs0). by rewrite <- Hdef. }
  cbn [app mbind res_mbind mret res_mret]. exists stages, numbers, l, am'. split; [done|].
  split; [exact (ch_numbers _ _ Hc)|]. split; [done|]. apply live_numbers in Hll. rewrite Hll, live_renumber.
  f_equal. f_equal. apply live_same; [exact (ch_len _ _ Hc)|exact (ch_live _ _ Hc)|].
  intros i s Hi Hrem. destruct (ch_removed _ _ Hc i s Hi Hrem) as (k & s' & ? & _ & ? & _). by exists s'.
Qed.

(** C24. The stages that stay: when every empty stage of the program leads to a later
    one, the merging ends, and the stages that stay are numbered 0, 1, 2 and so on in
    the order of the program; what their actions lead to is the number of such a stage
    or -1, so that the order of the stages can be computed from them. *)
Theorem stages_numbered am tm sm :
  fresh_stages sm → mergeable am tm sm →
  ∃ sm' am', initializeStages (S (length sm.(logical_stages))) am tm sm = Some (Ok (sm', am')) ∧
    let stages := live_stages sm'.(logical_stages) in
    stage_id <$> stages = seqZ 0 (zlen stages) ∧
    (∀ s a p, s ∈ stages → (a, p) ∈ s.(action_proc) → p = -1 ∨ 0 ≤ p < zlen stages) ∧
    graph_ok (stage_next sm'.(logical_stages)) ∧ NoDup (stage_id <$> stages).
Proof.
  intros Hf Hmb. destruct (initializeStages_run am tm sm Hf Hmb) as (stages & numbers & l & am' & Hrun & Hnum & Hids & Hl).
  exists (with_stages l sm), am'. split; [exact Hrun|]. cbn [with_stages logical_stages].
  assert (Hlen : zlen (live_stages l) = zlen (live_stages stages)).
  { apply (f_equal length) in Hl. rewrite !length_fmap in Hl. unfold zlen. by rewrite Hl. }
  assert (Hid : stage_id <$> live_stages l = seqZ 0 (zlen (live_stages l))).
  { rewrite Hlen. rewrite <- (ids_seq (λ s, map_ref 0 numbers s.(stage_id)) stages).
    - apply (f_equal (fmap (λ n : Z * list (Z * Z) * bool, n.1.1))) in Hl. rewrite <- !list_fmap_compose in Hl. exact Hl.
    - intros i s Hi Hs. rewrite (Hids i s Hi). unfold map_ref. by rewrite (nu_live _ _ Hnum i s Hi Hs). }
  assert (Hp : ∀ s a p, s ∈ live_stages l → (a, p) ∈ s.(action_proc) → p = -1 ∨ 0 ≤ p < zlen (live_stages l)).
  { intros s a p Hs Hap. apply (list_elem_of_fmap_2 numbers_of) in Hs. rewrite Hl in Hs.
    apply list_elem_of_fmap in Hs as (s1 & Heq & Hs1). apply list_elem_of_fmap in Hs1 as (s2 & -> & Hs2).
    injection Heq as _ Hacts _. rewrite Hacts in Hap. apply list_elem_of_fmap in Hap as ([b q] & [= _ ->] & _).
    rewrite Hlen. unfold map_ref. destruct (numbers !! q) as [v|] eqn:Eq; [by apply (nu_vals _ _ Hnum q)|].
    right. cbn. split; [done|]. apply list_elem_of_lookup in Hs2 as [i Hi]. apply lookup_lt_Some in Hi. unfold zlen. lia. }
  split; [done|]. split; [done|]. split; [|rewrite Hid; apply NoDup_seqZ]. split.
  - intros k Hk%stage_next_node. rewrite Hid in Hk. apply elem_of_seqZ in Hk. lia.
  - intros p n He. apply stage_next_edge in He as (Hn & s & a & Hs & Ha). apply stage_next_node. rewrite Hid.
    apply elem_of_seqZ. destruct (Hp s a n Hs Ha); lia.
Qed.

(** ** A program whose second stage is empty *)
Definition demo_stage_def (name : string) (exec : list (string * string)) : Rp4StageDef :=
  mkStageDef name [] [] [(DefaultKey, SwitchTable "t")] exec.

Definition demo_stage_manager : StageManager :=
  load_stages (H := x86)
    [demo_stage_def "first" [("set", "second"); ("skip", "last")]; demo_stage_def "second" [("skip", "last")]]%string
    [demo_stage_def "last" [("set", ""); ("skip", "")]]%string StageManager_init.
Definition demo_table_manager : TableManager := mkTableManager 1 {["t"%string := mkIpsaTable 0 [] 0 0 0 1 [] MT_EXACT
  (mkIpsaMem MEM_SRAM [] 0 0) (mkIpsaMem MEM_SRAM [] 0 0) []]}.
Definition demo_action_manager : ActionManager := mkActionManager 2
  {["set"%string := mkIpsaAction 0 0 [] []; "skip"%string := mkIpsaAction 1 0 [] []]}.

Lemma stages_numbered_witness :
  ∃ sm' am', initializeStages 4 demo_action_manager demo_table_manager demo_stage_manager = Some (Ok (sm', am')) ∧
    stage_id <$> live_stages sm'.(logical_stages) = [0; 1].
Proof.
  assert (Hs : ∀ i s, demo_stage_manager.(logical_stages) !! i = Some s → i = 0%nat ∨ i = 1%nat ∨ i = 2%nat).
  { intros i s Hi%lookup_lt_Some. assert (length demo_stage_manager.(logical_stages) = 3%nat) as Hl by done. lia. }
  destruct (stages_numbered demo_action_manager demo_table_manager demo_stage_manager) as (sm' & am' & Hrun & Hid & _).
  - intros i s Hi. destruct (Hs i s Hi) as [->|[->| ->]]; cbn in Hi; injection Hi as <-; done.
  - split.
    + intros i s a nm Hi Hv. destruct (Hs i s Hi) as [->|[->| ->]]; cbn in Hi; injection Hi as <-; cbn in Hv; try discriminate Hv.
      injection Hv as <- <-. split; [eexists; vm_compute; reflexivity|]. exists 2. split; [vm_compute; reflexivity|vm_compute; split; reflexivity].
    + intros i s k nm Hi Hin. assert (nm = "t"%string) as ->.
      { destruct (Hs i s Hi) as [->|[->| ->]]; cbn in Hi; injection Hi as <-; cbn in Hin;
          apply list_elem_of_singleton in Hin; by injection Hin. }
      eexists. vm_compute. reflexivity.
  - exists sm', am'. split; [exact Hrun|]. rewrite Hid. vm_compute in Hrun. injection Hrun as <- _. reflexivity.
Defined.

(** ** What the merging gets wrong *)

(** A stage that is removed and leads nowhere: the code looks at the stage -1. *)
Lemma last_stage_faults :
  initializeStages 4 demo_action_manager demo_table_manager
    (load_stages (H := x86) [demo_stage_def "first" [("set", "last"); ("skip", "")]; demo_stage_def "last" [("skip", "")]]%string
       [] StageManager_init) = Some (Fault OutOfBounds).
Proof. vm_compute. reflexivity. Qed.

(** The first stage of a program is removed too, and its action is run by no stage. *)
Lemma first_action_lost :
  ∃ sm' am', initializeStages 4 demo_action_manager demo_table_manager
    (load_stages (H := x86) [demo_stage_def "first" [("set", "last")]; demo_stage_def "last" [("skip", ""); ("skip", "")]]%string
       [] StageManager_init) = Some (Ok (sm', am')) ∧
  Forall (λ s, Forall (λ ap, ap.1 ≠ 0) s.(action_proc)) (live_stages sm'.(logical_stages)).
Proof. eexists _, _. split; [vm_compute; reflexivity|]. apply (bool_decide_unpack _). vm_compute. exact I. Qed.
