(* ===== verification/Builder.v ===== *)
(** * The rP4 compiler: the processors of the output (ipsa_builder.h)

    The builder runs the parts of the compiler one after the other: it loads the
    program, gives the stages parser levels and memory, and makes the processors of
    the output.  Incremental.v has the memory of a program that replaces another,
    Task.v puts everything together. *)

From stdpp Require Import base numbers list gmap strings.
From Stdlib Require Import ZArith Lia.
From S2P Require Import Prelude Headers Actions Tables Stages Levels Topology Distribution Allocation Gateways Processors.

#[local] Open Scope Z_scope.
Import ipsa_configuration.

(** ** The syntax tree *)
Record Rp4Ast : Set := mkAst {
  header_defs : list Rp4HeaderDef;
  struct_defs : list Rp4StructDef;
  state_defs : list Rp4StateDef;          (* parser_def *)
  action_defs : list Rp4ActionDef;        (* actions_def *)
  table_defs : list Rp4TableDef;          (* tables_def *)
  ingress_stages : list Rp4StageDef;      (* ingress_def *)
  egress_stages : list Rp4StageDef        (* egress_def *)
}.

(** ** Processors *)

(** A pointer to a gateway: null, a gateway of a stage, or one of the processor. *)
Inductive ProcGateway : Set := NoGateway | StageGateway (index : Z) | OwnGateway (g : IpsaGateway).

(** Tables and actions are pointers into the maps of their managers, here the names they
    are found under. *)
Record IpsaProcessor : Set := mkIpsaProcessor {
  ip_id : Z;
  ip_parser_level : Z;
  ip_levels : list IpsaLevel;
  ip_gateway : ProcGateway;
  ip_matcher : list (option string);
  ip_executor : list (option string)
}.

Definition IpsaProcessor_new (id : Z) : IpsaProcessor := mkIpsaProcessor id 0 [] NoGateway [] [].

Definition add_levels (ls : list IpsaLevel) (p : IpsaProcessor) : IpsaProcessor :=
  mkIpsaProcessor p.(ip_id) (p.(ip_parser_level) + zlen ls) (p.(ip_levels) ++ ls) p.(ip_gateway) p.(ip_matcher) p.(ip_executor).
Definition set_gateway (g : ProcGateway) (p : IpsaProcessor) : IpsaProcessor :=
  mkIpsaProcessor p.(ip_id) p.(ip_parser_level) p.(ip_levels) g p.(ip_matcher) p.(ip_executor).
Definition set_matcher (l : list (option string)) (p : IpsaProcessor) : IpsaProcessor :=
  mkIpsaProcessor p.(ip_id) p.(ip_parser_level) p.(ip_levels) p.(ip_gateway) l p.(ip_executor).
Definition set_executor (l : list (option string)) (p : IpsaProcessor) : IpsaProcessor :=
  mkIpsaProcessor p.(ip_id) p.(ip_parser_level) p.(ip_levels) p.(ip_gateway) p.(ip_matcher) l.

(** ** The builder *)
Record IpsaBuilder : Type := mkBuilder {
  header_manager : HeaderManager;
  level_manager : LevelManager;
  action_manager : ActionManager;
  table_manager : TableManager;
  stage_manager : StageManager;
  gateways : list IpsaGateway;
  topo_sequence : list Z;
  distributed_levels : graph;
  memory_proc_id : gmap Z Z;              (* memory.physical_proc_id *)
  is_incremental : Z;
  processors : list (option IpsaProcessor)
}.

Definition IpsaBuilder_init : IpsaBuilder := {|
  header_manager := HeaderManager_init; level_manager := LevelManager_init; action_manager := ActionManager_init;
  table_manager := TableManager_init; stage_manager := StageManager_init; gateways := [];
  topo_sequence := []; distributed_levels := ∅; memory_proc_id := ∅; is_incremental := 0;
  processors := replicate (Z.to_nat PROC_COUNT) None
|}.

(** [load]; [fuel] is that of the loop over the removed stages. *)
Definition load_builder `{Target} (fuel : nat) (ast : Rp4Ast) : option (res IpsaBuilder) :=
  let hm := load_headers ast.(header_defs) ast.(struct_defs) HeaderManager_init in
  let loaded :=
    lm ← load_levels hm ast.(state_defs) LevelManager_init;
    am ← load_actions hm ast.(action_defs) ActionManager_init;
    tm ← load_tables hm am ast.(table_defs) TableManager_init;
    mret (lm, am, tm) in
  let sm := load_stages ast.(ingress_stages) ast.(egress_stages) StageManager_init in
  match loaded with
  | Fault f => Some (Fault f)
  | Ok (lm, am, tm) =>
      match initializeStages fuel am tm sm with
      | None => None
      | Some r => Some (
          '(sm, am) ← r;
          '(gs, sm) ← load_gateways hm tm sm;
          '(tm, gs) ← setupStages sm tm gs;
          mret (mkBuilder hm lm am tm sm gs [] ∅ ∅ 0 (replicate (Z.to_nat PROC_COUNT) None)))
      end
  end.

Definition allocateParsers (b : IpsaBuilder) : res IpsaBuilder :=
  '(order, levels) ← distributeParsers b.(header_manager) b.(level_manager) b.(stage_manager).(logical_stages);
  mret (mkBuilder b.(header_manager) b.(level_manager) b.(action_manager) b.(table_manager) b.(stage_manager) b.(gateways)
    order levels b.(memory_proc_id) b.(is_incremental) b.(processors)).

(** The memory of a program: the processors of the stages and the blocks of the tables. *)
Definition with_memory (phys : gmap Z Z) (tm : TableManager) (incremental : Z) (b : IpsaBuilder) : IpsaBuilder :=
  mkBuilder b.(header_manager) b.(level_manager) b.(action_manager) tm b.(stage_manager) b.(gateways)
    b.(topo_sequence) b.(distributed_levels) phys incremental b.(processors).

Definition allocate_memory (b : IpsaBuilder) : res IpsaBuilder :=
  '(phys, tm) ← allocateMemory b.(table_manager) b.(stage_manager).(logical_stages) b.(topo_sequence);
  mret (with_memory phys tm b.(is_incremental) b).

(** ** [allocateProcessors] *)

(** The places where the groups of [MAX_LEVEL] levels of a stage start. *)
Definition group_starts (n : Z) : list Z := (λ k, k * MAX_LEVEL) <$> seqZ 0 (blocks n MAX_LEVEL).

(** A processor that neither a stage nor a group of levels has. *)
Definition free_processor (phys : gmap Z Z) (ps : list (option IpsaProcessor)) : option Z :=
  head (filter (λ k, at_ ps k = None ∧ map_ref 0 phys k < 0) (seqZ 0 PROC_COUNT)).

Definition update_processor (f : IpsaProcessor → IpsaProcessor) (i : Z) (ps : list (option IpsaProcessor))
    : list (option IpsaProcessor) :=
  alter (fmap f) (Z.to_nat i) ps.

(** The gateway of a processor that only parses: it leads to the stage behind it. *)
Definition parser_only (next_stage_id : Z) : IpsaGateway :=
  mkIpsaGateway [] (OwnDefault (GatewayStage next_stage_id)) [].

(** Levels; the code pushes what it will write of them. *)
Definition get_levels (lm : LevelManager) (ids : list Z) : res (list IpsaLevel) := collect (rd lm.(levels)) ids.

(** The levels from place [j] on, of stage [x] on processor [i].  Only the last group
    goes to the processor of the stage; when no processor is free, an error is printed
    and the levels go there, too. *)
Definition allocate_group (lm : LevelManager) (phys : gmap Z Z) (i x : Z) (parser_levels : list Z) (j : Z)
    (st : list (option IpsaProcessor) * Z) : res (list (option IpsaProcessor) * Z) :=
  let '(ps, extra) := st in
  let '(target, ps, extra) :=
    if j + MAX_LEVEL <? zlen parser_levels then
      match free_processor phys ps with
      | Some k => (k, <[Z.to_nat k := Some (IpsaProcessor_new extra)]> ps, extra + 1)
      | None => (i, ps, extra)
      end
    else (i, ps, extra) in
  ls ← get_levels lm (take (Z.to_nat MAX_LEVEL) (drop (Z.to_nat j) parser_levels));
  let ps := update_processor (add_levels ls) target ps in
  if target =? i then mret (ps, extra)
  else
    let next_stage_id := if j + MAX_LEVEL * 2 <? zlen parser_levels then extra else x in
    mret (update_processor (set_gateway (OwnGateway (parser_only next_stage_id))) target ps, extra).

(** The stage on processor [i]: [physical_proc_id[i]] is 0 when it was not set. *)
Definition allocate_processor (b : IpsaBuilder) (i : Z) (st : list (option IpsaProcessor) * Z)
    : res (list (option IpsaProcessor) * Z) :=
  let x := map_ref 0 b.(memory_proc_id) i in
  if x <? 0 then mret st
  else
    let '(ps, extra) := st in
    let ps := <[Z.to_nat i := Some (IpsaProcessor_new x)]> ps in
    match lookup_stage_id b.(stage_manager) x with
    | None => Fault NullDeref
    | Some stage =>
        let parser_levels := map_ref [] b.(distributed_levels) x in
        '(ps, extra) ← for_each (allocate_group b.(level_manager) b.(memory_proc_id) i x parser_levels)
          (group_starts (zlen parser_levels)) (ps, extra);
        _ ← rd b.(gateways) stage.(gateway_id);
        mret (update_processor (λ p,
                set_executor ((λ ap, fst <$> lookup_action_id b.(action_manager) ap.1) <$> stage.(action_proc))
                (set_matcher ((λ id, fst <$> lookup_table_id b.(table_manager) id) <$> stage.(stage_tables))
                (set_gateway (StageGateway stage.(gateway_id)) p))) i ps, extra)
    end.

(** The number of the processor of every stage, and of every group of levels. *)
Definition processor_numbers (ps : list (option IpsaProcessor)) : gmap Z Z :=
  fold_left (λ m i, match at_ ps i with Some p => insert_new p.(ip_id) i m | None => m end) (seqZ 0 PROC_COUNT) {[-1 := -1]}.

(** The default entry of the gateway of every processor gets the new numbers. *)
Definition renumber_gateway (proc_proc : gmap Z Z) (i : Z) (st : list (option IpsaProcessor) * list IpsaGateway)
    : res (list (option IpsaProcessor) * list IpsaGateway) :=
  let '(ps, gs) := st in
  match at_ ps i with
  | None => mret st
  | Some p =>
      match p.(ip_gateway) with
      | NoGateway => Fault NullDeref
      | StageGateway g => x ← rd gs g; gs ← wr gs g (gateway_next proc_proc x); mret (ps, gs)
      | OwnGateway x => mret (update_processor (set_gateway (OwnGateway (gateway_next proc_proc x))) i ps, gs)
      end
  end.

Definition first_extra (topo_sequence : list Z) : Z := fold_left Z.max topo_sequence 0 + 1.

Definition allocateProcessors (b : IpsaBuilder) : res IpsaBuilder :=
  '(ps, _) ← for_lt 0 PROC_COUNT (allocate_processor b)
    (replicate (Z.to_nat PROC_COUNT) None, first_extra b.(topo_sequence));
  let proc_proc := processor_numbers ps in
  let sm := with_stages (renumber proc_proc <$> b.(stage_manager).(logical_stages)) b.(stage_manager) in
  let tm := reorder_tables proc_proc b.(table_manager) in
  '(ps, gs) ← for_lt 0 PROC_COUNT (renumber_gateway proc_proc) (ps, b.(gateways));
  mret (mkBuilder b.(header_manager) b.(level_manager) b.(action_manager) tm sm gs b.(topo_sequence) b.(distributed_levels)
    b.(memory_proc_id) b.(is_incremental) ps).

(** ** Every stage has its processor *)

(** The place of a stage on the switch; -1, the end, stays -1. *)
Definition sits (b : IpsaBuilder) (stage processor : Z) : Prop :=
  (stage = -1 ∧ processor = -1) ∨
  (0 ≤ stage ∧ 0 ≤ processor < PROC_COUNT ∧ map_ref 0 b.(memory_proc_id) processor = stage).

(** The processor of a stage with the levels [ls]. *)
Definition stage_processor (b : IpsaBuilder) (s : IpsaStage) (ls : list IpsaLevel) : IpsaProcessor :=
  mkIpsaProcessor s.(stage_id) (zlen ls) ls (StageGateway s.(gateway_id))
    ((λ id, fst <$> lookup_table_id b.(table_manager) id) <$> s.(stage_tables))
    ((λ ap, fst <$> lookup_action_id b.(action_manager) ap.1) <$> s.(action_proc)).

(** A builder whose memory is allocated: every stage has a processor and at most
    [MAX_LEVEL] levels, and a gateway of its own. *)
Record built (b : IpsaBuilder) (tm : TableManager) : Prop := {
  bu_order : NoDup b.(topo_sequence) ∧ ∀ x, x ∈ b.(topo_sequence) → x ∈ stage_id <$> live_stages b.(stage_manager).(logical_stages);
  bu_ids : NoDup (stage_id <$> live_stages b.(stage_manager).(logical_stages));
  bu_memory : allocateMemory tm b.(stage_manager).(logical_stages) b.(topo_sequence) = Ok (b.(memory_proc_id), b.(table_manager));
  bu_placed : ∀ s, s ∈ live_stages b.(stage_manager).(logical_stages) → 0 ≤ s.(stage_id) ∧ ∃ i, sits b s.(stage_id) i;
  bu_levels : ∀ s, s ∈ live_stages b.(stage_manager).(logical_stages) →
    zlen (map_ref [] b.(distributed_levels) s.(stage_id)) ≤ MAX_LEVEL ∧
    Forall (λ l, 0 ≤ l < zlen b.(level_manager).(levels)) (map_ref [] b.(distributed_levels) s.(stage_id));
  bu_gateways : ∀ s, s ∈ live_stages b.(stage_manager).(logical_stages) → 0 ≤ s.(gateway_id) < zlen b.(gateways) ∧
    ∀ s', s' ∈ live_stages b.(stage_manager).(logical_stages) → s'.(gateway_id) = s.(gateway_id) → s' = s
}.

#[local] Instance IpsaGateway_inhabited : Inhabited IpsaGateway := populate (mkIpsaGateway [] NoDefault []).

(** A stage is placed once. *)
Record placed_once (seq : list Z) (phys : gmap Z Z) : Prop := {
  po_dom : ∀ i, 0 ≤ i < PROC_COUNT → is_Some (phys !! i);
  po_once : ∀ i x, phys !! i = Some x → 0 ≤ x → x ∈ seq ∧ ∀ j, phys !! j = Some x → j = i
}.

Lemma place_stage_once space seq s pl :
  s ∉ seq → placed_once seq pl.(physical_proc_id) → placed_once (seq ++ [s]) (place_stage space s pl).(physical_proc_id).
Proof.
  intros Hs [Hd Ho]. unfold place_stage. destruct (head _) as [c|].
  - cbn [physical_proc_id]. set (t := c * CLUSTER_PROC_COUNT + _). split.
    + intros i Hi. destruct (decide (t = i)) as [->|]; [by rewrite lookup_insert_eq|rewrite lookup_insert_ne by done; by apply Hd].
    + intros i x. rewrite lookup_insert_Some. intros [[<- <-]|[Hne Hi]] Hx.
      * split; [apply elem_of_app; right; by left|]. intros j. rewrite lookup_insert_Some. intros [[<- _]|[_ Hj]]; [done|].
        by destruct Hs, (Ho j s Hj Hx).
      * destruct (Ho i x Hi Hx) as [Hin Huniq]. split; [apply elem_of_app; by left|]. intros j. rewrite lookup_insert_Some.
        intros [[<- <-]|[_ Hj]]; [done|by apply Huniq].
  - split; [done|]. intros i x Hi Hx. destruct (Ho i x Hi Hx) as [Hin Huniq]. split; [apply elem_of_app; by left|done].
Qed.

Lemma place_stages_once space seq : NoDup seq → placed_once seq (place_stages space seq).(physical_proc_id).
Proof.
  intros Hnd. unfold place_stages. induction seq as [|s seq IH] using rev_ind.
  - cbn [fold_left]. split.
    + intros i Hi. assert (Hall : Forall (λ i, is_Some (Placement_init.(physical_proc_id) !! i)) (seqZ 0 PROC_COUNT))
        by (apply (bool_decide_unpack _); vm_compute; exact I).
      rewrite Forall_forall in Hall. apply Hall, elem_of_seqZ. lia.
    + intros i x Hi. assert (Hall : map_Forall (λ _ v, v = -1) Placement_init.(physical_proc_id))
        by (apply (bool_decide_unpack _); vm_compute; exact I).
      specialize (Hall i x Hi). cbn in Hall. lia.
  - apply NoDup_app in Hnd as (Hnd & Hs & _). rewrite fold_left_app. cbn [fold_left]. apply place_stage_once; [|by apply IH].
    intros Hin. apply (Hs s Hin). by left.
Qed.

Lemma NoDup_fmap_same {A B} (f : A → B) l x y : NoDup (f <$> l) → x ∈ l → y ∈ l → f x = f y → x = y.
Proof.
  induction l as [|z l IH]; [intros _ ?%not_elem_of_nil; done|]. cbn. intros [Hz Hnd]%NoDup_cons.
  intros [->|Hx]%elem_of_cons [->|Hy]%elem_of_cons Heq; [done| | |by apply IH]; destruct Hz;
    [rewrite Heq|rewrite <- Heq]; by apply list_elem_of_fmap_2.
Qed.

Lemma lookup_live_stage sm s :
  NoDup (stage_id <$> live_stages sm.(logical_stages)) → s ∈ live_stages sm.(logical_stages) →
  lookup_stage_id sm s.(stage_id) = Some s.
Proof.
  intros Hnd Hs. unfold lookup_stage_id. destruct (list_find _ _) as [[i t]|] eqn:E.
  - apply list_find_Some in E as (Hi & [Hr Hid] & _). cbn. f_equal. apply (NoDup_fmap_same stage_id _ _ _ Hnd); [|done|done].
    apply list_elem_of_filter. split; [done|]. by apply list_elem_of_lookup_2 in Hi.
  - apply list_find_None in E. apply list_elem_of_filter in Hs as [Hr Hs]. rewrite Forall_forall in E. by destruct (E s Hs).
Qed.

Lemma get_levels_ok lm ids :
  Forall (λ l, 0 ≤ l < zlen lm.(levels)) ids → ∃ ls, get_levels lm ids = Ok ls ∧ zlen ls = zlen ids.
Proof.
  intros Hids. exists (at_ lm.(levels) <$> ids). split; [|unfold zlen; by rewrite length_fmap].
  apply collect_ok. induction Hids as [|x ids Hx _ IH]; [constructor|]. constructor; [by apply rd_at|done].
Qed.

Lemma update_inserted f i p ps :
  0 ≤ i < zlen ps → update_processor f i (<[Z.to_nat i := Some p]> ps) = <[Z.to_nat i := Some (f p)]> ps.
Proof.
  intros Hi. unfold update_processor. apply list_eq. intros j.
  destruct (decide (Z.to_nat i = j)) as [<-|]; [|by rewrite list_lookup_alter_ne, !list_lookup_insert_ne by done].
  unfold zlen in Hi. by rewrite list_lookup_alter_eq, !list_lookup_insert_eq by lia.
Qed.

(** The levels of a stage with no more than [MAX_LEVEL] go to its own processor. *)
Lemma own_levels lm phys i x ids ps extra ls :
  0 ≤ i < zlen ps → zlen ids ≤ MAX_LEVEL → get_levels lm ids = Ok ls →
  for_each (allocate_group lm phys i x ids) (group_starts (zlen ids)) (<[Z.to_nat i := Some (IpsaProcessor_new x)]> ps, extra) =
    Ok (<[Z.to_nat i := Some (add_levels ls (IpsaProcessor_new x))]> ps, extra).
Proof.
  intros Hi Hn Hls. pose proof (zlen_nonneg ids) as H0. change MAX_LEVEL with 4 in Hn. destruct (decide (zlen ids = 0)) as [Hz|Hz].
  - rewrite Hz. change (group_starts 0) with (@nil Z). cbn [for_each].
    destruct ids; [|unfold zlen in Hz; cbn in Hz; lia]. by injection Hls as <-.
  - assert (Hg : group_starts (zlen ids) = [0]).
    { assert (zlen ids = 1 ∨ zlen ids = 2 ∨ zlen ids = 3 ∨ zlen ids = 4) as [->|[->|[->| ->]]] by lia; reflexivity. }
    rewrite Hg. cbn [for_each]. unfold allocate_group. change MAX_LEVEL with 4. rewrite (proj2 (Z.ltb_ge _ _)) by lia.
    change (drop (Z.to_nat 0) ids) with ids. rewrite take_ge by (unfold zlen in Hn; lia). rewrite Hls. cbn [mbind res_mbind].
    rewrite Z.eqb_refl, update_inserted by done. reflexivity.
Qed.

Section built.
Context (b : IpsaBuilder) (tm0 : TableManager) (Hb : built b tm0).
Local Abbreviation phys := (memory_proc_id b).
Local Abbreviation stages := (live_stages (logical_stages (stage_manager b))).
Local Abbreviation lvls s := (map_ref [] (distributed_levels b) (stage_id s)).

Lemma built_once : placed_once b.(topo_sequence) phys.
Proof.
  pose proof (bu_memory _ _ Hb) as Hm. unfold allocateMemory in Hm. apply bind_ok_inv in Hm as ([ts nums] & _ & Hm).
  injection Hm as <- _. apply place_stages_once, (bu_order _ _ Hb).
Qed.

(** What is on a processor. *)
Lemma built_at i : 0 ≤ i < PROC_COUNT →
  map_ref 0 phys i < 0 ∨ ∃ s, s ∈ stages ∧ map_ref 0 phys i = s.(stage_id) ∧ 0 ≤ s.(stage_id) ∧
    ∀ j, 0 ≤ j < PROC_COUNT → map_ref 0 phys j = s.(stage_id) → j = i.
Proof.
  intros Hi. destruct (po_dom _ _ built_once i Hi) as [x Hx]. unfold map_ref at 1 2. rewrite Hx. cbn. unfold id.
  destruct (decide (x < 0)); [by left|right]. destruct (po_once _ _ built_once i x Hx) as [Hin Huniq]; [lia|].
  pose proof (proj2 (bu_order _ _ Hb) x Hin) as (s & -> & Hs)%list_elem_of_fmap.
  exists s. split; [done|]. split; [done|]. split; [lia|]. intros j Hj Hat. apply Huniq.
  destruct (po_dom _ _ built_once j Hj) as [y Hy]. unfold map_ref in Hat. rewrite Hy in Hat. cbn in Hat. unfold id in Hat. congruence.
Qed.

(** A turn of the loop. *)
Lemma allocate_processor_ok i ps extra : 0 ≤ i < PROC_COUNT → zlen ps = PROC_COUNT →
  (map_ref 0 phys i < 0 → allocate_processor b i (ps, extra) = Ok (ps, extra)) ∧
  ∀ s, s ∈ stages → 0 ≤ s.(stage_id) → map_ref 0 phys i = s.(stage_id) →
    ∃ ls, get_levels b.(level_manager) (lvls s) = Ok ls ∧
      allocate_processor b i (ps, extra) = Ok (<[Z.to_nat i := Some (stage_processor b s ls)]> ps, extra).
Proof.
  intros Hi Hlen. split.
  { intros Hx. unfold allocate_processor. by rewrite (proj2 (Z.ltb_lt _ _) Hx). }
  intros s Hs Hx Hat. destruct (bu_levels _ _ Hb s Hs) as [Hmax Hall].
  destruct (get_levels_ok _ _ Hall) as (ls & Hls & Hl). exists ls. split; [done|].
  unfold allocate_processor. rewrite Hat, (proj2 (Z.ltb_ge _ _)) by done. rewrite (lookup_live_stage _ s (bu_ids _ _ Hb) Hs).
  rewrite (own_levels _ _ _ _ _ _ _ ls) by (done || lia). cbn [mbind res_mbind].
  destruct (bu_gateways _ _ Hb s Hs) as [Hg _]. rewrite rd_at by done. cbn [mbind res_mbind mret res_mret].
  rewrite update_inserted by lia. reflexivity.
Qed.

(** The processors after the first [n] turns. *)
Record filled (n : Z) (ps : list (option IpsaProcessor)) : Prop := {
  fi_len : zlen ps = PROC_COUNT;
  fi_none : ∀ i, 0 ≤ i < PROC_COUNT → n ≤ i ∨ map_ref 0 phys i < 0 → at_ ps i = None;
  fi_some : ∀ i s, 0 ≤ i < n → s ∈ stages → 0 ≤ s.(stage_id) → map_ref 0 phys i = s.(stage_id) →
    ∃ ls, get_levels b.(level_manager) (lvls s) = Ok ls ∧ at_ ps i = Some (stage_processor b s ls)
}.

Lemma processors_filled :
  ∃ ps extra, for_lt 0 PROC_COUNT (allocate_processor b)
    (replicate (Z.to_nat PROC_COUNT) None, first_extra b.(topo_sequence)) = Ok (ps, extra) ∧ filled PROC_COUNT ps.
Proof.
  destruct (for_lt_inv (λ i st, filled i st.1) 0 PROC_COUNT (allocate_processor b)
    (replicate (Z.to_nat PROC_COUNT) None, first_extra b.(topo_sequence))) as ([ps extra] & -> & Hf); [done| | |by exists ps, extra].
  - split; cbn [fst]; [done| |intros; lia]. intros i Hi _. unfold at_. apply lookup_total_replicate_2. lia.
  - intros i [ps extra] Hi [Hlen Hnone Hsome]. cbn [fst] in *. destruct (allocate_processor_ok i ps extra Hi Hlen) as [Hneg Hpos].
    destruct (built_at i Hi) as [Hx|(s & Hs & Hx & Hs0 & Huniq)].
    + exists (ps, extra). split; [by apply Hneg|]. split; cbn [fst]; [done| |].
      * intros j Hj [?|?]; apply Hnone; [done|lia|done|by right].
      * intros j t Hj Ht Ht0 Hat. apply Hsome; [|done..]. assert (j ≠ i) by (intros ->; lia). lia.
    + destruct (Hpos s Hs Hs0 Hx) as (ls & Hls & Hrun). eexists. split; [exact Hrun|]. split; cbn [fst].
      * by rewrite zlen_insert.
      * intros j Hj Hor. assert (j ≠ i) by (intros ->; lia). rewrite at_insert_ne by lia. apply Hnone; [done|]. lia.
      * intros j t Hj Ht Ht0 Hat. destruct (decide (j = i)) as [->|].
        -- rewrite at_insert_eq by lia. assert (t = s) as -> by (apply (NoDup_fmap_same stage_id _ _ _ (bu_ids _ _ Hb)); [done..|lia]).
           by exists ls.
        -- rewrite at_insert_ne by lia. apply Hsome; [lia|done..].
Qed.

(** The numbers of the processors. *)
Lemma numbers_fold ps is_ (m : gmap Z Z) :
  let m' := fold_left (λ m i, match at_ ps i with Some p => insert_new p.(ip_id) i m | None => m end) is_ m in
  (∀ y v, m !! y = Some v → m' !! y = Some v) ∧
  ∀ y i p, i ∈ is_ → at_ ps i = Some p → p.(ip_id) = y → (∀ j q, j ∈ is_ → at_ ps j = Some q → q.(ip_id) = y → j = i) →
    m !! y = None → m' !! y = Some i.
Proof.
  cbn zeta. revert m. induction is_ as [|k is_ IH]; intros m; cbn [fold_left].
  - split; [done|]. by intros y i p ?%not_elem_of_nil.
  - set (m1 := match at_ ps k with Some p => insert_new p.(ip_id) k m | None => m end). destruct (IH m1) as [H1 H2]. split.
    + intros y v Hy. apply H1. unfold m1, insert_new. destruct (at_ ps k) as [p|]; [|done].
      destruct (m !! ip_id p) eqn:E; [done|]. rewrite lookup_insert_ne; [done|congruence].
    + intros y i p Hi Hp Hid Huniq Hy. destruct (decide (k = i)) as [->|Hne].
      * apply H1. unfold m1, insert_new. rewrite Hp, Hid, Hy. by rewrite lookup_insert_eq.
      * apply (H2 y i p); [|done|done| |].
        -- apply elem_of_cons in Hi as [->|]; done.
        -- intros j q Hj. apply Huniq. by right.
        -- unfold m1, insert_new. destruct (at_ ps k) as [q|] eqn:Ek; [|done]. destruct (m !! ip_id q) eqn:Eq; [done|].
           rewrite lookup_insert_ne; [done|]. intros Heq. apply Hne, (Huniq k q); [by left|done|done].
Qed.

Lemma numbers_sit ps y r : filled PROC_COUNT ps → sits b y r → processor_numbers ps !! y = Some r.
Proof.
  intros [Hlen Hnone Hsome]. unfold processor_numbers.
  destruct (numbers_fold ps (seqZ 0 PROC_COUNT) {[-1 := -1]}) as [H1 H2].
  intros [[-> ->]|(Hy & Hr & Hat)].
  - apply H1. by rewrite lookup_singleton_eq.
  - destruct (built_at r Hr) as [?|(s & Hs & Hx & Hs0 & Huniq)]; [lia|].
    destruct (Hsome r s Hr Hs Hs0 Hx) as (ls & _ & Hp).
    apply (H2 y r (stage_processor b s ls)); [apply elem_of_seqZ; lia|done| | |].
    + cbn. lia.
    + intros j q Hj%elem_of_seqZ Hq Hid. destruct (built_at j ltac:(lia)) as [Hn|(t & Ht & Htx & Ht0 & _)].
      { rewrite (Hnone j) in Hq by (lia || by right). done. }
      destruct (Hsome j t ltac:(lia) Ht Ht0 Htx) as (ls' & _ & Hq'). rewrite Hq in Hq'. injection Hq' as ->. cbn in Hid.
      apply Huniq; lia.
    + rewrite lookup_singleton_ne; [done|lia].
Qed.

(** The gateways, after the loop over the processors. *)
Lemma gateways_renumbered N ps : filled PROC_COUNT ps →
  ∃ gs, for_lt 0 PROC_COUNT (renumber_gateway N) (ps, b.(gateways)) = Ok (ps, gs) ∧
    ∀ s, s ∈ stages → rd gs s.(gateway_id) = Ok (gateway_next N (at_ b.(gateways) s.(gateway_id))).
Proof.
  intros [Hlen Hnone Hsome]. set (gs0 := b.(gateways)).
  destruct (for_lt_inv (λ i st, st.1 = ps ∧ zlen st.2 = zlen gs0 ∧ ∀ k s, s ∈ stages → 0 ≤ k < PROC_COUNT → 0 ≤ s.(stage_id) →
      map_ref 0 phys k = s.(stage_id) →
      at_ st.2 s.(gateway_id) = if k <? i then gateway_next N (at_ gs0 s.(gateway_id)) else at_ gs0 s.(gateway_id))
    0 PROC_COUNT (renumber_gateway N) (ps, gs0)) as ([ps' gs] & -> & Hps & Hgl & Hgs); [done| | |].
  - split; [done|]. split; [done|]. intros k s _ Hk _ _. by rewrite (proj2 (Z.ltb_ge _ _)) by lia.
  - intros i [ps' gs] Hi (Heq & Hgl & Hgs). cbn [fst snd] in *. subst ps'.
    destruct (built_at i Hi) as [Hx|(s & Hs & Hx & Hs0 & Huniq)].
    + exists (ps, gs). unfold renumber_gateway. rewrite (Hnone i) by (lia || by right). split; [done|]. split; [done|]. split; [done|].
      intros k s Hs Hk Hs0 Hat. cbn [snd]. rewrite (Hgs k s) by done. assert (k ≠ i) by (intros ->; lia).
      destruct (Z.ltb_spec k i), (Z.ltb_spec k (i + 1)); done || lia.
    + destruct (Hsome i s Hi Hs Hs0 Hx) as (ls & _ & Hp). destruct (bu_gateways _ _ Hb s Hs) as [Hg Hown]. fold gs0 in Hg.
      exists (ps, <[Z.to_nat s.(gateway_id) := gateway_next N (at_ gs0 s.(gateway_id))]> gs).
      unfold renumber_gateway. rewrite Hp. cbn [stage_processor ip_gateway].
      rewrite rd_at by lia. cbn [mbind res_mbind]. rewrite wr_ok by lia. cbn [mbind res_mbind mret res_mret].
      rewrite (Hgs i s Hs Hi Hs0 Hx), Z.ltb_irrefl. split; [done|]. split; [done|]. cbn [snd]. split; [by rewrite zlen_insert|].
      intros k t Ht Hk Ht0 Hat. destruct (bu_gateways _ _ Hb t Ht) as [Hgt _]. fold gs0 in Hgt.
      destruct (decide (t.(gateway_id) = s.(gateway_id))) as [He|Hne].
      * rewrite (Hown t Ht He) in *. assert (k = i) as -> by (by apply Huniq). rewrite at_insert_eq by lia.
        by rewrite (proj2 (Z.ltb_lt _ _)) by lia.
      * rewrite at_insert_ne, (Hgs k t Ht Hk Ht0 Hat) by lia. assert (k ≠ i) as Hki.
        { intros ->. apply Hne. f_equal. apply (NoDup_fmap_same stage_id _ _ _ (bu_ids _ _ Hb)); [done..|lia]. }
        destruct (Z.ltb_spec k i), (Z.ltb_spec k (i + 1)); done || lia.
  - cbn [fst snd] in *. subst ps'. exists gs. split; [done|]. intros s Hs. destruct (bu_gateways _ _ Hb s Hs) as [Hg _]. fold gs0 in Hg.
    destruct (bu_placed _ _ Hb s Hs) as (Hs0 & i & Hi). destruct Hi as [[Hi _]|(_ & Hi & Hat)]; [lia|].
    rewrite rd_at by lia. by rewrite (Hgs i s Hs Hi Hs0 Hat), (proj2 (Z.ltb_lt _ _)) by lia.
Qed.
End built.

(** The default entry of a gateway. *)
Definition default_entry (g : IpsaGateway) : option IpsaGatewayEntry :=
  match g.(gw_default) with NoDefault => None | OwnDefault e => Some e | FirstDefault => snd <$> head g.(gw_entries) end.

Lemma default_renumbered (N : gmap Z Z) g y r :
  default_entry g = Some (GatewayStage y) → N !! y = Some r → default_entry (gateway_next N g) = Some (GatewayStage r).
Proof.
  unfold default_entry, gateway_next. intros Hd HN. destruct (gw_default g) as [|e|] eqn:E; [done| |]; cbn.
  - injection Hd as ->. cbn. by rewrite HN.
  - destruct (gw_entries g) as [|[k e] es]; [done|]. cbn in *. injection Hd as ->. cbn. by rewrite HN.
Qed.

(** C7. The stages on the processors: when every stage has got a processor and has at
    most four parser levels, the processors are made; each stage is on the processor it
    was given, with its levels, its tables, its actions and its gateway, and no other
    processor is used.  What the actions of a table and the default entry of a gateway
    lead to is the processor of that stage, and the end stays the end; the tables keep
    their memory and their place. *)
Theorem stages_in_processors b tm0 :
  built b tm0 →
  ∃ b', allocateProcessors b = Ok b' ∧
    (∀ s, s ∈ live_stages b.(stage_manager).(logical_stages) →
       ∃ i ls g g', sits b s.(stage_id) i ∧
         get_levels b.(level_manager) (map_ref [] b.(distributed_levels) s.(stage_id)) = Ok ls ∧
         b'.(processors) !! Z.to_nat i = Some (Some (stage_processor b s ls)) ∧
         rd b.(gateways) s.(gateway_id) = Ok g ∧ rd b'.(gateways) s.(gateway_id) = Ok g' ∧
         ∀ y r, default_entry g = Some (GatewayStage y) → sits b y r → default_entry g' = Some (GatewayStage r)) ∧
    (∀ i, 0 ≤ i < PROC_COUNT → map_ref 0 b.(memory_proc_id) i < 0 → b'.(processors) !! Z.to_nat i = Some None) ∧
    ∀ name t, lookup_table b.(table_manager) name = Some t →
      ∃ t', lookup_table b'.(table_manager) name = Some t' ∧ t'.(tb_id) = t.(tb_id) ∧
        t'.(key_memory) = t.(key_memory) ∧ t'.(value_memory) = t.(value_memory) ∧
        (∀ r, sits b t.(tb_proc_id) r → t'.(tb_proc_id) = r) ∧
        ∀ k a y r, t.(action_to_proc) !! k = Some (a, y) → sits b y r → t'.(action_to_proc) !! k = Some (a, r).
Proof.
  intros Hb. destruct (processors_filled b tm0 Hb) as (ps & extra & Hrun & Hf).
  set (N := processor_numbers ps). destruct (gateways_renumbered b tm0 Hb N ps Hf) as (gs & Hgrun & Hgs).
  assert (HN : ∀ y r, sits b y r → N !! y = Some r) by (intros; by eapply numbers_sit).
  unfold allocateProcessors. rewrite Hrun. cbn [mbind res_mbind]. fold N. rewrite Hgrun. cbn [mbind res_mbind mret res_mret].
  eexists. split; [done|]. cbn [processors gateways table_manager].
  assert (Hat : ∀ i o, 0 ≤ i < PROC_COUNT → at_ ps i = o → ps !! Z.to_nat i = Some o).
  { intros i o Hi <-. pose proof (fi_len _ _ _ Hf) as Hl. apply list_lookup_lookup_total_lt. unfold zlen in Hl. lia. }
  split; [|split].
  - intros s Hs. destruct (bu_placed _ _ Hb s Hs) as (Hs0 & i & Hi). pose proof Hi as [[Hneg _]|(_ & Hir & Hphys)]; [lia|].
    destruct (fi_some _ _ _ Hf i s Hir Hs Hs0 Hphys) as (ls & Hls & Hp).
    destruct (bu_gateways _ _ Hb s Hs) as [Hg _]. exists i, ls, (at_ b.(gateways) s.(gateway_id)), (gateway_next N (at_ b.(gateways) s.(gateway_id))).
    split; [done|]. split; [done|]. split; [by apply Hat|]. split; [by apply rd_at|]. split; [by apply Hgs|].
    intros y r Hd Hr. by eapply default_renumbered, HN.
  - intros i Hi Hneg. apply Hat; [done|]. apply (fi_none _ _ _ Hf); [done|by right].
  - intros name t Ht. unfold lookup_table, reorder_tables in *. cbn [tables]. rewrite lookup_fmap, Ht. cbn [fmap option_fmap option_map].
    eexists. split; [done|]. cbn. do 3 (split; [done|]). split.
    + intros r Hr. unfold map_ref. by rewrite (HN _ _ Hr).
    + intros k a y r Hk Hr. rewrite list_lookup_fmap, Hk. cbn. unfold map_ref. by rewrite (HN _ _ Hr).
Qed.

(** ** A program: two stages with a table each *)
Definition demo_program : Rp4Ast := mkAst
  [demo_ethernet; mkHeaderDef "ipv4_t" [mkFieldDef (BitType 8) "ttl"; mkFieldDef (BitType 32) "dst"]]
  [mkStructDef "headers_t" [mkFieldDef (NamedType "ethernet_t") "ethernet"; mkFieldDef (NamedType "ipv4_t") "ipv4"] "hdr" true;
   mkStructDef "std_t" [mkFieldDef (BitType 9) "ingress_port"; mkFieldDef (BitType 9) "egress_port"] "standard_metadata" false]
  [mkStateDef "start" ("hdr", "ethernet") (DirectTransition (mkTransitionEntry DefaultKey "ip" 2));
   mkStateDef "ip" ("hdr", "ipv4") (DirectTransition (mkTransitionEntry DefaultKey "" 0))]
  [mkActionDef "drop" [] [];
   mkActionDef "forward" [mkFieldDef (BitType 16) "id"] [(MetaLValue "standard_metadata" "egress_port", Rp4Literal 2)];
   mkActionDef "hop" [] [(HeaderLValue "hdr" "ipv4" "ttl", Rp4Literal 7)]]
  [mkTableDef "route" [(HeaderLValue "hdr" "ipv4" "dst", MT_EXACT)] [TableSizeStmt 1024];
   mkTableDef "source" [(HeaderLValue "hdr" "ethernet" "src", MT_EXACT)] [TableSizeStmt 10; DefaultActionStmt "hop"]]
  [mkStageDef "routing" ["ipv4"] [] [(DefaultKey, SwitchTable "route")] [("forward", "hops"); ("drop", "")]]
  [mkStageDef "hops" ["ethernet"] [] [(DefaultKey, SwitchTable "source")] [("hop", ""); ("drop", "")]]%string.

Definition demo_loaded_program : IpsaBuilder :=
  match load_builder (H := x86) 3 demo_program with Some (Ok b) => b | _ => IpsaBuilder_init end.
Definition demo_built : IpsaBuilder :=
  match allocateParsers demo_loaded_program ≫= allocate_memory with Ok b => b | _ => IpsaBuilder_init end.

Lemma demo_stages_two (P : IpsaStage → Prop) :
  (∀ s, live_stages demo_built.(stage_manager).(logical_stages) !! 0%nat = Some s → P s) →
  (∀ s, live_stages demo_built.(stage_manager).(logical_stages) !! 1%nat = Some s → P s) →
  ∀ s, s ∈ live_stages demo_built.(stage_manager).(logical_stages) → P s.
Proof.
  intros H0 H1 s [i Hi]%list_elem_of_lookup. assert (length (live_stages demo_built.(stage_manager).(logical_stages)) = 2%nat) as Hl
    by (vm_compute; reflexivity).
  pose proof (lookup_lt_Some _ _ _ Hi). destruct i as [|[|i]]; [by apply H0|by apply H1|lia].
Qed.

Lemma demo_built_ok : built demo_built demo_loaded_program.(table_manager).
Proof.
  split.
  - split; [apply (bool_decide_unpack _); vm_compute; exact I|]. apply Forall_forall, (bool_decide_unpack _). vm_compute. exact I.
  - apply (bool_decide_unpack _). vm_compute. exact I.
  - vm_compute. reflexivity.
  - refine (demo_stages_two (λ s, _) _ _); intros s Hs; vm_compute in Hs; injection Hs as <-; (split; [done|]).
    + exists 0. right. vm_compute. repeat split; discriminate.
    + exists 1. right. vm_compute. repeat split; discriminate.
  - refine (demo_stages_two (λ s, _) _ _); intros s Hs; vm_compute in Hs; injection Hs as <-;
      (split; [vm_compute; discriminate|apply (bool_decide_unpack _); vm_compute; exact I]).
  - refine (demo_stages_two (λ s, _) _ _); intros s Hs; vm_compute in Hs; injection Hs as <-; (split; [vm_compute; split; [discriminate|reflexivity]|]);
      refine (demo_stages_two (λ s, _) _ _); intros s' Hs'; vm_compute in Hs'; injection Hs' as <-; done.
Qed.

Lemma stages_in_processors_witness :
  ∃ b' p, allocateProcessors demo_built = Ok b' ∧ b'.(processors) !! 1%nat = Some (Some p) ∧
    p.(ip_matcher) = [Some "source"%string] ∧ p.(ip_executor) = [Some "hop"; Some "drop"]%string.
Proof.
  destruct (stages_in_processors demo_built demo_loaded_program.(table_manager) demo_built_ok) as (b' & Hrun & Hs & _).
  destruct (live_stages demo_built.(stage_manager).(logical_stages) !! 1%nat) as [s|] eqn:E; [|vm_compute in E; discriminate].
  destruct (Hs s) as (i & ls & g & g' & Hi & _ & Hp & _); [by apply list_elem_of_lookup_2 in E|].
  exists b', (stage_processor demo_built s ls). split; [exact Hrun|]. vm_compute in E. injection E as <-.
  destruct Hi as [[Hneg _]|(_ & Hr & Hat)]; [discriminate Hneg|].
  assert (i = 1) as ->; [|by split; [exact Hp|split; vm_compute]].
  assert (Hall : Forall (λ i, map_ref 0 demo_built.(memory_proc_id) i = 1 → i = 1) (seqZ 0 PROC_COUNT))
    by (apply (bool_decide_unpack _); vm_compute; exact I).
  rewrite Forall_forall in Hall. apply Hall; [apply elem_of_seqZ; lia|exact Hat].
Defined.
