(* ===== verification/Incremental.v ===== *)
(** * The rP4 compiler: the memory of a program that replaces another (ipsa_builder.h)

    A program that is compiled after another one keeps the memory of the tables both
    have, if their stages can stay in the clusters of these tables; if not, the memory
    is allocated anew (Allocation.v). *)

From stdpp Require Import base numbers list gmap strings sorting.
From Stdlib Require Import ZArith Lia.
From S2P Require Import Prelude Headers Actions Tables Stages Allocation.

#[local] Open Scope Z_scope.
Import ipsa_configuration.

(** ** The memory of a program that replaces another *)
Section incremental.
Context (prev : TableManager) (tm : TableManager).

(** The old table of the same name, by the id of the new table; whether key and size
    are the same is not looked at. *)
Definition old_tables : gmap Z (option IpsaTable) :=
  fold_left (λ m nt, insert_new nt.2.(table_id) (lookup_table prev nt.1) m) (in_name_order tm.(tables)) ∅.

Definition old_table (t : IpsaTable) : option IpsaTable := map_ref None old_tables t.(table_id).

(** A stage with an old table goes to the cluster of that table; when two old tables
    ask for different clusters, the allocation gives up. *)
Definition pin_table (nt : string * IpsaTable) (st : option (gmap Z Z)) : option (gmap Z Z) :=
  match st, old_table nt.2 with
  | Some clusters, Some old =>
      let cluster_id := Z.quot old.(tb_proc_id) CLUSTER_PROC_COUNT in
      let x := map_ref 0 clusters nt.2.(tb_proc_id) in
      if 0 <=? x then (if x =? cluster_id then Some clusters else None)
      else Some (<[nt.2.(tb_proc_id) := cluster_id]> clusters)
  | st, _ => st
  end.

Definition pinned_clusters (topo : list Z) : option (gmap Z Z) :=
  fold_left (λ st nt, pin_table nt st) (in_name_order tm.(tables))
    (Some (fold_left (λ m s, insert_new s (-1) m) topo ∅)).

(** The stages with a cluster get a processor of it. *)
Definition locate_fixed (space : gmap Z (Z * Z)) (clusters : gmap Z Z) (stage : Z) (st : option Placement)
    : res (option Placement) :=
  match st with
  | None => mret None
  | Some pl =>
      let i := map_ref 0 clusters stage in
      if 0 <=? i then
        let need := map_ref (0, 0) space stage in
        procs ← rd pl.(cluster_proc) i;
        room ← rd pl.(cluster_space) i;
        if takes pl need i then
          let target := i * CLUSTER_PROC_COUNT + zlen procs in
          mret (Some (mkPlacement (<[Z.to_nat i := pair_sub room need]> pl.(cluster_space))
            (<[Z.to_nat i := procs ++ [stage]]> pl.(cluster_proc)) (<[target := stage]> pl.(physical_proc_id))))
        else mret None
      else mret st
  end.

(** The other stages: the place that is found is kept in a variable of the loop body,
    and the outer variable of the same name stays -1, so the allocation gives up. *)
Definition locate_dynamic (clusters : gmap Z Z) (stage : Z) (st : option Placement) : option Placement :=
  if map_ref 0 clusters stage <? 0 then None else st.

(** The blocks in use: TCAM and SRAM of each cluster. *)
Definition Bitmaps : Type := list (list bool * list bool).
Definition Bitmaps_init : Bitmaps :=
  replicate (Z.to_nat CLUSTER_COUNT)
    (replicate (Z.to_nat CLUSTER_TCAM_COUNT) false, replicate (Z.to_nat CLUSTER_SRAM_COUNT) false).

Definition push_config (l : list Z) (m : IpsaMem) : IpsaMem := mkIpsaMem m.(im_type) (m.(im_config) ++ l) m.(im_width) m.(im_depth).
Definition push_configs (key value : list Z) (t : IpsaTable) : IpsaTable :=
  mkIpsaTable t.(tb_proc_id) t.(key_width_vec) t.(tb_id) t.(table_id) t.(tb_miss_action_id) t.(tb_no_table)
    t.(action_to_proc) t.(tb_match_type) (push_config key t.(key_memory)) (push_config value t.(value_memory)) t.(field_infos).

Definition mark (l : list Z) (bits : list bool) : res (list bool) := for_each (λ x bits, wr bits x true) l bits.

(** A table that was there keeps its blocks. *)
Definition keep_table (clusters : gmap Z Z) (nt : string * IpsaTable) (st : gmap string IpsaTable * Bitmaps)
    : res (gmap string IpsaTable * Bitmaps) :=
  let c := map_ref 0 clusters nt.2.(tb_proc_id) in
  now_cluster ← rd st.2 c;
  match old_table nt.2 with
  | None => mret st
  | Some old =>
      let key := old.(key_memory).(im_config) in
      let value := old.(value_memory).(im_config) in
      '(tcam, sram) ← (if decide (old.(key_memory).(im_type) = MEM_TCAM) then l ← mark key now_cluster.1; mret (l, now_cluster.2)
                       else l ← mark key now_cluster.2; mret (now_cluster.1, l));
      sram ← mark value sram;
      mret (alter (push_configs key value) nt.1 st.1, <[Z.to_nat c := (tcam, sram)]> st.2)
  end.

(** The first block that is not in use. *)
Definition first_free (bits : list bool) : option Z := Z.of_nat ∘ fst <$> list_find (λ b, b = false) bits.

(** A block for a new table: it is looked for in the bitmap of its kind, and marked in
    the bitmap of the TCAM. *)
Definition take_block (type : IpsaMemoryType) (st : list Z * (list bool * list bool)) : res (list Z * (list bool * list bool)) :=
  let '(config, (tcam, sram)) := st in
  match first_free (if decide (type = MEM_TCAM) then tcam else sram) with
  | Some j => tcam ← wr tcam j true; mret (config ++ [j], (tcam, sram))
  | None => mret st
  end.

Definition take_blocks (type : IpsaMemoryType) (m : IpsaMem) (bits : list bool * list bool)
    : res (list Z * (list bool * list bool)) :=
  for_lt 0 (m.(im_depth) * m.(im_width)) (λ _, take_block type) ([], bits).

Definition place_table (clusters : gmap Z Z) (nt : string * IpsaTable) (st : gmap string IpsaTable * Bitmaps)
    : res (gmap string IpsaTable * Bitmaps) :=
  let c := map_ref 0 clusters nt.2.(tb_proc_id) in
  now_cluster ← rd st.2 c;
  match old_table nt.2 with
  | Some _ => mret st
  | None =>
      '(key, bits) ← take_blocks nt.2.(key_memory).(im_type) nt.2.(key_memory) now_cluster;
      '(value, bits) ← take_blocks MEM_SRAM nt.2.(value_memory) bits;
      mret (alter (push_configs key value) nt.1 st.1, <[Z.to_nat c := bits]> st.2)
  end.

(** [allocateMemory(prev)]: the processors and the tables, or nothing when the
    allocation gives up. *)
Definition allocateMemory_after (stages : list IpsaStage) (topo : list Z) : res (option (gmap Z Z * TableManager)) :=
  let space := stage_spaces (table_spaces (in_name_order tm.(tables))).1 stages in
  match pinned_clusters topo with
  | None => mret None
  | Some clusters =>
      let start := mkPlacement Placement_init.(cluster_space) Placement_init.(cluster_proc) ∅ in
      located ← for_each (locate_fixed space clusters) topo (Some start);
      match fold_left (λ st s, locate_dynamic clusters s st) topo located with
      | None => mret None
      | Some pl =>
          '(ts, maps) ← for_each (keep_table clusters) (in_name_order tm.(tables)) (tm.(tables), Bitmaps_init);
          '(ts, _) ← for_each (place_table clusters) (in_name_order tm.(tables)) (ts, maps);
          mret (Some (pl.(physical_proc_id), mkTableManager tm.(global_table_id) ts))
      end
  end.
End incremental.

(** ** The old tables keep their memory *)
Lemma NoDup_in_name_order {V} (m : gmap string V) : NoDup (in_name_order m).*1.
Proof. unfold in_name_order. rewrite merge_sort_Permutation. apply NoDup_fst_map_to_list. Qed.

(** The first table of each id, when no two tables have the same. *)
Lemma by_id_spec {V} (f : string * IpsaTable → V) l : ids_distinct l → ∀ id v,
  fold_left (λ (m : gmap Z V) nt, insert_new nt.2.(table_id) (f nt) m) l ∅ !! id = Some v ↔
  ∃ nt, nt ∈ l ∧ nt.2.(table_id) = id ∧ v = f nt.
Proof.
  induction l as [|[n t] l IH] using rev_ind; intros Hd id v.
  - cbn. rewrite lookup_empty. split; [done|]. by intros (nt & ?%not_elem_of_nil & _).
  - rewrite fold_left_app. cbn [fold_left snd]. rewrite lookup_insert_new, IH.
    2: { intros a b x y Ha Hb. apply Hd; apply elem_of_app; by left. }
    setoid_rewrite elem_of_app. setoid_rewrite list_elem_of_singleton. split.
    + intros [(nt & ? & ? & ?)|(_ & -> & <-)]; [eauto 6|]. exists (n, t). auto.
    + intros (nt & [?| ->] & <- & ->); [eauto 6|]. cbn [snd]. destruct (fold_left _ l ∅ !! table_id t) as [w|] eqn:E; [left|by right].
      apply IH in E as ([n' t'] & Hin & Heq & _); [|intros a b x y Ha Hb; apply Hd; apply elem_of_app; by left].
      destruct (Hd n' n t' t) as [-> ->]; [apply elem_of_app; by left|apply elem_of_app; right; by left|done|]. by exists (n, t).
Qed.

(** Tables with ids of their own, without memory yet. *)
Record tables_fresh (tm : TableManager) : Prop := {
  tf_ids : ∀ n n' t t', tm.(tables) !! n = Some t → tm.(tables) !! n' = Some t' → t.(table_id) = t'.(table_id) → n = n';
  tf_new : ∀ n t, tm.(tables) !! n = Some t → t.(key_memory).(im_config) = [] ∧ t.(value_memory).(im_config) = []
}.

Section kept.
Context (prev tm : TableManager) (Hfresh : tables_fresh tm).
Context (Hprev : ∀ n t, lookup_table prev n = Some t → 0 ≤ t.(tb_proc_id)).

Lemma old_table_is n t : tm.(tables) !! n = Some t → old_table prev tm t = lookup_table prev n.
Proof.
  intros Ht. unfold old_table, map_ref, old_tables.
  rewrite (proj2 (by_id_spec (λ nt, lookup_table prev nt.1) _ (distinct_tables tm (tf_ids _ Hfresh)) t.(table_id) (lookup_table prev n))); [done|].
  exists (n, t). by rewrite elem_of_in_name_order.
Qed.

(** The cluster of the processor an old table was on. *)
Definition old_cluster (t : IpsaTable) : Z := Z.quot t.(tb_proc_id) CLUSTER_PROC_COUNT.

(** The clusters of the stages, after the tables [l]. *)
Record pinned (topo : list Z) (l : list (string * IpsaTable)) (clusters : gmap Z Z) : Prop := {
  pn_table : ∀ n t old, (n, t) ∈ l → old_table prev tm t = Some old → map_ref 0 clusters t.(tb_proc_id) = old_cluster old;
  pn_stage : ∀ s, s ∈ topo → 0 ≤ map_ref 0 clusters s →
    ∃ n t old, (n, t) ∈ l ∧ t.(tb_proc_id) = s ∧ old_table prev tm t = Some old
}.

Lemma old_cluster_nonneg n t old : tm.(tables) !! n = Some t → old_table prev tm t = Some old → 0 ≤ old_cluster old.
Proof.
  intros Ht Hold. rewrite (old_table_is n t Ht) in Hold. apply Hprev in Hold. unfold old_cluster.
  change CLUSTER_PROC_COUNT with 4. by apply Z.quot_pos.
Qed.

Lemma pinned_start topo : pinned topo [] (fold_left (λ m s, insert_new s (-1) m) topo ∅).
Proof.
  split; [by intros n t old ?%not_elem_of_nil|]. intros s Hs Hc. exfalso.
  assert (H : ∀ l (m : gmap Z Z), (∀ k v, m !! k = Some v → v = -1) → is_Some (m !! s) ∨ s ∈ l →
    map_ref 0 (fold_left (λ m s, insert_new s (-1) m) l m) s = -1).
  { induction l as [|x l IH]; intros m Hm Hor; cbn [fold_left].
    - destruct Hor as [[v Hv]|?%not_elem_of_nil]; [|done]. unfold map_ref. rewrite Hv. by apply Hm in Hv.
    - apply IH.
      + intros k v [Hk|(_ & _ & <-)]%lookup_insert_new; [by apply Hm in Hk|done].
      + destruct Hor as [[v Hv]|[->|Hin]%elem_of_cons]; [left|left|by right].
        * exists v. apply lookup_insert_new. by left.
        * destruct (m !! x) as [v|] eqn:E; [exists v|exists (-1)]; apply lookup_insert_new; [by left|by right]. }
  rewrite (H topo ∅) in Hc; [lia|done|by right].
Qed.

Lemma pin_table_none nt : pin_table prev tm nt None = None.
Proof. done. Qed.

Lemma pinned_step topo l n t clusters clusters' :
  (∀ nt, nt ∈ l → tm.(tables) !! nt.1 = Some nt.2) → tm.(tables) !! n = Some t →
  pinned topo l clusters → pin_table prev tm (n, t) (Some clusters) = Some clusters' → pinned topo (l ++ [(n, t)]) clusters'.
Proof.
  intros Hl Ht [Htab Hst] Hrun. unfold pin_table in Hrun. cbn [snd] in Hrun.
  destruct (old_table prev tm t) as [old|] eqn:Hold.
  - fold (old_cluster old) in Hrun. pose proof (old_cluster_nonneg n t old Ht Hold) as Hc0.
    destruct (Z.leb_spec 0 (map_ref 0 clusters t.(tb_proc_id))).
    + destruct (Z.eqb_spec (map_ref 0 clusters t.(tb_proc_id)) (old_cluster old)) as [Heq|]; [|done]. injection Hrun as <-. split.
      * intros n' t' old' [Hin|[= -> ->]%list_elem_of_singleton]%elem_of_app Ho; [by apply (Htab n' t')|congruence].
      * intros s Hs Hc. destruct (Hst s Hs Hc) as (n' & t' & o & ? & ? & ?). exists n', t', o. rewrite elem_of_app. eauto.
    + injection Hrun as <-. split.
      * intros n' t' old' [Hin|[= -> ->]%list_elem_of_singleton]%elem_of_app Ho.
        -- unfold map_ref. rewrite lookup_insert_ne; [by apply (Htab n' t')|]. intros Heq.
           pose proof (Htab n' t' old' Hin Ho) as Hm. rewrite <- Heq in Hm.
           pose proof (old_cluster_nonneg n' t' old' (Hl _ Hin) Ho). lia.
        -- unfold map_ref. rewrite lookup_insert_eq. cbn. unfold id. congruence.
      * intros s Hs Hc. destruct (decide (t.(tb_proc_id) = s)) as [<-|Hne].
        -- exists n, t, old. split; [apply elem_of_app; right; by left|done].
        -- unfold map_ref in Hc. rewrite lookup_insert_ne in Hc by done. destruct (Hst s Hs Hc) as (n' & t' & o & ? & ? & ?).
           exists n', t', o. rewrite elem_of_app. eauto.
  - injection Hrun as <-. split.
    + intros n' t' old' [Hin|[= -> ->]%list_elem_of_singleton]%elem_of_app Ho; [by apply (Htab n' t')|congruence].
    + intros s Hs Hc. destruct (Hst s Hs Hc) as (n' & t' & o & ? & ? & ?). exists n', t', o. rewrite elem_of_app. eauto.
Qed.

Lemma pinned_clusters_ok topo clusters :
  pinned_clusters prev tm topo = Some clusters → pinned topo (in_name_order tm.(tables)) clusters.
Proof.
  unfold pinned_clusters. assert (H : ∀ k l c, (∀ nt, nt ∈ l ++ k → tm.(tables) !! nt.1 = Some nt.2) → pinned topo l c →
    fold_left (λ st nt, pin_table prev tm nt st) k (Some c) = Some clusters → pinned topo (l ++ k) clusters).
  { induction k as [|[n t] k IH]; intros l c Hin Hp Hrun; cbn [fold_left] in Hrun.
    - injection Hrun as <-. by rewrite app_nil_r.
    - destruct (pin_table prev tm (n, t) (Some c)) as [c'|] eqn:E.
      + replace (l ++ (n, t) :: k) with ((l ++ [(n, t)]) ++ k) in * by by rewrite <- app_assoc. apply (IH _ c'); [done| |done].
        apply (pinned_step _ _ _ _ c); [|apply (Hin (n, t))|done|done].
        * intros nt Hnt. apply Hin. rewrite !elem_of_app. auto.
        * rewrite !elem_of_app. left. right. by left.
      + exfalso. clear -Hrun. induction k as [|nt k IH]; [done|]. by apply IH. }
  intros Hrun. apply (H _ [] _) in Hrun; [done| |apply pinned_start].
  intros [n t] Hnt. by apply elem_of_in_name_order.
Qed.

(** The processors are in the clusters of their stages. *)
Definition located (clusters : gmap Z Z) (st : option Placement) : Prop :=
  match st with
  | None => True
  | Some pl => ∀ i x, pl.(physical_proc_id) !! i = Some x → i / CLUSTER_PROC_COUNT = map_ref 0 clusters x
  end.

Lemma locate_fixed_ok space clusters s st st' :
  located clusters st → locate_fixed space clusters s st = Ok st' → located clusters st'.
Proof.
  destruct st as [pl|]; [|intros _ [= <-]; done]. intros Hl. unfold locate_fixed. set (i := map_ref 0 clusters s).
  destruct (Z.leb_spec 0 i); [|by intros [= <-]].
  intros (procs & [Hi Hprocs]%rd_ok_inv & Hrun)%bind_ok_inv. apply bind_ok_inv in Hrun as (room & _ & Hrun).
  destruct (takes pl _ i) eqn:Et; [|by injection Hrun as <-]. injection Hrun as <-. unfold takes in Et.
  apply andb_true_iff in Et as [[Hlt%Z.ltb_lt _]%andb_true_iff _]. unfold at_ in Hlt. rewrite (list_lookup_total_correct _ _ _ Hprocs) in Hlt.
  intros j x. cbn [physical_proc_id]. rewrite lookup_insert_Some. intros [[<- <-]|[_ Hj]]; [|by apply Hl].
  change CLUSTER_PROC_COUNT with 4 in *. pose proof (zlen_nonneg procs). fold i. dlia.
Qed.

(** The places that are taken are the first of their clusters, and every stage that has
    a cluster gets the next one. *)
Record places (pl : Placement) : Prop := {
  ps_len : zlen pl.(cluster_proc) = CLUSTER_COUNT;
  ps_taken : ∀ j x, pl.(physical_proc_id) !! j = Some x →
    0 ≤ j < PROC_COUNT ∧ j mod CLUSTER_PROC_COUNT < zlen (at_ pl.(cluster_proc) (j / CLUSTER_PROC_COUNT))
}.

Lemma locate_fixed_places space clusters s pl pl' :
  places pl → locate_fixed space clusters s (Some pl) = Ok (Some pl') →
  places pl' ∧ (∀ j x, pl.(physical_proc_id) !! j = Some x → pl'.(physical_proc_id) !! j = Some x) ∧
  (0 ≤ map_ref 0 clusters s → ∃ j, pl'.(physical_proc_id) !! j = Some s).
Proof.
  intros [Hlen Htaken] Hrun. unfold locate_fixed in Hrun. set (i := map_ref 0 clusters s) in *.
  destruct (Z.leb_spec 0 i); [|injection Hrun as <-; split; [by split|]; split; [done|lia]].
  apply bind_ok_inv in Hrun as (procs & Hprocs & Hrun). apply rd_ok_inv in Hprocs as [Hi Hprocs].
  apply bind_ok_inv in Hrun as (room & _ & Hrun). destruct (takes pl _ i) eqn:Et; [|done]. injection Hrun as <-.
  assert (Hat : at_ pl.(cluster_proc) i = procs) by (unfold at_; by rewrite (list_lookup_total_correct _ _ _ Hprocs)).
  apply andb_true_iff in Et as [[Hlt%Z.ltb_lt _]%andb_true_iff _]. rewrite Hat in Hlt. pose proof (zlen_nonneg procs).
  set (target := i * CLUSTER_PROC_COUNT + zlen procs). change CLUSTER_PROC_COUNT with 4 in *.
  change CLUSTER_COUNT with 4 in *. change PROC_COUNT with 16 in *.
  assert (Ht : target / 4 = i ∧ target mod 4 = zlen procs ∧ 0 ≤ target < 16) by (subst target; dlia). destruct Ht as (Ht1 & Ht2 & Ht3).
  split; [|split].
  - split; cbn [cluster_proc physical_proc_id]; [by rewrite zlen_insert|]. intros j x.
    change CLUSTER_PROC_COUNT with 4. change PROC_COUNT with 16. rewrite lookup_insert_Some. intros [[<- _]|[Hne Hj]].
    + split; [done|]. rewrite Ht1, Ht2, at_insert by lia. rewrite Z.eqb_refl, zlen_app. change (zlen [s]) with 1. lia.
    + destruct (Htaken j x Hj) as [Hj0 Hjm]. split; [done|]. rewrite at_insert by dlia.
      destruct (Z.eqb_spec i (j / 4)) as [E|]; [|done]. rewrite <- E, Hat in Hjm. rewrite zlen_app. pose proof (zlen_nonneg [s]). lia.
  - intros j x Hj. cbn [physical_proc_id]. rewrite lookup_insert_ne; [done|]. intros <-.
    destruct (Htaken _ _ Hj) as [_ Hm]. rewrite Ht1, Ht2, Hat in Hm. lia.
  - intros _. exists target. cbn [physical_proc_id]. apply lookup_insert_eq.
Qed.

Lemma locate_all space clusters topo pl pl' :
  places pl → for_each (locate_fixed space clusters) topo (Some pl) = Ok (Some pl') →
  places pl' ∧ (∀ j x, pl.(physical_proc_id) !! j = Some x → pl'.(physical_proc_id) !! j = Some x) ∧
  ∀ s, s ∈ topo → 0 ≤ map_ref 0 clusters s → ∃ j, pl'.(physical_proc_id) !! j = Some s.
Proof.
  revert pl. induction topo as [|s topo IH]; intros pl Hp Hrun; cbn [for_each] in Hrun.
  - injection Hrun as <-. split; [done|]. split; [done|]. by intros s ?%not_elem_of_nil.
  - apply bind_ok_inv in Hrun as ([pl1|] & H1 & Hrun).
    + destruct (locate_fixed_places _ _ _ _ _ Hp H1) as (Hp1 & Hm1 & Hs). destruct (IH _ Hp1 Hrun) as (Hp' & Hm & Hall).
      split; [done|]. split; [auto|]. intros x [->|Hx]%elem_of_cons Hc; [|auto]. destruct (Hs Hc) as [j Hj]. eauto.
    + exfalso. clear -Hrun. induction topo as [|s topo IH]; [done|]. by apply IH.
Qed.

Lemma locate_dynamic_ok clusters topo st pl :
  fold_left (λ st s, locate_dynamic clusters s st) topo st = Some pl →
  st = Some pl ∧ ∀ s, s ∈ topo → 0 ≤ map_ref 0 clusters s.
Proof.
  revert st. induction topo as [|s topo IH]; intros st Hrun; cbn [fold_left] in Hrun.
  - split; [done|]. by intros s ?%not_elem_of_nil.
  - apply IH in Hrun as [Hd Hall]. unfold locate_dynamic in Hd. destruct (Z.ltb_spec (map_ref 0 clusters s) 0); [done|].
    split; [done|]. intros x [->|Hx]%elem_of_cons; [done|by apply Hall].
Qed.

(** A pass over the tables in which the turn of a table changes no other one. *)
Lemma each_table {S} (body : string * IpsaTable → gmap string IpsaTable * S → res (gmap string IpsaTable * S))
    (F : IpsaTable → IpsaTable → IpsaTable) (P : IpsaTable → Prop) l st st' :
  (∀ nt st st' n, body nt st = Ok st' → n ≠ nt.1 → st'.1 !! n = st.1 !! n) →
  (∀ nt st st', P nt.2 → body nt st = Ok st' → st'.1 !! nt.1 = F nt.2 <$> st.1 !! nt.1) →
  NoDup l.*1 → for_each body l st = Ok st' →
  (∀ n, n ∉ l.*1 → st'.1 !! n = st.1 !! n) ∧ ∀ n t, (n, t) ∈ l → P t → st'.1 !! n = F t <$> st.1 !! n.
Proof.
  intros Hother Hown. revert st. induction l as [|nt l IH]; intros st Hnd Hrun; cbn [for_each fmap list_fmap] in *.
  - injection Hrun as <-. split; [done|]. by intros n t ?%not_elem_of_nil.
  - apply NoDup_cons in Hnd as [Hnew Hnd]. apply bind_ok_inv in Hrun as (st1 & Hb & Hrun).
    destruct (IH st1 Hnd Hrun) as [IH1 IH2]. split.
    + intros n [Hn1 Hn2]%not_elem_of_cons. rewrite IH1 by done. by apply (Hother nt).
    + intros n t [<-|Hin]%elem_of_cons HP.
      * cbn [fst] in *. rewrite IH1 by done. by apply (Hown (n, t)).
      * rewrite (IH2 n t Hin HP). f_equal. apply (Hother nt _ _ _ Hb). intros ->. apply Hnew.
        by apply (list_elem_of_fmap_2 fst _ (nt.1, t)).
Qed.

Definition kept_config (old t : IpsaTable) : IpsaTable :=
  push_configs old.(key_memory).(im_config) old.(value_memory).(im_config) t.

Lemma keep_table_other clusters nt st st' n :
  keep_table prev tm clusters nt st = Ok st' → n ≠ nt.1 → st'.1 !! n = st.1 !! n.
Proof.
  unfold keep_table. intros (bits & _ & Hrun)%bind_ok_inv Hn. destruct (old_table prev tm nt.2) as [old|]; [|by injection Hrun as <-].
  apply bind_ok_inv in Hrun as ([tcam sram] & _ & Hrun). apply bind_ok_inv in Hrun as (sram' & _ & [= <-]).
  cbn [fst]. by apply lookup_alter_ne.
Qed.

Lemma keep_table_own clusters old nt st st' :
  old_table prev tm nt.2 = Some old → keep_table prev tm clusters nt st = Ok st' →
  st'.1 !! nt.1 = kept_config old <$> st.1 !! nt.1.
Proof.
  unfold keep_table. intros Hold (bits & _ & Hrun)%bind_ok_inv. rewrite Hold in Hrun.
  apply bind_ok_inv in Hrun as ([tcam sram] & _ & Hrun). apply bind_ok_inv in Hrun as (sram' & _ & [= <-]).
  cbn [fst]. apply lookup_alter_eq.
Qed.

Lemma place_table_other clusters nt st st' n :
  place_table prev tm clusters nt st = Ok st' → n ≠ nt.1 → st'.1 !! n = st.1 !! n.
Proof.
  unfold place_table. intros (bits & _ & Hrun)%bind_ok_inv Hn. destruct (old_table prev tm nt.2) as [old|]; [by injection Hrun as <-|].
  apply bind_ok_inv in Hrun as ([key bits1] & _ & Hrun). apply bind_ok_inv in Hrun as ([value bits2] & _ & [= <-]).
  cbn [fst]. by apply lookup_alter_ne.
Qed.

Lemma place_table_old clusters old nt st st' :
  old_table prev tm nt.2 = Some old → place_table prev tm clusters nt st = Ok st' → st' = st.
Proof.
  unfold place_table. intros Hold (bits & _ & Hrun)%bind_ok_inv. rewrite Hold in Hrun. by injection Hrun.
Qed.
End kept.

(** C17. A program that replaces another and does not give up, its tables being new, with
    ids of their own, and those of the old program on processors: every stage of the
    order gets a processor, and it has a table that was there before, under the same
    name. Every table that was there before keeps its memory blocks, and wherever its
    stage is, it is on a processor of the cluster these blocks are in. *)
Theorem old_tables_kept prev tm stages topo phys tm' :
  tables_fresh tm → (∀ n t, lookup_table prev n = Some t → 0 ≤ t.(tb_proc_id)) →
  allocateMemory_after prev tm stages topo = Ok (Some (phys, tm')) →
  (∀ n t old, lookup_table tm n = Some t → lookup_table prev n = Some old →
     (∃ t', lookup_table tm' n = Some t' ∧
        t'.(key_memory).(im_config) = old.(key_memory).(im_config) ∧
        t'.(value_memory).(im_config) = old.(value_memory).(im_config)) ∧
     ∀ i, phys !! i = Some t.(tb_proc_id) → i / CLUSTER_PROC_COUNT = old.(tb_proc_id) / CLUSTER_PROC_COUNT) ∧
  ∀ s, s ∈ topo →
    (∃ i, 0 ≤ i < PROC_COUNT ∧ phys !! i = Some s) ∧
    ∃ n t old, lookup_table tm n = Some t ∧ t.(tb_proc_id) = s ∧ lookup_table prev n = Some old.
Proof.
  intros Hf Hprev Hrun. unfold allocateMemory_after in Hrun.
  destruct (pinned_clusters prev tm topo) as [clusters|] eqn:Hp; [|done]. apply (pinned_clusters_ok prev tm Hf Hprev) in Hp as [Htab Hst].
  apply bind_ok_inv in Hrun as (st & Hloc & Hrun). destruct (fold_left _ topo st) as [pl|] eqn:Hd; [|done].
  apply locate_dynamic_ok in Hd as [-> Hpos].
  assert (Hstart : places (mkPlacement Placement_init.(cluster_space) Placement_init.(cluster_proc) ∅))
    by (split; [done|cbn [physical_proc_id]; by intros j x ?%lookup_empty_Some]).
  destruct (locate_all _ _ _ _ _ Hstart Hloc) as (Hplaces & _ & Hall).
  apply (for_each_ok (located clusters)) in Hloc as [Hl _]; [|intros s st st' ?; by apply locate_fixed_ok|intros i x Hi; cbn in Hi; by apply lookup_empty_Some in Hi].
  apply bind_ok_inv in Hrun as ([ts maps] & Hkeep & Hrun). apply bind_ok_inv in Hrun as ([ts' maps'] & Hplace & [= <- <-]).
  cbn [lookup_table tables]. split.
  - intros n t old Ht Hold. pose proof (old_table_is prev tm Hf n t Ht) as Ho. rewrite Hold in Ho.
    assert (Hin : (n, t) ∈ in_name_order tm.(tables)) by by apply elem_of_in_name_order. split.
    + apply (each_table _ (λ t, match old_table prev tm t with Some old => kept_config old | None => λ t, t end)
        (λ t, is_Some (old_table prev tm t))) in Hkeep as [_ Hk]; [|apply keep_table_other| |apply NoDup_in_name_order].
      2: { intros nt st st' [o E] Hb. rewrite E. by apply (keep_table_own prev tm clusters o). }
      apply (each_table _ (λ _ t, t) (λ t, is_Some (old_table prev tm t))) in Hplace as [_ Hpl];
        [|apply place_table_other| |apply NoDup_in_name_order].
      2: { intros nt st st' [o E] Hb. rewrite (place_table_old prev tm clusters o _ _ _ E Hb). by destruct (st.1 !! nt.1). }
      specialize (Hk n t Hin ltac:(by eexists)). specialize (Hpl n t Hin ltac:(by eexists)). cbn [fst] in Hk, Hpl.
      rewrite Ho in Hk. rewrite Hk in Hpl. unfold lookup_table in Ht. rewrite Ht in Hpl. cbn in Hpl. eexists. split; [exact Hpl|].
      destruct (tf_new _ Hf n t Ht) as [Hk0 Hv0]. cbn. by rewrite Hk0, Hv0.
    + intros i Hi. rewrite (Hl i _ Hi), (Htab n t old Hin Ho). unfold old_cluster. apply Hprev in Hold.
      change CLUSTER_PROC_COUNT with 4. by rewrite Z.quot_div_nonneg by lia.
  - intros s Hs. split; [destruct (Hall s Hs (Hpos s Hs)) as [i Hi]; exists i; split; [by eapply ps_taken|done]|].
    destruct (Hst s Hs (Hpos s Hs)) as (n & t & old & Hin & Heq & Ho). apply elem_of_in_name_order in Hin.
    exists n, t, old. rewrite (old_table_is prev tm Hf n t Hin) in Ho. done.
Qed.

(** ** The theorem at a concrete input, and what goes wrong with new tables *)
Definition demo_old : TableManager := mkTableManager 1
  {["route"%string := push_configs [3] [4] (with_place 5 0 [] (demo_table 0 MT_EXACT MEM_SRAM 1 1 1))]}.
Definition demo_new : TableManager := mkTableManager 1 {["route"%string := demo_table 0 MT_EXACT MEM_SRAM 1 1 1]}.

Lemma old_tables_kept_witness :
  ∃ phys tm' t', allocateMemory_after demo_old demo_new [demo_stage 0 [0]] [0] = Ok (Some (phys, tm')) ∧
    lookup_table tm' "route"%string = Some t' ∧ t'.(key_memory).(im_config) = [3] ∧ t'.(value_memory).(im_config) = [4] ∧
    ∃ i, phys !! i = Some 0 ∧ i / CLUSTER_PROC_COUNT = 1.
Proof.
  assert (Hone : ∀ n t, demo_new.(tables) !! n = Some t → n = "route"%string ∧ t = demo_table 0 MT_EXACT MEM_SRAM 1 1 1)
    by (intros n t Ht; unfold demo_new in Ht; cbn [tables] in Ht; by apply lookup_singleton_Some in Ht as [<- <-]).
  destruct (allocateMemory_after demo_old demo_new [demo_stage 0 [0]] [0]) as [[[phys tm']|]|] eqn:E; [|vm_compute in E; discriminate..].
  destruct (old_tables_kept demo_old demo_new [demo_stage 0 [0]] [0] phys tm') as [H Hs].
  - split.
    + intros n n' t t' Hn Hn' _. destruct (Hone n t Hn) as [-> _]. by destruct (Hone n' t' Hn') as [-> _].
    + intros n t Ht. destruct (Hone n t Ht) as [_ ->]. split; reflexivity.
  - intros n t Ht. unfold lookup_table, demo_old in Ht. cbn [tables] in Ht. apply lookup_singleton_Some in Ht as [<- <-]. cbn. lia.
  - exact E.
  - destruct (H "route"%string (demo_table 0 MT_EXACT MEM_SRAM 1 1 1)
      (push_configs [3] [4] (with_place 5 0 [] (demo_table 0 MT_EXACT MEM_SRAM 1 1 1)))) as ((t' & Ht' & Hk & Hv) & Hi).
    + reflexivity.
    + reflexivity.
    + exists phys, tm', t'. split; [reflexivity|]. split; [exact Ht'|]. split; [exact Hk|]. split; [exact Hv|].
      destruct (Hs 0) as [(i & _ & Hphys) _]; [by left|]. exists i. split; [exact Hphys|]. exact (Hi i Hphys).
Defined.

(** New tables beside an old one: the blocks that are marked are not those that were
    found, so all memories of all new tables get the same block. *)
Lemma new_tables_share_a_block :
  ∃ phys tm', allocateMemory_after demo_old
      (mkTableManager 3 (<["acl"%string := demo_table 1 MT_EXACT MEM_SRAM 1 2 1]> (<["nat"%string := demo_table 2 MT_EXACT MEM_SRAM 1 1 1]> demo_new.(tables))))
      [demo_stage 0 [0; 1; 2]] [0] = Ok (Some (phys, tm')) ∧
    ((λ t, (t.(key_memory).(im_config), t.(value_memory).(im_config))) <$> lookup_table tm' "acl"%string) = Some ([0; 0], [0; 0]) ∧
    ((λ t, (t.(key_memory).(im_config), t.(value_memory).(im_config))) <$> lookup_table tm' "nat"%string) = Some ([0], [0]).
Proof. eexists _, _. split; [vm_compute; reflexivity|]. split; vm_compute; reflexivity. Qed.

(** The processors that are not given to a stage are not marked free: read, they are
    processors of stage 0. *)
Lemma free_processors_unmarked :
  ∃ phys tm', allocateMemory_after demo_old demo_new [demo_stage 0 [0]] [0] = Ok (Some (phys, tm')) ∧
    Forall (λ i, map_ref 0 phys i = 0) (seqZ 0 PROC_COUNT).
Proof. eexists _, _. split; [vm_compute; reflexivity|]. apply (bool_decide_unpack _). vm_compute. exact I. Qed.
