(* ===== verification/Json.v ===== *)
(** * The rP4 compiler: the printer of the output (ipsa_value.h, ipsa_module.h, ipsa_output.h)

    The output is a value of numbers, strings, lists and dictionaries, and is printed as
    JSON.  The second half of the file reads JSON texts, as far as they have neither
    fractions nor escapes, following the grammar of RFC 8259: what is printed is the
    text of the value. *)

From stdpp Require Import base numbers list strings pretty.
From Stdlib Require Import ZArith Lia Ascii.
From S2P Require Import Prelude TableKey.

#[local] Open Scope Z_scope.

(** ** Values; a dictionary is the list of its elements in the order of the map *)
Inductive IpsaValue : Set :=
| IpsaNull
| IpsaInteger (value : Z)
| IpsaString (value : string)
| IpsaList (value : list IpsaValue)
| IpsaDict (value : list (string * IpsaValue)).

Section value_ind.
Context (P : IpsaValue → Prop).
Context (Hnull : P IpsaNull) (Hint : ∀ n, P (IpsaInteger n)) (Hstr : ∀ s, P (IpsaString s)).
Context (Hlist : ∀ l, Forall P l → P (IpsaList l)) (Hdict : ∀ d, Forall (λ kv, P kv.2) d → P (IpsaDict d)).

Fixpoint value_ind (v : IpsaValue) : P v :=
  match v with
  | IpsaNull => Hnull
  | IpsaInteger n => Hint n
  | IpsaString s => Hstr s
  | IpsaList l => Hlist l ((fix go l : Forall P l :=
      match l with [] => Forall_nil_2 _ | v :: l => Forall_cons_2 _ _ _ (value_ind v) (go l) end) l)
  | IpsaDict d => Hdict d ((fix go d : Forall (λ kv, P kv.2) d :=
      match d with [] => Forall_nil_2 _ | kv :: d => Forall_cons_2 _ _ _ (value_ind kv.2) (go d) end) d)
  end.
End value_ind.

(** ** [IpsaOutput::emit] *)
Definition text (s : string) : chars := String.list_ascii_of_string s.
Definition quote : ascii := "034"%char.
Definition newline : ascii := "010"%char.
Definition quoted (s : string) : chars := quote :: text s ++ [quote].
Definition spaces (tab : nat) : chars := replicate tab " "%char.

(** [operator<<] of an int. *)
Definition integer (n : Z) : chars := if n <? 0 then "-"%char :: decimal (Z.to_N (- n)) else decimal (Z.to_N n).

(** The elements of a list, each on its line, with commas behind all but the last. *)
Fixpoint lines (ls : list chars) : chars :=
  match ls with
  | [] => []
  | [l] => l ++ [newline]
  | l :: ls => l ++ ","%char :: newline :: lines ls
  end.

Fixpoint emit_value (tab : nat) (v : IpsaValue) : chars :=
  match v with
  | IpsaNull => text "null"
  | IpsaInteger n => integer n
  | IpsaString s => quoted s
  | IpsaList [] => text "[]"
  | IpsaList l =>
      "["%char :: newline :: lines ((λ c, spaces (2 + tab) ++ emit_value (2 + tab) c) <$> l) ++ spaces tab ++ ["]"%char]
  | IpsaDict [] => text "{}"
  | IpsaDict d =>
      "{"%char :: newline :: lines ((λ c, spaces (2 + tab) ++ quoted c.1 ++ text " : " ++ emit_value (2 + tab) c.2) <$> d)
        ++ spaces tab ++ ["}"%char]
  end.

(** ** Reading *)
Definition json_space (c : ascii) : bool := let x := code c in (x =? 32) || (x =? 9) || (x =? 10) || (x =? 13).

Fixpoint skip_blanks (s : chars) : chars :=
  match s with c :: s' => if json_space c then skip_blanks s' else s | [] => [] end.

(** A character that stands for itself in a string. *)
Definition plain_char (c : ascii) : bool := (32 <=? code c) && negb (bool_decide (c = quote)) && negb (bool_decide (c = "\"%char)).

Fixpoint read_string (s : chars) : option (chars * chars) :=
  match s with
  | [] => None
  | c :: s =>
      if bool_decide (c = quote) then Some ([], s)
      else if plain_char c then '(k, r) ← read_string s; Some (c :: k, r)
      else None
  end.

Definition read_integer (s : chars) : option (Z * chars) :=
  let '(neg, s) := match s with "-"%char :: s' => (true, s') | _ => (false, s) end in
  match leading_digits s with
  | [] => None
  | ds => Some (if neg then - dec_value ds else dec_value ds, drop (length ds) s)
  end.

Fixpoint read_value (fuel : nat) (s : chars) : option (IpsaValue * chars) :=
  match fuel with
  | O => None
  | S fuel =>
      match skip_blanks s with
      | "n"%char :: "u"%char :: "l"%char :: "l"%char :: r => Some (IpsaNull, r)
      | "["%char :: r =>
          match skip_blanks r with
          | "]"%char :: r => Some (IpsaList [], r)
          | _ => '(l, r) ← read_elements fuel r; Some (IpsaList l, r)
          end
      | "{"%char :: r =>
          match skip_blanks r with
          | "}"%char :: r => Some (IpsaDict [], r)
          | _ => '(d, r) ← read_members fuel r; Some (IpsaDict d, r)
          end
      | c :: r =>
          if bool_decide (c = quote) then '(k, r) ← read_string r; Some (IpsaString (String.string_of_list_ascii k), r)
          else '(n, r) ← read_integer (c :: r); Some (IpsaInteger n, r)
      | [] => None
      end
  end
with read_elements (fuel : nat) (s : chars) : option (list IpsaValue * chars) :=
  match fuel with
  | O => None
  | S fuel =>
      '(v, r) ← read_value fuel s;
      match skip_blanks r with
      | ","%char :: r => '(l, r) ← read_elements fuel r; Some (v :: l, r)
      | "]"%char :: r => Some ([v], r)
      | _ => None
      end
  end
with read_members (fuel : nat) (s : chars) : option (list (string * IpsaValue) * chars) :=
  match fuel with
  | O => None
  | S fuel =>
      match skip_blanks s with
      | c :: r =>
          if bool_decide (c = quote) then
            '(k, r) ← read_string r;
            match skip_blanks r with
            | ":"%char :: r =>
                '(v, r) ← read_value fuel r;
                match skip_blanks r with
                | ","%char :: r => '(d, r) ← read_members fuel r; Some ((String.string_of_list_ascii k, v) :: d, r)
                | "}"%char :: r => Some ([(String.string_of_list_ascii k, v)], r)
                | _ => None
                end
            | _ => None
            end
          else None
      | [] => None
      end
  end.

(** A text; its length is enough fuel. *)
Definition read_json (s : chars) : option IpsaValue :=
  match read_value (S (length s)) s with
  | Some (v, r) => match skip_blanks r with [] => Some v | _ => None end
  | None => None
  end.

(** The value without what would need an escape. *)
Definition plain_string (s : string) : Prop := Forall (λ c, plain_char c = true) (text s).

Fixpoint plain (v : IpsaValue) : Prop :=
  match v with
  | IpsaNull | IpsaInteger _ => True
  | IpsaString s => plain_string s
  | IpsaList l => foldr (λ v P, plain v ∧ P) True l
  | IpsaDict d => foldr (λ kv P, (plain_string kv.1 ∧ plain kv.2) ∧ P) True d
  end.

(** ** What is printed is read back *)

(** What stands behind a value does not go on with a digit. *)
Definition ends (s : chars) : Prop := match s with [] => True | c :: _ => is_digit c = false end.

Lemma leading_digits_app ds s : Forall (λ c, is_digit c = true) ds → ends s → leading_digits (ds ++ s) = ds.
Proof.
  intros Hds Hs. induction Hds as [|c ds Hc _ IH]; cbn.
  - destruct s as [|c s]; [done|]. cbn in *. by rewrite Hs.
  - by rewrite Hc, IH.
Qed.

Ltac all_chars c := destruct c as [[] [] [] [] [] [] [] []].

Lemma digit_not_minus {X} c s (A : chars → X) (B : X) : is_digit c = true →
  match c :: s with "-"%char :: s' => A s' | _ => B end = B.
Proof. by all_chars c. Qed.

Lemma read_integer_spec n s : ends s → read_integer (integer n ++ s) = Some (n, s).
Proof.
  intros Hs. unfold integer, read_integer. destruct (Z.ltb_spec n 0) as [Hn|Hn].
  - destruct (decimal_digits (Z.to_N (- n))) as (Hd & Hv & Hne). cbn [app]. rewrite leading_digits_app by done.
    destruct (decimal (Z.to_N (- n))) as [|c ds]; [done|]. rewrite Hv, drop_app_length. do 2 f_equal. lia.
  - destruct (decimal_digits (Z.to_N n)) as (Hd & Hv & Hne). destruct (decimal (Z.to_N n)) as [|c ds] eqn:E; [done|].
    pose proof Hd as Hd'. apply Forall_cons in Hd' as [Hc _]. cbn [app]. rewrite (digit_not_minus c (ds ++ s) (λ s, (true, s))) by done.
    change (c :: ds ++ s) with ((c :: ds) ++ s). rewrite leading_digits_app by done. rewrite Hv, drop_app_length. do 2 f_equal. lia.
Qed.

Lemma read_string_spec s r : plain_string s → read_string (text s ++ quote :: r) = Some (text s, r).
Proof.
  unfold plain_string. intros Hs. induction Hs as [|c l Hc _ IH]; cbn; [done|].
  rewrite bool_decide_false; [by rewrite Hc, IH|]. intros ->. by vm_compute in Hc.
Qed.

Lemma text_back s : String.string_of_list_ascii (text s) = s.
Proof. apply String.string_of_list_ascii_of_string. Qed.

Lemma skip_spaces k s : skip_blanks (spaces k ++ s) = skip_blanks s.
Proof. induction k as [|k IH]; [done|exact IH]. Qed.

Lemma read_value_spaces fuel k s : read_value fuel (spaces k ++ s) = read_value fuel s.
Proof. destruct fuel as [|fuel]; [done|]. cbn [read_value]. by rewrite skip_spaces. Qed.

(** The character a value starts with. *)
Definition starts (c : ascii) : Prop :=
  c = "n"%char ∨ c = quote ∨ c = "["%char ∨ c = "{"%char ∨ c = "-"%char ∨ is_digit c = true.

Lemma emit_starts tab v : ∃ c s, emit_value tab v = c :: s ∧ starts c.
Proof.
  unfold starts. destruct v as [|n|s|[|v l]|[|kv d]]; try (eexists _, _; split; [reflexivity|]; tauto).
  cbn [emit_value]. unfold integer. destruct (n <? 0); [eexists _, _; split; [reflexivity|]; tauto|].
  destruct (decimal_digits (Z.to_N n)) as (Hd & _ & Hne). destruct (decimal (Z.to_N n)) as [|c ds]; [done|].
  apply Forall_cons in Hd as [Hc _]. exists c, ds. split; [done|]. tauto.
Qed.

Lemma starts_no_blank c s : starts c → skip_blanks (c :: s) = c :: s.
Proof. intros [->|[->|[->|[->|[->|Hd]]]]]; try done. by all_chars c. Qed.

Lemma starts_no_close {X} c s (A : chars → X) (B : X) : starts c →
  match c :: s with "]"%char :: r => A r | _ => B end = B.
Proof. intros [->|[->|[->|[->|[->|Hd]]]]]; try done. by all_chars c. Qed.

Lemma read_number fuel n s : ends s → read_value (S fuel) (integer n ++ s) = Some (IpsaInteger n, s).
Proof.
  intros Hs. pose proof (read_integer_spec n s Hs) as Hr.
  assert (Hc : ∃ c l, integer n ++ s = c :: l ∧ (c = "-"%char ∨ is_digit c = true)).
  { unfold integer. destruct (n <? 0); [eexists _, _; split; [reflexivity|by left]|].
    destruct (decimal_digits (Z.to_N n)) as (Hd & _ & Hne). destruct (decimal (Z.to_N n)) as [|c ds]; [done|].
    apply Forall_cons in Hd as [Hc _]. eexists _, _. split; [reflexivity|by right]. }
  destruct Hc as (c & l & He & Hc). rewrite He in *. cbn [read_value].
  assert (Hsk : skip_blanks (c :: l) = c :: l) by (destruct Hc as [->|Hc]; [done|by all_chars c]). rewrite Hsk.
  destruct Hc as [->|Hc]; [by rewrite Hr|]. all_chars c; try discriminate Hc; cbn [bool_decide]; rewrite Hr; reflexivity.
Qed.

(** The fuel a value takes. *)
Fixpoint vsize (v : IpsaValue) : nat :=
  match v with
  | IpsaList l => S (foldr (λ v n, S (vsize v + n)%nat) 0%nat l)
  | IpsaDict d => S (foldr (λ kv n, S (vsize kv.2 + n)%nat) 0%nat d)
  | _ => 1%nat
  end.

Definition reads (v : IpsaValue) : Prop := ∀ tab fuel s,
  plain v → (vsize v ≤ fuel)%nat → ends s → read_value fuel (emit_value tab v ++ s) = Some (v, s).

Lemma read_lines l t k fuel s :
  l ≠ [] → Forall reads l → plain (IpsaList l) → (foldr (λ v n, S (vsize v + n)%nat) 0%nat l ≤ fuel)%nat →
  read_elements fuel (lines ((λ c, spaces t ++ emit_value t c) <$> l) ++ spaces k ++ "]"%char :: s) = Some (l, s).
Proof.
  intros Hne Hall. revert fuel. induction Hall as [|v l Hv Hall IH]; intros fuel Hp Hf; [done|]. destruct Hp as [Hpv Hpl].
  cbn [foldr] in Hf. destruct fuel as [|fuel]; [lia|]. destruct l as [|v' l].
  - cbn [fmap list_fmap lines read_elements]. rewrite <- !app_assoc, read_value_spaces.
    rewrite Hv by (done || lia). cbn [mbind option_bind app]. cbn [skip_blanks]. change (json_space newline) with true. cbn iota.
    rewrite skip_spaces. done.
  - change (lines ((λ c, spaces t ++ emit_value t c) <$> v :: v' :: l)) with
      ((spaces t ++ emit_value t v) ++ ","%char :: newline :: lines ((λ c, spaces t ++ emit_value t c) <$> v' :: l)).
    cbn [read_elements]. rewrite <- !app_assoc, read_value_spaces.
    rewrite Hv by (done || lia). cbn [mbind option_bind app]. change (skip_blanks (","%char :: ?r)) with (","%char :: r). cbn iota.
    assert (Hnl : ∀ fuel r, read_elements fuel (newline :: r) = read_elements fuel r) by (intros [|[|f]] r; reflexivity).
    rewrite Hnl. rewrite IH by (done || lia). done.
Qed.

Definition member_line (t : nat) (c : string * IpsaValue) : chars := spaces t ++ quoted c.1 ++ text " : " ++ emit_value t c.2.

Lemma read_member_line t c fuel r s :
  plain_string c.1 → plain c.2 → reads c.2 → (vsize c.2 ≤ fuel)%nat → ends s →
  member_line t c ++ s = r →
  read_members (S fuel) r = match skip_blanks s with
    | ","%char :: r => '(d, r) ← read_members fuel r; Some (c :: d, r)
    | "}"%char :: r => Some ([c], r)
    | _ => None
    end.
Proof.
  intros Hk Hp Hv Hf Hs <-. unfold member_line. destruct c as [k v]. cbn [fst snd] in *.
  cbn [read_members]. rewrite <- !app_assoc, skip_spaces. unfold quoted. cbn [app].
  change (skip_blanks (quote :: ?l)) with (quote :: l). cbn iota.
  rewrite bool_decide_true by done. rewrite <- app_assoc. cbn [app]. rewrite read_string_spec by done. cbn [mbind option_bind app].
  change (text " : ") with (spaces 1 ++ ":"%char :: spaces 1). rewrite <- !app_assoc, skip_spaces. cbn [app].
  change (skip_blanks (":"%char :: ?l)) with (":"%char :: l). cbn iota.
  rewrite read_value_spaces, Hv by (done || lia). cbn [mbind option_bind]. rewrite text_back. done.
Qed.

Lemma read_member_lines d t k fuel s :
  d ≠ [] → Forall (λ kv, reads kv.2) d → plain (IpsaDict d) → (foldr (λ kv n, S (vsize kv.2 + n)%nat) 0%nat d ≤ fuel)%nat →
  read_members fuel (lines (member_line t <$> d) ++ spaces k ++ "}"%char :: s) = Some (d, s).
Proof.
  intros Hne Hall. revert fuel. induction Hall as [|c d Hv Hall IH]; intros fuel Hp Hf; [done|]. destruct Hp as [[Hpk Hpv] Hpd].
  cbn [foldr] in Hf. destruct fuel as [|fuel]; [lia|]. destruct d as [|c' d].
  - cbn [fmap list_fmap lines]. rewrite (read_member_line t c fuel _ (newline :: spaces k ++ "}"%char :: s)); try done; [|lia|by rewrite <- app_assoc].
    change (skip_blanks (newline :: ?l)) with (skip_blanks l). by rewrite skip_spaces.
  - change (lines (member_line t <$> c :: c' :: d)) with
      (member_line t c ++ ","%char :: newline :: lines (member_line t <$> c' :: d)).
    rewrite (read_member_line t c fuel _ (","%char :: newline :: lines (member_line t <$> c' :: d) ++ spaces k ++ "}"%char :: s));
      try done; [|lia|by rewrite <- app_assoc].
    change (skip_blanks (","%char :: ?r)) with (","%char :: r). cbn iota.
    assert (Hnl : ∀ fuel r, read_members fuel (newline :: r) = read_members fuel r) by (intros [|f] r; reflexivity).
    rewrite Hnl, IH by (done || lia). done.
Qed.

Lemma plain_elements l : plain (IpsaList l) → Forall plain l.
Proof. induction l as [|v l IH]; [constructor|]. intros [? ?]. constructor; [done|by apply IH]. Qed.

Lemma skip_line t v r : skip_blanks (newline :: (spaces t ++ emit_value t v) ++ r) = emit_value t v ++ r.
Proof.
  change (skip_blanks (newline :: ?l)) with (skip_blanks l). rewrite <- !app_assoc, skip_spaces.
  destruct (emit_starts t v) as (c & s & -> & Hc). by apply (starts_no_blank c (s ++ r)).
Qed.

Lemma lines_head ls l : ∃ r, lines (l :: ls) = l ++ r.
Proof. destruct ls; by eexists. Qed.

Lemma emit_reads v : reads v.
Proof.
  induction v as [|n|str|l Hl|d Hd] using value_ind; intros tab fuel s Hp Hf Hs; destruct fuel as [|fuel]; try (cbn in Hf; lia).
  - reflexivity.
  - by apply read_number.
  - cbn [emit_value read_value]. unfold quoted. cbn [app]. change (skip_blanks (quote :: ?l)) with (quote :: l). cbn iota.
    rewrite bool_decide_true by done. rewrite <- app_assoc. cbn [app]. rewrite read_string_spec by done. cbn [mbind option_bind app].
    by rewrite text_back.
  - destruct l as [|v l]; [reflexivity|]. cbn [emit_value]. set (ls := lines _). cbn [read_value app].
    change (skip_blanks ("["%char :: ?r)) with ("["%char :: r). cbn iota. rewrite <- !app_assoc. cbn [app].
    assert (Hopen : ∀ X (A : chars → X) (B : X),
      match skip_blanks (newline :: ls ++ spaces tab ++ "]"%char :: s) with "]"%char :: r => A r | _ => B end = B).
    { intros X A B. unfold ls. rewrite fmap_cons. destruct (lines_head ((λ c, spaces (2 + tab) ++ emit_value (2 + tab) c) <$> l)
        (spaces (2 + tab) ++ emit_value (2 + tab) v)) as [r Hr]. rewrite Hr, <- app_assoc, skip_line.
      destruct (emit_starts (2 + tab) v) as (c & s' & -> & Hc). by apply starts_no_close. }
    rewrite Hopen. assert (Hnl : ∀ fuel r, read_elements fuel (newline :: r) = read_elements fuel r) by (intros [|[|f]] r; reflexivity).
    rewrite Hnl. unfold ls. rewrite read_lines; [done|done|done|done|]. cbn [vsize] in Hf. lia.
  - destruct d as [|c d]; [reflexivity|]. cbn [emit_value]. change (λ c, spaces (2 + tab) ++ quoted c.1 ++ text " : " ++ emit_value (2 + tab) c.2)
      with (member_line (2 + tab)). set (ls := lines _). cbn [read_value app].
    change (skip_blanks ("{"%char :: ?r)) with ("{"%char :: r). cbn iota. rewrite <- !app_assoc. cbn [app].
    assert (Hopen : ∀ X (A : chars → X) (B : X),
      match skip_blanks (newline :: ls ++ spaces tab ++ "}"%char :: s) with "}"%char :: r => A r | _ => B end = B).
    { intros X A B. unfold ls. rewrite fmap_cons. destruct (lines_head (member_line (2 + tab) <$> d) (member_line (2 + tab) c)) as [r Hr].
      rewrite Hr. unfold member_line. change (skip_blanks (newline :: ?l)) with (skip_blanks l).
      rewrite <- !app_assoc, skip_spaces. reflexivity. }
    rewrite Hopen. assert (Hnl : ∀ fuel r, read_members fuel (newline :: r) = read_members fuel r) by (intros [|f] r; reflexivity).
    rewrite Hnl. unfold ls. rewrite read_member_lines; [done|done|done|done|]. cbn [vsize] in Hf. lia.
Qed.

(** The length of a text is enough fuel. *)
Lemma lines_length {A} (f : A → nat) (g : A → chars) l :
  Forall (λ x, (f x ≤ length (g x))%nat) l → (foldr (λ x n, S (f x + n)%nat) 0%nat l ≤ length (lines (g <$> l)))%nat.
Proof.
  induction 1 as [|x l Hx Hl IH]; [cbn; lia|]. destruct l as [|y l].
  - cbn. rewrite length_app. cbn. lia.
  - change (lines (g <$> x :: y :: l)) with (g x ++ ","%char :: newline :: lines (g <$> y :: l)).
    rewrite length_app. cbn [length foldr] in *. lia.
Qed.

Lemma vsize_length v tab : (vsize v ≤ length (emit_value tab v))%nat.
Proof.
  revert tab. induction v as [|n|str|l Hl|d Hd] using value_ind; intros tab.
  - cbn. lia.
  - destruct (emit_starts tab (IpsaInteger n)) as (c & s & -> & _). cbn. lia.
  - cbn. lia.
  - pose proof (lines_length vsize (λ c, spaces (2 + tab) ++ emit_value (2 + tab) c) l) as Hlen.
    destruct l as [|v l]; [cbn; lia|]. cbn [emit_value vsize]. rewrite !length_cons, !length_app.
    assert (Forall (λ x, (vsize x ≤ length (spaces (2 + tab) ++ emit_value (2 + tab) x))%nat) (v :: l)) as Hall; [|specialize (Hlen Hall); lia].
    eapply Forall_impl; [exact Hl|]. intros x Hx. rewrite length_app. specialize (Hx (2 + tab)%nat). lia.
  - pose proof (lines_length (λ kv, vsize kv.2) (member_line (2 + tab)) d) as Hlen.
    destruct d as [|c d]; [cbn; lia|]. cbn [emit_value vsize]. rewrite !length_cons, !length_app. fold (member_line (2 + tab)).
    assert (Forall (λ kv, (vsize kv.2 ≤ length (member_line (2 + tab) kv))%nat) (c :: d)) as Hall; [|specialize (Hlen Hall); lia].
    eapply Forall_impl; [exact Hd|]. intros x Hx. unfold member_line. rewrite !length_app. specialize (Hx (2 + tab)%nat). lia.
Qed.

Lemma read_printed tab v : plain v → read_json (emit_value tab v) = Some v.
Proof.
  intros Hp. unfold read_json. rewrite <- (app_nil_r (emit_value tab v)) at 2.
  rewrite (emit_reads v tab _ [] Hp); [done| |done]. pose proof (vsize_length v tab). lia.
Qed.

(** C28. The output is JSON: the text that is printed for a value of numbers, strings,
    lists and dictionaries is read, by the grammar of JSON, as this value again, if its
    strings have no characters that JSON writes with an escape; the code never writes
    one.  So no other value has this text, at whatever indentation. *)
Theorem printed_value_read v : plain v →
  read_json (emit_value 0 v) = Some v ∧ ∀ tab w, plain w → emit_value tab w = emit_value 0 v → w = v.
Proof.
  intros Hp. split; [by apply read_printed|]. intros tab w Hw He. apply read_printed with (tab := tab) in Hw.
  rewrite He, read_printed in Hw by done. congruence.
Qed.

Lemma printed_value_read_witness :
  let v := IpsaDict [("levels", IpsaList []); ("parser_level", IpsaInteger (-1))]%string in
  read_json (emit_value 0 v) = Some v ∧ ∀ tab w, plain w → emit_value tab w = emit_value 0 v → w = v.
Proof. apply printed_value_read. cbn. unfold plain_string. repeat split; apply (bool_decide_unpack _); vm_compute; exact I. Defined.

(** A quotation mark in a name would end its string. *)
Lemma quote_not_escaped : read_json (emit_value 0 (IpsaString (String quote EmptyString))) = None.
Proof. vm_compute. reflexivity. Qed.
