(* ===== verification/File.v ===== *)
(** * The file between compiler and controller (toIpsaValue; ctrl_init_dataplane.h)

    The compiler turns its objects into values and prints them (Json.v); the controller
    takes the members it needs out of what it reads.  The theorem at the end shows that
    this gives the values of the objects: what is written under a name is read under the
    same name. *)

From stdpp Require Import base numbers list gmap strings pretty sorting.
From Stdlib Require Import ZArith Lia Ascii.
From S2P Require Import Prelude Configure Headers Actions Tables Stages Levels Gateways TableKey Output Builder Json.

#[local] Open Scope Z_scope.
Import ipsa_configuration.

(** ** Writing: [toIpsaValue]; the members are in the order of their names *)
Definition ints (l : list Z) : IpsaValue := IpsaList (IpsaInteger <$> l).

Definition field_value (f : IpsaHeaderField) : IpsaValue :=
  IpsaDict [("field_internal_offset", IpsaInteger f.(ihf_offset)); ("field_length", IpsaInteger f.(ihf_length));
            ("header_id", IpsaInteger f.(ihf_header_id)); ("type", IpsaString (field_type_string f.(ihf_type)))]%string.

Definition tcam_value (e : IpsaParserTcamEntry) : IpsaValue :=
  IpsaDict [("current_state", IpsaInteger e.(lt_current_state)); ("entry", IpsaInteger e.(lt_entry));
            ("mask", IpsaInteger e.(lt_mask))]%string.
Definition sram_value (e : IpsaParserSramEntry) : IpsaValue :=
  IpsaDict [("accept_drop", IpsaInteger e.(ls_accept_drop)); ("header_id", IpsaInteger e.(ls_header_id));
            ("header_length", IpsaInteger e.(ls_header_length)); ("next_state", IpsaInteger e.(ls_next_state));
            ("transition_field_num", IpsaInteger (zlen e.(ls_transition_fields)));
            ("transition_fields", IpsaList (field_value <$> e.(ls_transition_fields)))]%string.
Definition level_entry_value (e : IpsaLevelEntry) : IpsaValue :=
  IpsaDict [("parser_sram_entry", sram_value e.(le_sram)); ("parser_tcam_entry", tcam_value e.(le_tcam))]%string.
Definition level_value (l : IpsaLevel) : IpsaValue := IpsaList (level_entry_value <$> l).

(** A field that was not found and an operand that is missing are written as null. *)
Fixpoint operand_tree (hm : HeaderManager) (o : IpsaOperand) : res IpsaValue :=
  match o with
  | IpsaConstant n => mret (IpsaDict [("type", IpsaString "CONST"); ("value", IpsaInteger n)]%string)
  | IpsaParameter i => mret (IpsaDict [("type", IpsaString "PARAM"); ("value", IpsaInteger i)]%string)
  | IpsaField None => mret (IpsaDict [("type", IpsaString "FIELD"); ("value", IpsaNull)]%string)
  | IpsaField r => f ← deref_field hm r; mret (IpsaDict [("type", IpsaString "FIELD"); ("value", field_value f)]%string)
  | IpsaExpression op l r =>
      l ← match l with Some l => operand_tree hm l | None => mret IpsaNull end;
      r ← match r with Some r => operand_tree hm r | None => mret IpsaNull end;
      mret (IpsaDict [("type", IpsaString "EXPR");
        ("value", IpsaDict [("left", l); ("op", IpsaString (operator_string op)); ("right", r)])]%string)
  end.

Definition expression_value (hm : HeaderManager) (e : Rp4Operator * option IpsaOperand * option IpsaOperand) : res IpsaValue :=
  operand_tree hm (IpsaExpression e.1.1 e.1.2 e.2).

Definition gateway_entry_value (e : IpsaGatewayEntry) : IpsaValue :=
  match e with
  | GatewayTable _ matcher_id => IpsaDict [("type", IpsaString "TABLE"); ("value", IpsaInteger matcher_id)]%string
  | GatewayStage stage_id => IpsaDict [("type", IpsaString "STAGE"); ("value", IpsaInteger stage_id)]%string
  end.
Definition next_entry_value (be : Z * IpsaGatewayEntry) : IpsaValue :=
  IpsaDict [("bitmap", IpsaInteger be.1); ("value", gateway_entry_value be.2)]%string.

Definition default_value (g : IpsaGateway) : res IpsaValue :=
  match g.(gw_default) with
  | NoDefault => Fault NullDeref
  | OwnDefault e => mret (gateway_entry_value e)
  | FirstDefault => be ← rd g.(gw_entries) 0; mret (gateway_entry_value be.2)
  end.

Definition gateway_value (hm : HeaderManager) (g : IpsaGateway) : res IpsaValue :=
  es ← collect (expression_value hm) g.(gw_expressions);
  d ← default_value g;
  mret (IpsaDict [("expressions", IpsaList es);
    ("next_table", IpsaDict [("default", d); ("entries", IpsaList (next_entry_value <$> g.(gw_entries)))])]%string).

Definition memory_type_string (t : IpsaMemoryType) : string := match t with MEM_TCAM => "TCAM" | MEM_SRAM => "SRAM" end.
Definition key_memory_value (m : IpsaMem) : IpsaValue :=
  IpsaDict [("config", ints m.(im_config)); ("depth", IpsaInteger m.(im_depth));
            ("type", IpsaString (memory_type_string m.(im_type))); ("width", IpsaInteger m.(im_width))]%string.
Definition value_memory_value (m : IpsaMem) : IpsaValue :=
  IpsaDict [("config", ints m.(im_config)); ("width", IpsaInteger m.(im_width))]%string.
Definition action_proc_value (ap : Z * Z) : IpsaValue :=
  IpsaDict [("action_id", IpsaInteger ap.1); ("proc_id", IpsaInteger ap.2)]%string.
Definition table_value (t : IpsaTable) : IpsaValue :=
  IpsaDict [("action_to_proc", IpsaList (action_proc_value <$> t.(action_to_proc)));
            ("field_infos", IpsaList (field_value <$> t.(field_infos))); ("id", IpsaInteger t.(tb_id));
            ("key_memory", key_memory_value t.(key_memory)); ("match_type", IpsaString (match_type_string t.(tb_match_type)));
            ("miss_action_id", IpsaInteger t.(tb_miss_action_id)); ("no_table", IpsaInteger t.(tb_no_table));
            ("value_memory", value_memory_value t.(value_memory))]%string.

Definition assign_value (hm : HeaderManager) (a : IpsaAssign) : res IpsaValue :=
  f ← deref_field hm a.(as_lvalue);
  match a.(as_rvalue) with
  | None => Fault NullDeref
  | Some o => v ← operand_tree hm o; mret (IpsaDict [("lvalue", field_value f); ("rvalue", v)]%string)
  end.
Definition action_value (hm : HeaderManager) (a : IpsaAction) : res IpsaValue :=
  ps ← collect (assign_value hm) a.(ac_primitives);
  mret (IpsaDict [("action_parameters_lengths", ints a.(ac_parameters_lengths)); ("id", IpsaInteger a.(ac_id));
    ("parameter_num", IpsaInteger a.(ac_parameter_num)); ("primitives", IpsaList ps)]%string).

Definition metadata_entry_value (m : Z * Z * Z) : IpsaValue :=
  let '(id, offset, length) := m in
  IpsaDict [("id", IpsaInteger id); ("length", IpsaInteger length); ("offset", IpsaInteger offset)]%string.
Definition metadata_value (hm : HeaderManager) : IpsaValue := IpsaList (metadata_entry_value <$> hm.(metadata)).

(** What a pointer of a processor points to. *)
Definition deref_table (tm : TableManager) (p : option string) : res IpsaTable :=
  match p with
  | None => Fault NullDeref
  | Some name => match lookup_table tm name with Some t => mret t | None => Fault UseAfterFree end
  end.
Definition deref_action (am : ActionManager) (p : option string) : res IpsaAction :=
  match p with
  | None => Fault NullDeref
  | Some name => match lookup_action am name with Some a => mret a | None => Fault UseAfterFree end
  end.
Definition deref_gateway (gs : list IpsaGateway) (g : ProcGateway) : res IpsaGateway :=
  match g with NoGateway => Fault NullDeref | StageGateway i => rd gs i | OwnGateway g => mret g end.

Definition processor_value (b : IpsaBuilder) (p : IpsaProcessor) : res IpsaValue :=
  g ← deref_gateway b.(gateways) p.(ip_gateway);
  g ← gateway_value b.(header_manager) g;
  ts ← collect (deref_table b.(table_manager)) p.(ip_matcher);
  acts ← collect (λ a, a ← deref_action b.(action_manager) a; action_value b.(header_manager) a) p.(ip_executor);
  mret (IpsaDict [("executor", IpsaList acts); ("gateway", g); ("id", IpsaInteger p.(ip_id));
    ("matcher", IpsaList (table_value <$> ts));
    ("parser", IpsaDict [("levels", IpsaList (level_value <$> p.(ip_levels))); ("parser_level", IpsaInteger p.(ip_parser_level))])]%string).

(** The name of a processor in the file. *)
Definition processor_key (i : Z) : string := ("processor_" +:+ pretty i)%string.

Definition slot_value (b : IpsaBuilder) (i : Z) : res (string * IpsaValue) :=
  p ← rd b.(processors) i;
  v ← match p with None => mret IpsaNull | Some p => processor_value b p end;
  mret (processor_key i, v).

(** [std::map]: the names in their order. *)
Definition ipsa_value (b : IpsaBuilder) : res IpsaValue :=
  ps ← collect (slot_value b) (seqZ 0 PROC_COUNT);
  mret (IpsaDict (merge_sort name_le (("is_incremental"%string, IpsaInteger b.(is_incremental)) ::
    ("metadata"%string, metadata_value b.(header_manager)) :: ps))).

(** ** Reading: a member or an element that is not there, or of another type, throws *)
Definition at_member (k : string) (v : IpsaValue) : res IpsaValue :=
  match v with
  | IpsaDict d => match list_find (λ kv, kv.1 = k) d with Some (_, kv) => Ok kv.2 | None => Fault Thrown end
  | _ => Fault Thrown
  end.
Definition contains (k : string) (v : IpsaValue) : bool := is_ok (at_member k v).
Definition get_int (v : IpsaValue) : res Z := match v with IpsaInteger n => Ok n | _ => Fault Thrown end.
Definition get_str (v : IpsaValue) : res string := match v with IpsaString s => Ok s | _ => Fault Thrown end.
Definition int_at (k : string) (v : IpsaValue) : res Z := x ← at_member k v; get_int x.
Definition string_at (k : string) (v : IpsaValue) : res string := x ← at_member k v; get_str x.

(** What a loop over a value visits: null has no elements, and a number or a string is
    its own. *)
Definition elements (v : IpsaValue) : list IpsaValue :=
  match v with IpsaNull => [] | IpsaList l => l | IpsaDict d => d.*2 | v => [v] end.
Definition each_at {A} (f : IpsaValue → res A) (k : string) (v : IpsaValue) : res (list A) :=
  l ← at_member k v; collect f (elements l).

Definition read_field (v : IpsaValue) : res FieldJson :=
  header_id ← int_at "header_id" v;
  off ← int_at "field_internal_offset" v;
  len ← int_at "field_length" v;
  type ← string_at "type" v;
  mret (mkFieldJson header_id off len type).

Definition read_parser_entry (v : IpsaValue) : res ParserEntryJson :=
  tcam ← at_member "parser_tcam_entry" v;
  current_state ← int_at "current_state" tcam;
  entry ← int_at "entry" tcam;
  mask ← int_at "mask" tcam;
  sram ← at_member "parser_sram_entry" v;
  header_id ← int_at "header_id" sram;
  header_length ← int_at "header_length" sram;
  next_state ← int_at "next_state" sram;
  transition_field_num ← int_at "transition_field_num" sram;
  miss_act ← int_at "accept_drop" sram;
  fds ← each_at read_field "transition_fields" sram;
  mret (mkParserEntryJson current_state entry mask header_id header_length next_state transition_field_num miss_act fds).

Definition read_parser (v : IpsaValue) : res ParserJson :=
  parser_level ← int_at "parser_level" v;
  levels ← each_at (λ level, collect read_parser_entry (elements level)) "levels" v;
  mret (mkParserJson parser_level levels).

(** An operand of a gateway: of a parameter and of an expression only the type is read;
    a type that is not known is that of a constant. *)
Definition read_gate_param (v : IpsaValue) : res JValue :=
  type ← string_at "type" v;
  if bool_decide (type = "FIELD"%string) then x ← at_member "value" v; f ← read_field x; mret (JField f)
  else if bool_decide (type = "PARAM"%string) then mret (JParam 0)
  else if bool_decide (type = "EXPR"%string) then mret (JExpr "")
  else n ← int_at "value" v; mret (JConst n).

Definition read_expression (v : IpsaValue) : res ExprJson :=
  value ← at_member "value" v;
  op ← string_at "op" value;
  left ← (l ← at_member "left" value; read_gate_param l);
  right ← (r ← at_member "right" value; read_gate_param r);
  mret (mkExprJson op left right).

Definition read_gate_entry (v : IpsaValue) : res EntryJson :=
  type ← string_at "type" v;
  value ← int_at "value" v;
  mret (mkEntryJson type value).

Definition read_gateway (v : IpsaValue) : res GatewayJson :=
  exprs ← each_at read_expression "expressions" v;
  next_table ← at_member "next_table" v;
  dflt ← (d ← at_member "default" next_table; read_gate_entry d);
  entries ← each_at (λ e, bitmap ← int_at "bitmap" e; value ← at_member "value" e; g ← read_gate_entry value; mret (bitmap, g))
              "entries" next_table;
  mret (mkGatewayJson exprs dflt entries).

Definition read_table (v : IpsaValue) : res MatcherJson :=
  matcher_id ← int_at "id" v;
  miss_act_id ← int_at "miss_action_id" v;
  no_table ← int_at "no_table" v;
  mt ← string_at "match_type" v;
  key_memory ← at_member "key_memory" v;
  depth ← int_at "depth" key_memory;
  key_width ← int_at "width" key_memory;
  key_config ← each_at get_int "config" key_memory;
  value_memory ← at_member "value_memory" v;
  value_width ← int_at "width" value_memory;
  value_config ← each_at get_int "config" value_memory;
  action_proc ← each_at (λ ap, a ← int_at "action_id" ap; p ← int_at "proc_id" ap; mret (a, p)) "action_to_proc" v;
  fds ← each_at read_field "field_infos" v;
  mret (mkMatcherJson matcher_id miss_act_id no_table mt depth key_width key_config value_width value_config action_proc fds).

(** [build_exp_tree]; [fuel] is the depth of the value. *)
Fixpoint read_tree (fuel : nat) (v : IpsaValue) : res JTree :=
  match fuel with
  | O => Fault Thrown
  | S fuel =>
      type ← string_at "type" v;
      value ← at_member "value" v;
      node ← (if bool_decide (type = "EXPR"%string) then op ← string_at "op" value; mret (JExpr op)
              else if bool_decide (type = "FIELD"%string) then f ← read_field value; mret (JField f)
              else if bool_decide (type = "PARAM"%string) then n ← get_int value; mret (JParam n)
              else n ← get_int value; mret (JConst n));
      l ← (if contains "left" value then c ← at_member "left" value; read_tree fuel c else mret JNone);
      r ← (if contains "right" value then c ← at_member "right" value; read_tree fuel c else mret JNone);
      mret (JNode node l r)
  end.

Definition read_action (v : IpsaValue) : res ActionJson :=
  action_id ← int_at "id" v;
  parameter_num ← int_at "parameter_num" v;
  lengths ← each_at get_int "action_parameters_lengths" v;
  prims ← each_at (λ p,
    lvalue ← (l ← at_member "lvalue" p; read_field l);
    root ← (r ← at_member "rvalue" p; read_tree (vsize r) r);
    mret (lvalue, root)) "primitives" v;
  mret (mkActionJson action_id parameter_num lengths prims).

Definition read_meta (v : IpsaValue) : res MetaJson :=
  id ← int_at "id" v; len ← int_at "length" v; off ← int_at "offset" v;
  mret (mkMetaJson id len off).

Definition read_processor (v : IpsaValue) : res ProcessorJson :=
  _ ← int_at "id" v;
  parser ← (x ← at_member "parser" v; read_parser x);
  gateway ← (x ← at_member "gateway" v; read_gateway x);
  matcher ← each_at read_table "matcher" v;
  executor ← each_at read_action "executor" v;
  mret (mkProcessorJson parser gateway matcher executor).

Definition read_slot (p : IpsaValue) : res (option ProcessorJson) :=
  match p with IpsaNull => mret None | p => x ← read_processor p; mret (Some x) end.

(** The members the controller looks at.  The code makes its calls while it reads, and
    reads the metadata again for every processor; here the whole file is read before the
    first call, and its metadata once (also if all processors are null, where the code
    does not look at it). *)
Definition read_config (v : IpsaValue) : res ConfigJson :=
  ps ← collect (λ i, p ← at_member (processor_key i) v; read_slot p) (seqZ 0 16);
  metadata ← each_at read_meta "metadata" v;
  mret (mkConfigJson ps metadata).

(** ** What the controller should read: the values of the objects *)

(** An operand as the controller reads it for a gateway: of a parameter and of an
    expression only the type; of a missing operand and of a missing field nothing is
    there. *)
Definition operand_value (hm : HeaderManager) (o : option IpsaOperand) : res JValue :=
  match o with
  | Some (IpsaConstant n) => mret (JConst n)
  | Some (IpsaParameter _) => mret (JParam 0)
  | Some (IpsaField None) | None => Fault Thrown
  | Some (IpsaField r) => f ← deref_field hm r; mret (JField (field_json f))
  | Some o => _ ← operand_tree hm o; mret (JExpr "")
  end.

Definition expression_json (hm : HeaderManager) (e : Rp4Operator * option IpsaOperand * option IpsaOperand) : res ExprJson :=
  l ← operand_value hm e.1.2;
  r ← operand_value hm e.2;
  mret (mkExprJson (operator_string e.1.1) l r).

Definition gateway_entry_json (e : IpsaGatewayEntry) : EntryJson :=
  match e with
  | GatewayTable _ matcher_id => mkEntryJson "TABLE" matcher_id
  | GatewayStage stage_id => mkEntryJson "STAGE" stage_id
  end.

Definition default_json (g : IpsaGateway) : res EntryJson :=
  match g.(gw_default) with
  | NoDefault => Fault NullDeref
  | OwnDefault e => mret (gateway_entry_json e)
  | FirstDefault => be ← rd g.(gw_entries) 0; mret (gateway_entry_json be.2)
  end.

Definition gateway_json (hm : HeaderManager) (g : IpsaGateway) : res GatewayJson :=
  es ← collect (expression_json hm) g.(gw_expressions);
  d ← default_json g;
  mret (mkGatewayJson es d ((λ be, (be.1, gateway_entry_json be.2)) <$> g.(gw_entries))).

Definition processor_json (b : IpsaBuilder) (p : IpsaProcessor) : res ProcessorJson :=
  g ← deref_gateway b.(gateways) p.(ip_gateway);
  g ← gateway_json b.(header_manager) g;
  ts ← collect (deref_table b.(table_manager)) p.(ip_matcher);
  acts ← collect (λ a, a ← deref_action b.(action_manager) a; action_json b.(header_manager) a) p.(ip_executor);
  let levels := (λ l : IpsaLevel, level_entry_json <$> l) <$> p.(ip_levels) in
  mret (mkProcessorJson (mkParserJson p.(ip_parser_level) levels) g (table_json <$> ts) acts).

Definition slot_json (b : IpsaBuilder) (p : option IpsaProcessor) : res (option ProcessorJson) :=
  match p with None => mret None | Some p => j ← processor_json b p; mret (Some j) end.

(** The file: [is_incremental] is written, and not read by the controller. *)
Definition ipsa_json (b : IpsaBuilder) : res (Z * ConfigJson) :=
  ps ← collect (slot_json b) b.(processors);
  mret (b.(is_incremental), mkConfigJson ps (metadata_json b.(header_manager))).

(** ** What is written is read *)
Lemma collect_map {A B C} (f : B → res C) (g : A → B) (h : A → C) l :
  (∀ x, x ∈ l → f (g x) = Ok (h x)) → collect f (g <$> l) = Ok (h <$> l).
Proof.
  intros Hf. apply collect_ok. induction l as [|x l IH]; [constructor|]. constructor; [apply Hf; by left|].
  apply IH. intros y Hy. apply Hf. by right.
Qed.

(** Two passes, the second over the results of the first. *)
Lemma collect_through {A B C} (f : A → res C) (g : A → res B) (r : B → res C) (P : B → Prop) l zs :
  (∀ x z, x ∈ l → f x = Ok z → ∃ y, g x = Ok y ∧ r y = Ok z ∧ P y) →
  collect f l = Ok zs → ∃ ys, collect g l = Ok ys ∧ collect r ys = Ok zs ∧ Forall P ys.
Proof.
  intros Hf Hz%collect_ok. setoid_rewrite collect_ok. induction Hz as [|x z l zs Hx _ IH]; [by exists []|].
  destruct IH as (ys & H1 & H2 & H3); [intros x' z' Hx'; apply Hf; by right|].
  destruct (Hf x z) as (y & Hg & Hr & HP); [by left|done|]. exists (y :: ys). by repeat constructor.
Qed.

(** What a value gives when it is read, and that it can be printed. *)
Definition written {A} (read : IpsaValue → res A) (v : IpsaValue) (x : A) : Prop := read v = Ok x ∧ plain v.

Lemma plain_member k v d : plain_string k → plain v → plain (IpsaDict d) → plain (IpsaDict ((k, v) :: d)).
Proof. by intros; split. Qed.

(** The names of the members and of constants are plain. *)
Ltac plain_name := apply (bool_decide_unpack (plain_string _)); vm_compute; exact I.
Ltac plain_members :=
  repeat match goal with |- plain (IpsaDict (_ :: _)) => apply plain_member; [plain_name| |] end; try done; try plain_name.

Lemma plain_list l : Forall plain l → plain (IpsaList l).
Proof. induction 1 as [|v l Hv _ IH]; [done|by split]. Qed.

Lemma plain_dict d : Forall (λ kv, plain_string kv.1 ∧ plain kv.2) d → plain (IpsaDict d).
Proof. induction 1 as [|kv d Hkv _ IH]; [done|by split]. Qed.

Lemma plain_fmap {A} (f : A → IpsaValue) l : (∀ x, plain (f x)) → plain (IpsaList (f <$> l)).
Proof. intros Hf. apply plain_list, Forall_fmap, Forall_forall. intros x _. apply Hf. Qed.

Lemma field_written f : written read_field (field_value f) (field_json f).
Proof. split; [reflexivity|]. unfold field_value. plain_members. destruct f as [[] h o l]; plain_name. Qed.

Lemma ints_written l : collect get_int (elements (ints l)) = Ok l ∧ plain (ints l).
Proof.
  split; [|by apply plain_fmap]. cbn [ints elements]. rewrite (collect_map get_int IpsaInteger (λ n, n)) by done. by rewrite list_fmap_id.
Qed.

Lemma fields_written fs :
  collect read_field (elements (IpsaList (field_value <$> fs))) = Ok (field_json <$> fs) ∧ plain (IpsaList (field_value <$> fs)).
Proof.
  split; [|apply plain_fmap; intros f; apply field_written]. cbn [elements]. apply collect_map. intros f _. apply field_written.
Qed.

Lemma each_at_ok {A} (f : IpsaValue → res A) k v w ys :
  at_member k v = Ok w → collect f (elements w) = Ok ys → each_at f k v = Ok ys.
Proof. intros Hk Hf. unfold each_at. by rewrite Hk. Qed.

(** The next member is read. *)
Ltac read_step := erewrite bind_ok; [|first [eassumption|reflexivity]].

Lemma level_entry_written e : written read_parser_entry (level_entry_value e) (level_entry_json e).
Proof.
  destruct (fields_written e.(le_sram).(ls_transition_fields)) as [Hf Hp]. split.
  - assert (each_at read_field "transition_fields" (sram_value e.(le_sram)) = Ok (field_json <$> e.(le_sram).(ls_transition_fields)))
      by (eapply each_at_ok; [reflexivity|exact Hf]).
    unfold read_parser_entry. repeat read_step. reflexivity.
  - unfold level_entry_value, sram_value, tcam_value. plain_members.
Qed.

Lemma parser_written levels (n : Z) :
  let v := IpsaDict [("levels", IpsaList (level_value <$> levels)); ("parser_level", IpsaInteger n)]%string in
  written read_parser v (mkParserJson n ((λ l : IpsaLevel, level_entry_json <$> l) <$> levels)).
Proof.
  cbn zeta. set (v := IpsaDict _). split.
  - assert (each_at (λ level, collect read_parser_entry (elements level)) "levels" v =
      Ok ((λ l : IpsaLevel, level_entry_json <$> l) <$> levels)).
    { eapply each_at_ok; [reflexivity|]. cbn [elements]. apply collect_map. intros l _. cbn [elements level_value].
      apply collect_map. intros e _. apply level_entry_written. }
    unfold read_parser. repeat read_step. reflexivity.
  - unfold v. plain_members. apply (plain_fmap level_value). intros l. apply plain_fmap. intros e. apply level_entry_written.
Qed.

Lemma operator_plain op : plain_string (operator_string op).
Proof. destruct op; plain_name. Qed.

(** Trees of operands. *)
Lemma operand_plain hm : ∀ o v, operand_tree hm o = Ok v → plain v.
Proof.
  fix IH 1. intros [n|i|[r|]|op l r] v Hv; cbn [operand_tree] in Hv.
  - injection Hv as <-. plain_members.
  - injection Hv as <-. plain_members.
  - apply bind_ok_inv in Hv as (f & _ & [= <-]). pose proof (proj2 (field_written f)). plain_members.
  - injection Hv as <-. plain_members.
  - apply bind_ok_inv in Hv as (lv & Hl & Hv). apply bind_ok_inv in Hv as (rv & Hr & [= <-]).
    assert (plain lv) by (destruct l as [l|]; [by apply (IH l)|by injection Hl as <-]).
    assert (plain rv) by (destruct r as [r|]; [by apply (IH r)|by injection Hr as <-]).
    pose proof (operator_plain op). plain_members.
Qed.

Lemma tree_written hm : ∀ o t, operand_json hm o = Ok t →
  ∃ v, operand_tree hm o = Ok v ∧ ∀ fuel, (vsize v ≤ fuel)%nat → read_tree fuel v = Ok t.
Proof.
  fix IH 1. intros [n|i|[r|]|op l r] t Ht; cbn [operand_json] in Ht; cbn [operand_tree].
  - injection Ht as <-. eexists. split; [done|]. intros [|fuel] Hf; [cbn in Hf; lia|reflexivity].
  - injection Ht as <-. eexists. split; [done|]. intros [|fuel] Hf; [cbn in Hf; lia|reflexivity].
  - apply bind_ok_inv in Ht as (f & -> & [= <-]). eexists. split; [done|]. intros [|fuel] Hf; [cbn in Hf; lia|reflexivity].
  - done.
  - apply bind_ok_inv in Ht as (lt & Hl & Ht). apply bind_ok_inv in Ht as (rt & Hr & [= <-]).
    destruct l as [l|]; [|done]. destruct r as [r|]; [|done].
    destruct (IH l lt Hl) as (lv & -> & Hlv). destruct (IH r rt Hr) as (rv & -> & Hrv). cbn [mbind res_mbind mret res_mret].
    eexists. split; [done|]. intros [|fuel] Hf; [cbn in Hf; lia|]. cbn [vsize foldr snd] in Hf.
    assert (read_tree fuel lv = Ok lt) by (apply Hlv; lia). assert (read_tree fuel rv = Ok rt) by (apply Hrv; lia).
    cbn [read_tree]. do 3 read_step. unfold contains. cbn [is_ok]. 
    repeat read_step. reflexivity.
Qed.

(** ** The gateway *)
Lemma gate_param_written hm o j : operand_value hm o = Ok j →
  ∃ v, (match o with Some o => operand_tree hm o | None => mret IpsaNull end) = Ok v ∧ written read_gate_param v j.
Proof.
  assert (Hw : ∀ o v, operand_tree hm o = Ok v → read_gate_param v = Ok j → ∃ v, operand_tree hm o = Ok v ∧ written read_gate_param v j).
  { intros x v Hv Hr. exists v. split; [done|]. split; [done|]. by eapply operand_plain. }
  unfold operand_value. destruct o as [[n|i|[r|]|op l r]|]; intros Hj; try done.
  - injection Hj as <-. by eapply Hw.
  - injection Hj as <-. by eapply Hw.
  - apply bind_ok_inv in Hj as (f & Hf & [= <-]). eapply Hw; [cbn [operand_tree]; by rewrite Hf|reflexivity].
  - apply bind_ok_inv in Hj as (v & Hv & [= <-]). eapply Hw; [done|]. cbn [operand_tree] in Hv.
    apply bind_ok_inv in Hv as (lv & _ & Hv). by apply bind_ok_inv in Hv as (rv & _ & [= <-]).
Qed.

Lemma expression_written hm e j : expression_json hm e = Ok j → ∃ v, expression_value hm e = Ok v ∧ read_expression v = Ok j ∧ plain v.
Proof.
  destruct e as [[op l] r]. unfold expression_json, expression_value. cbn [fst snd]. intros Hj.
  apply bind_ok_inv in Hj as (jl & Hl & Hj). apply bind_ok_inv in Hj as (jr & Hr & [= <-]).
  apply gate_param_written in Hl as (lv & Hl & Hlr & Hlp). apply gate_param_written in Hr as (rv & Hr & Hrr & Hrp).
  cbn [operand_tree]. rewrite Hl. cbn [mbind res_mbind]. rewrite Hr. cbn [mbind res_mbind mret res_mret]. eexists. split; [done|]. split.
  - unfold read_expression. do 2 read_step.
    erewrite bind_ok; [|erewrite bind_ok; [exact Hlr|reflexivity]].
    erewrite bind_ok; [|erewrite bind_ok; [exact Hrr|reflexivity]]. reflexivity.
  - pose proof (operator_plain op). plain_members.
Qed.

Lemma gate_entry_written e : written read_gate_entry (gateway_entry_value e) (gateway_entry_json e).
Proof. destruct e; (split; [reflexivity|]); unfold gateway_entry_value; plain_members. Qed.

Lemma default_written g j : default_json g = Ok j → ∃ v, default_value g = Ok v ∧ written read_gate_entry v j.
Proof.
  unfold default_json, default_value. destruct (gw_default g) as [|e|]; intros Hj; [done| |].
  - injection Hj as <-. eexists. split; [done|]. apply gate_entry_written.
  - apply bind_ok_inv in Hj as (be & -> & [= <-]). eexists. split; [done|]. apply gate_entry_written.
Qed.

Lemma gateway_written hm g j : gateway_json hm g = Ok j → ∃ v, gateway_value hm g = Ok v ∧ written read_gateway v j.
Proof.
  unfold gateway_json, gateway_value. intros Hj. apply bind_ok_inv in Hj as (es & Hes & Hj). apply bind_ok_inv in Hj as (d & Hd & [= <-]).
  apply (collect_through _ (expression_value hm) read_expression plain) in Hes as (vs & -> & Hr & Hp).
  2: { intros e z _ He. apply expression_written in He as (v & ? & ? & ?). by exists v. }
  apply default_written in Hd as (dv & Hdv & Hdr & Hdp). cbn [mbind res_mbind]. rewrite Hdv. cbn [mbind res_mbind mret res_mret].
  eexists. split; [done|]. split.
  - unfold read_gateway. erewrite bind_ok; [|eapply each_at_ok; [reflexivity|exact Hr]]. read_step.
    assert (He : ∀ d, each_at (λ e, bitmap ← int_at "bitmap" e; value ← at_member "value" e; g ← read_gate_entry value; mret (bitmap, g))
      "entries" (IpsaDict [("default", d); ("entries", IpsaList (next_entry_value <$> gw_entries g))]%string) =
      Ok ((λ be, (be.1, gateway_entry_json be.2)) <$> gw_entries g)).
    { intros d'. eapply each_at_ok; [reflexivity|]. cbn [elements]. apply collect_map. intros be _. unfold next_entry_value.
      do 2 read_step. erewrite bind_ok; [|apply (proj1 (gate_entry_written be.2))]. reflexivity. }
    erewrite bind_ok; [|erewrite bind_ok; [exact Hdr|reflexivity]]. erewrite bind_ok; [|apply He]. reflexivity.
  - plain_members; [by apply plain_list|]. apply plain_fmap. intros be. unfold next_entry_value. plain_members. apply gate_entry_written.
Qed.

(** ** Tables and actions *)
Lemma table_written t : written read_table (table_value t) (table_json t).
Proof.
  destruct (ints_written t.(key_memory).(im_config)) as [Hk Hkp]. destruct (ints_written t.(value_memory).(im_config)) as [Hv Hvp].
  destruct (fields_written t.(field_infos)) as [Hf Hfp]. split.
  - assert (each_at get_int "config" (key_memory_value t.(key_memory)) = Ok t.(key_memory).(im_config))
      by (eapply each_at_ok; [reflexivity|exact Hk]).
    assert (each_at get_int "config" (value_memory_value t.(value_memory)) = Ok t.(value_memory).(im_config))
      by (eapply each_at_ok; [reflexivity|exact Hv]).
    assert (each_at read_field "field_infos" (table_value t) = Ok (field_json <$> t.(field_infos)))
      by (eapply each_at_ok; [reflexivity|exact Hf]).
    assert (each_at (λ ap, a ← int_at "action_id" ap; p ← int_at "proc_id" ap; mret (a, p)) "action_to_proc" (table_value t) =
      Ok t.(action_to_proc)).
    { eapply each_at_ok; [reflexivity|]. etrans; [apply (collect_map _ action_proc_value (λ ap, ap)); by intros [a p] _|by rewrite list_fmap_id]. }
    unfold read_table. repeat read_step. reflexivity.
  - unfold table_value, key_memory_value, value_memory_value. plain_members.
    + apply plain_fmap. intros [a p]. unfold action_proc_value. plain_members.
    + by destruct (im_type (key_memory t)); plain_name.
    + by destruct (tb_match_type t); plain_name.
Qed.

Lemma assign_written hm a j : assign_json hm a = Ok j →
  ∃ v, assign_value hm a = Ok v ∧
    (lvalue ← (l ← at_member "lvalue" v; read_field l); root ← (r ← at_member "rvalue" v; read_tree (vsize r) r); mret (lvalue, root)) = Ok j ∧
    plain v.
Proof.
  unfold assign_json, assign_value. intros Hj. apply bind_ok_inv in Hj as (f & -> & Hj). cbn [mbind res_mbind].
  destruct (as_rvalue a) as [o|]; [|done]. apply bind_ok_inv in Hj as (t & Ht & [= <-]).
  apply tree_written in Ht as (v & Hv & Hr). rewrite Hv. cbn [mbind res_mbind mret res_mret]. eexists. split; [done|]. split.
  - change (at_member "lvalue" _) with (Ok (field_value f)). change (at_member "rvalue" _) with (Ok v). cbn [mbind res_mbind].
    rewrite (proj1 (field_written f)). cbn [mbind res_mbind]. by rewrite Hr.
  - apply operand_plain in Hv. pose proof (proj2 (field_written f)). plain_members.
Qed.

Lemma action_written hm a j : action_json hm a = Ok j → ∃ v, action_value hm a = Ok v ∧ written read_action v j.
Proof.
  unfold action_json, action_value. intros Hj. apply bind_ok_inv in Hj as (ps & Hps & [= <-]).
  apply (collect_through _ (assign_value hm) (λ v, lvalue ← (l ← at_member "lvalue" v; read_field l);
    root ← (r ← at_member "rvalue" v; read_tree (vsize r) r); mret (lvalue, root)) plain) in Hps as (vs & -> & Hr & Hp).
  2: { intros p z _ He. apply assign_written in He as (v & ? & ? & ?). by exists v. }
  cbn [mbind res_mbind mret res_mret]. destruct (ints_written a.(ac_parameters_lengths)) as [Hl Hlp].
  eexists. split; [done|]. split; [|plain_members; by apply plain_list].
  unfold read_action. do 2 read_step. erewrite bind_ok; [|eapply each_at_ok; [reflexivity|exact Hl]].
  erewrite bind_ok; [|eapply each_at_ok; [reflexivity|exact Hr]]. reflexivity.
Qed.

(** ** Processors and the file *)
Lemma metadata_written hm :
  collect read_meta (elements (metadata_value hm)) = Ok (metadata_json hm) ∧ plain (metadata_value hm).
Proof.
  split; [|apply plain_fmap; intros [[id off] len]; unfold metadata_entry_value; plain_members].
  apply (collect_map read_meta metadata_entry_value). by intros [[id off] len] _.
Qed.

Lemma processor_written b p j : processor_json b p = Ok j → ∃ v, processor_value b p = Ok v ∧ read_slot v = Ok (Some j) ∧ plain v.
Proof.
  unfold processor_json, processor_value. intros Hj. apply bind_ok_inv in Hj as (g & -> & Hj). cbn [mbind res_mbind].
  apply bind_ok_inv in Hj as (gj & Hg & Hj). apply gateway_written in Hg as (gv & -> & Hgr & Hgp). cbn [mbind res_mbind].
  apply bind_ok_inv in Hj as (ts & -> & Hj). cbn [mbind res_mbind]. apply bind_ok_inv in Hj as (acts & Ha & [= <-]).
  apply (collect_through _ (λ a, a ← deref_action b.(action_manager) a; action_value b.(header_manager) a) read_action plain)
    in Ha as (vs & -> & Hr & Hp).
  2: { intros a z _ Hz. apply bind_ok_inv in Hz as (x & -> & Hz). apply action_written in Hz as (v & ? & ? & ?). by exists v. }
  destruct (parser_written p.(ip_levels) p.(ip_parser_level)) as [Hpr Hpp]. cbn [mbind res_mbind mret res_mret].
  eexists. split; [done|]. split.
  - cbn [read_slot]. erewrite bind_ok; [reflexivity|]. unfold read_processor. read_step. erewrite bind_ok; [|erewrite bind_ok; [exact Hpr|reflexivity]].
    erewrite bind_ok; [|erewrite bind_ok; [exact Hgr|reflexivity]].
    erewrite bind_ok; [|eapply each_at_ok; [reflexivity|apply (collect_map read_table table_value table_json); intros t _; apply table_written]].
    erewrite bind_ok; [|eapply each_at_ok; [reflexivity|exact Hr]]. reflexivity.
  - plain_members; [by apply plain_list|apply (plain_fmap table_value); intros t; apply table_written|apply Hpp].
Qed.

Lemma slot_written b i j : (p ← rd b.(processors) i; slot_json b p) = Ok j →
  ∃ kv, slot_value b i = Ok kv ∧ read_slot kv.2 = Ok j ∧ kv.1 = processor_key i ∧ plain kv.2.
Proof.
  unfold slot_value. intros Hj. apply bind_ok_inv in Hj as (p & -> & Hj). cbn [mbind res_mbind]. destruct p as [p|].
  - apply bind_ok_inv in Hj as (x & Hx & [= <-]). apply processor_written in Hx as (v & -> & ? & ?). by eexists.
  - injection Hj as <-. by eexists.
Qed.

(** The elements of a list, by their numbers. *)
Lemma numbered {A} (l : list A) : Forall2 (λ i x, rd l i = Ok x) (seqZ 0 (zlen l)) l.
Proof.
  apply Forall2_lookup. intros k. destruct (l !! k) as [x|] eqn:Hk.
  - pose proof (lookup_lt_Some _ _ _ Hk). unfold zlen. rewrite lookup_seqZ_lt by lia. constructor.
    unfold rd. rewrite (proj2 (Z.leb_le 0 _)) by lia. replace (Z.to_nat (0 + Z.of_nat k)) with k by lia. by rewrite Hk.
  - apply lookup_ge_None in Hk. unfold zlen. rewrite lookup_seqZ_ge by lia. constructor.
Qed.

Lemma collect_numbered {A B} (f : A → res B) l ys :
  collect f l = Ok ys → collect (λ i, x ← rd l i; f x) (seqZ 0 (zlen l)) = Ok ys.
Proof.
  rewrite !collect_ok. intros Hys. eapply Forall2_trans; [|apply numbered|exact Hys]. by intros i x y ->.
Qed.

(** A name that is there once is found. *)
Lemma member_found d k v : NoDup d.*1 → (k, v) ∈ d → at_member k (IpsaDict d) = Ok v.
Proof.
  intros Hnd Hin. cbn [at_member]. destruct (list_find_elem_of (λ kv : string * IpsaValue, kv.1 = k) d (k, v) Hin eq_refl) as [[i kv] Hf].
  rewrite Hf. apply list_find_Some in Hf as (Hi & Hk & _). apply list_elem_of_lookup in Hin as [i' Hi'].
  assert (i = i') as ->; [|by rewrite Hi in Hi'; injection Hi' as ->].
  eapply NoDup_lookup; [exact Hnd| |]; rewrite list_lookup_fmap; [rewrite Hi|rewrite Hi']; cbn; by rewrite ?Hk.
Qed.

Lemma file_keys : NoDup ("is_incremental"%string :: "metadata"%string :: (processor_key <$> seqZ 0 PROC_COUNT)).
Proof. apply (bool_decide_unpack _). vm_compute. exact I. Qed.

Lemma file_written b n j : zlen b.(processors) = PROC_COUNT → ipsa_json b = Ok (n, j) →
  ∃ v, ipsa_value b = Ok v ∧ plain v ∧ read_config v = Ok j ∧ int_at "is_incremental" v = Ok n.
Proof.
  intros Hlen Hj. unfold ipsa_json in Hj. apply bind_ok_inv in Hj as (js & Hjs & [= <- <-]).
  apply collect_numbered in Hjs. rewrite Hlen in Hjs.
  apply (collect_through _ (slot_value b) (λ kv, read_slot kv.2) (λ kv, plain_string kv.1 ∧ plain kv.2)) in Hjs as (ps & Hps & Hr & Hp).
  2: { intros i y Hi Hy. apply slot_written in Hy as (kv & ? & ? & Hk & ?). exists kv. rewrite Hk. repeat split; try done.
       assert (Hall : Forall (λ i, plain_string (processor_key i)) (seqZ 0 PROC_COUNT)) by (apply (bool_decide_unpack _); vm_compute; exact I).
       rewrite Forall_forall in Hall. by apply Hall. }
  unfold ipsa_value. rewrite Hps. cbn [mbind res_mbind mret res_mret]. set (d := _ :: _ :: ps).
  assert (Hperm : merge_sort name_le d ≡ₚ d) by apply merge_sort_Permutation.
  assert (Hkeys : Forall2 (λ i kv, kv.1 = processor_key i ∧ kv ∈ ps) (seqZ 0 PROC_COUNT) ps).
  { apply collect_ok in Hps. apply Forall2_same_length_lookup_2; [by eapply Forall2_length|]. intros k i kv Hi Hkv. split; [|by eapply list_elem_of_lookup_2].
    pose proof (Forall2_lookup_lr _ _ _ _ _ _ Hps Hi Hkv) as Hs. unfold slot_value in Hs. apply bind_ok_inv in Hs as (? & _ & Hs).
    by apply bind_ok_inv in Hs as (? & _ & [= <-]). }
  assert (Hfst : ps.*1 = processor_key <$> seqZ 0 PROC_COUNT).
  { symmetry. apply list_eq_Forall2, Forall2_fmap. eapply Forall2_impl; [exact Hkeys|]. by intros i kv [-> _]. }
  assert (Hnd : NoDup (merge_sort name_le d).*1).
  { rewrite Hperm. unfold d. rewrite !fmap_cons. cbn [fst]. rewrite Hfst. apply file_keys. }
  assert (Hat : ∀ k v, (k, v) ∈ d → at_member k (IpsaDict (merge_sort name_le d)) = Ok v).
  { intros k v Hin. apply member_found; [done|]. by rewrite Hperm. }
  destruct (metadata_written b.(header_manager)) as [Hm Hmp].
  eexists. split; [done|]. repeat split.
  - apply plain_dict. rewrite Hperm. unfold d. repeat constructor; try done; plain_name.
  - unfold read_config. erewrite bind_ok.
    2: { apply collect_ok. rewrite collect_ok in Hr. eapply Forall2_trans; [|exact Hkeys|exact Hr].
         intros i kv x [Hk Hin] Hx. rewrite Hat with (v := kv.2); [exact Hx|]. unfold d. do 2 right. rewrite <- Hk. by destruct kv. }
    erewrite bind_ok; [|eapply each_at_ok; [apply Hat; right; left|exact Hm]]. reflexivity.
  - unfold int_at. rewrite Hat with (v := IpsaInteger b.(is_incremental)); [done|]. by left.
Qed.

(** C6. Compiler and controller agree on the file: if no pointer of the objects is null
    or dangling (then the values below exist), the printed file is read by the grammar of
    JSON as the value that was printed, and the members the controller takes out of it
    are the values of the objects: parsers, gateways, tables, actions and metadata; the
    mark of an incremental output is in the file too. *)
Theorem written_file_read b n j : zlen b.(processors) = PROC_COUNT → ipsa_json b = Ok (n, j) →
  ∃ v, ipsa_value b = Ok v ∧ read_json (emit_value 0 v) = Some v ∧ read_config v = Ok j ∧ int_at "is_incremental" v = Ok n.
Proof.
  intros Hlen Hj. destruct (file_written b n j Hlen Hj) as (v & Hv & Hp & Hc & Hn). exists v.
  repeat split; try done. by apply read_printed.
Qed.

Definition demo_ready : IpsaBuilder := match allocateProcessors demo_built with Ok b => b | _ => IpsaBuilder_init end.

Lemma written_file_read_witness :
  ∃ n j v, ipsa_json demo_ready = Ok (n, j) ∧ ipsa_value demo_ready = Ok v ∧
    read_json (emit_value 0 v) = Some v ∧ read_config v = Ok j ∧ int_at "is_incremental" v = Ok n.
Proof.
  destruct (ipsa_json demo_ready) as [[n j]|f] eqn:E; [|vm_compute in E; discriminate E].
  destruct (written_file_read demo_ready n j) as (v & Hv); [vm_compute; reflexivity|exact E|]. exists n, j, v. exact (conj eq_refl Hv).
Defined.
