(* ===== verification/Task.v ===== *)
(** * The rP4 compiler: tasks, and a program from its syntax tree to the packet
    (ipsa_builder.h, rp4_runtime.h)

    [emitTask] compiles a program and writes the file the controller reads.  The theorem
    at the end follows a program through compiler, controller and data plane. *)

From stdpp Require Import base numbers list gmap strings.
From Stdlib Require Import ZArith Lia.
From S2P Require Import Prelude Bits Phv Parser Executor Gateway Matcher Pipeline Switch Server Client Controller Configure.
From S2P Require Import Headers Actions Tables Stages Levels Topology Distribution Allocation Gateways Processors TableKey Output.
From S2P Require Import Builder Incremental Json File.

#[local] Open Scope Z_scope.

(** ** Tasks (rp4_runtime.h) *)

(** The builder of a task: [ast] is what the parser made of the file, or nothing when
    it found an error; the result of [load] is not looked at. *)
Definition load_task `{Target} (fuel : nat) (ast : option Rp4Ast) : option (res IpsaBuilder) :=
  match ast with Some ast => load_builder fuel ast | None => Some (Ok IpsaBuilder_init) end.

(** [emitTask]: the task that stays, and the text of the file.  The memory of a task that replaces
    another one is allocated anew when the incremental allocation gives up. *)
Definition finish_task (now_task : option IpsaBuilder) (b : IpsaBuilder) : res (IpsaBuilder * chars) :=
  b ← allocateParsers b;
  b ← match now_task with
      | None => allocate_memory b
      | Some now =>
          kept ← allocateMemory_after now.(table_manager) b.(table_manager) b.(stage_manager).(logical_stages) b.(topo_sequence);
          match kept with
          | Some (phys, tm) => mret (with_memory phys tm 1 b)
          | None => allocate_memory b
          end
      end;
  b ← allocateProcessors b;
  v ← ipsa_value b;
  mret (b, emit_value 0 v).

Definition emitTask `{Target} (fuel : nat) (ast : option Rp4Ast) (now_task : option IpsaBuilder)
    : option (res (IpsaBuilder * chars)) :=
  match load_task fuel ast with
  | None => None
  | Some r => Some (r ≫= finish_task now_task)
  end.

(** ** A program on the switch *)
#[local] Instance no_addresses : InetPton := { pton4 := λ _, None; pton6 := λ _, None }.

(** The switch that is configured by the file. *)
Definition configured (file : chars) : res ServerState :=
  match read_json file with
  | Some v => j ← read_config v; extract (H := x86) j demo_server
  | None => Fault Thrown
  end.

(** An entry is added with a command of the compiler and the controller. *)
Definition with_entry (b : IpsaBuilder) (command : list chars) (st : ServerState) : res ServerState :=
  up ← emitUpdate (H := x86) (Some (b.(table_manager), b.(action_manager))) command;
  match up with
  | Some up => '(_, st) ← update (H := x86) up.(up_json) st; mret st
  | None => mret st
  end.

(** The switch with a compiled program and the entries of some commands. *)
Definition switch_of (ast : Rp4Ast) (commands : list (list chars)) : option (res ServerState) :=
  match emitTask (H := x86) (S (length (ast.(ingress_stages) ++ ast.(egress_stages)))) (Some ast) None with
  | None => None
  | Some r => Some ('(b, file) ← r; st ← configured file; for_each (with_entry b) commands st)
  end.

(** What the switch sends for a packet that comes in on interface 1. *)
Definition sends (st : ServerState) (pkt : list Z) : option (res (list (Z * list Z))) :=
  match st.(ppl) with
  | None => None
  | Some p =>
      match switch_turn (H := x86) 3 st.(mem) demo_global p pkt (zlen pkt) 1 with
      | None => None
      | Some r => Some (snd <$> r)
      end
  end.

(** An Ethernet header, a time to live, an address, and a byte behind them. *)
Definition demo_route_packet (ttl : Z) (dst : list Z) : list Z :=
  [1; 2; 3; 4; 5; 6; 7; 8; 9; 10; 11; 12; 8; 0; ttl] ++ dst ++ [99].

(** A program from its syntax tree to the packet: the program of Builder.v has two
    stages, the first looks a destination up and sets the port of the packet, the
    second sets its time to live.  Compiled, printed, read by the controller and sent to
    the data plane, with an entry for 1.2.3.4 added by a command (whose parameter is the
    id of the action, which the controller does not send), it sends a packet for 1.2.3.4
    through the second interface, with its time to live changed and its source
    address replaced by the one of the interface, and drops a packet for 1.2.3.5. *)
Lemma program_forwards :
  match switch_of demo_program [add_command "route" "forward" 16909060 [1%N]] with
  | Some (Ok st) =>
      sends st (demo_route_packet 64 [1; 2; 3; 4]) =
        Some (Ok [(1, [1; 2; 3; 4; 5; 6; 2; 0; 0; 0; 0; 2; 8; 0; 7; 1; 2; 3; 4; 99])]) ∧
      sends st (demo_route_packet 64 [1; 2; 3; 5]) = Some (Ok [])
  | _ => False
  end.
Proof. vm_compute. split; reflexivity. Qed.
