(* ===== verification/P4Names.v ===== *)
(** * The P4 translator: names (src/rP4-compiler/p4r, p4_rename.h)

    A P4 program has names with dots, of which rP4 knows nothing: a name is cut to what is
    behind a dot as long as no other name ends with it, and the dots that are left
    become underscores.  The theorem says when the names stay apart, and the example
    behind it that they need not. *)

From stdpp Require Import base numbers list strings pretty.
From Stdlib Require Import ZArith Lia Ascii.
From S2P Require Import Prelude.

#[local] Open Scope Z_scope.
#[local] Open Scope string_scope.

(** ** Strings *)

(** The text behind the first dot ([find_first_of]); [None] is [npos]. *)
Fixpoint after_dot (s : string) : option string :=
  match s with
  | EmptyString => None
  | String c s => if bool_decide (c = "."%char) then Some s else after_dot s
  end.

(** [size() >= size && substr(size() - size) == text]. *)
Fixpoint ends_with (text s : string) : bool :=
  bool_decide (s = text) || match s with EmptyString => false | String _ s => ends_with text s end.

(** Dots become underscores. *)
Fixpoint undotted (s : string) : string :=
  match s with
  | EmptyString => EmptyString
  | String c s => String (if bool_decide (c = "."%char) then "_"%char else c) (undotted s)
  end.

(** ** The table of names; the four vectors have the same length *)
Record Renamed : Set := mkRenamed {
  original_name : string;
  new_name : string;
  has_suffix : bool;
  is_duplicated : bool;
}.
#[export] Instance renamed_eq_dec : EqDecision Renamed.
Proof. solve_decision. Defined.

Definition P4Rename : Set := list Renamed.

Definition set_new_name (n : string) (e : Renamed) : Renamed :=
  {| original_name := e.(original_name); new_name := n; has_suffix := e.(has_suffix); is_duplicated := e.(is_duplicated) |}.
Definition set_duplicated (e : Renamed) : Renamed :=
  {| original_name := e.(original_name); new_name := e.(new_name); has_suffix := e.(has_suffix); is_duplicated := true |}.

Fixpoint add_name (name : string) (suffix : bool) (r : P4Rename) : P4Rename :=
  match r with
  | [] => [mkRenamed name EmptyString suffix false]
  | e :: r => if bool_decide (name = e.(original_name)) then set_duplicated e :: r else e :: add_name name suffix r
  end.

Definition add_names (names : list string) (r : P4Rename) : P4Rename := fold_left (λ r n, add_name n false r) names r.

(** The loop of [get_name]: [rest] is what is behind position [start], [n] the number of
    rounds that are left. *)
Fixpoint cut (names : list string) (original : string) (n : nat) (rest : string) : string :=
  match n with
  | O => rest
  | S n =>
      match after_dot rest with
      | Some test_text =>
          if existsb (λ name, negb (bool_decide (name = original)) && ends_with test_text name) names then rest
          else cut names original n test_text
      | None => rest
      end
  end.

Definition short_name (names : list string) (e : Renamed) : string :=
  let temp := undotted (cut names e.(original_name) 10 e.(original_name)) in
  if e.(has_suffix) then temp +:+ "_s" else temp.

(** [get_name] fills [new_names] where it is empty; a name that is not in the table stays. *)
Fixpoint get_name_from (names : list string) (original : string) (index : Z) (r : P4Rename) : string * P4Rename :=
  match r with
  | [] => (original, [])
  | e :: r =>
      if bool_decide (e.(original_name) = original) then
        let e := if bool_decide (e.(new_name) = EmptyString) then set_new_name (short_name names e) e else e in
        (if e.(is_duplicated) then e.(new_name) +:+ "_" +:+ pretty index else e.(new_name), e :: r)
      else let '(n, r) := get_name_from names original index r in (n, e :: r)
  end.
Definition get_name (original : string) (index : Z) (r : P4Rename) : string * P4Rename :=
  get_name_from (original_name <$> r) original index r.

(** The name [get_name] gives, whatever was asked before. *)
Definition name_of (original : string) (index : Z) (r : P4Rename) : string :=
  match list_find (λ e, e.(original_name) = original) r with
  | Some (_, e) =>
      let n := short_name (original_name <$> r) e in if e.(is_duplicated) then n +:+ "_" +:+ pretty index else n
  | None => original
  end.

(** A table between two calls. *)
Definition consistent (r : P4Rename) : Prop :=
  Forall (λ e, e.(new_name) = EmptyString ∨ e.(new_name) = short_name (original_name <$> r) e) r.

(** ** The table remembers nothing but the names *)
Lemma short_name_set names n e : short_name names (set_new_name n e) = short_name names e.
Proof. done. Qed.

Lemma get_name_from_spec names original index r :
  Forall (λ e, e.(new_name) = EmptyString ∨ e.(new_name) = short_name names e) r →
  let '(n, r') := get_name_from names original index r in
  n = match list_find (λ e, e.(original_name) = original) r with
      | Some (_, e) => if e.(is_duplicated) then short_name names e +:+ "_" +:+ pretty index else short_name names e
      | None => original
      end ∧
  original_name <$> r' = original_name <$> r ∧
  Forall (λ e, e.(new_name) = EmptyString ∨ e.(new_name) = short_name names e) r'.
Proof.
  induction 1 as [|e r He Hr IH]; [done|]. cbn [get_name_from list_find]. destruct (decide (original_name e = original)) as [Heq|Hne].
  - rewrite bool_decide_true by done. case_bool_decide as Hn; cbn.
    + split; [done|]. split; [done|]. constructor; [by right|done].
    + destruct He as [He|He]; [done|]. rewrite He. split; [done|]. split; [done|]. constructor; [by right|done].
  - rewrite bool_decide_false by done. destruct (get_name_from names original index r) as [n r']. destruct IH as (-> & Ho & Hc).
    split; [by destruct (list_find _ r) as [[]|]|]. rewrite !fmap_cons, Ho. split; [done|]. by constructor.
Qed.

Lemma get_name_name_of original index r : consistent r →
  (get_name original index r).1 = name_of original index r ∧
  consistent (get_name original index r).2 ∧
  original_name <$> (get_name original index r).2 = original_name <$> r.
Proof.
  intros Hr. pose proof (get_name_from_spec _ original index r Hr) as Hg. unfold get_name, name_of, consistent.
  destruct (get_name_from (original_name <$> r) original index r) as [n r']. destruct Hg as (-> & Ho & Hc). cbn [fst snd].
  split; [by destruct (list_find _ r) as [[]|]|]. by rewrite Ho.
Qed.

(** ** Names stay apart *)
Lemma append_cons c s t : String c s +:+ t = String c (s +:+ t).
Proof. done. Qed.

Lemma string_app_assoc (a b c : string) : a +:+ (b +:+ c) = (a +:+ b) +:+ c.
Proof. induction a as [|x a IH]; [done|]. by rewrite !append_cons, IH. Qed.

Lemma list_of_append a b : String.list_ascii_of_string (a +:+ b) =
  (String.list_ascii_of_string a ++ String.list_ascii_of_string b)%list.
Proof. induction a as [|x a IH]; [done|]. rewrite append_cons. cbn. by rewrite IH. Qed.

#[local] Instance list_of_string_inj : Inj (=) (=) String.list_ascii_of_string.
Proof. intros a b H. by rewrite <- (String.string_of_list_ascii_of_string a), H, String.string_of_list_ascii_of_string. Qed.

Lemma string_app_inv_tail (t a b : string) : a +:+ t = b +:+ t → a = b.
Proof.
  intros H%(f_equal String.list_ascii_of_string). rewrite !list_of_append in H. apply app_inv_tail in H.
  by apply (inj String.list_ascii_of_string) in H.
Qed.

Lemma ends_with_spec text s : ends_with text s = true ↔ ∃ p, s = p +:+ text.
Proof.
  induction s as [|c s IH]; cbn [ends_with]; rewrite orb_true_iff, bool_decide_eq_true.
  - split; [intros [<-|]; [by exists EmptyString|done]|]. intros [[|c p] Hp]; [by left|done].
  - rewrite IH. split.
    + intros [<-|[p ->]]; [by exists EmptyString|by exists (String c p)].
    + intros [[|c' p] Hp]; [by left|]. rewrite append_cons in Hp. injection Hp as -> ->. right. by exists p.
Qed.

Lemma after_dot_end s t : after_dot s = Some t → ends_with t s = true.
Proof.
  revert t. induction s as [|c s IH]; cbn [after_dot]; intros t Ht; [done|]. cbn [ends_with]. apply orb_true_iff. right.
  case_bool_decide; [injection Ht as ->; apply ends_with_spec; by exists EmptyString|by apply IH].
Qed.

Lemma ends_with_trans a b c : ends_with a b = true → ends_with b c = true → ends_with a c = true.
Proof. rewrite !ends_with_spec. intros [p ->] [q ->]. exists (q +:+ p). by rewrite string_app_assoc. Qed.

(** What is left of a name is an end of it, and no end of another name unless it is the
    whole name. *)
Lemma cut_end names original n rest :
  ends_with rest original = true →
  (rest = original ∨ ∀ o, o ∈ names → o ≠ original → ends_with rest o = false) →
  let s := cut names original n rest in
  ends_with s original = true ∧ (s = original ∨ ∀ o, o ∈ names → o ≠ original → ends_with s o = false).
Proof.
  revert rest. induction n as [|n IH]; intros rest He Ho; [done|]. cbn [cut].
  destruct (after_dot rest) as [t|] eqn:Ht; [|done].
  destruct (existsb _ names) eqn:Hex; [done|]. apply IH.
  - by eapply ends_with_trans; [eapply after_dot_end|].
  - right. intros o Hin Hne. destruct (ends_with t o) eqn:Hto; [|done]. exfalso.
    apply not_true_iff_false in Hex. apply Hex. apply existsb_exists. exists o. split; [by apply list_elem_of_In|].
    by rewrite bool_decide_false, Hto.
Qed.

Lemma cut_spec names original n :
  let s := cut names original n original in
  ends_with s original = true ∧ (s = original ∨ ∀ o, o ∈ names → o ≠ original → ends_with s o = false).
Proof. apply cut_end; [apply ends_with_spec; by exists EmptyString|by left]. Qed.

(** Ends of the names that differ only in dots and underscores are the same. *)
Definition dots_tell (names : list string) : Prop :=
  ∀ a b s t, a ∈ names → b ∈ names → ends_with s a = true → ends_with t b = true → undotted s = undotted t → s = t.

Lemma cuts_apart names a b n : dots_tell names → a ∈ names → b ∈ names →
  undotted (cut names a n a) = undotted (cut names b n b) → a = b.
Proof.
  intros Hd Ha Hb He. destruct (cut_spec names a n) as [Hea Hoa]. destruct (cut_spec names b n) as [Heb Hob].
  assert (Hs : cut names a n a = cut names b n b) by (by apply (Hd a b)). destruct (decide (a = b)) as [|Hne]; [done|]. exfalso.
  destruct Hoa as [Hwa|Hoa].
  - destruct Hob as [Hwb|Hob]; [congruence|]. specialize (Hob a Ha Hne). by rewrite <- Hs, Hea in Hob.
  - specialize (Hoa b Hb (not_eq_sym Hne)). by rewrite Hs, Heb in Hoa.
Qed.

Definition names_ok (r : P4Rename) : Prop :=
  NoDup (original_name <$> r) ∧ dots_tell (original_name <$> r) ∧
  (∀ e e', e ∈ r → e' ∈ r → e.(has_suffix) = true → e'.(has_suffix) = false →
    ends_with "_s" (undotted e'.(original_name)) = false).

Lemma undotted_app a b : undotted (a +:+ b) = undotted a +:+ undotted b.
Proof. induction a as [|c a IH]; [done|]. rewrite append_cons. cbn [undotted]. by rewrite IH, append_cons. Qed.

(** A name with the suffix and one without. *)
Lemma suffix_apart names o s n : ends_with "_s" (undotted o) = false → undotted (cut names o n o) ≠ s +:+ "_s".
Proof.
  intros Ho He. destruct (cut_spec names o n) as [[p Hp]%ends_with_spec _]. apply not_true_iff_false in Ho. apply Ho.
  apply ends_with_spec. exists (undotted p +:+ s). by rewrite Hp, undotted_app, He, string_app_assoc at 1.
Qed.

Lemma short_names_apart r e e' : names_ok r → e ∈ r → e' ∈ r →
  short_name (original_name <$> r) e = short_name (original_name <$> r) e' → e.(original_name) = e'.(original_name).
Proof.
  intros (Hnd & Hd & Hs) Hin Hin' He. pose proof (list_elem_of_fmap_2 original_name _ _ Hin) as Hn.
  pose proof (list_elem_of_fmap_2 original_name _ _ Hin') as Hn'. unfold short_name in He.
  destruct (has_suffix e) eqn:Hse, (has_suffix e') eqn:Hse'.
  - apply string_app_inv_tail in He. by eapply cuts_apart.
  - exfalso. symmetry in He. revert He. apply suffix_apart. by apply (Hs e e').
  - exfalso. revert He. apply suffix_apart. by apply (Hs e' e).
  - by eapply cuts_apart.
Qed.

Lemma found_name r o : o ∈ original_name <$> r →
  ∃ i e, list_find (λ e, e.(original_name) = o) r = Some (i, e) ∧ e ∈ r ∧ e.(original_name) = o.
Proof.
  intros [e0 [-> Hin]]%list_elem_of_fmap.
  destruct (list_find_elem_of (λ e, original_name e = original_name e0) r e0 Hin eq_refl) as [[i e] Hf]. exists i, e.
  split; [done|]. apply list_find_Some in Hf as (Hi & Ho & _). split; [by eapply list_elem_of_lookup_2|done].
Qed.

(** C22. Two names of the table are given different names, whatever index they are
    asked with: if the ends of the names differ in more than dots and underscores, no
    unsuffixed name ends like a suffix, and neither name is there twice.  A name that is
    there twice is told apart by the index. *)
Theorem names_apart r a b i j : names_ok r → a ∈ original_name <$> r → b ∈ original_name <$> r →
  (∀ e, e ∈ r → e.(original_name) = a ∨ e.(original_name) = b → e.(is_duplicated) = bool_decide (a = b)) →
  (a, i) ≠ (b, j) → name_of a i r ≠ name_of b j r.
Proof.
  intros Hok Ha Hb Hdup Hne He. apply Hne. cut (a = b ∧ i = j); [by intros [-> ->]|]. clear Hne. destruct (found_name r a Ha) as (ka & ea & Hfa & Hina & <-).
  destruct (found_name r b Hb) as (kb & eb & Hfb & Hinb & <-). unfold name_of in He. rewrite Hfa, Hfb in He.
  rewrite (Hdup ea), (Hdup eb) in He by auto. destruct (decide (original_name ea = original_name eb)) as [Heq|Hne].
  - rewrite bool_decide_true in He by done. split; [done|].
    assert (ea = eb) as -> by (rewrite Heq in Hfa; congruence).
    apply (inj (String.app _)) in He. apply (inj (String.app _)) in He.
    by apply (inj pretty) in He.
  - rewrite bool_decide_false in He by done. by apply short_names_apart in He.
Qed.

(** Two tables whose names end alike keep their prefix, an action of its own loses it. *)
Definition demo_names : P4Rename := add_names ["ingress.table"; "egress.table"; "ingress.forward"] [].

Lemma demo_names_given :
  name_of "ingress.table" 0 demo_names = "ingress_table" ∧ name_of "egress.table" 0 demo_names = "egress_table" ∧
  name_of "ingress.forward" 0 demo_names = "forward".
Proof. vm_compute. done. Qed.

(** The ends of a text. *)
Fixpoint ends_of (s : string) : list string :=
  s :: match s with EmptyString => [] | String _ s => ends_of s end.

Lemma elem_of_ends_of text s : ends_with text s = true → text ∈ ends_of s.
Proof.
  induction s as [|c s IH]; cbn [ends_with ends_of]; intros [H%bool_decide_eq_true|H]%orb_true_iff; try done.
  - rewrite H. by left.
  - rewrite H. by left.
  - right. by apply IH.
Qed.

Lemma dots_tell_check names :
  Forall (λ s, Forall (λ t, undotted s = undotted t → s = t) (names ≫= ends_of)) (names ≫= ends_of) → dots_tell names.
Proof.
  rewrite Forall_forall. intros H a b s t Ha Hb Hs Ht. assert (Hsin : s ∈ names ≫= ends_of).
  { apply list_elem_of_bind. exists a. split; [by apply elem_of_ends_of|done]. }
  apply H in Hsin. rewrite Forall_forall in Hsin. apply Hsin. apply list_elem_of_bind. exists b.
  split; [by apply elem_of_ends_of|done].
Qed.

Lemma names_apart_witness :
  name_of "ingress.table" 0 demo_names ≠ name_of "egress.table" 0 demo_names.
Proof.
  apply (names_apart demo_names); [|apply (bool_decide_unpack _); vm_compute; exact I..| |discriminate].
  - split; [apply (bool_decide_unpack _); vm_compute; exact I|]. split.
    + apply dots_tell_check, (bool_decide_unpack _). vm_compute. exact I.
    + intros e e' He _ Hs. exfalso. assert (Hall : Forall (λ e, e.(has_suffix) = false) demo_names)
        by (apply (bool_decide_unpack _); vm_compute; exact I).
      rewrite Forall_forall in Hall. rewrite (Hall e He) in Hs. discriminate.
  - intros e He _. assert (Hall : Forall (λ e, e.(is_duplicated) = false) demo_names)
      by (apply (bool_decide_unpack _); vm_compute; exact I).
    rewrite Forall_forall in Hall. rewrite (Hall e He). reflexivity.
Defined.

(** Otherwise two names may become one: behind its dot each is the only name. *)
Lemma names_may_meet :
  let r := add_names ["ingress.b_c"; "egress.b.c"] [] in
  name_of "ingress.b_c" 0 r = "b_c" ∧ name_of "egress.b.c" 0 r = "b_c".
Proof. vm_compute. done. Qed.
