(* ===== verification/P4Condition.v ===== *)
(** * The P4 translator: conditions (src/rP4-compiler/p4r, p4_parameter.h)

    The condition of a P4 program is a formula; an rP4 stage has a list of operations and
    the results of them for which it goes one way.  [parse] makes the second of the first.
    The theorem says that these are the results for which the formula is true. *)

From stdpp Require Import base numbers list strings sorting.
From Stdlib Require Import ZArith Lia Ascii.
From S2P Require Import Prelude.

#[local] Open Scope Z_scope.

(** ** Parameters *)

(** The member [type] says which of the other members is set; for other types than these
    none is.  An expression has always a P4Expression. *)
Inductive P4Parameter : Set :=
| ParField (field_value : list string)
| ParRuntimeData (runtime_data_value : Z)
| ParHexstr (hexstr_value : string)
| ParBool (bool_value : bool)
| ParHeader (header_value : string)
| ParExpression (op : string) (left right : option P4Parameter)
| ParOther (type : string).

Section parameter_ind.
Context (P : P4Parameter → Prop).
Context (Hfield : ∀ v, P (ParField v)) (Hdata : ∀ i, P (ParRuntimeData i)) (Hhex : ∀ s, P (ParHexstr s)).
Context (Hbool : ∀ b, P (ParBool b)) (Hheader : ∀ s, P (ParHeader s)) (Hother : ∀ s, P (ParOther s)).
Context (Hexpr : ∀ op l r, (∀ p, l = Some p → P p) → (∀ p, r = Some p → P p) → P (ParExpression op l r)).

Fixpoint parameter_ind (p : P4Parameter) : P p :=
  let ind_opt (o : option P4Parameter) : ∀ q, o = Some q → P q :=
    match o with
    | Some q' => λ q (H : Some q' = Some q), eq_ind q' P (parameter_ind q') q (f_equal (default q') H)
    | None => λ q (H : None = Some q), False_ind _ (eq_ind None (λ x, match x with Some _ => False | None => True end) I _ H)
    end in
  match p with
  | ParField v => Hfield v
  | ParRuntimeData i => Hdata i
  | ParHexstr s => Hhex s
  | ParBool b => Hbool b
  | ParHeader s => Hheader s
  | ParExpression op l r => Hexpr op l r (ind_opt l) (ind_opt r)
  | ParOther s => Hother s
  end.
End parameter_ind.

(** ** [P4Parameter::parse]; the strings of 0 and 1 are lists of bits *)
Abbreviation bits := (list bool).

(** The order of strings. *)
Fixpoint bits_leb (a b : bits) : bool :=
  match a, b with
  | [], _ => true
  | _, [] => false
  | x :: a, y :: b => if bool_decide (x = y) then bits_leb a b else y
  end.
Definition bits_le (a b : bits) : Prop := bits_leb a b = true.
#[export] Instance bits_le_dec : RelDecision bits_le.
Proof. intros a b. unfold bits_le. apply _. Defined.

(** [inc_temp]: the next string, and whether there was a carry out of the front. *)
Fixpoint inc_carry (l : bits) : bits * bool :=
  match l with
  | [] => ([], true)
  | b :: l => let '(l, carry) := inc_carry l in if carry then (negb b :: l, b) else (b :: l, false)
  end.
Definition inc (l : bits) : bits := (inc_carry l).1.

(** The loop that pushes the strings up to [s].  After [2 ^ n] rounds all strings were
    pushed: a string that is not found then is never found, and the vector grows until
    [push_back] throws. *)
Fixpoint until (fuel : nat) (s temp : bits) : res (list bits * bits) :=
  match fuel with
  | O => Fault Thrown
  | S fuel =>
      let temp := inc temp in
      if bool_decide (s = temp) then mret ([], temp)
      else '(ans, last) ← until fuel s temp; mret (temp :: ans, last)
  end.

Fixpoint gaps (fuel : nat) (v : list bits) (temp : bits) : res (list bits * bits) :=
  match v with
  | [] => mret ([], temp)
  | s :: v =>
      '(a, temp) ← until fuel s temp;
      '(ans, temp) ← gaps fuel v temp;
      mret (a ++ ans, temp)
  end.

Definition not_apply (v : list bits) : res (list bits) :=
  match v with
  | [] => Fault OutOfBounds
  | s :: _ =>
      let vs := length s in
      '(ans, temp) ← gaps (2 ^ vs) v (replicate vs true);
      '(a, _) ← until (2 ^ vs) (replicate vs false) temp;
      mret (ans ++ a)
  end.

Definition and_apply (v1 v2 : list bits) : list bits := i1 ← v1; (λ i2, i1 ++ i2) <$> v2.

Definition or_apply (v1 v2 : list bits) : res (list bits) :=
  n2 ← not_apply v2;
  n1 ← not_apply v1;
  mret (merge_sort bits_le (and_apply v1 n2 ++ and_apply n1 v2 ++ and_apply v1 v2)).

Fixpoint parse (p : P4Parameter) : res (list P4Parameter * list bits) :=
  let parse_at (o : option P4Parameter) := match o with Some q => parse q | None => Fault NullDeref end in
  match p with
  | ParExpression op l r =>
      if bool_decide (op = "d2b"%string) then parse_at r
      else if bool_decide (op = "not"%string) then '(v, b) ← parse_at r; b ← not_apply b; mret (v, b)
      else if bool_decide (op = "and"%string) then
        '(vl, bl) ← parse_at l; '(vr, br) ← parse_at r; mret (vl ++ vr, and_apply bl br)
      else if bool_decide (op = "or"%string) then
        '(vl, bl) ← parse_at l; '(vr, br) ← parse_at r; b ← or_apply bl br; mret (vl ++ vr, b)
      else mret ([p], [[true]])
  | _ => mret ([p], [[true]])
  end.

(** ** What a condition means *)

(** The connectives have their operands. *)
Fixpoint well_formed (p : P4Parameter) : bool :=
  let at_ (o : option P4Parameter) := match o with Some q => well_formed q | None => false end in
  match p with
  | ParExpression op l r =>
      if bool_decide (op = "d2b"%string) || bool_decide (op = "not"%string) then at_ r
      else if bool_decide (op = "and"%string) || bool_decide (op = "or"%string) then at_ l && at_ r
      else true
  | _ => true
  end.

Section meaning.
(** The truth of what is not a connective. *)
Context (atom : P4Parameter → bool).

Fixpoint holds (p : P4Parameter) : bool :=
  let at_ (o : option P4Parameter) := match o with Some q => holds q | None => false end in
  match p with
  | ParExpression op l r =>
      if bool_decide (op = "d2b"%string) then at_ r
      else if bool_decide (op = "not"%string) then negb (at_ r)
      else if bool_decide (op = "and"%string) then at_ l && at_ r
      else if bool_decide (op = "or"%string) then at_ l || at_ r
      else atom p
  | _ => atom p
  end.
End meaning.

(** ** The strings of a length, in order *)
Fixpoint all (n : nat) : list bits :=
  match n with O => [[]] | S n => (cons false <$> all n) ++ (cons true <$> all n) end.

Lemma elem_of_all n s : s ∈ all n ↔ length s = n.
Proof.
  revert s. induction n as [|n IH]; intros s; cbn [all].
  - rewrite list_elem_of_singleton. by destruct s.
  - rewrite elem_of_app, !list_elem_of_fmap. split.
    + intros [(t & -> & Ht%IH)|(t & -> & Ht%IH)]; cbn; by rewrite Ht.
    + destruct s as [|[] s]; intros Hs; [done|right|left]; exists s; (split; [done|apply IH]); by injection Hs.
Qed.

Lemma length_all n : length (all n) = (2 ^ n)%nat.
Proof. induction n as [|n IH]; [done|]. cbn [all]. rewrite length_app, !length_fmap, IH. cbn. lia. Qed.

Lemma NoDup_all n : NoDup (all n).
Proof.
  induction n as [|n IH]; cbn [all]; [apply NoDup_singleton|]. apply NoDup_app. repeat split.
  - by apply NoDup_fmap_2; [apply _|].
  - intros s (t & -> & _)%list_elem_of_fmap (t' & Ht & _)%list_elem_of_fmap. done.
  - by apply NoDup_fmap_2; [apply _|].
Qed.

(** Each string is the one behind the one in front of it. *)
Fixpoint path (temp : bits) (l : list bits) : Prop :=
  match l with [] => True | y :: l => inc temp = y ∧ path y l end.

(** The same, where no carry goes out. *)
Fixpoint walk (temp : bits) (l : list bits) : Prop :=
  match l with [] => True | y :: l => inc_carry temp = (y, false) ∧ walk y l end.

Lemma walk_path temp l : walk temp l → path temp l.
Proof. revert temp. induction l as [|y l IH]; [done|]. intros temp [H Hw]. split; [unfold inc; by rewrite H|by apply IH]. Qed.

Lemma walk_cons b temp l : walk temp l → walk (b :: temp) (cons b <$> l).
Proof. revert temp. induction l as [|y l IH]; [done|]. intros temp [H Hw]. split; [cbn; by rewrite H|by apply IH]. Qed.

Lemma last_cons {A} (x : A) l d : List.last (x :: l) d = List.last l x.
Proof.
  revert x d. induction l as [|y l IH]; intros x d; [done|]. change (List.last (x :: y :: l) d) with (List.last (y :: l) d).
  by rewrite !IH.
Qed.

Lemma walk_app temp l y l' :
  walk temp l → inc_carry (List.last l temp) = (y, false) → walk y l' → walk temp (l ++ y :: l').
Proof.
  revert temp. induction l as [|z l IH]; intros temp; [intros _ H Hw; by split|]. intros [H Hw] Hl Hy. split; [done|]. apply IH; [done| |done].
  by rewrite <- Hl, last_cons.
Qed.

Lemma inc_ones n : inc_carry (replicate n true) = (replicate n false, true).
Proof. induction n as [|n IH]; [done|]. cbn. by rewrite IH. Qed.

Lemma last_fmap {A B} (f : A → B) l d : List.last (f <$> l) (f d) = f (List.last l d).
Proof. revert d. induction l as [|x l IH]; intros d; [done|]. by rewrite fmap_cons, !last_cons. Qed.

Lemma last_app_cons {A} (l : list A) x l' d : List.last (l ++ x :: l') d = List.last l' x.
Proof. revert d. induction l as [|y l IH]; intros d; cbn [app]; rewrite last_cons; [done|apply IH]. Qed.

Lemma all_walk n : ∃ rest, all n = replicate n false :: rest ∧ walk (replicate n false) rest ∧
  List.last rest (replicate n false) = replicate n true.
Proof.
  induction n as [|n (rest & He & Hw & Hl)]; [by exists []|]. exists ((cons false <$> rest) ++ (true :: replicate n false) :: (cons true <$> rest)).
  cbn [all replicate]. rewrite He, !fmap_cons. split; [done|]. split.
  - apply walk_app; [by apply walk_cons| |by apply walk_cons]. rewrite last_fmap, Hl. cbn. by rewrite inc_ones.
  - rewrite last_app_cons, last_fmap. by rewrite Hl.
Qed.

Lemma path_snoc temp l y : path temp l → inc (List.last l temp) = y → path temp (l ++ [y]).
Proof.
  revert temp. induction l as [|z l IH]; intros temp; [intros _ H; by split|]. intros [H Hp] Hl. split; [done|]. apply IH; [done|].
  by rewrite <- Hl, last_cons.
Qed.

(** From the last string through all strings, and once more to the first. *)
Lemma all_path n : path (replicate n true) (all n ++ [replicate n false]).
Proof.
  destruct (all_walk n) as (rest & -> & Hw & Hl). cbn [app path]. split; [unfold inc; by rewrite inc_ones|].
  apply path_snoc; [by apply walk_path|]. rewrite Hl. unfold inc. by rewrite inc_ones.
Qed.

(** ** The strings that are not in a list *)
Lemma until_path fuel s temp l1 l2 :
  path temp (l1 ++ s :: l2) → s ∉ l1 → (length l1 < fuel)%nat → until fuel s temp = Ok (l1, s) ∧ path s l2.
Proof.
  revert temp l1. induction fuel as [|fuel IH]; intros temp l1 Hp Hs Hf; [lia|]. cbn [until]. destruct l1 as [|x l1].
  - destruct Hp as [-> Hp]. by rewrite bool_decide_true.
  - destruct Hp as [-> Hp]. apply not_elem_of_cons in Hs as [Hx Hs]. rewrite bool_decide_false by done.
    destruct (IH x l1 Hp Hs) as [-> Hp2]; [cbn in Hf; lia|]. done.
Qed.

Definition those (f : bits → bool) (l : list bits) : list bits := filter (λ s, f s = true) l.
Definition others (f : bits → bool) (l : list bits) : list bits := those (λ s, negb (f s)) l.

Lemma those_app f l1 l2 : those f (l1 ++ l2) = those f l1 ++ those f l2.
Proof. apply filter_app. Qed.

Lemma those_none f l : Forall (λ s, f s = false) l → those f l = [].
Proof. induction 1 as [|s l Hs _ IH]; [done|]. unfold those. rewrite filter_cons_False; [done|by rewrite Hs]. Qed.

Lemma those_all f l : Forall (λ s, f s = true) l → those f l = l.
Proof. induction 1 as [|s l Hs _ IH]; [done|]. unfold those. rewrite filter_cons_True; [|done]. f_equal. apply IH. Qed.

Lemma those_head f l s v : those f l = s :: v →
  ∃ l1 l2, l = l1 ++ s :: l2 ∧ Forall (λ s, f s = false) l1 ∧ f s = true ∧ those f l2 = v.
Proof.
  induction l as [|x l IH]; [done|]. unfold those. rewrite filter_cons. case_decide as Hx.
  - intros [= -> <-]. by exists [], l.
  - intros (l1 & l2 & -> & ? & ? & ?)%IH. exists (x :: l1), l2. split; [done|]. split; [|done]. constructor; [by destruct (f x)|done].
Qed.

Lemma others_none f l : Forall (λ s, f s = false) l → others f l = l.
Proof. intros H. apply those_all. eapply Forall_impl; [exact H|]. intros s Hs. cbn. by rewrite Hs. Qed.

Lemma gaps_path fuel f z v temp R :
  those f R = v → path temp (R ++ [z]) → NoDup R → (length R ≤ fuel)%nat →
  ∃ ans t pre l, gaps fuel v temp = Ok (ans, t) ∧ R = pre ++ l ∧ (v ≠ [] → pre ≠ []) ∧ path t (l ++ [z]) ∧
    others f R = ans ++ l.
Proof.
  revert temp R. induction v as [|s v IH]; intros temp R Hv Hp Hnd Hf.
  - exists [], temp, [], R. repeat split; try done. apply others_none. apply Forall_forall. intros s Hs.
    destruct (f s) eqn:E; [|done]. exfalso. assert (s ∈ those f R) as Hin by (by apply list_elem_of_filter). by rewrite Hv in Hin; apply elem_of_nil in Hin.
  - apply those_head in Hv as (l1 & l2 & -> & Hl1 & Hs & Hv). rewrite <- app_assoc in Hp. cbn [app] in Hp.
    apply NoDup_app in Hnd as (_ & Hd & Hnd2). apply NoDup_cons in Hnd2 as [_ Hnd2].
    rewrite length_app, length_cons in Hf.
    destruct (until_path fuel s temp l1 (l2 ++ [z])) as [Hu Hp2]; [done| |lia|].
    { intros Hin. apply (Hd s Hin). by left. }
    destruct (IH s l2 Hv Hp2 Hnd2) as (ans & t & pre & l & Hg & -> & _ & Hpt & Ho); [lia|].
    exists (l1 ++ ans), t, (l1 ++ s :: pre), l. cbn [gaps]. rewrite Hu. cbn [mbind res_mbind]. rewrite Hg. split; [done|].
    split; [by rewrite <- app_assoc|]. split; [by destruct l1|]. split; [done|].
    unfold others in *. rewrite those_app. fold (others f l1). rewrite (others_none f l1) by done.
    unfold those at 1. rewrite filter_cons_False by (by rewrite Hs). fold (those (λ s, negb (f s)) (pre ++ l)).
    by rewrite Ho, <- app_assoc.
Qed.

Lemma not_apply_those n f : those f (all n) ≠ [] → not_apply (those f (all n)) = Ok (others f (all n)).
Proof.
  intros Hne. unfold not_apply. destruct (those f (all n)) as [|s v] eqn:E; [done|].
  assert (Hs : length s = n).
  { assert (s ∈ those f (all n)) as Hin by (rewrite E; by left). by apply list_elem_of_filter in Hin as [_ Hin%elem_of_all]. }
  rewrite Hs, <- E. clear Hs.
  destruct (gaps_path (2 ^ n) f (replicate n false) (those f (all n)) (replicate n true) (all n))
    as (ans & t & pre & l & -> & Hpre & Hne' & Hp & Ho); [done|apply all_path|apply NoDup_all|by rewrite length_all|].
  cbn [mbind res_mbind]. destruct (until_path (2 ^ n) (replicate n false) t l []) as [-> _]; [done|..].
  - destruct pre as [|x pre]; [by destruct Hne'; [rewrite E|]|]. destruct (all_walk n) as (rest & Ha & _). rewrite Ha in Hpre.
    injection Hpre as <- Hrest. pose proof (NoDup_all n) as Hnd. rewrite Ha, Hrest in Hnd. apply NoDup_cons in Hnd as [Hni _].
    intros Hin. apply Hni. apply elem_of_app. by right.
  - pose proof (length_all n) as Hl. rewrite Hpre, length_app in Hl. destruct pre; [by destruct Hne'; [rewrite E|]|]. cbn in Hl. lia.
  - cbn [mbind res_mbind mret res_mret]. by rewrite Ho.
Qed.

(** ** The connectives *)
Lemma and_apply_cons i1 v1 v2 : and_apply (i1 :: v1) v2 = ((λ i2, i1 ++ i2) <$> v2) ++ and_apply v1 v2.
Proof. done. Qed.

Lemma and_apply_app v1 v1' v2 : and_apply (v1 ++ v1') v2 = and_apply v1 v2 ++ and_apply v1' v2.
Proof. induction v1 as [|i1 v1 IH]; [done|]. cbn [app]. by rewrite !and_apply_cons, IH, app_assoc. Qed.

Lemma and_apply_front b v1 v2 : and_apply (cons b <$> v1) v2 = cons b <$> and_apply v1 v2.
Proof.
  induction v1 as [|i1 v1 IH]; [done|]. rewrite fmap_cons, !and_apply_cons, fmap_app, IH, <- list_fmap_compose. done.
Qed.

Lemma all_add n1 n2 : all (n1 + n2) = and_apply (all n1) (all n2).
Proof.
  induction n1 as [|n1 IH]; cbn [all Nat.add].
  - rewrite and_apply_cons. cbn [app]. rewrite app_nil_r. by rewrite list_fmap_id.
  - by rewrite and_apply_app, !and_apply_front, IH.
Qed.

(** A test of the front and a test of the rest. *)
Definition both (n : nat) (o : bool → bool → bool) (f g : bits → bool) (s : bits) : bool := o (f (take n s)) (g (drop n s)).

Lemma those_fmap f (h : bits → bits) l : those f (h <$> l) = h <$> those (λ s, f (h s)) l.
Proof.
  induction l as [|s l IH]; [done|]. unfold those in *. rewrite fmap_cons, !filter_cons. case_decide; [by rewrite fmap_cons, IH|done].
Qed.

Lemma those_ext f g l : (∀ s, s ∈ l → f s = g s) → those f l = those g l.
Proof.
  intros H. induction l as [|s l IH]; [done|]. unfold those in *. rewrite !filter_cons, (H s) by (by left).
  rewrite IH by (intros; apply H; by right). done.
Qed.

Lemma and_apply_nil v1 : and_apply v1 [] = [].
Proof. induction v1 as [|i1 v1 IH]; [done|]. by rewrite and_apply_cons, IH. Qed.

Lemma and_apply_those n l1 l2 f g : Forall (λ s, length s = n) l1 →
  and_apply (those f l1) (those g l2) = those (both n andb f g) (and_apply l1 l2).
Proof.
  induction 1 as [|s l1 Hs _ IH]; [done|]. rewrite and_apply_cons, those_app, those_fmap, <- IH.
  assert (Hb : ∀ t, both n andb f g (s ++ t) = f s && g t).
  { intros t. unfold both. by rewrite <- Hs, take_app_length, drop_app_length. }
  unfold those at 1. rewrite filter_cons. case_decide as Hf.
  - rewrite and_apply_cons. fold (those f l1). do 2 f_equal. apply those_ext. intros t _. by rewrite Hb, Hf.
  - fold (those f l1). rewrite (those_none (λ t, both n andb f g (s ++ t))); [done|]. apply Forall_forall. intros t _. rewrite Hb.
    by apply not_true_is_false in Hf as ->.
Qed.

Lemma and_all n1 n2 f g : and_apply (those f (all n1)) (those g (all n2)) = those (both n1 andb f g) (all (n1 + n2)).
Proof. rewrite all_add. apply and_apply_those. apply Forall_forall. intros s. by rewrite elem_of_all. Qed.

(** Three parts of a disjunction. *)
Lemma those_or p q l :
  those (λ s, p s && negb (q s)) l ++ those (λ s, negb (p s) && q s) l ++ those (λ s, p s && q s) l ≡ₚ those (λ s, p s || q s) l.
Proof.
  induction l as [|s l IH]; [done|]. unfold those in *. rewrite !filter_cons.
  destruct (p s), (q s); cbn [andb orb negb]; repeat (case_decide; try done); rewrite <- IH; solve_Permutation.
Qed.

(** ** The order of the strings *)
#[local] Instance bits_le_trans : Transitive bits_le.
Proof.
  unfold bits_le. intros a. induction a as [|x a IH]; intros [|y b] [|z c] Hab Hbc; try done. revert Hab Hbc.
  destruct x, y, z; cbn; try done; apply IH.
Qed.
#[local] Instance bits_le_total : Total bits_le.
Proof.
  unfold bits_le. intros a. induction a as [|x a IH]; intros [|y b]; [by left|by left|by right|].
  destruct x, y; cbn; auto; apply IH.
Qed.
#[local] Instance bits_le_antisymm : AntiSymm (=) bits_le.
Proof.
  unfold bits_le. intros a. induction a as [|x a IH]; intros [|y b]; try done.
  destruct x, y; cbn; try done; intros; f_equal; by apply IH.
Qed.

Lemma sorted_all n : StronglySorted bits_le (all n).
Proof.
  induction n as [|n IH]; cbn [all]; [apply (bool_decide_unpack _); vm_compute; exact I|].
  assert (Hc : ∀ b, StronglySorted bits_le (cons b <$> all n)).
  { intros b. eapply StronglySorted_fmap; [|exact IH]. intros s t Hst. unfold bits_le. cbn. by rewrite bool_decide_true. }
  apply StronglySorted_app_2; [|done..]. intros s t (s' & -> & _)%list_elem_of_fmap (t' & -> & _)%list_elem_of_fmap. done.
Qed.

Lemma sorted_filter {A} (R : A → A → Prop) (P : A → Prop) `{∀ x, Decision (P x)} l : StronglySorted R l → StronglySorted R (filter P l).
Proof.
  induction 1 as [|s l _ IH Hs]; [constructor|]. rewrite filter_cons. case_decide; [|done]. constructor; [done|].
  rewrite Forall_forall in *. intros t [_ Ht]%list_elem_of_filter. by apply Hs.
Qed.

Lemma sorted_those f l : StronglySorted bits_le l → StronglySorted bits_le (those f l).
Proof. apply sorted_filter. Qed.

Lemma sort_those f n l : l ≡ₚ those f (all n) → merge_sort bits_le l = those f (all n).
Proof.
  intros Hl. eapply StronglySorted_unique; [apply _| | |by rewrite merge_sort_Permutation].
  - apply (StronglySorted_merge_sort bits_le).
  - apply sorted_those, sorted_all.
Qed.

Lemma or_all n1 n2 f g : those f (all n1) ≠ [] → those g (all n2) ≠ [] →
  or_apply (those f (all n1)) (those g (all n2)) = Ok (those (both n1 orb f g) (all (n1 + n2))).
Proof.
  intros Hf Hg. unfold or_apply. rewrite !not_apply_those by done. cbn [mbind res_mbind mret res_mret]. f_equal. apply sort_those.
  unfold others. rewrite !and_all, <- (those_or (λ s, f (take n1 s)) (λ s, g (drop n1 s))). done.
Qed.

(** ** The theorem *)

(** The function of the operations that a condition is. *)
Record patterns_of (p : P4Parameter) (v : list P4Parameter) (f : bits → bool) : Prop := {
  po_parse : parse p = Ok (v, those f (all (length v)));
  po_some : ∃ s, length s = length v ∧ f s = true;
  po_other : ∃ s, length s = length v ∧ f s = false;
  po_holds : ∀ atom, f (atom <$> v) = holds atom p;
}.

Lemma those_some f n s : length s = n → f s = true → those f (all n) ≠ [].
Proof.
  intros Hs Hf He. assert (s ∈ those f (all n)) as Hin by (apply list_elem_of_filter; split; [done|by apply elem_of_all]).
  rewrite He in Hin. by apply elem_of_nil in Hin.
Qed.

Lemma patterns_atom p : parse p = Ok ([p], [[true]]) → (∀ atom, holds atom p = atom p) →
  patterns_of p [p] (λ s, default false (head s)).
Proof.
  intros Hp Ha. split; [done|by exists [true]|by exists [false]|]. intros atom. by rewrite Ha.
Qed.

Lemma patterns_both o p l r vl vr fl fr (h : bool → bool → bool) :
  patterns_of l vl fl → patterns_of r vr fr → p = ParExpression o (Some l) (Some r) →
  h true true = true → h false false = false →
  parse p = Ok (vl ++ vr, those (both (length vl) h fl fr) (all (length vl + length vr))) →
  (∀ atom, holds atom p = h (holds atom l) (holds atom r)) →
  patterns_of p (vl ++ vr) (both (length vl) h fl fr).
Proof.
  intros [_ (s1 & Hs1 & Ht1) (s1' & Hs1' & Hf1) Hh1] [_ (s2 & Hs2 & Ht2) (s2' & Hs2' & Hf2) Hh2] -> Htt Hff Hp Hh.
  assert (Hb : ∀ a b, length a = length vl → both (length vl) h fl fr (a ++ b) = h (fl a) (fr b)).
  { intros a b Ha. unfold both. by rewrite <- Ha, take_app_length, drop_app_length. }
  split.
  - by rewrite Hp, length_app.
  - exists (s1 ++ s2). rewrite !length_app, Hb by done. split; [congruence|]. by rewrite Ht1, Ht2.
  - exists (s1' ++ s2'). rewrite !length_app, Hb by done. split; [congruence|]. by rewrite Hf1, Hf2.
  - intros atom. rewrite fmap_app, Hb by (by rewrite length_fmap). by rewrite Hh, Hh1, Hh2.
Qed.

Lemma patterns_not p r v f : patterns_of r v f → parse p = (b ← not_apply (those f (all (length v))); mret (v, b)) →
  (∀ atom, holds atom p = negb (holds atom r)) → patterns_of p v (λ s, negb (f s)).
Proof.
  intros [_ (s & Hs & Ht) (s' & Hs' & Hf) Hh] Hp Hn. split.
  - rewrite Hp, not_apply_those; [done|]. by apply (those_some f _ s).
  - exists s'. by rewrite Hf.
  - exists s. by rewrite Ht.
  - intros atom. by rewrite Hn, Hh.
Qed.

Lemma parse_patterns p : well_formed p = true → ∃ v f, patterns_of p v f.
Proof.
  induction p as [v|i|s|b|s|s|op l r IHl IHr] using parameter_ind; intros Hw; try (by eexists _, _; apply patterns_atom).
  cbn [well_formed] in Hw. set (p := ParExpression op l r).
  destruct (decide (op = "d2b"%string)) as [->|H1]; [|destruct (decide (op = "not"%string)) as [->|H2];
    [|destruct (decide (op = "and"%string)) as [->|H3]; [|destruct (decide (op = "or"%string)) as [->|H4]]]].
  - destruct r as [r|]; [|done]. destruct (IHr r eq_refl Hw) as (v & f & [Hp Hs Ho Hh]). by exists v, f.
  - destruct r as [r|]; [|done]. destruct (IHr r eq_refl Hw) as (v & f & Hr). exists v, (λ s, negb (f s)).
    apply (patterns_not p r v f Hr); [|done]. unfold p. cbn [parse]. rewrite !bool_decide_false, bool_decide_true by done.
    by rewrite (po_parse _ _ _ Hr).
  - cbn in Hw. destruct l as [l|]; [|done]. destruct r as [r|]; [|by rewrite andb_false_r in Hw]. apply andb_prop in Hw as [Hwl Hwr].
    destruct (IHl l eq_refl Hwl) as (vl & fl & Hl). destruct (IHr r eq_refl Hwr) as (vr & fr & Hr).
    exists (vl ++ vr), (both (length vl) andb fl fr). apply (patterns_both "and"%string p l r vl vr fl fr andb Hl Hr); try done.
    unfold p. cbn [parse]. rewrite !bool_decide_false, bool_decide_true by done.
    rewrite (po_parse _ _ _ Hl), (po_parse _ _ _ Hr). cbn [mbind res_mbind mret res_mret]. by rewrite and_all.
  - cbn in Hw. destruct l as [l|]; [|done]. destruct r as [r|]; [|by rewrite andb_false_r in Hw]. apply andb_prop in Hw as [Hwl Hwr].
    destruct (IHl l eq_refl Hwl) as (vl & fl & Hl). destruct (IHr r eq_refl Hwr) as (vr & fr & Hr).
    exists (vl ++ vr), (both (length vl) orb fl fr). apply (patterns_both "or"%string p l r vl vr fl fr orb Hl Hr); try done.
    unfold p. cbn [parse]. rewrite !bool_decide_false, bool_decide_true by done.
    rewrite (po_parse _ _ _ Hl), (po_parse _ _ _ Hr). cbn [mbind res_mbind mret res_mret].
    destruct (po_some _ _ _ Hl) as (s1 & Hs1 & Ht1). destruct (po_some _ _ _ Hr) as (s2 & Hs2 & Ht2).
    rewrite or_all; [done|by apply (those_some fl _ s1)|by apply (those_some fr _ s2)].
  - eexists _, _. apply patterns_atom; unfold p; cbn [parse holds]; intros; by rewrite !bool_decide_false by done.
Qed.

(** The patterns of a condition: if every connective has its operands, [parse] gives
    the conditions between the connectives, from left to right, and strings with one
    place for each of them.  Whatever the conditions are, their results are one of the
    strings just if the formula is true.  There is at least one string, and no string is there
    twice; they are in their order, which is what the complement of a list, made for
    negation and disjunction, relies on to end. *)
Lemma condition_patterns p : well_formed p = true →
  ∃ v b, parse p = Ok (v, b) ∧ b ≠ [] ∧ Forall (λ s, length s = length v) b ∧ StronglySorted bits_le b ∧ NoDup b ∧
    ∀ atom, (atom <$> v) ∈ b ↔ holds atom p = true.
Proof.
  intros (v & f & Hp)%parse_patterns. exists v, (those f (all (length v))). destruct Hp as [Hp (s & Hs & Hf) _ Hh].
  split; [done|]. split; [by apply (those_some f _ s)|]. split; [|split; [|split]].
  - apply Forall_forall. intros t [_ Ht]%list_elem_of_filter. by apply elem_of_all.
  - apply sorted_those, sorted_all.
  - apply NoDup_filter, NoDup_all.
  - intros atom. rewrite <- Hh. unfold those. rewrite list_elem_of_filter, elem_of_all, length_fmap. tauto.
Qed.

(** not (a and b) or c, with fields for a, b and c. *)
Definition demo_condition : P4Parameter :=
  let field s := Some (ParField [s; "$valid$"]%string) in
  ParExpression "or" (Some (ParExpression "not" None (Some (ParExpression "and" (field "a"%string) (field "b"%string))))) (field "c"%string).

Lemma condition_patterns_witness :
  well_formed demo_condition = true ∧ ∃ v b, parse demo_condition = Ok (v, b) ∧ b ≠ [] ∧ Forall (λ s, length s = length v) b ∧
    StronglySorted bits_le b ∧ NoDup b ∧ ∀ atom, (atom <$> v) ∈ b ↔ holds atom demo_condition = true.
Proof. split; [reflexivity|]. apply condition_patterns. reflexivity. Defined.

Lemma demo_condition_patterns :
  (snd <$> parse demo_condition) = Ok [[false; false; false]; [false; false; true]; [false; true; false]; [false; true; true];
    [true; false; false]; [true; false; true]; [true; true; true]].
Proof. vm_compute. reflexivity. Qed.

(** A negation without operand reads a null pointer. *)
Lemma not_without_operand l : parse (ParExpression "not" l None) = Fault NullDeref.
Proof. reflexivity. Qed.
