(* ===== verification/P4Program.v ===== *)
(** * The P4 translator: the program (src/rP4-compiler/p4r)

    What the translator keeps of a P4 program, and how it takes it out of the JSON file
    the P4 compiler writes.  A member that is missing or of another type throws, and
    nothing catches it. *)

From stdpp Require Import base numbers list gmap strings pretty sorting.
From Stdlib Require Import ZArith Lia.
From S2P Require Import Prelude Headers P4Condition.

#[local] Open Scope Z_scope.

(** ** JSON, as json.hpp gives it; an object has its members in the order of their names *)
Inductive json : Set :=
| JsonNull
| JsonBool (b : bool)
| JsonInt (n : Z)
| JsonString (s : string)
| JsonArray (l : list json)
| JsonObject (d : list (string * json)).

Fixpoint depth (v : json) : nat :=
  match v with
  | JsonArray l => S (foldr (λ v n, (depth v `max` n)%nat) 0%nat l)
  | JsonObject d => S (foldr (λ kv n, (depth kv.2 `max` n)%nat) 0%nat d)
  | _ => 1%nat
  end.

Definition json_find (k : string) (v : json) : option json :=
  match v with
  | JsonObject d => match list_find (λ kv, kv.1 = k) d with Some (_, kv) => Some kv.2 | None => None end
  | _ => None
  end.
Definition json_at (k : string) (v : json) : res json := match json_find k v with Some x => Ok x | None => Fault Thrown end.
Definition json_nth (i : nat) (v : json) : res json :=
  match v with JsonArray l => match l !! i with Some x => Ok x | None => Fault Thrown end | _ => Fault Thrown end.

(** [get]: a number is cut to an int, and a Boolean is a number too. *)
Definition json_string (v : json) : res string := match v with JsonString s => Ok s | _ => Fault Thrown end.
Definition json_int (v : json) : res Z :=
  match v with JsonInt n => Ok (i32 n) | JsonBool b => Ok (if b then 1 else 0) | _ => Fault Thrown end.
Definition json_bool (v : json) : res bool := match v with JsonBool b => Ok b | _ => Fault Thrown end.
Definition safe_convert (v : json) : res string := match v with JsonNull => mret EmptyString | v => json_string v end.

(** What a loop visits. *)
Definition json_elements (v : json) : list json :=
  match v with JsonNull => [] | JsonArray l => l | JsonObject d => d.*2 | v => [v] end.

Definition string_of (k : string) (v : json) : res string := x ← json_at k v; json_string x.
Definition int_of (k : string) (v : json) : res Z := x ← json_at k v; json_int x.
Definition bool_of (k : string) (v : json) : res bool := x ← json_at k v; json_bool x.
Definition text_of (k : string) (v : json) : res string := x ← json_at k v; safe_convert x.
Definition each_of {A} (f : json → res A) (k : string) (v : json) : res (list A) := x ← json_at k v; collect f (json_elements x).

(** ** Data *)
Record P4HeaderField : Set := mkP4HeaderField { hf_name : string; hf_width : Z }.
Record P4HeaderType : Set := mkP4HeaderType { ht_name : string; ht_fields : list P4HeaderField }.
Record P4Header : Set := mkP4Header { h_name : string; h_id : Z; header_type_name : string; h_metadata : bool }.
Record P4Headers : Set := mkP4Headers { header_types : list P4HeaderType; p4_headers : list P4Header }.

Record Transition : Set := mkTransition { tr_value : string; tr_mask : string; tr_next_state : string }.
Record P4ParseState : Set := mkP4ParseState {
  ps_name : string;
  parser_ops : list string;
  ps_transitions : list Transition;
  transition_key : list (list string);
}.
Record P4Parser : Set := mkP4Parser { pa_name : string; init_state : string; parse_states : list P4ParseState }.

Record P4RuntimeData : Set := mkP4RuntimeData { rd_name : string; bitwidth : Z }.
Record P4Primitive : Set := mkP4Primitive { p_op : string; p_parameters : list P4Parameter }.
Record P4Action : Set := mkP4Action {
  act_name : string;
  act_id : Z;
  runtime_data : list P4RuntimeData;
  act_primitives : list P4Primitive;
}.

Record P4Key : Set := mkP4Key { key_match_type : string; key_name : string; key_target : list string; key_mask : string }.
Record P4DefaultEntry : Set := mkP4DefaultEntry { de_action_id : Z; de_action_data : list string }.
Record P4MatchKey : Set := mkP4MatchKey { mk_match_type : string; mk_key : string; mk_prefix_length : Z; mk_mask : string }.
Record P4Entry : Set := mkP4Entry { en_entry : P4DefaultEntry; en_match_key : list P4MatchKey }.
Record P4Table : Set := mkP4Table {
  t_name : string;
  t_key : list P4Key;
  max_size : Z;
  action_ids : list Z;
  t_actions : list string;
  next_tables : gmap string string;
  t_default_entry : P4DefaultEntry;
  t_entries : list P4Entry;
}.
Record P4Conditional : Set := mkP4Conditional {
  c_name : string;
  c_expression : P4Parameter;
  true_next : string;
  false_next : string;
}.
Record P4Pipeline : Set := mkP4Pipeline {
  pipe_name : string;
  init_table : string;
  pipe_tables : list P4Table;
  conditionals : list P4Conditional;
}.
Record P4Json : Set := mkP4Json {
  headers : P4Headers;
  parsers : list P4Parser;
  actions : list P4Action;
  pipelines : list P4Pipeline;
}.

(** ** Reading (p4r.cpp) *)
Definition extract_header_types (j : json) : res (list P4HeaderType) :=
  each_of (λ h,
    name ← string_of "name" h;
    fields ← each_of (λ f, n ← json_nth 0 f; n ← json_string n; w ← json_nth 1 f; w ← json_int w; mret (mkP4HeaderField n w)) "fields" h;
    mret (mkP4HeaderType name fields)) "header_types" j.

Definition extract_headers (j : json) : res (list P4Header) :=
  each_of (λ h,
    name ← string_of "name" h;
    id ← int_of "id" h;
    type ← string_of "header_type" h;
    metadata ← bool_of "metadata" h;
    mret (mkP4Header name id type metadata)) "headers" j.

Definition extract_parsers (j : json) : res (list P4Parser) :=
  each_of (λ p,
    name ← string_of "name" p;
    init ← string_of "init_state" p;
    states ← each_of (λ s,
      name ← string_of "name" s;
      ops ← each_of (λ o, ps ← json_at "parameters" o; x ← json_nth 0 ps; string_of "value" x) "parser_ops" s;
      transitions ← each_of (λ t, v ← string_of "value" t; m ← text_of "mask" t; n ← text_of "next_state" t; mret (mkTransition v m n))
        "transitions" s;
      keys ← each_of (each_of json_string "value") "transition_key" s;
      mret (mkP4ParseState name ops transitions keys)) "parse_states" p;
    mret (mkP4Parser name init states)) "parsers" j.

(** [fuel]: the depth of the value is enough. *)
Fixpoint extract_parameter (fuel : nat) (j : json) : res P4Parameter :=
  match fuel with
  | O => Fault Thrown
  | S fuel =>
      type ← string_of "type" j;
      if bool_decide (type = "field"%string) then v ← each_of json_string "value" j; mret (ParField v)
      else if bool_decide (type = "runtime_data"%string) then n ← int_of "value" j; mret (ParRuntimeData n)
      else if bool_decide (type = "bool"%string) then b ← bool_of "value" j; mret (ParBool b)
      else if bool_decide (type = "hexstr"%string) then s ← string_of "value" j; mret (ParHexstr s)
      else if bool_decide (type = "header"%string) then s ← string_of "value" j; mret (ParHeader s)
      else if bool_decide (type = "expression"%string) then
        nested ← json_at "value" j;
        match json_find "type" nested with
        | Some _ => extract_parameter fuel nested
        | None =>
            op ← string_of "op" nested;
            l ← json_at "left" nested;
            l ← match l with JsonNull => mret None | l => p ← extract_parameter fuel l; mret (Some p) end;
            r ← json_at "right" nested;
            r ← match r with JsonNull => mret None | r => p ← extract_parameter fuel r; mret (Some p) end;
            mret (ParExpression op l r)
        end
      else mret (ParOther type)
  end.
Definition parameter_of (j : json) : res P4Parameter := extract_parameter (depth j) j.

Definition extract_actions (j : json) : res (list P4Action) :=
  each_of (λ a,
    name ← string_of "name" a;
    id ← int_of "id" a;
    data ← each_of (λ d, n ← string_of "name" d; w ← int_of "bitwidth" d; mret (mkP4RuntimeData n w)) "runtime_data" a;
    prims ← each_of (λ p, op ← string_of "op" p; ps ← each_of parameter_of "parameters" p; mret (mkP4Primitive op ps)) "primitives" a;
    mret (mkP4Action name id data prims)) "actions" j.

Definition extract_key (k : json) : res P4Key :=
  name ← string_of "name" k;
  match_type ← string_of "match_type" k;
  target ← each_of json_string "target" k;
  mask ← text_of "mask" k;
  mret (mkP4Key match_type name target mask).

(** The members of an object, one after the other, into the map. *)
Definition extract_next_tables (t : json) : res (gmap string string) :=
  x ← json_at "next_tables" t;
  match x with
  | JsonObject d => kvs ← collect (λ kv : string * json, s ← safe_convert kv.2; mret (kv.1, s)) d; mret (foldl (λ m kv, <[kv.1 := kv.2]> m) ∅ kvs)
  | JsonNull => mret ∅
  | JsonArray l => kvs ← collect (λ iv : nat * json, s ← safe_convert iv.2; mret (pretty iv.1, s)) (imap pair l); mret (foldl (λ m kv, <[kv.1 := kv.2]> m) ∅ kvs)
  | v => s ← safe_convert v; mret {[ ""%string := s ]}
  end.

(** [prefix_length] and [mask] are set for their kind of key only, and only looked at
    there. *)
Definition extract_match_key (k : json) : res P4MatchKey :=
  type ← string_of "match_type" k;
  key ← string_of "key" k;
  if bool_decide (type = "lpm"%string) then n ← int_of "prefix_length" k; mret (mkP4MatchKey type key n EmptyString)
  else if bool_decide (type = "ternary"%string) then m ← string_of "mask" k; mret (mkP4MatchKey type key 0 m)
  else mret (mkP4MatchKey type key 0 EmptyString).

Definition extract_default (e : json) : res P4DefaultEntry :=
  id ← int_of "action_id" e;
  data ← each_of json_string "action_data" e;
  mret (mkP4DefaultEntry id data).

Definition extract_entry (e : json) : res P4Entry :=
  keys ← each_of extract_match_key "match_key" e;
  entry ← (x ← json_at "action_entry" e; extract_default x);
  mret (mkP4Entry entry keys).

Definition extract_table (t : json) : res P4Table :=
  name ← string_of "name" t;
  key ← each_of extract_key "key" t;
  size ← int_of "max_size" t;
  ids ← each_of json_int "action_ids" t;
  acts ← each_of json_string "actions" t;
  next ← extract_next_tables t;
  dflt ← (x ← json_at "default_entry" t; extract_default x);
  entries ← match json_find "entries" t with Some x => collect extract_entry (json_elements x) | None => mret [] end;
  mret (mkP4Table name key size ids acts next dflt entries).

Definition extract_conditional (c : json) : res P4Conditional :=
  name ← string_of "name" c;
  t ← text_of "true_next" c;
  f ← text_of "false_next" c;
  e ← (x ← json_at "expression" c; parameter_of x);
  mret (mkP4Conditional name e t f).

Definition extract_pipelines (j : json) : res (list P4Pipeline) :=
  each_of (λ p,
    name ← string_of "name" p;
    init ← text_of "init_table" p;
    tables ← each_of extract_table "tables" p;
    conds ← each_of extract_conditional "conditionals" p;
    mret (mkP4Pipeline name init tables conds)) "pipelines" j.

(** ** [create_hit_miss_actions] *)
Definition is_hit_miss (key : string) : bool := bool_decide (key = "__HIT__"%string) || bool_decide (key = "__MISS__"%string).
Definition set_default_action (id : Z) (t : P4Table) : P4Table :=
  {| t_name := t.(t_name); t_key := t.(t_key); max_size := t.(max_size); action_ids := t.(action_ids); t_actions := t.(t_actions);
     next_tables := t.(next_tables); t_default_entry := mkP4DefaultEntry id t.(t_default_entry).(de_action_data);
     t_entries := t.(t_entries) |}.

(** The state: the number of the next action, and the actions. *)
Definition hit_miss_key (st : Z * list P4Action * P4Table) (kv : string * string) : Z * list P4Action * P4Table :=
  let '(id, acts, t) := st in
  if is_hit_miss kv.1 then (id + 1, acts ++ [mkP4Action (t.(t_name) +:+ kv.1) id [] []], set_default_action id t) else st.

Definition hit_miss_table (st : Z * list P4Action * list P4Table) (t : P4Table) : Z * list P4Action * list P4Table :=
  let '(id, acts, ts) := st in
  let '(id, acts, t) := fold_left hit_miss_key (in_name_order t.(next_tables)) (id, acts, t) in
  (id, acts, ts ++ [t]).

Definition hit_miss_pipe (st : Z * list P4Action * list P4Pipeline) (p : P4Pipeline) : Z * list P4Action * list P4Pipeline :=
  let '(id, acts, ps) := st in
  let '(id, acts, ts) := fold_left hit_miss_table p.(pipe_tables) (id, acts, []) in
  (id, acts, ps ++ [mkP4Pipeline p.(pipe_name) p.(init_table) ts p.(conditionals)]).

Definition create_hit_miss_actions (p : P4Json) : P4Json :=
  let '(_, acts, pipes) := fold_left hit_miss_pipe p.(pipelines) (16777215, p.(actions), []) in
  mkP4Json p.(headers) p.(parsers) acts pipes.

(** The program of a file. *)
Definition read_p4 (j : json) : res P4Json :=
  types ← extract_header_types j;
  hs ← extract_headers j;
  ps ← extract_parsers j;
  acts ← extract_actions j;
  pipes ← extract_pipelines j;
  mret (create_hit_miss_actions (mkP4Json (mkP4Headers types hs) ps acts pipes)).

(** ** Enough fuel *)
Lemma depth_at k v x : json_find k v = Some x → (depth x < depth v)%nat.
Proof.
  destruct v as [| | | | |d]; try done. cbn [json_find depth]. destruct (list_find _ d) as [[i kv]|] eqn:Hf; [|done]. intros [= <-].
  apply list_find_Some in Hf as (Hi & _ & _). clear k. revert i Hi. induction d as [|kv' d IH]; intros i Hi; [done|].
  cbn [foldr]. destruct i as [|i]; [injection Hi as ->; lia|]. specialize (IH i Hi). lia.
Qed.

Lemma json_at_find k v x : json_at k v = Ok x → json_find k v = Some x.
Proof. unfold json_at. destruct (json_find k v); congruence. Qed.

Lemma bind_ext {A B} (r : res A) (f g : A → res B) : (∀ x, r = Ok x → f x = g x) → r ≫= f = r ≫= g.
Proof. intros H. destruct r as [x|]; [by apply H|done]. Qed.

Lemma extract_parameter_more n m j : (depth j ≤ n)%nat → (depth j ≤ m)%nat → extract_parameter n j = extract_parameter m j.
Proof.
  revert m j. induction n as [|n IH]; intros m j Hn Hm; [destruct j; cbn in Hn; lia|]. destruct m as [|m]; [destruct j; cbn in Hm; lia|].
  cbn [extract_parameter]. apply bind_ext. intros type _. repeat case_bool_decide; try done. apply bind_ext. intros nested Hv%json_at_find%depth_at.
  destruct (json_find "type" nested) as [x|]; [apply IH; lia|]. apply bind_ext. intros op _. apply bind_ext. intros l Hl%json_at_find%depth_at.
  assert (Hle : extract_parameter n l = extract_parameter m l) by (apply IH; lia).
  transitivity (l ← match l with JsonNull => mret None | l => p ← extract_parameter m l; mret (Some p) end;
    r ← json_at "right" nested;
    r ← match r with JsonNull => mret None | r => p ← extract_parameter n r; mret (Some p) end;
    mret (ParExpression op l r)); [by rewrite <- Hle|].
  apply bind_ext. intros l' _. apply bind_ext. intros r Hr%json_at_find%depth_at.
  assert (Hre : extract_parameter n r = extract_parameter m r) by (apply IH; lia). by rewrite Hre.
Qed.

(** The depth of a value is as good as any more fuel. *)
Lemma parameter_of_fuel n j : (depth j ≤ n)%nat → extract_parameter n j = parameter_of j.
Proof. intros H. by apply extract_parameter_more. Qed.

(** ** Actions for hits and misses *)
Definition extends (id : Z) (acts : list P4Action) (id' : Z) (acts' new : list P4Action) : Prop :=
  acts' = acts ++ new ∧ id ≤ id' ∧ act_id <$> new = seqZ id (id' - id).

Lemma extends_nil id acts : extends id acts id acts [].
Proof. split; [by rewrite app_nil_r|]. split; [lia|]. by rewrite Z.sub_diag. Qed.

Lemma extends_trans id acts id1 acts1 new1 id2 acts2 new2 :
  extends id acts id1 acts1 new1 → extends id1 acts1 id2 acts2 new2 → extends id acts id2 acts2 (new1 ++ new2).
Proof.
  intros (-> & H1 & Hn1) (-> & H2 & Hn2). split; [by rewrite app_assoc|]. split; [lia|]. rewrite fmap_app, Hn1, Hn2.
  replace (id2 - id) with ((id1 - id) + (id2 - id1)) by lia. rewrite seqZ_app by lia. do 2 f_equal. lia.
Qed.

(** Which action becomes the default action of a table. *)
Definition default_key (t : P4Table) : option string :=
  if bool_decide (is_Some (t.(next_tables) !! "__MISS__"%string)) then Some "__MISS__"%string
  else if bool_decide (is_Some (t.(next_tables) !! "__HIT__"%string)) then Some "__HIT__"%string else None.

(** The table after the loop over its entries [keys]. *)
Definition hit_miss_done (t t' : P4Table) (keys : list string) (new : list P4Action) : Prop :=
  (∀ k, k ∈ keys → is_hit_miss k = true → ∃ a, a ∈ new ∧ a.(act_name) = t.(t_name) +:+ k) ∧
  match last (filter (λ k, is_hit_miss k = true) keys) with
  | Some k => ∃ a, a ∈ new ∧ a.(act_name) = t.(t_name) +:+ k ∧ t' = set_default_action a.(act_id) t
  | None => t' = t
  end.

Lemma hit_miss_keys l id acts t :
  ∃ id' acts' t' new, fold_left hit_miss_key l (id, acts, t) = (id', acts', t') ∧ extends id acts id' acts' new ∧
    t'.(t_name) = t.(t_name) ∧ hit_miss_done t t' l.*1 new.
Proof.
  induction l as [|[k next] l IH] using rev_ind.
  - exists id, acts, t, []. split; [done|]. split; [apply extends_nil|]. split; [done|]. split; [|done]. intros k Hk. by apply elem_of_nil in Hk.
  - destruct IH as (id1 & acts1 & t1 & new & Hf & Hex & Hn & Hall & Hlast). rewrite fold_left_app, Hf. cbn [fold_left hit_miss_key fst].
    unfold hit_miss_done. rewrite !fmap_app, !filter_app. cbn [fmap list_fmap fst]. destruct (is_hit_miss k) eqn:Hk.
    + set (a := mkP4Action (t1.(t_name) +:+ k) id1 [] []). exists (id1 + 1), (acts1 ++ [a]), (set_default_action id1 t1), (new ++ [a]).
      split; [done|]. split. { eapply extends_trans; [exact Hex|]. split; [done|]. split; [lia|]. by replace (id1 + 1 - id1) with 1 by lia. }
      split; [done|]. split.
      * intros k' [Hin|Hin]%elem_of_app Hk'.
        -- destruct (Hall k' Hin Hk') as (b & ? & ?). exists b. split; [by apply elem_of_app; left|done].
        -- apply list_elem_of_singleton in Hin as ->. exists a. split; [apply elem_of_app; right; by left|]. cbn. by rewrite Hn.
      * rewrite filter_cons_True, last_app by done. cbn. exists a. split; [apply elem_of_app; right; by left|]. cbn. rewrite Hn.
        split; [done|]. destruct (last (filter _ l.*1)) as [k'|]; [by destruct Hlast as (b & _ & _ & ->)|by rewrite Hlast].
    + exists id1, acts1, t1, new. split; [done|]. split; [done|]. split; [done|]. split.
      * intros k' [Hin|Hin]%elem_of_app Hk'; [by apply Hall|]. apply list_elem_of_singleton in Hin as ->. congruence.
      * rewrite filter_cons_False by (by rewrite Hk). by rewrite filter_nil, app_nil_r.
Qed.

#[local] Instance name_le_trans {V} : Transitive (@name_le V).
Proof.
  intros a b c Hab Hbc. unfold name_le in *. apply Is_true_true. apply (transitivity (R := String.le)) with (y := b.1);
    by apply Is_true_true.
Qed.
#[local] Instance name_le_total {V} : Total (@name_le V).
Proof.
  intros a b. unfold name_le. destruct (total String.le a.1 b.1) as [H|H]; [left|right]; by apply Is_true_true.
Qed.

Lemma default_key_last t : last (filter (λ k, is_hit_miss k = true) (in_name_order t.(next_tables)).*1) = default_key t.
Proof.
  set (m := t.(next_tables)). set (l := filter _ _).
  assert (Hel : ∀ k, k ∈ l ↔ is_hit_miss k = true ∧ is_Some (m !! k)).
  { intros k. unfold l, in_name_order. rewrite list_elem_of_filter, list_elem_of_fmap. apply and_iff_compat_l. split.
    - intros ([k' n] & -> & Hin). rewrite merge_sort_Permutation in Hin. apply elem_of_map_to_list in Hin. by exists n.
    - intros [n Hn]. exists (k, n). split; [done|]. rewrite merge_sort_Permutation. by apply elem_of_map_to_list. }
  assert (Hs : StronglySorted (λ a b, String.leb a b = true) l).
  { apply sorted_filter. unfold in_name_order. eapply (StronglySorted_fmap fst); [|apply (StronglySorted_merge_sort name_le)]. done. }
  assert (Hhm : ∀ k, is_hit_miss k = true → k = "__HIT__"%string ∨ k = "__MISS__"%string).
  { intros k Hk. unfold is_hit_miss in Hk. apply orb_true_iff in Hk. by rewrite !bool_decide_eq_true in Hk. }
  unfold default_key. fold m. destruct (last l) as [k|] eqn:Hl.
  - pose proof Hl as Hk%last_Some_elem_of. apply Hel in Hk as [Hk Hm]. apply last_Some in Hl as [l' Hl']. rewrite Hl' in Hs.
    case_bool_decide as Hmiss; [|destruct (Hhm k Hk) as [->| ->]; [by rewrite bool_decide_true|done]].
    destruct (Hhm k Hk) as [->| ->]; [|done]. exfalso. assert (Hin : "__MISS__"%string ∈ l) by (by apply Hel).
    rewrite Hl' in Hin. apply elem_of_app in Hin as [Hin|Hin%list_elem_of_singleton]; [|done].
    eapply StronglySorted_app_1_elem_of in Hs; [|exact Hin|by left]. by vm_compute in Hs.
  - apply last_None in Hl. rewrite !bool_decide_false; [done|..]; intros Hm.
    + assert ("__HIT__"%string ∈ l) as Hin by (by apply Hel). rewrite Hl in Hin. by apply elem_of_nil in Hin.
    + assert ("__MISS__"%string ∈ l) as Hin by (by apply Hel). rewrite Hl in Hin. by apply elem_of_nil in Hin.
Qed.

(** What a table becomes. *)
Definition table_done (new : list P4Action) (t t' : P4Table) : Prop :=
  (∀ k next, t.(next_tables) !! k = Some next → is_hit_miss k = true → ∃ a, a ∈ new ∧ a.(act_name) = t.(t_name) +:+ k) ∧
  match default_key t with
  | Some k => ∃ a, a ∈ new ∧ a.(act_name) = t.(t_name) +:+ k ∧ t' = set_default_action a.(act_id) t
  | None => t' = t
  end.
Definition pipe_done (new : list P4Action) (p p' : P4Pipeline) : Prop :=
  p'.(pipe_name) = p.(pipe_name) ∧ p'.(init_table) = p.(init_table) ∧ p'.(conditionals) = p.(conditionals) ∧
  Forall2 (table_done new) p.(pipe_tables) p'.(pipe_tables).

Lemma table_done_more new new' t t' : new ⊆ new' → table_done new t t' → table_done new' t t'.
Proof.
  intros Hsub [Hall Hd]. split.
  - intros k next Hk Hhm. destruct (Hall k next Hk Hhm) as (a & ? & ?). exists a. split; [by apply Hsub|done].
  - destruct (default_key t) as [k|]; [|done]. destruct Hd as (a & ? & ?). exists a. split; [by apply Hsub|done].
Qed.

Lemma pipe_done_more new new' p p' : new ⊆ new' → pipe_done new p p' → pipe_done new' p p'.
Proof.
  intros Hsub (? & ? & ? & Hts). split; [done|]. split; [done|]. split; [done|]. eapply Forall2_impl; [exact Hts|].
  intros. by eapply table_done_more.
Qed.

Lemma hit_miss_tables l id acts ts0 :
  ∃ id' acts' ts new, fold_left hit_miss_table l (id, acts, ts0) = (id', acts', ts0 ++ ts) ∧ extends id acts id' acts' new ∧
    Forall2 (table_done new) l ts.
Proof.
  revert id acts ts0. induction l as [|t l IH]; intros id acts ts0.
  - exists id, acts, [], []. rewrite app_nil_r. split; [done|]. split; [apply extends_nil|constructor].
  - destruct (hit_miss_keys (in_name_order t.(next_tables)) id acts t) as (id1 & acts1 & t1 & new1 & Hf1 & Hex1 & _ & Hall & Hlast).
    destruct (IH id1 acts1 (ts0 ++ [t1])) as (id2 & acts2 & ts & new2 & Hf2 & Hex2 & Hts).
    exists id2, acts2, (t1 :: ts), (new1 ++ new2). cbn [fold_left hit_miss_table]. rewrite Hf1. split; [by rewrite Hf2, <- app_assoc|].
    split; [by eapply extends_trans|]. constructor.
    + apply (table_done_more new1); [intros a Ha; apply elem_of_app; by left|]. split; [|by rewrite <- default_key_last].
      intros k next Hk Hhm. apply Hall; [|done]. apply list_elem_of_fmap. exists (k, next). split; [done|].
      unfold in_name_order. rewrite merge_sort_Permutation. by apply elem_of_map_to_list.
    + eapply Forall2_impl; [exact Hts|]. intros u u'. apply table_done_more. intros a Ha. apply elem_of_app. by right.
Qed.

Lemma hit_miss_pipes l id acts ps0 :
  ∃ id' acts' ps new, fold_left hit_miss_pipe l (id, acts, ps0) = (id', acts', ps0 ++ ps) ∧ extends id acts id' acts' new ∧
    Forall2 (pipe_done new) l ps.
Proof.
  revert id acts ps0. induction l as [|p l IH]; intros id acts ps0.
  - exists id, acts, [], []. rewrite app_nil_r. split; [done|]. split; [apply extends_nil|constructor].
  - destruct (hit_miss_tables p.(pipe_tables) id acts []) as (id1 & acts1 & ts & new1 & Hf1 & Hex1 & Hts). cbn [app] in Hf1.
    set (p1 := mkP4Pipeline p.(pipe_name) p.(init_table) ts p.(conditionals)).
    destruct (IH id1 acts1 (ps0 ++ [p1])) as (id2 & acts2 & ps & new2 & Hf2 & Hex2 & Hps).
    exists id2, acts2, (p1 :: ps), (new1 ++ new2). cbn [fold_left hit_miss_pipe]. rewrite Hf1. fold p1. split; [by rewrite Hf2, <- app_assoc|].
    split; [by eapply extends_trans|]. constructor.
    + apply (pipe_done_more new1); [intros a Ha; apply elem_of_app; by left|]. done.
    + eapply Forall2_impl; [exact Hps|]. intros u u'. apply pipe_done_more. intros a Ha. apply elem_of_app. by right.
Qed.

(** Tables that lead on by hit and miss: for each such entry of a table there is a
    new action, named after the table, and what the table does by default is the
    action for its misses (the one for its hits only if it has no entry for misses); the other
    tables stay as they are.  If the actions of the program have smaller numbers, the
    number of each new action is the number of no other action. *)
Lemma hit_miss_actions p : Forall (λ a, a.(act_id) < 16777215) p.(actions) →
  let p' := create_hit_miss_actions p in
  ∃ new, p'.(actions) = p.(actions) ++ new ∧ Forall2 (pipe_done new) p.(pipelines) p'.(pipelines) ∧
    ∀ a i b j, a ∈ new → p'.(actions) !! i = Some a → p'.(actions) !! j = Some b → a.(act_id) = b.(act_id) → i = j.
Proof.
  intros Hids. unfold create_hit_miss_actions. destruct (hit_miss_pipes p.(pipelines) 16777215 p.(actions) [])
    as (id & acts & ps & new & -> & (-> & Hle & Hnew) & Hps). cbn [actions pipelines app]. exists new. split; [done|]. split; [done|].
  assert (Hnd : NoDup (act_id <$> new)) by (rewrite Hnew; apply NoDup_seqZ).
  assert (Hge : ∀ a, a ∈ new → 16777215 ≤ a.(act_id)).
  { intros a Ha. apply (list_elem_of_fmap_2 act_id) in Ha. rewrite Hnew in Ha. apply elem_of_seqZ in Ha. lia. }
  rewrite Forall_forall in Hids. intros a i b j Ha Hi Hj Hab. pose proof (Hge a Ha) as Hga.
  assert (Hside : ∀ x k, act_id x = act_id a → (p.(actions) ++ new) !! k = Some x →
    (length p.(actions) ≤ k)%nat ∧ new !! (k - length p.(actions))%nat = Some x).
  { intros x k Hx [Hk|[Hk ?]]%lookup_app_Some; [|done]. apply list_elem_of_lookup_2, Hids in Hk. lia. }
  destruct (Hside a i eq_refl Hi) as [Hli Hni]. destruct (Hside b j (eq_sym Hab) Hj) as [Hlj Hnj].
  assert ((i - length p.(actions))%nat = (j - length p.(actions))%nat); [|lia].
  eapply (NoDup_lookup (act_id <$> new)); [done|rewrite list_lookup_fmap, Hni; done|rewrite list_lookup_fmap, Hnj; cbn; by rewrite Hab].
Qed.

(** A table that leads on by hit and miss. *)
Definition demo_hit_miss : P4Json :=
  mkP4Json (mkP4Headers [] []) [] [mkP4Action "NoAction" 0 [] []]
    [mkP4Pipeline "ingress" "t"
       [mkP4Table "t" [] 16 [0] ["NoAction"%string] (<["__HIT__" := "u"]> (<["__MISS__" := ""]> ∅))%string (mkP4DefaultEntry 0 []) []] []].

Lemma hit_miss_actions_witness :
  let p' := create_hit_miss_actions demo_hit_miss in
  ∃ new, p'.(actions) = demo_hit_miss.(actions) ++ new ∧ Forall2 (pipe_done new) demo_hit_miss.(pipelines) p'.(pipelines) ∧
    ∀ a i b j, a ∈ new → p'.(actions) !! i = Some a → p'.(actions) !! j = Some b → a.(act_id) = b.(act_id) → i = j.
Proof. apply (hit_miss_actions demo_hit_miss). repeat constructor. Defined.

Lemma demo_default_is_miss :
  let p' := create_hit_miss_actions demo_hit_miss in
  (act_name <$> p'.(actions)) = ["NoAction"; "t__HIT__"; "t__MISS__"]%string ∧
  (λ t, t.(t_default_entry).(de_action_id)) <$> (p'.(pipelines) ≫= pipe_tables) = [16777216].
Proof. vm_compute. done. Qed.
