(* ===== verification/P4Print.v ===== *)
(** * The P4 translator: printing (src/rP4-compiler/p4r)

    The rP4 text of a program, as the [operator<<]s write it. *)

From stdpp Require Import base numbers list gmap strings pretty sorting.
From Stdlib Require Import ZArith Lia Ascii.
From S2P Require Import Prelude Headers P4Names P4Condition P4Program.

#[local] Open Scope Z_scope.
#[local] Open Scope string_scope.

Definition endl : string := String "010"%char EmptyString.
Definition tab : string := String "009"%char EmptyString.
Fixpoint tabs (n : nat) : string := match n with O => EmptyString | S n => tab +:+ tabs n end.
Definition cat (l : list string) : string := foldr String.app EmptyString l.
(** A line with [n] tabs in front. *)
Definition line (n : nat) (s : string) : string := tabs n +:+ s +:+ endl.

(** With a separator between two texts; the flag [first] of the loops. *)
Fixpoint separated (sep : string) (l : list string) : string :=
  match l with [] => EmptyString | [s] => s | s :: l => s +:+ sep +:+ separated sep l end.

(** ** Headers and fields (p4_header.h, p4_field.h) *)
Definition translated_typename (h : P4Header) : string :=
  if bool_decide (h.(header_type_name) = "scalars_0") then "metadata" else h.(header_type_name).
Definition translated_prefix (h : P4Header) : string :=
  if negb h.(h_metadata) then "hdr." +:+ h.(h_name)
  else if bool_decide (h.(header_type_name) = "scalars_0") then "meta" else h.(h_name).

(** [std::find_if] with a member that has a value. *)
Definition find_by {A} (f : A → string) (s : string) (l : list A) : option A := snd <$> list_find (λ x, f x = s) l.

Definition is_header_type (v : P4Headers) (name : string) : bool :=
  match find_by header_type_name name v.(p4_headers) with Some h => negb h.(h_metadata) | None => false end.

Definition field_line (f : P4HeaderField) : string :=
  line 0 (tab +:+ "bit<" +:+ pretty f.(hf_width) +:+ ">" +:+ tab +:+ undotted f.(hf_name) +:+ ";").

Definition starts_with_underscore (s : string) : bool := match s with String c _ => bool_decide (c = "_"%char) | EmptyString => false end.

Definition header_text (v : P4Headers) (h : P4HeaderType) : string :=
  if is_header_type v h.(ht_name) then
    line 0 ("header " +:+ h.(ht_name) +:+ " {") +:+ cat (field_line <$> h.(ht_fields)) +:+ line 0 "}"
  else EmptyString.

Definition struct_text (v : P4Headers) (h : P4Header) : string :=
  if h.(h_metadata) && negb (bool_decide (h.(header_type_name) = "standard_metadata")) then
    line 0 ("struct " +:+ translated_typename h +:+ " {") +:+
    match find_by ht_name h.(header_type_name) v.(header_types) with
    | Some ht => cat (field_line <$> filter (λ f, f.(hf_name) ≠ EmptyString ∧ starts_with_underscore f.(hf_name) = false) ht.(ht_fields))
    | None => EmptyString
    end +:+ line 0 ("} " +:+ translated_prefix h +:+ ";")
  else EmptyString.

Definition headers_text (v : P4Headers) : string :=
  cat (header_text v <$> v.(header_types)) +:+ cat (struct_text v <$> v.(p4_headers)) +:+
  line 0 "struct headers {" +:+
  cat ((λ h, line 0 (tab +:+ h.(header_type_name) +:+ tab +:+ h.(h_name) +:+ ";")) <$> filter (λ h, h.(h_metadata) = false) v.(p4_headers)) +:+
  line 0 "} hdr;".

(** A field is a vector of names; its first element is read without a look at its size. *)
Definition field_is_header (v : P4Headers) (f : list string) : res bool :=
  match v.(p4_headers), f with
  | [], _ => mret false
  | _, [] => Fault OutOfBounds
  | hs, s :: _ => mret (match find_by h_name s hs with Some h => negb h.(h_metadata) | None => false end)
  end.

Definition field_text (v : P4Headers) (f : list string) : res string :=
  match f with
  | [] => Fault OutOfBounds
  | s :: f =>
      mret (match find_by h_name s v.(p4_headers) with Some h => translated_prefix h | None => EmptyString end +:+ "." +:+
        separated "." ((λ s, if bool_decide (s = "$valid$") then "isValid()" else undotted s) <$> f))
  end.

(** ** Parameters (p4_parameter.h): the parameters of the action are not handed on to the
    operands of an expression *)
Fixpoint parameter_text (v : P4Headers) (data : option (list P4RuntimeData)) (p : P4Parameter) : res string :=
  match p with
  | ParField f => field_text v f
  | ParRuntimeData i => match data with Some data => d ← rd data i; mret d.(rd_name) | None => mret EmptyString end
  | ParHexstr s => mret s
  | ParBool b => mret (if b then "true" else "false")
  | ParHeader s => mret s
  | ParExpression op l r =>
      if negb (bool_decide (op = "b2d")) then
        l ← match l with Some l => t ← parameter_text v None l; mret (t +:+ " ") | None => mret EmptyString end;
        r ← match r with Some r => t ← parameter_text v None r; mret (" " +:+ t) | None => mret EmptyString end;
        mret ("(" +:+ l +:+ op +:+ r +:+ ")")
      else match r with Some r => parameter_text v None r | None => Fault NullDeref end
  | ParOther _ => mret EmptyString
  end.

(** [add_to_hdr_names_set] *)
Fixpoint add_to_hdr_names_set (v : P4Headers) (p : P4Parameter) (dst : gset string) : res (gset string) :=
  match p with
  | ParField f => b ← field_is_header v f; mret (if (b : bool) then {[ default EmptyString (head f) ]} ∪ dst else dst)
  | ParExpression _ l r =>
      dst ← match l with Some l => add_to_hdr_names_set v l dst | None => mret dst end;
      match r with Some r => add_to_hdr_names_set v r dst | None => mret dst end
  | _ => mret dst
  end.

(** ** Parsers (p4_parser.h) *)
Definition next_state_text (t : Transition) : string :=
  if bool_decide (t.(tr_next_state) = EmptyString) then "accept" else t.(tr_next_state).
Definition transition_text (t : Transition) : string :=
  line 3 (t.(tr_value) +:+ (if bool_decide (t.(tr_mask) = EmptyString) then EmptyString else " &&& " +:+ t.(tr_mask)) +:+ ": " +:+
    next_state_text t +:+ ";").
Definition key_text (k : list string) : string := "hdr" +:+ cat ((λ s, "." +:+ s) <$> k).

Definition parse_state_text (s : P4ParseState) : string :=
  line 1 ("state " +:+ s.(ps_name) +:+ " {") +:+
  cat ((λ op, line 2 ("packet.extract(hdr." +:+ op +:+ ");")) <$> s.(parser_ops)) +:+
  match s.(transition_key) with
  | [] => tabs 2 +:+ "transition " +:+ cat ((λ t, next_state_text t +:+ ";" +:+ endl) <$> s.(ps_transitions))
  | keys => line 2 ("transition select(" +:+ separated ", " (key_text <$> keys) +:+ ") {") +:+ cat (transition_text <$> s.(ps_transitions)) +:+ line 2 "}"
  end +:+ line 1 "}".

Definition parser_text (p : P4Parser) : string :=
  line 0 ("parser " +:+ (if bool_decide (p.(pa_name) = "parser") then "MyParser" else p.(pa_name)) +:+ "(packet_in packet) {") +:+
  cat (parse_state_text <$> p.(parse_states)) +:+ line 0 "}".
Definition parsers_text (ps : list P4Parser) : string := cat (parser_text <$> ps).

(** ** Actions (p4_action.h) *)

(** The table of names of the actions, which is made when the first name is asked for. *)
Definition action_rename (acts : list P4Action) : P4Rename := add_names (act_name <$> acts) [].
Definition translate_action (acts : list P4Action) (name : string) (index : Z) : string := name_of name index (action_rename acts).

Definition primitive_text (v : P4Headers) (data : list P4RuntimeData) (p : P4Primitive) : res string :=
  if bool_decide (p.(p_op) = "assign") then
    l ← rd p.(p_parameters) 0; l ← parameter_text v (Some data) l;
    r ← rd p.(p_parameters) 1; r ← parameter_text v (Some data) r;
    mret (line 2 (l +:+ " = " +:+ r +:+ ";"))
  else if bool_decide (p.(p_op) = "mark_to_drop") then mret (line 2 "standard_metadata.drop = 1;")
  else ps ← collect (parameter_text v (Some data)) p.(p_parameters); mret (line 2 (p.(p_op) +:+ "(" +:+ separated ", " ps +:+ ");")).

Definition action_text (v : P4Headers) (acts : list P4Action) (a : P4Action) : res string :=
  ps ← collect (primitive_text v a.(runtime_data)) a.(act_primitives);
  mret (line 1 ("action " +:+ translate_action acts a.(act_name) a.(act_id) +:+ "(" +:+
      separated ", " ((λ d, "bit<" +:+ pretty d.(bitwidth) +:+ "> " +:+ d.(rd_name)) <$> a.(runtime_data)) +:+ ") {") +:+
    cat ps +:+ line 1 "}").
Definition actions_text (v : P4Headers) (acts : list P4Action) : res string :=
  ts ← collect (action_text v acts) acts; mret (line 0 "actions {" +:+ cat ts +:+ line 0 "}").

(** ** Tables and stages (p4_pipeline.h) *)
Section pipelines.
Context (v : P4Headers) (acts : list P4Action) (vp : list P4Pipeline).

Definition match_key_text (k : P4MatchKey) : string :=
  k.(mk_key) +:+ (if bool_decide (k.(mk_match_type) = "lpm") then " /// " +:+ pretty k.(mk_prefix_length) else EmptyString) +:+
  (if bool_decide (k.(mk_match_type) = "ternary") then " &&& " +:+ k.(mk_mask) else EmptyString).

(** The names of stages: the conditionals, and the tables that are not behind a
    conditional. *)
Definition add_stage_name (r : P4Rename) (n : string) : P4Rename :=
  if bool_decide (n ∈ original_name <$> r) then r else add_name n true r.
Definition add_pipe_stages (r : P4Rename) (p : P4Pipeline) : P4Rename :=
  let r := add_names (c_name <$> p.(conditionals)) r in
  let r := add_stage_name r p.(init_table) in
  fold_left (λ r t, fold_left add_stage_name (in_name_order t.(next_tables)).*2 r) p.(pipe_tables) r.
Definition stage_rename : P4Rename := fold_left add_pipe_stages vp [].
Definition table_rename : P4Rename := fold_left (λ r p, add_names (t_name <$> p.(pipe_tables)) r) vp [].

Definition translate_stage_name (name : string) : string := name_of name 0 stage_rename.
Definition translate_table_name (name : string) : string := name_of name 0 table_rename.
Definition is_stage (name : string) : bool := bool_decide (name ∈ original_name <$> stage_rename).
Definition is_true_stage (name : string) (p : P4Pipeline) : bool := bool_decide (name ∈ c_name <$> p.(conditionals)).

Definition out_default_action (e : P4DefaultEntry) : string :=
  match list_find (λ a, a.(act_id) = e.(de_action_id)) acts with
  | Some (_, a) => translate_action acts a.(act_name) a.(act_id)
  | None => EmptyString
  end.
Definition out_action (e : P4Entry) : string :=
  "(" +:+ separated ", " (match_key_text <$> e.(en_match_key)) +:+ "): " +:+ out_default_action e.(en_entry).

(** The width of the parameters of an action. *)
Definition parameters_width (a : P4Action) : Z := foldl (λ n d, n + d.(bitwidth)) 0 a.(runtime_data).
Definition action_param_width (ids : list Z) : Z :=
  foldl (λ w id, match list_find (λ a, a.(act_id) = id) acts with Some (_, a) => Z.max w (parameters_width a) | None => w end) 0 ids.
Definition value_width_of (t : P4Table) : Z := 16 + action_param_width t.(action_ids).

Definition table_text (t : P4Table) : res string :=
  keys ← collect (λ k, f ← field_text v k.(key_target); mret (line 3 (f +:+ ": " +:+ k.(key_match_type) +:+ ";"))) t.(t_key);
  mret (line 1 ("table " +:+ translate_table_name t.(t_name) +:+ " {") +:+
    line 2 "key = {" +:+ cat keys +:+ line 2 "}" +:+
    line 2 ("size = " +:+ pretty t.(max_size) +:+ ";") +:+
    line 2 ("value_width = " +:+ pretty (value_width_of t) +:+ ";") +:+
    line 2 ("default_action = " +:+ out_default_action t.(t_default_entry) +:+ ";") +:+
    match t.(t_entries) with
    | [] => EmptyString
    | es => line 2 "entries = {" +:+ cat ((λ e, line 3 (out_action e +:+ ";")) <$> es) +:+ line 2 "}"
    end +:+ line 1 "}").

Definition out_next (text : string) : string :=
  if bool_decide (text = EmptyString) then "None"
  else if is_stage text then "stage(" +:+ translate_stage_name text +:+ ")"
  else "table(" +:+ translate_table_name text +:+ ")".

(** The id of the action of this name; the last one counts. *)
Definition executor_action (t : P4Table) (key : string) : res Z :=
  for_lt 0 (zlen t.(action_ids)) (λ i id,
    a ← rd t.(t_actions) i;
    if bool_decide (a = key) then rd t.(action_ids) i else mret id) 0.

(** Entries of an executor: the actions of a table and where each of them leads. *)
Definition executor_entry (t : P4Table) (kv : string * string) : res (string * string) :=
  id ← executor_action t kv.1;
  mret (if is_hit_miss kv.1 then translate_action acts (t.(t_name) +:+ kv.1) 0 else translate_action acts kv.1 id,
    if bool_decide (kv.2 = EmptyString) then "None" else translate_stage_name kv.2).
Definition executor_entries (t : P4Table) : res (list (string * string)) := collect (executor_entry t) (in_name_order t.(next_tables)).
Definition executor_lines (es : list (string * string)) : string := cat ((λ e, line 3 (e.1 +:+ ": " +:+ e.2 +:+ ";")) <$> es).

(** The headers of the key of a table. *)
Definition key_headers (t : P4Table) (dst : gset string) : res (gset string) :=
  for_each (λ k dst, b ← field_is_header v k.(key_target);
    mret (if (b : bool) then {[ default EmptyString (head k.(key_target)) ]} ∪ dst else dst)) t.(t_key) dst.

(** A set of strings is visited in order. *)
Definition header_lines (hs : gset string) : string := cat ((λ h, line 3 (h +:+ ";")) <$> merge_sort String.le (elements hs)).

Definition stage_text (name : string) (hs : gset string) (switch entries executor : string) : string :=
  line 1 ("stage " +:+ name +:+ " {") +:+
  line 2 "parser {" +:+ header_lines hs +:+ line 2 "};" +:+
  line 2 "matcher {" +:+ line 3 ("switch (" +:+ switch +:+ ") {") +:+ entries +:+ line 3 "}" +:+ line 2 "};" +:+
  line 2 "executor {" +:+ executor +:+ line 2 "};" +:+ line 1 "}".

Definition cond_text (s : bits) : string := cat ((λ b : bool, if b then "1" else "0") <$> s).

Definition conditional_text (p : P4Pipeline) (c : P4Conditional) : res string :=
  hs ← for_each (λ n hs, match find_by t_name n p.(pipe_tables) with Some t => key_headers t hs | None => mret hs end)
         [c.(true_next); c.(false_next)] ∅;
  '(ops, b) ← parse c.(c_expression);
  hs ← for_each (add_to_hdr_names_set v) ops hs;
  switch ← collect (parameter_text v None) ops;
  exec ← collect (λ t, if (bool_decide (t.(t_name) = c.(true_next)) || bool_decide (t.(t_name) = c.(false_next))) && negb (is_stage t.(t_name))
                       then executor_entries t else mret []) p.(pipe_tables);
  mret (stage_text (translate_stage_name c.(c_name)) hs (separated ", " switch)
    (cat ((λ s, line 4 ("0b" +:+ cond_text s +:+ ": " +:+ out_next c.(true_next) +:+ ";")) <$> b) +:+
      line 4 ("*: " +:+ out_next c.(false_next) +:+ ";"))
    (executor_lines (concat exec))).

Definition table_stage_text (t : P4Table) : res string :=
  hs ← key_headers t ∅;
  exec ← executor_entries t;
  mret (stage_text (translate_stage_name t.(t_name)) hs "1" (line 4 ("0b1: table(" +:+ translate_table_name t.(t_name) +:+ ");"))
    (executor_lines exec)).

(** [std::swap] of the first element and the element with this name. *)
Definition swap_first {A} (f : A → string) (s : string) (l : list A) : list A :=
  match list_find (λ x, f x = s) l, l with
  | Some (i, x), y :: _ => <[0%nat := x]> (<[i := y]> l)
  | _, _ => l
  end.

(** The stages of a pipeline in the order in which they are printed. *)
Definition conditional_stages (p : P4Pipeline) : list P4Conditional :=
  if is_true_stage p.(init_table) p then swap_first c_name p.(init_table) p.(conditionals) else p.(conditionals).
Definition table_stages (p : P4Pipeline) : list P4Table :=
  filter (λ t, is_stage t.(t_name) = true)
    (if is_true_stage p.(init_table) p then p.(pipe_tables) else swap_first t_name p.(init_table) p.(pipe_tables)).

Definition pipeline_name (p : P4Pipeline) : string :=
  if bool_decide (p.(pipe_name) = "ingress") then "MyIngress"
  else if bool_decide (p.(pipe_name) = "egress") then "MyEgress" else p.(pipe_name).

Definition pipeline_text (p : P4Pipeline) : res string :=
  cs ← collect (conditional_text p) (conditional_stages p);
  ts ← collect table_stage_text (table_stages p);
  mret (line 0 ("control " +:+ pipeline_name p +:+ " {") +:+
    (if is_true_stage p.(init_table) p then cat cs +:+ cat ts else cat ts +:+ cat cs) +:+ line 0 "}").

Definition pipelines_text : res string :=
  ts ← collect (λ p, ts ← collect table_text p.(pipe_tables); mret (cat ts)) vp;
  ps ← collect pipeline_text vp;
  mret (line 0 "tables {" +:+ cat ts +:+ line 0 "}" +:+ endl +:+ cat ps).
End pipelines.

(** ** The program (p4_json.h) *)
Definition standard_metadata_text : string :=
  let field n s := line 0 ("    bit<" +:+ n +:+ "> " +:+ s +:+ ";") in
  line 0 "struct standard_metadata_t {" +:+
  field "9" "ingress_port" +:+ field "9" "egress_spec" +:+ field "9" "egress_port" +:+ field "32" "clone_spec" +:+
  field "32" "instance_type" +:+ field "1" "drop" +:+ field "16" "recirculate_port" +:+ field "32" "packet_length" +:+
  line 0 "} standard_metadata;".

Definition program_text (p : P4Json) : res string :=
  acts ← actions_text p.(headers) p.(actions);
  pipes ← pipelines_text p.(headers) p.(actions) p.(pipelines);
  mret (headers_text p.(headers) +:+ endl +:+ standard_metadata_text +:+ endl +:+ parsers_text p.(parsers) +:+ endl +:+
    acts +:+ endl +:+ pipes +:+ endl).

(** [main] *)
Definition translate (j : json) : res string := p ← read_p4 j; program_text p.

(** ** The stages of a pipeline *)
#[local] Open Scope list_scope.

Section stages.
Context (v : P4Headers) (acts : list P4Action) (vp : list P4Pipeline).

(** Every name that is led to is nothing, a conditional or a table of the pipeline. *)
Definition led_to (p : P4Pipeline) (n : string) : Prop :=
  n = EmptyString ∨ n ∈ c_name <$> p.(conditionals) ∨ n ∈ t_name <$> p.(pipe_tables).
Record linked (p : P4Pipeline) : Prop := {
  lk_init : led_to p p.(init_table);
  lk_conditional : ∀ c, c ∈ p.(conditionals) → led_to p c.(true_next) ∧ led_to p c.(false_next);
  lk_table : ∀ t key next, t ∈ p.(pipe_tables) → t.(next_tables) !! key = Some next → led_to p next;
}.

Definition names (r : P4Rename) : list string := original_name <$> r.

Lemma names_add_name n b r : names (add_name n b r) = if bool_decide (n ∈ names r) then names r else names r ++ [n].
Proof.
  unfold names. induction r as [|e r IH]; [by rewrite bool_decide_false; [|apply not_elem_of_nil]|]. cbn [add_name].
  destruct (decide (n = original_name e)) as [->|Hn].
  - rewrite !bool_decide_true; [done|by left|done].
  - rewrite (bool_decide_false (n = original_name e)) by done. rewrite !fmap_cons, IH.
    destruct (decide (n ∈ original_name <$> r)) as [Hin|Hin].
    + rewrite !bool_decide_true; [done|by right|done].
    + rewrite bool_decide_false by done. rewrite bool_decide_false by (by rewrite not_elem_of_cons). done.
Qed.

Lemma add_name_elem n b r x : x ∈ names (add_name n b r) ↔ x = n ∨ x ∈ names r.
Proof.
  rewrite names_add_name. case_bool_decide as Hn; [|rewrite elem_of_app, list_elem_of_singleton; tauto].
  split; [by right|]. by intros [->|].
Qed.

Lemma add_names_elem ns r x : x ∈ names (add_names ns r) ↔ x ∈ ns ∨ x ∈ names r.
Proof.
  unfold add_names. revert r. induction ns as [|n ns IH]; intros r; cbn; [by rewrite elem_of_nil; split; [right|intros [[]|]]|].
  rewrite IH, add_name_elem, elem_of_cons. tauto.
Qed.

Lemma add_stage_name_elem n r x : x ∈ names (add_stage_name r n) ↔ x = n ∨ x ∈ names r.
Proof.
  unfold add_stage_name. case_bool_decide as Hn; [|apply add_name_elem]. split; [by right|]. by intros [->|].
Qed.

Lemma add_stage_names_elem ns r x : x ∈ names (fold_left add_stage_name ns r) ↔ x ∈ ns ∨ x ∈ names r.
Proof.
  revert r. induction ns as [|n ns IH]; intros r; cbn; [by rewrite elem_of_nil; split; [right|intros [[]|]]|].
  rewrite IH, add_stage_name_elem, elem_of_cons. tauto.
Qed.

(** The names the tables of a pipeline lead to. *)
Definition nexts (t : P4Table) : list string := (in_name_order t.(next_tables)).*2.

Lemma add_tables_elem ts r x :
  x ∈ names (fold_left (λ r t, fold_left add_stage_name (nexts t) r) ts r) ↔ (∃ t, t ∈ ts ∧ x ∈ nexts t) ∨ x ∈ names r.
Proof.
  revert r. induction ts as [|t ts IH]; intros r; cbn.
  - split; [by right|]. intros [(t & Ht & _)|]; [by apply elem_of_nil in Ht|done].
  - rewrite IH, add_stage_names_elem. split.
    + intros [(t' & ? & ?)|[?|?]]; [left; exists t'; split; [by right|done]|left; exists t; split; [by left|done]|by right].
    + intros [(t' & Ht & ?)|?]; [|by right; right]. apply elem_of_cons in Ht as [->|Ht]; [by right; left|left; by exists t'].
Qed.

Lemma add_pipe_stages_elem p r x :
  x ∈ names (add_pipe_stages r p) ↔
  (x ∈ c_name <$> p.(conditionals) ∨ x = p.(init_table) ∨ ∃ t, t ∈ p.(pipe_tables) ∧ x ∈ nexts t) ∨ x ∈ names r.
Proof. unfold add_pipe_stages. rewrite add_tables_elem, add_stage_name_elem, add_names_elem. tauto. Qed.

Lemma stage_names_elem ps r x p :
  p ∈ ps → x ∈ c_name <$> p.(conditionals) ∨ x = p.(init_table) ∨ (∃ t, t ∈ p.(pipe_tables) ∧ x ∈ nexts t) →
  x ∈ names (fold_left add_pipe_stages ps r).
Proof.
  assert (Hmono : ∀ ps r, x ∈ names r → x ∈ names (fold_left add_pipe_stages ps r)).
  { intros qs. induction qs as [|q qs IH]; intros r' Hx; [done|]. apply IH, add_pipe_stages_elem. by right. }
  revert r. induction ps as [|q ps IH]; intros r Hp Hx; [by apply elem_of_nil in Hp|]. apply elem_of_cons in Hp as [->|Hp]; [|by apply IH].
  apply (Hmono ps (add_pipe_stages r q)), add_pipe_stages_elem. by left.
Qed.

Lemma elem_of_nexts t n : n ∈ nexts t ↔ ∃ key, t.(next_tables) !! key = Some n.
Proof.
  unfold nexts, in_name_order. rewrite list_elem_of_fmap. split.
  - intros ([k n'] & -> & Hin). rewrite merge_sort_Permutation in Hin. exists k. by apply elem_of_map_to_list.
  - intros (k & Hk). exists (k, n). split; [done|]. rewrite merge_sort_Permutation. by apply elem_of_map_to_list.
Qed.

Lemma is_stage_next p t key n : p ∈ vp → t ∈ p.(pipe_tables) → t.(next_tables) !! key = Some n → is_stage vp n = true.
Proof.
  intros Hp Ht Hk. apply bool_decide_eq_true. apply (stage_names_elem vp [] n p Hp). right. right. exists t. split; [done|].
  apply elem_of_nexts. by exists key.
Qed.

(** The stages that are printed, in their order. *)
Definition printed_stages (p : P4Pipeline) : list string :=
  let cs := c_name <$> conditional_stages p in
  let ts := t_name <$> table_stages vp p in
  if is_true_stage p.(init_table) p then cs ++ ts else ts ++ cs.

Lemma swap_first_perm {A} (f : A → string) s l : swap_first f s l ≡ₚ l.
Proof.
  unfold swap_first. destruct (list_find _ l) as [[i x]|] eqn:Hf; [|done]. destruct l as [|y l]; [done|].
  apply list_find_Some in Hf as (Hi & _ & _). destruct i as [|i]; [by injection Hi as ->|]. cbn in Hi.
  change (x :: <[i:=y]> l ≡ₚ y :: l).
  rewrite insert_take_drop by (by eapply lookup_lt_Some). rewrite <- (take_drop_middle l i x Hi) at 3. solve_Permutation.
Qed.

Lemma swap_first_head {A} (f : A → string) s l : s ∈ f <$> l → ∃ x, head (swap_first f s l) = Some x ∧ f x = s.
Proof.
  intros (x0 & -> & Hin)%list_elem_of_fmap. unfold swap_first.
  destruct (list_find_elem_of (λ x, f x = f x0) l x0 Hin eq_refl) as [[i x] Hf]. rewrite Hf. destruct l as [|y l]; [done|].
  apply list_find_Some in Hf as (Hi & Hx & _). exists x. split; [|done]. by destruct i.
Qed.

Lemma conditional_in p c : c ∈ p.(conditionals) → c.(c_name) ∈ printed_stages p.
Proof.
  intros Hc. unfold printed_stages, conditional_stages. assert (c.(c_name) ∈ c_name <$> swap_first c_name p.(init_table) p.(conditionals)).
  { apply list_elem_of_fmap_2. by rewrite swap_first_perm. }
  destruct (is_true_stage _ _); apply elem_of_app; [by left|right; by apply list_elem_of_fmap_2].
Qed.

Lemma table_in p t : t ∈ p.(pipe_tables) → is_stage vp t.(t_name) = true → t.(t_name) ∈ printed_stages p.
Proof.
  intros Ht Hs. unfold printed_stages, table_stages.
  destruct (is_true_stage _ _); apply elem_of_app; [right|left]; apply list_elem_of_fmap_2, list_elem_of_filter; (split; [done|]);
    [done|by rewrite swap_first_perm].
Qed.

Lemma led_to_printed p n : led_to p n → is_stage vp n = true → n = EmptyString ∨ n ∈ printed_stages p.
Proof.
  intros [->|[(c & -> & Hc)%list_elem_of_fmap|(t & -> & Ht)%list_elem_of_fmap]] Hs; [by left|right; by apply conditional_in|].
  right. by apply table_in.
Qed.

Lemma first_stage p : p ∈ vp → linked p → p.(init_table) ≠ EmptyString → head (printed_stages p) = Some p.(init_table).
Proof.
  intros Hp Hl Hne. unfold printed_stages, conditional_stages, table_stages. unfold is_true_stage. case_bool_decide as Hi.
  - destruct (swap_first_head c_name _ _ Hi) as (c & Hh & Hc). destruct (swap_first c_name _ _) as [|c' l]; [done|]. injection Hh as ->.
    cbn. by rewrite Hc.
  - destruct (lk_init p Hl) as [?|[?|Ht]]; [done|done|]. destruct (swap_first_head t_name _ _ Ht) as (t & Hh & Htn).
    destruct (swap_first t_name _ _) as [|t' l]; [done|]. injection Hh as ->. rewrite filter_cons_True; [cbn; by rewrite Htn|].
    rewrite Htn. apply bool_decide_eq_true, (stage_names_elem vp [] _ p Hp). by right; left.
Qed.

Lemma append_nil_r (s : string) : s +:+ EmptyString = s.
Proof. induction s as [|c s IH]; [done|]. by rewrite append_cons, IH. Qed.

Lemma append_assoc (a b c : string) : (a +:+ b) +:+ c = a +:+ (b +:+ c).
Proof. symmetry. apply string_app_assoc. Qed.

Lemma cat_app l1 l2 : cat (l1 ++ l2) = cat l1 +:+ cat l2.
Proof.
  induction l1 as [|s l1 IH]; [done|]. change (s +:+ cat (l1 ++ l2) = (s +:+ cat l1) +:+ cat l2). by rewrite IH, append_assoc.
Qed.

(** The text of a stage: its first line and the rest. *)
Definition stage_line (n : string) : string := line 1 ("stage " +:+ translate_stage_name vp n +:+ " {").
Definition stage_of (n s : string) : Prop := ∃ body, s = stage_line n +:+ body.

Lemma stage_text_of n hs sw en ex : stage_of n (stage_text (translate_stage_name vp n) hs sw en ex).
Proof. by eexists. Qed.

Lemma conditional_stage p c s : conditional_text v acts vp p c = Ok s → stage_of c.(c_name) s.
Proof.
  unfold conditional_text. intros (hs & _ & H)%bind_ok_inv. apply bind_ok_inv in H as ([ops b] & _ & H).
  apply bind_ok_inv in H as (hs' & _ & H). apply bind_ok_inv in H as (sw & _ & H). apply bind_ok_inv in H as (ex & _ & [= <-]).
  apply stage_text_of.
Qed.

Lemma table_stage t s : table_stage_text v acts vp t = Ok s → stage_of t.(t_name) s.
Proof.
  unfold table_stage_text. intros (hs & _ & H)%bind_ok_inv. apply bind_ok_inv in H as (ex & _ & [= <-]). apply stage_text_of.
Qed.

Lemma stages_of {A} (f : A → res string) (name : A → string) l ss :
  (∀ x s, f x = Ok s → stage_of (name x) s) → collect f l = Ok ss → Forall2 stage_of (name <$> l) ss.
Proof.
  intros Hf Hss%collect_ok. apply Forall2_fmap_l. eapply Forall2_impl; [exact Hss|]. intros x s Hx. by apply Hf.
Qed.

Lemma pipeline_text_stages p s : pipeline_text v acts vp p = Ok s →
  ∃ ss, Forall2 stage_of (printed_stages p) ss ∧ s = line 0 ("control " +:+ pipeline_name p +:+ " {") +:+ cat ss +:+ line 0 "}".
Proof.
  unfold pipeline_text. intros (cs & Hcs & H)%bind_ok_inv. apply bind_ok_inv in H as (ts & Hts & [= <-]).
  apply (stages_of _ c_name) in Hcs; [|intros; by eapply conditional_stage].
  apply (stages_of _ t_name) in Hts; [|intros; by eapply table_stage]. unfold printed_stages.
  destruct (is_true_stage _ _); [exists (cs ++ ts)|exists (ts ++ cs)]; (split; [by apply Forall2_app|by rewrite cat_app]).
Qed.

(** The entries a table has in an executor. *)
Lemma executor_entries_of t es : executor_entries acts vp t = Ok es →
  ∀ e, e ∈ es → ∃ key next, t.(next_tables) !! key = Some next ∧
    e.2 = if bool_decide (next = EmptyString) then "None" else translate_stage_name vp next.
Proof.
  intros Hes%collect_ok e [i Hi]%list_elem_of_lookup.
  destruct (Forall2_lookup_r _ _ _ _ _ Hes Hi) as ([key next] & Hin%list_elem_of_lookup_2 & Hx).
  exists key, next. unfold in_name_order in Hin. rewrite merge_sort_Permutation in Hin. split; [by apply elem_of_map_to_list|].
  unfold executor_entry in Hx. by apply bind_ok_inv in Hx as (id & _ & [= <-]).
Qed.
End stages.

(** C21. The stages of a printed pipeline: if every name a pipeline leads to is one of its
    conditionals or tables, the text is the text of its stages one after the other.  The
    first of them is where the pipeline starts, which is the stage the compiler starts
    with.  Each conditional is a stage, each entry of an executor leads to None
    or to a stage of the pipeline, and an entry of a switch to None, to a stage of the
    pipeline, or to one of its tables. *)
Theorem printed_pipeline v acts vp p s : p ∈ vp → linked p → pipeline_text v acts vp p = Ok s →
  ∃ stages ss, s = line 0 ("control " +:+ pipeline_name p +:+ " {") +:+ cat ss +:+ line 0 "}" ∧ Forall2 (stage_of vp) stages ss ∧
    (p.(init_table) ≠ EmptyString → head stages = Some p.(init_table)) ∧
    (∀ c, c ∈ p.(conditionals) → c.(c_name) ∈ stages) ∧
    (∀ t es e, t ∈ p.(pipe_tables) → executor_entries acts vp t = Ok es → e ∈ es →
      e.2 = "None" ∨ ∃ n, n ∈ stages ∧ e.2 = translate_stage_name vp n) ∧
    (∀ c n, c ∈ p.(conditionals) → n ∈ [c.(true_next); c.(false_next)] →
      out_next vp n = "None" ∨ (∃ m, m ∈ stages ∧ out_next vp n = "stage(" +:+ translate_stage_name vp m +:+ ")") ∨
      (∃ t, t ∈ p.(pipe_tables) ∧ out_next vp n = "table(" +:+ translate_table_name vp t.(t_name) +:+ ")")).
Proof.
  intros Hp Hl (ss & Hss & Hs)%pipeline_text_stages. exists (printed_stages vp p), ss. split; [done|]. split; [done|].
  split; [by apply first_stage|]. split; [by intros; apply conditional_in|]. split.
  - intros t es e Ht Hes He. destruct (executor_entries_of _ _ _ _ Hes e He) as (key & next & Hk & ->).
    case_bool_decide as Hne; [by left|right]. exists next. split; [|done].
    destruct (led_to_printed vp p next) as [?|?]; [by eapply lk_table|by eapply is_stage_next|done|done].
  - intros c n Hc Hn. assert (Hled : led_to p n).
    { destruct (lk_conditional p Hl c Hc). by apply elem_of_cons in Hn as [->|[->|Hn%elem_of_nil]%elem_of_cons]. }
    unfold out_next. case_bool_decide as Hne; [by left|]. right. destruct (is_stage vp n) eqn:Hst.
    + left. exists n. split; [|done]. by destruct (led_to_printed vp p n Hled Hst).
    + right. destruct Hled as [?|[Hcn|(t & -> & Ht)%list_elem_of_fmap]]; [done| |by exists t].
      exfalso. apply bool_decide_eq_false in Hst. apply Hst. apply (stage_names_elem vp [] n p Hp). by left.
Qed.

(** ** A program *)
Definition obj (d : list (string * json)) : json := JsonObject d.
Definition str (s : string) : json := JsonString s.
Definition strs (l : list string) : json := JsonArray (str <$> l).
Definition named (n : string) (id : Z) (d : list (string * json)) : json := obj (("id", JsonInt id) :: ("name", str n) :: d).

(** One table behind a condition, for packets whose header is there and whose time to
    live is not over. *)
Definition demo_p4 : json := obj [
  ("actions", JsonArray [
    named "NoAction" 0 [("primitives", JsonArray []); ("runtime_data", JsonArray [])];
    named "MyIngress.forward" 1 [
      ("primitives", JsonArray [obj [("op", str "assign"); ("parameters", JsonArray [
         obj [("type", str "field"); ("value", strs ["standard_metadata"; "egress_spec"])];
         obj [("type", str "runtime_data"); ("value", JsonInt 0)]])]]);
      ("runtime_data", JsonArray [obj [("bitwidth", JsonInt 9); ("name", str "port")]])]]);
  ("header_types", JsonArray [
    obj [("fields", JsonArray []); ("name", str "scalars_0")];
    obj [("fields", JsonArray []); ("name", str "standard_metadata")];
    obj [("fields", JsonArray [JsonArray [str "ttl"; JsonInt 8; JsonBool false]; JsonArray [str "dst"; JsonInt 32; JsonBool false]]); ("name", str "ipv4_t")]]);
  ("headers", JsonArray [
    named "scalars" 0 [("header_type", str "scalars_0"); ("metadata", JsonBool true)];
    named "standard_metadata" 1 [("header_type", str "standard_metadata"); ("metadata", JsonBool true)];
    named "ipv4" 2 [("header_type", str "ipv4_t"); ("metadata", JsonBool false)]]);
  ("parsers", JsonArray [named "parser" 0 [("init_state", str "start"); ("parse_states", JsonArray [
    named "start" 0 [("parser_ops", JsonArray [obj [("parameters", JsonArray [obj [("type", str "regular"); ("value", str "ipv4")]])]]);
      ("transition_key", JsonArray []);
      ("transitions", JsonArray [obj [("mask", JsonNull); ("next_state", JsonNull); ("value", str "default")]])]])]]);
  ("pipelines", JsonArray [
    named "ingress" 0 [("conditionals", JsonArray [named "node_2" 0 [
        ("expression", obj [("type", str "expression"); ("value", obj [
          ("left", obj [("type", str "expression"); ("value", obj [("left", JsonNull); ("op", str "d2b");
             ("right", obj [("type", str "field"); ("value", strs ["ipv4"; "$valid$"])])])]);
          ("op", str "and");
          ("right", obj [("type", str "expression"); ("value", obj [("left", obj [("type", str "field"); ("value", strs ["ipv4"; "ttl"])]);
             ("op", str ">"); ("right", obj [("type", str "hexstr"); ("value", str "0x00")])])])])]);
        ("false_next", JsonNull); ("true_next", str "MyIngress.route")]]);
      ("init_table", str "node_2");
      ("tables", JsonArray [named "MyIngress.route" 0 [
        ("action_ids", JsonArray [JsonInt 1; JsonInt 0]); ("actions", strs ["MyIngress.forward"; "NoAction"]);
        ("default_entry", obj [("action_data", JsonArray []); ("action_id", JsonInt 0)]);
        ("key", JsonArray [obj [("mask", JsonNull); ("match_type", str "exact"); ("name", str "hdr.ipv4.dst"); ("target", strs ["ipv4"; "dst"])]]);
        ("max_size", JsonInt 1024);
        ("next_tables", obj [("MyIngress.forward", JsonNull); ("NoAction", JsonNull)])]])];
    named "egress" 1 [("conditionals", JsonArray []); ("init_table", JsonNull); ("tables", JsonArray [])]])].

Definition demo_p4_program : P4Json :=
  match read_p4 demo_p4 with Ok p => p | Fault _ => mkP4Json (mkP4Headers [] []) [] [] [] end.

(** The control of the program; the name of the table lost its prefix, and the value has
    room for the number of the action and for the port. *)
Lemma demo_control :
  match demo_p4_program.(pipelines) with
  | [p; q] => pipeline_text demo_p4_program.(headers) demo_p4_program.(actions) [p; q] p = Ok
"control MyIngress {
	stage node_2 {
		parser {
			ipv4;
		};
		matcher {
			switch (hdr.ipv4.isValid(), (hdr.ipv4.ttl > 0x00)) {
				0b11: table(route);
				*: None;
			}
		};
		executor {
			forward: None;
			NoAction: None;
		};
	}
}
" ∧ value_width_of demo_p4_program.(actions) <$> p.(pipe_tables) = [25]
  | _ => False
  end.
Proof. vm_compute. done. Qed.

(** [linked] for a program. *)
#[local] Instance led_to_dec p n : Decision (led_to p n).
Proof. unfold led_to. apply _. Defined.

Lemma linked_check p :
  led_to p p.(init_table) → Forall (λ c, led_to p c.(true_next) ∧ led_to p c.(false_next)) p.(conditionals) →
  Forall (λ t, Forall (led_to p) (nexts t)) p.(pipe_tables) → linked p.
Proof.
  rewrite !Forall_forall. intros Hi Hc Ht. split; [done|done|]. intros t key next Hin Hk. specialize (Ht t Hin).
  rewrite Forall_forall in Ht. apply Ht, elem_of_nexts. by exists key.
Qed.

Lemma printed_pipeline_witness :
  ∃ p stages ss, p ∈ demo_p4_program.(pipelines) ∧
    pipeline_text demo_p4_program.(headers) demo_p4_program.(actions) demo_p4_program.(pipelines) p =
      Ok (line 0 "control MyIngress {" +:+ cat ss +:+ line 0 "}") ∧
    head stages = Some "node_2" ∧ Forall2 (stage_of demo_p4_program.(pipelines)) stages ss.
Proof.
  destruct demo_p4_program.(pipelines) as [|p [|q [|? ?]]] eqn:Hps; try (vm_compute in Hps; discriminate Hps).
  destruct (pipeline_text demo_p4_program.(headers) demo_p4_program.(actions) [p; q] p) as [s|f] eqn:Hs;
    [|vm_compute in Hps; injection Hps as <- <-; vm_compute in Hs; discriminate Hs].
  assert (Hl : linked p). { vm_compute in Hps. injection Hps as <- <-.
    apply linked_check; apply (bool_decide_unpack _); vm_compute; exact I. }
  destruct (printed_pipeline _ _ [p; q] p s ltac:(by left) Hl Hs) as (stages & ss & He & Hf & Hh & _).
  exists p, stages, ss. split; [by left|]. vm_compute in Hps. injection Hps as <- <-. split; [rewrite Hs, He; reflexivity|].
  split; [apply Hh; discriminate|exact Hf].
Defined.

(** The operands of an expression are printed without the parameters of the action: the
    sum of a field and a parameter has no second operand. *)
Lemma parameter_in_expression_lost :
  parameter_text (mkP4Headers [] []) (Some [mkP4RuntimeData "port" 9])
    (ParExpression "+" (Some (ParHexstr "0x01")) (Some (ParRuntimeData 0))) = Ok "(0x01 + )".
Proof. vm_compute. reflexivity. Qed.
