(* ===== verification/Lexer.v ===== *)
(** * The rP4 compiler: the lexer (src/rP4-compiler/rp4c/lex.l)

    The rules of the lexer, and flex's way to choose between them: the rule with the
    longest match, of those the first. *)

From stdpp Require Import base numbers list strings.
From Stdlib Require Import ZArith Lia Ascii.
From S2P Require Import Prelude TableKey Json.

#[local] Open Scope Z_scope.

(** ** Tokens (yacc.y); a character that is a token of its own is [Single] *)
Inductive Token : Set :=
| BIT | STRUCT | TRUE | FALSE | HEADER | HEADERS
| PARSER | STATE | TRANSITION | PACKET | PACKET_IN
| DEFAULT | ACCEPT | EXTRACT | SELECT
| ACTIONS | ACTION | NOACTION
| TABLES | TABLE | KEY | SIZE | DEFAULT_ACTION | ENTRIES
| EXACT | TERNARY | LPM | STAGE
| CONTROL | MATCHER | EXECUTOR | SWITCH | HIT | MISS | NONE
| IS_VALID | VALUE_WIDTH
| EQU | NEQ | LEQ | GEQ | T_EOF
| ANDANDAND | DIVDIVDIV
| IDENTIFIER (sv_str : string) | VALUE_STRING (sv_str : string)
| VALUE_INT (sv_int : Z)
| Single (c : ascii).
#[export] Instance token_eq_dec : EqDecision Token.
Proof. solve_decision. Defined.

(** ** Rules: how many characters of the input a pattern matches at most, and what is
    done with them *)
Inductive LexAction (T : Set) : Set := Ignore | Begin_comment | Return (t : T) | Unexpected.
Arguments Ignore {T}.
Arguments Begin_comment {T}.
Arguments Return {T} _.
Arguments Unexpected {T}.
Definition rule (T : Set) : Set := (chars → option nat) * (chars → LexAction T).

Fixpoint prefix (p s : chars) : bool :=
  match p, s with [], _ => true | c :: p, d :: s => bool_decide (c = d) && prefix p s | _, _ => false end.
Definition literal (p : string) (s : chars) : option nat := if prefix (text p) s then Some (String.length p) else None.

(** As many characters as [f] takes, and at least one of them. *)
Fixpoint span (f : ascii → bool) (s : chars) : nat := match s with c :: s => if f c then S (span f s) else O | [] => O end.
Definition plus (f : ascii → bool) (s : chars) : option nat := match span f s with O => None | n => Some n end.
(** One pattern and then another. *)
Definition after (n : option nat) (p : chars → option nat) (s : chars) : option nat := n ← n; m ← p (drop n s); Some (n + m)%nat.

Definition is_alpha (c : ascii) : bool :=
  let x := code c in (97 <=? x) && (x <=? 122) || (65 <=? x) && (x <=? 90).
Definition is_hex_digit (c : ascii) : bool :=
  let x := code c in is_digit c || (97 <=? x) && (x <=? 102) || (65 <=? x) && (x <=? 70).
Definition is_bin_digit (c : ascii) : bool := bool_decide (c = "0"%char) || bool_decide (c = "1"%char).
Definition is_name_char (c : ascii) : bool := bool_decide (c = "_"%char) || is_alpha c || is_digit c.
Definition blank (c : ascii) : bool := bool_decide (c = " "%char) || bool_decide (c = "009"%char).
Definition single_op (c : ascii) : bool := bool_decide (c ∈ text ";(),*=><.:#[]{}+-/&|^~!").

Definition white_space (s : chars) : option nat := plus blank s.
Definition new_line (s : chars) : option nat :=
  match s with
  | "013"%char :: "010"%char :: _ => Some 2%nat
  | "013"%char :: _ | "010"%char :: _ => Some 1%nat
  | _ => None
  end.
Definition line_comment (s : chars) : option nat :=
  n ← literal "//" s; Some (n + span (λ c, negb (bool_decide (c = "010"%char))) (drop n s))%nat.
Definition identifier (s : chars) : option nat :=
  match s with c :: s' => if is_alpha c then Some (S (span is_name_char s')) else None | [] => None end.
Definition value_int (s : chars) : option nat :=
  match s with
  | "+"%char :: s' | "-"%char :: s' => n ← plus is_digit s'; Some (S n)
  | s => plus is_digit s
  end.
Definition hex_int (s : chars) : option nat := after (literal "0x" s) (plus is_hex_digit) s.
Definition bin_int (s : chars) : option nat := after (literal "0b" s) (plus is_bin_digit) s.
Definition value_string (s : chars) : option nat :=
  match s with
  | "'"%char :: s' => let n := span (λ c, negb (bool_decide (c = "'"%char))) s' in
      match drop n s' with _ :: _ => Some (2 + n)%nat | [] => None end
  | _ => None
  end.

(** [strtol] in a base stops at the limits of a long, and the result is cut to an int;
    [atoi] is [strtol] for decimals. *)
Definition long (n : Z) : Z := Z.max (- 2 ^ 63) (Z.min (2 ^ 63 - 1) n).
Definition digit_value (c : ascii) : Z :=
  let x := code c in if is_digit c then x - 48 else if x <=? 70 then x - 55 else x - 87.
Definition number (base : Z) (s : chars) : Z := fold_left (λ x c, base * x + digit_value c) s 0.
Definition atoi (s : chars) : Z :=
  i32 (long (match s with "-"%char :: s => - number 10 s | "+"%char :: s => number 10 s | s => number 10 s end)).
Definition strtol (base : Z) (s : chars) : Z := i32 (long (number base s)).

Definition keywords : list (string * Token) :=
  [("bit", BIT); ("struct", STRUCT); ("true", TRUE); ("false", FALSE); ("header", HEADER); ("headers", HEADERS);
   ("parser", PARSER); ("state", STATE); ("transition", TRANSITION); ("packet", PACKET); ("packet_in", PACKET_IN);
   ("select", SELECT); ("default", DEFAULT); ("accept", ACCEPT); ("extract", EXTRACT); ("actions", ACTIONS);
   ("action", ACTION); ("NoAction", NOACTION); ("tables", TABLES); ("table", TABLE); ("key", KEY); ("size", SIZE);
   ("default_action", DEFAULT_ACTION); ("entries", ENTRIES); ("exact", EXACT); ("ternary", TERNARY); ("lpm", LPM);
   ("control", CONTROL); ("matcher", MATCHER); ("executor", EXECUTOR); ("switch", SWITCH); ("__HIT__", HIT);
   ("__MISS__", MISS); ("isValid", IS_VALID); ("None", NONE); ("stage", STAGE); ("value_width", VALUE_WIDTH)]%string.
Definition operators : list (string * Token) :=
  [(">=", GEQ); ("<=", LEQ); ("!=", NEQ); ("==", EQU); ("&&&", ANDANDAND); ("///", DIVDIVDIV)]%string.

Definition word {T : Set} (kt : string * T) : rule T := (literal kt.1, λ _, Return kt.2).
Definition string_of_chars (s : chars) : string := String.string_of_list_ascii s.

Definition layout_rules : list (rule Token) :=
  [(literal "/*", λ _, Begin_comment); (line_comment, λ _, Ignore); (white_space, λ _, Ignore); (new_line, λ _, Ignore)].
Definition single_rule : rule Token :=
  (λ s, match s with c :: _ => if single_op c then Some 1%nat else None | [] => None end,
   λ s, match s with c :: _ => Return (Single c) | [] => Unexpected end).
Definition value_rules : list (rule Token) :=
  [(identifier, λ s, Return (IDENTIFIER (string_of_chars s)));
   (value_int, λ s, Return (VALUE_INT (atoi s)));
   (hex_int, λ s, Return (VALUE_INT (strtol 16 (drop 2 s))));
   (bin_int, λ s, Return (VALUE_INT (strtol 2 (drop 2 s))));
   (value_string, λ s, Return (VALUE_STRING (string_of_chars (take (length s - 2) (drop 1 s)))));
   (λ s, match s with [] => None | _ => Some 1%nat end, λ _, Unexpected)].
Definition rules : list (rule Token) :=
  layout_rules ++ (word <$> keywords) ++ (word <$> operators) ++ single_rule :: value_rules.

(** The longest match, of those the first. *)
Fixpoint choose {T : Set} (rs : list (rule T)) (s : chars) (best : option (nat * (chars → LexAction T))) :
    option (nat * (chars → LexAction T)) :=
  match rs with
  | [] => best
  | (m, act) :: rs =>
      choose rs s (match m s, best with
                   | Some n, None => Some (n, act)
                   | Some n, Some (k, _) => if Nat.ltb k n then Some (n, act) else best
                   | None, _ => best
                   end)
  end.

(** The text of a comment, up to its end. *)
Fixpoint end_comment (s : chars) : chars :=
  match s with
  | "*"%char :: "/"%char :: s => s
  | _ :: s => end_comment s
  | [] => []
  end.

(** [yylex] until the end of the file, which is the token [eof]; a character no rule knows
    is reported and skipped.  Each round takes a character. *)
Fixpoint scan {T : Set} (rs : list (rule T)) (eof : T) (fuel : nat) (s : chars) : list T :=
  match fuel with
  | O => []
  | S fuel =>
      match choose rs s None with
      | None => [eof]
      | Some (n, act) =>
          match act (take n s) with
          | Return t => t :: scan rs eof fuel (drop n s)
          | Begin_comment => scan rs eof fuel (end_comment (drop n s))
          | Ignore | Unexpected => scan rs eof fuel (drop n s)
          end
      end
  end.
Definition lex (s : chars) : list Token := scan rules T_EOF (S (length s)) s.

Lemma demo_lex :
  lex (text "packet.extract(hdr.ipv4); /* a *b */ 0b11: x &&& 0x1F != -12 // end") =
    [PACKET; Single "."; EXTRACT; Single "("; IDENTIFIER "hdr"; Single "."; IDENTIFIER "ipv4"; Single ")"; Single ";";
     VALUE_INT 3; Single ":"; IDENTIFIER "x"; ANDANDAND; VALUE_INT 31; NEQ; VALUE_INT (-12); T_EOF].
Proof. vm_compute. reflexivity. Qed.

(** The operator of a prefix is the start of a comment. *)
Lemma prefix_operator_is_comment : lex (text "0x0a000000 /// 8") = [VALUE_INT 167772160; T_EOF].
Proof. vm_compute. reflexivity. Qed.

(** ** One token after the other *)
Definition positive_rule {T : Set} (r : rule T) : Prop := ∀ s n, r.1 s = Some n → (1 ≤ n)%nat ∧ s ≠ [].

Lemma literal_prefix p s n : literal p s = Some n → prefix (text p) s = true ∧ n = String.length p.
Proof. unfold literal. destruct (prefix (text p) s); [intros [= <-]; done|done]. Qed.

Lemma literal_positive {T : Set} p (act : chars → LexAction T) : p ≠ EmptyString → positive_rule (literal p, act).
Proof.
  intros Hp s n [Hpre ->]%literal_prefix. destruct p as [|c p]; [done|]. cbn. split; [lia|]. by destruct s.
Qed.

Lemma plus_some f s n : plus f s = Some n → (1 ≤ n)%nat ∧ s ≠ [].
Proof. unfold plus. destruct s as [|c s]; cbn; [done|]. destruct (f c); [|done]. intros [= <-]. split; [lia|done]. Qed.

Lemma after_some n p s k : after n p s = Some k → ∃ i j, n = Some i ∧ p (drop i s) = Some j ∧ k = (i + j)%nat.
Proof. unfold after. destruct n as [i|]; [|done]. cbn. destruct (p (drop i s)) as [j|] eqn:E; [|done]. cbn. intros [= <-]. by exists i, j. Qed.

Lemma words_positive {T : Set} (l : list (string * T)) : Forall (λ kt, kt.1 ≠ EmptyString) l → Forall positive_rule (word <$> l).
Proof. intros Hl. apply Forall_fmap. eapply Forall_impl; [exact Hl|]. intros [p t] Hp. by apply literal_positive. Qed.

Ltac each_rule := repeat match goal with |- Forall _ (_ :: _) => apply Forall_cons_2 | |- Forall _ [] => constructor end.

Section patterns.
Context {T : Set} (act : chars → LexAction T).

Lemma white_space_positive : positive_rule (white_space, act).
Proof. intros s n H. by eapply plus_some. Qed.
Lemma new_line_positive : positive_rule (new_line, act).
Proof.
  intros s n H. cbn in H. destruct s as [|c s]; [done|]. split; [|done]. unfold new_line in H.
  repeat match goal with H : context [match ?x with _ => _ end] |- _ => destruct x; try discriminate H end; injection H as <-; lia.
Qed.
Lemma identifier_positive : positive_rule (identifier, act).
Proof. intros s n H. destruct s as [|c s]; [done|]. cbn in H. destruct (is_alpha c); [injection H as <-; split; [lia|done]|done]. Qed.
Lemma value_int_positive : positive_rule (value_int, act).
Proof.
  intros s n H. cbn in H. unfold value_int in H. destruct s as [|c s]; [done|]. split; [|done].
  assert (Hp : plus is_digit (c :: s) = Some n ∨ ∃ k, n = S k).
  { repeat match goal with H : context [match ?x with _ => _ end] |- _ => destruct x end; try (by left);
      (destruct (plus is_digit s) as [k|]; [|done]; injection H as <-; right; by eexists). }
  destruct Hp as [[? _]%plus_some|[k ->]]; lia.
Qed.
Lemma after_literal_positive d (p : chars → option nat) : d ≠ EmptyString → positive_rule (λ s : chars, after (literal d s) p s, act).
Proof. intros Hd s n H. cbn in H. apply after_some in H as (i & j & Hi & _ & ->). destruct (literal_positive d act Hd s i Hi). split; [lia|done]. Qed.
Lemma value_string_positive : positive_rule (value_string, act).
Proof.
  intros s n H. destruct s as [|c s]; [done|]. split; [|done]. cbn [fst] in H. unfold value_string in H.
  repeat match goal with H : context [match ?x with _ => _ end] |- _ => destruct x; try discriminate H end; injection H as <-; lia.
Qed.
(** A pattern that begins with a literal. *)
Lemma begun_positive d (f : nat → chars → nat) : d ≠ EmptyString → positive_rule (λ s, n ← literal d s; Some (n + f n s)%nat, act).
Proof.
  intros Hd s n H. cbn in H. destruct (literal d s) as [k|] eqn:E; [|done]. injection H as <-. destruct (literal_positive d act Hd s k E).
  split; [lia|done].
Qed.
Lemma character_positive (f : ascii → bool) : positive_rule (λ s : chars, match s with (c :: _)%list => if f c then Some 1%nat else None | [] => None end, act).
Proof. intros s n H. destruct s as [|c s]; [done|]. cbn in H. destruct (f c); [injection H as <-; split; [lia|done]|done]. Qed.
Lemma any_positive : positive_rule (λ s : chars, match s with [] => None | _ => Some 1%nat end, act).
Proof. intros s n H. destruct s; [done|]. injection H as <-. split; [lia|done]. Qed.
End patterns.

Ltac rule_positive :=
  first [ by apply literal_positive | apply white_space_positive | apply new_line_positive | apply identifier_positive | apply value_int_positive
        | by apply after_literal_positive | apply value_string_positive | apply begun_positive; done | apply character_positive | apply any_positive
        | apply words_positive, (bool_decide_unpack _); vm_compute; exact I ].

Lemma rules_positive : Forall positive_rule rules.
Proof.
  unfold rules, layout_rules, value_rules, single_rule, line_comment. rewrite !Forall_app. split_and!; each_rule; rule_positive.
Qed.

Lemma choose_some {T : Set} (rs : list (rule T)) s best n act :
  Forall positive_rule rs → choose rs s best = Some (n, act) → ((1 ≤ n)%nat ∧ s ≠ []) ∨ best = Some (n, act).
Proof.
  revert best. induction rs as [|[m a] rs IH]; intros best Hr H; [by right|]. apply Forall_cons in Hr as [Hm Hr]. cbn [choose] in H.
  destruct (IH _ Hr H) as [?|Hb]; [by left|]. destruct (m s) as [k|] eqn:Hk; [|by right]. pose proof (Hm s k Hk) as Hk'.
  destruct best as [[k' a']|]; [destruct (Nat.ltb k' k)|]; try (by right); injection Hb as -> ->; by left.
Qed.

Lemma end_comment_length s : (length (end_comment s) ≤ length s)%nat.
Proof.
  assert (H : ∀ n s, (length s ≤ n)%nat → (length (end_comment s) ≤ length s)%nat); [|by apply (H (length s))].
  intros n. induction n as [|n IH]; intros [|c [|d r]] Hn; try (cbn in *; lia).
  - assert (Hc : end_comment [c] = []) by (cbn; by repeat match goal with |- context [match ?x with _ => _ end] => destruct x end). rewrite Hc. cbn. lia.
  - assert (Hc : end_comment (c :: d :: r) = r ∨ end_comment (c :: d :: r) = end_comment (d :: r)).
    { cbn [end_comment]. repeat match goal with |- context [match ?x with _ => _ end] => is_var x; destruct x end; auto. }
    specialize (IH (d :: r) ltac:(cbn in *; lia)). destruct Hc as [-> | ->]; cbn [length] in *; lia.
Qed.

Section rounds.
Context {T : Set} (rs : list (rule T)) (eof : T) (Hrs : Forall positive_rule rs).

Lemma scan_more n m s : (length s < n)%nat → (length s < m)%nat → scan rs eof n s = scan rs eof m s.
Proof.
  revert m s. induction n as [|n IH]; intros m s Hn Hm; [lia|]. destruct m as [|m]; [lia|]. cbn [scan].
  destruct (choose rs s None) as [[k act]|] eqn:Hc; [|done]. apply choose_some in Hc as [[Hk Hs]|?]; [|done|done].
  assert (Hl : (length (drop k s) < length s)%nat) by (rewrite length_drop; destruct s; [done|cbn; lia]).
  pose proof (end_comment_length (drop k s)).
  destruct (act (take k s)); first [apply IH; lia|f_equal; apply IH; lia].
Qed.

(** With fuel for every character, a token at a time. *)
Lemma scan_step s (go := λ s, scan rs eof (S (length s)) s) :
  go s = match choose rs s None with
         | None => [eof]
         | Some (n, act) =>
             match act (take n s) with
             | Return t => t :: go (drop n s)
             | Begin_comment => go (end_comment (drop n s))
             | Ignore | Unexpected => go (drop n s)
             end
         end.
Proof.
  unfold go at 1. cbn [scan]. destruct (choose rs s None) as [[k act]|] eqn:Hc; [|done]. apply choose_some in Hc as [[Hk Hs]|?]; [|done|done].
  assert (Hl : (length (drop k s) < length s)%nat) by (rewrite length_drop; destruct s; [done|cbn; lia]).
  pose proof (end_comment_length (drop k s)). unfold go.
  destruct (act (take k s)); first [apply scan_more; lia|f_equal; apply scan_more; lia].
Qed.
End rounds.

(** The lexer, a token at a time. *)
Lemma lex_step s :
  lex s = match choose rules s None with
          | None => [T_EOF]
          | Some (n, act) =>
              match act (take n s) with
              | Return t => t :: lex (drop n s)
              | Begin_comment => lex (end_comment (drop n s))
              | Ignore | Unexpected => lex (drop n s)
              end
          end.
Proof. apply scan_step, rules_positive. Qed.

(** A rule that matches more than those before it and not less than those behind it. *)
Definition at_most {T : Set} (n : nat) (s : chars) (r : rule T) : Prop := match r.1 s with None => True | Some k => (k ≤ n)%nat end.
Definition less_than {T : Set} (n : nat) (s : chars) (r : rule T) : Prop := match r.1 s with None => True | Some k => (k < n)%nat end.

Lemma choose_at_most {T : Set} (rs : list (rule T)) s n act : Forall (at_most n s) rs → choose rs s (Some (n, act)) = Some (n, act).
Proof.
  induction 1 as [|[m a] rs Hm _ IH]; [done|]. cbn [choose]. unfold at_most in Hm. cbn in Hm. destruct (m s) as [k|]; [|done].
  by rewrite (proj2 (Nat.ltb_ge n k)).
Qed.

Lemma choose_rule {T : Set} (rs1 : list (rule T)) m act rs2 s n :
  Forall (less_than n s) rs1 → m s = Some n → Forall (at_most n s) rs2 →
  choose (rs1 ++ (m, act) :: rs2) s None = Some (n, act).
Proof.
  intros H1 Hm H2. assert (H : ∀ best, match best with Some (k, _) => (k < n)%nat | None => True end →
    choose (rs1 ++ (m, act) :: rs2) s best = Some (n, act)); [|by apply H].
  induction H1 as [|[m' a'] rs1 Hm' _ IH]; intros best Hb; cbn [app choose].
  - rewrite Hm. destruct best as [[k a]|]; [rewrite (proj2 (Nat.ltb_lt k n)) by done|]; by apply choose_at_most.
  - apply IH. unfold less_than in Hm'. cbn in Hm'. destruct (m' s) as [k|]; [|done]. destruct best as [[k' a]|]; [destruct (Nat.ltb k' k)|]; done.
Qed.

#[global] Arguments lex : simpl never.
#[global] Opaque lex.

(** ** Words and numbers *)

(** What follows is no part of a word. *)
Definition ends_word (s : chars) : Prop := match s with [] => True | c :: _ => is_name_char c = false end.

(** The text [w] is the token [t] before anything that is no part of a word. *)
Definition token_text (w : chars) (t : Token) : Prop := ∀ s, ends_word s → lex (w ++ s) = t :: lex s.

Lemma name_char_facts c : is_name_char c = true →
  blank c = false ∧ single_op c = false ∧ c ≠ "/"%char ∧ c ≠ "'"%char ∧ (∀ s, new_line (c :: s) = None).
Proof.
  assert (H : implb (is_name_char c) (negb (blank c) && negb (single_op c) && negb (bool_decide (c = "/"%char)) &&
    negb (bool_decide (c = "'"%char)) && negb (bool_decide (c = "013"%char)) && negb (bool_decide (c = "010"%char))) = true).
  { all_chars c; vm_compute; reflexivity. }
  intros Hc. rewrite Hc in H. cbn [implb] in H. rewrite !andb_true_iff, !negb_true_iff, !bool_decide_eq_false in H.
  destruct H as (((((? & ?) & ?) & ?) & Hr) & Hn). repeat split; try done. intros s. unfold new_line. all_chars c; done.
Qed.

Lemma span_all f w s : Forall (λ c, f c = true) w → match s with [] => True | c :: _ => f c = false end → span f (w ++ s) = length w.
Proof.
  intros Hw Hs. induction Hw as [|c w Hc _ IH]; cbn; [|by rewrite Hc, IH]. destruct s as [|c s]; [done|]. cbn. by rewrite Hs.
Qed.

Lemma prefix_word p w s : Forall (λ c, is_name_char c = true) p → ends_word s → prefix p (w ++ s) = true → ∃ w', w = p ++ w'.
Proof.
  intros Hp Hs. revert w. induction Hp as [|c p Hc _ IH]; intros w H; [by exists w|]. destruct w as [|d w].
  - destruct s as [|d s]; [done|]. cbn in H. apply andb_prop in H as [Hd%bool_decide_eq_true _]. cbn in Hs. congruence.
  - cbn in H. apply andb_prop in H as [->%bool_decide_eq_true H]. destruct (IH w H) as [w' ->]. by exists w'.
Qed.

Lemma keywords_named : Forall (λ kt, Forall (λ c, is_name_char c = true) (text kt.1) ∧ Forall (λ c, is_digit c = false) (take 1 (text kt.1)) ∧ kt.1 ≠ EmptyString) keywords.
Proof. apply (bool_decide_unpack _). vm_compute. exact I. Qed.

Lemma keywords_distinct : NoDup keywords.*1.
Proof. apply (bool_decide_unpack _). vm_compute. exact I. Qed.

Lemma operators_unnamed : Forall (λ kt, Forall (λ c, is_name_char c = false) (text kt.1) ∧ text kt.1 ≠ []) operators.
Proof. apply (bool_decide_unpack _). vm_compute. exact I. Qed.

Lemma length_text n : String.length n = length (text n).
Proof. induction n as [|c n IH]; [done|]. cbn. by rewrite IH. Qed.

Lemma text_inj a b : text a = text b → a = b.
Proof. intros H. by rewrite <- (String.string_of_list_ascii_of_string a), <- (String.string_of_list_ascii_of_string b); unfold text in H; rewrite H. Qed.

Lemma prefix_app p s : prefix p (p ++ s) = true.
Proof. induction p as [|c p IH]; [done|]. cbn. by rewrite bool_decide_true, IH. Qed.

Section word.
Context (c : ascii) (w s : chars).
Context (Hw : Forall (λ c, is_name_char c = true) (c :: w)) (Hs : ends_word s).

Lemma word_comment : less_than (length (c :: w)) ((c :: w) ++ s) (literal "/*", λ _, @Begin_comment Token).
Proof using Hw.
  apply Forall_cons in Hw as [Hc _]. apply name_char_facts in Hc as (_ & _ & H & _). unfold less_than, literal. cbn.
  by rewrite bool_decide_false by congruence.
Qed.

Lemma word_start : Forall (less_than (length (c :: w)) ((c :: w) ++ s)) layout_rules.
Proof using Hw.
  pose proof Hw as [Hc _]%Forall_cons. apply name_char_facts in Hc as (Hb & _ & H & _ & Hn).
  unfold layout_rules. each_rule; [apply word_comment| | |]; unfold less_than; cbn [fst app].
  - unfold line_comment, literal. cbn. by rewrite bool_decide_false by congruence.
  - unfold white_space, plus. cbn. by rewrite Hb.
  - by rewrite Hn.
Qed.

Lemma word_keyword kt : kt ∈ keywords → match (word kt).1 ((c :: w) ++ s) with
  | Some k => ∃ w', c :: w = text kt.1 ++ w' ∧ k = length (text kt.1)
  | None => True
  end.
Proof using Hw Hs.
  intros Hkt. pose proof keywords_named as Hn. rewrite Forall_forall in Hn. destruct (Hn kt Hkt) as (Hname & _).
  cbn [word fst]. destruct (literal kt.1 ((c :: w) ++ s)) as [k|] eqn:E; [|done]. apply literal_prefix in E as [Hp ->].
  apply prefix_word in Hp as [w' Hw']; [|done..]. exists w'. split; [done|apply length_text].
Qed.

Lemma word_keywords_at_most l : l ⊆ keywords → Forall (at_most (length (c :: w)) ((c :: w) ++ s)) (word <$> l).
Proof using Hw Hs.
  intros Hl. apply Forall_fmap, Forall_forall. intros kt Hkt. pose proof (word_keyword kt (Hl kt Hkt)) as H. unfold at_most. cbn [compose].
  destruct ((word kt).1 _) as [k|]; [|done]. destruct H as (w' & He & ->). rewrite He, length_app. lia.
Qed.

Lemma word_keywords_less l : l ⊆ keywords → Forall (λ kt, text kt.1 ≠ c :: w) l → Forall (less_than (length (c :: w)) ((c :: w) ++ s)) (word <$> l).
Proof using Hw Hs.
  rewrite !Forall_forall. intros Hl Hne r (kt & -> & Hkt)%list_elem_of_fmap. pose proof (word_keyword kt (Hl kt Hkt)) as H. unfold less_than.
  destruct ((word kt).1 _) as [k|]; [|done]. destruct H as (w' & He & ->). specialize (Hne kt Hkt). rewrite He in Hne |- *. rewrite length_app.
  destruct w'; [by rewrite app_nil_r in Hne|cbn; lia].
Qed.

Lemma word_operators : Forall (less_than (length (c :: w)) ((c :: w) ++ s)) (word <$> operators).
Proof using Hw.
  apply Forall_fmap, Forall_forall. intros [p t] Hp. pose proof operators_unnamed as Hu. rewrite Forall_forall in Hu. destruct (Hu _ Hp) as [Hn Hne].
  cbn [fst] in Hn, Hne. unfold less_than, compose, word, literal. cbn [fst snd]. destruct (text p) as [|d l]; [by destruct Hne|]. cbn. apply Forall_cons in Hw as [Hc _]. apply Forall_cons in Hn as [Hd _].
  rewrite bool_decide_false; [done|]. congruence.
Qed.

Lemma word_single : less_than (length (c :: w)) ((c :: w) ++ s) single_rule.
Proof using Hw. apply Forall_cons in Hw as [Hc _]. apply name_char_facts in Hc as (_ & H & _). unfold less_than. cbn. by rewrite H. Qed.

Lemma word_identifier : is_alpha c = true → identifier ((c :: w) ++ s) = Some (length (c :: w)).
Proof using Hw Hs.
  intros Hc. cbn. rewrite Hc, span_all; [done|by apply Forall_cons in Hw as [_ ?]|done].
Qed.
Lemma word_no_identifier : is_alpha c = false → identifier ((c :: w) ++ s) = None.
Proof. intros Hc. cbn. by rewrite Hc. Qed.

(** A word does not start like a number. *)
Lemma word_numbers : is_digit c = false → Forall (at_most (length (c :: w)) ((c :: w) ++ s)) (tail value_rules).
Proof using Hw.
  intros Hd. pose proof Hw as [Hc _]%Forall_cons. assert (Hz : c ≠ "0"%char) by (intros ->; discriminate Hd).
  unfold value_rules. cbn [tail]. each_rule; unfold at_most; cbn [fst].
  - cbn [app]. assert (Hv : value_int (c :: w ++ s) = plus is_digit (c :: w ++ s)).
    { unfold value_int. apply name_char_facts in Hc as (_ & Hc & _). all_chars c; try discriminate Hc; reflexivity. }
    rewrite Hv. unfold plus. cbn. by rewrite Hd.
  - unfold hex_int, after, literal. cbn. by rewrite bool_decide_false by congruence.
  - unfold bin_int, after, literal. cbn. by rewrite bool_decide_false by congruence.
  - apply name_char_facts in Hc as (_ & _ & _ & H & _). cbn [app]. unfold value_string. all_chars c; try done.
  - cbn. lia.
Qed.
End word.


Lemma less_at_most n s (rs : list (rule Token)) : Forall (less_than n s) rs → Forall (at_most n s) rs.
Proof. intros H. eapply Forall_impl; [exact H|]. intros r. unfold less_than, at_most. destruct (r.1 s); [lia|done]. Qed.

Lemma lex_rule (rs1 : list (rule Token)) m act rs2 s t n :
  rules = rs1 ++ (m, act) :: rs2 → Forall (less_than n s) rs1 → m s = Some n → Forall (at_most n s) rs2 →
  act (take n s) = Return t → lex s = t :: lex (drop n s).
Proof. intros Hr H1 Hm H2 Hact. rewrite lex_step. setoid_rewrite Hr. by rewrite (choose_rule _ _ _ _ _ n), Hact. Qed.

Lemma text_of_chars s : text (string_of_chars s) = s.
Proof. apply String.list_ascii_of_string_of_list_ascii. Qed.

Lemma keyword_lexed n t : (n, t) ∈ keywords → token_text (text n) t.
Proof.
  intros Hin s Hs. pose proof keywords_named as Hnamed. rewrite Forall_forall in Hnamed. destruct (Hnamed _ Hin) as (Hw & Hd & Hne). cbn [fst] in *.
  destruct (text n) as [|c w] eqn:Hn; [by destruct n|].
  destruct (list_elem_of_split _ _ Hin) as (l1 & l2 & Hk).
  assert (Hl1 : Forall (λ kt, text kt.1 ≠ c :: w) l1).
  { apply Forall_forall. intros [n' t'] Hin' He. rewrite <- Hn in He. apply text_inj in He. cbn in He. subst n'.
    pose proof keywords_distinct as Hnd. rewrite Hk, fmap_app in Hnd. apply NoDup_app in Hnd as (_ & Hnd & _).
    apply (Hnd n); [apply list_elem_of_fmap; by exists (n, t')|]. rewrite fmap_cons. by left. }
  assert (Hsub : l1 ⊆ keywords ∧ l2 ⊆ keywords).
  { rewrite Hk. split; intros x Hx; apply elem_of_app; [by left|right; by right]. }
  rewrite (lex_rule (layout_rules ++ (word <$> l1)) (literal n) (λ _, Return t) ((word <$> l2) ++ (word <$> operators) ++ single_rule :: value_rules) _ t (length (c :: w))).
  - by rewrite drop_app_length.
  - unfold rules. rewrite Hk, fmap_app, fmap_cons, <- !(assoc_L (++)). done.
  - apply Forall_app. split; [by apply word_start|apply word_keywords_less; [done|done|apply Hsub|done]].
  - unfold literal. rewrite Hn, prefix_app, length_text, Hn. done.
  - rewrite !Forall_app. split_and!.
    + apply word_keywords_at_most; [done|done|apply Hsub].
    + by apply less_at_most, word_operators.
    + inversion Hd as [|? ? Hc _]; subst. unfold value_rules. apply Forall_cons_2; [|apply Forall_cons_2; [|by apply word_numbers]].
      * refine (proj1 (Forall_singleton (at_most _ _) _) (less_at_most _ _ [_] _)). by apply Forall_singleton, word_single.
      * unfold at_most. cbn [fst]. destruct (is_alpha c) eqn:Ha; [by rewrite word_identifier|by rewrite word_no_identifier].
  - done.
Qed.

Lemma value_lexed c w (rs1 : list (rule Token)) m act rs2 t :
  Forall (λ c, is_name_char c = true) (c :: w) → Forall (λ kt, text kt.1 ≠ c :: w) keywords →
  value_rules = rs1 ++ (m, act) :: rs2 → act (c :: w) = Return t →
  (∀ s, ends_word s → Forall (less_than (length (c :: w)) ((c :: w) ++ s)) rs1 ∧ m ((c :: w) ++ s) = Some (length (c :: w)) ∧
    Forall (at_most (length (c :: w)) ((c :: w) ++ s)) rs2) →
  token_text (c :: w) t.
Proof.
  intros Hw Hk Hr Hact Hm s Hs. destruct (Hm s Hs) as (H1 & H2 & H3).
  rewrite (lex_rule (layout_rules ++ (word <$> keywords) ++ (word <$> operators) ++ single_rule :: rs1) m act rs2 _ t (length (c :: w))).
  - by rewrite drop_app_length.
  - unfold rules. rewrite Hr, <- !(assoc_L (++)). done.
  - rewrite !Forall_app, Forall_cons. split_and!; [by apply word_start|by apply word_keywords_less|by apply word_operators|by apply word_single|done].
  - done.
  - done.
  - by rewrite take_app_length.
Qed.

Lemma no_keyword n : n ∉ keywords.*1 → Forall (λ kt, text kt.1 ≠ text n) keywords.
Proof. intros Hn. apply Forall_forall. intros kt Hkt He%text_inj. apply Hn. rewrite <- He. by apply list_elem_of_fmap_2. Qed.

Lemma digit_no_keyword c w : is_digit c = true → Forall (λ kt, text kt.1 ≠ c :: w) keywords.
Proof.
  intros Hc. eapply Forall_impl; [exact keywords_named|]. intros kt (_ & Hd & _) He. rewrite He in Hd. cbn in Hd.
  inversion Hd. congruence.
Qed.

Lemma alpha_not_digit c : is_alpha c = true → is_digit c = false.
Proof. assert (H : implb (is_alpha c) (negb (is_digit c)) = true) by (all_chars c; reflexivity). intros Hc. rewrite Hc in H. by apply negb_true_iff in H. Qed.

Definition is_name (n : string) : Prop :=
  Forall (λ c, is_name_char c = true) (text n) ∧ match text n with c :: _ => is_alpha c = true | [] => False end ∧ n ∉ keywords.*1.

Lemma name_lexed n : is_name n → token_text (text n) (IDENTIFIER n).
Proof.
  intros (Hw & Hc & Hk%no_keyword). destruct (text n) as [|c w] eqn:Hn; [done|].
  eapply (value_lexed c w [] identifier _ (tail value_rules)); [done|done|reflexivity| |].
  - cbn beta. rewrite <- Hn. unfold text, string_of_chars. by rewrite String.string_of_list_ascii_of_string.
  - intros s Hs. split; [by apply Forall_nil|split; [by apply word_identifier|apply word_numbers; [done|by apply alpha_not_digit]]].
Qed.

(** *** Numbers *)
Lemma digit_facts c : is_digit c = true → is_name_char c = true ∧ is_alpha c = false ∧ (∀ s, value_int (c :: s) = plus is_digit (c :: s)).
Proof.
  assert (H : implb (is_digit c) (is_name_char c && negb (is_alpha c)) = true) by (all_chars c; reflexivity).
  intros Hc. rewrite Hc in H. cbn [implb] in H. apply andb_prop in H as [? ?%negb_true_iff]. split_and!; [done..|].
  intros s. all_chars c; try discriminate Hc; reflexivity.
Qed.

Lemma ends_digits s : ends_word s → match s with [] => True | c :: _ => is_digit c = false end.
Proof. destruct s as [|c s]; [done|]. intros H. destruct (is_digit c) eqn:Hc; [|done]. apply digit_facts in Hc as [? _]. cbn in H. congruence. Qed.

Lemma digits_named w : Forall (λ c, is_digit c = true) w → Forall (λ c, is_name_char c = true) w.
Proof. intros H. eapply Forall_impl; [exact H|]. intros c Hc. by apply digit_facts. Qed.

(** Another base's prefix. *)
Lemma no_prefix p d w s : Forall (λ c, is_name_char c = true) (text p) → ends_word s → d ∈ text p → d ∉ w → literal p (w ++ s) = None.
Proof.
  intros Hp Hs Hd Hn. unfold literal. destruct (prefix (text p) (w ++ s)) eqn:E; [|done].
  apply prefix_word in E as [w' ->]; [|done..]. destruct Hn. apply elem_of_app. by left.
Qed.

Lemma decimal_lexed c w : Forall (λ c, is_digit c = true) (c :: w) → token_text (c :: w) (VALUE_INT (atoi (c :: w))).
Proof.
  intros Hw. pose proof Hw as [Hc _]%Forall_cons. pose proof (digit_facts c Hc) as (_ & Ha & Hv).
  assert (Hn : ∀ d, is_digit d = false → d ∉ c :: w) by (intros d Hd Hin; rewrite Forall_forall in Hw; apply Hw in Hin; congruence).
  eapply (value_lexed c w (take 1 value_rules) value_int _ (drop 2 value_rules)); [by apply digits_named|by apply digit_no_keyword|reflexivity|done|].
  intros s Hs. split_and!.
  - unfold value_rules. cbn [take]. each_rule. unfold less_than. cbn [fst]. by rewrite word_no_identifier.
  - cbn [app]. rewrite Hv. unfold plus. change (c :: w ++ s) with ((c :: w) ++ s). rewrite span_all; [done|done|by apply ends_digits].
  - unfold value_rules. cbn [drop]. each_rule; unfold at_most; cbn [fst].
    + unfold hex_int, after. rewrite (no_prefix "0x" "x"); [done| |done| |by apply Hn]. all: apply (bool_decide_unpack _); vm_compute; exact I.
    + unfold bin_int, after. rewrite (no_prefix "0b" "b"); [done| |done| |by apply Hn]. all: apply (bool_decide_unpack _); vm_compute; exact I.
    + cbn [app]. unfold value_string. all_chars c; try discriminate Hc; exact I.
    + cbn. lia.
Qed.

(** Numbers with a base: [0x] and [0b]. *)
Lemma based_int_short d w s : is_digit d = false → plus is_digit (("0"%char :: d :: w) ++ s) = Some 1%nat.
Proof. intros Hd. unfold plus. cbn. by rewrite Hd. Qed.

Lemma hex_name_char c : is_hex_digit c = true → is_name_char c = true.
Proof. assert (H : implb (is_hex_digit c) (is_name_char c) = true) by (all_chars c; reflexivity). intros Hc. by rewrite Hc in H. Qed.
Lemma bin_name_char c : is_bin_digit c = true → is_name_char c = true.
Proof. assert (H : implb (is_bin_digit c) (is_name_char c) = true) by (all_chars c; reflexivity). intros Hc. by rewrite Hc in H. Qed.

Lemma ends_not f s : (∀ c, f c = true → is_name_char c = true) → ends_word s → match s with [] => True | c :: _ => f c = false end.
Proof. destruct s as [|c s]; [done|]. intros Hf H. destruct (f c) eqn:Hc; [|done]. apply Hf in Hc. cbn in H. congruence. Qed.

(** A number in the base [d] stands for, [x] or [b]. *)
Lemma based_lexed d f p (rs1 : list (rule Token)) m act rs2 w t :
  is_digit d = false → is_name_char d = true → (∀ c, f c = true → is_name_char c = true) → Forall (λ c, f c = true) w → w ≠ [] →
  p = String "0" (String d EmptyString) → m = (λ s, after (literal p s) (plus f) s) →
  value_rules = rs1 ++ (m, act) :: rs2 → act ("0"%char :: d :: w) = Return t →
  (∀ s, Forall (less_than (length ("0"%char :: d :: w)) ("0"%char :: d :: w ++ s)) rs1 ∧
    Forall (at_most (length ("0"%char :: d :: w)) ("0"%char :: d :: w ++ s)) rs2) →
  token_text ("0"%char :: d :: w) t.
Proof.
  intros Hd Hdn Hf Hw Hne -> -> Hr Hact Hrs.
  eapply (value_lexed _ _ rs1 _ act rs2); [|by apply digit_no_keyword|exact Hr|done|].
  - apply Forall_cons_2; [done|apply Forall_cons_2; [done|]]. eapply Forall_impl; [exact Hw|]. intros c Hc. by apply Hf.
  - intros s Hs. destruct (Hrs s) as [H1 H2]. split; [exact H1|split; [|exact H2]].
    unfold after, literal. cbn. rewrite !bool_decide_true by done. cbn. rewrite drop_0. unfold plus.
    rewrite span_all; [|done|by apply ends_not]. by destruct w.
Qed.

Lemma short_digits d s : is_digit d = false → plus is_digit ("0"%char :: d :: s) = Some 1%nat.
Proof. intros Hd. unfold plus. cbn. by rewrite Hd. Qed.

Lemma hex_lexed w : Forall (λ c, is_hex_digit c = true) w → w ≠ [] → token_text ("0"%char :: "x"%char :: w) (VALUE_INT (strtol 16 w)).
Proof.
  intros Hw Hne. eapply (based_lexed "x" is_hex_digit "0x" (take 2 value_rules) hex_int _ (drop 3 value_rules)); try done; [apply hex_name_char|].
  intros s. unfold value_rules. cbn [take drop]. split; each_rule; unfold less_than, at_most; cbn [fst]; cbn; rewrite ?short_digits by done; try exact I; cbn; lia.
Qed.
Lemma bin_lexed w : Forall (λ c, is_bin_digit c = true) w → w ≠ [] → token_text ("0"%char :: "b"%char :: w) (VALUE_INT (strtol 2 w)).
Proof.
  intros Hw Hne. eapply (based_lexed "b" is_bin_digit "0b" (take 3 value_rules) bin_int _ (drop 4 value_rules)); try done; [apply bin_name_char|].
  intros s. unfold value_rules. cbn [take drop]. split; each_rule; unfold less_than, at_most; cbn [fst]; cbn; rewrite ?short_digits by done; try exact I; cbn; lia.
Qed.

(** ** Punctuation, operators and layout *)
Lemma choose_app {T : Set} (rs1 rs2 : list (rule T)) s best : choose (rs1 ++ rs2) s best = choose rs2 s (choose rs1 s best).
Proof. revert best. induction rs1 as [|[m a] rs1 IH]; intros best; [done|]. cbn [app choose]. apply IH. Qed.

(** What is chosen, whatever follows. *)
Lemma lex_chosen s n act : choose rules s None = Some (n, act) →
  lex s = match act (take n s) with
          | Return t => t :: lex (drop n s)
          | Begin_comment => lex (end_comment (drop n s))
          | Ignore | Unexpected => lex (drop n s)
          end.
Proof. intros H. by rewrite lex_step, H. Qed.

Lemma single_lexed c s : c ∈ text ";(),*.:#[]{}|^~" → lex (c :: s) = Single c :: lex s.
Proof.
  assert (H : Forall (λ c, ∀ s, lex (c :: s) = Single c :: lex s) (text ";(),*.:#[]{}|^~")).
  { unfold text. cbn [String.list_ascii_of_string]. each_rule; intros s'; rewrite (lex_chosen _ 1 single_rule.2) by reflexivity; reflexivity. }
  intros Hc. rewrite Forall_forall in H. by apply H.
Qed.

Lemma single_blank c s : single_op c = true → lex (c :: " "%char :: s) = Single c :: lex (" "%char :: s).
Proof.
  assert (H : Forall (λ c, ∀ s, lex (c :: " "%char :: s) = Single c :: lex (" "%char :: s)) (text ";(),*=><.:#[]{}+-/&|^~!")).
  { unfold text. cbn [String.list_ascii_of_string]. each_rule; intros s'; rewrite (lex_chosen _ 1 single_rule.2) by reflexivity; reflexivity. }
  intros Hc%bool_decide_eq_true. rewrite Forall_forall in H. by apply H.
Qed.

Lemma operator_lexed p t s : (p, t) ∈ take 5 operators → lex (text p ++ s) = t :: lex s.
Proof.
  assert (H : Forall (λ kt, ∀ s, lex (text kt.1 ++ s) = kt.2 :: lex s) (take 5 operators)).
  { unfold operators. cbn [take]. each_rule; intros s'; cbn [fst snd]; unfold text; cbn [String.list_ascii_of_string app].
    - rewrite (lex_chosen _ 2 (λ _, Return GEQ)) by (vm_compute; reflexivity). reflexivity.
    - rewrite (lex_chosen _ 2 (λ _, Return LEQ)) by (vm_compute; reflexivity). reflexivity.
    - rewrite (lex_chosen _ 2 (λ _, Return NEQ)) by (vm_compute; reflexivity). reflexivity.
    - rewrite (lex_chosen _ 2 (λ _, Return EQU)) by (vm_compute; reflexivity). reflexivity.
    - rewrite (lex_chosen _ 3 (λ _, Return ANDANDAND)) by (vm_compute; reflexivity). reflexivity. }
  intros Hp. rewrite Forall_forall in H. apply (H (p, t) Hp).
Qed.

Lemma blanks_skipped s : lex (drop (span blank s) s) = lex s.
Proof.
  destruct s as [|c s]; [done|]. cbn [span]. destruct (blank c) eqn:Hc; [|done].
  assert (Hd : c = " "%char ∨ c = "009"%char) by (unfold blank in Hc; rewrite orb_true_iff, !bool_decide_eq_true in Hc; done).
  rewrite (lex_chosen (c :: s) (S (span blank s)) (λ _, Ignore)); [done|]. by destruct Hd as [-> | ->].
Qed.
Lemma blank_skipped c s : blank c = true → lex (c :: s) = lex s.
Proof. intros Hc. rewrite <- (blanks_skipped (c :: s)), <- (blanks_skipped s). cbn [span]. by rewrite Hc. Qed.
Lemma newline_skipped s : lex ("010"%char :: s) = lex s.
Proof. by rewrite (lex_chosen _ 1 (λ _, Ignore)). Qed.

(** ** Numbers are read as they are written *)
Definition int (n : Z) : Prop := - 2 ^ 31 ≤ n < 2 ^ 31.

Lemma number_decimal s : Forall (λ c, is_digit c = true) s → number 10 s = dec_value s.
Proof.
  unfold number, dec_value. generalize 0. induction s as [|c s IH]; intros x Hs; [done|]. apply Forall_cons in Hs as [Hc Hs]. cbn.
  unfold digit_value at 2. rewrite Hc. by apply IH.
Qed.

Lemma atoi_digits s : Forall (λ c, is_digit c = true) s → atoi s = i32 (long (number 10 s)).
Proof. destruct s as [|c s]; [done|]. intros [Hc _]%Forall_cons. unfold atoi. all_chars c; try discriminate Hc; reflexivity. Qed.

Lemma int_cut n : int n → i32 (long n) = n.
Proof. unfold int, long. intros H. rewrite i32_small; lia. Qed.

Lemma signed_lexed c w s : Forall (λ c, is_digit c = true) (c :: w) → ends_word s →
  lex ("-"%char :: (c :: w) ++ s) = VALUE_INT (i32 (long (- number 10 (c :: w)))) :: lex s.
Proof.
  intros Hw Hs. rewrite (lex_chosen _ (S (length (c :: w))) (λ s, Return (VALUE_INT (atoi s)))).
  - cbn [take drop]. by rewrite take_app_length, drop_app_length.
  - assert (Hr : rules = (layout_rules ++ (word <$> keywords) ++ (word <$> operators) ++ [single_rule; (identifier, λ s, Return (IDENTIFIER (string_of_chars s)))]) ++ drop 1 value_rules) by reflexivity.
    rewrite Hr, choose_app. set (b := choose _ _ None). assert (Hb : b = Some (1%nat, single_rule.2)) by reflexivity. rewrite Hb.
    unfold value_rules. cbn [drop choose]. assert (Hv : value_int ("-"%char :: (c :: w) ++ s) = Some (S (length (c :: w)))).
    { unfold value_int, plus. rewrite span_all; [done|done|by apply ends_digits]. }
    rewrite Hv. reflexivity.
Qed.

Lemma integer_lexed n s : int n → ends_word s → lex (integer n ++ s) = VALUE_INT n :: lex s.
Proof.
  intros Hn Hs. unfold integer. destruct (Z.ltb_spec n 0) as [H|H].
  - destruct (decimal_digits (Z.to_N (- n))) as (Hd & Hv & Hne). destruct (decimal _) as [|c w]; [done|].
    cbn [app]. change (c :: w ++ s) with ((c :: w) ++ s). rewrite signed_lexed by done. rewrite number_decimal by done. rewrite Hv, int_cut; [do 2 f_equal; lia|].
    replace (- Z.of_N (Z.to_N (- n))) with n by lia. done.
  - destruct (decimal_digits (Z.to_N n)) as (Hd & Hv & Hne). destruct (decimal _) as [|c w]; [done|].
    rewrite (decimal_lexed c w Hd s Hs), atoi_digits by done. rewrite number_decimal by done. rewrite Hv, Z2N.id by done. by rewrite int_cut.
Qed.

(** ** Spelling *)
Definition fixed_spelling (t : Token) : option string := fst <$> (snd <$> list_find (λ kt, kt.2 = t) (keywords ++ take 5 operators)).
Definition spelling (t : Token) : chars :=
  match t with
  | IDENTIFIER n => text n
  | VALUE_INT n => integer n
  | Single c => [c]
  | t => match fixed_spelling t with Some n => text n | None => [] end
  end.

(** Tokens that can be written: not the operator of a prefix, which starts a comment. *)
Definition writable (t : Token) : Prop :=
  match t with
  | IDENTIFIER n => is_name n
  | VALUE_INT n => int n
  | Single c => single_op c = true
  | VALUE_STRING _ | T_EOF | DIVDIVDIV => False
  | _ => True
  end.

(** Tokens with a blank behind each. *)
Definition spell (ts : list Token) : chars := concat ((λ t, spelling t ++ [" "%char]) <$> ts).

Lemma fixed_lexed t n s : fixed_spelling t = Some n → lex (text n ++ " "%char :: s) = t :: lex (" "%char :: s).
Proof.
  unfold fixed_spelling. destruct (list_find _ _) as [[i [n' t']]|] eqn:H; [|done]. cbn. intros [= ->].
  apply list_find_Some in H as (Hi & He & _). cbn in He. subst t'. apply list_elem_of_lookup_2, elem_of_app in Hi as [Hk|Ho].
  - by apply (keyword_lexed n t Hk).
  - by apply operator_lexed.
Qed.

Lemma writable_lexed t s : writable t → lex (spelling t ++ " "%char :: s) = t :: lex s.
Proof.
  intros Ht. rewrite <- (blank_skipped " "%char s) by done.
  assert (Hf : ∀ n, fixed_spelling t = Some n → lex (text n ++ " "%char :: s) = t :: lex (" "%char :: s)) by (intros n; apply fixed_lexed).
  destruct t; try contradiction Ht; try (apply (Hf _ eq_refl)); cbn [spelling writable] in *.
  - by apply name_lexed.
  - by apply integer_lexed.
  - by apply single_blank.
Qed.

Lemma spell_lexed ts s : Forall writable ts → lex (spell ts ++ s) = ts ++ lex s.
Proof.
  unfold spell. induction 1 as [|t ts Ht _ IH]; cbn [fmap list_fmap concat app]; [reflexivity|].
  rewrite <- !(assoc_L (++)). cbn [app]. rewrite writable_lexed by done. rewrite IH. reflexivity.
Qed.

(** C20. Tokens are read back: the lexer reads a text that spells tokens with a blank
    behind each of them as these tokens, when the names are no keywords, the numbers fit
    an int and none is [///], whose text is a comment to the lexer. *)
Theorem spelled_tokens_read ts : Forall writable ts → lex (spell ts) = ts ++ [T_EOF].
Proof. intros H. pose proof (spell_lexed ts [] H) as E. rewrite app_nil_r in E. exact E. Qed.

Definition demo_tokens : list Token :=
  [TABLE; IDENTIFIER "route"; Single "{"; KEY; Single "="; Single "{"; IDENTIFIER "hdr"; Single "."; IDENTIFIER "ipv4"; Single "."; IDENTIFIER "dst";
   Single ":"; TERNARY; Single ";"; VALUE_INT (-7); ANDANDAND; VALUE_INT 255; HIT; GEQ].
Lemma demo_tokens_writable : Forall writable demo_tokens.
Proof.
  unfold demo_tokens. each_rule; try exact I; try (split; lia); try reflexivity; (split; [apply (bool_decide_unpack _); vm_compute; exact I|split; [reflexivity|]]);
    apply (bool_decide_unpack _); vm_compute; exact I.
Qed.

Lemma spelled_tokens_read_witness :
  spell demo_tokens = text "table route { key = { hdr . ipv4 . dst : ternary ; -7 &&& 255 __HIT__ >= " ∧ lex (spell demo_tokens) = demo_tokens ++ [T_EOF].
Proof. split; [vm_compute; reflexivity|]. apply spelled_tokens_read. exact demo_tokens_writable. Defined.
