(* ===== verification/Reader.v ===== *)
(** * Reading tokens (the parsers that bison makes of src/rP4-compiler/rp4c/yacc.y and
    src/rp4c-old/src/parser/yacc.y)

    What the two compilers' grammars share, whatever their tokens are: languages as
    relations between tokens and values, the ways in which a grammar writes lists, readers by recursive
    descent, and what it means that a reader finds nothing but the language ([Sound]) and
    all of it ([Complete]). *)

From stdpp Require Import base numbers list strings.
From Stdlib Require Import ZArith Lia Ascii.
From S2P Require Import Prelude.

(** What a nonterminal stands for: tokens, and the value that is made of them. *)
Definition lang (T A : Type) : Type := list T → A → Prop.

(** The two ways in which a grammar writes lists; [comma] stands between the elements. *)
Inductive many {T A} (item : lang T A) : lang T (list A) :=
| many_none : many item [] []
| many_more u l v a : many item u l → item v a → many item (u ++ v) (l ++ [a]).
Inductive listed {T A} (comma : T) (item : lang T A) : lang T (list A) :=
| listed_none : listed comma item [] []
| listed_one u a : item u a → listed comma item u [a]
| listed_more u l v a : listed comma item u l → item v a → listed comma item (u ++ comma :: v) (l ++ [a]).

(** ** Reading *)
Definition reader (T A : Type) : Type := list T → option (A * list T).
#[export] Instance reader_ret {T} : MRet (reader T) := λ A a ts, Some (a, ts).
#[export] Instance reader_bind {T} : MBind (reader T) := λ A B f p ts, match p ts with Some (a, ts) => f a ts | None => None end.
Definition fail {T A} : reader T A := λ _, None.
Definition either {T A} (p q : reader T A) : reader T A := λ ts, match p ts with Some r => Some r | None => q ts end.
Definition skip {T} `{EqDecision T} (t : T) : reader T unit := λ ts, match ts with t' :: ts => if decide (t = t') then Some (tt, ts) else None | [] => None end.
Definition next {T} : reader T T := λ ts, match ts with t :: ts => Some (t, ts) | [] => None end.

(** One of these tokens. *)
Definition choice {T A} `{EqDecision T} (l : list (T * A)) : reader T A :=
  t ← next; match list_find (λ e, e.1 = t) l with Some (_, e) => mret e.2 | None => fail end.

(** Lists; every element takes a token. *)
Fixpoint read_loop {T A} (fuel : nat) (item : reader T A) : reader T (list A) := λ ts,
  match fuel with
  | O => Some ([], ts)
  | S fuel => match item ts with
              | Some (a, ts) => match read_loop fuel item ts with Some (l, ts) => Some (a :: l, ts) | None => None end
              | None => Some ([], ts)
              end
  end.
Definition read_many {T A} (item : reader T A) : reader T (list A) := λ ts, read_loop (length ts) item ts.
Definition read_listed {T A} `{EqDecision T} (comma : T) (item : reader T A) : reader T (list A) :=
  l ← either (x ← item; mret [x]) (mret []);
  m ← read_many (_ ← skip comma; item);
  mret (l ++ m).
Definition between {T A} `{EqDecision T} (opening closing : T) (p : reader T A) : reader T A := _ ← skip opening; a ← p; _ ← skip closing; mret a.

(** ** What was read *)
Lemma bind_some {T A B} (p : reader T A) (f : A → reader T B) ts r :
  (p ≫= f) ts = Some r → ∃ a ts', p ts = Some (a, ts') ∧ f a ts' = Some r.
Proof. unfold mbind, reader_bind. destruct (p ts) as [[a ts']|]; [|done]. intros H. by exists a, ts'. Qed.
Lemma bind_eq {T A B} (p : reader T A) (f : A → reader T B) ts a ts' : p ts = Some (a, ts') → (p ≫= f) ts = f a ts'.
Proof. unfold mbind, reader_bind. by intros ->. Qed.
Lemma bind_none {T A B} (p : reader T A) (f : A → reader T B) ts : p ts = None → (p ≫= f) ts = None.
Proof. unfold mbind, reader_bind. by intros ->. Qed.
Lemma bind_found {T A B} (p : reader T A) (f : A → reader T B) ts a ts' x : p ts = Some (a, ts') → f a ts' = Some x → (p ≫= f) ts = Some x.
Proof. intros Hp <-. by apply bind_eq. Qed.
Lemma ret_some {T A} (a b : A) ts ts' : mret (M := reader T) a ts = Some (b, ts') → a = b ∧ ts = ts'.
Proof. unfold mret, reader_ret. by intros [= -> ->]. Qed.
Lemma either_some {T A} (p q : reader T A) ts r : either p q ts = Some r → p ts = Some r ∨ q ts = Some r.
Proof. unfold either. destruct (p ts); auto. Qed.
Lemma either_left {T A} (p q : reader T A) ts r : p ts = Some r → either p q ts = Some r.
Proof. unfold either. by intros ->. Qed.
Lemma either_right {T A} (p q : reader T A) ts : p ts = None → either p q ts = q ts.
Proof. unfold either. by intros ->. Qed.
Lemma next_some {T} (ts : list T) t ts' : next ts = Some (t, ts') → ts = t :: ts'.
Proof. unfold next. destruct ts; [done|]. by intros [= -> ->]. Qed.

Lemma many_cons {T A} (item : lang T A) u v a l : item u a → many item v l → many item (u ++ v) (a :: l).
Proof.
  intros Hu. induction 1 as [|v l w b _ IH Hw].
  - rewrite app_nil_r. apply (many_more item [] [] u a); [constructor|done].
  - rewrite app_assoc. change (a :: l ++ [b]) with ((a :: l) ++ [b]). by constructor.
Qed.
Lemma many_pieces {T A} (item : lang T A) u l : many item u l → ∃ us, u = concat us ∧ Forall2 item us l.
Proof.
  induction 1 as [|u l v a _ (us & -> & IH) Hv]; [by exists []|]. exists (us ++ [v]).
  split; [by rewrite concat_app; cbn; rewrite app_nil_r|]. apply Forall2_app; [done|by constructor].
Qed.

(** With a first element, or nothing before the first comma. *)
Lemma listed_app {T A} (comma : T) (item : lang T A) u l v m : listed comma item u l →
  many (λ w a, ∃ w', w = comma :: w' ∧ item w' a) v m → listed comma item (u ++ v) (l ++ m).
Proof.
  intros Hu. induction 1 as [|v m w a _ IH (w' & -> & Hw)]; [by rewrite !app_nil_r|]. rewrite !app_assoc. by constructor.
Qed.

(** A reader of the language finds nothing else ([sound]), and everything whatever
    follows ([complete]). *)
Class Sound {T A} (D : lang T A) (p : reader T A) : Prop := sound : ∀ ts a r, p ts = Some (a, r) → ∃ u, ts = u ++ r ∧ D u a.
Class Complete {T A} (D : lang T A) (p : reader T A) : Prop := complete : ∀ u a r, D u a → p (u ++ r) = Some (a, r).
#[global] Hint Mode Sound - - - ! : typeclass_instances.
#[global] Hint Mode Complete - - - ! : typeclass_instances.

#[export] Instance many_sound {T A} (item : lang T A) p : Sound item p → Sound (many item) (read_many p).
Proof.
  intros Hs ts l r. unfold read_many. generalize (length ts) as n. intros n. revert ts l. induction n as [|n IH]; intros ts l H; cbn in H.
  - injection H as <- <-. exists []. split; [done|constructor].
  - destruct (p ts) as [[a ts']|] eqn:Hp; [|injection H as <- <-; exists []; split; [done|constructor]].
    destruct (read_loop n p ts') as [[l' r']|] eqn:Hl; [|done]. injection H as <- ->.
    apply Hs in Hp as (u & -> & Hu). apply IH in Hl as (v & -> & Hv). exists (u ++ v). split; [apply app_assoc|by apply many_cons].
Qed.

Section tokens.
Context {T : Type} `{HT : EqDecision T}.
Implicit Types ts : list T.

Lemma skip_some t ts x ts' : skip t ts = Some (x, ts') → ts = t :: ts'.
Proof. unfold skip. destruct ts as [|t' ts]; [done|]. destruct (decide (t = t')) as [->|]; [|done]. by intros [= _ ->]. Qed.
Lemma skip_eq t ts : skip t (t :: ts) = Some (tt, ts).
Proof. unfold skip. by rewrite decide_True. Qed.
Lemma choice_some {A} (l : list (T * A)) ts a r : choice l ts = Some (a, r) → ∃ t, ts = t :: r ∧ (t, a) ∈ l.
Proof.
  unfold choice. intros (t & ts' & ->%next_some & H)%bind_some. exists t. destruct (list_find _ l) as [[i [t' a']]|] eqn:Hl; [|done].
  apply ret_some in H as [<- <-]. split; [done|]. apply list_find_Some in Hl as (Hl & <- & _). by apply list_elem_of_lookup_2 in Hl.
Qed.
Lemma between_some {A} o c (p : reader T A) ts a ts' : between o c p ts = Some (a, ts') → ∃ ts0, ts = o :: ts0 ∧ p ts0 = Some (a, c :: ts').
Proof.
  unfold between. intros (? & ts0 & ->%skip_some & (x & t1 & Hp & (? & t2 & ->%skip_some & [-> ->]%ret_some)%bind_some)%bind_some)%bind_some. by exists ts0.
Qed.
Lemma between_eq {A} o c (p : reader T A) ts a ts' : p ts = Some (a, c :: ts') → between o c p (o :: ts) = Some (a, ts').
Proof. intros H. unfold between. by rewrite (bind_eq _ _ _ _ _ (skip_eq _ _)), (bind_eq _ _ _ _ _ H), (bind_eq _ _ _ _ _ (skip_eq _ _)). Qed.

#[export] Instance listed_sound {A} comma (item : lang T A) p : Sound item p → Sound (listed comma item) (read_listed comma p).
Proof.
  intros Hs ts l r H. unfold read_listed in H. apply bind_some in H as (l1 & ts1 & H1 & H2). apply bind_some in H2 as (l2 & ts2 & H2 & [<- <-]%ret_some).
  assert (Hc : Sound (λ w a, ∃ w', w = comma :: w' ∧ item w' a) (_ ← skip comma; p)).
  { intros ts' a r' (? & ts0 & ->%skip_some & (u & -> & Hu)%Hs)%bind_some. exists (comma :: u). split; [done|by exists u]. }
  apply (many_sound _ _ Hc) in H2 as (v & -> & Hv).
  assert (Hu : ∃ u, ts = u ++ v ++ ts2 ∧ listed comma item u l1).
  { apply either_some in H1 as [H1|H1].
    - apply bind_some in H1 as (a & ts' & (u & -> & Hu)%Hs & [<- <-]%ret_some). exists u. split; [done|by constructor].
    - apply ret_some in H1 as [<- <-]. exists []. split; [done|constructor]. }
  destruct Hu as (u & -> & Hu). exists (u ++ v). split; [by rewrite app_assoc|by apply listed_app].
Qed.

(** ** What a list is read as *)
Context {A : Type} (item : lang T A) (p : reader T A).

Lemma loop_complete r us l n : (∀ u a r, item u a → p (u ++ r) = Some (a, r)) → p [] = None → p r = None →
  Forall2 item us l → (length (concat us) ≤ n)%nat → read_loop n p (concat us ++ r) = Some (l, r).
Proof.
  intros Hp Hn Hr H. revert n. induction H as [|u a us l Hu _ IH]; intros n Hl.
  - destruct n; cbn; [done|by rewrite Hr].
  - assert (Hne : u ≠ []) by (intros ->; pose proof (Hp [] a [] Hu) as E; cbn in E; congruence).
    cbn [concat] in *. rewrite length_app in Hl. destruct n as [|n]; [destruct u; [done|cbn in Hl; lia]|]. cbn [read_loop].
    rewrite <- app_assoc, (Hp u a _ Hu), IH; [done|]. destruct u; [done|cbn in Hl; lia].
Qed.

Lemma many_complete u l r : (∀ u a r, item u a → p (u ++ r) = Some (a, r)) → many item u l → p [] = None → p r = None → read_many p (u ++ r) = Some (l, r).
Proof.
  intros Hp (us & -> & H)%many_pieces Hn Hr. unfold read_many. apply loop_complete; try done. rewrite length_app. lia.
Qed.

(** Elements of which something may not be read before what is not [ok]. *)
Lemma listed_complete (comma : T) (ok : list T → Prop) u l r :
  (∀ u a r, item u a → ok r → p (u ++ r) = Some (a, r)) → (∀ ts, ok (comma :: ts)) → ok r → (∀ ts, p (comma :: ts) = None) → p r = None →
  skip comma r = None → listed comma item u l → read_listed comma p (u ++ r) = Some (l, r).
Proof.
  intros Hp Hc Hr Hn Hnr Hs H.
  assert (Hparts : ∃ u1 l1 us l2, u = u1 ++ concat ((λ v, comma :: v) <$> us) ∧ l = l1 ++ l2 ∧ Forall2 item us l2 ∧
            ((u1 = [] ∧ l1 = []) ∨ (∃ a, l1 = [a] ∧ item u1 a))).
  { clear -H. induction H as [|u a Hu|u l v a _ (u1 & l1 & us & l2 & -> & -> & Hus & H1) Hv].
    - exists [], [], [], []. split_and!; [done|done|constructor|by left].
    - exists u, [a], [], []. split_and!; [by rewrite app_nil_r|done|constructor|right; eauto].
    - exists u1, l1, (us ++ [v]), (l2 ++ [a]). rewrite fmap_app, concat_app. cbn. rewrite app_nil_r, <- !app_assoc.
      split_and!; [done|done| |done]. apply Forall2_app; [done|by constructor]. }
  destruct Hparts as (u1 & l1 & us & l2 & -> & -> & Hus & H1). rewrite <- app_assoc.
  assert (Hmany : read_many (_ ← skip comma; p) (concat ((λ v, comma :: v) <$> us) ++ r) = Some (l2, r) ∧
    ok (concat ((λ v, comma :: v) <$> us) ++ r) ∧ p (concat ((λ v, comma :: v) <$> us) ++ r) = None).
  { split; [|destruct us; cbn; eauto]. unfold read_many. rewrite length_app.
    set (n := (_ + _)%nat). assert (Hl : (length us ≤ n)%nat).
    { subst n. clear. induction us as [|u us IH]; cbn; rewrite ?length_app in *; lia. }
    clearbody n. revert n Hl. clear H H1. induction Hus as [|v a us l2 Hv _ IH]; intros n Hl.
    - cbn. destruct n; [done|]. cbn [read_loop]. by rewrite (bind_none _ _ _ Hs).
    - destruct n as [|n]; [cbn in Hl; lia|]. cbn [fmap list_fmap concat app read_loop]. rewrite (bind_eq _ _ _ _ _ (skip_eq _ _)), <- app_assoc.
      rewrite (Hp v a _ Hv); [|destruct us; cbn; eauto]. by rewrite IH by (cbn in Hl; lia). }
  destruct Hmany as (Hmany & Hok & Hno). unfold read_listed. apply (bind_found _ _ _ l1 (concat ((λ v, comma :: v) <$> us) ++ r)).
  - destruct H1 as [[-> ->]|(a & -> & Ha)]; [rewrite either_right; [reflexivity|by apply bind_none]|].
    apply either_left. eapply bind_found; [exact (Hp u1 a _ Ha Hok)|reflexivity].
  - eapply bind_found; [done|reflexivity].
Qed.
End tokens.

(** ** Automation

    Each grammar extends it for its own readers: [take_leaf] for what a reader of a token
    has read, [unfold_readers] for readers without a language of their own, and
    [finds_before] for what may not be read before some tokens. *)
Ltac take_leaf H := fail.
Ltac unfold_readers H := idtac.
Ltac finds_before := fail.

(** Takes what was read apart. *)
Ltac take_apart :=
  repeat match goal with
  | H : mret _ _ = Some _ |- _ => apply ret_some in H as [? ?]; subst
  | H : (_ ≫= _) _ = Some _ |- _ => let H1 := fresh "Hp" in let H2 := fresh "Hp" in apply bind_some in H as (? & ? & H1 & H2)
  | H : skip _ _ = Some _ |- _ => apply skip_some in H; subst
  | H : next _ = Some _ |- _ => apply next_some in H; subst
  | H : between _ _ _ _ = Some _ |- _ => let H1 := fresh "Hp" in apply between_some in H as (? & ? & H1); subst
  | H : fail _ = Some _ |- _ => discriminate H
  | H : either _ _ _ = Some _ |- _ => apply either_some in H as [H|H]
  | H : _ = Some _ |- _ => take_leaf H
  | x : _ * _ |- _ => destruct x
  | H : ?p _ = Some (_, _) |- _ => apply (sound (p := p)) in H as (? & ? & ?); subst
  | u : () |- _ => destruct u
  | H : choice _ _ = Some _ |- _ => apply choice_some in H as (? & -> & H)
  | H : (_, _) ∈ _ :: _ |- _ => apply elem_of_cons in H as [[= -> ->]|H]
  | H : (_, _) ∈ [] |- _ => by apply not_elem_of_nil in H
  | H : _ ∧ _ |- _ => destruct H
  end.
(** And puts it together by a rule of the language. *)
Ltac by_rule := cbn [fst snd]; eexists; (split; [|econstructor; [solve [eauto]..]]); cbn; rewrite <- ?app_assoc; cbn; rewrite <- ?app_assoc; reflexivity.
Ltac soundness p := intros ?ts ?a ?r H; unfold p in H; unfold_readers H; take_apart; by_rule.

(** Reads what a rule of the language says. *)
Ltac fixed := first [intros; exact I | reflexivity | split; reflexivity | intros; reflexivity | intros; split; reflexivity].
Ltac finds :=
  lazymatch goal with
  | |- (_ ≫= _) _ = Some _ => eapply bind_found; [finds|cbn beta iota; finds]
  | |- skip _ _ = _ => apply skip_eq
  | |- between _ _ _ _ = _ => apply between_eq; finds
  | |- either _ _ _ = _ => first [apply either_left; finds | rewrite either_right by fixed; finds]
  | |- read_many _ _ = _ => eapply many_complete; [|eassumption|fixed|fixed]; [exact complete]
  | |- ?p _ = _ => first [reflexivity | finds_before | eapply complete; eassumption | progress (unfold p); finds]
  end.
Ltac completeness p := intros ?u ?a ?r H; destruct H; unfold p; cbn [app]; rewrite <- ?app_assoc; cbn [app]; rewrite <- ?app_assoc; cbn [app]; try (solve [finds]).
