(* ===== verification/Grammar.v ===== *)
(** * The rP4 compiler: the grammar (src/rP4-compiler/rp4c/yacc.y)

    The rules of the grammar as relations between tokens and syntax trees, a definition
    for each nonterminal and a constructor for each of its rules.  A reader of the same
    tokens by recursive descent shows that the grammar gives a text one tree at most and
    finds it. *)

From stdpp Require Import base numbers list strings.
From Stdlib Require Import ZArith Lia Ascii.
From S2P Require Import Prelude Reader Headers Actions Tables Stages Levels Builder TableKey Json Lexer.

#[local] Open Scope Z_scope.

Abbreviation lang := (Reader.lang Token).
Abbreviation separated_by_commas := (listed (Single ",")).

(** ** Headers *)
Inductive is_type_def : lang Rp4Type :=
| type_bits n : is_type_def [BIT; Single "<"; VALUE_INT n; Single ">"] (BitType n)
| type_named s : is_type_def [IDENTIFIER s] (NamedType s).
Inductive is_field_def : lang Rp4FieldDef :=
| field_def_rule u t s : is_type_def u t → is_field_def (u ++ [IDENTIFIER s]) (mkFieldDef t s).
Inductive is_field_line : lang Rp4FieldDef :=
| field_line_rule u f : is_field_def u f → is_field_line (u ++ [Single ";"]) f.
Abbreviation is_field_defs := (many is_field_line).
Inductive is_header_def : lang Rp4HeaderDef :=
| header_def_rule s u fs : is_field_defs u fs → is_header_def (HEADER :: IDENTIFIER s :: Single "{" :: u ++ [Single "}"]) (mkHeaderDef s fs).
Inductive is_struct_def : lang Rp4StructDef :=
| struct_rule s u fs x : is_field_defs u fs →
    is_struct_def (STRUCT :: IDENTIFIER s :: Single "{" :: u ++ [Single "}"; IDENTIFIER x; Single ";"]) (mkStructDef s fs x false)
| struct_headers u fs x : is_field_defs u fs →
    is_struct_def (STRUCT :: HEADERS :: Single "{" :: u ++ [Single "}"; IDENTIFIER x; Single ";"]) (mkStructDef "headers" fs x true).

(** ** The parser *)
Inductive is_member : lang (string * string) :=
| member_rule a b : is_member [IDENTIFIER a; Single "."; IDENTIFIER b] (a, b).
Inductive is_field : lang (string * string * string) :=
| field_rule a b c : is_field [IDENTIFIER a; Single "."; IDENTIFIER b; Single "."; IDENTIFIER c] (a, b, c)
| field_valid a b : is_field [IDENTIFIER a; Single "."; IDENTIFIER b; Single "."; IS_VALID; Single "("; Single ")"] (a, b, "isValid"%string).
Inductive is_key_def : lang Rp4Key :=
| key_exact n : is_key_def [VALUE_INT n] (ExactKey n)
| key_true : is_key_def [TRUE] (ExactKey 1)
| key_false : is_key_def [FALSE] (ExactKey 0)
| key_ternary n m : is_key_def [VALUE_INT n; ANDANDAND; VALUE_INT m] (TernaryKey n m)
| key_lpm n m : is_key_def [VALUE_INT n; DIVDIVDIV; VALUE_INT m] (LpmKey n m)
| key_default : is_key_def [DEFAULT] DefaultKey
| key_star : is_key_def [Single "*"] DefaultKey.

(** An entry that does not accept has the number 2 for it (rp4_state.h). *)
Inductive is_direct_entry : lang Rp4TransitionEntry :=
| direct_state s : is_direct_entry [IDENTIFIER s] (mkTransitionEntry DefaultKey s 2)
| direct_accept : is_direct_entry [ACCEPT] (mkTransitionEntry DefaultKey "accept" 0).
Inductive is_transition_entry : lang Rp4TransitionEntry :=
| entry_state u k s : is_key_def u k → is_transition_entry (u ++ [Single ":"; IDENTIFIER s; Single ";"]) (mkTransitionEntry k s 2)
| entry_accept u k : is_key_def u k → is_transition_entry (u ++ [Single ":"; ACCEPT; Single ";"]) (mkTransitionEntry k "accept" 0).
Inductive is_extract_stmt : lang (string * string) :=
| extract_rule u m : is_member u m → is_extract_stmt (PACKET :: Single "." :: EXTRACT :: Single "(" :: u ++ [Single ")"; Single ";"]) m.
Inductive is_transition_stmt : lang Rp4Transition :=
| transition_select u fs v es : separated_by_commas is_field u fs → many is_transition_entry v es →
    is_transition_stmt (TRANSITION :: SELECT :: Single "(" :: u ++ Single ")" :: Single "{" :: v ++ [Single "}"]) (SelectTransition fs es)
| transition_direct u e : is_direct_entry u e → is_transition_stmt (TRANSITION :: u ++ [Single ";"]) (DirectTransition e).
Inductive is_state_def : lang Rp4StateDef :=
| state_def_rule s u x v t : is_extract_stmt u x → is_transition_stmt v t →
    is_state_def (STATE :: IDENTIFIER s :: Single "{" :: u ++ v ++ [Single "}"]) (mkStateDef s x t).
Inductive is_parser_def : lang (list Rp4StateDef) :=
| parser_def_rule s u l : many is_state_def u l →
    is_parser_def (PARSER :: IDENTIFIER s :: Single "(" :: PACKET_IN :: PACKET :: Single ")" :: Single "{" :: u ++ [Single "}"]) l.

(** ** Actions *)
Inductive is_lvalue : lang Rp4LValue :=
| lvalue_member u a b : is_member u (a, b) → is_lvalue u (MetaLValue a b)
| lvalue_field u a b c : is_field u (a, b, c) → is_lvalue u (HeaderLValue a b c).
Inductive is_operand : lang Rp4Operation :=
| operand_lvalue u x : is_lvalue u x → is_operand u (Rp4LValueOp x)
| operand_int n : is_operand [VALUE_INT n] (Rp4Literal n)
| operand_parameter s : is_operand [IDENTIFIER s] (Rp4Parameter s)
| operand_true : is_operand [TRUE] (Rp4Literal 1)
| operand_false : is_operand [FALSE] (Rp4Literal 0).
Inductive is_op : Token → Rp4Operator → Prop :=
| op_plus : is_op (Single "+") OP_PLUS | op_minus : is_op (Single "-") OP_MINUS | op_mul : is_op (Single "*") OP_MUL
| op_div : is_op (Single "/") OP_DIV | op_and : is_op (Single "&") OP_AND | op_or : is_op (Single "|") OP_OR
| op_xor : is_op (Single "^") OP_XOR | op_not : is_op (Single "~") OP_NOT | op_notl : is_op (Single "!") OP_NOTL
| op_equ : is_op EQU OP_EQ | op_neq : is_op NEQ OP_NE | op_lt : is_op (Single "<") OP_LT | op_gt : is_op (Single ">") OP_GT
| op_leq : is_op LEQ OP_LE | op_geq : is_op GEQ OP_GE.
Inductive is_operation : lang Rp4Operation :=
| operation_operand u x : is_operand u x → is_operation u x
| operation_binary u x o op v y : is_operation u x → is_op o op → is_operation v y →
    is_operation (Single "(" :: u ++ o :: v ++ [Single ")"]) (Rp4Binary op x y).
Inductive is_expression : lang (Rp4LValue * Rp4Operation) :=
| expression_rule u l v x : is_lvalue u l → is_operation v x → is_expression (u ++ Single "=" :: v ++ [Single ";"]) (l, x).
Inductive is_action_def : lang Rp4ActionDef :=
| action_rule s u ps v es : separated_by_commas is_field_def u ps → many is_expression v es →
    is_action_def (ACTION :: IDENTIFIER s :: Single "(" :: u ++ Single ")" :: Single "{" :: v ++ [Single "}"]) (mkActionDef s ps es)
| action_none : is_action_def [ACTION; NOACTION; Single "("; Single ")"; Single "{"; Single "}"] (mkActionDef "NoAction" [] []).
Inductive is_actions_def : lang (list Rp4ActionDef) :=
| actions_def_rule u l : many is_action_def u l → is_actions_def (ACTIONS :: Single "{" :: u ++ [Single "}"]) l.

(** ** Tables; the entries of a table are not used behind the grammar *)
Inductive is_match_type : Token → Rp4MatchType → Prop :=
| match_exact : is_match_type EXACT MT_EXACT | match_ternary : is_match_type TERNARY MT_TERNARY | match_lpm : is_match_type LPM MT_LPM.
Inductive is_key_entry : lang (Rp4LValue * Rp4MatchType) :=
| key_entry_rule u l t m : is_lvalue u l → is_match_type t m → is_key_entry (u ++ [Single ":"; t; Single ";"]) (l, m).
Inductive is_match_entry : lang (list Rp4Key * string) :=
| match_entry_rule u ks s : separated_by_commas is_key_def u ks →
    is_match_entry (Single "(" :: u ++ [Single ")"; Single ":"; IDENTIFIER s; Single ";"]) (ks, s)
| match_entry_none u ks : separated_by_commas is_key_def u ks →
    is_match_entry (Single "(" :: u ++ [Single ")"; Single ":"; NOACTION; Single ";"]) (ks, "NoAction"%string).
Inductive is_table_optional_stmt : lang Rp4TableOptionalStmt :=
| stmt_size n : is_table_optional_stmt [SIZE; Single "="; VALUE_INT n; Single ";"] (TableSizeStmt n)
| stmt_entries u es : many is_match_entry u es →
    is_table_optional_stmt (ENTRIES :: Single "=" :: Single "{" :: u ++ [Single "}"]) TableEntriesStmt
| stmt_default s : is_table_optional_stmt [DEFAULT_ACTION; Single "="; IDENTIFIER s; Single ";"] (DefaultActionStmt s)
| stmt_no_action : is_table_optional_stmt [DEFAULT_ACTION; Single "="; NOACTION; Single ";"] (DefaultActionStmt "NoAction")
| stmt_width n : is_table_optional_stmt [VALUE_WIDTH; Single "="; VALUE_INT n; Single ";"] (TableValueWidthStmt n).
Inductive is_table_key_def : lang (list (Rp4LValue * Rp4MatchType)) :=
| table_key_rule u l : many is_key_entry u l → is_table_key_def (KEY :: Single "=" :: Single "{" :: u ++ [Single "}"]) l.
Inductive is_table_def : lang Rp4TableDef :=
| table_def_rule s u k v os : is_table_key_def u k → many is_table_optional_stmt v os →
    is_table_def (TABLE :: IDENTIFIER s :: Single "{" :: u ++ v ++ [Single "}"]) (mkTableDef s k os).
Inductive is_tables_def : lang (list Rp4TableDef) :=
| tables_def_rule u l : many is_table_def u l → is_tables_def (TABLES :: Single "{" :: u ++ [Single "}"]) l.

(** ** Stages *)
Inductive is_stage_parser_header : lang string :=
| parser_header_rule s : is_stage_parser_header [IDENTIFIER s; Single ";"] s.
Inductive is_stage_parser : lang (list string) :=
| stage_parser_rule u l : many is_stage_parser_header u l →
    is_stage_parser (PARSER :: Single "{" :: u ++ [Single "}"; Single ";"]) l.
Inductive is_switch_value : lang Rp4SwitchValue :=
| switch_table s : is_switch_value [TABLE; Single "("; IDENTIFIER s; Single ")"] (SwitchTable s)
| switch_stage s : is_switch_value [STAGE; Single "("; IDENTIFIER s; Single ")"] (SwitchStage s false)
| switch_action s : is_switch_value [ACTION; Single "("; IDENTIFIER s; Single ")"] (SwitchAction s)
| switch_no_action : is_switch_value [ACTION; Single "("; NOACTION; Single ")"] (SwitchAction "NoAction")
| switch_none : is_switch_value [NONE] (SwitchStage "None" true).
Inductive is_switch_entry : lang (Rp4Key * Rp4SwitchValue) :=
| switch_entry_rule u k v x : is_key_def u k → is_switch_value v x → is_switch_entry (u ++ Single ":" :: v ++ [Single ";"]) (k, x).
Inductive is_stage_matcher : lang (list Rp4Operation * list (Rp4Key * Rp4SwitchValue)) :=
| stage_matcher_rule u ops v es : separated_by_commas is_operation u ops → many is_switch_entry v es →
    is_stage_matcher (MATCHER :: Single "{" :: SWITCH :: Single "(" :: u ++ Single ")" :: Single "{" :: v ++
      [Single "}"; Single "}"; Single ";"]) (ops, es).
Inductive is_executor_left : Token → string → Prop :=
| left_name s : is_executor_left (IDENTIFIER s) s
| left_hit : is_executor_left HIT "__HIT__" | left_miss : is_executor_left MISS "__MISS__"
| left_no_action : is_executor_left NOACTION "NoAction".
Inductive is_stage_name : Token → string → Prop :=
| stage_name_rule s : is_stage_name (IDENTIFIER s) s
| stage_name_none : is_stage_name NONE "None".
Inductive is_executor_entry : lang (string * string) :=
| executor_entry_rule t a n s : is_executor_left t a → is_stage_name n s → is_executor_entry [t; Single ":"; n; Single ";"] (a, s).
Inductive is_stage_executor : lang (list (string * string)) :=
| stage_executor_rule u l : many is_executor_entry u l →
    is_stage_executor (EXECUTOR :: Single "{" :: u ++ [Single "}"; Single ";"]) l.
Inductive is_stage_def : lang Rp4StageDef :=
| stage_def_rule s u hs v ops es w ex : is_stage_parser u hs → is_stage_matcher v (ops, es) → is_stage_executor w ex →
    is_stage_def (STAGE :: IDENTIFIER s :: Single "{" :: u ++ v ++ w ++ [Single "}"]) (mkStageDef s hs ops es ex).
Inductive is_pipeline : lang (list Rp4StageDef) :=
| pipeline_rule s u l : many is_stage_def u l → is_pipeline (CONTROL :: IDENTIFIER s :: Single "{" :: u ++ [Single "}"]) l.

(** ** The program *)
Inductive is_program : lang Rp4Ast :=
| program_rule u hs v ss w ps x acs y ts i is_ e es :
    many is_header_def u hs → many is_struct_def v ss → is_parser_def w ps → is_actions_def x acs → is_tables_def y ts →
    is_pipeline i is_ → is_pipeline e es →
    is_program (u ++ v ++ w ++ x ++ y ++ i ++ e) (mkAst hs ss ps acs ts is_ es).

(** ** Reading *)
Abbreviation reader := (Reader.reader Token).
Definition name : reader string := λ ts, match ts with IDENTIFIER s :: ts => Some (s, ts) | _ => None end.
Definition int_value : reader Z := λ ts, match ts with VALUE_INT n :: ts => Some (n, ts) | _ => None end.

Abbreviation read_commas := (read_listed (Single ",")).
Abbreviation in_braces := (between (Single "{") (Single "}")).

Definition read_type_def : reader Rp4Type :=
  either (s ← name; mret (NamedType s)) (_ ← skip BIT; _ ← skip (Single "<"); n ← int_value; _ ← skip (Single ">"); mret (BitType n)).
Definition read_field_def : reader Rp4FieldDef := t ← read_type_def; s ← name; mret (mkFieldDef t s).
Definition read_field_line : reader Rp4FieldDef := f ← read_field_def; _ ← skip (Single ";"); mret f.
Definition read_header_def : reader Rp4HeaderDef := _ ← skip HEADER; s ← name; fs ← in_braces (read_many read_field_line); mret (mkHeaderDef s fs).
Definition read_struct_def : reader Rp4StructDef :=
  _ ← skip STRUCT;
  '(s, is_header) ← either (s ← name; mret (s, false)) (_ ← skip HEADERS; mret ("headers"%string, true));
  fs ← in_braces (read_many read_field_line); x ← name; _ ← skip (Single ";"); mret (mkStructDef s fs x is_header).

Definition read_member : reader (string * string) := a ← name; _ ← skip (Single "."); b ← name; mret (a, b).
Definition read_path : reader (string * string * string) :=
  a ← name; _ ← skip (Single "."); b ← name; _ ← skip (Single ".");
  c ← either name (_ ← skip IS_VALID; _ ← skip (Single "("); _ ← skip (Single ")"); mret "isValid"%string); mret (a, b, c).
Definition read_key_def : reader Rp4Key :=
  either (n ← int_value;
          either (_ ← skip ANDANDAND; m ← int_value; mret (TernaryKey n m))
            (either (_ ← skip DIVDIVDIV; m ← int_value; mret (LpmKey n m)) (mret (ExactKey n))))
    (choice [(TRUE, ExactKey 1); (FALSE, ExactKey 0); (DEFAULT, DefaultKey); (Single "*", DefaultKey)]).
Definition read_next_state (k : Rp4Key) : reader Rp4TransitionEntry :=
  either (s ← name; mret (mkTransitionEntry k s 2)) (_ ← skip ACCEPT; mret (mkTransitionEntry k "accept" 0)).
Definition read_transition_entry : reader Rp4TransitionEntry :=
  k ← read_key_def; _ ← skip (Single ":"); e ← read_next_state k; _ ← skip (Single ";"); mret e.
Definition read_extract_stmt : reader (string * string) :=
  _ ← skip PACKET; _ ← skip (Single "."); _ ← skip EXTRACT; _ ← skip (Single "("); m ← read_member; _ ← skip (Single ")"); _ ← skip (Single ";"); mret m.
Definition read_transition_stmt : reader Rp4Transition :=
  _ ← skip TRANSITION;
  either (_ ← skip SELECT; _ ← skip (Single "("); fs ← read_commas read_path; _ ← skip (Single ")");
          es ← in_braces (read_many read_transition_entry); mret (SelectTransition fs es))
    (e ← read_next_state DefaultKey; _ ← skip (Single ";"); mret (DirectTransition e)).
Definition read_state_def : reader Rp4StateDef :=
  _ ← skip STATE; s ← name; '(x, t) ← in_braces (x ← read_extract_stmt; t ← read_transition_stmt; mret (x, t)); mret (mkStateDef s x t).
Definition read_parser_def : reader (list Rp4StateDef) :=
  _ ← skip PARSER; _ ← name; _ ← skip (Single "("); _ ← skip PACKET_IN; _ ← skip PACKET; _ ← skip (Single ")"); in_braces (read_many read_state_def).

Definition read_lvalue : reader Rp4LValue :=
  either (f ← read_path; mret (HeaderLValue f.1.1 f.1.2 f.2)) (m ← read_member; mret (MetaLValue m.1 m.2)).
Definition read_operand : reader Rp4Operation :=
  either (x ← read_lvalue; mret (Rp4LValueOp x))
    (either (n ← int_value; mret (Rp4Literal n))
      (either (s ← name; mret (Rp4Parameter s)) (choice [(TRUE, Rp4Literal 1); (FALSE, Rp4Literal 0)]))).
Definition operators_of : list (Token * Rp4Operator) :=
  [(Single "+", OP_PLUS); (Single "-", OP_MINUS); (Single "*", OP_MUL); (Single "/", OP_DIV); (Single "&", OP_AND); (Single "|", OP_OR);
   (Single "^", OP_XOR); (Single "~", OP_NOT); (Single "!", OP_NOTL); (EQU, OP_EQ); (NEQ, OP_NE); (Single "<", OP_LT); (Single ">", OP_GT);
   (LEQ, OP_LE); (GEQ, OP_GE)].
Definition read_op : reader Rp4Operator := choice operators_of.
Fixpoint read_operation_loop (fuel : nat) : reader Rp4Operation :=
  match fuel with
  | O => fail
  | S fuel => either read_operand
      (_ ← skip (Single "("); x ← read_operation_loop fuel; o ← read_op; y ← read_operation_loop fuel; _ ← skip (Single ")"); mret (Rp4Binary o x y))
  end.
(** Every parenthesis takes a token. *)
Definition read_operation : reader Rp4Operation := λ ts, read_operation_loop (length ts) ts.
Definition read_assignment : reader (Rp4LValue * Rp4Operation) :=
  l ← read_lvalue; _ ← skip (Single "="); x ← read_operation; _ ← skip (Single ";"); mret (l, x).
Definition read_action_def : reader Rp4ActionDef :=
  _ ← skip ACTION;
  either (s ← name; _ ← skip (Single "("); ps ← read_commas read_field_def; _ ← skip (Single ")");
          es ← in_braces (read_many read_assignment); mret (mkActionDef s ps es))
    (_ ← skip NOACTION; _ ← skip (Single "("); _ ← skip (Single ")"); _ ← skip (Single "{"); _ ← skip (Single "}"); mret (mkActionDef "NoAction" [] [])).
Definition read_actions_def : reader (list Rp4ActionDef) := _ ← skip ACTIONS; in_braces (read_many read_action_def).

Definition read_match_type : reader Rp4MatchType := choice [(EXACT, MT_EXACT); (TERNARY, MT_TERNARY); (LPM, MT_LPM)].
Definition read_key_entry : reader (Rp4LValue * Rp4MatchType) :=
  l ← read_lvalue; _ ← skip (Single ":"); m ← read_match_type; _ ← skip (Single ";"); mret (l, m).
Definition name_or (t : Token) (n : string) : reader string := either name (_ ← skip t; mret n).
Definition read_match_entry : reader (list Rp4Key * string) :=
  _ ← skip (Single "("); ks ← read_commas read_key_def; _ ← skip (Single ")"); _ ← skip (Single ":");
  s ← name_or NOACTION "NoAction"; _ ← skip (Single ";"); mret (ks, s).
Definition read_table_optional_stmt : reader Rp4TableOptionalStmt :=
  either (_ ← skip SIZE; _ ← skip (Single "="); n ← int_value; _ ← skip (Single ";"); mret (TableSizeStmt n))
    (either (_ ← skip ENTRIES; _ ← skip (Single "="); _ ← in_braces (read_many read_match_entry); mret TableEntriesStmt)
      (either (_ ← skip DEFAULT_ACTION; _ ← skip (Single "="); s ← name_or NOACTION "NoAction"; _ ← skip (Single ";"); mret (DefaultActionStmt s))
        (_ ← skip VALUE_WIDTH; _ ← skip (Single "="); n ← int_value; _ ← skip (Single ";"); mret (TableValueWidthStmt n)))).
Definition read_table_key_def : reader (list (Rp4LValue * Rp4MatchType)) := _ ← skip KEY; _ ← skip (Single "="); in_braces (read_many read_key_entry).
Definition read_table_def : reader Rp4TableDef :=
  _ ← skip TABLE; s ← name; '(k, os) ← in_braces (k ← read_table_key_def; os ← read_many read_table_optional_stmt; mret (k, os)); mret (mkTableDef s k os).
Definition read_tables_def : reader (list Rp4TableDef) := _ ← skip TABLES; in_braces (read_many read_table_def).

Definition read_stage_parser_header : reader string := s ← name; _ ← skip (Single ";"); mret s.
Definition read_stage_parser : reader (list string) :=
  _ ← skip PARSER; hs ← in_braces (read_many read_stage_parser_header); _ ← skip (Single ";"); mret hs.
Definition in_parentheses (p : reader string) : reader string := _ ← skip (Single "("); s ← p; _ ← skip (Single ")"); mret s.
Definition read_switch_value : reader Rp4SwitchValue :=
  either (_ ← skip TABLE; s ← in_parentheses name; mret (SwitchTable s))
    (either (_ ← skip STAGE; s ← in_parentheses name; mret (SwitchStage s false))
      (either (_ ← skip ACTION; s ← in_parentheses (name_or NOACTION "NoAction"); mret (SwitchAction s))
        (_ ← skip NONE; mret (SwitchStage "None" true)))).
Definition read_switch_entry : reader (Rp4Key * Rp4SwitchValue) :=
  k ← read_key_def; _ ← skip (Single ":"); v ← read_switch_value; _ ← skip (Single ";"); mret (k, v).
Definition read_stage_matcher : reader (list Rp4Operation * list (Rp4Key * Rp4SwitchValue)) :=
  _ ← skip MATCHER;
  m ← in_braces (_ ← skip SWITCH; _ ← skip (Single "("); ops ← read_commas read_operation; _ ← skip (Single ")");
                 es ← in_braces (read_many read_switch_entry); mret (ops, es));
  _ ← skip (Single ";"); mret m.
Definition read_executor_left : reader string :=
  either name (choice [(HIT, "__HIT__"%string); (MISS, "__MISS__"%string); (NOACTION, "NoAction"%string)]).
Definition read_executor_entry : reader (string * string) :=
  a ← read_executor_left; _ ← skip (Single ":"); s ← name_or NONE "None"; _ ← skip (Single ";"); mret (a, s).
Definition read_stage_executor : reader (list (string * string)) :=
  _ ← skip EXECUTOR; l ← in_braces (read_many read_executor_entry); _ ← skip (Single ";"); mret l.
Definition read_stage_def : reader Rp4StageDef :=
  _ ← skip STAGE; s ← name;
  '(hs, m, ex) ← in_braces (hs ← read_stage_parser; m ← read_stage_matcher; ex ← read_stage_executor; mret (hs, m, ex));
  mret (mkStageDef s hs m.1 m.2 ex).
Definition read_pipeline : reader (list Rp4StageDef) := _ ← skip CONTROL; _ ← name; in_braces (read_many read_stage_def).

Definition read_program : reader Rp4Ast :=
  hs ← read_many read_header_def; ss ← read_many read_struct_def; ps ← read_parser_def; acs ← read_actions_def; ts ← read_tables_def;
  i ← read_pipeline; e ← read_pipeline; mret (mkAst hs ss ps acs ts i e).

(** The tree of a source file.  The parser accepts when the second pipeline has ended,
    whatever follows. *)
Definition parse_source (s : chars) : option Rp4Ast := fst <$> read_program (lex s).

(** ** What is read is what the grammar says *)
Lemma name_some ts s ts' : name ts = Some (s, ts') → ts = IDENTIFIER s :: ts'.
Proof. unfold name. destruct ts as [|[] ts]; try done. by intros [= -> ->]. Qed.
Lemma int_value_some ts n ts' : int_value ts = Some (n, ts') → ts = VALUE_INT n :: ts'.
Proof. unfold int_value. destruct ts as [|[] ts]; try done. by intros [= -> ->]. Qed.
#[local] Ltac take_leaf H ::=
  lazymatch type of H with
  | name _ = Some _ => apply name_some in H; subst
  | int_value _ = Some _ => apply int_value_some in H; subst
  end.
#[local] Ltac unfold_readers H ::= unfold name_or, in_parentheses, read_op, operators_of in H.

#[export] Instance type_def_sound : Sound is_type_def read_type_def.
Proof. soundness read_type_def. Qed.
#[export] Instance field_def_sound : Sound is_field_def read_field_def.
Proof. soundness read_field_def. Qed.
#[export] Instance field_line_sound : Sound is_field_line read_field_line.
Proof. soundness read_field_line. Qed.
#[export] Instance header_def_sound : Sound is_header_def read_header_def.
Proof. soundness read_header_def. Qed.
#[export] Instance struct_def_sound : Sound is_struct_def read_struct_def.
Proof. soundness read_struct_def. Qed.

#[export] Instance member_sound : Sound is_member read_member.
Proof. soundness read_member. Qed.
#[export] Instance field_sound : Sound is_field read_path.
Proof. soundness read_path. Qed.
#[export] Instance key_def_sound : Sound is_key_def read_key_def.
Proof. soundness read_key_def. Qed.
Lemma next_state_some k ts e r : read_next_state k ts = Some (e, r) →
  ∃ t, ts = t :: r ∧ ((∃ s, t = IDENTIFIER s ∧ e = mkTransitionEntry k s 2) ∨ (t = ACCEPT ∧ e = mkTransitionEntry k "accept" 0)).
Proof. unfold read_next_state. intros H. take_apart; eexists; (split; [reflexivity|]); eauto. Qed.
#[export] Instance transition_entry_sound : Sound is_transition_entry read_transition_entry.
Proof.
  intros ts a r H. unfold read_transition_entry in H. take_apart. match goal with H : read_next_state _ _ = _ |- _ => apply next_state_some in H end.
  match goal with H : ∃ _, _ |- _ => destruct H as (t & -> & [(s & -> & ->)|[-> ->]]) end; take_apart; by_rule.
Qed.
#[export] Instance extract_stmt_sound : Sound is_extract_stmt read_extract_stmt.
Proof. soundness read_extract_stmt. Qed.
#[export] Instance direct_entry_sound : Sound is_direct_entry (read_next_state DefaultKey).
Proof. intros ts e r H. apply next_state_some in H as (t & -> & [(s & -> & ->)|[-> ->]]); by_rule. Qed.
#[export] Instance transition_stmt_sound : Sound is_transition_stmt read_transition_stmt.
Proof. soundness read_transition_stmt. Qed.
#[export] Instance state_def_sound : Sound is_state_def read_state_def.
Proof. soundness read_state_def. Qed.
#[export] Instance parser_def_sound : Sound is_parser_def read_parser_def.
Proof. soundness read_parser_def. Qed.
#[export] Instance lvalue_sound : Sound is_lvalue read_lvalue.
Proof. soundness read_lvalue. Qed.
#[export] Instance operand_sound : Sound is_operand read_operand.
Proof. soundness read_operand. Qed.
Lemma op_some ts o r : read_op ts = Some (o, r) → ∃ t, ts = t :: r ∧ is_op t o.
Proof. unfold read_op, operators_of. intros H. take_apart; eexists; (split; [reflexivity|constructor]). Qed.
#[export] Instance operation_sound : Sound is_operation read_operation.
Proof.
  intros ts x r. unfold read_operation. generalize (length ts) as n. intros n. revert ts x r.
  induction n as [|n IH]; intros ts x r H; [done|]. cbn [read_operation_loop] in H.
  pose proof (IH : Sound is_operation (read_operation_loop n)) as Hs. apply either_some in H as [H|H]; [take_apart; by_rule|].
  apply bind_some in H as ([] & ? & ->%skip_some & H). apply bind_some in H as (y & ? & (u & -> & Hu)%Hs & H).
  apply bind_some in H as (o & ? & (t & -> & Ht)%op_some & H). apply bind_some in H as (z & ? & (v & -> & Hv)%Hs & H). take_apart.
  eexists. split; [|by apply (operation_binary u y t o v z)]. cbn. rewrite <- !app_assoc. cbn. by rewrite <- app_assoc.
Qed.
#[export] Instance expression_sound : Sound is_expression read_assignment.
Proof. soundness read_assignment. Qed.
#[export] Instance action_def_sound : Sound is_action_def read_action_def.
Proof. soundness read_action_def. Qed.
#[export] Instance actions_def_sound : Sound is_actions_def read_actions_def.
Proof. soundness read_actions_def. Qed.
Lemma match_type_some ts m r : read_match_type ts = Some (m, r) → ∃ t, ts = t :: r ∧ is_match_type t m.
Proof. unfold read_match_type. intros H. take_apart; eexists; (split; [reflexivity|constructor]). Qed.
#[export] Instance key_entry_sound : Sound is_key_entry read_key_entry.
Proof.
  intros ts a r H. unfold read_key_entry in H. take_apart.
  match goal with H : read_match_type _ = _ |- _ => apply match_type_some in H as (t & -> & Ht) end. take_apart. by_rule.
Qed.
#[export] Instance match_entry_sound : Sound is_match_entry read_match_entry.
Proof. soundness read_match_entry. Qed.
#[export] Instance table_optional_stmt_sound : Sound is_table_optional_stmt read_table_optional_stmt.
Proof. soundness read_table_optional_stmt. Qed.
#[export] Instance table_key_def_sound : Sound is_table_key_def read_table_key_def.
Proof. soundness read_table_key_def. Qed.
#[export] Instance table_def_sound : Sound is_table_def read_table_def.
Proof. soundness read_table_def. Qed.
#[export] Instance tables_def_sound : Sound is_tables_def read_tables_def.
Proof. soundness read_tables_def. Qed.
#[export] Instance stage_parser_header_sound : Sound is_stage_parser_header read_stage_parser_header.
Proof. soundness read_stage_parser_header. Qed.
#[export] Instance stage_parser_sound : Sound is_stage_parser read_stage_parser.
Proof. soundness read_stage_parser. Qed.
#[export] Instance switch_value_sound : Sound is_switch_value read_switch_value.
Proof. soundness read_switch_value. Qed.
#[export] Instance switch_entry_sound : Sound is_switch_entry read_switch_entry.
Proof. soundness read_switch_entry. Qed.
#[export] Instance stage_matcher_sound : Sound is_stage_matcher read_stage_matcher.
Proof. soundness read_stage_matcher. Qed.
Lemma executor_left_some ts s r : read_executor_left ts = Some (s, r) → ∃ t, ts = t :: r ∧ is_executor_left t s.
Proof. unfold read_executor_left. intros H. take_apart; eexists; (split; [reflexivity|constructor]). Qed.
Lemma stage_name_some ts s r : name_or NONE "None" ts = Some (s, r) → ∃ t, ts = t :: r ∧ is_stage_name t s.
Proof. unfold name_or. intros H. take_apart; eexists; (split; [reflexivity|constructor]). Qed.
#[export] Instance executor_entry_sound : Sound is_executor_entry read_executor_entry.
Proof.
  intros ts a r H. unfold read_executor_entry in H.
  apply bind_some in H as (x & ? & (t & -> & Ht)%executor_left_some & H). apply bind_some in H as ([] & ? & ->%skip_some & H).
  apply bind_some in H as (n & ? & (t' & -> & Hn)%stage_name_some & H). take_apart. by_rule.
Qed.
#[export] Instance stage_executor_sound : Sound is_stage_executor read_stage_executor.
Proof. soundness read_stage_executor. Qed.
#[export] Instance stage_def_sound : Sound is_stage_def read_stage_def.
Proof. soundness read_stage_def. Qed.
#[export] Instance pipeline_sound : Sound is_pipeline read_pipeline.
Proof. soundness read_pipeline. Qed.
#[export] Instance program_sound : Sound is_program read_program.
Proof. soundness read_program. Qed.

(** ** What the grammar says is read *)
Definition no_dot (ts : list Token) : Prop := skip (Single ".") ts = None.
Definition no_mask (ts : list Token) : Prop := skip ANDANDAND ts = None ∧ skip DIVDIVDIV ts = None.

#[export] Instance type_def_complete : Complete is_type_def read_type_def.
Proof. completeness read_type_def. Qed.
#[export] Instance field_def_complete : Complete is_field_def read_field_def.
Proof. completeness read_field_def. Qed.
#[export] Instance field_line_complete : Complete is_field_line read_field_line.
Proof. completeness read_field_line. Qed.
#[export] Instance header_def_complete : Complete is_header_def read_header_def.
Proof. completeness read_header_def. Qed.
#[export] Instance struct_def_complete : Complete is_struct_def read_struct_def.
Proof. completeness read_struct_def. Qed.
#[export] Instance member_complete : Complete is_member read_member.
Proof. completeness read_member. Qed.
#[export] Instance field_complete : Complete is_field read_path.
Proof. completeness read_path. Qed.

(** Keys and operands end where no operator follows. *)
Lemma key_def_complete u k r : is_key_def u k → no_mask r → read_key_def (u ++ r) = Some (k, r).
Proof.
  intros H [Ha Hd]. destruct H; try reflexivity. unfold read_key_def. cbn [app]. apply either_left. eapply bind_found; [reflexivity|].
  cbn beta. rewrite either_right by (by apply bind_none). rewrite either_right by (by apply bind_none). reflexivity.
Qed.
Lemma lvalue_complete u x r : is_lvalue u x → no_dot r → read_lvalue (u ++ r) = Some (x, r).
Proof.
  intros H Hr. destruct H as [u a b H|u a b c H].
  - inversion H; subst. unfold read_lvalue. rewrite either_right; [reflexivity|]. apply bind_none. unfold read_path. cbn [app].
    repeat (erewrite bind_eq by reflexivity). by apply bind_none.
  - unfold read_lvalue. apply either_left. eapply bind_found; [by eapply complete|reflexivity].
Qed.
Lemma operand_complete u x r : is_operand u x → no_dot r → read_operand (u ++ r) = Some (x, r).
Proof.
  intros H Hr. unfold read_operand. destruct H as [u x H| |s| |]; try reflexivity.
  - apply either_left. eapply bind_found; [by apply lvalue_complete|reflexivity].
  - rewrite either_right; [reflexivity|]. apply bind_none. unfold read_lvalue, read_path, read_member. cbn [app].
    rewrite either_right; apply bind_none; erewrite bind_eq by reflexivity; by apply bind_none.
Qed.
Lemma op_complete t o r : is_op t o → read_op (t :: r) = Some (o, r).
Proof. by destruct 1. Qed.

Lemma operand_no_parenthesis ts : read_operand (Single "(" :: ts) = None.
Proof. reflexivity. Qed.
Lemma op_not_dot t o ts : is_op t o → no_dot (t :: ts).
Proof. by destruct 1. Qed.

Lemma operation_some u x : is_operation u x → u ≠ [].
Proof.
  intros H ->. inversion H as [? ? Ho|]; subst. inversion Ho as [? ? Hl| | | |]; subst. inversion Hl as [? ? ? Hm|? ? ? ? Hm]; subst; inversion Hm.
Qed.
Lemma operation_loop_complete u x : is_operation u x → ∀ r n, no_dot r → (length u ≤ n)%nat → read_operation_loop n (u ++ r) = Some (x, r).
Proof.
  intros H. pose proof (operation_some u x H) as Hne. revert Hne. induction H as [u x H|u x o op v y Hu IHu Ho Hv IHv]; intros Hne r n Hr Hn.
  - destruct n as [|n]; [by destruct u; cbn in Hn; [|lia]|]. cbn [read_operation_loop]. apply either_left. by apply operand_complete.
  - cbn [app length] in *. rewrite length_app in Hn. cbn [length] in Hn. rewrite length_app in Hn. cbn [length] in Hn.
    destruct n as [|n]; [lia|]. cbn [read_operation_loop]. rewrite <- !app_assoc. cbn [app]. rewrite <- app_assoc. cbn [app].
    rewrite either_right by apply operand_no_parenthesis.
    eapply bind_found; [apply skip_eq|]. eapply bind_found; [apply IHu; [by eapply operation_some|by eapply op_not_dot|lia]|]. eapply bind_found; [by apply op_complete|].
    eapply bind_found; [apply IHv; [by eapply operation_some|reflexivity|lia]|]. eapply bind_found; [apply skip_eq|reflexivity].
Qed.
Lemma operation_complete u x r : is_operation u x → no_dot r → read_operation (u ++ r) = Some (x, r).
Proof. intros H Hr. unfold read_operation. apply operation_loop_complete; [done|done|]. rewrite length_app. lia. Qed.

Lemma match_type_complete t m r : is_match_type t m → read_match_type (t :: r) = Some (m, r).
Proof. by destruct 1. Qed.
Lemma executor_left_complete t s r : is_executor_left t s → read_executor_left (t :: r) = Some (s, r).
Proof. by destruct 1. Qed.
Lemma stage_name_complete t s r : is_stage_name t s → name_or NONE "None" (t :: r) = Some (s, r).
Proof. by destruct 1. Qed.

Ltac finds_commas :=
  first [ eapply (listed_complete is_operation read_operation (Single ",") no_dot) | eapply (listed_complete is_key_def read_key_def (Single ",") no_mask)
        | eapply (listed_complete is_field read_path (Single ",") (λ _, True)) | eapply (listed_complete is_field_def read_field_def (Single ",") (λ _, True)) ];
  [ first [exact operation_complete | exact key_def_complete | intros; by apply complete] | fixed | fixed | fixed | fixed | fixed | eassumption ].
#[local] Ltac finds_before ::=
  first [ eapply key_def_complete; [eassumption|fixed] | eapply lvalue_complete; [eassumption|fixed] | eapply operation_complete; [eassumption|fixed]
        | eapply match_type_complete; eassumption | eapply executor_left_complete; eassumption | eapply stage_name_complete; eassumption
        | finds_commas ].

#[export] Instance transition_entry_complete : Complete is_transition_entry read_transition_entry.
Proof. completeness read_transition_entry. Qed.
#[export] Instance extract_stmt_complete : Complete is_extract_stmt read_extract_stmt.
Proof. completeness read_extract_stmt. Qed.
#[export] Instance direct_entry_complete : Complete is_direct_entry (read_next_state DefaultKey).
Proof. completeness read_next_state. Qed.
#[export] Instance transition_stmt_complete : Complete is_transition_stmt read_transition_stmt.
Proof. completeness read_transition_stmt. match goal with H : is_direct_entry _ _ |- _ => destruct H end; reflexivity. Qed.
#[export] Instance state_def_complete : Complete is_state_def read_state_def.
Proof. completeness read_state_def. Qed.
#[export] Instance parser_def_complete : Complete is_parser_def read_parser_def.
Proof. completeness read_parser_def. Qed.
#[export] Instance expression_complete : Complete is_expression read_assignment.
Proof. completeness read_assignment. Qed.
#[export] Instance action_def_complete : Complete is_action_def read_action_def.
Proof. completeness read_action_def. Qed.
#[export] Instance actions_def_complete : Complete is_actions_def read_actions_def.
Proof. completeness read_actions_def. Qed.
#[export] Instance key_entry_complete : Complete is_key_entry read_key_entry.
Proof. completeness read_key_entry. Qed.
#[export] Instance match_entry_complete : Complete is_match_entry read_match_entry.
Proof. completeness read_match_entry. Qed.
#[export] Instance table_optional_stmt_complete : Complete is_table_optional_stmt read_table_optional_stmt.
Proof. completeness read_table_optional_stmt. Qed.
#[export] Instance table_key_def_complete : Complete is_table_key_def read_table_key_def.
Proof. completeness read_table_key_def. Qed.
#[export] Instance table_def_complete : Complete is_table_def read_table_def.
Proof. completeness read_table_def. Qed.
#[export] Instance tables_def_complete : Complete is_tables_def read_tables_def.
Proof. completeness read_tables_def. Qed.
#[export] Instance stage_parser_header_complete : Complete is_stage_parser_header read_stage_parser_header.
Proof. completeness read_stage_parser_header. Qed.
#[export] Instance stage_parser_complete : Complete is_stage_parser read_stage_parser.
Proof. completeness read_stage_parser. Qed.
#[export] Instance switch_value_complete : Complete is_switch_value read_switch_value.
Proof. completeness read_switch_value. Qed.
#[export] Instance switch_entry_complete : Complete is_switch_entry read_switch_entry.
Proof. completeness read_switch_entry. Qed.
#[export] Instance stage_matcher_complete : Complete is_stage_matcher read_stage_matcher.
Proof. completeness read_stage_matcher. Qed.
#[export] Instance executor_entry_complete : Complete is_executor_entry read_executor_entry.
Proof. completeness read_executor_entry. Qed.
#[export] Instance stage_executor_complete : Complete is_stage_executor read_stage_executor.
Proof. completeness read_stage_executor. Qed.
#[export] Instance stage_def_complete : Complete is_stage_def read_stage_def.
Proof. completeness read_stage_def. Qed.
#[export] Instance pipeline_complete : Complete is_pipeline read_pipeline.
Proof. completeness read_pipeline. Qed.
Lemma structs_start v l : many is_struct_def v l → v = [] ∨ ∃ v', v = STRUCT :: v'.
Proof. induction 1 as [|u l v a _ [->|[u' ->]] Hv]; [by left| |by right; eexists]. right. destruct Hv; cbn; by eexists. Qed.

#[export] Instance program_complete : Complete is_program read_program.
Proof.
  intros u a r H. destruct H as [u hs v ss w ps x acs y ts i is_ e es Hu Hv Hw Hx Hy Hi He]. unfold read_program. rewrite <- !app_assoc.
  eapply bind_found.
  { eapply many_complete; [exact complete|exact Hu|done|]. destruct (structs_start v ss Hv) as [->|[v' ->]]; [|done]. by destruct Hw. }
  eapply bind_found; [eapply many_complete; [exact complete|exact Hv|done|by destruct Hw]|]. finds.
Qed.

(** C19. The grammar decides: tokens can be split into a program of the grammar and a
    rest in one way at most, and the reader finds the program; so every text has one
    syntax tree at most. *)
Theorem program_read ts ast r : read_program ts = Some (ast, r) ↔ ∃ u, ts = u ++ r ∧ is_program u ast.
Proof. split; [apply sound|]. intros (u & -> & H). by apply complete. Qed.

(** The text that spells a program is read as it, whatever follows. *)
Lemma spelled_program_read u v ast : is_program u ast → Forall writable (u ++ v) → parse_source (spell (u ++ v)) = Some ast.
Proof.
  intros H Hw. unfold parse_source. pose proof (spell_lexed (u ++ v) [] Hw) as E. rewrite app_nil_r in E. rewrite E.
  by rewrite <- app_assoc, (complete u ast _ H).
Qed.
