(* ===== verification/Source.v ===== *)
(** * From a P4 program to the syntax tree of the compiler

    The translator (P4Print.v) writes a text, which the lexer and the grammar of the
    compiler (Lexer.v, Grammar.v) read.  [source_tree] is the tree a P4 program stands
    for, or nothing where the program has something the language of the compiler has no
    words for; the theorem at the end says that the text of the program is read as it. *)

From stdpp Require Import base numbers list gmap strings pretty sorting.
From Stdlib Require Import ZArith Lia Ascii.
From S2P Require Import Prelude Headers Actions Tables Stages Levels Builder TableKey Json P4Names P4Condition P4Program P4Print Lexer Reader Grammar.

#[local] Open Scope Z_scope.
#[local] Open Scope string_scope.
#[local] Open Scope list_scope.

(** ** Words *)
Definition all_of (f : ascii → bool) (w : chars) : bool := negb (bool_decide (w = [])) && forallb f w.
Definition word_of (s : string) : option Token :=
  let w := text s in
  if all_of is_name_char w then
    match list_find (λ kt, kt.1 = s) keywords with
    | Some (_, kt) => Some kt.2
    | None =>
        if all_of is_alpha (take 1 w) then Some (IDENTIFIER s)
        else if all_of is_digit w then Some (VALUE_INT (atoi w))
        else if bool_decide (take 2 w = text "0x") && all_of is_hex_digit (drop 2 w) then Some (VALUE_INT (strtol 16 (drop 2 w)))
        else if bool_decide (take 2 w = text "0b") && all_of is_bin_digit (drop 2 w) then Some (VALUE_INT (strtol 2 (drop 2 w)))
        else None
    end
  else None.

Lemma all_of_spec f w : all_of f w = true → w ≠ [] ∧ Forall (λ c, f c = true) w.
Proof. unfold all_of. rewrite andb_true_iff, negb_true_iff, bool_decide_eq_false, forallb_forall. intros [? H]. split; [done|]. apply Forall_forall. intros c Hc. by apply H, list_elem_of_In. Qed.

Lemma word_lexed s t : word_of s = Some t → token_text (text s) t.
Proof.
  unfold word_of. destruct (all_of is_name_char (text s)) eqn:Hw; [|done]. apply all_of_spec in Hw as [Hne Hw].
  destruct (list_find _ keywords) as [[i [k t']]|] eqn:Hf.
  { intros [= <-]. apply list_find_Some in Hf as (Hi & He & _). cbn in He. subst k. apply keyword_lexed. by eapply list_elem_of_lookup_2. }
  assert (Hk : s ∉ keywords.*1).
  { intros (kt & -> & Hkt)%list_elem_of_fmap. apply list_find_None in Hf. rewrite Forall_forall in Hf. by apply (Hf kt Hkt). }
  destruct (all_of is_alpha (take 1 (text s))) eqn:Ha.
  { intros [= <-]. apply name_lexed. split_and!; [done| |done]. apply all_of_spec in Ha as [_ Ha].
    destruct (text s) as [|c w]; [done|]. cbn [take] in Ha. by inversion Ha. }
  destruct (all_of is_digit (text s)) eqn:Hd.
  { intros [= <-]. apply all_of_spec in Hd as [_ Hd]. destruct (text s) as [|c w]; [done|]. by apply decimal_lexed. }
  assert (Hpre : ∀ p f, bool_decide (take 2 (text s) = p) && all_of f (drop 2 (text s)) = true →
    text s = p ++ drop 2 (text s) ∧ drop 2 (text s) ≠ [] ∧ Forall (λ c, f c = true) (drop 2 (text s))).
  { intros p f [<-%bool_decide_eq_true H%all_of_spec]%andb_prop. by rewrite take_drop. }
  destruct (bool_decide (take 2 (text s) = text "0x") && _) eqn:Hx.
  { intros [= <-]. apply Hpre in Hx as (Hs & Hx1 & Hx2). rewrite Hs at 1. by apply hex_lexed. }
  destruct (bool_decide (take 2 (text s) = text "0b") && _) eqn:Hb; [|done].
  intros [= <-]. apply Hpre in Hb as (Hs & Hx1 & Hx2). rewrite Hs at 1. by apply bin_lexed.
Qed.

(** ** Texts: a text whose tokens do not depend on what follows, and one that may end in a
    word *)
Definition lexes (s : string) (ts : list Token) : Prop := ∀ r, lex (text s ++ r) = ts ++ lex r.
Definition lexes_word (s : string) (ts : list Token) : Prop := ∀ r, ends_word r → lex (text s ++ r) = ts ++ lex r.
(** Does not go on with a word. *)
Definition no_word (s : string) : Prop := ∀ r, ends_word r → ends_word (text s ++ r).

Lemma text_app a b : text (a +:+ b) = text a ++ text b.
Proof. unfold text. induction a as [|c a IH]; [done|]. rewrite append_cons. cbn. by rewrite IH. Qed.

Lemma lexes_is_word s ts : lexes s ts → lexes_word s ts.
Proof. intros H r _. apply H. Qed.
Lemma lexes_app a b t u : lexes a t → lexes b u → lexes (a +:+ b) (t ++ u).
Proof. intros Ha Hb r. by rewrite text_app, <- (assoc_L (++)), Ha, Hb, (assoc_L (++)). Qed.
Lemma lexes_app_word a b t u : lexes a t → lexes_word b u → lexes_word (a +:+ b) (t ++ u).
Proof. intros Ha Hb r Hr. by rewrite text_app, <- (assoc_L (++)), Ha, Hb, (assoc_L (++)). Qed.
Lemma word_app a b t u : lexes_word a t → no_word b → lexes_word b u → lexes_word (a +:+ b) (t ++ u).
Proof. intros Ha Hn Hb r Hr. rewrite text_app, <- (assoc_L (++)), Ha by (by apply Hn). by rewrite Hb, (assoc_L (++)). Qed.
(** After what can not be part of a word. *)
Lemma word_app_lexes a c b t u : is_name_char c = false → lexes_word a t → lexes (String c b) u → lexes (a +:+ String c b) (t ++ u).
Proof. intros Hc Ha Hb r. rewrite text_app, <- (assoc_L (++)), Ha by done. by rewrite Hb, (assoc_L (++)). Qed.
Lemma lexes_nil : lexes EmptyString [].
Proof. intros r. reflexivity. Qed.

Lemma word_lexes s t : word_of s = Some t → lexes_word s [t].
Proof. intros H r Hr. exact (word_lexed s t H r Hr). Qed.

(** *** Fixed texts *)
Lemma less_lexed c s : c ≠ "="%char → lex ("<"%char :: c :: s) = Single "<" :: lex (c :: s).
Proof.
  intros Hc. rewrite (lex_chosen _ 1 single_rule.2); [done|].
  assert (Hr : rules = (layout_rules ++ (word <$> keywords) ++ [word (">=", GEQ)]) ++ word ("<=", LEQ) :: (word <$> drop 2 operators) ++ single_rule :: value_rules) by reflexivity.
  rewrite Hr, choose_app. set (b := choose _ _ None). assert (Hb : b = None) by reflexivity. rewrite Hb. cbn [choose word fst snd].
  assert (Hl : literal "<=" ("<"%char :: c :: s) = None) by (unfold literal; cbn; by rewrite (bool_decide_false ("="%char = c)) by congruence).
  rewrite Hl. reflexivity.
Qed.

Fixpoint first_word (s : chars) : chars * chars :=
  match s with
  | c :: s' => if is_name_char c then let '(w, r) := first_word s' in (c :: w, r) else ([], s)
  | [] => ([], [])
  end.
(** The tokens of a fixed text. *)
Fixpoint scan (fuel : nat) (s : chars) : option (list Token) :=
  match fuel with
  | O => None
  | S fuel =>
      match s with
      | [] => Some []
      | c :: s' =>
          if blank c || bool_decide (c = "010"%char) then scan fuel s'
          else if bool_decide (c ∈ text ";(),*.:#[]{}|^~") then cons (Single c) <$> scan fuel s'
          else if single_op c && bool_decide (take 1 s' = [" "%char]) then cons (Single c) <$> scan fuel s'
          else if bool_decide (c = "<"%char) && match s' with d :: _ => negb (bool_decide (d = "="%char)) | [] => false end then cons (Single c) <$> scan fuel s'
          else match list_find (λ kt, prefix (text kt.1) s = true) (take 5 operators) with
               | Some (_, (n, t)) => cons t <$> scan fuel (drop (String.length n) s)
               | None => let '(w, r) := first_word s in t ← word_of (string_of_chars w); cons t <$> scan fuel r
               end
      end
  end.

Lemma first_word_spec s : s = (first_word s).1 ++ (first_word s).2 ∧ ends_word (first_word s).2.
Proof.
  induction s as [|c s IH]; [done|]. cbn [first_word]. destruct (is_name_char c) eqn:Hc; [|by cbn]. destruct (first_word s) as [w r]. cbn in *.
  destruct IH as [-> ?]. done.
Qed.

(** Ends in no word. *)
Definition closed (s : chars) : Prop := match last s with Some c => is_name_char c = false | None => True end.

Lemma closed_suffix a b : closed (a ++ b) → closed b.
Proof. unfold closed. rewrite last_app. by destruct (last b). Qed.

Lemma prefix_true p s : prefix p s = true → ∃ x, s = p ++ x.
Proof.
  revert s. induction p as [|c p IH]; intros s H; [by exists s|]. destruct s as [|d s]; [done|]. cbn in H.
  apply andb_prop in H as [->%bool_decide_eq_true H]. destruct (IH s H) as [x ->]. by exists x.
Qed.

Lemma scan_lexed fuel s ts r : scan fuel s = Some ts → closed s ∨ ends_word r → lex (s ++ r) = ts ++ lex r.
Proof.
  revert s ts. induction fuel as [|fuel IH]; intros s ts H Hr; [done|].
  assert (IHs : ∀ a b ts, s = a ++ b → scan fuel b = Some ts → lex (b ++ r) = ts ++ lex r).
  { intros a b u -> Hb. apply IH; [done|]. destruct Hr as [Hr|Hr]; [left; by eapply closed_suffix|by right]. }
  destruct s as [|c s]; [by injection H as <-|].
  cbn [scan] in H. destruct (blank c || _) eqn:H1.
  { apply (IHs [c] s) in H; [|done]. apply orb_prop in H1 as [H1| ->%bool_decide_eq_true]; cbn [app]; [by rewrite blank_skipped|by rewrite newline_skipped]. }
  case_bool_decide as H2.
  { destruct (scan fuel s) as [u|] eqn:Hu; [|done]. injection H as <-. cbn [app]. rewrite single_lexed by done. by rewrite (IHs [c] s u). }
  destruct (single_op c && _) eqn:H3.
  { apply andb_prop in H3 as [Hc Hb%bool_decide_eq_true]. destruct (scan fuel s) as [u|] eqn:Hu; [|done]. injection H as <-.
    destruct s as [|d s]; [done|]. injection Hb as ->. cbn [app]. rewrite single_blank by done.
    rewrite <- (IHs [c] (" "%char :: s) u); done. }
  destruct (bool_decide _ && _) eqn:H5.
  { apply andb_prop in H5 as [->%bool_decide_eq_true Hd]. destruct (scan fuel s) as [u|] eqn:Hu; [|done]. injection H as <-.
    destruct s as [|d s]; [done|]. apply negb_true_iff, bool_decide_eq_false in Hd. cbn [app]. rewrite less_lexed by done.
    by rewrite <- (IHs ["<"%char] (d :: s) u). }
  destruct (list_find _ (take 5 operators)) as [[i [n t]]|] eqn:H4.
  { apply list_find_Some in H4 as (Hi & Hp & _). cbn [fst] in Hp. apply prefix_true in Hp as [x Hx].
    assert (Hd : drop (String.length n) (c :: s) = x) by (by rewrite Hx, length_text, drop_app_length).
    rewrite Hd in H. destruct (scan fuel x) as [u|] eqn:Hu; [|done]. injection H as <-. rewrite Hx, <- (assoc_L (++)).
    rewrite (operator_lexed n t) by (by eapply list_elem_of_lookup_2). by rewrite (IHs (text n) x u). }
  destruct (first_word_spec (c :: s)) as [Hs Hw]. destruct (first_word (c :: s)) as [w x]. cbn [fst snd] in *.
  destruct (word_of (string_of_chars w)) as [t|] eqn:Ht; [|done]. cbn in H. destruct (scan fuel x) as [u|] eqn:Hu; [|done]. injection H as <-.
  rewrite Hs, <- (assoc_L (++)). pose proof (word_lexed _ _ Ht) as Hl. rewrite text_of_chars in Hl. rewrite Hl; [by rewrite (IHs w x u)|].
  destruct x as [|d x]; [|exact Hw]. destruct Hr as [Hr|Hr]; [|done]. exfalso. rewrite app_nil_r in Hs. rewrite Hs in Hr.
  unfold word_of in Ht. rewrite text_of_chars in Ht. destruct (all_of is_name_char w) eqn:Ha; [|done]. apply all_of_spec in Ha as [Hne Ha].
  unfold closed in Hr. destruct (last w) as [d|] eqn:Hd; [|by apply last_None in Hd].
  rewrite Forall_forall in Ha. apply last_Some in Hd as [l ->]. specialize (Ha d ltac:(apply elem_of_app; right; by left)). congruence.
Qed.

Definition scans (s : string) : option (list Token) := scan (S (String.length s)) (text s).
Lemma scans_word s ts : scans s = Some ts → lexes_word s ts.
Proof. intros H r Hr. eapply scan_lexed; [done|by right]. Qed.
Lemma scans_closed s ts : scans s = Some ts → closed (text s) → lexes s ts.
Proof. intros H Hc r. eapply scan_lexed; [done|by left]. Qed.

(** ** The tree of a program *)
Definition checked (s : string) : option string := match word_of s with Some (IDENTIFIER _) => Some s | _ => None end.
Definition checked_int (n : Z) : option Z := if decide (int n) then Some n else None.
Definition literal_of (s : string) : option Z := match word_of s with Some (VALUE_INT n) => Some n | _ => None end.
Definition action_word (s : string) : option string := match word_of s with Some (IDENTIFIER _ | NOACTION) => Some s | _ => None end.
Definition next_word (s : string) : option string := if decide (s = "None") then Some s else checked s.
Definition res_option {A} (r : res A) : option A := match r with Ok a => Some a | Fault _ => None end.

Definition field_tree (f : P4HeaderField) : option Rp4FieldDef :=
  n ← checked (undotted f.(hf_name)); w ← checked_int f.(hf_width); Some (mkFieldDef (BitType w) n).
Definition header_tree (h : P4HeaderType) : option Rp4HeaderDef :=
  n ← checked h.(ht_name); fs ← mapM field_tree h.(ht_fields); Some (mkHeaderDef n fs).
Definition printed_field (f : P4HeaderField) : Prop := f.(hf_name) ≠ EmptyString ∧ starts_with_underscore f.(hf_name) = false.
Definition struct_tree (v : P4Headers) (h : P4Header) : option Rp4StructDef :=
  n ← checked (translated_typename h);
  fs ← match find_by ht_name h.(header_type_name) v.(header_types) with
       | Some ht => mapM field_tree (filter (λ f, f.(hf_name) ≠ EmptyString ∧ starts_with_underscore f.(hf_name) = false) ht.(ht_fields))
       | None => Some []
       end;
  x ← checked (translated_prefix h);
  Some (mkStructDef n fs x false).
Definition instance_tree (h : P4Header) : option Rp4FieldDef :=
  t ← checked h.(header_type_name); n ← checked h.(h_name); Some (mkFieldDef (NamedType t) n).

Definition standard_metadata_tree : Rp4StructDef :=
  let field n s := mkFieldDef (BitType n) s in
  mkStructDef "standard_metadata_t"
    [field 9 "ingress_port"; field 9 "egress_spec"; field 9 "egress_port"; field 32 "clone_spec"; field 32 "instance_type";
     field 1 "drop"; field 16 "recirculate_port"; field 32 "packet_length"] "standard_metadata" false.
Definition structs_tree (v : P4Headers) : option (list Rp4StructDef) :=
  ss ← mapM (struct_tree v) (filter (λ h, h.(h_metadata) && negb (bool_decide (h.(header_type_name) = "standard_metadata")) = true) v.(p4_headers));
  fs ← mapM instance_tree (filter (λ h, h.(h_metadata) = false) v.(p4_headers));
  Some (ss ++ [mkStructDef "headers" fs "hdr" true; standard_metadata_tree]).

(** A field is a header and one name. *)
Definition lvalue_tree (v : P4Headers) (f : list string) : option Rp4LValue :=
  match f with
  | [s; x] =>
      h ← find_by h_name s v.(p4_headers);
      if h.(h_metadata) then
        a ← checked (translated_prefix h); b ← checked (undotted x); Some (MetaLValue a b)
      else
        a ← checked h.(h_name);
        b ← (if decide (x = "$valid$") then Some "isValid" else checked (undotted x));
        Some (HeaderLValue "hdr" a b)
  | _ => None
  end.

Definition printed_operators : list (string * Rp4Operator) :=
  [("+", OP_PLUS); ("-", OP_MINUS); ("*", OP_MUL); ("&", OP_AND); ("|", OP_OR); ("^", OP_XOR); ("==", OP_EQ); ("!=", OP_NE);
   ("<", OP_LT); (">", OP_GT); ("<=", OP_LE); (">=", OP_GE)].
Definition operator_tree (op : string) : option Rp4Operator := match list_find (λ e, e.1 = op) printed_operators with Some (_, e) => Some e.2 | None => None end.

(** Expressions have two operands, none of them a parameter of the action. *)
Fixpoint operation_tree (v : P4Headers) (data : option (list P4RuntimeData)) (p : P4Parameter) : option Rp4Operation :=
  match p with
  | ParField f => Rp4LValueOp <$> lvalue_tree v f
  | ParRuntimeData i => data ← data; d ← res_option (rd data i); Rp4Parameter <$> checked d.(rd_name)
  | ParHexstr s => Rp4Literal <$> literal_of s
  | ParBool b => Some (Rp4Literal (if b then 1 else 0))
  | ParExpression op l r =>
      if decide (op = "b2d") then match r with Some r => operation_tree v None r | None => None end
      else match l, r with
           | Some l, Some r => l ← operation_tree v None l; o ← operator_tree op; r ← operation_tree v None r; Some (Rp4Binary o l r)
           | _, _ => None
           end
  | ParHeader _ | ParOther _ => None
  end.

Definition next_state_tree (k : Rp4Key) (t : Transition) : option Rp4TransitionEntry :=
  if decide (t.(tr_next_state) = EmptyString) then Some (mkTransitionEntry k "accept" 0)
  else n ← checked t.(tr_next_state); Some (mkTransitionEntry k n 2).
Definition transition_key_tree (t : Transition) : option Rp4Key :=
  match word_of t.(tr_value) with
  | Some (VALUE_INT n) => if decide (t.(tr_mask) = EmptyString) then Some (ExactKey n) else m ← literal_of t.(tr_mask); Some (TernaryKey n m)
  | Some DEFAULT => if decide (t.(tr_mask) = EmptyString) then Some DefaultKey else None
  | _ => None
  end.
Definition transition_tree (t : Transition) : option Rp4TransitionEntry := k ← transition_key_tree t; next_state_tree k t.
Definition key_tree (k : list string) : option (string * string * string) :=
  match k with [a; b] => a ← checked a; b ← checked b; Some ("hdr", a, b) | _ => None end.
(** A state takes one header out of the packet. *)
Definition state_tree (s : P4ParseState) : option Rp4StateDef :=
  n ← checked s.(ps_name);
  o ← match s.(parser_ops) with [o] => checked o | _ => None end;
  t ← match s.(transition_key) with
      | [] => match s.(ps_transitions) with [t] => DirectTransition <$> next_state_tree DefaultKey t | _ => None end
      | ks => ks ← mapM key_tree ks; es ← mapM transition_tree s.(ps_transitions); Some (SelectTransition ks es)
      end;
  Some (mkStateDef n ("hdr", o) t).
Definition parser_tree (p : P4Parser) : option (list Rp4StateDef) :=
  _ ← checked (if bool_decide (p.(pa_name) = "parser") then "MyParser" else p.(pa_name)); mapM state_tree p.(parse_states).

Definition primitive_tree (v : P4Headers) (data : list P4RuntimeData) (p : P4Primitive) : option (Rp4LValue * Rp4Operation) :=
  if decide (p.(p_op) = "assign") then
    match p.(p_parameters) with
    | ParField f :: r :: _ => l ← lvalue_tree v f; x ← operation_tree v (Some data) r; Some (l, x)
    | _ => None
    end
  else if decide (p.(p_op) = "mark_to_drop") then Some (MetaLValue "standard_metadata" "drop", Rp4Literal 1) else None.
Definition runtime_data_tree (d : P4RuntimeData) : option Rp4FieldDef :=
  w ← checked_int d.(bitwidth); n ← checked d.(rd_name); Some (mkFieldDef (BitType w) n).
Definition action_tree (v : P4Headers) (acts : list P4Action) (a : P4Action) : option Rp4ActionDef :=
  let n := translate_action acts a.(act_name) a.(act_id) in
  if decide (n = "NoAction") then
    match a.(runtime_data), a.(act_primitives) with [], [] => Some (mkActionDef n [] []) | _, _ => None end
  else
    n ← checked n; ps ← mapM runtime_data_tree a.(runtime_data); es ← mapM (primitive_tree v a.(runtime_data)) a.(act_primitives);
    Some (mkActionDef n ps es).

Section pipelines.
Context (v : P4Headers) (acts : list P4Action) (vp : list P4Pipeline).

Definition match_type_tree (s : string) : option Rp4MatchType :=
  if decide (s = "exact") then Some MT_EXACT else if decide (s = "ternary") then Some MT_TERNARY else if decide (s = "lpm") then Some MT_LPM else None.
Definition table_key_tree (k : P4Key) : option (Rp4LValue * Rp4MatchType) :=
  l ← lvalue_tree v k.(key_target); m ← match_type_tree k.(key_match_type); Some (l, m).
(** The prefix of an entry is a comment to the lexer. *)
Definition match_key_tree (k : P4MatchKey) : option Rp4Key :=
  n ← literal_of k.(mk_key);
  if decide (k.(mk_match_type) = "lpm") then None
  else if decide (k.(mk_match_type) = "ternary") then m ← literal_of k.(mk_mask); Some (TernaryKey n m)
  else Some (ExactKey n).
Definition entry_tree (e : P4Entry) : option (list Rp4Key * string) :=
  ks ← mapM match_key_tree e.(en_match_key); a ← action_word (out_default_action acts e.(en_entry)); Some (ks, a).
Definition table_tree (t : P4Table) : option Rp4TableDef :=
  n ← checked (translate_table_name vp t.(t_name));
  ks ← mapM table_key_tree t.(t_key);
  size ← checked_int t.(max_size);
  width ← checked_int (value_width_of acts t);
  d ← action_word (out_default_action acts t.(t_default_entry));
  _ ← mapM entry_tree t.(t_entries);
  Some (mkTableDef n ks ([TableSizeStmt size; TableValueWidthStmt width; DefaultActionStmt d] ++
    match t.(t_entries) with [] => [] | _ => [TableEntriesStmt] end)).

Definition switch_tree (n : string) : option Rp4SwitchValue :=
  if decide (n = EmptyString) then Some (SwitchStage "None" true)
  else if is_stage vp n then n ← checked (translate_stage_name vp n); Some (SwitchStage n false)
  else n ← checked (translate_table_name vp n); Some (SwitchTable n).
Definition executor_line_tree (e : string * string) : option (string * string) := a ← action_word e.1; n ← next_word e.2; Some (a, n).
Definition pattern_key (s : bits) : option Rp4Key := ExactKey <$> literal_of ("0b" +:+ cond_text s).

Definition stage_tree (name : string) (hs : gset string) (ops : list Rp4Operation) (sw : list (Rp4Key * Rp4SwitchValue))
    (ex : list (string * string)) : option Rp4StageDef :=
  n ← checked name; hs ← mapM checked (merge_sort String.le (elements hs)); ex ← mapM executor_line_tree ex; Some (mkStageDef n hs ops sw ex).

(** The parts of a conditional: headers, conditions, patterns and the entries of the
    executor. *)
Definition conditional_parts (p : P4Pipeline) (c : P4Conditional) : res (gset string * list P4Parameter * list bits * list (string * string)) :=
  hs ← for_each (λ n hs, match find_by t_name n p.(pipe_tables) with Some t => key_headers v t hs | None => mret hs end)
         [c.(true_next); c.(false_next)] ∅;
  '(ops, b) ← parse c.(c_expression);
  hs ← for_each (add_to_hdr_names_set v) ops hs;
  exec ← collect (λ t, if (bool_decide (t.(t_name) = c.(true_next)) || bool_decide (t.(t_name) = c.(false_next))) && negb (is_stage vp t.(t_name))
                       then executor_entries acts vp t else mret []) p.(pipe_tables);
  mret (hs, ops, b, concat exec).
Definition conditional_tree (p : P4Pipeline) (c : P4Conditional) : option Rp4StageDef :=
  '(hs, ops, b, ex) ← res_option (conditional_parts p c);
  ops ← mapM (operation_tree v None) ops;
  keys ← mapM pattern_key b;
  yes ← switch_tree c.(true_next);
  no ← switch_tree c.(false_next);
  stage_tree (translate_stage_name vp c.(c_name)) hs ops (((λ k, (k, yes)) <$> keys) ++ [(DefaultKey, no)]) ex.
Definition table_stage_tree (t : P4Table) : option Rp4StageDef :=
  hs ← res_option (key_headers v t ∅);
  ex ← res_option (executor_entries acts vp t);
  n ← checked (translate_table_name vp t.(t_name));
  stage_tree (translate_stage_name vp t.(t_name)) hs [Rp4Literal 1] [(ExactKey 1, SwitchTable n)] ex.

Definition pipeline_tree (p : P4Pipeline) : option (list Rp4StageDef) :=
  _ ← checked (pipeline_name p);
  cs ← mapM (conditional_tree p) (conditional_stages p);
  ts ← mapM table_stage_tree (table_stages vp p);
  Some (if is_true_stage p.(init_table) p then cs ++ ts else ts ++ cs).
End pipelines.

(** One parser, and an ingress and an egress. *)
Definition source_tree (p : P4Json) : option Rp4Ast :=
  let v := p.(headers) in let acts := p.(actions) in let vp := p.(pipelines) in
  hs ← mapM header_tree (filter (λ h, is_header_type v h.(ht_name) = true) v.(header_types));
  ss ← structs_tree v;
  ps ← match p.(parsers) with [pa] => parser_tree pa | _ => None end;
  acs ← mapM (action_tree v acts) acts;
  ts ← mapM (table_tree v acts vp) (p ← vp; p.(pipe_tables));
  match vp with
  | [i; e] => i ← pipeline_tree v acts vp i; e ← pipeline_tree v acts vp e; Some (mkAst hs ss ps acs ts i e)
  | _ => None
  end.

(** ** How the pieces of a text are read *)
Definition spells {A} (D : lang A) (s : string) (a : A) : Prop := ∃ ts, D ts a ∧ lexes s ts.
Definition spells_word {A} (D : lang A) (s : string) (a : A) : Prop := ∃ ts, D ts a ∧ lexes_word s ts.

Lemma word_then a b t u : lexes_word a t → (∀ r, ends_word (text b ++ r)) → lexes b u → lexes (a +:+ b) (t ++ u).
Proof. intros Ha Hn Hb r. rewrite text_app, <- (assoc_L (++)), Ha by apply Hn. by rewrite Hb, (assoc_L (++)). Qed.
Lemma lexes_eq s t u : lexes s t → t = u → lexes s u.
Proof. by intros H <-. Qed.
Lemma lexes_word_eq s t u : lexes_word s t → t = u → lexes_word s u.
Proof. by intros H <-. Qed.

Lemma lexes_tabs n : lexes (tabs n) [].
Proof. induction n as [|n IH]; [apply lexes_nil|]. change [] with ([] ++ [] : list Token). apply lexes_app; [|done]. by apply scans_closed. Qed.
Lemma lexes_line n s t : lexes_word s t → lexes (line n s) t.
Proof.
  intros H. eapply lexes_eq; [eapply lexes_app; [apply lexes_tabs|eapply word_then; [exact H|by intros|by apply scans_closed]]|].
  by rewrite app_nil_r.
Qed.
Lemma lexes_cat ss ts : Forall2 lexes ss ts → lexes (cat ss) (concat ts).
Proof. induction 1 as [|s t ss ts Hs _ IH]; [apply lexes_nil|by apply lexes_app]. Qed.

(** Lists of texts. *)
Lemma tree_texts {A B} (R : string → B → Prop) (txt : A → res string) (tree : A → option B) l bs :
  (∀ x b, x ∈ l → tree x = Some b → ∃ s, txt x = Ok s ∧ R s b) → mapM tree l = Some bs →
  ∃ ss, collect txt l = Ok ss ∧ Forall2 R ss bs.
Proof.
  intros Ht. rewrite mapM_Some. intros H. assert (∃ ss, Forall2 (λ x s, txt x = Ok s) l ss ∧ Forall2 R ss bs) as (ss & Hss & ?).
  { revert Ht. induction H as [|x b l bs Hx _ IH]; intros Ht; [by exists []|].
    destruct (Ht x b ltac:(by left) Hx) as (s & Hs & Hr). destruct IH as (ss & ? & ?); [by intros; apply Ht; [right|]|]. exists (s :: ss). by split; constructor. }
  exists ss. split; [by apply collect_ok|done].
Qed.
Lemma tree_strings {A B} (R : string → B → Prop) (txt : A → string) (tree : A → option B) l bs :
  (∀ x b, x ∈ l → tree x = Some b → R (txt x) b) → mapM tree l = Some bs → Forall2 R (txt <$> l) bs.
Proof.
  intros Ht. rewrite mapM_Some. intros H. revert Ht. induction H as [|x b l bs Hx _ IH]; intros Ht; [constructor|].
  constructor; [apply Ht; [by left|done]|apply IH; by intros; apply Ht; [right|]].
Qed.

Lemma reads_cat {B} (D : lang B) ss bs : Forall2 (spells D) ss bs → spells (many D) (cat ss) bs.
Proof.
  induction 1 as [|s b ss bs (u & Hu & Hs) _ (v & Hv & Hl)]; [exists []; split; [constructor|apply lexes_nil]|].
  exists (u ++ v). split; [by apply many_cons|by apply lexes_app].
Qed.

Lemma lexes_separated ss ts s t : lexes_word s t → Forall2 lexes_word ss ts →
  lexes_word (separated ", " (s :: ss)) (t ++ concat ((λ v, Single "," :: v) <$> ts)).
Proof.
  intros Hs H. revert s t Hs. induction H as [|s' t' ss ts Hs' _ IH]; intros s t Hs; [by rewrite app_nil_r|].
  change (separated ", " (s :: s' :: ss)) with (s +:+ ", " +:+ separated ", " (s' :: ss)). cbn [fmap list_fmap concat].
  apply word_app; [done|by intros r|]. change ((Single "," :: t') ++ ?x) with ([Single ","] ++ (t' ++ x)). apply lexes_app_word; [by apply scans_closed|by apply IH].
Qed.
Lemma commas_join {A} (D : lang A) u a vs l : D u a → Forall2 D vs l → separated_by_commas D (u ++ concat ((λ v, Single "," :: v) <$> vs)) (a :: l).
Proof.
  intros Hu H. apply (listed_app _ D u [a]); [by constructor|].
  induction H as [|v b vs l Hv _ IH]; [constructor|]. cbn [fmap list_fmap concat]. apply many_cons; [by exists v|done].
Qed.
Lemma reads_commas {B} (D : lang B) ss bs : Forall2 (spells_word D) ss bs → spells_word (separated_by_commas D) (separated ", " ss) bs.
Proof.
  intros [|s b ss' bs' (u & Hu & Hs) H]; [exists []; split; [constructor|apply lexes_is_word, lexes_nil]|].
  assert (∃ ts, Forall2 lexes_word ss' ts ∧ Forall2 D ts bs') as (ts & Hl & Hd).
  { induction H as [|s' b' ss' bs' (v & Hv & Hs') _ (ts & ? & ?)]; [by exists []|]. exists (v :: ts). by split; constructor. }
  exists (u ++ concat ((λ v, Single "," :: v) <$> ts)). split; [by apply commas_join|by apply lexes_separated].
Qed.

(** *** Words, numbers and types *)
Lemma checked_word s n : checked s = Some n → n = s ∧ word_of s = Some (IDENTIFIER s).
Proof.
  unfold checked. destruct (word_of s) as [[]|] eqn:H; try done. intros [= <-]. split; [done|]. f_equal. f_equal.
  unfold word_of in H. destruct (all_of _ _); [|done]. destruct (list_find _ keywords) as [[i kt]|] eqn:Hf.
  - apply list_find_Some in Hf as (Hi & _ & _). injection H as H. exfalso. apply list_elem_of_lookup_2 in Hi.
    assert (Hk : Forall (λ kt, match kt.2 with IDENTIFIER _ => false | _ => true end = true) keywords) by (apply (bool_decide_unpack _); vm_compute; exact I).
    rewrite Forall_forall in Hk. specialize (Hk kt Hi). by rewrite H in Hk.
  - destruct (all_of is_alpha _); [by injection H|]. destruct (all_of is_digit _); [done|]. by repeat destruct (bool_decide _ && _).
Qed.
Lemma literal_word s n : literal_of s = Some n → word_of s = Some (VALUE_INT n).
Proof. unfold literal_of. destruct (word_of s) as [[]|]; try done. by intros [= ->]. Qed.

Lemma pretty_integer (n : Z) : text (pretty n) = integer n.
Proof.
  unfold integer, decimal, text. destruct n as [|p|p]; [by vm_compute| |].
  - change (Z.pos p <? 0)%Z with false. cbn [Z.to_N]. reflexivity.
  - change (Z.neg p <? 0)%Z with true. cbn [Z.opp Z.to_N]. reflexivity.
Qed.
Lemma int_lexes n : int n → lexes_word (pretty n) [VALUE_INT n].
Proof. intros Hn r Hr. rewrite pretty_integer. by apply integer_lexed. Qed.

Lemma greater_lexed c s : blank c = true → lex (">"%char :: c :: s) = Single ">" :: lex s.
Proof.
  intros Hc. rewrite <- (blank_skipped c s Hc). unfold blank in Hc. rewrite orb_true_iff, !bool_decide_eq_true in Hc.
  destruct Hc as [-> | ->]; by rewrite (lex_chosen _ 1 single_rule.2).
Qed.
Lemma integer_start n : match integer n with c :: _ => c ≠ "="%char | [] => False end.
Proof.
  unfold integer. destruct (n <? 0)%Z; [done|]. destruct (decimal_digits (Z.to_N n)) as (Hd & _ & Hne). destruct (decimal _) as [|c w]; [done|].
  apply Forall_cons in Hd as [Hd _]. by intros ->.
Qed.

Lemma bit_lexes w c x t : int w → blank c = true → lexes_word x t →
  lexes_word ("bit<" +:+ pretty w +:+ ">" +:+ String c x) ([BIT; Single "<"; VALUE_INT w; Single ">"] ++ t).
Proof.
  intros Hw Hc Hx r Hr. rewrite !text_app, pretty_integer. change (text (String c x)) with (c :: text x).
  change (text "bit<") with (text "bit" ++ ["<"%char]). change (text ">") with [">"%char]. rewrite <- !(assoc_L (++)). cbn [app].
  rewrite (keyword_lexed "bit" BIT); [|by left|done]. pose proof (integer_start w) as Hi. destruct (integer w) as [|d l] eqn:E; [done|]. cbn [app].
  rewrite less_lexed by done. change (d :: l ++ ?y) with ((d :: l) ++ y). rewrite <- E, (integer_lexed w) by done.
  rewrite greater_lexed by done. by rewrite Hx.
Qed.

(** Reads a text that is put together of fixed texts and of texts that are known. *)
Ltac fixed_text s := lazymatch s with String _ _ => idtac | EmptyString => idtac | tab => idtac | endl => idtac end.
Ltac known :=
  match goal with
  | H : ?P ?s _ |- ?P ?s' _ => constr_eq s s'; exact H
  | H : word_of ?s = _ |- lexes_word ?s' _ => constr_eq s s'; exact (word_lexes _ _ H)
  | H : lexes ?s _ |- lexes_word ?s' _ => constr_eq s s'; exact (lexes_is_word _ _ H)
  end.
Ltac lexing :=
  lazymatch goal with
  | |- lexes (line _ _) _ => apply lexes_line; lexing
  | |- lexes (tabs _) _ => apply lexes_tabs
  | |- lexes (_ +:+ _) _ =>
      first [ known | eapply lexes_app; [solve [lexing]|lexing] | eapply word_then; [solve [lexing]|by intros|lexing] ]
  | |- lexes_word (_ +:+ _) _ =>
      first [ known | eapply lexes_app_word; [solve [lexing]|lexing] | eapply word_app; [solve [lexing]|by intros|lexing] ]
  | |- lexes ?s _ => first [known | fixed_text s; eapply scans_closed; [vm_compute; reflexivity|vm_compute; first [exact I|reflexivity]]]
  | |- lexes_word ?s _ => first [known | fixed_text s; eapply scans_word; vm_compute; reflexivity]
  end.
Ltac reading := eapply lexes_eq; [lexing|cbn [app]; rewrite <- ?(assoc_L (++)); cbn [app]; rewrite <- ?(assoc_L (++)), ?app_nil_r; reflexivity].
Ltac reading_word := eapply lexes_word_eq; [lexing|cbn [app]; rewrite <- ?(assoc_L (++)); cbn [app]; rewrite <- ?(assoc_L (++)); reflexivity].

(** ** Headers *)
Lemma field_read f d : field_tree f = Some d → spells is_field_line (field_line f) d.
Proof.
  unfold field_tree, checked_int. intros H. apply bind_Some in H as (n & [-> Hn]%checked_word & H).
  destruct (decide (int _)) as [Hw|]; [|done]. injection H as <-. eexists. split; [apply field_line_rule, field_def_rule, type_bits|].
  unfold field_line. apply lexes_line. apply (lexes_app_word tab _ [] _ (scans_closed tab [] eq_refl eq_refl)).
  apply (bit_lexes _ "009" (undotted (hf_name f) +:+ ";") [IDENTIFIER _; Single ";"]); [done|done|]. apply lexes_is_word. reading.
Qed.
Lemma header_read v h d : is_header_type v h.(ht_name) = true → header_tree h = Some d → spells is_header_def (header_text v h) d.
Proof.
  unfold header_tree, header_text. intros -> H. apply bind_Some in H as (n & [-> Hn]%checked_word & H). apply bind_Some in H as (fs & Hfs & [= <-]).
  apply (tree_strings (spells is_field_line) field_line) in Hfs as (u & Hu & Hl)%reads_cat; [|by intros; apply field_read].
  eexists. split; [by apply header_def_rule|]. reading.
Qed.
Lemma fields_read (fs : list P4HeaderField) ds : mapM field_tree fs = Some ds → spells is_field_defs (cat (field_line <$> fs)) ds.
Proof. intros H. eapply reads_cat, tree_strings; [|exact H]. by intros; apply field_read. Qed.

Lemma struct_read v h d : h.(h_metadata) && negb (bool_decide (h.(header_type_name) = "standard_metadata")) = true →
  struct_tree v h = Some d → spells is_struct_def (struct_text v h) d.
Proof.
  unfold struct_tree, struct_text. intros -> H. apply bind_Some in H as (n & [-> Hn]%checked_word & H). apply bind_Some in H as (fs & Hfs & H).
  apply bind_Some in H as (x & [-> Hx]%checked_word & [= <-]).
  assert (∃ u, is_field_defs u fs ∧ lexes match find_by ht_name h.(header_type_name) v.(header_types) with
    | Some ht => cat (field_line <$> filter (λ f, f.(hf_name) ≠ EmptyString ∧ starts_with_underscore f.(hf_name) = false) ht.(ht_fields))
    | None => EmptyString end u) as (u & Hu & Hl).
  { destruct (find_by _ _ _); [by apply fields_read in Hfs|]. injection Hfs as <-. exists []. split; [constructor|apply lexes_nil]. }
  eexists. split; [by apply struct_rule|]. reading.
Qed.
Lemma instance_read h d : instance_tree h = Some d → spells is_field_line (line 0 (tab +:+ h.(header_type_name) +:+ tab +:+ h.(h_name) +:+ ";")) d.
Proof.
  unfold instance_tree. intros H. apply bind_Some in H as (n & [-> Hn]%checked_word & H). apply bind_Some in H as (x & [-> Hx]%checked_word & [= <-]).
  eexists. split; [apply field_line_rule, field_def_rule, type_named|]. reading.
Qed.

(** Elements without a text. *)
Lemma cat_filter {A} (txt : A → string) (P : A → Prop) `{!∀ x, Decision (P x)} l :
  (∀ x, ¬ P x → txt x = EmptyString) → cat (txt <$> l) = cat (txt <$> filter P l).
Proof.
  intros Htxt. induction l as [|x l IH]; [done|]. rewrite filter_cons. destruct (decide (P x)) as [|Hx].
  - change (txt x +:+ cat (txt <$> l) = txt x +:+ cat (txt <$> filter P l)). by rewrite IH.
  - change (txt x +:+ cat (txt <$> l) = cat (txt <$> filter P l)). by rewrite (Htxt x Hx), IH.
Qed.

Lemma standard_metadata_read : spells is_struct_def standard_metadata_text standard_metadata_tree.
Proof.
  destruct (scans standard_metadata_text) as [ts|] eqn:Hs; [|vm_compute in Hs; discriminate Hs].
  assert (Hr : read_struct_def ts = Some (standard_metadata_tree, [])) by (vm_compute in Hs; injection Hs as <-; vm_compute; reflexivity).
  apply (sound (p := read_struct_def)) in Hr as (u & Hu & Hd). rewrite app_nil_r in Hu. subst u. exists ts. split; [done|].
  apply scans_closed; [done|]. vm_compute. reflexivity.
Qed.

Lemma headers_read v hs ss :
  mapM header_tree (filter (λ h, is_header_type v h.(ht_name) = true) v.(header_types)) = Some hs → structs_tree v = Some ss →
  ∃ us sa, many is_header_def us hs ∧ lexes (cat (header_text v <$> v.(header_types))) us ∧ ss = sa ++ [standard_metadata_tree] ∧
    spells (many is_struct_def) (cat (struct_text v <$> v.(p4_headers)) +:+ line 0 "struct headers {" +:+
      cat ((λ h, line 0 (tab +:+ h.(header_type_name) +:+ tab +:+ h.(h_name) +:+ ";")) <$> filter (λ h, h.(h_metadata) = false) v.(p4_headers)) +:+
      line 0 "} hdr;") sa.
Proof.
  intros Hh Hs. unfold structs_tree in Hs. apply bind_Some in Hs as (sa & Hsa & Hs). apply bind_Some in Hs as (is_ & His & [= <-]).
  apply (tree_strings (spells is_header_def) (header_text v)) in Hh as (us & Hus & Hl)%reads_cat.
  2: { intros h b [? _]%list_elem_of_filter Hb. by apply header_read. }
  apply (tree_strings (spells is_struct_def) (struct_text v)) in Hsa as (u & Hu & Hul)%reads_cat.
  2: { intros h b [? _]%list_elem_of_filter Hb. by apply struct_read. }
  apply (tree_strings (spells is_field_line) (λ h, line 0 (tab +:+ h.(header_type_name) +:+ tab +:+ h.(h_name) +:+ ";"))) in His as (w & Hw & Hwl)%reads_cat.
  2: { intros h b _ Hb. by apply instance_read. }
  exists us, (sa ++ [mkStructDef "headers" is_ "hdr" true]). split; [done|]. split.
  { rewrite (cat_filter _ (λ h, is_header_type v h.(ht_name) = true)); [done|]. intros h Hn. unfold header_text. by destruct (is_header_type _ _). }
  split; [by rewrite <- (assoc_L (++))|]. eexists. split; [apply many_more; [exact Hu|by apply struct_headers]|].
  rewrite (cat_filter (struct_text v) (λ h, h.(h_metadata) && negb (bool_decide (h.(header_type_name) = "standard_metadata")) = true)).
  2: { intros h Hn. unfold struct_text. by destruct (_ && _). }
  reading.
Qed.

(** ** Expressions *)
Lemma find_by_name {A} (f : A → string) s l x : find_by f s l = Some x → f x = s.
Proof. unfold find_by. destruct (list_find _ l) as [[i y]|] eqn:H; [|done]. cbn. intros [= <-]. by apply list_find_Some in H as (_ & ? & _). Qed.

Lemma lvalue_read v f l : lvalue_tree v f = Some l → ∃ s, field_text v f = Ok s ∧ spells_word is_lvalue s l.
Proof.
  unfold lvalue_tree, field_text. destruct f as [|s [|x [|? ?]]]; try done. destruct (find_by h_name s _) as [h|] eqn:Hh; [|done].
  cbn [mbind option_bind fmap list_fmap separated]. unfold translated_prefix at 2.
  destruct (h_metadata h) eqn:Hm; intros H; apply bind_Some in H as (a & [-> Ha]%checked_word & H).
  - apply bind_Some in H as (b & [-> Hb]%checked_word & [= <-]). rewrite (bool_decide_false (x = "$valid$")) by (by intros ->).
    unfold translated_prefix in Ha |- *. rewrite Hm in Ha |- *. eexists. split; [reflexivity|]. cbn [negb] in *.
    eexists. split; [apply lvalue_member, member_rule|]. reading_word.
  - cbn [negb]. rewrite append_assoc. destruct (decide (x = "$valid$")) as [->|Hx]; cbn [mbind option_bind] in H.
    + injection H as <-. rewrite bool_decide_true by done. eexists. split; [reflexivity|].
      eexists. split; [apply lvalue_field, field_valid|]. reading_word.
    + apply bind_Some in H as (b & [-> Hb]%checked_word & [= <-]). rewrite bool_decide_false by done. eexists. split; [reflexivity|].
      eexists. split; [apply lvalue_field, field_rule|]. reading_word.
Qed.

Lemma printed_operator_read op o : operator_tree op = Some o → ∃ t, is_op t o ∧ lexes (" " +:+ op +:+ " ") [t].
Proof.
  unfold operator_tree. destruct (list_find _ _) as [[i [op' o']]|] eqn:H; [|done]. intros [= <-]. apply list_find_Some in H as (Hi & He & _). cbn in *.
  subst op'. apply list_elem_of_lookup_2 in Hi. unfold printed_operators in Hi.
  repeat (apply elem_of_cons in Hi as [[= -> ->]|Hi]; [eexists; split; [constructor|eapply scans_closed; vm_compute; reflexivity]|]). by apply elem_of_nil in Hi.
Qed.

Lemma operation_read v data p x : operation_tree v data p = Some x → ∃ s, parameter_text v data p = Ok s ∧ spells_word is_operation s x.
Proof.
  assert (Hop : ∀ t x, is_operand [t] x → ∀ s, lexes_word s [t] → spells_word is_operation s x).
  { intros t y Hy s Hs. exists [t]. split; [by constructor|done]. }
  revert data x. induction p as [f|i|s|b|s|s|op l r IHl IHr] using parameter_ind; intros data x H; cbn [operation_tree parameter_text] in *; try done.
  - apply fmap_Some in H as (l & Hl & ->). destruct (lvalue_read v f l Hl) as (s & Hs & u & Hu & Hx). exists s. split; [done|].
    exists u. split; [by constructor; constructor|done].
  - apply bind_Some in H as (ds & -> & H). apply bind_Some in H as (d & Hd & H). destruct (rd ds i) as [d'|]; [|done]. injection Hd as <-.
    apply fmap_Some in H as (n & [-> Hn]%checked_word & ->). eexists. split; [reflexivity|]. eapply Hop; [constructor|]. by apply word_lexes.
  - apply fmap_Some in H as (n & Hn%literal_word & ->). eexists. split; [reflexivity|]. eapply Hop; [constructor|]. by apply word_lexes.
  - injection H as <-. destruct b; (eexists; split; [reflexivity|]).
    + apply (Hop TRUE); [constructor|]. by apply word_lexes.
    + apply (Hop FALSE); [constructor|]. by apply word_lexes.
  - destruct (decide (op = "b2d")) as [->|Hop'].
    + rewrite bool_decide_true by done. cbn [negb]. destruct r as [r|]; [|done]. by apply IHr.
    + rewrite bool_decide_false by done. cbn [negb]. destruct l as [l|]; [|done]. destruct r as [r|]; [|done].
      apply bind_Some in H as (y & Hy & H). apply bind_Some in H as (o & Ho & H). apply bind_Some in H as (z & Hz & [= <-]).
      destruct (IHl l eq_refl None y Hy) as (s & Hs & u & Hu & Hul). destruct (IHr r eq_refl None z Hz) as (s' & Hs' & w & Hw & Hwl).
      apply printed_operator_read in Ho as (t & Ht & Htl). rewrite Hs, Hs'. eexists. split; [reflexivity|].
      exists (Single "(" :: u ++ t :: w ++ [Single ")"]). split; [by constructor|].
      assert (He : "(" +:+ (s +:+ " ") +:+ op +:+ (" " +:+ s') +:+ ")" = "(" +:+ s +:+ (" " +:+ op +:+ " ") +:+ s' +:+ ")") by (by rewrite !append_assoc).
      rewrite He. reading_word.
Qed.

(** ** The parser *)
Lemma next_state_read k t e : next_state_tree k t = Some e →
  ∃ w, lexes_word (next_state_text t) [w] ∧
    ((∃ s, w = IDENTIFIER s ∧ e = mkTransitionEntry k s 2) ∨ (w = ACCEPT ∧ e = mkTransitionEntry k "accept" 0)).
Proof.
  unfold next_state_tree, next_state_text. destruct (decide (tr_next_state t = EmptyString)) as [Hn|Hn]; intros H.
  - rewrite bool_decide_true by done. injection H as <-. exists ACCEPT. split; [by apply word_lexes|by right].
  - rewrite bool_decide_false by done. apply bind_Some in H as (n & [-> Hw]%checked_word & [= <-]). eexists. split; [by apply word_lexes|eauto].
Qed.

Lemma transition_key_read t k : transition_key_tree t = Some k →
  spells_word is_key_def (t.(tr_value) +:+ (if bool_decide (t.(tr_mask) = EmptyString) then EmptyString else " &&& " +:+ t.(tr_mask))) k.
Proof.
  unfold transition_key_tree. destruct (word_of t.(tr_value)) as [w|] eqn:Hv; [|done]. apply word_lexes in Hv.
  destruct w; try done; destruct (decide (tr_mask t = EmptyString)) as [Hm|Hm]; try done; intros H;
    [rewrite bool_decide_true by done|rewrite bool_decide_true by done|rewrite bool_decide_false by done]; rewrite ?append_nil_r.
  - injection H as <-. eexists. by split; [apply key_default|].
  - injection H as <-. eexists. by split; [apply key_exact|].
  - apply bind_Some in H as (m & Hm'%literal_word & [= <-]). eexists. split; [apply key_ternary|]. reading_word.
Qed.

Lemma transition_read t e : transition_tree t = Some e → spells is_transition_entry (transition_text t) e.
Proof.
  unfold transition_tree, transition_text. intros H. apply bind_Some in H as (k & (u & Hu & Hl)%transition_key_read & (w & Hw & He)%next_state_read).
  assert (Ht : lexes (line 3 (t.(tr_value) +:+ (if bool_decide (t.(tr_mask) = EmptyString) then EmptyString else " &&& " +:+ t.(tr_mask)) +:+ ": " +:+
    next_state_text t +:+ ";")) (u ++ [Single ":"; w; Single ";"])).
  { rewrite <- append_assoc. reading. }
  eexists. split; [|exact Ht]. destruct He as [(s & -> & ->)|[-> ->]]; by constructor.
Qed.

Lemma key_read k x : key_tree k = Some x → spells_word is_field (key_text k) x.
Proof.
  unfold key_tree. destruct k as [|a [|b [|? ?]]]; try done. intros H. apply bind_Some in H as (a' & [-> Ha]%checked_word & H).
  apply bind_Some in H as (b' & [-> Hb]%checked_word & [= <-]). eexists. split; [apply field_rule|].
  change (key_text [a; b]) with ("hdr" +:+ ("." +:+ a) +:+ ("." +:+ b) +:+ EmptyString). rewrite append_nil_r, append_assoc. reading_word.
Qed.

Lemma state_read s d : state_tree s = Some d → spells is_state_def (parse_state_text s) d.
Proof.
  unfold state_tree, parse_state_text. intros H. apply bind_Some in H as (n & [-> Hn]%checked_word & H).
  apply bind_Some in H as (o & Ho & H). destruct (parser_ops s) as [|o' [|? ?]]; try done. apply checked_word in Ho as [-> Ho].
  apply bind_Some in H as (t & Ht & [= <-]).
  assert (Hx : spells is_extract_stmt (cat ((λ op, line 2 ("packet.extract(hdr." +:+ op +:+ ");")) <$> [o'])) ("hdr", o')).
  { change (cat _) with (line 2 ("packet.extract(hdr." +:+ o' +:+ ");") +:+ EmptyString). rewrite append_nil_r.
    eexists. split; [apply extract_rule, member_rule|]. reading. }
  destruct Hx as (x & Hx & Hxl).
  assert (Htr : spells is_transition_stmt match s.(transition_key) with
    | [] => tabs 2 +:+ "transition " +:+ cat ((λ t, next_state_text t +:+ ";" +:+ endl) <$> s.(ps_transitions))
    | keys => line 2 ("transition select(" +:+ separated ", " (key_text <$> keys) +:+ ") {") +:+ cat (transition_text <$> s.(ps_transitions)) +:+ line 2 "}"
    end t).
  { destruct (transition_key s) as [|k ks].
    - destruct (ps_transitions s) as [|e [|? ?]]; try done. apply fmap_Some in Ht as (e' & (w & Hw & He)%next_state_read & ->).
      change (cat _) with ((next_state_text e +:+ ";" +:+ endl) +:+ EmptyString). rewrite append_nil_r.
      eexists. split; [apply transition_direct; instantiate (1 := [w]); destruct He as [(s' & -> & ->)|[-> ->]]; constructor|]. reading.
    - apply bind_Some in Ht as (fs & Hfs & Ht). apply bind_Some in Ht as (es & Hes & [= <-]).
      apply (tree_strings (spells_word is_field) key_text) in Hfs as (u & Hu & Hul)%reads_commas; [|by intros; apply key_read].
      apply (tree_strings (spells is_transition_entry) transition_text) in Hes as (w & Hw & Hwl)%reads_cat; [|by intros; apply transition_read].
      eexists. split; [by apply transition_select|]. reading. }
  destruct Htr as (w & Hw & Hwl). eexists. split; [by apply state_def_rule|]. reading.
Qed.

Lemma parser_read p d : parser_tree p = Some d → spells is_parser_def (parser_text p) d.
Proof.
  unfold parser_tree, parser_text. intros H. apply bind_Some in H as (n & [-> Hn]%checked_word & H).
  apply (tree_strings (spells is_state_def) parse_state_text) in H as (u & Hu & Hul)%reads_cat; [|by intros; apply state_read].
  eexists. split; [by apply parser_def_rule|]. reading.
Qed.

(** ** Actions *)
Lemma primitive_read v data p x : primitive_tree v data p = Some x → ∃ s, primitive_text v data p = Ok s ∧ spells is_expression s x.
Proof.
  unfold primitive_tree, primitive_text. destruct (decide (p_op p = "assign")) as [Hp|Hp].
  - rewrite bool_decide_true by done. destruct (p_parameters p) as [|[f| | | | | |] [|r ps]]; try done. intros H.
    apply bind_Some in H as (l & (s & Hs & u & Hu & Hul)%lvalue_read & H). apply bind_Some in H as (y & (s' & Hs' & w & Hw & Hwl)%operation_read & [= <-]).
    eexists. split; [|eexists; split; [by apply expression_rule|]].
    { change (rd (?a :: ?b) 0) with (Ok a). cbn [mbind res_mbind]. cbn [parameter_text]. rewrite Hs. change (rd (?a :: ?b :: ?c) 1) with (Ok b).
      cbn [mbind res_mbind]. rewrite Hs'. reflexivity. }
    reading.
  - rewrite bool_decide_false by done. destruct (decide (p_op p = "mark_to_drop")); [|done]. rewrite bool_decide_true by done. intros [= <-].
    eexists. split; [reflexivity|]. eexists. split; [apply (expression_rule _ _ _ _ (lvalue_member _ _ _ (member_rule _ _)) (operation_operand _ _ (operand_int 1)))|]. reading.
Qed.

Lemma runtime_data_read d f : runtime_data_tree d = Some f → spells_word is_field_def ("bit<" +:+ pretty d.(bitwidth) +:+ "> " +:+ d.(rd_name)) f.
Proof.
  unfold runtime_data_tree, checked_int. intros H. destruct (decide (int _)) as [Hw|]; [|done]. cbn [mbind option_bind] in H.
  apply bind_Some in H as (n & [-> Hn]%checked_word & [= <-]). eexists. split; [apply field_def_rule, type_bits|].
  apply (bit_lexes _ " " (rd_name d) [IDENTIFIER _]); [done|done|]. reading_word.
Qed.

Lemma action_read v acts a d : action_tree v acts a = Some d → ∃ s, action_text v acts a = Ok s ∧ spells is_action_def s d.
Proof.
  unfold action_tree, action_text. destruct (decide _) as [Hn|Hn]; intros H.
  - destruct (runtime_data a); [|done]. destruct (act_primitives a); [|done]. injection H as <-. rewrite Hn. eexists. split; [reflexivity|].
    eexists. split; [apply action_none|]. change (separated _ _) with EmptyString. change (cat []) with EmptyString. reading.
  - apply bind_Some in H as (n & [-> Hw]%checked_word & H). apply bind_Some in H as (ps & Hps & H). apply bind_Some in H as (es & Hes & [= <-]).
    apply (tree_strings (spells_word is_field_def) (λ d, "bit<" +:+ pretty d.(bitwidth) +:+ "> " +:+ d.(rd_name))) in Hps as (u & Hu & Hul)%reads_commas;
      [|by intros; apply runtime_data_read].
    apply (tree_texts (spells is_expression) (primitive_text v (runtime_data a))) in Hes as (ss & Hss & (w & Hw' & Hwl)%reads_cat);
      [|by intros; apply primitive_read].
    rewrite Hss. eexists. split; [reflexivity|]. eexists. split; [by apply action_rule|]. reading.
Qed.

Lemma actions_read v acts ds : mapM (action_tree v acts) acts = Some ds → ∃ s, actions_text v acts = Ok s ∧ spells is_actions_def s ds.
Proof.
  intros H. apply (tree_texts (spells is_action_def) (action_text v acts)) in H as (ss & Hss & (w & Hw & Hwl)%reads_cat); [|by intros; apply action_read].
  unfold actions_text. rewrite Hss. eexists. split; [reflexivity|]. eexists. split; [by apply actions_def_rule|]. reading.
Qed.

(** ** Tables *)
Lemma reads_more {A} (D : lang A) s t a l : spells D s a → spells (many D) t l → spells (many D) (s +:+ t) (a :: l).
Proof. intros (u & Hu & Hs) (w & Hw & Ht). exists (u ++ w). split; [by apply many_cons|by apply lexes_app]. Qed.
Lemma reads_none {A} (D : lang A) : spells (many D) EmptyString [].
Proof. exists []. split; [constructor|apply lexes_nil]. Qed.

Lemma word_of_keyword s t : word_of s = Some t → match t with IDENTIFIER n => n = s | VALUE_INT _ => True | _ => (s, t) ∈ keywords end.
Proof.
  unfold word_of. destruct (all_of _ _); [|done]. destruct (list_find _ keywords) as [[i [k t']]|] eqn:Hf.
  - intros [= <-]. apply list_find_Some in Hf as (Hi%list_elem_of_lookup_2 & He & _). cbn [fst] in He. subst k.
    assert (Hk : Forall (λ kt, match kt.2 with IDENTIFIER _ | VALUE_INT _ => false | _ => true end = true) keywords) by (apply (bool_decide_unpack _); vm_compute; exact I).
    rewrite Forall_forall in Hk. specialize (Hk _ Hi). cbn in Hk. by destruct t'.
  - destruct (all_of is_alpha _); [by intros [= <-]|]. destruct (all_of is_digit _); [by intros [= <-]|].
    destruct (bool_decide _ && _); [by intros [= <-]|]. destruct (bool_decide _ && _); [by intros [= <-]|done].
Qed.

Lemma keyword_name s t n : (s, t) ∈ keywords → forallb (λ kt, bool_decide (kt.2 = t → kt.1 = n)) keywords = true → s = n.
Proof. rewrite forallb_forall. intros Hin H. specialize (H (s, t) (proj1 (list_elem_of_In _ _) Hin)). apply bool_decide_eq_true in H. by apply H. Qed.

(** The name of an action. *)
Lemma action_read_word s n : action_word s = Some n → ∃ w, lexes_word s [w] ∧ ((w = IDENTIFIER n) ∨ (w = NOACTION ∧ n = "NoAction")).
Proof.
  unfold action_word. destruct (word_of s) as [w|] eqn:Hw; [|done]. pose proof (word_of_keyword s w Hw) as Hk. apply word_lexes in Hw.
  destruct w; try done; intros [= <-]; eexists; (split; [exact Hw|]); [right|left; congruence].
  split; [done|]. apply (keyword_name _ _ _ Hk). vm_compute. reflexivity.
Qed.
Lemma next_read_word s n : next_word s = Some n → ∃ w, lexes_word s [w] ∧ is_stage_name w n.
Proof.
  unfold next_word. destruct (decide (s = "None")) as [->|Hs]; [intros [= <-]; exists NONE; split; [by apply word_lexes|constructor]|].
  intros [-> Hw]%checked_word. eexists. split; [by apply word_lexes|constructor].
Qed.

Section tables.
Context (v : P4Headers) (acts : list P4Action) (vp : list P4Pipeline).

Lemma table_key_read k x : table_key_tree v k = Some x →
  ∃ s, (f ← field_text v k.(key_target); mret (line 3 (f +:+ ": " +:+ k.(key_match_type) +:+ ";"))) = Ok s ∧ spells is_key_entry s x.
Proof.
  unfold table_key_tree. intros H. apply bind_Some in H as (l & (s & Hs & u & Hu & Hul)%lvalue_read & H). apply bind_Some in H as (m & Hm & [= <-]).
  rewrite Hs. eexists. split; [reflexivity|].
  assert (∃ w, lexes_word k.(key_match_type) [w] ∧ is_match_type w m) as (w & Hw & Hwm).
  { unfold match_type_tree in Hm. destruct (decide _) as [->|]; [|destruct (decide _) as [->|]; [|destruct (decide _) as [->|]; [|done]]];
      injection Hm as <-; eexists; (split; [apply word_lexes; reflexivity|constructor]). }
  eexists. split; [by apply key_entry_rule|]. reading.
Qed.

Lemma match_key_read k x : match_key_tree k = Some x → spells_word is_key_def (match_key_text k) x.
Proof.
  unfold match_key_tree, match_key_text. intros H. apply bind_Some in H as (n & Hn%literal_word & H).
  destruct (decide (mk_match_type k = "lpm")) as [|Hl]; [done|]. rewrite bool_decide_false by done.
  destruct (decide (mk_match_type k = "ternary")) as [Ht|Ht].
  - rewrite bool_decide_true by done. apply bind_Some in H as (m & Hm%literal_word & [= <-]). eexists. split; [apply key_ternary|]. reading_word.
  - rewrite bool_decide_false by done. injection H as <-. rewrite !append_nil_r. eexists. split; [apply key_exact|]. by apply word_lexes.
Qed.

Lemma entry_read e x : entry_tree acts e = Some x → spells is_match_entry (line 3 (out_action acts e +:+ ";")) x.
Proof.
  unfold entry_tree, out_action. intros H. apply bind_Some in H as (ks & Hks & H). apply bind_Some in H as (a & (w & Hw & Ha)%action_read_word & [= <-]).
  apply (tree_strings (spells_word is_key_def) match_key_text) in Hks as (u & Hu & Hul)%reads_commas; [|by intros; apply match_key_read].
  destruct Ha as [->|[-> ->]]; (eexists; split; [by constructor|]); rewrite !append_assoc; reading.
Qed.

Lemma table_read t d : table_tree v acts vp t = Some d → ∃ s, table_text v acts vp t = Ok s ∧ spells is_table_def s d.
Proof.
  unfold table_tree, table_text, checked_int. intros H. apply bind_Some in H as (n & [-> Hn]%checked_word & H). apply bind_Some in H as (ks & Hks & H).
  apply bind_Some in H as (size & Hsize & H). destruct (decide (int (max_size t))) as [Hs|]; [|done]. injection Hsize as <-.
  apply bind_Some in H as (width & Hwidth & H). destruct (decide (int (value_width_of acts t))) as [Hw|]; [|done]. injection Hwidth as <-.
  apply bind_Some in H as (dn & (wd & Hwd & Hd)%action_read_word & H). apply bind_Some in H as (es & Hes & [= <-]).
  apply (tree_texts (spells is_key_entry) (λ k, f ← field_text v k.(key_target); mret (line 3 (f +:+ ": " +:+ k.(key_match_type) +:+ ";")))) in Hks
    as (ss & Hss & (uk & Huk & Hukl)%reads_cat); [|by intros; apply table_key_read].
  rewrite Hss. eexists. split; [reflexivity|].
  assert (Hk : spells is_table_key_def (line 2 "key = {" +:+ cat ss +:+ line 2 "}") ks).
  { eexists. split; [by apply table_key_rule|]. reading. }
  assert (Hentries : spells (many is_table_optional_stmt) match t.(t_entries) with
    | [] => EmptyString
    | es => line 2 "entries = {" +:+ cat ((λ e, line 3 (out_action acts e +:+ ";")) <$> es) +:+ line 2 "}"
    end match t.(t_entries) with [] => [] | _ => [TableEntriesStmt] end).
  { destruct (t_entries t) as [|e l]; [apply reads_none|].
    apply (tree_strings (spells is_match_entry) (λ e, line 3 (out_action acts e +:+ ";"))) in Hes as (ue & Hue & Huel)%reads_cat; [|by intros; apply entry_read].
    exists ([] ++ (ENTRIES :: Single "=" :: Single "{" :: ue ++ [Single "}"])).
    split; [apply (many_more _ [] []); [constructor|by eapply stmt_entries]|]. reading. }
  assert (Hopt : spells (many is_table_optional_stmt)
    (line 2 ("size = " +:+ pretty t.(max_size) +:+ ";") +:+ line 2 ("value_width = " +:+ pretty (value_width_of acts t) +:+ ";") +:+
     line 2 ("default_action = " +:+ out_default_action acts t.(t_default_entry) +:+ ";") +:+
     match t.(t_entries) with
     | [] => EmptyString
     | es => line 2 "entries = {" +:+ cat ((λ e, line 3 (out_action acts e +:+ ";")) <$> es) +:+ line 2 "}"
     end)
    ([TableSizeStmt (max_size t); TableValueWidthStmt (value_width_of acts t); DefaultActionStmt dn] ++ match t.(t_entries) with [] => [] | _ => [TableEntriesStmt] end)).
  { pose proof (int_lexes _ Hs) as Hsl. pose proof (int_lexes _ Hw) as Hwl. cbn [app].
    apply reads_more; [eexists; split; [apply stmt_size|]; reading|]. apply reads_more; [eexists; split; [apply stmt_width|]; reading|].
    apply reads_more; [|done]. destruct Hd as [->|[-> ->]]; (eexists; split; [constructor|]); reading. }
  destruct Hk as (k & Hk & Hkl). destruct Hopt as (o & Ho & Hol). eexists. split; [by apply table_def_rule|].
  assert (Hgoal : ∀ opts x, lexes opts o →
    line 1 ("table " +:+ translate_table_name vp t.(t_name) +:+ " {") +:+ (line 2 "key = {" +:+ cat ss +:+ line 2 "}") +:+ opts +:+ line 1 "}" = x →
    lexes x (TABLE :: IDENTIFIER (translate_table_name vp t.(t_name)) :: Single "{" :: k ++ o ++ [Single "}"])).
  { intros opts x Hopts <-. reading. }
  apply (Hgoal _ _ Hol). by rewrite !append_assoc.
Qed.
End tables.

(** ** Stages *)
Lemma reads_join {A} (D : lang A) s t l m : spells (many D) s l → spells (many D) t m → spells (many D) (s +:+ t) (l ++ m).
Proof.
  intros (u & Hu & Hs) (w & Hw & Ht). exists (u ++ w). split; [|by apply lexes_app].
  clear -Hu Hw. induction Hw as [|w m x a _ IH Hx]; [by rewrite !app_nil_r|]. rewrite !(assoc_L (++)). by constructor.
Qed.

Lemma reads_one {A} (D : lang A) s a : spells D s a → spells (many D) s [a].
Proof. intros (u & Hu & Hs). exists u. split; [|done]. apply (many_more D [] [] u a); [constructor|done]. Qed.

Section stages.
Context (v : P4Headers) (acts : list P4Action) (vp : list P4Pipeline).

Lemma switch_read n x : switch_tree vp n = Some x → spells_word is_switch_value (out_next vp n) x.
Proof.
  unfold switch_tree, out_next. destruct (decide (n = EmptyString)) as [Hn|Hn]; intros H.
  - rewrite bool_decide_true by done. injection H as <-. eexists. split; [apply switch_none|]. by apply word_lexes.
  - rewrite bool_decide_false by done. destruct (is_stage vp n); apply bind_Some in H as (y & [-> Hy]%checked_word & [= <-]);
      (eexists; split; [constructor|]); reading_word.
Qed.

Lemma executor_line_read e x : executor_line_tree e = Some x → spells is_executor_entry (line 3 (e.1 +:+ ": " +:+ e.2 +:+ ";")) x.
Proof.
  unfold executor_line_tree. intros H. apply bind_Some in H as (a & (w & Hw & Ha)%action_read_word & H).
  apply bind_Some in H as (n & (w' & Hw' & Hn)%next_read_word & [= <-]).
  exists [w; Single ":"; w'; Single ";"]. split; [constructor; [|done]; destruct Ha as [->|[-> ->]]; constructor|]. reading.
Qed.

Lemma header_line_read h n : checked h = Some n → spells is_stage_parser_header (line 3 (h +:+ ";")) n.
Proof. intros [-> Hn]%checked_word. eexists. split; [constructor|]. reading. Qed.

Lemma stage_read name hs ops sw ex d switch entries : stage_tree name hs ops sw ex = Some d →
  spells_word (separated_by_commas is_operation) switch ops → spells (many is_switch_entry) entries sw →
  spells is_stage_def (stage_text name hs switch entries (executor_lines ex)) d.
Proof.
  unfold stage_tree, stage_text, header_lines, executor_lines. intros H (uo & Huo & Huol) (us & Hus & Husl).
  apply bind_Some in H as (n & [-> Hn]%checked_word & H). apply bind_Some in H as (hs' & Hhs & H). apply bind_Some in H as (ex' & Hex & [= <-]).
  apply (tree_strings (spells is_stage_parser_header) (λ h, line 3 (h +:+ ";"))) in Hhs as (uh & Huh & Huhl)%reads_cat; [|by intros; apply header_line_read].
  apply (tree_strings (spells is_executor_entry) (λ e, line 3 (e.1 +:+ ": " +:+ e.2 +:+ ";"))) in Hex as (ue & Hue & Huel)%reads_cat; [|by intros; apply executor_line_read].
  eexists. split; [eapply stage_def_rule; [by apply stage_parser_rule|by apply stage_matcher_rule|by apply stage_executor_rule]|]. reading.
Qed.

Lemma conditional_parts_text p c hs ops b ex switch : conditional_parts v acts vp p c = Ok (hs, ops, b, ex) →
  collect (parameter_text v None) ops = Ok switch →
  conditional_text v acts vp p c = Ok (stage_text (translate_stage_name vp c.(c_name)) hs (separated ", " switch)
    (cat ((λ s, line 4 ("0b" +:+ cond_text s +:+ ": " +:+ out_next vp c.(true_next) +:+ ";")) <$> b) +:+
      line 4 ("*: " +:+ out_next vp c.(false_next) +:+ ";")) (executor_lines ex)).
Proof.
  unfold conditional_parts, conditional_text. intros (h1 & -> & H)%bind_ok_inv Hs. apply bind_ok_inv in H as ([o1 b1] & Hp & H).
  apply bind_ok_inv in H as (h2 & Hh & H). apply bind_ok_inv in H as (e1 & He & [= <- <- <- <-]).
  cbn [mbind res_mbind]. rewrite Hp. cbn [mbind res_mbind]. rewrite Hh. cbn [mbind res_mbind]. rewrite Hs. cbn [mbind res_mbind]. by rewrite He.
Qed.

Lemma patterns_read b keys yes s : mapM pattern_key b = Some keys → spells_word is_switch_value s yes →
  spells (many is_switch_entry) (cat ((λ x, line 4 ("0b" +:+ cond_text x +:+ ": " +:+ s +:+ ";")) <$> b)) ((λ k, (k, yes)) <$> keys).
Proof.
  intros H%mapM_Some (u & Hu & Hul). apply reads_cat. induction H as [|x k b keys Hx _ IH]; [constructor|]. cbn [fmap list_fmap]. constructor; [|done].
  unfold pattern_key in Hx. apply fmap_Some in Hx as (n & Hn%literal_word%word_lexes & ->).
  eexists. split; [apply switch_entry_rule; [apply key_exact|exact Hu]|]. rewrite <- (append_assoc "0b"). reading.
Qed.

Lemma conditional_read p c d : conditional_tree v acts vp p c = Some d → ∃ s, conditional_text v acts vp p c = Ok s ∧ spells is_stage_def s d.
Proof.
  unfold conditional_tree. intros H. apply bind_Some in H as ([[[hs ops] b] ex] & Hp & H).
  destruct (conditional_parts v acts vp p c) as [parts|] eqn:Hparts; [|done]. injection Hp as ->.
  apply bind_Some in H as (ops' & Hops & H). apply bind_Some in H as (keys & Hkeys & H). apply bind_Some in H as (yes & Hyes%switch_read & H).
  apply bind_Some in H as (no & (un & Hun & Hunl)%switch_read & H).
  apply (tree_texts (spells_word is_operation) (parameter_text v None)) in Hops as (ss & Hss & Hops%reads_commas); [|by intros; apply operation_read].
  eexists. split; [exact (conditional_parts_text _ _ _ _ _ _ _ Hparts Hss)|]. eapply stage_read; [exact H|done|].
  apply reads_join; [by apply patterns_read|]. apply reads_one.
  eexists. split; [apply switch_entry_rule; [apply key_star|exact Hun]|]. reading.
Qed.

Lemma table_stage_read t d : table_stage_tree v acts vp t = Some d → ∃ s, table_stage_text v acts vp t = Ok s ∧ spells is_stage_def s d.
Proof.
  unfold table_stage_tree, table_stage_text. intros H. apply bind_Some in H as (hs & Hhs & H). apply bind_Some in H as (ex & Hex & H).
  apply bind_Some in H as (n & [-> Hn]%checked_word & H). destruct (key_headers v t ∅) as [hs'|]; [|done]. injection Hhs as ->.
  destruct (executor_entries acts vp t) as [ex'|]; [|done]. injection Hex as ->. eexists. split; [reflexivity|].
  eapply stage_read; [exact H| |].
  - eexists. split; [apply (listed_one _ is_operation [VALUE_INT 1] (Rp4Literal 1)); constructor; constructor|]. reading_word.
  - apply reads_one.
    eexists. split; [apply switch_entry_rule; [apply key_exact|apply switch_table]|]. reading.
Qed.

Lemma pipeline_read p d : pipeline_tree v acts vp p = Some d → ∃ s, pipeline_text v acts vp p = Ok s ∧ spells is_pipeline s d.
Proof.
  unfold pipeline_tree, pipeline_text. intros H. apply bind_Some in H as (n & [-> Hn]%checked_word & H).
  apply bind_Some in H as (cs & Hcs & H). apply bind_Some in H as (ts & Hts & [= <-]).
  apply (tree_texts (spells is_stage_def) (conditional_text v acts vp p)) in Hcs as (sc & Hsc & Hcs%reads_cat); [|by intros; apply conditional_read].
  apply (tree_texts (spells is_stage_def) (table_stage_text v acts vp)) in Hts as (st & Hst & Hts%reads_cat); [|by intros; apply table_stage_read].
  rewrite Hsc. cbn [mbind res_mbind]. rewrite Hst. cbn [mbind res_mbind]. eexists. split; [reflexivity|].
  assert (Hb : spells (many is_stage_def) (if is_true_stage p.(init_table) p then cat sc +:+ cat st else cat st +:+ cat sc)
    (if is_true_stage p.(init_table) p then cs ++ ts else ts ++ cs)) by (destruct (is_true_stage _ _); by apply reads_join).
  destruct Hb as (u & Hu & Hul). eexists. split; [by apply pipeline_rule|]. reading.
Qed.
End stages.

Lemma tables_read v acts vp ps ts : mapM (table_tree v acts vp) (p ← ps; p.(pipe_tables)) = Some ts →
  ∃ ss, collect (λ p, ts ← collect (table_text v acts vp) p.(pipe_tables); mret (cat ts)) ps = Ok ss ∧ spells (many is_table_def) (cat ss) ts.
Proof.
  intros H. assert (∃ ss, Forall2 (λ p s, (ts ← collect (table_text v acts vp) p.(pipe_tables); mret (cat ts)) = Ok s) ps ss ∧
    spells (many is_table_def) (cat ss) ts) as (ss & Hss & Hr).
  { revert ts H. induction ps as [|p ps IH]; intros ts H; [injection H as <-; exists []; split; [constructor|apply reads_none]|].
    rewrite bind_cons in H. apply mapM_Some in H. apply Forall2_app_inv_l in H as (t1 & t2 & H1%mapM_Some & H2%mapM_Some & ->).
    apply (tree_texts (spells is_table_def) (table_text v acts vp)) in H1 as (s1 & Hs1 & Hr1%reads_cat); [|by intros; apply table_read].
    destruct (IH t2 H2) as (ss & Hss & Hr). exists (cat s1 :: ss). split; [constructor; [by rewrite Hs1|done]|].
    by apply reads_join. }
  exists ss. split; [by apply collect_ok|done].
Qed.

Lemma program_lexes a b m q c t i e ua ub um uq uc ut ui ue :
  lexes a ua → lexes b ub → lexes m um → lexes q uq → lexes c uc → lexes t ut → lexes i ui → lexes e ue →
  lexes ((a +:+ b) +:+ endl +:+ m +:+ endl +:+ q +:+ endl +:+ c +:+ endl +:+ (line 0 "tables {" +:+ t +:+ line 0 "}" +:+ endl +:+ i +:+ e) +:+ endl)
    (ua ++ (ub ++ um) ++ uq ++ uc ++ (TABLES :: Single "{" :: ut ++ [Single "}"]) ++ ui ++ ue).
Proof. intros. rewrite !append_assoc. reading. Qed.

(** C5. Translator and compiler agree on the language: when a P4 program has a tree, its
    text is printed, and the compiler reads the text as this tree. *)
Theorem translated_program_read p ast : source_tree p = Some ast → ∃ s, program_text p = Ok s ∧ parse_source (text s) = Some ast.
Proof.
  unfold source_tree, program_text, pipelines_text. intros H. apply bind_Some in H as (hs & Hhs & H). apply bind_Some in H as (ss & Hss & H).
  destruct (headers_read _ _ _ Hhs Hss) as (uh & sa & Huh & Huhl & -> & us & Hus & Husl).
  destruct standard_metadata_read as (um & Hum & Huml).
  apply bind_Some in H as (ps & Hps & H). destruct (parsers p) as [|pa [|? ?]]; try done. apply parser_read in Hps as (up & Hup & Hupl).
  apply bind_Some in H as (acs & (ta & Hta & ua & Hua & Hual)%actions_read & H). apply bind_Some in H as (ts & (tt & Htt & ut & Hut & Hutl)%tables_read & H).
  destruct (pipelines p) as [|i [|e [|? ?]]] eqn:Hvp; try done.
  apply bind_Some in H as (is_ & (ti & Hti & ui & Hui & Huil)%pipeline_read & H). apply bind_Some in H as (es & (te & Hte & ue & Hue & Huel)%pipeline_read & [= <-]).
  rewrite Hta. cbn [mbind res_mbind]. rewrite Htt. cbn [mbind res_mbind].
  assert (Hc : collect (pipeline_text p.(headers) p.(actions) [i; e]) [i; e] = Ok [ti; te]) by (apply collect_ok; by repeat constructor).
  rewrite Hc. cbn [mbind res_mbind]. eexists. split; [reflexivity|].
  set (u := uh ++ (us ++ um) ++ up ++ ua ++ (TABLES :: Single "{" :: ut ++ [Single "}"]) ++ ui ++ ue).
  assert (Hu : is_program u (mkAst hs (sa ++ [standard_metadata_tree]) ps acs ts is_ es)).
  { constructor; try done. by constructor. }
  change (cat [ti; te]) with (ti +:+ te +:+ EmptyString). rewrite append_nil_r.
  assert (Hs : lexes (headers_text p.(headers) +:+ endl +:+ standard_metadata_text +:+ endl +:+ parsers_text [pa] +:+ endl +:+ ta +:+ endl +:+
    (line 0 "tables {" +:+ cat tt +:+ line 0 "}" +:+ endl +:+ ti +:+ te) +:+ endl) u).
  { unfold headers_text. change (parsers_text [pa]) with (parser_text pa +:+ EmptyString). rewrite append_nil_r. by apply program_lexes. }
  specialize (Hs []). rewrite app_nil_r in Hs. unfold parse_source. rewrite Hs. by rewrite (complete u _ _ Hu).
Qed.

Lemma translated_program_read_witness :
  match source_tree demo_p4_program, program_text demo_p4_program with
  | Some ast, Ok s => parse_source (text s) = Some ast ∧ sg_name <$> ast.(ingress_stages) = ["node_2"]
  | _, _ => False
  end.
Proof.
  destruct (source_tree demo_p4_program) as [ast|] eqn:Ha; [|vm_compute in Ha; discriminate Ha].
  destruct (translated_program_read demo_p4_program ast Ha) as (s & Hs & Hp). rewrite Hs. split; [exact Hp|].
  vm_compute in Ha. injection Ha as <-. reflexivity.
Defined.

(** What the language has no words for: a table that matches a prefix in a fixed entry is
    printed with [///], and the text behind it is lost. *)
Lemma prefix_is_comment r : lex (text " /// " ++ r) = lex (drop (span (λ c, negb (bool_decide (c = "010"%char))) r) r).
Proof.
  change (text " /// " ++ r) with (" "%char :: "/"%char :: "/"%char :: "/"%char :: " "%char :: r). rewrite blank_skipped by done.
  rewrite (lex_chosen _ (4 + span (λ c, negb (bool_decide (c = "010"%char))) r) (λ _, Ignore)); reflexivity.
Qed.
Lemma prefix_entry_lost k n r : literal_of k.(mk_key) = Some n → k.(mk_match_type) = "lpm" →
  lex (text (match_key_text k) ++ r) =
    VALUE_INT n :: lex (drop (span (λ c, negb (bool_decide (c = "010"%char))) (text (pretty k.(mk_prefix_length)) ++ r)) (text (pretty k.(mk_prefix_length)) ++ r)).
Proof.
  intros Hn%literal_word%word_lexes Ht. unfold match_key_text. rewrite Ht, bool_decide_true, bool_decide_false by done. rewrite append_nil_r.
  rewrite !text_app, <- !(assoc_L (++)), Hn by done. cbn [app]. by rewrite prefix_is_comment.
Qed.
