(* ===== verification/Conditions.v ===== *)
(** * Conditions, from the P4 program to the data plane

    The translator writes the patterns of a condition, the compiler makes keys of them,
    and the gateway of the data plane makes a key of what the conditions give. *)

From stdpp Require Import base numbers list gmap strings.
From Stdlib Require Import ZArith Lia Ascii.
From S2P Require Import Prelude Stages P4Condition P4Print Lexer Source Json Bits Phv Gateway.

#[local] Open Scope Z_scope.

(** The number a pattern of conditions stands for in the source of the compiler. *)
Definition pattern_value (p : list bool) : Z := fold_left (λ x b, 2 * x + b2z b) p 0.

Lemma text_cond (p : list bool) : text (cond_text p) = (λ b : bool, if b then "1"%char else "0"%char) <$> p.
Proof.
  unfold cond_text. induction p as [|b p IH]; [done|]. cbn [fmap list_fmap] in *. rewrite <- IH.
  change (cat (?s :: ?l)) with (s +:+ cat l). rewrite text_app. by destruct b.
Qed.

Lemma number_pattern p : number 2 ((λ b : bool, if b then "1"%char else "0"%char) <$> p) = pattern_value p.
Proof.
  unfold number, pattern_value. generalize 0. induction p as [|b p IH]; intros x; [done|]. cbn [fmap list_fmap fold_left]. by destruct b; apply IH.
Qed.

Lemma pattern_value_range p x : x * 2 ^ zlen p ≤ fold_left (λ x b, 2 * x + b2z b) p x < (x + 1) * 2 ^ zlen p.
Proof.
  revert x. induction p as [|b p IH]; intros x; cbn [fold_left]; [unfold zlen; cbn; lia|].
  specialize (IH (2 * x + b2z b)). assert (Hp : 2 ^ zlen (b :: p) = 2 * 2 ^ zlen p) by (unfold zlen; cbn [length]; rewrite Nat2Z.inj_succ, Z.pow_succ_r; lia).
  rewrite Hp. destruct b; cbn [b2z] in *; nia.
Qed.

Lemma pattern_value_positive p : true ∈ p → 0 < pattern_value p.
Proof.
  intros (l1 & l2 & ->)%list_elem_of_split. unfold pattern_value. rewrite fold_left_app. cbn [fold_left].
  set (x := fold_left _ l1 0). pose proof (pattern_value_range l1 0). fold x in H. pose proof (pattern_value_range l2 (2 * x + b2z true)).
  assert (0 < 2 ^ zlen l2) by (apply Z.pow_pos_nonneg; unfold zlen; lia). cbn [b2z] in *. nia.
Qed.

(** The key of the gateway has its bits at the left of a byte. *)
Lemma bits_key_value bs : (length bs ≤ 8)%nat → bits_key bs 0 = pattern_value bs * 2 ^ (8 - zlen bs).
Proof.
  intros Hl. unfold pattern_value. assert (H : ∀ i x, 0 ≤ i → i + zlen bs ≤ 8 →
    x * 2 ^ (8 - i) + bits_key bs i = fold_left (λ x b, 2 * x + b2z b) bs x * 2 ^ (8 - i - zlen bs)).
  { clear Hl. induction bs as [|b bs IH]; intros i x Hi Hlen; cbn [bits_key fold_left].
    - unfold zlen. cbn. rewrite Z.sub_0_r. lia.
    - assert (Hz : zlen (b :: bs) = zlen bs + 1) by (unfold zlen; cbn [length]; lia). rewrite Hz in *. pose proof (zlen_nonneg bs).
      specialize (IH (i + 1) (2 * x + b2z b) ltac:(lia) ltac:(lia)).
      replace (8 - i - (zlen bs + 1)) with (8 - (i + 1) - zlen bs) by lia. rewrite <- IH.
      replace (8 - i) with (Z.succ (7 - i)) by lia. replace (8 - (i + 1)) with (7 - i) by lia. rewrite Z.pow_succ_r by lia. lia. }
  specialize (H 0 0 ltac:(lia) ltac:(unfold zlen; lia)). rewrite Z.sub_0_r in H. lia.
Qed.

Lemma pattern_key_value p k : p ≠ [] → (length p ≤ 8)%nat → pattern_key p = Some (ExactKey k) → k = pattern_value p.
Proof.
  intros Hp Hl H. unfold pattern_key in H. apply fmap_Some in H as (n & Hn & [= ->]). apply literal_word, word_lexes in Hn.
  specialize (Hn [] I). rewrite text_app, text_cond, app_nil_r in Hn. change (text "0b") with ["0"; "b"]%char in Hn. cbn [app] in Hn.
  set (w := (λ b : bool, if b then "1"%char else "0"%char) <$> p) in *.
  assert (Hd : Forall (λ c, is_bin_digit c = true) w) by (apply Forall_fmap, Forall_forall; intros [] _; reflexivity).
  assert (Hw : w ≠ []) by (clear -Hp; subst w; destruct p; [contradiction|discriminate]).
  pose proof (bin_lexed w Hd Hw [] I) as Hb.
  rewrite app_nil_r in Hb. rewrite Hb in Hn.
  apply (f_equal (λ l, match l with VALUE_INT x :: _ => x | _ => 0 end)) in Hn. cbv beta iota in Hn. subst n. unfold strtol, w. rewrite number_pattern.
  pose proof (pattern_value_range p 0) as Hr. fold (pattern_value p) in Hr.
  assert (2 ^ zlen p ≤ 2 ^ 8) by (apply Z.pow_le_mono_r; unfold zlen; lia). apply int_cut. unfold int. lia.
Qed.

(** C18. The conditions of a P4 program are never met: the compiler writes the patterns of
    a condition, which are the numbers the bits stand for, for the keys of the gateway,
    and the gateway makes a number of what its expressions give from the highest bit of a
    byte down.  So a gateway of one, two or four expressions, whose keys are patterns
    in which some condition holds, sends every packet where its default entry leads. *)
Theorem conditions_never_met `{Target} g es bs phv :
  g.(exps) = (insert_exps es Gateway_init).(exps) → g.(g_bitmap) = 0 →
  (0 < length es ≤ 4)%nat → vcap (length es) = length es →
  Forall2 (λ e b, exp_truth phv e = Some b) es bs →
  (∀ k e, g.(res_next) !! k = Some e → ∃ p, length p = length es ∧ true ∈ p ∧ pattern_key p = Some (ExactKey k)) →
  gateway_execute g phv = Ok (g, set_next_op g.(default_entry) phv).
Proof.
  intros Hg Hm Hlen Hcap Hes Hkeys. rewrite (gateway_run g es bs) by (done || lia). do 3 f_equal.
  destruct (g.(res_next) !! bits_key bs 0) as [e|] eqn:Hk; [|done]. exfalso.
  destruct (Hkeys _ _ Hk) as (p & Hp & Ht & Hkey). pose proof (Forall2_length _ _ _ Hes) as Hbs.
  apply pattern_key_value in Hkey; [|by intros ->; apply elem_of_nil in Ht|lia]. rewrite bits_key_value in Hkey by lia.
  pose proof (pattern_value_positive p Ht) as Hpos. pose proof (pattern_value_range p 0) as Hr. fold (pattern_value p) in Hr.
  assert (Hz : zlen bs = zlen p) by (unfold zlen; lia). rewrite Hz in Hkey.
  assert (Hle : 2 ^ zlen p ≤ 2 ^ (8 - zlen p)) by (apply Z.pow_le_mono_r; unfold zlen; lia).
  assert (0 < 2 ^ (8 - zlen p)) by (apply Z.pow_pos_nonneg; unfold zlen; lia).
  destruct (decide (pattern_value bs ≤ 0)); nia.
Qed.

(** A condition that holds, and the key of its pattern. *)
Definition demo_condition_gateway : Gateway :=
  modify_res_map 1 TABLE 3 (insert_exps [demo_exp EQ 1 1] (clear_default_entry (Gateway_init (H := x86)))).

Lemma conditions_never_met_witness :
  pattern_key [true] = Some (ExactKey 1) ∧
  gateway_execute (H := x86) demo_condition_gateway (PHV_init (H := x86)) =
    Ok (demo_condition_gateway, set_next_op demo_condition_gateway.(default_entry) (PHV_init (H := x86))).
Proof.
  split; [vm_compute; reflexivity|].
  apply (conditions_never_met (H := x86) demo_condition_gateway [demo_exp EQ 1 1] [true]).
  - reflexivity.
  - reflexivity.
  - cbn. lia.
  - reflexivity.
  - repeat constructor.
  - intros k e Hk. exists [true]. split; [reflexivity|]. split; [by left|].
    assert (k = 1) as -> by (unfold demo_condition_gateway, modify_res_map in Hk; cbn [res_next] in Hk; apply lookup_insert_Some in Hk as [[? _]|[_ Hk]]; [done|by vm_compute in Hk]).
    vm_compute. reflexivity.
Defined.
