(* ===== verification/Route.v ===== *)
(** * From a P4 program to the packet

    A P4 program, as the P4 compiler writes it, on its way through all parts: the
    translator, the lexer and the grammar of the compiler, the compiler, the controller,
    and the data plane, and what the switch then does with every packet.  What the
    controller has put on the first processor is computed from the program; the way of a
    packet, whose bytes are any, follows from the lemmas of the data plane. *)

From stdpp Require Import base numbers list gmap strings pretty.
From Stdlib Require Import ZArith Lia Ascii.
From S2P Require Import Prelude Bits Phv Parser Executor Gateway Matcher Pipeline Switch Server Client Controller Configure.
From S2P Require Import Headers Actions Tables Stages Levels Topology Distribution Allocation Gateways Processors TableKey Output.
From S2P Require Import Builder Incremental Json File Task P4Condition P4Program P4Print Lexer Grammar Source.
#[local] Open Scope Z_scope.
#[local] Open Scope string_scope.
#[local] Open Scope list_scope.
(** ** A program: one table that looks the destination of a packet up *)
Definition field_p4 (n : string) (w : Z) : json := JsonArray [str n; JsonInt w; JsonBool false].
Definition state_p4 (n : string) (header : string) (next : json) : json :=
  named n 0 [("parser_ops", JsonArray [obj [("parameters", JsonArray [obj [("type", str "regular"); ("value", str header)]])]]);
    ("transition_key", JsonArray []);
    ("transitions", JsonArray [obj [("mask", JsonNull); ("next_state", next); ("value", str "default")]])].
Definition route_p4 : json := obj [
  ("actions", JsonArray [
    named "MyIngress.drop" 0 [("primitives", JsonArray []); ("runtime_data", JsonArray [])];
    named "MyIngress.forward" 1 [
      ("primitives", JsonArray [obj [("op", str "assign"); ("parameters", JsonArray [
         obj [("type", str "field"); ("value", strs ["standard_metadata"; "egress_spec"])];
         obj [("type", str "hexstr"); ("value", str "0x02")]])]]);
      ("runtime_data", JsonArray [obj [("bitwidth", JsonInt 16); ("name", str "id")]])]]);
  ("header_types", JsonArray [
    obj [("fields", JsonArray []); ("name", str "scalars_0")];
    obj [("fields", JsonArray []); ("name", str "standard_metadata")];
    obj [("fields", JsonArray [field_p4 "dst" 48; field_p4 "src" 48; field_p4 "type" 16]); ("name", str "ethernet_t")];
    obj [("fields", JsonArray [field_p4 "ttl" 8; field_p4 "dst" 32]); ("name", str "ipv4_t")]]);
  ("headers", JsonArray [
    named "scalars" 0 [("header_type", str "scalars_0"); ("metadata", JsonBool true)];
    named "standard_metadata" 1 [("header_type", str "standard_metadata"); ("metadata", JsonBool true)];
    named "ethernet" 2 [("header_type", str "ethernet_t"); ("metadata", JsonBool false)];
    named "ipv4" 3 [("header_type", str "ipv4_t"); ("metadata", JsonBool false)]]);
  ("parsers", JsonArray [named "parser" 0 [("init_state", str "start"); ("parse_states", JsonArray [
    state_p4 "start" "ethernet" (str "ip"); state_p4 "ip" "ipv4" JsonNull])]]);
  ("pipelines", JsonArray [
    named "ingress" 0 [("conditionals", JsonArray []);
      ("init_table", str "MyIngress.route");
      ("tables", JsonArray [named "MyIngress.route" 0 [
        ("action_ids", JsonArray [JsonInt 1; JsonInt 0]); ("actions", strs ["MyIngress.forward"; "MyIngress.drop"]);
        ("default_entry", obj [("action_data", JsonArray []); ("action_id", JsonInt 0)]);
        ("key", JsonArray [obj [("mask", JsonNull); ("match_type", str "exact"); ("name", str "hdr.ipv4.dst"); ("target", strs ["ipv4"; "dst"])]]);
        ("max_size", JsonInt 1024);
        ("next_tables", obj [("MyIngress.forward", JsonNull); ("MyIngress.drop", JsonNull)])]])];
    named "egress" 1 [("conditionals", JsonArray []); ("init_table", JsonNull); ("tables", JsonArray [])]])].

(** The switch that runs a P4 program, with the entries of some commands. *)
Definition switch_of_p4 (p : json) (commands : list (list chars)) : option (res ServerState) :=
  match translate p with
  | Ok s => ast ← parse_source (text s); switch_of ast commands
  | Fault f => Some (Fault f)
  end.

(** ** What the switch is when the program is loaded and has its entry

    The commands give the table one entry: the packets for 1.2.3.4 are forwarded.  All is
    on the first processor; what is on it is read off the switch. *)
#[local] Open Scope Z_scope.
Definition route_commands : list (list chars) := [add_command "route" "forward" 16909060 [1%N]].

Definition of_switch {A} (f : ServerState → Pipeline → Processor → A) : option A :=
  match switch_of_p4 route_p4 route_commands with
  | Some (Ok st) => pl ← st.(ppl); p ← head pl.(procs); Some (f st pl p)
  | _ => None
  end.

Lemma of_switch_eq {A} (f : ServerState → Pipeline → Processor → A) st pl p x :
  switch_of_p4 route_p4 route_commands = Some (Ok st) → st.(ppl) = Some pl → head pl.(procs) = Some p →
  of_switch f = Some x → f st pl p = x.
Proof. unfold of_switch. intros -> Hpl Hp. rewrite Hpl. cbn [mbind option_bind]. rewrite Hp. cbn. congruence. Qed.

(** The packet on its way: its bytes are [q]; as it comes in, and with its headers parsed. *)
Definition route_metas : list HeaderInfo := [mkHeaderInfo 31 20 0; mkHeaderInfo 0 8 20].
Definition before_metas (q : list Z) : PHV :=
  set_ig_if 1 (set_cur_trans_key 65535 (set_cur_state 0 (set_cur_trans_fd_num 1 (set_packet q (PHV_init (H := x86)))))).
Definition with_headers (hs : list HeaderInfo) (q : list Z) : PHV := set_parsed_headers hs (before_metas q).
Definition no_header : HeaderInfo := mkHeaderInfo 0 0 0.
Definition entering : list Z → PHV :=
  with_headers (mkHeaderInfo 0 12064 160 :: replicate 30 no_header ++ [mkHeaderInfo 31 12160 0]).
Definition parsed (q : list Z) : PHV :=
  let phv := with_headers (mkHeaderInfo 0 12064 160 :: mkHeaderInfo 1 0 112 :: mkHeaderInfo 2 112 40 ::
    replicate 28 no_header ++ [mkHeaderInfo 31 12160 0]) q in
  mkPHV q phv.(parsed_headers) (0 :: 1 :: 1 :: replicate 29 0) 1610612736 2 152 1 0 true 2 None 0 false 0 0 0 0
    (mkGateEntry Phv.TABLE 0) 1 0.

Definition route_thread : MatcherThread :=
  mkThread (sram_ptrs true 0) (tcam_ptrs true 0) (<[0 := -1]> {[1 := -1]}) false (replicate 20 0) (1 :: replicate 19 0)
    1 1 1 0 Matcher.EXACT [mkFieldInfo 2 8 32 FIELD] 0 0.
Definition route_actions : list slot :=
  SLive (Executor.mkAction [] 0 [] []) ::
  SLive (Executor.mkAction [Executor.mkPrimitive (Some eg_if_fd) (Node (CONSTANT (mkData 32 [0; 0; 0; 2])) NullNode NullNode)] 1 [] [16]) ::
  replicate 30 SNull.

Definition first_thread (p : Processor) : option MatcherThread := mt ← p.(matcher); head mt.(mts).

(** The row of the entry, and the others. *)
Definition row_of (st : ServerState) (s : Z) : list Z * list Z :=
  (row_key st.(mem) route_thread s <$> seqZ 0 4, row_value st.(mem) route_thread s <$> seqZ 0 16).
Definition entry_row (s : Z) : list Z * list Z :=
  if s =? 10 then ([1; 2; 3; 4], 0 :: 1 :: replicate 14 0) else (replicate 4 0, replicate 16 0).

Lemma route_metas_loaded : of_switch (λ _ pl _, pl.(meta_infos)) = Some route_metas.
Proof. vm_compute. reflexivity. Qed.
Lemma route_parses q : of_switch (λ _ _ p, parser_parse (H := x86) p.(parser) (entering q)) = Some (Ok (parsed q)).
Proof. vm_compute. reflexivity. Qed.
Lemma route_gateway q :
  of_switch (λ _ _ p, snd <$> gateway_execute (H := x86) p.(gateway) (parsed q)) = Some (Ok (parsed q)).
Proof. vm_compute. reflexivity. Qed.
Lemma route_thread_loaded : of_switch (λ _ _ p, first_thread p) = Some (Some route_thread).
Proof. vm_compute. reflexivity. Qed.
Lemma route_actions_loaded : of_switch (λ _ _ p, _actions p.(exe)) = Some route_actions.
Proof. vm_compute. reflexivity. Qed.
Lemma route_memory : of_switch (λ st _ _, zlen st.(mem).(srams)) = Some 80.
Proof. vm_compute. reflexivity. Qed.
Lemma route_rows :
  of_switch (λ st _ _, forallb (λ s, bool_decide (row_of st s = entry_row s)) (seqZ 0 1021)) = Some true.
Proof. vm_compute. reflexivity. Qed.

Lemma bytes_01 : bytes [0; 1].
Proof. apply Forall_cons. split; [lia|]. apply Forall_cons. split; [lia|]. apply Forall_nil_2. Qed.

(** A packet enters with its bytes. *)
Lemma route_enters pkt pl :
  bytes pkt → zlen pkt ≤ 1500 → pl.(meta_infos) = route_metas →
  ∃ q, init_phv (H := x86) pkt (zlen pkt) 1 pl = Ok (entering q) ∧ bytes q ∧ zlen q = 1600 ∧
    (∀ i, 0 ≤ i < zlen pkt → at_ q i = at_ pkt i) ∧ field_val q 12169 9 = 0.
Proof.
  intros Hb Hlen Hm. pose proof (zlen_nonneg pkt). pose proof (PHV_init_wf (H := x86)) as Hwf0.
  pose proof (wf_packet_len _ Hwf0) as Hpl. revert Hpl. change (FRONT_HEADER_LEN + META_LEN) with 1600. intros Hpl.
  destruct (memcpy_spec (packet (PHV_init (H := x86))) 0 pkt 0 (zlen pkt)) as (c & Hc & Hcl & Hat); [lia..|].
  rewrite Hpl in *. assert (Hcm : ∀ i, 0 ≤ i → at_ (clear_meta c) i = if i <? 1500 then at_ c i else 0).
  { intros i Hi. by apply at_clear_meta. }
  assert (Hl : zlen (clear_meta c) = 1600).
  { unfold clear_meta. rewrite zlen_app, zlen_replicate. unfold zlen in *. rewrite length_take.
    change FRONT_HEADER_LEN with 1500. change META_LEN with 100. lia. }
  assert (Hbq : bytes (clear_meta c)).
  { apply bytes_of_at. intros i Hi. rewrite Hcm by lia. zcmp.
    rewrite Hat by lia. case_match; apply bytes_at; [done|apply (wf_packet _ Hwf0)]. }
  destruct (modify_phv_field_set ig_if_fd (mkData 9 [0; 1]) (entering (clear_meta c)) (mkHeaderInfo 31 12160 0))
    as (q & Hq & Hset); [reflexivity|done|by apply bytes_01|done|done|done|done|done|done|done| |].
  { change (packet (entering (clear_meta c))) with (clear_meta c). rewrite Hl. cbn. lia. }
  change (packet (entering (clear_meta c))) with (clear_meta c) in Hset. cbn [hdr_offset internal_offset ig_if_fd fd_len val] in Hset.
  change (be_val [0; 1]) with 1 in Hset. change (12160 + 0) with 12160 in Hset.
  exists q. split; [|split_and!].
  - unfold init_phv. rewrite Hc. cbn [mbind res_mbind]. unfold get_metadata_header. rewrite Hm. cbn zeta.
    change (modify_phv_with_data ig_if_fd (mkData 9 [0; 1]) (entering (clear_meta c)) = Ok (entering q)). exact Hq.
  - apply Hset.
  - rewrite <- Hl. apply Hset.
  - intros i Hi. rewrite <- !field_val_whole by (done || apply Hset).
    rewrite (field_set_other (clear_meta c) 12160 9 1 q) by (done || lia). rewrite !field_val_whole by done.
    rewrite Hcm, Hat by lia. zcmp. f_equal. lia.
  - rewrite (field_set_other (clear_meta c) 12160 9 1 q) by (done || lia). symmetry. apply field_val_unique; [lia|lia|].
    intros i Hi. rewrite Z.bits_0. unfold bit_at. rewrite Hcm by dlia.
    rewrite (proj2 (Z.ltb_ge _ _)) by dlia. by rewrite Z.bits_0.
Qed.

(** What the table holds for the sum of a key of four bytes. *)
Lemma route_row st pl p s :
  switch_of_p4 route_p4 route_commands = Some (Ok st) → st.(ppl) = Some pl → head pl.(procs) = Some p →
  0 ≤ s ≤ 1020 → row_of st s = entry_row s.
Proof.
  intros Hst Hpl Hp Hs. pose proof (of_switch_eq _ _ _ _ _ Hst Hpl Hp route_rows) as Hall. cbn beta in Hall.
  apply Is_true_true_2, forallb_True in Hall. rewrite Forall_forall in Hall.
  apply (bool_decide_unpack _), Hall, elem_of_seqZ. lia.
Qed.

Lemma route_table_wf m : zlen m.(srams) = 80 → exact_wf m route_thread.
Proof.
  intros Hm. split; try done.
  - split; [done|cbn; split; [lia|done]| |]; cbn [key_width Matcher.depth route_thread]; [intros i Hi|intros i j Hi Hj].
    + assert (i = 0) as -> by lia. done.
    + lia.
  - split; [done|cbn; split; [lia|done]| |]; cbn [sram_slice_value_width Matcher.depth route_thread]; [intros i Hi|intros i j Hi Hj].
    + assert (i = 0) as -> by lia. done.
    + lia.
  - cbn [key_width sram_slice_value_width Matcher.depth route_thread]. intros i j Hi Hj.
    assert (i = 0) as -> by lia. assert (j = 0) as -> by lia. done.
Qed.

(** The address a packet is looked up by. *)
Definition destination (q : list Z) : list Z := take 4 (drop 15 q).

Lemma parsed_wf q : bytes q → zlen q = 1600 → phv_wf (parsed q).
Proof.
  intros Hb Hl. split; cbn; try done; [|].
  - by repeat (apply Forall_cons; split; [done|]).
  - by repeat (apply Forall_cons; split; [auto|]).
Qed.

(** A list is what its places hold. *)
Lemma list_of_places (f : Z → Z) l n : zlen l = Z.of_nat n → (∀ k, 0 ≤ k < Z.of_nat n → at_ l k = f k) → l = f <$> seqZ 0 (Z.of_nat n).
Proof.
  unfold zlen. intros Hl Hat. apply list_eq_same_length with n; [rewrite length_fmap, length_seqZ; lia|lia|].
  intros i x y Hi Hx Hy. rewrite list_lookup_fmap, lookup_seqZ_lt in Hy by lia. injection Hy as <-.
  rewrite <- Hat by lia. unfold at_. replace (Z.to_nat (0 + Z.of_nat i)) with i by lia. symmetry. by apply list_lookup_total_correct.
Qed.

Lemma destination_at q i : 19 ≤ zlen q → 0 ≤ i < 4 → at_ (destination q) i = at_ q (15 + i).
Proof.
  intros Hq Hi. unfold at_, destination. rewrite lookup_total_take, decide_True by lia.
  rewrite lookup_total_drop. f_equal. lia.
Qed.

Lemma destination_len q : 19 ≤ zlen q → zlen (destination q) = 4.
Proof. unfold zlen, destination. intros. rewrite length_take, length_drop. lia. Qed.

(** The key of the packet is its destination. *)
Lemma destination_val q : bytes q → 19 ≤ zlen q → be_val (destination q) = field_val q 120 32.
Proof.
  intros Hb Hq. rewrite be_val_field by (by apply Forall_take, Forall_drop). rewrite destination_len by done.
  apply field_val_ext. intros j Hj. unfold bit_at. rewrite destination_at by dlia. f_equal; [f_equal|]; dlia.
Qed.

(** What the lookup leaves. *)
Definition looked_up (action len : Z) (value : option (list Z)) (hit : bool) (q : list Z) : PHV :=
  set_next_action_id action (set_match_value_len len (set_match_value value (set_hit hit (parsed q)))).

Lemma route_match st q :
  (∀ s, 0 ≤ s ≤ 1020 → row_of st s = entry_row s) → zlen st.(mem).(srams) = 80 → bytes q → zlen q = 1600 →
  if decide (destination q = [1; 2; 3; 4])
  then generate_match_key_and_match (H := x86) st.(mem) route_thread (parsed q) =
    Ok (looked_up 1 16 (Some (0 :: 1 :: replicate 14 0)) true q)
  else ∃ len value hit, generate_match_key_and_match (H := x86) st.(mem) route_thread (parsed q) = Ok (looked_up 0 len value hit q).
Proof.
  intros Hrows Hm Hb Hl.
  destruct (row_outcome (H := x86) st.(mem) route_thread (mkFieldInfo 2 8 32 FIELD) (parsed q)) as (key & Hkb & Hkl & Hkv & Hin & Hout);
    [by apply route_table_wf|by apply parsed_wf|done|done|done|done|done|done|done|].
  change (zlen key = 4) in Hkl. cbn zeta in Hin, Hout.
  change (be_val key = field_val q 120 32 * 1) in Hkv. rewrite Z.mul_1_r, <- destination_val in Hkv by (done || lia).
  apply be_val_inj in Hkv; [|done|by apply Forall_take, Forall_drop|by rewrite destination_len by lia]. rewrite <- Hkv. clear Hkv.
  set (s := sum_of key) in *. assert (Hs : 0 ≤ s ≤ 1020).
  { destruct key as [|a [|b [|c [|d [|]]]]]; try (cbn in Hkl; unfold zlen in Hkl; cbn in Hkl; lia).
    unfold s, sum_of. repeat (apply Forall_cons in Hkb as [? Hkb]). cbn [foldr]. rewrite u16_small by lia. lia. }
  assert (Es : key = [1; 2; 3; 4] → s = 10) by (unfold s; by intros ->). clearbody s.
  specialize (Hrows s Hs). unfold row_of in Hrows.
  assert (Hst : (∀ k, 0 ≤ k < zlen key → at_ key k = row_key (mem st) route_thread s k) ↔ key = (entry_row s).1).
  { rewrite <- Hrows. cbn [fst]. rewrite Hkl. split.
    - intros Hk. by apply (list_of_places _ _ 4).
    - intros -> k Hk. unfold at_. apply list_lookup_total_correct. rewrite list_lookup_fmap, lookup_seqZ_lt by lia.
      cbn. do 2 f_equal. lia. }
  assert (Hval : ∀ ov, zlen ov = 1 * SRAM_ROW → (∀ k, 0 ≤ k < zlen ov → at_ ov k = row_value (mem st) route_thread s k) → ov = (entry_row s).2).
  { intros ov Hol Hov. rewrite <- Hrows. cbn [snd]. change (1 * SRAM_ROW) with 16 in Hol. rewrite Hol in Hov.
    by apply (list_of_places _ _ 16). }
  assert (Hact : row_value (mem st) route_thread s 1 + 256 * row_value (mem st) route_thread s 0 = if s =? 10 then 1 else 0).
  { assert (H2 : (row_value (mem st) route_thread s 1, row_value (mem st) route_thread s 0) = (at_ (entry_row s).2 1, at_ (entry_row s).2 0)).
    { by rewrite <- Hrows. }
    unfold entry_row in H2. destruct (s =? 10); injection H2 as -> ->; done. }
  rewrite Hact in Hin. clear Hact. unfold looked_up. case_decide as Hd.
  - specialize (Es Hd). subst s. destruct Hin as (ov & Hol & Hov & ->); [apply Hst, Hd|].
    rewrite (Hval ov Hol Hov). done.
  - destruct (decide (key = (entry_row s).1)) as [Hk|Hk].
    + destruct Hin as (ov & Hol & Hov & ->); [by apply Hst|]. unfold entry_row in Hk. destruct (s =? 10); [done|]. eauto.
    + rewrite Hout by (by rewrite Hst). exists 0, None, false. done.
Qed.

(** ** From the interface to the interface

    The action on the packet: the one of the entry sets the port, the other one does
    nothing. *)
Definition entry_value : list Z := 0 :: 1 :: replicate 14 0.
Definition route_action (params : list ActionParam) : Action :=
  Executor.mkAction [Executor.mkPrimitive (Some eg_if_fd) (Node (CONSTANT (mkData 32 [0; 0; 0; 2])) NullNode NullNode)] 1 params [16].

Lemma route_forward_run phv :
  phv.(next_action_id) = 1 → phv.(match_value) = Some entry_value →
  executor_execute (H := x86) (mkExecutor route_actions) phv =
    phv ← modify_field_with_data eg_if_fd (mkData 32 [0; 0; 0; 2]) phv;
    Ok (mkExecutor (<[1%nat := SLive (route_action [mkActionParam 16 [0; 0]])]> route_actions), phv).
Proof.
  intros Ha Hv. unfold executor_execute. rewrite Ha, Hv.
  change (rd (_actions (mkExecutor route_actions)) 1) with (@Ok slot (SLive (route_action []))). cbn [mbind res_mbind deref].
  assert (Hp : set_action_paras (H := x86) (Some entry_value) (route_action []) = Ok (route_action [mkActionParam 16 [0; 0]])) by (vm_compute; reflexivity).
  rewrite Hp. cbn [mbind res_mbind].
  assert (Hw : wr (_actions (mkExecutor route_actions)) 1 (SLive (route_action [mkActionParam 16 [0; 0]])) =
    Ok (<[1%nat := SLive (route_action [mkActionParam 16 [0; 0]])]> route_actions)) by reflexivity.
  rewrite Hw. cbn [mbind res_mbind]. unfold action_execute, route_action. cbn [prims action_paras for_each].
  unfold prim_run. cbn [root lvalue exp_execute get_op_val_any mret res_mret mbind res_mbind].
  by destruct (modify_field_with_data _ _ _).
Qed.

Lemma route_drop_run phv : phv.(next_action_id) = 0 →
  executor_execute (H := x86) (mkExecutor route_actions) phv = Ok (mkExecutor route_actions, phv).
Proof.
  intros Ha. unfold executor_execute. rewrite Ha.
  change (rd (_actions (mkExecutor route_actions)) 0) with (@Ok slot (SLive (Executor.mkAction [] 0 [] []))). cbn [mbind res_mbind deref].
  by destruct (match_value phv).
Qed.

Lemma bytes_of_two : bytes [0; 0; 0; 2].
Proof. repeat (apply Forall_cons; split; [lia|]). apply Forall_nil_2. Qed.

Lemma looked_up_wf n action len value hit q :
  bytes q → zlen q = 1600 → phv_wf (set_next_proc_id n (looked_up action len value hit q)).
Proof.
  intros Hb Hl. destruct (parsed_wf q Hb Hl) as [H1 H2 H3 H4 H5 H6 H7 H8 H9].
  split; [exact H1|exact H2|exact H3|exact H4|exact H5|exact H6|exact H7|exact H8|exact H9].
Qed.

Lemma egress_of phv : header_of phv 31 = Ok (mkHeaderInfo 31 12160 0) → bytes phv.(packet) → zlen phv.(packet) = 1600 →
  get_field_value (H := x86) eg_if_fd phv = Ok (field_val phv.(packet) 12169 9).
Proof.
  intros Hh Hb Hl. rewrite (get_field_value_x86 eg_if_fd phv _ Hh Hb); [done|done|done|done| |done]. rewrite Hl. done.
Qed.

(** What comes out of the first processor, where the way of the packet ends. *)
Lemma route_processed st pl p q :
  switch_of_p4 route_p4 route_commands = Some (Ok st) → st.(ppl) = Some pl → head pl.(procs) = Some p →
  bytes q → zlen q = 1600 → field_val q 12169 9 = 0 →
  ∃ p' phv, process_packet (H := x86) st.(mem) p (entering q) = Ok (p', phv) ∧ phv.(next_proc_id) = -1 ∧ phv_wf phv ∧
    get_field_value (H := x86) eg_if_fd phv = Ok (if decide (destination q = [1; 2; 3; 4]) then 2 else 0) ∧
    ∀ i, 0 ≤ i < 1500 → at_ phv.(packet) i = at_ q i.
Proof.
  intros Hst Hpl Hp Hb Hl Hz.
  pose proof (of_switch_eq _ _ _ _ _ Hst Hpl Hp (route_parses q)) as Hparse.
  pose proof (of_switch_eq _ _ _ _ _ Hst Hpl Hp (route_gateway q)) as Hgate.
  pose proof (of_switch_eq _ _ _ _ _ Hst Hpl Hp route_thread_loaded) as Hth.
  pose proof (of_switch_eq _ _ _ _ _ Hst Hpl Hp route_actions_loaded) as Hacs.
  pose proof (of_switch_eq _ _ _ _ _ Hst Hpl Hp route_memory) as Hm.
  cbn beta in Hparse, Hgate, Hth, Hacs, Hm. unfold first_thread in Hth.
  destruct (matcher p) as [mt|] eqn:Hmt; [|done]. cbn in Hth. destruct (mts mt) as [|th0 ths] eqn:Hths; [done|].
  injection Hth as ->. destruct (gateway_execute (gateway p) (parsed q)) as [[g phv0]|] eqn:Hg; [|done].
  cbn in Hgate. injection Hgate as ->.
  assert (Hex : exe p = mkExecutor route_actions) by (rewrite <- Hacs; by destruct (exe p)).
  assert (Htable : ∀ phv x phv', generate_match_key_and_match (H := x86) st.(mem) route_thread (parsed q) = Ok phv →
    phv.(next_action_id) = 0 ∨ phv.(next_action_id) = 1 →
    executor_execute (H := x86) (mkExecutor route_actions) (set_next_proc_id (-1) phv) = Ok (x, phv') →
    ∃ p', process_packet (H := x86) st.(mem) p (entering q) = Ok (p', phv')).
  { intros phv x phv' Hgen Hact Hexe. eexists. unfold process_packet. rewrite Hparse. cbn [mbind res_mbind].
    change (next_proc_id (parsed q) =? -1) with false. cbn iota. rewrite Hg. cbn [mbind res_mbind].
    change (ge_type (next_op (parsed q))) with Phv.TABLE. cbn iota. unfold process_table.
    change (ge_val (next_op (parsed q))) with 0. unfold the_matcher. cbn [matcher with_gateway]. rewrite Hmt.
    cbn [mbind res_mbind]. unfold matcher_execute. rewrite Hths. change (rd (route_thread :: ths) 0) with (Ok route_thread).
    cbn [mbind res_mbind]. change (no_table route_thread) with false. cbn iota. rewrite Hgen. cbn [mbind res_mbind].
    assert (Hmap : map_index (action_proc_map route_thread) (next_action_id phv) = (action_proc_map route_thread, -1)).
    { by destruct Hact as [-> | ->]. }
    rewrite Hmap. rewrite wr_ok by (unfold zlen; cbn [length]; lia). cbn [mbind res_mbind].
    cbn [exe with_gateway]. rewrite Hex, Hexe. reflexivity. }
  pose proof (route_match st q (λ s, route_row st pl p s Hst Hpl Hp) Hm Hb Hl) as Hmatch.
  destruct (decide (destination q = [1; 2; 3; 4])) as [Hd|Hd].
  - set (phv := set_next_proc_id (-1) (looked_up 1 16 (Some entry_value) true q)).
    destruct (modify_field_set eg_if_fd (mkData 32 [0; 0; 0; 2]) phv (mkHeaderInfo 31 12160 0)) as (q' & Hq & Hset);
      [reflexivity|done|apply bytes_of_two|done|done|done|change (packet phv) with q; by rewrite Hl|done|done|done|].
    change (field_set q 12169 9 2 q') in Hset.
    pose proof (route_forward_run phv eq_refl eq_refl) as Hexe. rewrite Hq in Hexe. cbn [mbind res_mbind] in Hexe.
    edestruct Htable as [p' Hrun]; [exact Hmatch|by right|exact Hexe|].
    exists p', (set_packet q' phv). split; [exact Hrun|].
    assert (Hw : phv_wf (set_packet q' phv)).
    { apply set_packet_wf; [apply Hset|apply Hset|]. by apply looked_up_wf. }
    split; [reflexivity|]. split; [exact Hw|]. split.
    + rewrite egress_of; [|reflexivity|apply Hset|rewrite <- Hl; apply Hset].
      change (packet (set_packet q' phv)) with q'. rewrite (field_set_same q 12169 9 2 q'); [reflexivity|lia|lia|lia|lia|exact Hset].
    + intros i Hi. change (packet (set_packet q' phv)) with q'.
      assert (Hbq : bytes q') by apply Hset. rewrite <- (field_val_whole q' i Hbq), <- (field_val_whole q i Hb).
      apply (field_set_other q 12169 9 2 q'); [lia|lia|lia|lia|exact Hset].
  - destruct Hmatch as (len & value & hit & Hmatch).
    edestruct Htable as [p' Hrun]; [exact Hmatch|by left|by apply route_drop_run|].
    eexists p', _. split; [exact Hrun|]. split; [reflexivity|]. split; [by apply looked_up_wf|]. split; [|reflexivity].
    rewrite egress_of; [|reflexivity|exact Hb|exact Hl]. change (Ok (field_val q 12169 9) = Ok 0). by rewrite Hz.
Qed.

Lemma route_loaded :
  ∃ st pl p, switch_of_p4 route_p4 route_commands = Some (Ok st) ∧ st.(ppl) = Some pl ∧ head pl.(procs) = Some p.
Proof.
  pose proof route_memory as Hm. unfold of_switch in Hm.
  destruct (switch_of_p4 route_p4 route_commands) as [[st|]|]; [|discriminate Hm..].
  destruct (ppl st) as [pl|] eqn:Hpl; [|discriminate Hm]. cbn [mbind option_bind] in Hm.
  destruct (head (procs pl)) as [p|] eqn:Hp; [|discriminate Hm]. by exists st, pl, p.
Qed.

(** Packets that agree in a stretch. *)
Lemma take_same (p q : list Z) n :
  0 ≤ n → n ≤ zlen p → n ≤ zlen q → (∀ i, 0 ≤ i < n → at_ p i = at_ q i) → take (Z.to_nat n) p = take (Z.to_nat n) q.
Proof.
  intros Hn Hp Hq Hat. unfold zlen in *. apply list_eq_same_length with (Z.to_nat n); [rewrite length_take; lia..|].
  intros i x y Hi Hx Hy. apply lookup_take_Some in Hx as [Hx _], Hy as [Hy _].
  specialize (Hat (Z.of_nat i) ltac:(lia)). unfold at_ in Hat. rewrite Nat2Z.id in Hat.
  by rewrite (list_lookup_total_correct _ _ _ Hx), (list_lookup_total_correct _ _ _ Hy) in Hat.
Qed.

Lemma destination_same p q :
  19 ≤ zlen p → 19 ≤ zlen q → (∀ i, 0 ≤ i < 19 → at_ p i = at_ q i) → destination p = destination q.
Proof.
  intros Hp Hq Hat. unfold destination. rewrite !take_drop_commute. f_equal. apply (take_same p q 19); [lia|done..].
Qed.

Lemma demo_emits phv pkt : 12 ≤ zlen pkt → zlen pkt ≤ zlen phv.(packet) →
  ∃ buf, emit (H := x86) demo_global phv (zlen pkt) 2 pkt = Ok (buf, sent_frames demo_global.(if_macs) phv.(packet) (zlen pkt)
    (filter (λ i, Z.testbit 2 i = true) (seqZ 0 demo_global.(num_if))) (take (Z.to_nat (zlen pkt)) pkt)).
Proof.
  intros H12 Hlen. apply (emit_frames (H := x86) demo_global phv (zlen pkt) 2 pkt); [done|done| |lia|lia|lia|lia].
  by repeat (apply Forall_cons; split; [reflexivity|]).
Qed.

(** What is sent is the packet that came in, with the address of the second interface. *)
Lemma second_interface (p pkt : list Z) :
  12 ≤ zlen pkt → zlen pkt ≤ 1500 → zlen p = 1600 → (∀ i, 0 ≤ i < zlen pkt → at_ p i = at_ pkt i) →
  sent_frames demo_global.(if_macs) p (zlen pkt) (filter (λ i, Z.testbit 2 i = true) (seqZ 0 demo_global.(num_if))) (take (Z.to_nat (zlen pkt)) pkt) =
    [(1, take 6 pkt ++ [2; 0; 0; 0; 0; 2] ++ drop 12 pkt)].
Proof.
  intros H12 Hlen Hl Hat. change (filter _ (seqZ 0 (num_if demo_global))) with [1].
  change (sent_frames _ p (zlen pkt) [1] _) with [(1, frame [2; 0; 0; 0; 0; 2] p (zlen pkt))]. unfold frame.
  rewrite (take_same p pkt (zlen pkt)) by (done || lia). rewrite (take_ge pkt) by (unfold zlen; lia).
  change 6%nat with (Z.to_nat 6). rewrite (take_same p pkt 6); [done|lia|lia|lia|]. intros i Hi. apply Hat. lia.
Qed.

(** C4. From a P4 program to the packet, for every packet: a P4 program that looks the
    destination of a packet up in a table is translated to a text; lexer and grammar make a
    tree of the text, the compiler a file of the tree, and the controller configures the
    data plane with the file and adds an entry for 1.2.3.4 that a command describes.  From
    then on the switch sends any packet for 1.2.3.4 that comes in on interface 1, as the
    action of the program says, through the second interface and no other, unchanged but
    for its source, which is the address of this interface; a packet for any other
    destination is not sent at all, although the table finds the destination 0.0.0.0 in
    its empty rows.  This is so of all packets that have both headers of the program (19
    bytes) and at most 1500 bytes. *)
Theorem p4_program_forwards pkt : bytes pkt → 19 ≤ zlen pkt ≤ 1500 →
  match switch_of_p4 route_p4 route_commands with
  | Some (Ok st) => sends st pkt = Some (Ok
      (if decide (destination pkt = [1; 2; 3; 4]) then [(1, take 6 pkt ++ [2; 0; 0; 0; 0; 2] ++ drop 12 pkt)] else []))
  | _ => False
  end.
Proof.
  intros Hb Hlen. destruct route_loaded as (st & pl & p & Hst & Hpl & Hp). rewrite Hst.
  pose proof (of_switch_eq _ _ _ _ _ Hst Hpl Hp route_metas_loaded) as Hm. cbn beta in Hm.
  destruct (route_enters pkt pl Hb) as (q & Hin & Hqb & Hql & Hq & Hz); [lia|done|].
  destruct (route_processed st pl p q Hst Hpl Hp Hqb Hql Hz) as (p' & phv & Hrun & Hend & Hwf & Hout & Hat).
  assert (Hrd : rd pl.(procs) (entering q).(next_proc_id) = Ok p).
  { change (next_proc_id (entering q)) with 0. destruct (procs pl) as [|p0 ps]; [discriminate Hp|].
    injection Hp as ->. reflexivity. }
  destruct (execute_last (H := x86) 3 st.(mem) pl (entering q) p p' phv) as (pl' & Hexe);
    [lia|exact Hrd|by change (next_proc_id (entering q)) with 0|exact Hrun|exact Hend|].
  assert (Hdst : destination q = destination pkt) by (apply destination_same; [lia|lia|]; intros i Hi; apply Hq; lia).
  rewrite Hdst in Hout. unfold sends, switch_turn. rewrite Hpl, Hin, Hexe. cbn [mbind res_mbind]. rewrite Hout. cbn [mbind res_mbind].
  destruct (decide (destination pkt = [1; 2; 3; 4])); [|reflexivity].
  pose proof (wf_packet_len _ Hwf) as Hpk. change (FRONT_HEADER_LEN + META_LEN) with 1600 in Hpk.
  destruct (demo_emits phv pkt) as (buf & He); [lia|lia|]. change (2 =? 0) with false. cbn iota. rewrite He. cbn [mbind res_mbind mret res_mret].
  rewrite second_interface; [reflexivity|lia|lia|exact Hpk|]. intros i Hi. rewrite Hat by lia. apply Hq. lia.
Qed.

Lemma p4_program_forwards_witness :
  match switch_of_p4 route_p4 route_commands with
  | Some (Ok st) =>
      sends st (demo_route_packet 64 [1; 2; 3; 4]) = Some (Ok
        (if decide (destination (demo_route_packet 64 [1; 2; 3; 4]) = [1; 2; 3; 4])
         then [(1, take 6 (demo_route_packet 64 [1; 2; 3; 4]) ++ [2; 0; 0; 0; 0; 2] ++ drop 12 (demo_route_packet 64 [1; 2; 3; 4]))] else []))
  | _ => False
  end.
Proof.
  apply (p4_program_forwards (demo_route_packet 64 [1; 2; 3; 4])); [|by vm_compute].
  unfold demo_route_packet. repeat (apply Forall_cons; split; [lia|]). apply Forall_nil_2.
Defined.
