(* ===== verification/OldMemory.v ===== *)
(** * The old switch: outcomes, physical memories and bitmaps
    (ipbm-old/src/dataplane: defs.h, table.cpp, bitmap.h)

    The old switch keeps all its tables in eight static arrays of bytes, four called
    SRAM and four called TCAM.  A table is a region of one of them; buffers are
    pointers into them.  This file holds the arrays, what can come of a computation of
    the old switch, and the bitmaps, which are bytes of a table's region. *)

From stdpp Require Import base numbers list gmap strings.
From Stdlib Require Import ZArith Lia.
From S2P Require Import Prelude.

#[local] Open Scope Z_scope.

(** ** Outcomes

    The old switch reports errors with exceptions and with assertions.  An exception
    is a [std::runtime_error], a [std::overflow_error], which is a runtime error too,
    or a [std::out_of_range], which is not. *)
Inductive exn : Set :=
| runtime_error (what : string)
| overflow_error (what : string)
| out_of_range (what : string).

#[export] Instance exn_eq_dec : EqDecision exn.
Proof. solve_decision. Defined.

Inductive outcome (A : Type) : Type :=
| Value (a : A)              (** the computation returns *)
| Throws (e : exn)           (** an exception leaves it *)
| Asserts                    (** an assertion fails: the process aborts *)
| Undefined (f : fault)      (** C++ does not say what happens *)
| Running.                   (** a loop has not ended within the fuel of the model *)
Arguments Value {_} _.
Arguments Throws {_} _.
Arguments Asserts {_}.
Arguments Undefined {_} _.
Arguments Running {_}.

#[export] Instance outcome_mret : MRet outcome := λ _ a, Value a.
#[export] Instance outcome_mbind : MBind outcome := λ _ _ k m,
  match m with
  | Value a => k a
  | Throws e => Throws e
  | Asserts => Asserts
  | Undefined f => Undefined f
  | Running => Running
  end.
#[export] Instance outcome_fmap : FMap outcome := λ _ _ g m,
  match m with
  | Value a => Value (g a)
  | Throws e => Throws e
  | Asserts => Asserts
  | Undefined f => Undefined f
  | Running => Running
  end.

(** [assert(b)]: the build leaves assertions in, its release flags are [-O3] alone. *)
Definition asserts (b : bool) : outcome () := if b then Value () else Asserts.

(** An access that the model of arrays checks. *)
Definition lift {A} (m : res A) : outcome A :=
  match m with Ok a => Value a | Fault f => Undefined f end.

(** [catch (const std::runtime_error &)], and [catch (std::exception &)]. *)
Definition is_runtime_error (e : exn) : bool :=
  match e with runtime_error _ | overflow_error _ => true | out_of_range _ => false end.

Lemma value_bind {A B} (m : outcome A) (k : A → outcome B) a : m = Value a → m ≫= k = k a.
Proof. by intros ->. Qed.

Lemma value_bind_inv {A B} (m : outcome A) (k : A → outcome B) b :
  m ≫= k = Value b → ∃ a, m = Value a ∧ k a = Value b.
Proof. destruct m; [eauto|done..]. Qed.

Lemma lift_value {A} (m : res A) a : lift m = Value a ↔ m = Ok a.
Proof. destruct m; cbn; split; by intros [= ->]. Qed.

(** Take apart an equation [... = Value _]. *)
Ltac inv_value :=
  repeat match goal with
  | H : mret _ = Value _ |- _ => injection H; clear H; intros; subst
  | H : Value _ = Value _ |- _ => injection H; clear H; intros; subst
  | H : Throws _ = Value _ |- _ => discriminate H
  | H : Asserts = Value _ |- _ => discriminate H
  | H : Undefined _ = Value _ |- _ => discriminate H
  | H : Running = Value _ |- _ => discriminate H
  | H : lift _ = Value _ |- _ => apply lift_value in H
  | H : (_ ≫= _) = Value _ |- _ =>
      let x := fresh "x" in let Hx := fresh "Hv" in
      apply value_bind_inv in H as (x & Hx & H)
  end.

(** A pass over a vector whose body can throw. *)
Fixpoint each {A S} (body : A → S → outcome S) (l : list A) (s : S) : outcome S :=
  match l with
  | [] => Value s
  | x :: l' => s' ← body x s; each body l' s'
  end.

(** A computation that has ended, in whatever way. *)
Definition ends {A} (m : outcome A) : Prop := m ≠ Running.

Lemma ends_bind {A B} (m : outcome A) (k : A → outcome B) :
  ends m → (∀ a, m = Value a → ends (k a)) → ends (m ≫= k).
Proof. unfold ends. destruct m; cbn; try done. intros _ H. by apply H. Qed.

Lemma ends_lift {A} (m : res A) : ends (lift m).
Proof. by destruct m. Qed.

Lemma ends_fmap {A B} (g : A → B) (m : outcome A) : ends m → ends (g <$> m).
Proof. unfold ends. by destruct m. Qed.

Lemma ends_each {A S} (body : A → S → outcome S) l s : (∀ x t, ends (body x t)) → ends (each body l s).
Proof. intros Hb. revert s. induction l as [|x l IH]; intros s; [done|]. apply ends_bind; [apply Hb|]. intros t _. apply IH. Qed.

(** ** Words of bytes, as x86 stores them *)
Fixpoint le_word (bs : list Z) : Z :=
  match bs with [] => 0 | b :: bs' => b + 256 * le_word bs' end.
Fixpoint le_bytes (n : nat) (x : Z) : list Z :=
  match n with O => [] | S n' => x mod 256 :: le_bytes n' (x / 256) end.

Lemma le_bytes_length n x : length (le_bytes n x) = n.
Proof. revert x. induction n as [|n IH]; intros x; cbn; [done|]. by rewrite IH. Qed.

Lemma le_bytes_bytes n x : bytes (le_bytes n x).
Proof. revert x. induction n as [|n IH]; intros x; constructor; [dlia|apply IH]. Qed.

Lemma le_word_range bs : bytes bs → 0 ≤ le_word bs < 256 ^ zlen bs.
Proof.
  unfold zlen. induction 1 as [|b bs Hb _ IH]; [done|]. cbn [length le_word].
  rewrite Nat2Z.inj_succ, Z.pow_succ_r by lia. lia.
Qed.

Lemma le_word_bytes n x : le_word (le_bytes n x) = x mod 256 ^ Z.of_nat n.
Proof.
  revert x. induction n as [|n IH]; intros x; cbn [le_bytes le_word]; [by rewrite Z.mod_1_r|].
  rewrite IH, Nat2Z.inj_succ, Z.pow_succ_r by lia. pose proof (Z.pow_pos_nonneg 256 (Z.of_nat n) ltac:(lia) ltac:(lia)).
  symmetry. apply Z.rem_mul_r; lia.
Qed.

Lemma le_bytes_word bs : bytes bs → le_bytes (length bs) (le_word bs) = bs.
Proof.
  induction 1 as [|b bs Hb _ IH]; [done|]. cbn beta in Hb. cbn [length le_word le_bytes]. f_equal; [dlia|].
  replace ((b + 256 * le_word bs) / 256) with (le_word bs) by dlia. done.
Qed.

(** [try { m } catch (std::exception &) { h }]; a computation that throws has left
    the state it was given as it was, where this is used. *)
Definition try_catch {A} (m : outcome A) (h : exn → outcome A) : outcome A :=
  match m with Throws e => h e | _ => m end.

(** ** The physical memories (table.cpp) *)
Inductive MemType : Set := MEM_SRAM | MEM_TCAM.

#[export] Instance mem_type_eq_dec : EqDecision MemType.
Proof. solve_decision. Defined.
#[export] Instance mem_type_countable : Countable MemType.
Proof.
  refine (inj_countable' (λ k, match k with MEM_SRAM => true | MEM_TCAM => false end)
    (λ b : bool, if b then MEM_SRAM else MEM_TCAM) _). by intros [].
Defined.

Definition NUM_PHYSICAL_SRAM : Z := 4.
Definition PHYSICAL_SRAM_CAPACITY : Z := 1024 * 1024.
Definition NUM_PHYSICAL_TCAM : Z := 4.
Definition PHYSICAL_TCAM_CAPACITY : Z := 1024 * 1024.

(** A [Buffer] points to a byte of a physical memory. *)
Record Buffer : Type := mkBuffer { buf_mem : MemType; buf_phy : Z; buf_pos : Z }.

#[export] Instance buffer_eq_dec : EqDecision Buffer.
Proof. solve_decision. Defined.

Definition shift (b : Buffer) (n : Z) : Buffer := mkBuffer b.(buf_mem) b.(buf_phy) (b.(buf_pos) + n).

(** [cells] has the bytes that were stored; the arrays are static, so that every other
    byte is zero.  The tops are the first bytes no table has. *)
Record Memory : Type := mkMemory {
  cells : gmap (MemType * Z * Z) Z;
  physical_sram_top : list Z;
  physical_tcam_top : list Z
}.

Definition empty_memory : Memory := mkMemory ∅ (replicate 4 0) (replicate 4 0).

Definition with_cells (c : gmap (MemType * Z * Z) Z) (m : Memory) : Memory :=
  mkMemory c m.(physical_sram_top) m.(physical_tcam_top).

Definition capacity (k : MemType) : Z :=
  match k with MEM_SRAM => PHYSICAL_SRAM_CAPACITY | MEM_TCAM => PHYSICAL_TCAM_CAPACITY end.
Definition num_physical (k : MemType) : Z :=
  match k with MEM_SRAM => NUM_PHYSICAL_SRAM | MEM_TCAM => NUM_PHYSICAL_TCAM end.

(** [n] bytes from [b] on are bytes of one array. *)
Definition inside (b : Buffer) (n : Z) : bool :=
  (0 <=? b.(buf_phy)) && (b.(buf_phy) <? num_physical b.(buf_mem)) &&
  (0 <=? b.(buf_pos)) && (b.(buf_pos) + n <=? capacity b.(buf_mem)).

Definition cell (m : Memory) (b : Buffer) : Z :=
  default 0 (m.(cells) !! (b.(buf_mem), b.(buf_phy), b.(buf_pos))).

(** The [n] bytes from [b] on. *)
Fixpoint peek (m : Memory) (b : Buffer) (n : nat) : list Z :=
  match n with O => [] | S n' => cell m b :: peek m (shift b 1) n' end.

Fixpoint poke (m : Memory) (b : Buffer) (bs : list Z) : Memory :=
  match bs with
  | [] => m
  | x :: bs' =>
      poke (with_cells (<[(b.(buf_mem), b.(buf_phy), b.(buf_pos)) := x]> m.(cells)) m) (shift b 1) bs'
  end.

(** Reading and writing, as [memcpy], [memcmp] and dereferences do. *)
Definition load (m : Memory) (b : Buffer) (n : Z) : outcome (list Z) :=
  if n <? 0 then Undefined BadLength
  else if inside b n then Value (peek m b (Z.to_nat n)) else Undefined OutOfBounds.

Definition store (m : Memory) (b : Buffer) (bs : list Z) : outcome Memory :=
  if inside b (zlen bs) then Value (poke m b bs) else Undefined OutOfBounds.

(** The first [n] bytes behind a pointer to the bytes [bs]. *)
Definition first_bytes (bs : list Z) (n : Z) : outcome (list Z) :=
  if n <? 0 then Undefined BadLength
  else if n <=? zlen bs then Value (take (Z.to_nat n) bs) else Undefined OutOfBounds.

(** The allocation advances the top before it looks at it; the exception leaves the
    initialisation of the program. *)
Definition alloc_logical_sram (phy_id num_bytes : Z) (m : Memory) : outcome (Buffer * Memory) :=
  top ← lift (rd m.(physical_sram_top) phy_id);
  let buf := mkBuffer MEM_SRAM phy_id top in
  let top := top + num_bytes in
  if PHYSICAL_SRAM_CAPACITY <? top then Throws (overflow_error "Physical SRAM out of memory")
  else mret (buf, mkMemory m.(cells) (<[Z.to_nat phy_id := top]> m.(physical_sram_top)) m.(physical_tcam_top)).

(** The other kind of memory is compared with the capacity of the SRAM too. *)
Definition alloc_logical_tcam (phy_id num_bytes : Z) (m : Memory) : outcome (Buffer * Memory) :=
  top ← lift (rd m.(physical_tcam_top) phy_id);
  let buf := mkBuffer MEM_TCAM phy_id top in
  let top := top + num_bytes in
  if PHYSICAL_SRAM_CAPACITY <? top then Throws (overflow_error "Physical SRAM out of memory")
  else mret (buf, mkMemory m.(cells) m.(physical_sram_top) (<[Z.to_nat phy_id := top]> m.(physical_tcam_top))).

(** *** What reads see of writes *)
Lemma shift_shift b i j : shift (shift b i) j = shift b (i + j).
Proof. unfold shift. cbn. f_equal. lia. Qed.
Lemma shift_0 b : shift b 0 = b.
Proof. destruct b. unfold shift. cbn. f_equal. lia. Qed.

Lemma peek_length m b n : length (peek m b n) = n.
Proof. revert b. induction n as [|n IH]; intros b; cbn; [done|]. by rewrite IH. Qed.

Lemma peek_cell m b n i : (i < n)%nat → peek m b n !! i = Some (cell m (shift b (Z.of_nat i))).
Proof.
  revert b i. induction n as [|n IH]; intros b i Hi; [lia|]. destruct i as [|i]; cbn [peek lookup list_lookup].
  - by rewrite shift_0.
  - change (peek m (shift b 1) n !! i = Some (cell m (shift b (Z.of_nat (S i))))).
    rewrite IH by lia. rewrite shift_shift. do 3 f_equal. lia.
Qed.

Lemma peek_ext m m' b b' n :
  (∀ i, 0 ≤ i < Z.of_nat n → cell m (shift b i) = cell m' (shift b' i)) → peek m b n = peek m' b' n.
Proof.
  intros Hc. apply list_eq_same_length with n; [apply peek_length..|].
  intros i x y Hi. rewrite !peek_cell by done. intros [= <-] [= <-]. apply Hc. lia.
Qed.

Lemma peek_app m b n k : peek m b (n + k) = peek m b n ++ peek m (shift b (Z.of_nat n)) k.
Proof.
  revert b. induction n as [|n IH]; intros b; cbn [peek Nat.add app]; [by rewrite shift_0|].
  rewrite IH, shift_shift. do 3 f_equal. f_equal. lia.
Qed.

Definition same_bank (b c : Buffer) : bool :=
  bool_decide (b.(buf_mem) = c.(buf_mem)) && (b.(buf_phy) =? c.(buf_phy)).

Lemma cell_poke m b bs c :
  cell (poke m b bs) c =
    if same_bank b c && (b.(buf_pos) <=? c.(buf_pos)) && (c.(buf_pos) <? b.(buf_pos) + zlen bs)
    then at_ bs (c.(buf_pos) - b.(buf_pos)) else cell m c.
Proof.
  revert m b. induction bs as [|x bs IH]; intros m b; cbn [poke].
  { unfold zlen. cbn. destruct (same_bank b c); [|done]. cbn [andb]. zcmp. }
  rewrite IH. unfold same_bank. cbn [shift buf_mem buf_phy buf_pos].
  replace (zlen (x :: bs)) with (1 + zlen bs) by (unfold zlen; cbn; lia). pose proof (zlen_nonneg bs).
  case_bool_decide as Hm; cbn [andb].
  - destruct (Z.eqb_spec b.(buf_phy) c.(buf_phy)) as [Hp|Hp]; cbn [andb].
    + destruct (Z.eq_dec b.(buf_pos) c.(buf_pos)) as [Hq|Hq].
      * zcmp. unfold cell, with_cells. cbn. rewrite Hm, Hp, Hq, lookup_insert_eq. cbn.
        by replace (c.(buf_pos) - c.(buf_pos)) with 0 by lia.
      * zcmp; try (unfold cell, with_cells; cbn; by rewrite lookup_insert_ne by congruence).
        unfold at_. by replace (Z.to_nat (c.(buf_pos) - b.(buf_pos))) with (S (Z.to_nat (c.(buf_pos) - (b.(buf_pos) + 1)))) by lia.
    + unfold cell, with_cells. cbn. by rewrite lookup_insert_ne by congruence.
  - unfold cell, with_cells. cbn. by rewrite lookup_insert_ne by congruence.
Qed.

Lemma poke_tops m b bs :
  physical_sram_top (poke m b bs) = physical_sram_top m ∧ physical_tcam_top (poke m b bs) = physical_tcam_top m.
Proof. revert m b. induction bs as [|x bs IH]; intros m b; cbn [poke]; [done|]. by destruct (IH (with_cells (<[(b.(buf_mem), b.(buf_phy), b.(buf_pos)) := x]> m.(cells)) m) (shift b 1)) as [-> ->]. Qed.

(** Two stretches of memory have no byte in common. *)
Definition apart (b : Buffer) (n : Z) (c : Buffer) (k : Z) : Prop :=
  same_bank b c = false ∨ b.(buf_pos) + n ≤ c.(buf_pos) ∨ c.(buf_pos) + k ≤ b.(buf_pos).

Lemma peek_poke_apart m b bs c k :
  apart b (zlen bs) c (Z.of_nat k) → peek (poke m b bs) c k = peek m c k.
Proof.
  intros Ha. apply peek_ext. intros i Hi. rewrite cell_poke.
  destruct (same_bank b (shift c i)) eqn:E; [|done]. change (same_bank b c = true) in E.
  destruct Ha as [Ha|Ha]; [congruence|]. cbn [shift buf_pos andb]. zcmp.
Qed.

Lemma peek_poke_same m b bs : peek (poke m b bs) b (length bs) = bs.
Proof.
  apply list_eq_same_length with (length bs); [done|apply peek_length|].
  intros i x y Hi. rewrite peek_cell by done. intros [= <-] Hy. rewrite cell_poke.
  unfold same_bank. cbn [shift buf_mem buf_phy buf_pos]. rewrite bool_decide_eq_true_2 by done. rewrite Z.eqb_refl.
  unfold zlen. zcmp. unfold at_. rewrite Z.add_simpl_l, Nat2Z.id. by apply list_lookup_total_correct.
Qed.

Lemma load_inside m b n : 0 ≤ n → inside b n = true → load m b n = Value (peek m b (Z.to_nat n)).
Proof. intros Hn Hi. unfold load. rewrite (proj2 (Z.ltb_ge n 0)) by done. by rewrite Hi. Qed.
Lemma store_inside m b bs : inside b (zlen bs) = true → store m b bs = Value (poke m b bs).
Proof. intros Hi. unfold store. by rewrite Hi. Qed.

Lemma inside_part b n i k : inside b n = true → 0 ≤ i → i + k ≤ n → inside (shift b i) k = true.
Proof.
  unfold inside. cbn [shift buf_mem buf_phy buf_pos]. rewrite !andb_true_iff, !Z.leb_le, !Z.ltb_lt. lia.
Qed.

Lemma first_bytes_all bs : first_bytes bs (zlen bs) = Value bs.
Proof.
  unfold first_bytes. pose proof (zlen_nonneg bs). zcmp. f_equal. apply firstn_all2. unfold zlen. lia.
Qed.

Lemma first_bytes_len bs n : zlen bs = n → first_bytes bs n = Value bs.
Proof. intros <-. apply first_bytes_all. Qed.

Lemma at_peek m b n i : 0 ≤ i < n → at_ (peek m b (Z.to_nat n)) i = cell m (shift b i).
Proof.
  intros Hi. unfold at_. apply list_lookup_total_correct. rewrite peek_cell by lia. by rewrite Z2Nat.id by lia.
Qed.

Lemma peek_take m b n k : (k ≤ n)%nat → take k (peek m b n) = peek m b k.
Proof.
  intros Hk. replace n with (k + (n - k))%nat by lia. rewrite peek_app. apply take_app_length'. by rewrite peek_length.
Qed.

Lemma peek_prefix m b n bs rest : peek m b n = bs ++ rest → peek m b (length bs) = bs.
Proof.
  intros E. assert (length bs ≤ n)%nat as Hn by (apply (f_equal length) in E; rewrite peek_length, length_app in E; lia).
  rewrite <- (peek_take m b n) by done. rewrite E. by rewrite take_app_length.
Qed.

(** ** Bitmaps (bitmap.h)

    The bits of a byte are numbered from its highest one. *)
Definition WIDTH : Z := 8.
Definition HIGHEST_BIT : Z := 128.

Definition get_bucket (pos : Z) : Z := Z.quot pos WIDTH.
Definition get_bit (pos : Z) : Z := u8 (Z.shiftr HIGHEST_BIT (u8 (Z.rem pos WIDTH))).

Definition bitmap_init (m : Memory) (bm : Buffer) (size : Z) : outcome Memory :=
  if size <? 0 then Undefined BadLength else store m bm (replicate (Z.to_nat size) 0).

Definition bitmap_set (m : Memory) (bm : Buffer) (pos : Z) : outcome Memory :=
  bs ← load m (shift bm (get_bucket pos)) 1;
  store m (shift bm (get_bucket pos)) [Z.lor (at_ bs 0) (get_bit pos)].

Definition bitmap_reset (m : Memory) (bm : Buffer) (pos : Z) : outcome Memory :=
  bs ← load m (shift bm (get_bucket pos)) 1;
  store m (shift bm (get_bucket pos)) [Z.land (at_ bs 0) (u8 (Z.lnot (get_bit pos)))].

Definition bitmap_test (m : Memory) (bm : Buffer) (pos : Z) : outcome bool :=
  bs ← load m (shift bm (get_bucket pos)) 1;
  mret (negb (Z.land (at_ bs 0) (get_bit pos) =? 0)).

Definition count_ones (m : Memory) (bm : Buffer) (size : Z) : outcome Z :=
  each (λ i cnt, b ← bitmap_test m bm i; mret (if (b : bool) then cnt + 1 else cnt)) (seqZ 0 size) 0.

(** *** A bitmap is a set of positions *)

(** The bit at a position. *)
Definition bit (m : Memory) (bm : Buffer) (pos : Z) : bool :=
  Z.testbit (cell m (shift bm (pos / 8))) (7 - pos mod 8).

Lemma get_bit_pow pos : 0 ≤ pos → get_bit pos = 2 ^ (7 - pos mod 8).
Proof.
  intros Hp. unfold get_bit, WIDTH, HIGHEST_BIT. rewrite Z.rem_mod_nonneg by lia.
  pose proof (Z.mod_pos_bound pos 8 ltac:(lia)) as Hm. generalize dependent (pos mod 8). intros k Hk.
  assert (k = 0 ∨ k = 1 ∨ k = 2 ∨ k = 3 ∨ k = 4 ∨ k = 5 ∨ k = 6 ∨ k = 7) as Hc by lia.
  destruct_or! Hc; by subst k.
Qed.

Lemma get_bucket_div pos : 0 ≤ pos → get_bucket pos = pos / 8.
Proof. intros. unfold get_bucket, WIDTH. by rewrite Z.quot_div_nonneg by lia. Qed.

Lemma land_pow2 x k : 0 ≤ k → negb (Z.land x (2 ^ k) =? 0) = Z.testbit x k.
Proof.
  intros Hk. destruct (Z.testbit x k) eqn:E.
  - apply negb_true_iff, Z.eqb_neq. intros H0. apply (f_equal (λ z, Z.testbit z k)) in H0.
    rewrite Z.land_spec, E, Z.pow2_bits_true, Z.testbit_0_l in H0 by lia. done.
  - apply negb_false_iff, Z.eqb_eq, Z.bits_inj_0. intros j. rewrite Z.land_spec, Z.pow2_bits_eqb by lia.
    destruct (Z.eqb_spec k j) as [<-|]; [by rewrite E|by rewrite andb_false_r].
Qed.

(** The byte of a position is there. *)
Definition bit_inside (bm : Buffer) (pos : Z) : bool := inside (shift bm (pos / 8)) 1.

Lemma bitmap_test_bit m bm pos :
  0 ≤ pos → bit_inside bm pos = true → bitmap_test m bm pos = Value (bit m bm pos).
Proof.
  intros Hp Hi. unfold bitmap_test, bit. rewrite get_bucket_div, get_bit_pow by done.
  rewrite load_inside by done. cbn [mbind outcome_mbind mret outcome_mret]. f_equal.
  change (at_ (peek m (shift bm (pos / 8)) (Z.to_nat 1)) 0) with (cell m (shift bm (pos / 8))).
  apply land_pow2. pose proof (Z.mod_pos_bound pos 8). lia.
Qed.

(** One byte written at [b]: what the positions of a bitmap hold then. *)
Lemma bit_poke_byte m bm pos x q :
  0 ≤ pos → 0 ≤ q →
  bit (poke m (shift bm (pos / 8)) [x]) bm q =
    if q / 8 =? pos / 8 then Z.testbit x (7 - q mod 8) else bit m bm q.
Proof.
  intros Hp Hq. unfold bit. rewrite cell_poke. unfold same_bank, zlen. cbn.
  rewrite bool_decide_eq_true_2, Z.eqb_refl by done. cbn [andb]. zcmp.
  replace (bm.(buf_pos) + q / 8 - (bm.(buf_pos) + pos / 8)) with 0 by lia. done.
Qed.

Lemma same_bit p q : 0 ≤ p → 0 ≤ q → q / 8 = p / 8 → 7 - p mod 8 = 7 - q mod 8 → p = q.
Proof. intros. dlia. Qed.

Lemma bitmap_set_spec m bm pos :
  0 ≤ pos → bit_inside bm pos = true →
  ∃ x, bitmap_set m bm pos = Value (poke m (shift bm (pos / 8)) [x]) ∧
    ∀ q, 0 ≤ q → bit (poke m (shift bm (pos / 8)) [x]) bm q = (q =? pos) || bit m bm q.
Proof.
  intros Hp Hi. unfold bitmap_set. rewrite get_bucket_div, get_bit_pow by done.
  rewrite load_inside by done. cbn [mbind outcome_mbind]. rewrite store_inside by done.
  eexists; split; [done|]. intros q Hq. rewrite bit_poke_byte by done.
  change (at_ (peek m (shift bm (pos / 8)) (Z.to_nat 1)) 0) with (cell m (shift bm (pos / 8))).
  destruct (Z.eqb_spec (q / 8) (pos / 8)) as [E|E].
  - pose proof (Z.mod_pos_bound pos 8). pose proof (Z.mod_pos_bound q 8).
    rewrite Z.lor_spec, Z.pow2_bits_eqb by lia. unfold bit. rewrite E, orb_comm. f_equal.
    destruct (Z.eqb_spec q pos) as [->|Hne]; [apply Z.eqb_refl|]. apply Z.eqb_neq. intros Hsame. apply Hne. symmetry.
    by apply same_bit.
  - destruct (Z.eqb_spec q pos) as [->|]; done.
Qed.

Lemma bitmap_reset_spec m bm pos :
  0 ≤ pos → bit_inside bm pos = true →
  ∃ x, bitmap_reset m bm pos = Value (poke m (shift bm (pos / 8)) [x]) ∧
    ∀ q, 0 ≤ q → bit (poke m (shift bm (pos / 8)) [x]) bm q = negb (q =? pos) && bit m bm q.
Proof.
  intros Hp Hi. unfold bitmap_reset. rewrite get_bucket_div, get_bit_pow by done.
  rewrite load_inside by done. cbn [mbind outcome_mbind]. rewrite store_inside by done.
  eexists; split; [done|]. intros q Hq. rewrite bit_poke_byte by done.
  change (at_ (peek m (shift bm (pos / 8)) (Z.to_nat 1)) 0) with (cell m (shift bm (pos / 8))).
  destruct (Z.eqb_spec (q / 8) (pos / 8)) as [E|E].
  - pose proof (Z.mod_pos_bound pos 8). pose proof (Z.mod_pos_bound q 8).
    unfold u8. change 256 with (2 ^ 8). rewrite Z.land_spec, Z.mod_pow2_bits_low, Z.lnot_spec, Z.pow2_bits_eqb by lia.
    unfold bit. rewrite E, andb_comm. f_equal. f_equal.
    destruct (Z.eqb_spec q pos) as [->|Hne]; [apply Z.eqb_refl|]. apply Z.eqb_neq. intros Hsame. apply Hne. symmetry.
    by apply same_bit.
  - destruct (Z.eqb_spec q pos) as [->|]; done.
Qed.

Lemma bitmap_init_spec m bm size :
  0 ≤ size → inside bm size = true →
  bitmap_init m bm size = Value (poke m bm (replicate (Z.to_nat size) 0)) ∧
    ∀ q, 0 ≤ q < 8 * size → bit (poke m bm (replicate (Z.to_nat size) 0)) bm q = false.
Proof.
  intros Hs Hi. unfold bitmap_init. zcmp. rewrite store_inside by (rewrite zlen_replicate; by rewrite Z2Nat.id).
  split; [done|]. intros q Hq. unfold bit. rewrite cell_poke. unfold same_bank. cbn.
  rewrite bool_decide_eq_true_2, Z.eqb_refl, zlen_replicate by done. cbn [andb].
  assert (0 ≤ q / 8 < size) by dlia. zcmp. rewrite at_replicate by lia. apply Z.testbit_0_l.
Qed.

(** A bit does not see what is stored away from its byte. *)
Lemma bit_poke_apart m b bs bm q :
  apart b (zlen bs) (shift bm (q / 8)) 1 → bit (poke m b bs) bm q = bit m bm q.
Proof.
  intros Ha. unfold bit. f_equal. pose proof (peek_poke_apart m b bs (shift bm (q / 8)) 1 Ha) as H. by injection H.
Qed.
