(* ===== verification/OldTables.v ===== *)
(** * The tables of the old switch (ipbm-old/src/dataplane: table.h, field.h, bytearray.h)

    A logical table is a region of a physical memory: an SRAM table is an array of
    buckets with a bitmap in front, a key is looked for in the bucket its hash names
    and nowhere else; a TCAM table is a sequence of entries that is searched from its
    start.  A flow table is what a processor looks a packet up in: it puts its number
    before its keys, so that several flow tables can lie on one logical table. *)

From stdpp Require Import base numbers list gmap strings.
From Stdlib Require Import ZArith Lia.
From S2P Require Import Prelude OldMemory.

#[local] Open Scope Z_scope.

(** ** Logical tables

    The virtual methods of a logical table.  The methods that change the table
    return it, with the memory. *)
Class LogicTable (T : Type) : Type := {
  key_len : T → Z;
  val_len : T → Z;
  get_entry : T → Z → outcome Buffer;
  end_pos : T → Z;
  insert_entry : list Z → list Z → T → Memory → outcome (T * Memory);
  erase_entry : list Z → T → Memory → outcome (T * Memory);
  match_exact : list Z → T → Memory → outcome Z;
  match_ternary : list Z → list Z → T → Memory → outcome Z;
  match_lpm : list Z → T → Memory → outcome Z
}.

Definition not_implemented {A} : outcome A := Throws (runtime_error "Not implemented").

(** ** SRAM tables *)
Record LogicSram : Type := mkLogicSram {
  s_bitmap : Buffer;
  s_data : Buffer;
  s_key_len : Z;
  s_val_len : Z;
  s_cap : Z
}.

Definition s_entry_len (t : LogicSram) : Z := t.(s_key_len) + t.(s_val_len).

(** The constructor.  The bitmap has a byte for every eight whole buckets. *)
Definition make_sram (phy_id key_len val_len num_entry : Z) (m : Memory) : outcome (LogicSram * Memory) :=
  let bm_len := Z.quot num_entry 8 in
  let total_len := bm_len + num_entry * (key_len + val_len) in
  '(bitmap, m) ← alloc_logical_sram phy_id total_len m;
  m ← bitmap_init m bitmap bm_len;
  mret (mkLogicSram bitmap (shift bitmap bm_len) key_len val_len num_entry, m).

Definition sram_get_entry (t : LogicSram) (pos : Z) : Buffer := shift t.(s_data) (pos * s_entry_len t).

(** The hash of a key, in a [size_t]. *)
Definition SIZE_T : Z := 2 ^ 64.
Definition hash_step (hash byte : Z) : Z := (hash * 1000000007 + byte) mod SIZE_T.
Definition hash_of (key : list Z) : Z := foldl hash_step 3 key.

Definition get_bucket_id (t : LogicSram) (key : list Z) (len : Z) : outcome Z :=
  key ← first_bytes key (Z.max 0 len);
  let cap := t.(s_cap) mod SIZE_T in
  if cap =? 0 then Undefined DivByZero else mret (i32 (hash_of key mod cap)).

Definition sram_insert (key val : list Z) (t : LogicSram) (m : Memory) : outcome (LogicSram * Memory) :=
  bkt ← get_bucket_id t key t.(s_key_len);
  used ← bitmap_test m t.(s_bitmap) bkt;
  if used : bool then Throws (runtime_error "Entry already exists")
  else
    m ← bitmap_set m t.(s_bitmap) bkt;
    let entry := sram_get_entry t bkt in
    k ← first_bytes key t.(s_key_len);
    m ← store m entry k;
    v ← first_bytes val t.(s_val_len);
    m ← store m (shift entry t.(s_key_len)) v;
    mret (t, m).

Definition sram_erase (key : list Z) (t : LogicSram) (m : Memory) : outcome (LogicSram * Memory) :=
  bkt ← get_bucket_id t key t.(s_key_len);
  used ← bitmap_test m t.(s_bitmap) bkt;
  if used : bool then
    m ← bitmap_reset m t.(s_bitmap) bkt;
    mret (t, m)
  else Throws (out_of_range "Entry not found").

Definition sram_match_exact (key : list Z) (t : LogicSram) (m : Memory) : outcome Z :=
  bkt ← get_bucket_id t key t.(s_key_len);
  used ← bitmap_test m t.(s_bitmap) bkt;
  if used : bool then
    entry ← load m (sram_get_entry t bkt) t.(s_key_len);
    k ← first_bytes key t.(s_key_len);
    if bool_decide (entry = k) then mret bkt
    else Throws (runtime_error "Unsolved hash table conflict")
  else mret t.(s_cap).

#[export] Instance sram_table : LogicTable LogicSram := {|
  key_len := s_key_len;
  val_len := s_val_len;
  get_entry t pos := Value (sram_get_entry t pos);
  end_pos := s_cap;
  insert_entry := sram_insert;
  erase_entry := sram_erase;
  match_exact := sram_match_exact;
  match_ternary _ _ _ _ := not_implemented;
  match_lpm _ _ _ := not_implemented
|}.

(** ** TCAM tables *)
Record LogicTcam : Type := mkLogicTcam {
  t_key_len : Z;
  t_val_len : Z;
  t_cap : Z;
  t_size : Z;
  t_buf : Buffer
}.

Definition t_entry_len (t : LogicTcam) : Z := t.(t_key_len) + t.(t_val_len).

Definition make_tcam (phy_id key_len val_len cap : Z) (m : Memory) : outcome (LogicTcam * Memory) :=
  '(buf, m) ← alloc_logical_tcam phy_id ((key_len + val_len) * cap) m;
  mret (mkLogicTcam key_len val_len cap 0 buf, m).

Definition tcam_get_entry (t : LogicTcam) (pos : Z) : outcome Buffer :=
  if t.(t_cap) <=? pos then Throws (out_of_range "TCAM entry out of range")
  else mret (shift t.(t_buf) (pos * t_entry_len t)).

Definition tcam_insert (key val : list Z) (t : LogicTcam) (m : Memory) : outcome (LogicTcam * Memory) :=
  if t.(t_cap) <=? t.(t_size) then Throws (overflow_error "TCAM overflow!")
  else
    entry ← tcam_get_entry t t.(t_size);
    k ← first_bytes key t.(t_key_len);
    m ← store m entry k;
    v ← first_bytes val t.(t_val_len);
    m ← store m (shift entry t.(t_key_len)) v;
    mret (mkLogicTcam t.(t_key_len) t.(t_val_len) t.(t_cap) (t.(t_size) + 1) t.(t_buf), m).

(** The loops over the entries: [n] of them are left, [i] is the next. *)
Fixpoint tcam_exact_from (n : nat) (i : Z) (key : list Z) (t : LogicTcam) (m : Memory) : outcome Z :=
  match n with
  | O => mret i
  | S n' =>
      entry ← tcam_get_entry t i;
      e ← load m entry t.(t_key_len);
      k ← first_bytes key t.(t_key_len);
      if bool_decide (e = k) then mret i else tcam_exact_from n' (i + 1) key t m
  end.

Definition tcam_match_exact (key : list Z) (t : LogicTcam) (m : Memory) : outcome Z :=
  tcam_exact_from (Z.to_nat t.(t_size)) 0 key t m.

(** [memmove] closes the gap; the size stays. *)
Definition tcam_erase (key : list Z) (t : LogicTcam) (m : Memory) : outcome (LogicTcam * Memory) :=
  pos ← tcam_match_exact key t m;
  entry ← tcam_get_entry t pos;
  rest ← load m (shift entry (t_entry_len t)) (t_entry_len t * (t.(t_size) - pos - 1));
  m ← store m entry rest;
  mret (t, m).

Definition get_masked_key (key mask : list Z) (len : Z) : outcome (list Z) :=
  k ← first_bytes key (Z.max 0 len);
  w ← first_bytes mask (Z.max 0 len);
  mret (zip_with Z.land k w).

Fixpoint tcam_ternary_from (n : nat) (i : Z) (mask_key mask : list Z) (t : LogicTcam) (m : Memory) : outcome Z :=
  match n with
  | O => mret i
  | S n' =>
      entry ← tcam_get_entry t i;
      e ← load m entry t.(t_key_len);
      mask_cand ← get_masked_key e mask t.(t_key_len);
      if bool_decide (mask_key = mask_cand) then mret i else tcam_ternary_from n' (i + 1) mask_key mask t m
  end.

Definition tcam_match_ternary (key mask : list Z) (t : LogicTcam) (m : Memory) : outcome Z :=
  mask_key ← get_masked_key key mask t.(t_key_len);
  tcam_ternary_from (Z.to_nat t.(t_size)) 0 mask_key mask t m.

(** [for (uint32_t mask = UINT32_MAX; mask; mask <<= 1)]: the mask is used as the four
    bytes x86 keeps it in. *)
Fixpoint tcam_lpm_from (n : nat) (mask : Z) (pos : Z) (key : list Z) (t : LogicTcam) (m : Memory) : outcome Z :=
  match n with
  | O => mret pos
  | S n' =>
      if mask =? 0 then mret pos
      else
        pos ← tcam_match_ternary key (le_bytes 4 mask) t m;
        if negb (pos =? t.(t_size)) then mret pos
        else tcam_lpm_from n' (u32 (Z.shiftl mask 1)) pos key t m
  end.

Definition tcam_match_lpm (key : list Z) (t : LogicTcam) (m : Memory) : outcome Z :=
  _ ← asserts (t.(t_key_len) =? 4);
  tcam_lpm_from 33 4294967295 t.(t_size) key t m.

#[export] Instance tcam_table : LogicTable LogicTcam := {|
  key_len := t_key_len;
  val_len := t_val_len;
  get_entry := tcam_get_entry;
  end_pos := t_size;
  insert_entry := tcam_insert;
  erase_entry := tcam_erase;
  match_exact := tcam_match_exact;
  match_ternary := tcam_match_ternary;
  match_lpm := tcam_match_lpm
|}.

(** A logical table of either kind, and the method that is called on it. *)
Inductive AnyTable : Type := Sram (t : LogicSram) | Tcam (t : LogicTcam).

Definition on_sram (r : LogicSram * Memory) : AnyTable * Memory := (Sram r.1, r.2).
Definition on_tcam (r : LogicTcam * Memory) : AnyTable * Memory := (Tcam r.1, r.2).

#[export] Instance any_table : LogicTable AnyTable := {|
  key_len a := match a with Sram t => key_len t | Tcam t => key_len t end;
  val_len a := match a with Sram t => val_len t | Tcam t => val_len t end;
  get_entry a pos := match a with Sram t => get_entry t pos | Tcam t => get_entry t pos end;
  end_pos a := match a with Sram t => end_pos t | Tcam t => end_pos t end;
  insert_entry k v a m :=
    match a with Sram t => on_sram <$> insert_entry k v t m | Tcam t => on_tcam <$> insert_entry k v t m end;
  erase_entry k a m :=
    match a with Sram t => on_sram <$> erase_entry k t m | Tcam t => on_tcam <$> erase_entry k t m end;
  match_exact k a m := match a with Sram t => match_exact k t m | Tcam t => match_exact k t m end;
  match_ternary k w a m := match a with Sram t => match_ternary k w t m | Tcam t => match_ternary k w t m end;
  match_lpm k a m := match a with Sram t => match_lpm k t m | Tcam t => match_lpm k t m end
|}.

(** ** Flow tables *)
Record FieldSpec : Type := mkFieldSpec { fs_hdr_id : Z; fs_start : Z; fs_len : Z }.

#[export] Instance field_spec_eq_dec : EqDecision FieldSpec.
Proof. solve_decision. Defined.

Inductive MatchType : Set := MATCH_EXACT | MATCH_TERNARY | MATCH_LPM.

#[export] Instance match_type_eq_dec : EqDecision MatchType.
Proof. solve_decision. Defined.

(** The logical table is shared by the flow tables that lie on it: a flow table has
    its place in the vector, or no table yet. *)
Record FlowTable : Type := mkFlowTable {
  ft_tag : Z;
  ft_key_len : Z;
  ft_val_len : Z;
  ft_logic_table : option Z;
  ft_mem_type : MemType;
  ft_match_type : MatchType;
  ft_key_fields : list FieldSpec;
  ft_is_counter : bool
}.

(** The flow tables of the program before one is set: they are static. *)
Definition zero_flow_table : FlowTable := mkFlowTable 0 0 0 None MEM_SRAM MATCH_EXACT [] false.

(** The constructor: the length of the key is that of its fields. *)
Definition make_flow_table (tag val_len : Z) (logic_table : option Z) (mem_type : MemType)
    (match_type : MatchType) (key_fields : list FieldSpec) (is_counter : bool) : FlowTable :=
  mkFlowTable (u8 tag) (sum_of_map fs_len key_fields) val_len logic_table mem_type match_type key_fields is_counter.

(** The tables of the switch: the memory and the logical tables. *)
Record Tables : Type := mkTables { memory : Memory; logic_tables : list AnyTable }.

Definition logic (ft : FlowTable) (ts : Tables) : outcome (Z * AnyTable) :=
  match ft.(ft_logic_table) with
  | None => Undefined NullDeref
  | Some i => t ← lift (rd ts.(logic_tables) i); mret (i, t)
  end.

Definition set_logic (i : Z) (r : AnyTable * Memory) (ts : Tables) : Tables :=
  mkTables r.2 (<[Z.to_nat i := r.1]> ts.(logic_tables)).

(** [| tag | key (padding) |] and [| value (padding) |]. *)
Definition get_tag_key (ft : FlowTable) (t : AnyTable) (key : list Z) : outcome (list Z) :=
  if key_len t <? ft.(ft_key_len) + 1 then Throws (overflow_error "Key too long")
  else
    k ← first_bytes key ft.(ft_key_len);
    mret (ft.(ft_tag) :: k ++ replicate (Z.to_nat (key_len t - (ft.(ft_key_len) + 1))) 0).

Definition get_pad_val (ft : FlowTable) (t : AnyTable) (val : list Z) : outcome (list Z) :=
  if val_len t <? ft.(ft_val_len) then Throws (overflow_error "Value too long!")
  else
    v ← first_bytes val ft.(ft_val_len);
    mret (v ++ replicate (Z.to_nat (val_len t - ft.(ft_val_len))) 0).

Definition flow_insert (ft : FlowTable) (key val : list Z) (ts : Tables) : outcome Tables :=
  '(i, t) ← logic ft ts;
  tag_key ← get_tag_key ft t key;
  pad_val ← get_pad_val ft t val;
  r ← insert_entry tag_key pad_val t ts.(memory);
  mret (set_logic i r ts).

Definition flow_erase (ft : FlowTable) (key : list Z) (ts : Tables) : outcome Tables :=
  '(i, t) ← logic ft ts;
  tag_key ← get_tag_key ft t key;
  r ← erase_entry tag_key t ts.(memory);
  mret (set_logic i r ts).

Definition flow_match_exact (ft : FlowTable) (key : list Z) (ts : Tables) : outcome Z :=
  '(_, t) ← logic ft ts;
  tag_key ← get_tag_key ft t key;
  match_exact tag_key t ts.(memory).

(** The other two kinds of match are there, and throw. *)
Definition flow_match_lpm (ft : FlowTable) (key : list Z) (ts : Tables) : outcome Z := not_implemented.
Definition flow_match_ternary (ft : FlowTable) (key mask : list Z) (ts : Tables) : outcome Z := not_implemented.

Definition flow_get_val (ft : FlowTable) (pos : Z) (ts : Tables) : outcome Buffer :=
  '(_, t) ← logic ft ts;
  entry ← get_entry t pos;
  mret (shift entry (key_len t)).

Definition flow_end_pos (ft : FlowTable) (ts : Tables) : outcome Z :=
  '(_, t) ← logic ft ts;
  mret (end_pos t).

(** ** What an SRAM table promises

    A table is a partial map from buckets to entries.  An operation looks at the bucket
    of its key: an insertion into a bucket that is taken is refused, whatever key is
    there; a deletion clears the bucket, whatever key is there; a lookup that meets
    another key throws. *)
Inductive SramOp : Type :=
| SInsert (key val : list Z)
| SErase (key : list Z)
| SMatch (key : list Z).

Definition op_key (op : SramOp) : list Z :=
  match op with SInsert k _ | SErase k | SMatch k => k end.

(** What the caller sees of an operation: the value of an entry is read as the flow
    table reads it. *)
Inductive Seen : Type :=
| SeenDone
| SeenAt (pos : Z) (val : list Z)
| SeenNothing
| SeenError (e : exn).

Definition sram_do (t : LogicSram) (op : SramOp) (m : Memory) : outcome (Seen * Memory) :=
  match op with
  | SInsert k v =>
      try_catch ((λ r, (SeenDone, r.2)) <$> sram_insert k v t m) (λ e, Value (SeenError e, m))
  | SErase k =>
      try_catch ((λ r, (SeenDone, r.2)) <$> sram_erase k t m) (λ e, Value (SeenError e, m))
  | SMatch k =>
      try_catch
        (pos ← sram_match_exact k t m;
         if pos =? s_cap t then Value (SeenNothing, m)
         else v ← load m (shift (sram_get_entry t pos) t.(s_key_len)) t.(s_val_len); Value (SeenAt pos v, m))
        (λ e, Value (SeenError e, m))
  end.

Fixpoint sram_run (t : LogicSram) (ops : list SramOp) (m : Memory) : outcome (list Seen * Memory) :=
  match ops with
  | [] => Value ([], m)
  | op :: ops' =>
      '(o, m) ← sram_do t op m;
      '(os, m) ← sram_run t ops' m;
      mret (o :: os, m)
  end.

Abbreviation Buckets := (gmap Z (list Z * list Z)).

Definition bucket (t : LogicSram) (key : list Z) : Z := hash_of key mod t.(s_cap).

Definition bucket_do (t : LogicSram) (op : SramOp) (f : Buckets) : Seen * Buckets :=
  let b := bucket t (op_key op) in
  match op, f !! b with
  | SInsert k v, None => (SeenDone, <[b := (k, v)]> f)
  | SInsert _ _, Some _ => (SeenError (runtime_error "Entry already exists"), f)
  | SErase _, None => (SeenError (out_of_range "Entry not found"), f)
  | SErase _, Some _ => (SeenDone, delete b f)
  | SMatch _, None => (SeenNothing, f)
  | SMatch k, Some (k', v) =>
      (if bool_decide (k' = k) then SeenAt b v else SeenError (runtime_error "Unsolved hash table conflict"), f)
  end.

Fixpoint bucket_run (t : LogicSram) (ops : list SramOp) (f : Buckets) : list Seen * Buckets :=
  match ops with
  | [] => ([], f)
  | op :: ops' =>
      let r := bucket_do t op f in
      let rs := bucket_run t ops' r.2 in
      (r.1 :: rs.1, rs.2)
  end.

(** A table that lies in its memory. *)
Record sram_wf (t : LogicSram) : Prop := {
  wf_cap : 0 < t.(s_cap) < 2147483648;
  wf_key : 0 ≤ t.(s_key_len);
  wf_val : 0 ≤ t.(s_val_len);
  wf_data : t.(s_data) = shift t.(s_bitmap) (t.(s_cap) / 8);
  wf_room : inside t.(s_bitmap) (t.(s_cap) / 8 + t.(s_cap) * s_entry_len t) = true
}.

(** The buckets that have a bit of their own. *)
Definition covered (t : LogicSram) : Z := 8 * (t.(s_cap) / 8).

(** The memory holds the entries of a map. *)
Definition holds (t : LogicSram) (m : Memory) (f : Buckets) : Prop :=
  ∀ b, 0 ≤ b < covered t →
    match f !! b with
    | None => bit m t.(s_bitmap) b = false
    | Some (k, v) =>
        bit m t.(s_bitmap) b = true ∧
        peek m (sram_get_entry t b) (Z.to_nat t.(s_key_len)) = k ∧
        peek m (shift (sram_get_entry t b) t.(s_key_len)) (Z.to_nat t.(s_val_len)) = v
    end.

(** The arguments of an operation: a key and a value of the lengths of the table, the
    key in a bucket with a bit of its own. *)
Definition op_ok (t : LogicSram) (op : SramOp) : Prop :=
  zlen (op_key op) = t.(s_key_len) ∧ bucket t (op_key op) < covered t ∧
  match op with SInsert _ v => zlen v = t.(s_val_len) | _ => True end.

(** Bytes that are no bytes of the table. *)
Definition off_table (t : LogicSram) (c : Buffer) : Prop :=
  apart t.(s_bitmap) (t.(s_cap) / 8 + t.(s_cap) * s_entry_len t) c 1.

Section layout.
Context (t : LogicSram) (W : sram_wf t).

Lemma covered_cap : covered t ≤ t.(s_cap).
Proof. unfold covered. dlia. Qed.

Lemma bucket_range key : 0 ≤ bucket t key < t.(s_cap).
Proof. apply Z.mod_pos_bound. apply W. Qed.

Lemma entry_len_nonneg : 0 ≤ s_entry_len t.
Proof. unfold s_entry_len. pose proof (wf_key _ W). pose proof (wf_val _ W). lia. Qed.

Lemma get_bucket_id_ok key :
  zlen key = t.(s_key_len) → get_bucket_id t key t.(s_key_len) = Value (bucket t key).
Proof.
  intros Hk. unfold get_bucket_id. pose proof (wf_key _ W). pose proof (wf_cap _ W). rewrite Z.max_r by done. rewrite first_bytes_len by done.
  cbn [mbind outcome_mbind]. unfold SIZE_T. rewrite (Z.mod_small (s_cap t)) by lia. zcmp.
  pose proof (bucket_range key). unfold bucket in *. rewrite i32_small by lia. done.
Qed.

(** Where things lie. *)
Lemma entry_place b i : shift (sram_get_entry t b) i = shift t.(s_bitmap) (t.(s_cap) / 8 + b * s_entry_len t + i).
Proof. unfold sram_get_entry. rewrite (wf_data _ W), !shift_shift. f_equal. lia. Qed.

Lemma entry_fits b : 0 ≤ b < t.(s_cap) → b * s_entry_len t + s_entry_len t ≤ t.(s_cap) * s_entry_len t.
Proof. intros. pose proof entry_len_nonneg. nia. Qed.

Lemma entry_inside b i n :
  0 ≤ b < t.(s_cap) → 0 ≤ i → i + n ≤ s_entry_len t → inside (shift (sram_get_entry t b) i) n = true.
Proof.
  intros Hb Hi Hn. rewrite entry_place. apply (inside_part _ _ _ _ (wf_room _ W)).
  - pose proof entry_len_nonneg. pose proof (wf_cap _ W). assert (0 ≤ t.(s_cap) / 8) by dlia. nia.
  - pose proof (entry_fits b Hb). lia.
Qed.

Lemma entry_inside_0 b n : 0 ≤ b < t.(s_cap) → n ≤ s_entry_len t → inside (sram_get_entry t b) n = true.
Proof. intros. rewrite <- (shift_0 (sram_get_entry t b)). by apply entry_inside. Qed.

Lemma bit_inside_ok b : 0 ≤ b < covered t → bit_inside t.(s_bitmap) b = true.
Proof.
  intros Hb. apply (inside_part _ _ _ _ (wf_room _ W)); [dlia|]. unfold covered in Hb.
  pose proof entry_len_nonneg. pose proof (wf_cap _ W). assert (0 ≤ t.(s_cap) * s_entry_len t) by nia. dlia.
Qed.

Lemma entry_apart_bit b i n q :
  0 ≤ b → 0 ≤ i → 0 ≤ q < covered t → apart (shift (sram_get_entry t b) i) n (shift t.(s_bitmap) (q / 8)) 1.
Proof.
  intros Hb Hi Hq. rewrite entry_place. right. right. cbn. pose proof entry_len_nonneg. unfold covered in Hq.
  assert (q / 8 + 1 ≤ t.(s_cap) / 8) by dlia. assert (0 ≤ b * s_entry_len t) by nia. lia.
Qed.

Lemma bit_apart_entry b i n q :
  0 ≤ b → 0 ≤ i → 0 ≤ q < covered t → apart (shift t.(s_bitmap) (q / 8)) 1 (shift (sram_get_entry t b) i) n.
Proof.
  intros Hb Hi Hq. destruct (entry_apart_bit b i n q Hb Hi Hq) as [H|H].
  - left. rewrite <- H. unfold same_bank. rewrite Z.eqb_sym. f_equal. apply bool_decide_ext. done.
  - right. lia.
Qed.

Lemma entries_apart b c i j n k :
  b ≠ c → 0 ≤ i → 0 ≤ j → i + n ≤ s_entry_len t → j + k ≤ s_entry_len t →
  apart (shift (sram_get_entry t b) i) n (shift (sram_get_entry t c) j) k.
Proof.
  intros Hbc Hi Hj Hn Hk. rewrite !entry_place. right. cbn. pose proof entry_len_nonneg.
  destruct (Z.lt_total b c) as [H1|[H1|H1]]; [left; nia|congruence|right; nia].
Qed.

Lemma parts_apart b n : n ≤ t.(s_key_len) → ∀ k, apart (shift (sram_get_entry t b) t.(s_key_len)) k (sram_get_entry t b) n.
Proof. intros Hn k. right. right. cbn. lia. Qed.
End layout.

#[export] Hint Resolve covered_cap bucket_range entry_len_nonneg : ipbm.


(** Storing in the table leaves the bytes outside it as they are. *)
Lemma cell_poke_off t m j bs c :
  off_table t c → 0 ≤ j → j + zlen bs ≤ t.(s_cap) / 8 + t.(s_cap) * s_entry_len t →
  cell (poke m (shift t.(s_bitmap) j) bs) c = cell m c.
Proof.
  intros Hoff Hj Hn. rewrite cell_poke. change (same_bank (shift t.(s_bitmap) j) c) with (same_bank t.(s_bitmap) c).
  destruct Hoff as [->|Hoff]; [done|]. destruct (same_bank _ _); [|done]. cbn [shift buf_pos andb]. zcmp.
Qed.

Definition frame (t : LogicSram) (m m' : Memory) : Prop := ∀ c, off_table t c → cell m' c = cell m c.

Section operations.
Context (t : LogicSram) (W : sram_wf t).

Lemma entry_poke_off m b i bs c :
  off_table t c → 0 ≤ b < t.(s_cap) → 0 ≤ i → i + zlen bs ≤ s_entry_len t →
  cell (poke m (shift (sram_get_entry t b) i) bs) c = cell m c.
Proof.
  intros Hoff Hb Hi Hn. rewrite entry_place by done. pose proof (entry_len_nonneg t W). pose proof (wf_cap _ W).
  pose proof (entry_fits t W b Hb). assert (0 ≤ t.(s_cap) / 8) by dlia.
  apply cell_poke_off; [done|nia|lia].
Qed.

Lemma bit_poke_off m b x c :
  off_table t c → 0 ≤ b < covered t → cell (poke m (shift t.(s_bitmap) (b / 8)) [x]) c = cell m c.
Proof.
  intros Hoff Hb. pose proof (entry_len_nonneg t W). pose proof (wf_cap _ W). unfold covered in Hb.
  assert (0 ≤ t.(s_cap) * s_entry_len t) by nia. apply cell_poke_off; [done|dlia|]. unfold zlen. cbn. dlia.
Qed.

(** The memory after an entry was stored in a bucket. *)
Lemma insert_holds m f b x k v :
  holds t m f → 0 ≤ b < covered t → zlen k = t.(s_key_len) → zlen v = t.(s_val_len) →
  let m1 := poke m (shift t.(s_bitmap) (b / 8)) [x] in
  (∀ q, 0 ≤ q → bit m1 t.(s_bitmap) q = (q =? b) || bit m t.(s_bitmap) q) →
  holds t (poke (poke m1 (sram_get_entry t b) k) (shift (sram_get_entry t b) t.(s_key_len)) v) (<[b := (k, v)]> f).
Proof.
  intros Hf Hb Hk Hv m1 Hm1 c Hc. pose proof (wf_key _ W). pose proof (wf_val _ W).
  assert (Hel : s_entry_len t = t.(s_key_len) + t.(s_val_len)) by done.
  pose proof (shift_0 (sram_get_entry t b)) as E0.
  assert (Hbit : bit (poke (poke m1 (sram_get_entry t b) k) (shift (sram_get_entry t b) t.(s_key_len)) v)
    t.(s_bitmap) c = (c =? b) || bit m t.(s_bitmap) c).
  { rewrite bit_poke_apart by (apply entry_apart_bit; lia || done). rewrite <- E0 at 1.
    rewrite bit_poke_apart by (apply entry_apart_bit; lia || done). by apply Hm1; lia. }
  rewrite Hbit. destruct (decide (b = c)) as [<-|Hne].
  - rewrite lookup_insert_eq, Z.eqb_refl. split; [done|]. split.
    + rewrite peek_poke_apart by (apply parts_apart; lia).
      replace (Z.to_nat t.(s_key_len)) with (length k) by (unfold zlen in Hk; lia). apply peek_poke_same.
    + replace (Z.to_nat t.(s_val_len)) with (length v) by (unfold zlen in Hv; lia). apply peek_poke_same.
  - rewrite lookup_insert_ne by done. specialize (Hf c Hc).
    destruct (Z.eqb_spec c b) as [->|_]; [done|]. cbn [orb].
    assert (Hpeek : ∀ i n, 0 ≤ i → i + Z.of_nat n ≤ s_entry_len t →
      peek (poke (poke m1 (sram_get_entry t b) k) (shift (sram_get_entry t b) t.(s_key_len)) v)
        (shift (sram_get_entry t c) i) n = peek m (shift (sram_get_entry t c) i) n).
    { intros i n Hi Hn. rewrite peek_poke_apart by (apply entries_apart; lia || done). rewrite <- E0 at 1.
      rewrite peek_poke_apart by (apply entries_apart; lia || done).
      apply peek_poke_apart, bit_apart_entry; lia || done. }
    destruct (f !! c) as [[k' v']|]; [|done]. destruct Hf as (H1 & H2 & H3). split; [done|].
    pose proof (Hpeek 0 (Z.to_nat t.(s_key_len))) as H4. rewrite shift_0 in H4. rewrite H4, Hpeek by lia. done.
Qed.

Lemma erase_holds m f b x :
  holds t m f → 0 ≤ b < covered t →
  let m1 := poke m (shift t.(s_bitmap) (b / 8)) [x] in
  (∀ q, 0 ≤ q → bit m1 t.(s_bitmap) q = negb (q =? b) && bit m t.(s_bitmap) q) →
  holds t m1 (delete b f).
Proof.
  intros Hf Hb m1 Hm1 c Hc. specialize (Hf c Hc). rewrite Hm1 by lia. destruct (decide (b = c)) as [<-|Hne].
  - by rewrite lookup_delete_eq, Z.eqb_refl.
  - rewrite lookup_delete_ne by done. destruct (Z.eqb_spec c b) as [->|]; [done|]. cbn [negb andb].
    destruct (f !! c) as [[k v]|]; [|done]. destruct Hf as (H1 & H2 & H3). split; [done|].
    unfold m1. rewrite <- (shift_0 (sram_get_entry t c)) at 1.
    rewrite !peek_poke_apart by (apply bit_apart_entry; pose proof (wf_key _ W); lia || done).
    by rewrite shift_0.
Qed.

(** An operation does what it does to the map, and leaves the bytes outside. *)
Lemma do_refines op m f :
  holds t m f → op_ok t op →
  ∃ m', sram_do t op m = Value ((bucket_do t op f).1, m') ∧ holds t m' (bucket_do t op f).2 ∧ frame t m m'.
Proof.
  intros Hf (Hk & Hb & Hop). pose proof (bucket_range t W (op_key op)) as Hr.
  pose proof (Hf _ (conj (proj1 Hr) Hb)) as Hfb. unfold bucket_do.
  pose proof (wf_key _ W) as Hkl. pose proof (wf_val _ W) as Hvl.
  assert (Htest : bitmap_test m t.(s_bitmap) (bucket t (op_key op)) = Value (bit m t.(s_bitmap) (bucket t (op_key op))))
    by (apply bitmap_test_bit; [lia|apply bit_inside_ok; [done|lia]]).
  destruct op as [k v|k|k]; cbn [op_key sram_do] in *; unfold sram_insert, sram_erase, sram_match_exact;
    rewrite get_bucket_id_ok by done; cbn [mbind outcome_mbind]; rewrite Htest; cbn [mbind outcome_mbind];
    destruct (f !! bucket t k) as [[k' v']|] eqn:E.
  - destruct Hfb as (-> & _ & _). eexists; split; [done|]. by split; [|intros c ?].
  - rewrite Hfb. destruct (bitmap_set_spec m t.(s_bitmap) (bucket t k)) as (x & -> & Hx); [lia|apply bit_inside_ok; [done|lia]|].
    cbn [mbind outcome_mbind]. rewrite (first_bytes_len k) by done. cbn [mbind outcome_mbind].
    rewrite store_inside by (apply entry_inside_0; unfold s_entry_len; lia || done). cbn [mbind outcome_mbind].
    rewrite (first_bytes_len v) by done. cbn [mbind outcome_mbind].
    rewrite store_inside by (apply entry_inside; unfold s_entry_len; lia || done).
    eexists; split; [done|]. split; [apply insert_holds; done || lia|].
    intros c Hc. cbn [snd]. rewrite entry_poke_off by (unfold s_entry_len; lia || done).
    rewrite <- (shift_0 (sram_get_entry t (bucket t k))), entry_poke_off by (unfold s_entry_len; lia || done).
    apply bit_poke_off; [done|lia].
  - destruct Hfb as (-> & _ & _). destruct (bitmap_reset_spec m t.(s_bitmap) (bucket t k)) as (x & -> & Hx); [lia|apply bit_inside_ok; [done|lia]|].
    eexists; split; [done|]. split; [apply erase_holds; done || lia|]. intros c Hc. apply bit_poke_off; [done|lia].
  - rewrite Hfb. eexists; split; [done|]. by split; [|intros c ?].
  - destruct Hfb as (-> & Hk' & Hv'). 
    rewrite load_inside by (done || (apply entry_inside_0; unfold s_entry_len; lia || done)). rewrite Hk'.
    cbn [mbind outcome_mbind]. rewrite (first_bytes_len k) by done. cbn [mbind outcome_mbind].
    case_bool_decide as Heq.
    + cbn [mbind outcome_mbind mret outcome_mret]. zcmp.
      rewrite load_inside by (done || (apply entry_inside; unfold s_entry_len; lia || done)). rewrite Hv'.
      eexists; split; [done|]. by split; [|intros c ?].
    + eexists; split; [done|]. by split; [|intros c ?].
  - rewrite Hfb. cbn [mbind outcome_mbind mret outcome_mret]. rewrite Z.eqb_refl. eexists; split; [done|].
    by split; [|intros c ?].
Qed.

Lemma run_refines ops m f :
  holds t m f → Forall (op_ok t) ops →
  ∃ m', sram_run t ops m = Value ((bucket_run t ops f).1, m') ∧ holds t m' (bucket_run t ops f).2 ∧ frame t m m'.
Proof.
  intros Hf Hops. revert m f Hf. induction Hops as [|op ops Hop _ IH]; intros m f Hf; cbn [sram_run bucket_run].
  - exists m. by split_and!.
  - destruct (do_refines op m f Hf Hop) as (m1 & -> & Hf1 & Hfr1). cbn [mbind outcome_mbind].
    destruct (IH m1 _ Hf1) as (m2 & -> & Hf2 & Hfr2). exists m2. split_and!; [done|done|].
    intros c Hc. by rewrite Hfr2, Hfr1.
Qed.
End operations.

(** A new table is a table of its memory, and has no entry. *)
Lemma make_sram_ok phy kl vl cap m t m' :
  make_sram phy kl vl cap m = Value (t, m') → 0 < cap < 2147483648 → 0 ≤ kl → 0 ≤ vl →
  0 ≤ at_ m.(physical_sram_top) phy → zlen m.(physical_sram_top) = NUM_PHYSICAL_SRAM →
  sram_wf t ∧ holds t m' ∅ ∧ frame t m m' ∧
  t = mkLogicSram (mkBuffer MEM_SRAM phy (at_ m.(physical_sram_top) phy))
        (mkBuffer MEM_SRAM phy (at_ m.(physical_sram_top) phy + cap / 8)) kl vl cap ∧
  m'.(physical_sram_top) = <[Z.to_nat phy := at_ m.(physical_sram_top) phy + (cap / 8 + cap * (kl + vl))]> m.(physical_sram_top).
Proof.
  unfold make_sram, alloc_logical_sram. intros H Hcap Hkl Hvl Htop Hlen. rewrite Z.quot_div_nonneg in H by lia.
  destruct (rd m.(physical_sram_top) phy) as [top|] eqn:Erd; [|done]. cbn [lift mbind outcome_mbind] in H.
  pose proof (rd_ok_inv _ _ _ Erd) as [Hphy Hl]. rewrite (rd_at _ _ Hphy) in Erd. injection Erd as Etop. rewrite Etop in *.
  destruct (Z.ltb_spec PHYSICAL_SRAM_CAPACITY (top + (cap / 8 + cap * (kl + vl)))) as [|Hroom]; [done|].
  cbn [mbind outcome_mbind mret outcome_mret] in H.
  assert (Hin : inside (mkBuffer MEM_SRAM phy top) (cap / 8 + cap * (kl + vl)) = true).
  { unfold inside. cbn [buf_mem buf_phy buf_pos num_physical capacity]. rewrite !andb_true_iff, !Z.leb_le, Z.ltb_lt. lia. }
  assert (Hbm : inside (mkBuffer MEM_SRAM phy top) (cap / 8) = true).
  { rewrite <- (shift_0 (mkBuffer _ _ _)). apply (inside_part _ _ _ _ Hin); [lia|]. assert (0 ≤ cap * (kl + vl)) by nia. lia. }
  destruct (bitmap_init_spec (mkMemory m.(cells) (<[Z.to_nat phy := top + (cap / 8 + cap * (kl + vl))]> m.(physical_sram_top))
    m.(physical_tcam_top)) (mkBuffer MEM_SRAM phy top) (cap / 8)) as [E Hz]; [dlia|done|].
  rewrite E in H. cbn [mbind outcome_mbind mret outcome_mret] in H. injection H as <- <-. split; [|split; [|split; [|split]]].
  - constructor; done.
  - intros b Hb. rewrite lookup_empty. apply Hz. exact Hb.
  - intros c Hc. rewrite <- (shift_0 (mkBuffer MEM_SRAM phy top)).
    rewrite (cell_poke_off (mkLogicSram (mkBuffer MEM_SRAM phy top) (mkBuffer MEM_SRAM phy (top + cap / 8)) kl vl cap)); [done|done|lia|].
    rewrite zlen_replicate. cbn [s_cap]. unfold s_entry_len. cbn. assert (0 ≤ cap / 8) by dlia. assert (0 ≤ cap * (kl + vl)) by nia. lia.
  - done.
  - by destruct (poke_tops (mkMemory m.(cells) (<[Z.to_nat phy := top + (cap / 8 + cap * (kl + vl))]> m.(physical_sram_top))
      m.(physical_tcam_top)) (mkBuffer MEM_SRAM phy top) (replicate (Z.to_nat (cap / 8)) 0)) as [-> _].
Qed.

(** C32. A logical table in SRAM does what its map of buckets does: a table that was
    made in a memory with room answers every sequence of insertions, deletions and
    lookups as a map with an entry for every bucket does, when the keys and values have
    the lengths of the table and the buckets of the keys have bits of their own.  An
    entry is found until its bucket is cleared; a second key of a bucket is refused; a
    lookup of it throws; a deletion clears the bucket for whatever key.  No other byte
    of the memories changes. *)
Theorem sram_table_refines phy kl vl cap m t m0 ops :
  make_sram phy kl vl cap m = Value (t, m0) → 0 < cap < 2147483648 → 0 ≤ kl → 0 ≤ vl →
  0 ≤ at_ m.(physical_sram_top) phy → zlen m.(physical_sram_top) = NUM_PHYSICAL_SRAM →
  Forall (op_ok t) ops →
  ∃ m', sram_run t ops m0 = Value ((bucket_run t ops ∅).1, m') ∧ frame t m m'.
Proof.
  intros Hmake Hcap Hkl Hvl Htop Hlen Hops.
  destruct (make_sram_ok phy kl vl cap m t m0) as (W & H0 & Hfr & _); [done..|].
  destruct (run_refines t W ops m0 ∅ H0 Hops) as (m' & Hrun & _ & Hfr'). exists m'. split; [done|].
  intros c Hc. by rewrite Hfr', Hfr.
Qed.

(** ** The buckets without a bit

    The number of bytes of the bitmap is rounded down: when the capacity is no multiple
    of eight, the bits of the last buckets are the first byte of the entries. *)
Lemma sram_found t m k pos :
  sram_wf t → zlen k = t.(s_key_len) → sram_match_exact k t m = Value pos → pos < t.(s_cap) → 0 < covered t →
  pos = bucket t k ∧ (pos < covered t → bit m t.(s_bitmap) pos = true) ∧
  peek m (sram_get_entry t pos) (Z.to_nat t.(s_key_len)) = k.
Proof.
  intros W Hk H Hpos Hcov. unfold sram_match_exact in H. rewrite get_bucket_id_ok in H by done. cbn [mbind outcome_mbind] in H.
  destruct (bitmap_test m t.(s_bitmap) (bucket t k)) as [[]| | | |] eqn:Et; cbn [mbind outcome_mbind] in H; [|inv_value; lia|done..].
  pose proof (bucket_range t W k). pose proof (wf_key _ W).
  rewrite load_inside in H by (done || (apply entry_inside_0; unfold s_entry_len; pose proof (wf_val _ W); lia || done)).
  rewrite first_bytes_len in H by done. cbn [mbind outcome_mbind] in H. case_bool_decide as Heq; [|done]. inv_value.
  split_and!; [done| |done]. intros Hc. rewrite bitmap_test_bit in Et by (lia || (apply bit_inside_ok; [done|lia])).
  by injection Et.
Qed.

(** C40. The entry that is overwritten by a bit: in a table whose capacity is no multiple
    of eight, an entry in bucket 0, which was found until then, is not found any more
    after a key was inserted whose bucket has no bit of its own, if the first byte of
    its key has a zero where that bit goes.  The insertion reports no error, and from
    then on every lookup of the first key throws.  In the switch all tables have 257
    buckets, and the first byte of a key is the number of its flow table, which is less
    than 32, so that every key of bucket 0 is lost when a key of bucket 256 comes. *)
Theorem last_bucket_overwrites t m k0 k1 v1 :
  sram_wf t → 8 ≤ t.(s_cap) → 0 < t.(s_key_len) →
  zlen k0 = t.(s_key_len) → zlen k1 = t.(s_key_len) → zlen v1 = t.(s_val_len) →
  sram_match_exact k0 t m = Value 0 →
  covered t ≤ bucket t k1 → Z.testbit (at_ k0 0) (7 - bucket t k1 mod 8) = false →
  ∃ m', sram_insert k1 v1 t m = Value (t, m') ∧
    sram_match_exact k0 t m' = Throws (runtime_error "Unsolved hash table conflict").
Proof.
  intros W Hcap Hkl Hk0 Hk1 Hv1 Hfound Hb1 Hclear. pose proof (bucket_range t W k1) as Hr.
  assert (Hcov : 8 ≤ covered t) by (unfold covered; dlia).
  destruct (sram_found t m k0 0 W Hk0 Hfound) as (Hb0 & Hbit0 & Hpeek0); [lia|lia|].
  specialize (Hbit0 ltac:(lia)). pose proof (wf_val _ W) as Hvl.
  assert (Hel : s_entry_len t = t.(s_key_len) + t.(s_val_len)) by done.
  assert (Hdiv : bucket t k1 / 8 = t.(s_cap) / 8) by (unfold covered in *; dlia).
  assert (Hfirst : shift t.(s_bitmap) (bucket t k1 / 8) = sram_get_entry t 0).
  { unfold sram_get_entry. by rewrite (wf_data _ W), Z.mul_0_l, shift_0, Hdiv. }
  assert (Hin : bit_inside t.(s_bitmap) (bucket t k1) = true).
  { unfold bit_inside. rewrite Hfirst. apply entry_inside_0; [done|lia..]. }
  assert (Hold : bit m t.(s_bitmap) (bucket t k1) = false).
  { unfold bit. rewrite Hfirst, <- Hclear. f_equal. rewrite <- Hpeek0. by rewrite at_peek, shift_0 by lia. }
  unfold sram_insert. rewrite get_bucket_id_ok by done. cbn [mbind outcome_mbind].
  rewrite bitmap_test_bit by (done || lia). rewrite Hold. cbn [mbind outcome_mbind].
  destruct (bitmap_set_spec m t.(s_bitmap) (bucket t k1)) as (x & -> & Hx); [lia|done|].
  cbn [mbind outcome_mbind]. rewrite (first_bytes_len k1) by done. cbn [mbind outcome_mbind].
  rewrite store_inside by (apply entry_inside_0; done || lia). cbn [mbind outcome_mbind].
  rewrite (first_bytes_len v1) by done. cbn [mbind outcome_mbind].
  rewrite store_inside by (apply entry_inside; done || lia). cbn [mbind outcome_mbind mret outcome_mret].
  eexists; split; [done|]. set (m1 := poke m _ [x]) in *. set (m3 := poke (poke m1 _ _) _ _).
  assert (E0 : ∀ c, 0 ≤ c < 8 ∨ c = bucket t k1 → bit m3 t.(s_bitmap) c = bit m1 t.(s_bitmap) c).
  { intros c Hc. assert (Hap : ∀ i n, 0 ≤ i → i + n ≤ s_entry_len t → apart (shift (sram_get_entry t (bucket t k1)) i) n (shift t.(s_bitmap) (c / 8)) 1).
    { intros i n Hi Hn. destruct Hc as [Hc| ->]; [by apply entry_apart_bit; [done|lia..]|].
      rewrite Hfirst, <- (shift_0 (sram_get_entry t 0)). apply entries_apart; done || lia. }
    unfold m3. rewrite bit_poke_apart by (apply Hap; lia). rewrite <- (shift_0 (sram_get_entry t (bucket t k1))).
    apply bit_poke_apart, Hap; lia. }
  unfold sram_match_exact. rewrite get_bucket_id_ok by done. cbn [mbind outcome_mbind]. rewrite <- Hb0.
  rewrite bitmap_test_bit by (done || apply bit_inside_ok; done || lia). rewrite E0, Hx, Hbit0, orb_true_r by lia.
  cbn [mbind outcome_mbind]. rewrite load_inside by (done || lia || (apply entry_inside_0; done || lia)).
  rewrite first_bytes_len by done. cbn [mbind outcome_mbind]. rewrite bool_decide_eq_false_2; [done|].
  intros Heq. assert (Hset : bit m3 t.(s_bitmap) (bucket t k1) = true) by (rewrite E0, Hx, Z.eqb_refl by lia; done).
  unfold bit in Hset. rewrite Hfirst in Hset. rewrite <- Heq, at_peek, shift_0 in Hclear by lia. congruence.
Qed.

(** ** What a TCAM table does

    A TCAM table is the sequence of its entries. *)
Definition t_entry (t : LogicTcam) (pos : Z) : Buffer := shift t.(t_buf) (pos * t_entry_len t).

Definition t_entries (t : LogicTcam) (m : Memory) : list (list Z * list Z) :=
  (λ i, (peek m (t_entry t i) (Z.to_nat t.(t_key_len)), peek m (shift (t_entry t i) t.(t_key_len)) (Z.to_nat t.(t_val_len))))
    <$> seqZ 0 t.(t_size).

(** The first entry with a key, or the number of the entries. *)
Fixpoint first_entry (key : list Z) (l : list (list Z * list Z)) : Z :=
  match l with
  | [] => 0
  | e :: l' => if bool_decide (e.1 = key) then 0 else 1 + first_entry key l'
  end.

Record tcam_wf (t : LogicTcam) : Prop := {
  twf_key : 0 ≤ t.(t_key_len);
  twf_val : 0 ≤ t.(t_val_len);
  twf_size : 0 ≤ t.(t_size) ≤ t.(t_cap);
  twf_room : inside t.(t_buf) (t_entry_len t * t.(t_cap)) = true
}.

Lemma first_entry_range key l : 0 ≤ first_entry key l ≤ zlen l.
Proof.
  unfold zlen. induction l as [|e l IH]; cbn [first_entry length]; [lia|]. case_bool_decide; lia.
Qed.

Lemma first_entry_key key l : first_entry key l < zlen l → fst <$> l !! Z.to_nat (first_entry key l) = Some key.
Proof.
  unfold zlen. induction l as [|e l IH]; cbn [first_entry length]; [lia|]. case_bool_decide as He; [by subst|].
  intros H. pose proof (first_entry_range key l). replace (Z.to_nat (1 + first_entry key l)) with (S (Z.to_nat (first_entry key l))) by lia.
  apply IH. lia.
Qed.

Section tcam.
Context (t : LogicTcam) (W : tcam_wf t).

Lemma t_len_nonneg : 0 ≤ t_entry_len t.
Proof. unfold t_entry_len. pose proof (twf_key _ W). pose proof (twf_val _ W). lia. Qed.

Lemma t_entries_length m : length (t_entries t m) = Z.to_nat t.(t_size).
Proof. unfold t_entries. by rewrite length_fmap, length_seqZ. Qed.

Lemma t_get_entry pos : pos < t.(t_cap) → tcam_get_entry t pos = Value (t_entry t pos).
Proof. intros. unfold tcam_get_entry. zcmp. Qed.

Lemma t_inside pos i n :
  0 ≤ pos < t.(t_cap) → 0 ≤ i → i + n ≤ t_entry_len t → inside (shift (t_entry t pos) i) n = true.
Proof.
  intros Hp Hi Hn. unfold t_entry. rewrite shift_shift. pose proof t_len_nonneg.
  apply (inside_part _ _ _ _ (twf_room _ W)); nia.
Qed.

Lemma t_inside_0 pos n : 0 ≤ pos < t.(t_cap) → n ≤ t_entry_len t → inside (t_entry t pos) n = true.
Proof. intros. rewrite <- (shift_0 (t_entry t pos)). by apply t_inside. Qed.

Lemma t_apart p q i j n k :
  p ≠ q → 0 ≤ i → 0 ≤ j → i + n ≤ t_entry_len t → j + k ≤ t_entry_len t →
  apart (shift (t_entry t p) i) n (shift (t_entry t q) j) k.
Proof.
  intros Hpq Hi Hj Hn Hk. right. cbn. pose proof t_len_nonneg.
  destruct (Z.lt_total p q) as [H1|[H1|H1]]; [left; nia|congruence|right; nia].
Qed.

(** The entry that is stored at a place, and those that were there before. *)
Lemma t_entry_stored m pos k v q :
  zlen k = t.(t_key_len) → zlen v = t.(t_val_len) →
  let m' := poke (poke m (t_entry t pos) k) (shift (t_entry t pos) t.(t_key_len)) v in
  peek m' (t_entry t q) (Z.to_nat t.(t_key_len)) =
    (if q =? pos then k else peek m (t_entry t q) (Z.to_nat t.(t_key_len))) ∧
  peek m' (shift (t_entry t q) t.(t_key_len)) (Z.to_nat t.(t_val_len)) =
    (if q =? pos then v else peek m (shift (t_entry t q) t.(t_key_len)) (Z.to_nat t.(t_val_len))).
Proof.
  intros Hk Hv m'. pose proof (twf_key _ W). pose proof (twf_val _ W). pose proof (shift_0 (t_entry t pos)) as E0.
  assert (Hel : t_entry_len t = t.(t_key_len) + t.(t_val_len)) by done.
  unfold m'. destruct (Z.eqb_spec q pos) as [->|Hne].
  - split.
    + rewrite peek_poke_apart by (right; right; cbn; lia).
      replace (Z.to_nat t.(t_key_len)) with (length k) by (unfold zlen in Hk; lia). apply peek_poke_same.
    + replace (Z.to_nat t.(t_val_len)) with (length v) by (unfold zlen in Hv; lia). apply peek_poke_same.
  - assert (Hp : ∀ i n, 0 ≤ i → i + Z.of_nat n ≤ t_entry_len t →
      peek (poke (poke m (t_entry t pos) k) (shift (t_entry t pos) t.(t_key_len)) v) (shift (t_entry t q) i) n =
        peek m (shift (t_entry t q) i) n).
    { intros i n Hi Hn. rewrite peek_poke_apart by (apply t_apart; lia || done). rewrite <- E0 at 1.
      apply peek_poke_apart, t_apart; lia || done. }
    split; [rewrite <- (shift_0 (t_entry t q))|]; apply Hp; lia.
Qed.

Lemma tcam_insert_spec m k v :
  zlen k = t.(t_key_len) → zlen v = t.(t_val_len) → t.(t_size) < t.(t_cap) →
  ∃ t' m', tcam_insert k v t m = Value (t', m') ∧ tcam_wf t' ∧ t_entries t' m' = t_entries t m ++ [(k, v)].
Proof.
  intros Hk Hv Hs. unfold tcam_insert. pose proof (twf_key _ W). pose proof (twf_val _ W). pose proof (twf_size _ W).
  assert (Hel : t_entry_len t = t.(t_key_len) + t.(t_val_len)) by done.
  zcmp. rewrite t_get_entry by done. cbn [mbind outcome_mbind]. rewrite (first_bytes_len k) by done. cbn [mbind outcome_mbind].
  rewrite store_inside by (apply t_inside_0; lia). cbn [mbind outcome_mbind].
  rewrite (first_bytes_len v) by done. cbn [mbind outcome_mbind].
  rewrite store_inside by (apply t_inside; lia). cbn [mbind outcome_mbind mret outcome_mret].
  eexists _, _; split; [done|]. split; [destruct W; constructor; cbn; done || lia|].
  unfold t_entries. cbn [t_size t_key_len t_val_len].
  replace (seqZ 0 (t_size t + 1)) with (seqZ 0 (t_size t) ++ [t_size t])
    by (rewrite seqZ_app by lia; by rewrite Z.add_0_l).
  rewrite fmap_app. cbn [fmap list_fmap]. f_equal.
  - apply list_fmap_ext. intros i q Hq. apply lookup_seqZ in Hq as [-> Hi].
    destruct (t_entry_stored m (t_size t) k v (0 + Z.of_nat i)) as [E1 E2]; [done..|].
    revert E1 E2. zcmp. intros E1 E2. f_equal; [exact E1|exact E2].
  - destruct (t_entry_stored m (t_size t) k v (t_size t)) as [E1 E2]; [done..|]. rewrite Z.eqb_refl in E1, E2.
    f_equal. f_equal; [exact E1|exact E2].
Qed.

Lemma tcam_exact_from_spec m k n i :
  zlen k = t.(t_key_len) → 0 ≤ i → i + Z.of_nat n = t.(t_size) →
  tcam_exact_from n i k t m = Value (i + first_entry k (drop (Z.to_nat i) (t_entries t m))).
Proof.
  intros Hk. revert i. induction n as [|n IH]; intros i Hi Hn; cbn [tcam_exact_from].
  - rewrite drop_ge by (rewrite t_entries_length; lia). cbn. by rewrite Z.add_0_r.
  - pose proof (twf_key _ W). pose proof (twf_val _ W). pose proof (twf_size _ W).
    rewrite t_get_entry by lia. cbn [mbind outcome_mbind].
    rewrite load_inside by (lia || (apply t_inside_0; unfold t_entry_len; lia)). cbn [mbind outcome_mbind].
    rewrite first_bytes_len by done. cbn [mbind outcome_mbind].
    assert (Hi' : t_entries t m !! Z.to_nat i = Some (peek m (t_entry t i) (Z.to_nat t.(t_key_len)),
      peek m (shift (t_entry t i) t.(t_key_len)) (Z.to_nat t.(t_val_len)))).
    { unfold t_entries. rewrite list_lookup_fmap, lookup_seqZ_lt by lia. cbn. by rewrite Z2Nat.id by lia. }
    rewrite (drop_S _ _ _ Hi'). cbn [first_entry fst]. case_bool_decide as He.
    + cbn. by rewrite Z.add_0_r.
    + rewrite IH by lia. f_equal. replace (Z.to_nat (i + 1)) with (S (Z.to_nat i)) by lia. lia.
Qed.

Lemma tcam_match_exact_spec m k :
  zlen k = t.(t_key_len) → tcam_match_exact k t m = Value (first_entry k (t_entries t m)).
Proof.
  intros Hk. unfold tcam_match_exact. pose proof (twf_size _ W). rewrite tcam_exact_from_spec by (done || lia).
  by rewrite drop_0.
Qed.
End tcam.

(** *** Deletion *)
Section tcam_erase.
Context (t : LogicTcam) (W : tcam_wf t).

Definition t_pair (m : Memory) (i : Z) : list Z * list Z :=
  (peek m (t_entry t i) (Z.to_nat t.(t_key_len)), peek m (shift (t_entry t i) t.(t_key_len)) (Z.to_nat t.(t_val_len))).

(** The memory after the entries behind [pos] were moved one place down. *)
Lemma t_pair_moved m pos i :
  0 ≤ pos < t.(t_size) → 0 ≤ i < t.(t_size) →
  let rest := peek m (shift (t_entry t pos) (t_entry_len t)) (Z.to_nat (t_entry_len t * (t.(t_size) - pos - 1))) in
  t_pair (poke m (t_entry t pos) rest) i =
    t_pair m (if (pos <=? i) && (i <? t.(t_size) - 1) then i + 1 else i).
Proof.
  intros Hp Hi rest. pose proof (t_len_nonneg t W) as Hel.
  assert (Hrest : zlen rest = t_entry_len t * (t.(t_size) - pos - 1)).
  { unfold rest, zlen. rewrite peek_length, Z2Nat.id; [done|]. apply Z.mul_nonneg_nonneg; lia. }
  assert (Hcell : ∀ j, 0 ≤ j < t_entry_len t → cell (poke m (t_entry t pos) rest) (shift (t_entry t i) j) =
    cell m (shift (t_entry t (if (pos <=? i) && (i <? t.(t_size) - 1) then i + 1 else i)) j)).
  { intros j Hj. rewrite cell_poke, Hrest. unfold same_bank, t_entry. cbn [shift buf_mem buf_phy buf_pos].
    rewrite bool_decide_eq_true_2, Z.eqb_refl by done. cbn [andb].
    destruct (Z.leb_spec pos i) as [Hpi|Hpi]; cbn [andb]; [destruct (Z.ltb_spec i (t.(t_size) - 1)) as [Hs|Hs]|].
    - rewrite (proj2 (Z.leb_le _ _)), (proj2 (Z.ltb_lt _ _)) by nia. cbn [andb].
      unfold rest. rewrite at_peek by nia. unfold t_entry. rewrite !shift_shift. f_equal.
      unfold shift. cbn. f_equal. lia.
    - rewrite (proj2 (Z.ltb_ge _ _)) by nia. by rewrite andb_false_r.
    - rewrite (proj2 (Z.leb_gt _ _)) by nia. done. }
  pose proof (twf_key _ W). pose proof (twf_val _ W).
  assert (Hlen : t_entry_len t = t.(t_key_len) + t.(t_val_len)) by done.
  unfold t_pair. apply (f_equal2 pair); apply peek_ext; intros j Hj.
  - apply Hcell. lia.
  - rewrite !shift_shift. apply Hcell. lia.
Qed.

Lemma t_entries_moved m pos :
  0 ≤ pos < t.(t_size) →
  let l := t_entries t m in
  let rest := peek m (shift (t_entry t pos) (t_entry_len t)) (Z.to_nat (t_entry_len t * (t.(t_size) - pos - 1))) in
  t_entries t (poke m (t_entry t pos) rest) =
    take (Z.to_nat pos) l ++ drop (S (Z.to_nat pos)) l ++ drop (Z.to_nat (t.(t_size) - 1)) l.
Proof.
  intros Hp l rest.
  assert (Hs : t_entries t (poke m (t_entry t pos) rest) =
    (λ i, t_pair m (if (pos <=? i) && (i <? t.(t_size) - 1) then i + 1 else i)) <$> seqZ 0 t.(t_size)).
  { unfold t_entries. apply list_fmap_ext. intros j i Hj. apply lookup_seqZ in Hj as [-> Hj].
    apply (t_pair_moved m pos); lia. }
  rewrite Hs. change l with (t_pair m <$> seqZ 0 t.(t_size)).
  rewrite <- fmap_take, <- !fmap_drop.
  assert (Hsplit : seqZ 0 t.(t_size) = seqZ 0 pos ++ seqZ pos (t.(t_size) - pos - 1) ++ [t.(t_size) - 1]).
  { replace (seqZ 0 t.(t_size)) with (seqZ 0 (pos + ((t.(t_size) - pos - 1) + 1))) by (f_equal; lia).
    rewrite !seqZ_app by lia. rewrite Z.add_0_l. do 2 f_equal.
    replace (pos + (t.(t_size) - pos - 1)) with (t.(t_size) - 1) by lia. done. }
  rewrite Hsplit at 1.
  rewrite !fmap_app. f_equal; [|f_equal].
  - rewrite Hsplit, take_app_length' by (by rewrite length_seqZ).
    apply list_fmap_ext. intros j i Hj. apply lookup_seqZ in Hj as [-> Hj]. zcmp.
  - replace (drop (S (Z.to_nat pos)) (seqZ 0 t.(t_size))) with (seqZ (1 + pos) (t.(t_size) - pos - 1)).
    2:{ replace (seqZ 0 t.(t_size)) with (seqZ 0 ((1 + pos) + (t.(t_size) - pos - 1))) by (f_equal; lia).
        rewrite seqZ_app by lia. rewrite drop_app_length'; [by rewrite Z.add_0_l|]. rewrite length_seqZ. lia. }
    rewrite <- fmap_add_seqZ, <- list_fmap_compose. apply list_fmap_ext. intros j i Hj. apply lookup_seqZ in Hj as [-> Hj].
    cbn. zcmp. f_equal. lia.
  - rewrite Hsplit, app_assoc, drop_app_length' by (rewrite length_app, !length_seqZ; lia).
    cbn. f_equal. f_equal. zcmp.
Qed.
End tcam_erase.

(** What a deletion from a logical table in TCAM does: the entries behind the first
    entry with the key move one place towards the start, but the table keeps its
    length, so that its last entry is there twice; in particular the last entry of a
    table can not be deleted, it is still found.  When no entry has the key, the length
    of the move is negative, or, in a full table, an exception is thrown.  [take pos l]
    are the entries before the one with the key. *)
Lemma tcam_erase_keeps_length t m k :
  tcam_wf t → zlen k = t.(t_key_len) →
  let l := t_entries t m in
  let pos := first_entry k l in
  (pos < t.(t_size) →
    ∃ m', tcam_erase k t m = Value (t, m') ∧
      t_entries t m' = take (Z.to_nat pos) l ++ drop (S (Z.to_nat pos)) l ++ drop (Z.to_nat (t.(t_size) - 1)) l ∧
      (pos = t.(t_size) - 1 → tcam_match_exact k t m' = Value pos)) ∧
  (pos = t.(t_size) → 0 < t_entry_len t →
    tcam_erase k t m =
      if t.(t_size) =? t.(t_cap) then Throws (out_of_range "TCAM entry out of range") else Undefined BadLength).
Proof.
  intros W Hk l pos. pose proof (twf_size _ W) as Hs. pose proof (first_entry_range k l) as Hr.
  assert (Hl : zlen l = t.(t_size)) by (unfold zlen, l; rewrite t_entries_length; lia).
  unfold tcam_erase. rewrite tcam_match_exact_spec by done. cbn [mbind outcome_mbind]. fold l. fold pos. fold pos in Hr.
  pose proof (t_len_nonneg t W) as Hel. split.
  - intros Hpos. rewrite t_get_entry by lia. cbn [mbind outcome_mbind].
    assert (0 ≤ t_entry_len t * (t.(t_size) - pos - 1)) by nia.
    assert (Hin : inside t.(t_buf) (t_entry_len t * t.(t_size)) = true).
    { rewrite <- (shift_0 t.(t_buf)). apply (inside_part _ _ _ _ (twf_room _ W)); nia. }
    rewrite load_inside.
    2: done.
    2:{ unfold t_entry. rewrite shift_shift. apply (inside_part _ _ _ _ Hin); nia. }
    cbn [mbind outcome_mbind]. rewrite store_inside.
    2:{ unfold zlen. rewrite peek_length, Z2Nat.id by done. apply (inside_part _ _ _ _ Hin); nia. }
    cbn [mbind outcome_mbind mret outcome_mret]. eexists; split; [done|]. split; [apply t_entries_moved; done || lia|].
    intros Hlast. rewrite tcam_match_exact_spec by done. rewrite t_entries_moved by (done || lia). fold l.
    rewrite (drop_ge l (S (Z.to_nat pos))) by (unfold zlen in Hl; lia). cbn [app]. rewrite <- Hlast, take_drop. done.
  - intros Hpos Hpl. destruct (Z.eqb_spec t.(t_size) t.(t_cap)) as [He|He].
    + unfold tcam_get_entry. zcmp.
    + rewrite t_get_entry by lia. cbn [mbind outcome_mbind]. unfold load. rewrite (proj2 (Z.ltb_lt _ 0)) by nia. done.
Qed.

(** ** A flow table on a logical table in SRAM *)
Section on_sram.
Context (tab : FlowTable) (i : Z) (t : LogicSram) (W : sram_wf t).
Context (Hlogic : tab.(ft_logic_table) = Some i).
Context (Hkl : 0 ≤ tab.(ft_key_len)) (Hkey : tab.(ft_key_len) + 1 ≤ t.(s_key_len)).
Context (Hvl : 0 ≤ tab.(ft_val_len)) (Hval : tab.(ft_val_len) ≤ t.(s_val_len)).

(** The key and the value as they lie in the table. *)
Definition tag_key (key : list Z) : list Z :=
  tab.(ft_tag) :: key ++ replicate (Z.to_nat (t.(s_key_len) - (tab.(ft_key_len) + 1))) 0.
Definition pad_val (val : list Z) : list Z := val ++ replicate (Z.to_nat (t.(s_val_len) - tab.(ft_val_len))) 0.

Lemma tag_key_length key : zlen key = tab.(ft_key_len) → zlen (tag_key key) = t.(s_key_len).
Proof. unfold tag_key, zlen. cbn. rewrite length_app, length_replicate. lia. Qed.
Lemma pad_val_length val : zlen val = tab.(ft_val_len) → zlen (pad_val val) = t.(s_val_len).
Proof. unfold pad_val, zlen. rewrite length_app, length_replicate. lia. Qed.

Lemma tag_key_inj k1 k2 : zlen k1 = zlen k2 → tag_key k1 = tag_key k2 → k1 = k2.
Proof. unfold tag_key, zlen. intros Hl [= E]. apply app_inj_1 in E as [E _]; [done|lia]. Qed.

(** The table is where the flow table says, and holds a map. *)
Definition lies (ts : Tables) (f : Buckets) : Prop :=
  rd ts.(logic_tables) i = Ok (Sram t) ∧ holds t ts.(memory) f.

Definition key_ok (key : list Z) : Prop := zlen key = tab.(ft_key_len) ∧ bucket t (tag_key key) < covered t.

Lemma logic_ok ts f : lies ts f → logic tab ts = Value (i, Sram t).
Proof. intros [H _]. unfold logic. by rewrite Hlogic, H. Qed.

Lemma get_tag_key_ok key : zlen key = tab.(ft_key_len) → get_tag_key tab (Sram t) key = Value (tag_key key).
Proof.
  intros Hk. unfold get_tag_key. cbn [key_len any_table sram_table]. zcmp. rewrite first_bytes_len by done. done.
Qed.

Lemma op_ok_match key : key_ok key → op_ok t (SMatch (tag_key key)).
Proof. intros [Hk Hb]. split_and!; [by apply tag_key_length|done|done]. Qed.

(** A lookup. *)
Lemma flow_match_sram key ts f :
  lies ts f → key_ok key →
  flow_match_exact tab key ts =
    match f !! bucket t (tag_key key) with
    | None => Value t.(s_cap)
    | Some (k, _) =>
        if bool_decide (k = tag_key key) then Value (bucket t (tag_key key))
        else Throws (runtime_error "Unsolved hash table conflict")
    end.
Proof.
  intros Hl Hk. unfold flow_match_exact. rewrite (logic_ok _ _ Hl). cbn [mbind outcome_mbind].
  rewrite get_tag_key_ok by apply Hk. cbn [mbind outcome_mbind match_exact any_table sram_table].
  destruct Hl as [_ Hf]. pose proof (do_refines t W (SMatch (tag_key key)) ts.(memory) f Hf (op_ok_match _ Hk)) as (m' & Hdo & _).
  destruct Hk as [Hk Hb]. pose proof (bucket_range t W (tag_key key)) as Hr. specialize (Hf _ (conj (proj1 Hr) Hb)).
  unfold sram_match_exact. rewrite get_bucket_id_ok by (done || by apply tag_key_length). cbn [mbind outcome_mbind].
  rewrite bitmap_test_bit by (lia || (apply bit_inside_ok; done || lia)). cbn [mbind outcome_mbind].
  destruct (f !! bucket t (tag_key key)) as [[k v]|]; [|by rewrite Hf]. destruct Hf as (-> & Hpk & _).
  rewrite load_inside by (apply W || (apply entry_inside_0; unfold s_entry_len; pose proof (wf_val _ W); done || lia)).
  cbn [mbind outcome_mbind]. rewrite first_bytes_len by by apply tag_key_length. rewrite Hpk. done.
Qed.

(** An insertion into a bucket that is free. *)
Lemma flow_insert_sram key val ts f :
  lies ts f → key_ok key → zlen val = tab.(ft_val_len) → f !! bucket t (tag_key key) = None →
  ∃ m', flow_insert tab key val ts = Value (mkTables m' ts.(logic_tables)) ∧
    holds t m' (<[bucket t (tag_key key) := (tag_key key, pad_val val)]> f) ∧ frame t ts.(memory) m'.
Proof.
  intros Hl Hk Hv Hf. unfold flow_insert. rewrite (logic_ok _ _ Hl). cbn [mbind outcome_mbind].
  rewrite get_tag_key_ok by apply Hk. unfold get_pad_val. cbn [mbind outcome_mbind val_len any_table sram_table].
  rewrite (proj2 (Z.ltb_ge _ _)) by done. rewrite first_bytes_len by done. cbn [mbind outcome_mbind mret outcome_mret].
  fold (pad_val val). destruct Hl as [Hrd Hh].
  destruct (do_refines t W (SInsert (tag_key key) (pad_val val)) ts.(memory) f Hh) as (m' & Hdo & Hh' & Hfr).
  { destruct Hk. split_and!; [by apply tag_key_length|done|by apply pad_val_length]. }
  unfold bucket_do in *. cbn [op_key] in *. rewrite Hf in *. cbn [fst snd sram_do] in *.
  cbn [insert_entry any_table sram_table]. destruct (sram_insert (tag_key key) (pad_val val) t ts.(memory)) as [[t' m1]| | | |] eqn:E; try done.
  cbn in Hdo. injection Hdo as ->.
  assert (t' = t) as ->.
  { unfold sram_insert in E. apply value_bind_inv in E as (bk & _ & E). apply value_bind_inv in E as ([] & _ & E); [done|]. inv_value. done. }
  exists m'. split; [|done]. cbn. unfold set_logic. cbn. apply rd_ok_inv in Hrd as [_ Hrd]. by rewrite list_insert_id.
Qed.
(** A deletion from a bucket that is taken. *)
Lemma flow_erase_sram key ts f e :
  lies ts f → key_ok key → f !! bucket t (tag_key key) = Some e →
  ∃ m', flow_erase tab key ts = Value (mkTables m' ts.(logic_tables)) ∧
    holds t m' (delete (bucket t (tag_key key)) f) ∧ frame t ts.(memory) m'.
Proof.
  intros Hl Hk Hf. unfold flow_erase. rewrite (logic_ok _ _ Hl). cbn [mbind outcome_mbind].
  rewrite get_tag_key_ok by apply Hk. cbn [mbind outcome_mbind]. destruct Hl as [Hrd Hh].
  destruct (do_refines t W (SErase (tag_key key)) ts.(memory) f Hh) as (m' & Hdo & Hh' & Hfr).
  { destruct Hk. split_and!; [by apply tag_key_length|done|done]. }
  unfold bucket_do in *. cbn [op_key] in *. rewrite Hf in *. cbn [fst snd sram_do] in *.
  cbn [erase_entry any_table sram_table]. destruct (sram_erase (tag_key key) t ts.(memory)) as [[t' m1]| | | |] eqn:E; try done.
  cbn in Hdo. injection Hdo as ->.
  assert (t' = t) as ->.
  { unfold sram_erase in E. apply value_bind_inv in E as (bk & _ & E). apply value_bind_inv in E as ([] & _ & E); [|done]. inv_value. done. }
  exists m'. split; [|done]. cbn. unfold set_logic. cbn. apply rd_ok_inv in Hrd as [_ Hrd]. by rewrite list_insert_id.
Qed.

(** A key is taken by its first bytes. *)
Lemma flow_match_longer key rest ts :
  zlen key = tab.(ft_key_len) → flow_match_exact tab (key ++ rest) ts = flow_match_exact tab key ts.
Proof.
  intros Hk. unfold flow_match_exact. destruct (logic tab ts) as [[j a]| | | |]; cbn [mbind outcome_mbind]; try done.
  unfold get_tag_key. destruct (_ <? _); [done|]. rewrite (first_bytes_len key) by done. unfold first_bytes.
  rewrite zlen_app. pose proof (zlen_nonneg rest). pose proof (zlen_nonneg key). zcmp.
  rewrite take_app_length' by (unfold zlen in Hk; lia). done.
Qed.

(** The value that is read back. *)
Lemma value_read key val ts f n :
  lies ts f → key_ok key → zlen val = tab.(ft_val_len) → n = zlen val →
  f !! bucket t (tag_key key) = Some (tag_key key, pad_val val) →
  load ts.(memory) (shift (sram_get_entry t (bucket t (tag_key key))) t.(s_key_len)) n = Value val.
Proof.
  intros [_ Hh] [_ Hb] Hv Hn Hf. pose proof (bucket_range t W (tag_key key)) as Hr. pose proof (zlen_nonneg val).
  specialize (Hh _ (conj (proj1 Hr) Hb)). rewrite Hf in Hh. destruct Hh as (_ & _ & Hp). pose proof (wf_key _ W).
  rewrite load_inside by (lia || (apply entry_inside; unfold s_entry_len; done || lia)). f_equal.
  unfold pad_val in Hp. apply peek_prefix in Hp. subst n. unfold zlen. by rewrite Nat2Z.id.
Qed.
End on_sram.

(** The first bytes of a value changed in place. *)
Lemma value_stored t (W : sram_wf t) m f b k v new :
  holds t m f → 0 ≤ b < covered t → f !! b = Some (k, v) → zlen v = t.(s_val_len) → zlen new ≤ zlen v →
  let m' := poke m (shift (sram_get_entry t b) t.(s_key_len)) new in
  holds t m' (<[b := (k, new ++ drop (length new) v)]> f) ∧ frame t m m'.
Proof.
  intros Hf Hb Hfb Hv Hnew m'. pose proof (wf_key _ W) as Hk0. pose proof (wf_val _ W) as Hv0.
  assert (Hel : s_entry_len t = t.(s_key_len) + t.(s_val_len)) by done. pose proof (covered_cap t) as Hcap. split.
  - intros c Hc. assert (Hbit : bit m' t.(s_bitmap) c = bit m t.(s_bitmap) c).
    { apply bit_poke_apart, entry_apart_bit; done || lia. }
    destruct (decide (b = c)) as [<-|Hne].
    + rewrite lookup_insert_eq. specialize (Hf b Hc). rewrite Hfb in Hf. destruct Hf as (H1 & H2 & H3).
      split_and!; [by rewrite Hbit| |].
      * unfold m'. rewrite peek_poke_apart by (apply parts_apart; lia). done.
      * replace (Z.to_nat t.(s_val_len)) with (length new + Z.to_nat (t.(s_val_len) - zlen new))%nat by (unfold zlen in *; lia).
        rewrite peek_app. unfold m' at 1. rewrite peek_poke_same. f_equal. unfold m'.
        rewrite peek_poke_apart by (right; left; cbn; unfold zlen; lia).
        rewrite <- H3. replace (Z.to_nat t.(s_val_len)) with (length new + Z.to_nat (t.(s_val_len) - zlen new))%nat by (unfold zlen in *; lia).
        rewrite peek_app, drop_app_length'; [done|]. by rewrite peek_length.
    + rewrite lookup_insert_ne by done. specialize (Hf c Hc). rewrite Hbit. destruct (f !! c) as [[k' v']|]; [|done].
      destruct Hf as (H1 & H2 & H3). split; [done|].
      assert (Hpk : ∀ j n, 0 ≤ j → j + Z.of_nat n ≤ s_entry_len t →
        peek m' (shift (sram_get_entry t c) j) n = peek m (shift (sram_get_entry t c) j) n).
      { intros j n Hj Hn. apply peek_poke_apart, entries_apart; done || lia. }
      pose proof (Hpk 0 (Z.to_nat t.(s_key_len))) as H4. rewrite shift_0 in H4. rewrite H4, Hpk by lia. done.
  - intros c Hc. apply entry_poke_off; done || lia.
Qed.


(** ** Examples

    The first logical table of the switch, with entries for addresses of the network
    10.0.1.0/24, as flow table 0 makes them. *)
Definition ip_key (a b c d : Z) : list Z := [0; a; b; c; d; 0; 0; 0; 0; 0].
Definition val10 (port : Z) : list Z := [0; 0; 0; 0; 1; 80; port; 0; 0; 0].

Definition demo_sram : LogicSram :=
  mkLogicSram (mkBuffer MEM_SRAM 0 0) (mkBuffer MEM_SRAM 0 32) 10 10 257.

Definition demo_memory : Memory :=
  match make_sram 0 10 10 257 empty_memory with Value r => r.2 | _ => empty_memory end.

Definition demo_ops : list SramOp :=
  [SInsert (ip_key 10 0 1 50) (val10 1); SMatch (ip_key 10 0 1 50); SMatch (ip_key 10 0 1 52);
   SErase (ip_key 10 0 1 50); SMatch (ip_key 10 0 1 50)].

Lemma sram_table_refines_witness :
  ∃ m', sram_run demo_sram demo_ops demo_memory =
    Value ([SeenDone; SeenAt 180 (val10 1); SeenNothing; SeenDone; SeenNothing], m') ∧ frame demo_sram empty_memory m'.
Proof.
  replace [SeenDone; SeenAt 180 (val10 1); SeenNothing; SeenDone; SeenNothing]
    with (bucket_run demo_sram demo_ops ∅).1 by (vm_compute; reflexivity).
  apply (sram_table_refines 0 10 10 257 empty_memory demo_sram demo_memory demo_ops); [|lia|lia|lia|done|done|].
  - vm_compute. reflexivity.
  - unfold demo_ops. repeat apply Forall_cons_2; try apply Forall_nil_2; (split; [done|split; [vm_compute; reflexivity|done]]).
Defined.

Definition demo_memory_85 : Memory :=
  match sram_insert (ip_key 10 0 1 85) (val10 1) demo_sram demo_memory with Value r => r.2 | _ => empty_memory end.

Lemma demo_sram_wf : sram_wf demo_sram.
Proof. by constructor. Qed.

Lemma last_bucket_overwrites_witness :
  sram_match_exact (ip_key 10 0 1 85) demo_sram demo_memory_85 = Value 0 ∧
  ∃ m', sram_insert (ip_key 10 0 1 34) (val10 2) demo_sram demo_memory_85 = Value (demo_sram, m') ∧
    sram_match_exact (ip_key 10 0 1 85) demo_sram m' = Throws (runtime_error "Unsolved hash table conflict").
Proof.
  split; [vm_compute; reflexivity|].
  apply last_bucket_overwrites; [exact demo_sram_wf|cbn; lia|cbn; lia|done|done|done|..].
  - vm_compute. reflexivity.
  - vm_compute. discriminate.
  - vm_compute. reflexivity.
Defined.

Definition demo_tcam : LogicTcam := mkLogicTcam 2 1 4 2 (mkBuffer MEM_TCAM 0 0).
Definition demo_tcam_memory : Memory := poke empty_memory (mkBuffer MEM_TCAM 0 0) [1; 2; 3; 4; 5; 6].

Lemma tcam_erase_keeps_length_witness :
  t_entries demo_tcam demo_tcam_memory = [([1; 2], [3]); ([4; 5], [6])] ∧
  ∃ m', tcam_erase [4; 5] demo_tcam demo_tcam_memory = Value (demo_tcam, m') ∧
    tcam_match_exact [4; 5] demo_tcam m' = Value 1.
Proof.
  split; [vm_compute; reflexivity|].
  destruct (tcam_erase_keeps_length demo_tcam demo_tcam_memory [4; 5]) as [(m' & H1 & _ & H2) _].
  - by constructor.
  - reflexivity.
  - vm_compute. reflexivity.
  - exists m'. split; [exact H1|]. apply H2. vm_compute. reflexivity.
Defined.

(** The longest prefix is looked for from the wrong end: the mask is a word of x86, whose
    lowest byte is the first byte of the address.  An address of 192.168.7.0/24 meets
    the entry 10.0.0.1 before the entry of its own network. *)
Lemma lpm_wrong_end :
  let t := mkLogicTcam 4 0 4 2 (mkBuffer MEM_TCAM 0 0) in
  let m := poke empty_memory (mkBuffer MEM_TCAM 0 0) [192; 168; 7; 128; 10; 0; 0; 1] in
  tcam_match_lpm [192; 168; 7; 1] t m = Value 1.
Proof. vm_compute. reflexivity. Qed.
