(* ===== verification/OldParser.v ===== *)
(** * The parser of the old switch (ipbm-old/src/dataplane: parser.h, parser.cpp, defs.h)

    The parser walks over the nodes of the parse graph: a node takes the next bytes of
    the packet for its header and compares the bytes of its type field with the tags of
    the edges. *)

From stdpp Require Import base numbers list gmap strings.
From Stdlib Require Import ZArith Lia.
From S2P Require Import Prelude OldMemory.

#[local] Open Scope Z_scope.

(** ** Packets

    A packet is the buffer it was received in; its length is kept beside it. *)
Definition pk_read (packet : list Z) (pos n : Z) : outcome (list Z) :=
  if n <? 0 then Undefined BadLength
  else if (0 <=? pos) && (pos + n <=? zlen packet) then Value (take (Z.to_nat n) (drop (Z.to_nat pos) packet))
  else Undefined OutOfBounds.

Definition pk_write (packet : list Z) (pos : Z) (bs : list Z) : outcome (list Z) :=
  if (0 <=? pos) && (pos + zlen bs <=? zlen packet)
  then Value (take (Z.to_nat pos) packet ++ bs ++ drop (Z.to_nat (pos + zlen bs)) packet)
  else Undefined OutOfBounds.

(** The [BufView] of a header: where in the packet it is, and its size; a cleared one
    points nowhere. *)
Record BufView : Type := mkBufView { view_data : Z; view_size : Z }.

Definition NUM_HDRS : Z := 32.

Definition no_headers : list (option BufView) := replicate (Z.to_nat NUM_HDRS) None.

(** ** The parse graph *)
Record NextParserHeader : Type := mkNextParserHeader { nph_tag : list Z; nph_hdr_id : Z }.

Record ParserHeader : Type := mkParserHeader {
  ph_hdr_id : Z;
  ph_hdr_len : Z;
  ph_type_start : Z;
  ph_type_len : Z;
  ph_next_table : list NextParserHeader
}.

(** The parser is static: a node nobody has set is zero. *)
Definition zero_parser_header : ParserHeader := mkParserHeader 0 0 0 0 [].

Definition PARSE_START_ID : Z := 0.
Definition PARSE_NODE_ACCEPT : Z := -1.

(** [memcmp(type, tag.c_str(), len) == 0]: a string is followed by a zero byte. *)
Definition tag_matches (packet : list Z) (type_pos : Z) (tag : list Z) (len : Z) : outcome bool :=
  ty ← pk_read packet type_pos len;
  tg ← first_bytes (tag ++ [0]) len;
  mret (bool_decide (ty = tg)).

Fixpoint next_node (packet : list Z) (type_pos len : Z) (table : list NextParserHeader) : outcome Z :=
  match table with
  | [] => mret PARSE_NODE_ACCEPT
  | trans :: table' =>
      b ← tag_matches packet type_pos trans.(nph_tag) len;
      if b : bool then mret trans.(nph_hdr_id) else next_node packet type_pos len table'
  end.

(** The loop. *)
Fixpoint parse_from (fuel : nat) (parse_hdrs : list ParserHeader) (packet : list Z) (len : Z)
    (node_idx parse_offset : Z) (hdrs : list (option BufView)) : outcome (list (option BufView)) :=
  match fuel with
  | O => Running
  | S fuel' =>
      if node_idx =? PARSE_NODE_ACCEPT then mret hdrs
      else if len <=? parse_offset then Throws (overflow_error "Parser packet offset overflow")
      else
        node ← lift (rd parse_hdrs node_idx);
        hdrs ← lift (wr hdrs node.(ph_hdr_id) (Some (mkBufView parse_offset node.(ph_hdr_len))));
        next ← next_node packet (parse_offset + node.(ph_type_start)) node.(ph_type_len) node.(ph_next_table);
        parse_from fuel' parse_hdrs packet len next (parse_offset + node.(ph_hdr_len)) hdrs
  end.

Definition parse (fuel : nat) (parse_hdrs : list ParserHeader) (packet : list Z) (len : Z) :
    outcome (list (option BufView)) :=
  parse_from fuel parse_hdrs packet len PARSE_START_ID 0 no_headers.

(** ** The loop ends

    Every node takes a byte of the packet, or leads nowhere. *)
Definition node_advances (n : ParserHeader) : Prop := 1 ≤ n.(ph_hdr_len) ∨ n.(ph_next_table) = [].

Lemma tag_matches_ends packet pos tag len : ends (tag_matches packet pos tag len).
Proof.
  unfold tag_matches, pk_read, first_bytes. destruct (len <? 0); [done|]. destruct (_ && _); [|done]. cbn. by destruct (_ <=? _).
Qed.

Lemma next_node_ends packet pos len table : ends (next_node packet pos len table).
Proof.
  induction table as [|t table IH]; [done|]. cbn [next_node]. apply ends_bind; [apply tag_matches_ends|].
  intros [] _; [done|apply IH].
Qed.

Lemma parse_from_ends fuel ns packet len idx off hdrs :
  Forall node_advances ns → Z.max 0 (len - off) + 2 ≤ Z.of_nat fuel →
  ends (parse_from fuel ns packet len idx off hdrs).
Proof.
  intros Hns. revert idx off hdrs. induction fuel as [|fuel IH]; intros idx off hdrs Hf; [lia|]. cbn [parse_from].
  destruct (idx =? PARSE_NODE_ACCEPT); [done|]. destruct (Z.leb_spec len off) as [|Hlt]; [done|].
  apply ends_bind; [apply ends_lift|]. intros node Hnode%lift_value%rd_ok_inv.
  apply ends_bind; [apply ends_lift|]. intros h _. apply ends_bind; [apply next_node_ends|]. intros nx Hnx.
  pose proof (Forall_lookup_1 _ _ _ _ Hns (proj2 Hnode)) as [Hn|Hn]; [apply IH; lia|].
  rewrite Hn in Hnx. injection Hnx as <-. destruct fuel as [|fuel']; [lia|]. done.
Qed.

Lemma parse_ends fuel ns packet len :
  Forall node_advances ns → Z.max 0 len + 2 ≤ Z.of_nat fuel → ends (parse fuel ns packet len).
Proof. intros. apply parse_from_ends; [done|lia]. Qed.

(** A node of length 0 that leads to itself is parsed forever. *)
Lemma parse_hangs fuel ns packet len idx off hdrs node :
  rd ns idx = Ok node → idx ≠ PARSE_NODE_ACCEPT → node.(ph_hdr_len) = 0 → 0 ≤ node.(ph_hdr_id) < zlen hdrs → off < len →
  next_node packet (off + node.(ph_type_start)) node.(ph_type_len) node.(ph_next_table) = Value idx →
  parse_from fuel ns packet len idx off hdrs = Running.
Proof.
  intros Hnode Hidx Hlen Hid Hoff Hnext. revert hdrs Hid. induction fuel as [|fuel IH]; intros hdrs Hid; [done|].
  cbn [parse_from]. rewrite (proj2 (Z.eqb_neq _ _) Hidx), (proj2 (Z.leb_gt _ _) Hoff), Hnode. cbn.
  rewrite wr_ok by done. cbn. rewrite Hnext. cbn. rewrite Hlen, Z.add_0_r. apply IH. by rewrite zlen_insert.
Qed.

Example parse_hangs_demo fuel :
  parse fuel [mkParserHeader 0 0 0 0 [mkNextParserHeader [] 0]] [1] 1 = Running.
Proof. by apply (parse_hangs fuel _ _ _ _ _ _ (mkParserHeader 0 0 0 0 [mkNextParserHeader [] 0])). Qed.

(** ** Reading what was written *)
Lemma pk_read_ok packet pos n :
  0 ≤ n → 0 ≤ pos → pos + n ≤ zlen packet → pk_read packet pos n = Value (take (Z.to_nat n) (drop (Z.to_nat pos) packet)).
Proof. intros. unfold pk_read. zcmp. Qed.

Lemma pk_write_ok packet pos bs :
  0 ≤ pos → pos + zlen bs ≤ zlen packet →
  pk_write packet pos bs = Value (take (Z.to_nat pos) packet ++ bs ++ drop (Z.to_nat (pos + zlen bs)) packet).
Proof. intros. unfold pk_write. zcmp. Qed.

Lemma pk_write_length packet pos bs packet' : pk_write packet pos bs = Value packet' → zlen packet' = zlen packet.
Proof.
  unfold pk_write. destruct (_ && _) eqn:E; [|done]. intros [= <-]. apply andb_true_iff in E as [E1 E2].
  apply Z.leb_le in E1, E2. unfold zlen in *. rewrite !length_app, length_take, length_drop. lia.
Qed.

Lemma pk_write_at packet pos bs packet' :
  pk_write packet pos bs = Value packet' →
  0 ≤ pos ∧ pos + zlen bs ≤ zlen packet ∧ zlen packet' = zlen packet ∧
  ∀ i, 0 ≤ i < zlen packet →
    at_ packet' i = if (pos <=? i) && (i <? pos + zlen bs) then at_ bs (i - pos) else at_ packet i.
Proof.
  intros Hw. pose proof (pk_write_length _ _ _ _ Hw) as Hl. unfold pk_write in Hw.
  destruct (_ && _) eqn:E in Hw; [|done]. injection Hw as <-. apply andb_true_iff in E as [E1 E2].
  apply Z.leb_le in E1, E2. split_and!; [done|done|done|]. intros i Hi. unfold at_, zlen in *.
  assert (Ht : length (take (Z.to_nat pos) packet) = Z.to_nat pos) by (rewrite length_take; lia).
  destruct (Z.leb_spec pos i); cbn [andb].
  - rewrite lookup_total_app_r, Ht by lia. destruct (Z.ltb_spec i (pos + Z.of_nat (length bs))).
    + rewrite lookup_total_app_l by lia. f_equal. lia.
    + rewrite lookup_total_app_r, lookup_total_drop by lia. f_equal. lia.
  - rewrite lookup_total_app_l, lookup_total_take, decide_True by lia. done.
Qed.

Lemma pk_read_at packet pos n :
  0 ≤ n → 0 ≤ pos → pos + n ≤ zlen packet → pk_read packet pos n = Value (at_ packet <$> seqZ pos n).
Proof.
  intros Hn Hp Hl. rewrite pk_read_ok by done. f_equal. unfold zlen in *. apply list_eq_same_length with (Z.to_nat n).
  - rewrite length_fmap, length_seqZ. done.
  - rewrite length_take, length_drop. lia.
  - intros j x y Hj. rewrite lookup_take, decide_True, lookup_drop by done. intros Hx.
    rewrite list_lookup_fmap, lookup_seqZ_lt by lia. intros [= <-]. unfold at_.
    replace (Z.to_nat (pos + Z.of_nat j)) with (Z.to_nat pos + j)%nat by lia. symmetry. by apply list_lookup_total_correct.
Qed.

(** A write that fits. *)
Lemma pk_write_fits packet pos bs :
  0 ≤ pos → pos + zlen bs ≤ zlen packet → bytes packet → bytes bs →
  ∃ packet', pk_write packet pos bs = Value packet' ∧ zlen packet' = zlen packet ∧ bytes packet' ∧
    ∀ i, 0 ≤ i < zlen packet → at_ packet' i = if (pos <=? i) && (i <? pos + zlen bs) then at_ bs (i - pos) else at_ packet i.
Proof.
  intros Hp Hl Hb Hbs. pose proof (pk_write_ok packet pos bs Hp Hl) as E. eexists; split; [exact E|].
  pose proof (pk_write_at _ _ _ _ E) as (_ & _ & Hz & Hat). split_and!; [done| |done].
  unfold bytes. rewrite !Forall_app. split_and!; [by apply Forall_take|done|by apply Forall_drop].
Qed.
