(* ===== verification/OldExecutor.v ===== *)
(** * The executor of the old switch (ipbm-old/src/dataplane: action.h, executor.h, executor.cpp)

    An action is a list of primitives.  They work on the fields of the headers the
    parser found, on the metadata of the packet, and on arguments that are parts of the
    value of the table entry the packet hit. *)

From stdpp Require Import base numbers list gmap strings.
From Stdlib Require Import ZArith Lia.
From S2P Require Import Prelude OldMemory OldTables OldParser.

#[local] Open Scope Z_scope.

(** ** Actions *)
Inductive HashType : Set := HASH_CSUM16.

(** The type tag of a primitive and its part of the union. *)
Inductive Primitive : Type :=
| OP_CKSUM (cksum_field dst_field : FieldSpec) (hash_type : HashType)
| OP_COPY_FIELD (dst src : FieldSpec)
| OP_ADD (field : FieldSpec) (delta : Z)
| OP_SET_PORT (arg_idx : Z)
| OP_SET_FIELD (dst : FieldSpec) (arg_src : Z)
| OP_RECIRCULATE
| OP_SET_MULTICAST.

Record Action : Type := mkAction { ops : list Primitive }.

Definition NUM_ACTIONS : Z := 32.

Record RuntimeArgSpec : Type := mkRuntimeArgSpec { val_offset : Z; arg_len : Z }.

Record Executor : Type := mkExecutor {
  hit_action : Z;
  hit_next_proc : Z;
  miss_action : Z;
  miss_next_proc : Z;
  runtime_arg_specs : list RuntimeArgSpec
}.

Definition zero_executor : Executor := mkExecutor 0 0 0 0 [].

Record MetaData : Type := mkMetaData { out_port : Z; vlan_id : Z }.

Definition set_out_port (x : Z) (m : MetaData) : MetaData := mkMetaData x m.(vlan_id).

(** What a primitive can change: the packet, the metadata and the next processor. *)
Record ExecState : Type := mkExecState { ex_packet : list Z; ex_meta : MetaData; ex_next : Z }.

Definition set_packet (p : list Z) (s : ExecState) : ExecState := mkExecState p s.(ex_meta) s.(ex_next).
Definition set_meta (m : MetaData) (s : ExecState) : ExecState := mkExecState s.(ex_packet) m s.(ex_next).
Definition set_next (n : Z) (s : ExecState) : ExecState := mkExecState s.(ex_packet) s.(ex_meta) n.

(** ** The checksum ([calc_cksum])

    The words of the field are summed in 32 bits.  The test for a last odd byte comes
    after a loop that steps over the end, and is never true. *)
Fixpoint cksum_loop (n : nat) (packet : list Z) (pos : Z) (cksum : Z) : outcome Z :=
  match n with
  | O => mret cksum
  | S n' =>
      w ← pk_read packet pos 2;
      cksum_loop n' packet (pos + 2) (u32 (cksum + le_word w))
  end.

Definition fold_cksum (cksum : Z) : Z :=
  let cksum := u32 (Z.shiftr cksum 16 + Z.land cksum 65535) in
  let cksum := u32 (cksum + Z.shiftr cksum 16) in
  u16 (Z.lnot cksum).

Definition calc_cksum (packet : list Z) (pos len : Z) (hash_type : HashType) : outcome Z :=
  match hash_type with
  | HASH_CSUM16 => fold_cksum <$> cksum_loop (Z.to_nat ((len + 1) / 2)) packet pos 0
  end.

(** ** Primitives *)

(** [glb.hdrs[f.hdr_id].data + f.start]. *)
Definition field_pos (hdrs : list (option BufView)) (f : FieldSpec) : outcome Z :=
  h ← lift (rd hdrs f.(fs_hdr_id));
  match h with
  | None => Undefined NullDeref
  | Some v => mret (v.(view_data) + f.(fs_start))
  end.

Definition exec_op (hdrs : list (option BufView)) (mem : Memory) (args : list (Buffer * Z))
    (op : Primitive) (s : ExecState) : outcome ExecState :=
  match op with
  | OP_CKSUM cksum_field dst_field hash_type =>
      field ← field_pos hdrs cksum_field;
      dst ← field_pos hdrs dst_field;
      p ← pk_write s.(ex_packet) dst [0; 0];
      c ← calc_cksum p field cksum_field.(fs_len) hash_type;
      p ← pk_write p dst (le_bytes 2 c);
      mret (set_packet p s)
  | OP_COPY_FIELD dst src =>
      if negb (dst.(fs_len) =? src.(fs_len)) then Throws (runtime_error "dst len != src len")
      else
        from ← field_pos hdrs src;
        to ← field_pos hdrs dst;
        bs ← pk_read s.(ex_packet) from src.(fs_len);
        p ← pk_write s.(ex_packet) to bs;
        mret (set_packet p s)
  | OP_ADD field delta =>
      pos ← field_pos hdrs field;
      if bool_decide (field.(fs_len) ∈ [1; 2; 4; 8]) then
        bs ← pk_read s.(ex_packet) pos field.(fs_len);
        p ← pk_write s.(ex_packet) pos (le_bytes (Z.to_nat field.(fs_len)) (le_word bs + delta));
        mret (set_packet p s)
      else mret s
  | OP_SET_PORT arg_idx =>
      '(b, size) ← lift (rd args arg_idx);
      if (size =? 2) || (size =? 4) then
        bs ← load mem b size;
        mret (set_meta (set_out_port (le_word bs) s.(ex_meta)) s)
      else Asserts
  | OP_SET_FIELD dst arg_src =>
      '(b, size) ← lift (rd args arg_src);
      pos ← field_pos hdrs dst;
      _ ← asserts (size =? dst.(fs_len));
      bs ← load mem b size;
      p ← pk_write s.(ex_packet) pos bs;
      mret (set_packet p s)
  | OP_RECIRCULATE => mret (set_next 0 s)
  | OP_SET_MULTICAST => mret (set_meta (set_out_port s.(ex_meta).(vlan_id) s.(ex_meta)) s)
  end.

(** A hit has the arguments in the value of the entry; a miss has none. *)
Definition runtime_args (ex : Executor) (match_val : option Buffer) : list (Buffer * Z) :=
  match match_val with
  | Some v => (λ spec, (shift v spec.(val_offset), spec.(arg_len))) <$> ex.(runtime_arg_specs)
  | None => []
  end.

Definition execute (actions : list Action) (hdrs : list (option BufView)) (mem : Memory) (ex : Executor)
    (match_val : option Buffer) (packet : list Z) (meta : MetaData) : outcome ExecState :=
  let action_id := match match_val with Some _ => ex.(hit_action) | None => ex.(miss_action) end in
  let next_proc_id := match match_val with Some _ => ex.(hit_next_proc) | None => ex.(miss_next_proc) end in
  action ← lift (rd actions action_id);
  each (exec_op hdrs mem (runtime_args ex match_val)) action.(ops) (mkExecState packet meta next_proc_id).

(** ** The checksum of a field

    The sum of the words of a string of bytes, as x86 reads them. *)
Fixpoint word_sum (bs : list Z) : Z :=
  match bs with
  | b0 :: b1 :: bs' => b0 + 256 * b1 + word_sum bs'
  | _ => 0
  end.

Lemma word_sum_app a b : Z.even (zlen a) = true → word_sum (a ++ b) = word_sum a + word_sum b.
Proof.
  unfold zlen. remember (length a) as n eqn:E. revert a E. induction n as [n IH] using lt_wf_ind. intros a E Hev.
  destruct a as [|x [|y a]]; [done|by subst|]. cbn [app word_sum]. rewrite (IH (length a)); [lia| |done|].
  - subst. cbn. lia.
  - subst n. cbn [length] in Hev. replace (Z.of_nat (S (S (length a)))) with (Z.of_nat (length a) + 2 * 1) in Hev by lia.
    by rewrite Z.even_add_mul_2 in Hev.
Qed.

Lemma word_sum_range bs : bytes bs → 0 ≤ word_sum bs ≤ 65535 * (zlen bs / 2).
Proof.
  unfold zlen. remember (length bs) as n eqn:E. revert bs E. induction n as [n IH] using lt_wf_ind. intros bs E Hb.
  destruct bs as [|x [|y bs]]; [by subst; cbn|by subst; cbn|]. cbn [word_sum]. apply Forall_cons in Hb as [Hx Hb].
  apply Forall_cons in Hb as [Hy Hb]. specialize (IH (length bs) ltac:(subst; cbn; lia) bs eq_refl Hb). subst n. cbn [length].
  cbn beta in Hx, Hy. dlia.
Qed.

(** The sum does not overflow as long as there are no more than 65537 words. *)
Lemma cksum_loop_sum n packet pos acc bs :
  pk_read packet pos (2 * Z.of_nat n) = Value bs → bytes packet → 0 ≤ acc →
  acc + 65535 * Z.of_nat n < 4294967296 →
  cksum_loop n packet pos acc = Value (acc + word_sum bs).
Proof.
  revert pos acc bs. induction n as [|n IH]; intros pos acc bs Hbs Hbytes Hacc Hmax.
  - unfold pk_read in Hbs. destruct (_ <? _); [done|]. destruct (_ && _); [|done]. injection Hbs as <-. cbn. by rewrite Z.add_0_r.
  - cbn [cksum_loop]. unfold pk_read in Hbs.
    destruct (Z.ltb_spec (2 * Z.of_nat (S n)) 0); [lia|]. destruct (_ && _) eqn:Ein; [|done]. injection Hbs as <-.
    apply andb_true_iff in Ein as [E1%Z.leb_le E2%Z.leb_le]. rewrite pk_read_ok by lia. cbn [mbind outcome_mbind].
    replace (Z.to_nat (2 * Z.of_nat (S n))) with (2 + Z.to_nat (2 * Z.of_nat n))%nat by lia.
    destruct (drop (Z.to_nat pos) packet) as [|x [|y rest]] eqn:Ed.
    { apply (f_equal length) in Ed. rewrite length_drop in Ed. unfold zlen in *. cbn in Ed. lia. }
    { apply (f_equal length) in Ed. rewrite length_drop in Ed. unfold zlen in *. cbn in Ed. lia. }
    assert (Hd : bytes (x :: y :: rest)) by (rewrite <- Ed; by apply Forall_drop).
    apply Forall_cons in Hd as [Hx Hd]. apply Forall_cons in Hd as [Hy Hd]. cbn beta in Hx, Hy.
    change (Z.to_nat 2) with 2%nat. cbn [take Nat.add le_word word_sum].
    rewrite take_0. cbn [le_word]. rewrite u32_small by lia.
    rewrite (IH (pos + 2) _ (take (Z.to_nat (2 * Z.of_nat n)) rest)); [f_equal; lia| |done|lia|lia].
    rewrite pk_read_ok by lia. do 2 f_equal. replace (Z.to_nat (pos + 2)) with (Z.to_nat pos + 2)%nat by lia.
    rewrite <- drop_drop, Ed. done.
Qed.

Lemma fold_cksum_eq s : 0 ≤ s < 4294967296 →
  fold_cksum s = 65535 - (s / 65536 + s mod 65536 + (s / 65536 + s mod 65536) / 65536) mod 65536.
Proof.
  intros Hs. unfold fold_cksum. replace (Z.land s 65535) with (s mod 65536)
    by (change 65535 with (Z.ones 16); by rewrite Z.land_ones by lia). rewrite !Z.shiftr_div_pow2 by lia.
  change (2 ^ 16) with 65536. assert (0 ≤ s / 65536 + s mod 65536 < 131071) as Hqr by dlia.
  set (t := s / 65536 + s mod 65536) in *. clearbody t. rewrite (u32_small t) by lia.
  rewrite u32_small by dlia. unfold u16, Z.lnot. dlia.
Qed.

(** The sum with the checksum in it is a positive multiple of 65535. *)
Lemma fold_cksum_multiple s : 0 ≤ s < 4294967296 →
  0 ≤ fold_cksum s ≤ 65535 ∧ 0 < s + fold_cksum s ∧ (65535 | s + fold_cksum s).
Proof.
  intros Hs. rewrite fold_cksum_eq by done. set (q := s / 65536). set (r := s mod 65536).
  assert (s = 65536 * q + r ∧ 0 ≤ r < 65536 ∧ 0 ≤ q < 65536) as (Es & Hr & Hq) by (subst q r; dlia).
  clearbody q r. subst s. split_and!; [dlia|dlia|dlia|].
  destruct (Z.ltb_spec (q + r) 65536).
  - exists (q + 1). rewrite (Z.div_small (q + r)), Z.mod_small by lia. lia.
  - exists (q + 2). replace ((q + r) / 65536) with 1 by dlia.
    destruct (Z.eqb_spec (q + r) 131071); [dlia|]. replace ((q + r + 1) mod 65536) with (q + r + 1 - 65536) by dlia. lia.
Qed.

(** *** The checksum of the Internet

    One's complement sums, as RFC 1071 has them: a carry out of the sixteen bits is added
    at the other end, words have the order of the network, and the sum of the words of a
    field with a right checksum in it is all ones. *)
Definition ones_add (x y : Z) : Z := (x + y) mod 65536 + (x + y) / 65536.

Fixpoint ones_sum (acc : Z) (bs : list Z) : Z :=
  match bs with
  | hi :: lo :: bs' => ones_sum (ones_add acc (256 * hi + lo)) bs'
  | _ => acc
  end.

Definition right_checksum (field : list Z) : Prop := ones_sum 0 field = 65535.

(** The bytes of a field of a packet. *)
Definition field_bytes (packet : list Z) (pos len : Z) : list Z := at_ packet <$> seqZ pos len.

Lemma ones_add_multiple x y : 0 ≤ x ≤ 65535 → 0 ≤ y ≤ 65535 →
  0 ≤ ones_add x y ≤ 65535 ∧ (0 < x + y → 0 < ones_add x y) ∧ (65535 | ones_add x y - (x + y)).
Proof.
  intros Hx Hy. unfold ones_add. split_and!; [dlia|dlia|dlia|]. exists (- ((x + y) / 65536)). dlia.
Qed.

(** The sum of the network and the sum of x86 differ by the order of the bytes only: the
    first is 256 times the second, up to multiples of 65535. *)
Lemma ones_sum_words acc bs : bytes bs → 0 ≤ acc ≤ 65535 →
  0 ≤ ones_sum acc bs ≤ 65535 ∧ (0 < acc + word_sum bs → 0 < ones_sum acc bs) ∧
  (65535 | ones_sum acc bs - (acc + 256 * word_sum bs)).
Proof.
  remember (length bs) as n eqn:E. revert acc bs E. induction n as [n IH] using lt_wf_ind. intros acc bs E Hb Hacc.
  destruct bs as [|hi [|lo bs]]; [cbn; split_and!; [lia|lia|lia|exists 0; lia]|cbn; split_and!; [lia|lia|lia|exists 0; lia]|].
  apply Forall_cons in Hb as [Hh Hb]. apply Forall_cons in Hb as [Hl Hb]. cbn beta in Hh, Hl. cbn [ones_sum word_sum].
  destruct (ones_add_multiple acc (256 * hi + lo)) as (Hr & Hp & k & Hk); [done|lia|].
  destruct (IH (length bs) ltac:(subst; cbn; lia) (ones_add acc (256 * hi + lo)) bs eq_refl Hb Hr) as (Hr' & Hp' & m & Hm).
  pose proof (word_sum_range bs Hb). split_and!; [lia|lia| |].
  - intros Hpos. apply Hp'. destruct (Z.eqb_spec (acc + (256 * hi + lo)) 0); lia.
  - exists (m + k - lo). lia.
Qed.

(** A field whose sum on x86 is a positive multiple of 65535 has a right checksum. *)
Lemma multiple_right_checksum bs : bytes bs → 0 < word_sum bs → (65535 | word_sum bs) → right_checksum bs.
Proof.
  intros Hb Hpos [k Hk]. destruct (ones_sum_words 0 bs Hb) as (Hr & Hp & m & Hm); [lia|]. unfold right_checksum.
  specialize (Hp ltac:(lia)). assert (ones_sum 0 bs = 65535 * (m + 256 * k)) by lia. nia.
Qed.

(** Reading and writing in the middle of a packet. *)
Lemma pk_read_mid P mid Q pos n :
  pos = zlen P → n = zlen mid → pk_read (P ++ mid ++ Q) pos n = Value mid.
Proof.
  intros -> ->. unfold zlen. rewrite pk_read_ok; [|lia|lia|unfold zlen; rewrite !length_app; lia].
  by rewrite !Nat2Z.id, drop_app_length, take_app_length.
Qed.

Lemma pk_write_mid P old Q pos new :
  pos = zlen P → zlen new = zlen old → pk_write (P ++ old ++ Q) pos new = Value (P ++ new ++ Q).
Proof.
  intros -> Hn. unfold zlen in *. rewrite pk_write_ok; [|lia|unfold zlen; rewrite !length_app; lia].
  rewrite Nat2Z.id, take_app_length. do 3 f_equal. rewrite app_assoc. apply drop_app_length'.
  unfold zlen. rewrite length_app. lia.
Qed.

Lemma calc_cksum_mid P field Q pos len :
  pos = zlen P → len = zlen field → Z.even len = true → len ≤ 131072 → bytes (P ++ field ++ Q) →
  calc_cksum (P ++ field ++ Q) pos len HASH_CSUM16 = Value (fold_cksum (word_sum field)).
Proof.
  intros Hpos Hlen Hev Hmax Hb. unfold calc_cksum. pose proof (zlen_nonneg field).
  apply Z.even_spec in Hev as [k Hk]. rewrite (cksum_loop_sum _ _ _ 0 field).
  - done.
  - apply pk_read_mid; [done|dlia].
  - done.
  - done.
  - dlia.
Qed.

(** Where a stretch of a packet is. *)
Lemma packet_split (packet : list Z) pos n :
  0 ≤ pos → 0 ≤ n → pos + n ≤ zlen packet →
  ∃ P mid Q, packet = P ++ mid ++ Q ∧ zlen P = pos ∧ zlen mid = n.
Proof.
  intros. exists (take (Z.to_nat pos) packet), (take (Z.to_nat n) (drop (Z.to_nat pos) packet)), (drop (Z.to_nat n) (drop (Z.to_nat pos) packet)).
  rewrite !take_drop. unfold zlen in *. rewrite !length_take, length_drop. split_and!; [done|lia|lia].
Qed.

(** The primitive that writes a checksum. *)
Lemma cksum_op_verifies hdrs mem args cf df packet meta next c d :
  bytes packet → field_pos hdrs cf = Value c → field_pos hdrs df = Value d →
  0 ≤ c → c + cf.(fs_len) ≤ zlen packet → Z.even cf.(fs_len) = true → cf.(fs_len) ≤ 131072 →
  c ≤ d → d + 2 ≤ c + cf.(fs_len) → Z.even (d - c) = true →
  ∃ packet',
    exec_op hdrs mem args (OP_CKSUM cf df HASH_CSUM16) (mkExecState packet meta next) =
      Value (mkExecState packet' meta next) ∧
    right_checksum (field_bytes packet' c cf.(fs_len)) ∧
    bytes packet' ∧ zlen packet' = zlen packet ∧
    ∀ i, 0 ≤ i < zlen packet → i ≠ d → i ≠ d + 1 → at_ packet' i = at_ packet i.
Proof.
  intros Hb Hc Hd Hc0 Hin Hev Hmax Hcd Hdc Hev'. set (len := cf.(fs_len)) in *.
  destruct (packet_split packet c len) as (P & fld & Q & -> & HP & Hf); [lia|lia|done|].
  destruct (packet_split fld (d - c) 2) as (a & xy & b & -> & Ha & Hxy); [lia|lia|lia|].
  rewrite !zlen_app in Hf. cbn [exec_op]. rewrite Hc, Hd. cbn [mbind outcome_mbind ex_packet].
  replace (P ++ (a ++ xy ++ b) ++ Q) with ((P ++ a) ++ xy ++ b ++ Q) by by rewrite <- !app_assoc.
  assert (Hw : ∀ old new, zlen old = 2 → zlen new = 2 → pk_write ((P ++ a) ++ old ++ b ++ Q) d new = Value ((P ++ a) ++ new ++ b ++ Q)).
  { intros old new Ho Hn. apply pk_write_mid; [rewrite zlen_app; lia|lia]. }
  assert (Hbs : bytes P ∧ bytes a ∧ bytes b ∧ bytes Q).
  { unfold bytes in *. rewrite !Forall_app in Hb. tauto. }
  destruct Hbs as (HbP & Hba & Hbb & HbQ).
  assert (Hnew : ∀ new, bytes new → bytes ((P ++ a) ++ new ++ b ++ Q)).
  { intros new Hn. unfold bytes in *. rewrite !Forall_app. tauto. }
  assert (Hsum : ∀ new, zlen new = 2 → bytes new →
    calc_cksum ((P ++ a) ++ new ++ b ++ Q) c len HASH_CSUM16 = Value (fold_cksum (word_sum (a ++ new ++ b)))).
  { intros new Hn Hbn. replace ((P ++ a) ++ new ++ b ++ Q) with (P ++ (a ++ new ++ b) ++ Q) by by rewrite <- !app_assoc.
    apply calc_cksum_mid; [done|rewrite !zlen_app; lia|done|done|]. specialize (Hnew new Hbn). revert Hnew. by rewrite <- !app_assoc. }
  assert (Hz : bytes [0; 0]) by (repeat constructor; lia).
  rewrite Hw by done. cbn [mbind outcome_mbind]. rewrite Hsum by done. cbn [mbind outcome_mbind].
  set (s := word_sum (a ++ [0; 0] ++ b)). rewrite Hw by done. cbn [mbind outcome_mbind mret outcome_mret].
  eexists; split; [reflexivity|]. cbn [ex_packet set_packet].
  assert (Heva : Z.even (zlen a) = true) by by rewrite Ha.
  assert (Hs0 : 0 ≤ s ∧ s + 65535 < 4294967296).
  { assert (Hr : bytes (a ++ [0; 0] ++ b)) by (unfold bytes in *; rewrite !Forall_app; tauto).
    apply word_sum_range in Hr. rewrite !zlen_app in Hr. change (zlen [0; 0]) with 2 in Hr. fold s in Hr. dlia. }
  destruct (fold_cksum_multiple s) as (Hck & Hpos & Hmul); [lia|].
  set (new := le_bytes 2 (fold_cksum s)).
  split_and!.
  - assert (Hfb : field_bytes ((P ++ a) ++ new ++ b ++ Q) c len = a ++ new ++ b).
    { assert (HV : ∀ x y : list Z, Value x = Value y → x = y) by (intros x y Hxy'; by injection Hxy').
      apply HV. unfold field_bytes. rewrite <- pk_read_at.
      - replace ((P ++ a) ++ new ++ b ++ Q) with (P ++ (a ++ new ++ b) ++ Q) by by rewrite <- !app_assoc.
        apply pk_read_mid; [done|]. rewrite !zlen_app. change (zlen new) with 2. lia.
      - lia.
      - lia.
      - rewrite !zlen_app in Hin. rewrite !zlen_app. change (zlen new) with 2. lia. }
    rewrite Hfb. assert (Hsn : word_sum (a ++ new ++ b) = s + fold_cksum s).
    { unfold s at 1. rewrite !word_sum_app by done. unfold new. cbn [le_bytes app word_sum]. dlia. }
    apply multiple_right_checksum; [|by rewrite Hsn..].
    unfold bytes in *. rewrite !Forall_app. split_and!; [done|apply le_bytes_bytes|done].
  - apply Hnew, le_bytes_bytes.
  - rewrite !zlen_app. change (zlen new) with 2. lia.
  - intros i Hi H1 H2. pose proof (Hw xy new Hxy ltac:(done)) as Hw'.
    apply pk_write_at in Hw' as (_ & _ & _ & Hat). rewrite Hat by (revert Hi; by rewrite <- !app_assoc).
    change (zlen new) with 2. zcmp.
Qed.

(** C39. The checksum is right: after the primitive, the one's complement sum of the
    words of the field, in the order of the network and with the carries added at the
    other end as RFC 1071 has it, is all ones, so that whoever sums them finds the
    checksum correct, whatever the field held before, the old checksum included.  This is so when the
    field has whole words, no more than 65536 of them, and the place of the checksum is
    one of them.  Nothing else of the packet changes. *)
Theorem checksum_verifies hdrs mem args cf df packet meta next c d :
  bytes packet → field_pos hdrs cf = Value c → field_pos hdrs df = Value d →
  0 ≤ c → c + cf.(fs_len) ≤ zlen packet → Z.even cf.(fs_len) = true → cf.(fs_len) ≤ 131072 →
  c ≤ d → d + 2 ≤ c + cf.(fs_len) → Z.even (d - c) = true →
  ∃ packet',
    exec_op hdrs mem args (OP_CKSUM cf df HASH_CSUM16) (mkExecState packet meta next) =
      Value (mkExecState packet' meta next) ∧
    right_checksum (field_bytes packet' c cf.(fs_len)) ∧
    bytes packet' ∧ zlen packet' = zlen packet ∧
    ∀ i, 0 ≤ i < zlen packet → i ≠ d → i ≠ d + 1 → at_ packet' i = at_ packet i.
Proof. apply cksum_op_verifies. Qed.

(** The headers of a packet of the network: the Internet header behind the Ethernet
    header, with a wrong checksum. *)
Definition demo_ip_packet : list Z :=
  [0; 0; 0; 0; 1; 1;  0; 0; 0; 0; 1; 80;  8; 0;
   69; 0; 0; 20;  0; 1; 0; 0;  63; 0; 99; 134;  10; 0; 1; 50;  10; 0; 2; 50].
Definition demo_headers : list (option BufView) := [Some (mkBufView 0 14); Some (mkBufView 14 20)].

Lemma checksum_verifies_witness :
  ∃ packet',
    exec_op demo_headers empty_memory [] (OP_CKSUM (mkFieldSpec 1 0 20) (mkFieldSpec 1 10 2) HASH_CSUM16)
      (mkExecState demo_ip_packet (mkMetaData 0 0) 0) = Value (mkExecState packet' (mkMetaData 0 0) 0) ∧
    right_checksum (field_bytes packet' 14 20).
Proof.
  destruct (checksum_verifies demo_headers empty_memory [] (mkFieldSpec 1 0 20) (mkFieldSpec 1 10 2)
    demo_ip_packet (mkMetaData 0 0) 0 14 24) as (p & H1 & H2 & _);
    [|reflexivity|reflexivity|lia|cbv; discriminate|reflexivity|cbn; lia|lia|cbn; lia|reflexivity|by exists p].
  unfold demo_ip_packet. repeat (apply Forall_cons_2; [lia|]). apply Forall_nil_2.
Defined.
