(* ===== verification/OldSwitch.v ===== *)
(** * The packet path of the old switch
    (ipbm-old/src/dataplane: matcher.h, matcher.cpp, processor.h, processor.cpp,
    global.h, global.cpp, physical_layer.h, main.cpp)

    A packet goes from processor to processor: a processor parses it, tests whether a
    header is there, looks it up in a flow table and runs the action of a hit or of a
    miss, which names the next processor.  The main loop takes packets from the
    interfaces and sends them where the metadata says. *)

From stdpp Require Import base numbers list gmap strings.
From Stdlib Require Import ZArith Lia.
From S2P Require Import Prelude OldMemory OldTables OldParser OldExecutor.

#[local] Open Scope Z_scope.

(** ** The state *)
Inductive Condition : Type := COND_NONE | COND_IS_VALID (hdr_id : Z).

Inductive NextStage : Type := NextTable (table_id : Z) | NextProc (proc_id : Z).

Definition PROC_START : Z := 0.
Definition PROC_ID_END : Z := -1.

Record Processor : Type := mkProcessor {
  executor : Executor;
  cond : Condition;
  true_next : NextStage;
  false_next : NextStage
}.

(** The processors are static: what nobody has set is zero, so that a processor that
    was not set leads back to the first. *)
Definition zero_processor : Processor := mkProcessor zero_executor COND_NONE (NextProc 0) (NextProc 0).

Definition NUM_FLOW_TABLES : Z := 32.
Definition NUM_PROC : Z := 32.
Definition MAX_IF_NUM : Z := 8.
Definition TAB_ID_VLAN_GROUP : Z := 1002.
Definition HDR_ID_META_DATA : Z := 1000.

Record Global : Type := mkGlobal {
  tables : Tables;
  flow_tables : list FlowTable;
  processors : list Processor;
  parse_hdrs : list ParserHeader;
  actions : list Action;
  meta_data : MetaData;
  port_masks : list Z
}.

Definition set_tables (x : Tables) (g : Global) : Global :=
  mkGlobal x g.(flow_tables) g.(processors) g.(parse_hdrs) g.(actions) g.(meta_data) g.(port_masks).
Definition set_flow_tables (x : list FlowTable) (g : Global) : Global :=
  mkGlobal g.(tables) x g.(processors) g.(parse_hdrs) g.(actions) g.(meta_data) g.(port_masks).
Definition set_processors (x : list Processor) (g : Global) : Global :=
  mkGlobal g.(tables) g.(flow_tables) x g.(parse_hdrs) g.(actions) g.(meta_data) g.(port_masks).
Definition set_parse_hdrs (x : list ParserHeader) (g : Global) : Global :=
  mkGlobal g.(tables) g.(flow_tables) g.(processors) x g.(actions) g.(meta_data) g.(port_masks).
Definition set_actions (x : list Action) (g : Global) : Global :=
  mkGlobal g.(tables) g.(flow_tables) g.(processors) g.(parse_hdrs) x g.(meta_data) g.(port_masks).
Definition set_meta_data (x : MetaData) (g : Global) : Global :=
  mkGlobal g.(tables) g.(flow_tables) g.(processors) g.(parse_hdrs) g.(actions) x g.(port_masks).
Definition set_port_masks (x : list Z) (g : Global) : Global :=
  mkGlobal g.(tables) g.(flow_tables) g.(processors) g.(parse_hdrs) g.(actions) g.(meta_data) x.

(** The constructor: eight logical tables in SRAM and eight in TCAM, two on each
    physical memory.  [table_spec] has the number of the memory, the lengths of a key
    and of a value, and the number of entries. *)
Definition table_spec : list (Z * Z * Z * Z) :=
  [(0, 10, 10, 257); (1, 20, 20, 257); (2, 24, 24, 257); (3, 32, 32, 257);
   (0, 48, 48, 257); (1, 64, 64, 257); (2, 80, 80, 257); (3, 96, 96, 257)].

Definition add_sram (spec : Z * Z * Z * Z) (ts : Tables) : outcome Tables :=
  let '(phy, kl, vl, n) := spec in
  '(t, m) ← make_sram phy kl vl n ts.(memory);
  mret (mkTables m (ts.(logic_tables) ++ [Sram t])).

Definition add_tcam (spec : Z * Z * Z * Z) (ts : Tables) : outcome Tables :=
  let '(phy, kl, vl, n) := spec in
  '(t, m) ← make_tcam phy kl vl n ts.(memory);
  mret (mkTables m (ts.(logic_tables) ++ [Tcam t])).

Definition make_tables : outcome Tables :=
  ts ← each add_sram table_spec (mkTables empty_memory []);
  each add_tcam table_spec ts.

Definition make_global : outcome Global :=
  ts ← make_tables;
  mret (mkGlobal ts (replicate (Z.to_nat NUM_FLOW_TABLES) zero_flow_table)
    (replicate (Z.to_nat NUM_PROC) zero_processor) (replicate (Z.to_nat NUM_HDRS) zero_parser_header)
    (replicate (Z.to_nat NUM_ACTIONS) (mkAction [])) (mkMetaData 0 0)
    (replicate (Z.to_nat MAX_IF_NUM) 4294967295)).

(** ** The matcher *)

(** The metadata as it lies in memory. *)
Definition meta_bytes (m : MetaData) : list Z := le_bytes 4 m.(out_port) ++ le_bytes 4 m.(vlan_id).

Definition load_field (hdrs : list (option BufView)) (packet : list Z) (meta : MetaData) (f : FieldSpec) :
    outcome (list Z) :=
  if f.(fs_hdr_id) =? HDR_ID_META_DATA then pk_read (meta_bytes meta) f.(fs_start) f.(fs_len)
  else pos ← field_pos hdrs f; pk_read packet pos f.(fs_len).

(** The key is put together in an array of the length of the table's key. *)
Definition match_key (tab : FlowTable) (hdrs : list (option BufView)) (packet : list Z) (meta : MetaData) :
    outcome (list Z) :=
  if tab.(ft_key_len) <? 0 then Undefined BadLength
  else
    each (λ f key,
      bs ← load_field hdrs packet meta f;
      if zlen key + zlen bs <=? tab.(ft_key_len) then mret (key ++ bs) else Undefined OutOfBounds)
      tab.(ft_key_fields) [].

Definition matcher_match (flow_table_id : Z) (hdrs : list (option BufView)) (packet : list Z) (g : Global) :
    outcome (option Buffer * Tables) :=
  tab ← lift (rd g.(flow_tables) flow_table_id);
  key ← match_key tab hdrs packet g.(meta_data);
  pos ← match tab.(ft_match_type) with
        | MATCH_EXACT => flow_match_exact tab key g.(tables)
        | MATCH_TERNARY => flow_match_ternary tab key [] g.(tables)
        | MATCH_LPM => flow_match_lpm tab key g.(tables)
        end;
  end_ ← flow_end_pos tab g.(tables);
  match_val ← (if negb (pos =? end_) then Some <$> flow_get_val tab pos g.(tables) else mret None);
  if tab.(ft_is_counter) then
    match match_val with
    | Some v =>
        count ← load g.(tables).(memory) v 4;
        m ← store g.(tables).(memory) v (le_bytes 4 (le_word count + 1));
        mret (Some v, mkTables m g.(tables).(logic_tables))
    | None =>
        ts ← flow_insert tab key (le_bytes 4 1) g.(tables);
        mret (None, ts)
    end
  else mret (match_val, g.(tables)).

(** ** A processor *)
Definition eval_condition (p : Processor) (hdrs : list (option BufView)) : outcome bool :=
  match p.(cond) with
  | COND_NONE => mret true
  | COND_IS_VALID hdr_id =>
      h ← lift (rd hdrs hdr_id);
      mret (match h with Some _ => true | None => false end)
  end.

(** The state of a packet on its way. *)
Record Way : Type := mkWay { way_global : Global; way_packet : list Z }.

Definition process (fuel : nat) (p : Processor) (len : Z) (w : Way) : outcome (Z * Way) :=
  hdrs ← parse fuel w.(way_global).(parse_hdrs) w.(way_packet) len;
  c ← eval_condition p hdrs;
  match (if c : bool then p.(true_next) else p.(false_next)) with
  | NextTable table_id =>
      '(match_val, ts) ← matcher_match table_id hdrs w.(way_packet) w.(way_global);
      s ← execute w.(way_global).(actions) hdrs ts.(memory) p.(executor) match_val w.(way_packet)
            w.(way_global).(meta_data);
      mret (s.(ex_next), mkWay (set_meta_data s.(ex_meta) (set_tables ts w.(way_global))) s.(ex_packet))
  | NextProc proc_id => mret (proc_id, w)
  end.

(** ** The packet *)
Fixpoint process_from (fuel : nat) (parse_fuel : nat) (len : Z) (curr_proc_id : Z) (w : Way) : outcome Way :=
  if curr_proc_id =? PROC_ID_END then mret w
  else
    match fuel with
    | O => Running
    | S fuel' =>
        proc ← lift (rd w.(way_global).(processors) curr_proc_id);
        '(next_proc_id, w) ← process parse_fuel proc len w;
        process_from fuel' parse_fuel len next_proc_id w
    end.

Definition process_packet (fuel parse_fuel : nat) (packet : list Z) (recv_len if_idx : Z) (g : Global) : outcome Way :=
  mask ← lift (rd g.(port_masks) if_idx);
  process_from fuel parse_fuel recv_len PROC_START (mkWay (set_meta_data (mkMetaData 0 mask) g) packet).

(** ** The main loop (main.cpp, physical_layer.h)

    [recv_packet] polls the interfaces one after the other, from interface 0 on, until
    a packet is there; the next call starts at interface 0 again.  Packets arrive at any
    time: what arrives before a poll is an argument of the poll. *)
Definition BUFSIZ : Z := 8192.

Definition frame_of (packet : list Z) (recv_len : Z) : list Z := take (Z.to_nat recv_len) packet.

Definition ZERO_MAC : list Z := replicate 6 0.

(** The packet is sent through the interfaces whose bits are set; it gets the hardware
    address of each, unless that is zero, and keeps it for the next. *)
Definition emit_if (if_macs : list (list Z)) (recv_len port : Z) (if_idx : Z)
    (st : list Z * list (Z * list Z)) : outcome (list Z * list (Z * list Z)) :=
  let '(packet, sent) := st in
  if 32 <=? if_idx then Undefined OutOfBounds
  else if Z.land (Z.shiftr port if_idx) 1 =? 1 then
    mac ← lift (rd if_macs if_idx);
    packet ← (if bool_decide (mac = ZERO_MAC) then mret packet else pk_write packet 6 mac);
    mret (packet, sent ++ [(if_idx, frame_of packet recv_len)])
  else mret (packet, sent).

Definition emit (num_if : Z) (if_macs : list (list Z)) (packet : list Z) (recv_len port : Z) :
    outcome (list (Z * list Z)) :=
  snd <$> each (emit_if if_macs recv_len port) (seqZ 0 num_if) (packet, []).

(** The state of the loop: what waits on each interface, and the interface that is
    polled next. *)
Record Loop : Type := mkLoop {
  loop_global : Global;
  queues : list (list (list Z));
  if_index : Z
}.

(** What is done with a packet. *)
Record Handled : Type := mkHandled { from_if : Z; in_packet : list Z; out_packets : list (Z * list Z) }.

Definition handle_packet `{Target} (fuel parse_fuel : nat) (num_if : Z) (if_macs : list (list Z))
    (packet : list Z) (if_idx : Z) (g : Global) : outcome (Global * Handled) :=
  buffer ← lift (b ← fresh BUFSIZ; memcpy b 0 packet 0 (zlen packet));
  w ← process_packet fuel parse_fuel buffer (zlen packet) if_idx g;
  let port := w.(way_global).(meta_data).(out_port) in
  sent ← (if negb (port =? 0) then emit num_if if_macs w.(way_packet) (zlen packet) port else mret []);
  mret (w.(way_global), mkHandled if_idx packet sent).

(** One poll, after the packets [arrived] have come. *)
Definition poll `{Target} (fuel parse_fuel : nat) (num_if : Z) (if_macs : list (list Z))
    (arrived : list (list (list Z))) (s : Loop) : outcome (Loop * option Handled) :=
  let qs := zip_with app s.(queues) arrived in
  q ← lift (rd qs s.(if_index));
  match q with
  | packet :: rest =>
      '(g, h) ← handle_packet fuel parse_fuel num_if if_macs packet s.(if_index) s.(loop_global);
      mret (mkLoop g (<[Z.to_nat s.(if_index) := rest]> qs) 0, Some h)
  | [] =>
      if num_if =? 0 then Undefined DivByZero
      else mret (mkLoop s.(loop_global) qs (Z.rem (s.(if_index) + 1) num_if), None)
  end.

(** The state before the [k]-th poll, and what the poll does, when the packets
    [arrive k] come before it.  An exception leaves the loop, and the program. *)
Section run.
Context `{Target} (fuel parse_fuel : nat) (num_if : Z) (if_macs : list (list Z)).
Context (arrive : nat → list (list (list Z))) (s0 : Loop).

Fixpoint loop_at (k : nat) : outcome Loop :=
  match k with
  | O => Value s0
  | S k' => s ← loop_at k'; r ← poll fuel parse_fuel num_if if_macs (arrive k') s; mret r.1
  end.

Definition poll_at (k : nat) : outcome (option Handled) :=
  s ← loop_at k; r ← poll fuel parse_fuel num_if if_macs (arrive k) s; mret r.2.
End run.

(** ** A packet's way ends

    Every node of the parse graph takes a byte of the packet or leads nowhere. *)
Definition advances (g : Global) : Prop := Forall node_advances g.(parse_hdrs).

(** The processors a packet can come to, those with [live], are numbered along the way:
    every next processor has a greater number, or is the end, and no action
    recirculates. *)
Definition after (live : Z → Prop) (id next : Z) : Prop := next = PROC_ID_END ∨ id < next ∧ live next.

Definition stage_after (live : Z → Prop) (id : Z) (p : Processor) (s : NextStage) : Prop :=
  match s with
  | NextProc n => after live id n
  | NextTable _ => after live id p.(executor).(hit_next_proc) ∧ after live id p.(executor).(miss_next_proc)
  end.

Record forward (live : Z → Prop) (g : Global) : Prop := {
  fwd_start : live PROC_START;
  fwd_procs : ∀ id p, live id → rd g.(processors) id = Ok p →
    stage_after live id p p.(true_next) ∧ stage_after live id p p.(false_next);
  fwd_actions : Forall (λ a, OP_RECIRCULATE ∉ a.(ops)) g.(actions)
}.

(** What a packet does not change. *)
Definition same_config (g g' : Global) : Prop :=
  g'.(flow_tables) = g.(flow_tables) ∧ g'.(processors) = g.(processors) ∧ g'.(parse_hdrs) = g.(parse_hdrs) ∧
  g'.(actions) = g.(actions) ∧ g'.(port_masks) = g.(port_masks).

Lemma same_config_trans g1 g2 g3 : same_config g1 g2 → same_config g2 g3 → same_config g1 g3.
Proof. unfold same_config. intros (?&?&?&?&?) (?&?&?&?&?). split_and!; congruence. Qed.

Lemma forward_config live g g' : same_config g g' → forward live g → forward live g'.
Proof. intros (_ & Hp & Hh & Ha & _) [H0 H1 H2]. constructor; [done|by rewrite Hp|by rewrite Ha]. Qed.

Lemma advances_config g g' : same_config g g' → advances g → advances g'.
Proof. intros (_ & _ & Hh & _). unfold advances. by rewrite Hh. Qed.

(** *** Every part ends *)
Create HintDb ends.

Ltac ends_tac :=
  repeat first
    [ done
    | solve [auto with ends]
    | match goal with
      | |- ends (_ ≫= _) => apply ends_bind; [|intros ? _]
      | |- ends (_ <$> _) => apply ends_fmap
      | |- ends (if ?b then _ else _) => destruct b
      | |- ends (match ?x with _ => _ end) => destruct x
      | |- ends (let _ := _ in _) => cbv zeta
      end ].

Lemma pk_read_ends packet pos n : ends (pk_read packet pos n).
Proof. unfold pk_read. ends_tac. Qed.
Lemma pk_write_ends packet pos bs : ends (pk_write packet pos bs).
Proof. unfold pk_write. ends_tac. Qed.
Lemma first_bytes_ends bs n : ends (first_bytes bs n).
Proof. unfold first_bytes. ends_tac. Qed.
Lemma load_ends m b n : ends (load m b n).
Proof. unfold load. ends_tac. Qed.
Lemma store_ends m b bs : ends (store m b bs).
Proof. unfold store. ends_tac. Qed.
#[export] Hint Resolve ends_lift pk_read_ends pk_write_ends first_bytes_ends load_ends store_ends : ends.
Lemma field_pos_ends hdrs f : ends (field_pos hdrs f).
Proof. unfold field_pos. ends_tac. Qed.
#[export] Hint Resolve field_pos_ends : ends.
Lemma get_bucket_id_ends t key len : ends (get_bucket_id t key len).
Proof. unfold get_bucket_id. ends_tac. Qed.
Lemma bitmap_test_ends m bm pos : ends (bitmap_test m bm pos).
Proof. unfold bitmap_test. ends_tac. Qed.
Lemma bitmap_set_ends m bm pos : ends (bitmap_set m bm pos).
Proof. unfold bitmap_set. ends_tac. Qed.
Lemma bitmap_reset_ends m bm pos : ends (bitmap_reset m bm pos).
Proof. unfold bitmap_reset. ends_tac. Qed.
#[export] Hint Resolve get_bucket_id_ends bitmap_test_ends bitmap_set_ends bitmap_reset_ends : ends.

Lemma tcam_get_entry_ends t pos : ends (tcam_get_entry t pos).
Proof. unfold tcam_get_entry. ends_tac. Qed.
#[export] Hint Resolve tcam_get_entry_ends : ends.
Lemma tcam_exact_from_ends n i key t m : ends (tcam_exact_from n i key t m).
Proof. revert i. induction n as [|n IH]; intros i; cbn [tcam_exact_from]; ends_tac. Qed.
#[export] Hint Resolve tcam_exact_from_ends : ends.

Lemma table_insert_ends k v (t : AnyTable) m : ends (insert_entry k v t m).
Proof. destruct t; cbn; unfold sram_insert, tcam_insert; ends_tac. Qed.
Lemma table_match_ends k (t : AnyTable) m : ends (match_exact k t m).
Proof. destruct t; cbn; unfold sram_match_exact, tcam_match_exact; ends_tac. Qed.
Lemma table_entry_ends (t : AnyTable) pos : ends (get_entry t pos).
Proof. destruct t; cbn; ends_tac. Qed.
#[export] Hint Resolve table_insert_ends table_match_ends table_entry_ends : ends.

Lemma logic_ends ft ts : ends (logic ft ts).
Proof. unfold logic. ends_tac. Qed.
Lemma get_tag_key_ends ft t key : ends (get_tag_key ft t key).
Proof. unfold get_tag_key. ends_tac. Qed.
Lemma get_pad_val_ends ft t val : ends (get_pad_val ft t val).
Proof. unfold get_pad_val. ends_tac. Qed.
#[export] Hint Resolve logic_ends get_tag_key_ends get_pad_val_ends : ends.

Lemma load_field_ends hdrs packet meta f : ends (load_field hdrs packet meta f).
Proof. unfold load_field. ends_tac. Qed.
#[export] Hint Resolve load_field_ends : ends.

Lemma matcher_ends id hdrs packet g : ends (matcher_match id hdrs packet g).
Proof.
  unfold matcher_match, match_key, flow_match_exact, flow_match_ternary, flow_match_lpm, flow_end_pos, flow_get_val, flow_insert.
  ends_tac. apply ends_each. intros x t. ends_tac.
Qed.

Lemma cksum_loop_ends n packet pos acc : ends (cksum_loop n packet pos acc).
Proof. revert pos acc. induction n as [|n IH]; intros pos acc; cbn [cksum_loop]; ends_tac. Qed.
#[export] Hint Resolve cksum_loop_ends : ends.

Lemma exec_op_ends hdrs mem args op s : ends (exec_op hdrs mem args op s).
Proof.
  destruct op; cbn [exec_op]; unfold calc_cksum, asserts; ends_tac.
Qed.

(** *** What the parts keep *)
Lemma exec_op_next hdrs mem args op s s' :
  op ≠ OP_RECIRCULATE → exec_op hdrs mem args op s = Value s' → s'.(ex_next) = s.(ex_next).
Proof.
  intros Hop H. destruct op; cbn [exec_op] in H; try done.
  all: repeat (case_bool_decide || case_match || inv_value); done.
Qed.

Lemma exec_ops_next hdrs mem args l s s' :
  OP_RECIRCULATE ∉ l → each (exec_op hdrs mem args) l s = Value s' → s'.(ex_next) = s.(ex_next).
Proof.
  revert s. induction l as [|op l IH]; intros s Hl H; cbn [each] in H; [by inv_value|]. inv_value.
  apply not_elem_of_cons in Hl as [Hne Hl]. rewrite (IH _ Hl H). by eapply exec_op_next.
Qed.

Lemma old_process_ends fuel p len w :
  advances w.(way_global) → Z.max 0 len + 2 ≤ Z.of_nat fuel → ends (process fuel p len w).
Proof.
  intros Hn Hf. unfold process. apply ends_bind; [by apply parse_ends|]. intros hdrs _.
  apply ends_bind; [unfold eval_condition; ends_tac|]. intros c _. case_match; [|done].
  apply ends_bind; [apply matcher_ends|]. intros [mv ts] _. apply ends_bind; [|done].
  unfold execute. apply ends_bind; [apply ends_lift|]. intros a _. apply ends_each. intros. apply exec_op_ends.
Qed.

Lemma process_keeps fuel p len w n w' :
  process fuel p len w = Value (n, w') → same_config w.(way_global) w'.(way_global).
Proof.
  unfold process. intros H. inv_value. case_match; inv_value; [|done]. destruct x1 as [mv ts]. inv_value. done.
Qed.

Lemma process_after live fuel id p len w n w' :
  forward live w.(way_global) → live id → rd w.(way_global).(processors) id = Ok p →
  process fuel p len w = Value (n, w') → after live id n.
Proof.
  intros F Hid Hp H. destruct (fwd_procs _ _ F id p Hid Hp) as [Ht Hf]. unfold process in H.
  apply value_bind_inv in H as (hdrs & _ & H). apply value_bind_inv in H as (c & _ & H).
  assert (Hst : stage_after live id p (if (c : bool) then true_next p else false_next p)) by by destruct c.
  destruct (if c then true_next p else false_next p) as [tid|pid]; [|by inv_value].
  apply value_bind_inv in H as ([mv ts] & _ & H). apply value_bind_inv in H as (s & Hs & H). injection H as <- <-.
  apply value_bind_inv in Hs as (a & Ha%lift_value%rd_ok_inv & Hs). destruct Ha as [_ Ha].
  pose proof (Forall_lookup_1 _ _ _ _ (fwd_actions _ _ F) Ha) as Hno.
  apply exec_ops_next in Hs; [|done]. rewrite Hs. cbn [ex_next]. destruct Hst. by destruct mv.
Qed.

Lemma process_from_ends live fuel pf len id w :
  advances w.(way_global) → forward live w.(way_global) → live id → Z.max 0 len + 2 ≤ Z.of_nat pf →
  Z.max 0 (zlen w.(way_global).(processors) - id) + 2 ≤ Z.of_nat fuel →
  ends (process_from fuel pf len id w).
Proof.
  revert id w. induction fuel as [|fuel IH]; intros id w Hadv F Hid Hpf Hf; [lia|]. cbn [process_from].
  destruct (Z.eqb_spec id PROC_ID_END); [done|]. apply ends_bind; [apply ends_lift|]. intros p Hp%lift_value.
  apply ends_bind; [by apply old_process_ends|]. intros [n' w'] Hpr.
  pose proof (process_keeps _ _ _ _ _ _ Hpr) as Hk. pose proof (process_after _ _ _ _ _ _ _ _ F Hid Hp Hpr) as Haf.
  apply rd_ok_inv in Hp as [Hr _]. destruct (Z.eqb_spec n' PROC_ID_END) as [->|Hne].
  - destruct fuel; done.
  - destruct Haf as [|[Haf Hlive]]; [done|]. apply IH; [by eapply advances_config|by eapply forward_config|done|done|].
    destruct Hk as (_ & -> & _). lia.
Qed.

Lemma process_from_keeps fuel pf len id w w' :
  process_from fuel pf len id w = Value w' → same_config w.(way_global) w'.(way_global).
Proof.
  revert id w. induction fuel as [|fuel IH]; intros id w H; cbn [process_from] in H;
    (destruct (id =? PROC_ID_END); [by inv_value|]); [done|].
  apply value_bind_inv in H as (p & _ & H). apply value_bind_inv in H as ([n w1] & Hp & H).
  eapply same_config_trans; [by eapply process_keeps|by eapply IH].
Qed.

Lemma process_packet_ends live fuel pf packet len i g :
  advances g → forward live g → Z.max 0 len + 2 ≤ Z.of_nat pf → zlen g.(processors) + 2 ≤ Z.of_nat fuel →
  ends (process_packet fuel pf packet len i g).
Proof.
  intros Hadv F Hpf Hf. unfold process_packet. apply ends_bind; [apply ends_lift|]. intros mask _.
  apply (process_from_ends live); [by eapply advances_config; [|exact Hadv]|by eapply forward_config; [|exact F]|apply F|done|]. cbn [way_global set_meta_data processors].
  unfold PROC_START. pose proof (zlen_nonneg g.(processors)). lia.
Qed.

Lemma process_packet_keeps fuel pf packet len i g w :
  process_packet fuel pf packet len i g = Value w → same_config g w.(way_global).
Proof.
  unfold process_packet. intros (mask & _ & H)%value_bind_inv. by apply process_from_keeps in H.
Qed.

Lemma emit_ends num_if macs packet len port : ends (emit num_if macs packet len port).
Proof.
  unfold emit. apply ends_fmap, ends_each. intros i [pk sent]. unfold emit_if. ends_tac.
Qed.

Lemma handle_packet_ends `{Target} live fuel pf num_if macs packet i g :
  advances g → forward live g → BUFSIZ + 2 ≤ Z.of_nat pf → zlen g.(processors) + 2 ≤ Z.of_nat fuel →
  ends (handle_packet fuel pf num_if macs packet i g).
Proof.
  intros Hadv F Hpf Hf. unfold handle_packet. destruct (fresh_ok BUFSIZ) as (b & Hb & Hlen & _); [done|]. rewrite Hb.
  cbn [mbind res_mbind]. destruct (Z.le_gt_cases (zlen packet) BUFSIZ) as [Hfit|Hbig].
  - apply ends_bind; [apply ends_lift|]. intros buf _. pose proof (zlen_nonneg packet).
    apply ends_bind; [apply (process_packet_ends live); [done|done|lia|done]|]. intros w _. cbv zeta.
    apply ends_bind; [destruct (negb _); [apply emit_ends|done]|]. done.
  - destruct (memcpy b 0 packet 0 (zlen packet)) as [b'|] eqn:Em; [|done]. exfalso.
    unfold memcpy in Em. pose proof (zlen_nonneg packet). destruct (Z.ltb_spec (zlen packet) 0); [lia|].
    unfold for_lt in Em. rewrite Z.sub_0_r in Em.
    assert (Hpres : ∀ (j : Z) (t t' : list Z), zlen t = BUFSIZ →
      (x ← rd packet (0 + j); wr t (0 + j) x) = Ok t' → zlen t' = BUFSIZ).
    { intros j t t' Ht (x & _ & [_ ->]%wr_ok_inv)%bind_ok_inv. by rewrite zlen_insert. }
    destruct (for_up_ok (λ d, zlen d = BUFSIZ) _ _ _ _ _ Hpres Hlen Em BUFSIZ) as (t & t' & Ht & Hw); [unfold BUFSIZ in *; lia|].
    apply bind_ok_inv in Hw as (x & _ & Hw%wr_ok_inv). lia.
Qed.

(** *** Every packet has its turn *)
Section turns.
Context `{Target} (fuel pf : nat) (num_if : Z) (if_macs : list (list Z)) (live : Z → Prop).
Context (arrive : nat → list (list (list Z))) (s0 : Loop).

Definition at_poll : nat → outcome Loop := loop_at fuel pf num_if if_macs arrive s0.
Definition done_at : nat → outcome (option Handled) := poll_at fuel pf num_if if_macs arrive s0.

(** What is on interface [i] at poll [k]: what waited, and what has just come. *)
Definition pending (k : nat) (s : Loop) (i : Z) : list (list Z) := at_ s.(queues) i ++ at_ (arrive k) i.

Definition waiting (k : nat) (i : Z) (p : list Z) : Prop := ∃ s, at_poll k = Value s ∧ p ∈ pending k s i.

Definition handled_at (k : nat) (i : Z) (p : list Z) : Prop :=
  ∃ h, done_at k = Value (Some h) ∧ h.(from_if) = i ∧ h.(in_packet) = p.

(** The loop was left: by an exception, a failed assertion, or what C++ leaves
    undefined. *)
Definition stopped_at (k : nat) : Prop := (∀ s, at_poll k ≠ Value s) ∧ ends (at_poll k).

(** As many queues as interfaces, a parse graph that advances, and processors that lead
    forward. *)
Record loop_ok (s : Loop) : Prop := {
  ok_queues : zlen s.(queues) = num_if;
  ok_index : 0 ≤ s.(if_index) < num_if;
  ok_advances : advances s.(loop_global);
  ok_forward : forward live s.(loop_global);
  ok_procs : zlen s.(loop_global).(processors) = NUM_PROC
}.

Context (H0 : loop_ok s0) (Harrive : ∀ k, zlen (arrive k) = num_if).
Context (Hfuel : NUM_PROC + 2 ≤ Z.of_nat fuel) (Hpf : BUFSIZ + 2 ≤ Z.of_nat pf).

Lemma joined_at k s i : loop_ok s → 0 ≤ i < num_if → at_ (zip_with app s.(queues) (arrive k)) i = pending k s i.
Proof.
  intros Hs Hi. pose proof (ok_queues _ Hs) as Hq. specialize (Harrive k). unfold pending, at_, zlen in *.
  destruct (lookup_lt_is_Some_2 s.(queues) (Z.to_nat i)) as [q Eq]; [lia|].
  destruct (lookup_lt_is_Some_2 (arrive k) (Z.to_nat i)) as [a Ea]; [lia|].
  rewrite (list_lookup_total_correct _ _ _ Eq), (list_lookup_total_correct _ _ _ Ea).
  apply list_lookup_total_correct. by rewrite lookup_zip_with, Eq, Ea.
Qed.

Lemma joined_length k s : loop_ok s → zlen (zip_with app s.(queues) (arrive k)) = num_if.
Proof.
  intros Hs. pose proof (ok_queues _ Hs) as Hq. specialize (Harrive k). unfold zlen in *. rewrite length_zip_with. lia.
Qed.

(** One poll: an interface with nothing on it is passed over; otherwise its first
    packet is handled and the polls start over. *)
Lemma poll_spec k s r :
  loop_ok s → poll fuel pf num_if if_macs (arrive k) s = Value r →
  loop_ok r.1 ∧
  match pending k s s.(if_index) with
  | [] => r.2 = None ∧ r.1.(if_index) = (s.(if_index) + 1) mod num_if ∧
          ∀ l, 0 ≤ l < num_if → at_ r.1.(queues) l = pending k s l
  | p :: rest => (∃ h, r.2 = Some h ∧ h.(from_if) = s.(if_index) ∧ h.(in_packet) = p) ∧ r.1.(if_index) = 0 ∧
          ∀ l, 0 ≤ l < num_if → at_ r.1.(queues) l = if l =? s.(if_index) then rest else pending k s l
  end.
Proof.
  intros Hs Hp. pose proof (ok_index _ Hs) as Hi. pose proof (joined_length k s Hs) as Hl. unfold poll in Hp.
  rewrite rd_at in Hp by lia. rewrite joined_at in Hp by done. cbn [lift mbind outcome_mbind] in Hp.
  destruct (pending k s (if_index s)) as [|p rest] eqn:Ep.
  - destruct (Z.eqb_spec num_if 0); [done|]. injection Hp as <-. cbn. split.
    + destruct Hs. constructor; cbn; [done| |done|done|done]. rewrite Z.rem_mod_nonneg by lia. apply Z.mod_pos_bound. lia.
    + split; [done|]. split; [by rewrite Z.rem_mod_nonneg by lia|]. intros l Hl'. by apply joined_at.
  - apply value_bind_inv in Hp as ([g h] & Hh & Hp). injection Hp as <-. cbn. unfold handle_packet in Hh.
    apply value_bind_inv in Hh as (buf & _ & Hh). apply value_bind_inv in Hh as (w & Hw & Hh).
    apply value_bind_inv in Hh as (sent & _ & Hh). injection Hh as <- <-. apply process_packet_keeps in Hw. split.
    + destruct Hs. constructor; cbn; [by rewrite zlen_insert|lia|by eapply advances_config|by eapply forward_config|].
      destruct Hw as (_ & -> & _). done.
    + split; [by eexists|]. split; [done|]. intros l Hl'. rewrite at_insert by lia.
      rewrite Z.eqb_sym. destruct (l =? if_index s); [done|]. by apply joined_at.
Qed.

Lemma poll_ends k s : loop_ok s → ends (poll fuel pf num_if if_macs (arrive k) s).
Proof.
  intros Hs. unfold poll. apply ends_bind; [apply ends_lift|]. intros [|p rest] _; [by destruct (num_if =? 0)|].
  apply ends_bind; [|by intros [g h] _]. apply (handle_packet_ends live); [apply Hs|apply Hs|done|]. by rewrite (ok_procs _ Hs).
Qed.

Lemma at_poll_ok k s : at_poll k = Value s → loop_ok s.
Proof.
  revert s. induction k as [|k IH]; intros s Hs; cbn in Hs; [by injection Hs as <-|].
  apply value_bind_inv in Hs as (s1 & Hs1 & Hs). apply value_bind_inv in Hs as (r & Hr & Hs). injection Hs as <-.
  by apply poll_spec in Hr as [Hok _]; [|apply IH].
Qed.

(** The loop never hangs: the polls before [k] come to an end. *)
Lemma at_poll_ends k : ends (at_poll k).
Proof.
  induction k as [|k IH]; [done|]. cbn. apply ends_bind; [done|]. intros s Hs.
  apply ends_bind; [by eapply poll_ends, at_poll_ok|done].
Qed.

Lemma next_poll k s : at_poll k = Value s →
  stopped_at (S k) ∨ ∃ r, poll fuel pf num_if if_macs (arrive k) s = Value r ∧ at_poll (S k) = Value r.1 ∧ done_at k = Value r.2.
Proof.
  intros Hs. destruct (poll fuel pf num_if if_macs (arrive k) s) as [r| | | |] eqn:E.
  1:{ right. exists r. split_and!; [done|cbn; change (loop_at fuel pf num_if if_macs arrive s0 k) with (at_poll k); by rewrite Hs; cbn; rewrite E|].
      unfold done_at, poll_at. change (loop_at fuel pf num_if if_macs arrive s0 k) with (at_poll k). rewrite Hs. cbn. by rewrite E. }
  all: left; split; [|apply at_poll_ends]; intros s'; cbn; change (loop_at fuel pf num_if if_macs arrive s0 k) with (at_poll k);
    rewrite Hs; cbn; by rewrite E.
Qed.

(** The packet at place [j] of what is on interface [i]. *)
Definition place (k : nat) (i : Z) (p : list Z) (j : nat) (s : Loop) : Prop :=
  at_poll k = Value s ∧ pending k s i !! j = Some p.

Lemma waiting_place k i p : waiting k i p ↔ ∃ j s, place k i p j s.
Proof.
  unfold waiting, place. split.
  - intros (s & Hs & [j Hj]%list_elem_of_lookup). by exists j, s.
  - intros (j & s & Hs & Hj). exists s. split; [done|]. by eapply list_elem_of_lookup_2.
Qed.

(** One poll: the packet is handled, or it waits on, one place further if a packet of
    its interface was taken. *)
Lemma place_step k i p j s :
  0 ≤ i < num_if → place k i p j s →
  stopped_at (S k) ∨ handled_at k i p ∨
  ∃ s' j', place (S k) i p j' s' ∧
    match pending k s s.(if_index) with
    | [] => j' = j ∧ s'.(if_index) = (s.(if_index) + 1) mod num_if ∧ s.(if_index) ≠ i ∧
            ∀ l, 0 ≤ l < num_if → at_ s'.(queues) l = pending k s l
    | _ :: rest => (if i =? s.(if_index) then j = S j' else j' = j) ∧ s'.(if_index) = 0 ∧
            ∀ l, 0 ≤ l < num_if → at_ s'.(queues) l = if l =? s.(if_index) then rest else pending k s l
    end.
Proof.
  intros Hi [Hs Hj]. destruct (next_poll k s Hs) as [|(r & Hr & Hs' & Hd)]; [by left|]. right.
  pose proof (poll_spec k s r (at_poll_ok _ _ Hs) Hr) as [_ Hspec].
  destruct (pending k s s.(if_index)) as [|q rest] eqn:Eq.
  - right. destruct Hspec as (_ & Hidx & Hqs). exists r.1, j.
    assert (Hne : s.(if_index) ≠ i) by (intros E; rewrite E, Eq in *; done).
    split; [|by split_and!]. split; [done|]. unfold pending. rewrite Hqs by done. by apply lookup_app_l_Some.
  - destruct Hspec as ((h & Hh & Hif & Hin) & Hidx & Hqs). destruct (Z.eqb_spec i s.(if_index)) as [E|Hne].
    + rewrite <- E in *. rewrite Eq in Hj. destruct j as [|j].
      * left. injection Hj as ->. exists h. rewrite Hd, Hh. by split_and!.
      * right. exists r.1, j. split; [|by split_and!]. split; [done|]. unfold pending. rewrite Hqs, Z.eqb_refl by done.
        by apply lookup_app_l_Some.
    + right. exists r.1, j. split; [|by split_and!]. split; [done|]. unfold pending. rewrite Hqs by done.
      destruct (Z.eqb_spec i (if_index s)); [done|]. by apply lookup_app_l_Some.
Qed.

(** The packets of the interfaces before [i]. *)
Definition ahead (k : nat) (s : Loop) (i : Z) : Z := sum_of_map (λ l, zlen (pending k s l)) (seqZ 0 i).

(** How far the polls are from interface [i]. *)
Definition distance (i : Z) (s : Loop) : Z :=
  if s.(if_index) <=? i then i - s.(if_index) else num_if - s.(if_index) + i.

Definition rank (k : nat) (i : Z) (j : nat) (s : Loop) : Z :=
  (ahead k s i + Z.of_nat j) * (2 * num_if) + distance i s.

Lemma sum_one_less (f g : Z → Z) x l :
  NoDup l → x ∈ l → f x = g x + 1 → (∀ y, y ∈ l → y ≠ x → f y = g y) → sum_of_map f l = sum_of_map g l + 1.
Proof.
  intros Hnd Hx Hfx Hfy. induction Hnd as [|y l Hy Hnd IH]; [by apply elem_of_nil in Hx|]. cbn.
  apply elem_of_cons in Hx as [->|Hx].
  - rewrite Hfx, (sum_of_map_ext f g l); [lia|]. intros z Hz. apply Hfy; [by right|]. by intros ->.
  - rewrite IH; [|done|intros z Hz; apply Hfy; by right]. rewrite Hfy; [lia|by left|]. by intros ->.
Qed.

(** When nothing comes before [i] any more, the packet comes nearer with every poll. *)
Lemma rank_step k i p j s :
  0 ≤ i < num_if → place k i p j s → (∀ l, 0 ≤ l < i → at_ (arrive (S k)) l = []) →
  stopped_at (S k) ∨ handled_at k i p ∨ ∃ s' j', place (S k) i p j' s' ∧ rank (S k) i j' s' < rank k i j s.
Proof.
  intros Hi Hpl Hquiet. destruct (place_step k i p j s Hi Hpl) as [|[|(s' & j' & Hpl' & Hst)]]; [by left|by right; left|].
  right. right. exists s', j'. split; [done|]. destruct Hpl as [Hs _]. pose proof (ok_index _ (at_poll_ok _ _ Hs)) as Hx.
  assert (Hpend : ∀ l, 0 ≤ l < i → pending (S k) s' l = at_ s'.(queues) l).
  { intros l Hl. unfold pending. rewrite Hquiet by done. apply app_nil_r. }
  unfold rank, distance. destruct (pending k s s.(if_index)) as [|q rest] eqn:Eq.
  - destruct Hst as (-> & Hidx & Hne & Hqs).
    assert (Ha : ahead (S k) s' i = ahead k s i).
    { apply sum_of_map_ext. intros l Hl%elem_of_seqZ. rewrite Hpend, Hqs by lia. done. }
    rewrite Ha, Hidx. destruct (Z.eq_dec (s.(if_index) + 1) num_if) as [Hw|Hw].
    + rewrite Hw, Z.mod_same by lia. zcmp.
    + rewrite Z.mod_small by lia. zcmp.
  - destruct Hst as (Hj & Hidx & Hqs). rewrite Hidx. destruct (Z.lt_total s.(if_index) i) as [Hlt|[He|Hgt]].
    + destruct (Z.eqb_spec i s.(if_index)); [lia|]. subst j'.
      assert (Ha : ahead k s i = ahead (S k) s' i + 1).
      { apply (sum_one_less _ _ s.(if_index)); [apply NoDup_seqZ|apply elem_of_seqZ; lia| |].
        - rewrite Hpend, Hqs, Z.eqb_refl, Eq by lia. unfold zlen. cbn. lia.
        - intros l Hl%elem_of_seqZ Hne. rewrite Hpend, Hqs by lia. by destruct (Z.eqb_spec l s.(if_index)). }
      rewrite Ha. zcmp.
    + destruct (Z.eqb_spec i s.(if_index)); [|lia]. subst j.
      assert (Ha : ahead (S k) s' i = ahead k s i).
      { apply sum_of_map_ext. intros l Hl%elem_of_seqZ. rewrite Hpend, Hqs by lia. by destruct (Z.eqb_spec l s.(if_index)); [lia|]. }
      rewrite Ha. zcmp.
    + destruct (Z.eqb_spec i s.(if_index)); [lia|]. subst j'.
      assert (Ha : ahead (S k) s' i = ahead k s i).
      { apply sum_of_map_ext. intros l Hl%elem_of_seqZ. rewrite Hpend, Hqs by lia. by destruct (Z.eqb_spec l s.(if_index)); [lia|]. }
      rewrite Ha. zcmp.
Qed.

Lemma rank_nonneg k i j s : 0 ≤ i < num_if → at_poll k = Value s → 0 ≤ rank k i j s.
Proof.
  intros Hi Hs. pose proof (ok_index _ (at_poll_ok _ _ Hs)). unfold rank, distance.
  pose proof (sum_of_map_nonneg (λ l, zlen (pending k s l)) (seqZ 0 i) ltac:(intros; apply zlen_nonneg)) as Ha.
  fold (ahead k s i) in Ha. destruct (_ <=? _) eqn:E; [apply Z.leb_le in E|]; nia.
Qed.

(** Up to a poll. *)
Lemma waiting_until k i p m :
  0 ≤ i < num_if → waiting k i p →
  (∃ k', (k ≤ k')%nat ∧ (handled_at k' i p ∨ stopped_at (S k'))) ∨ waiting (k + m) i p.
Proof.
  intros Hi Hw. induction m as [|m IH]; [right; by rewrite Nat.add_0_r|]. destruct IH as [|Hm]; [by left|].
  apply waiting_place in Hm as (j & s & Hpl). destruct (place_step _ _ _ _ _ Hi Hpl) as [Hst|[Hh|(s' & j' & Hpl' & _)]].
  - left. exists (k + m)%nat. split; [lia|by right].
  - left. exists (k + m)%nat. split; [lia|by left].
  - right. apply waiting_place. exists j', s'. by replace (k + S m)%nat with (S (k + m)) by lia.
Qed.

Lemma quiet_handled k i p K :
  0 ≤ i < num_if → (∀ k l, (K ≤ k)%nat → 0 ≤ l < i → at_ (arrive k) l = []) → waiting k i p →
  ∃ k', (k ≤ k')%nat ∧ (handled_at k' i p ∨ stopped_at (S k')).
Proof.
  intros Hi Hquiet Hw. destruct (waiting_until k i p K Hi Hw) as [|Hw']; [done|].
  apply waiting_place in Hw' as (j & s & Hpl).
  assert (Hgo : ∀ r k j s, (K ≤ k)%nat → place k i p j s → rank k i j s ≤ Z.of_nat r →
    ∃ k', (k ≤ k')%nat ∧ (handled_at k' i p ∨ stopped_at (S k'))).
  { induction r as [|r IH]; intros k1 j1 s1 HK Hp1 Hr;
      (destruct (rank_step k1 i p j1 s1 Hi Hp1 ltac:(intros; apply Hquiet; lia)) as [Hst|[Hh|(s2 & j2 & Hp2 & Hlt)]];
       [exists k1; split; [lia|by right]|exists k1; split; [lia|by left]|]).
    - pose proof (rank_nonneg (S k1) i j2 s2 Hi (proj1 Hp2)). lia.
    - destruct (IH (S k1) j2 s2) as (k' & Hk' & Hd); [lia|done|lia|]. exists k'. split; [lia|done]. }
  destruct (Hgo (Z.to_nat (rank (k + K) i j s)) (k + K)%nat j s) as (k' & Hk' & Hd); [lia|done| |].
  - pose proof (rank_nonneg (k + K) i j s Hi (proj1 Hpl)). lia.
  - exists k'. split; [lia|done].
Qed.
End turns.

(** C33. Every packet has its turn: when the processors lead forward, that is, every next
    processor has a greater number or is the end and no action recirculates, and when
    every node of the parse graph takes at least a byte of the packet or leads nowhere,
    the loop never hangs, and a packet that waits on an interface is handled at some
    poll, or the loop is left before by an exception or the like, as long as the
    interfaces before its own fall silent at some time, however much came there until
    then and comes on the others. The last condition is needed because every call of
    [recv_packet] starts at the first interface, the one on the parse graph because a
    node of length 0 that leads to itself is parsed forever. *)
Theorem every_packet_handled `{Target} fuel pf num_if if_macs live arrive s0 K k i p :
  loop_ok num_if live s0 → (∀ k, zlen (arrive k) = num_if) → NUM_PROC + 2 ≤ Z.of_nat fuel → BUFSIZ + 2 ≤ Z.of_nat pf →
  0 ≤ i < num_if → (∀ k l, (K ≤ k)%nat → 0 ≤ l < i → at_ (arrive k) l = []) →
  (∀ k, ends (at_poll fuel pf num_if if_macs arrive s0 k)) ∧
  (waiting fuel pf num_if if_macs arrive s0 k i p →
   ∃ k', (k ≤ k')%nat ∧
     (handled_at fuel pf num_if if_macs arrive s0 k' i p ∨ stopped_at fuel pf num_if if_macs arrive s0 (S k'))).
Proof.
  intros H0 Ha Hf Hpf Hi Hq. split; [intros k'; by apply at_poll_ends with live|by apply quiet_handled with live K].
Qed.

(** As long as packets come on interface 0, no other interface is served. *)
Lemma first_interface_only `{Target} fuel pf num_if if_macs live arrive s0 k h :
  loop_ok num_if live s0 → (∀ k, zlen (arrive k) = num_if) → s0.(if_index) = 0 →
  (∀ k, at_ (arrive k) 0 ≠ []) →
  poll_at fuel pf num_if if_macs arrive s0 k = Value (Some h) → h.(from_if) = 0.
Proof.
  intros H0 Ha Hi0 Hbusy Hk.
  assert (Hidx : ∀ k s, at_poll fuel pf num_if if_macs arrive s0 k = Value s → s.(if_index) = 0).
  { induction k0 as [|k0 IH]; intros s Hs; cbn in Hs; [by injection Hs as <-|].
    apply value_bind_inv in Hs as (s1 & Hs1 & Hs). apply value_bind_inv in Hs as (r & Hr & Hs). injection Hs as <-.
    apply poll_spec with (live := live) in Hr as [_ Hr]; [|done|by eapply at_poll_ok].
    rewrite (IH s1 Hs1) in Hr. unfold pending in Hr. destruct (at_ s1.(queues) 0 ++ at_ (arrive k0) 0) as [|p rest] eqn:E.
    - apply app_eq_nil in E as [_ E]. by destruct (Hbusy k0).
    - by destruct Hr as (_ & ? & _). }
  unfold poll_at in Hk. apply value_bind_inv in Hk as (s & Hs & Hk). apply value_bind_inv in Hk as (r & Hr & Hk).
  injection Hk as Hk. apply poll_spec with (live := live) in Hr as [_ Hr]; [|done|by eapply at_poll_ok].
  rewrite (Hidx k s Hs) in Hr. destruct (pending arrive k s 0) as [|p rest].
  - destruct Hr as (Hr & _). congruence.
  - destruct Hr as ((h' & Hr & Hf & _) & _). rewrite Hk in Hr. by injection Hr as <-.
Qed.

(** ** The switch as it starts *)
Definition initial_global : Global :=
  match make_global with Value g => g | _ => mkGlobal (mkTables empty_memory []) [] [] [] [] (mkMetaData 0 0) [] end.

Lemma make_global_initial : make_global = Value initial_global.
Proof.
  assert (H : match make_global with Value _ => true | _ => false end = true) by (vm_compute; reflexivity).
  unfold initial_global. by destruct make_global.
Qed.

(** The logical tables in SRAM are well-formed, and hold nothing. *)
Definition sram_wf_bool (t : LogicSram) : bool :=
  (0 <? t.(s_cap)) && (t.(s_cap) <? 2147483648) && (0 <=? t.(s_key_len)) && (0 <=? t.(s_val_len)) &&
  bool_decide (t.(s_data) = shift t.(s_bitmap) (t.(s_cap) / 8)) &&
  inside t.(s_bitmap) (t.(s_cap) / 8 + t.(s_cap) * s_entry_len t).

Definition empty_bool (t : LogicSram) (m : Memory) : bool :=
  forallb (λ b, negb (bit m t.(s_bitmap) b)) (seqZ 0 (covered t)).

Lemma sram_wf_bool_ok t : sram_wf_bool t = true → sram_wf t.
Proof.
  unfold sram_wf_bool. rewrite !andb_true_iff, !Z.ltb_lt, !Z.leb_le, bool_decide_eq_true.
  intros (((((H1 & H2) & H3) & H4) & H5) & H6). by constructor.
Qed.

Lemma empty_bool_ok t m : empty_bool t m = true → holds t m ∅.
Proof.
  unfold empty_bool. rewrite forallb_forall. intros Hb b Hr. rewrite lookup_empty.
  apply negb_true_iff, Hb, list_elem_of_In, elem_of_seqZ. lia.
Qed.

Lemma initial_sram i t :
  rd initial_global.(tables).(logic_tables) i = Ok (Sram t) →
  sram_wf t ∧ holds t initial_global.(tables).(memory) ∅.
Proof.
  intros H. assert (Hall : forallb (λ a, match a with
      Sram t => sram_wf_bool t && empty_bool t initial_global.(tables).(memory) | Tcam _ => true end)
    initial_global.(tables).(logic_tables) = true) by (vm_compute; reflexivity).
  apply rd_ok_inv in H as [_ H]. rewrite forallb_forall in Hall.
  specialize (Hall (Sram t) (proj1 (list_elem_of_In _ _) (list_elem_of_lookup_2 _ _ _ H))). cbn beta iota in Hall.
  apply andb_true_iff in Hall as [H1 H2]. split; [by apply sram_wf_bool_ok|by apply empty_bool_ok].
Qed.

(** ** The packets of a switch without a program

    The switch as the main program leaves it before the first packet: processor 0 ends
    every packet's way. *)
Definition demo_processor : Processor := mkProcessor zero_executor (COND_IS_VALID 0) (NextProc PROC_ID_END) (NextProc PROC_ID_END).
Definition demo_global : Global := set_processors (demo_processor :: replicate 31 zero_processor) initial_global.

(** Two interfaces, and a packet that comes on the second one. *)
Definition demo_arrivals (k : nat) : list (list (list Z)) := if decide (k = O) then [[]; [[1; 2; 3]]] else [[]; []].
Definition demo_loop : Loop := mkLoop demo_global [[]; []] 0.

Lemma initial_parts :
  initial_global.(parse_hdrs) = replicate 32 zero_parser_header ∧ initial_global.(actions) = replicate 32 (mkAction []).
Proof. split; vm_compute; reflexivity. Qed.

Lemma demo_forward : forward (λ id, id = 0) demo_global.
Proof.
  pose proof initial_parts as [Hh Ha]. constructor.
  - done.
  - intros id p -> Hp. injection Hp as <-. split; by left.
  - change (actions demo_global) with (actions initial_global). rewrite Ha. by apply Forall_replicate, not_elem_of_nil.
Qed.

Lemma demo_advances : advances demo_global.
Proof.
  unfold advances. change (parse_hdrs demo_global) with (parse_hdrs initial_global).
  rewrite (proj1 initial_parts). apply Forall_replicate. by right.
Qed.

Lemma demo_loop_ok : loop_ok 2 (λ id, id = 0) demo_loop.
Proof. constructor; [done|done|exact demo_advances|exact demo_forward|done]. Qed.

Lemma every_packet_handled_witness :
  ∃ k', (0 ≤ k')%nat ∧
    (@handled_at x86 34 (Z.to_nat 8194) 2 [ZERO_MAC; ZERO_MAC] demo_arrivals demo_loop k' 1 [1; 2; 3] ∨
     @stopped_at x86 34 (Z.to_nat 8194) 2 [ZERO_MAC; ZERO_MAC] demo_arrivals demo_loop (S k')).
Proof.
  refine (proj2 (@every_packet_handled x86 34 (Z.to_nat 8194) 2 [ZERO_MAC; ZERO_MAC] (λ id, id = 0) demo_arrivals demo_loop 0 0 1 [1; 2; 3]
    demo_loop_ok _ _ _ _ _) _).
  - intros k. unfold demo_arrivals. by case_decide.
  - cbv. discriminate.
  - unfold BUFSIZ. lia.
  - lia.
  - intros k l _ Hl. replace l with 0 by lia. unfold demo_arrivals. by case_decide.
  - exists demo_loop. split; [done|]. by apply list_elem_of_here.
Defined.
