(* ===== verification/OldApi.v ===== *)
(** * The interface of the old switch (ipbm-old/src/api: api.h, api_server.h, api_client.h)

    The functions that set the switch up and change its tables; the server, which calls
    them with what it reads from a message; and the client, which makes the messages. *)

From stdpp Require Import base numbers list gmap strings.
From Stdlib Require Import ZArith Lia.
From S2P Require Import Prelude OldMemory OldTables OldParser OldExecutor OldSwitch.

#[local] Open Scope Z_scope.

(** ** The functions (api.h) *)
Definition TABLE_NOT_FOUND : Z := 101.
Definition INVALID_KEY_LEN : Z := 102.
Definition INVALID_VAL_LEN : Z := 103.
Definition INSERT_FAIL : Z := 104.
Definition ERASE_FAIL : Z := 105.
Definition OUT_OF_RANGE_ERROR : Z := 110.
Definition ARGUMENT_ERROR : Z := 111.
Definition RPC_FAIL : Z := 201.

(** Keys and values are strings of bytes. *)
Record FlowEntry : Type := mkFlowEntry { fe_key : list Z; fe_action_id : Z; fe_action_data : list (list Z) }.

Definition add_flow_entry (table_id : Z) (flow : FlowEntry) (g : Global) : outcome (Z * Global) :=
  if NUM_FLOW_TABLES <=? table_id then mret (TABLE_NOT_FOUND, g)
  else
    tab ← lift (rd g.(flow_tables) table_id);
    if negb (tab.(ft_key_len) =? zlen flow.(fe_key)) then mret (INVALID_KEY_LEN, g)
    else if negb (tab.(ft_val_len) =? sum_of_map zlen flow.(fe_action_data)) then mret (INVALID_VAL_LEN, g)
    else
      try_catch
        (ts ← flow_insert tab flow.(fe_key) (concat flow.(fe_action_data)) g.(tables);
         mret (0, set_tables ts g))
        (λ _, mret (INSERT_FAIL, g)).

Definition del_flow_entry (table_id : Z) (flow : FlowEntry) (g : Global) : outcome (Z * Global) :=
  if NUM_FLOW_TABLES <=? table_id then mret (TABLE_NOT_FOUND, g)
  else
    tab ← lift (rd g.(flow_tables) table_id);
    if negb (tab.(ft_key_len) =? zlen flow.(fe_key)) then mret (INVALID_KEY_LEN, g)
    else
      try_catch
        (ts ← flow_erase tab flow.(fe_key) g.(tables);
         mret (0, set_tables ts g))
        (λ _, mret (ERASE_FAIL, g)).

(** One number of a table stands for the port masks of the interfaces. *)
Definition mod_flow_entry (table_id : Z) (src_flow dst_flow : FlowEntry) (g : Global) : outcome (Z * Global) :=
  if table_id =? TAB_ID_VLAN_GROUP then
    _ ← asserts (zlen src_flow.(fe_key) =? 4);
    match dst_flow.(fe_action_data) with
    | [mask] =>
        _ ← asserts (zlen mask =? 4);
        masks ← lift (wr g.(port_masks) (i32 (le_word src_flow.(fe_key))) (le_word mask));
        mret (0, set_port_masks masks g)
    | _ => Asserts
    end
  else
    '(rc, g) ← del_flow_entry table_id src_flow g;
    if negb (rc =? 0) then mret (rc, g) else add_flow_entry table_id dst_flow g.

(** A key is used as a C string, with a zero byte behind it, whatever its length is. *)
Definition get_flow_entry_val (table_id : Z) (key : list Z) (g : Global) : outcome (option Buffer) :=
  tab ← lift (rd g.(flow_tables) table_id);
  pos ← flow_match_exact tab key g.(tables);
  end_ ← flow_end_pos tab g.(tables);
  if pos =? end_ then mret None else Some <$> flow_get_val tab pos g.(tables).

Definition get_flow_entry_action_data (table_id : Z) (key : list Z) (g : Global) : outcome (list Z) :=
  tab ← lift (rd g.(flow_tables) table_id);
  pos ← flow_match_exact tab (key ++ [0]) g.(tables);
  end_ ← flow_end_pos tab g.(tables);
  if pos =? end_ then mret []
  else
    buf ← flow_get_val tab pos g.(tables);
    load g.(tables).(memory) buf tab.(ft_val_len).

Definition push_next (next_state : NextParserHeader) (h : ParserHeader) : ParserHeader :=
  mkParserHeader h.(ph_hdr_id) h.(ph_hdr_len) h.(ph_type_start) h.(ph_type_len) (h.(ph_next_table) ++ [next_state]).

(** The edges of the previous headers are added first; the node is stored last. *)
Definition add_parser_header (prev_hdr_ids : list Z) (hdr_tag : list Z) (hdr : ParserHeader) (g : Global) :
    outcome (Z * Global) :=
  hs ← each (λ prev_hdr_id hs,
         h ← lift (rd hs prev_hdr_id);
         lift (wr hs prev_hdr_id (push_next (mkNextParserHeader hdr_tag hdr.(ph_hdr_id)) h)))
       prev_hdr_ids g.(parse_hdrs);
  hs ← lift (wr hs hdr.(ph_hdr_id) hdr);
  mret (0, set_parse_hdrs hs g).

Definition set_flow_table (flow_table_id logic_table_id : Z) (mem_type : MemType) (match_type : MatchType)
    (key_fields : list FieldSpec) (val_len : Z) (is_counter : bool) (g : Global) : outcome (Z * Global) :=
  if NUM_FLOW_TABLES <=? flow_table_id then mret (TABLE_NOT_FOUND, g)
  else
    _ ← lift (rd g.(tables).(logic_tables) logic_table_id);
    fts ← lift (wr g.(flow_tables) flow_table_id
      (make_flow_table flow_table_id val_len (Some logic_table_id) mem_type match_type key_fields is_counter));
    mret (0, set_flow_tables fts g).

Definition set_executor (proc_id hit_action hit_next_proc miss_action miss_next_proc : Z)
    (runtime_args_spec : list RuntimeArgSpec) (g : Global) : outcome (Z * Global) :=
  p ← lift (rd g.(processors) proc_id);
  ps ← lift (wr g.(processors) proc_id
    (mkProcessor (mkExecutor hit_action hit_next_proc miss_action miss_next_proc runtime_args_spec)
       p.(cond) p.(true_next) p.(false_next)));
  mret (0, set_processors ps g).

Definition set_action (action_id : Z) (action : Action) (g : Global) : outcome (Z * Global) :=
  if NUM_ACTIONS <=? action_id then mret (OUT_OF_RANGE_ERROR, g)
  else
    acts ← lift (wr g.(actions) action_id action);
    mret (0, set_actions acts g).

Definition set_processor (proc_id : Z) (c : Condition) (true_next false_next : NextStage) (g : Global) :
    outcome (Z * Global) :=
  p ← lift (rd g.(processors) proc_id);
  ps ← lift (wr g.(processors) proc_id (mkProcessor p.(executor) c true_next false_next));
  mret (0, set_processors ps g).

(** ** Messages (controller_dataplane_api.proto) *)
Record FlowEntryMsg : Type := mkFlowEntryMsg { pb_key : list Z; pb_action_id : Z; pb_action_data : list (list Z) }.

Inductive FlowEntryModType : Set := ADD | DELETE | MODIFY.

Record NextHeaderMsg : Type := mkNextHeaderMsg { pb_nh_header_id : Z; pb_tag : list Z }.

Record HeaderMsg : Type := mkHeaderMsg {
  pb_header_id : Z;
  pb_previous_header_id : list Z;
  pb_header_tag : list Z;
  pb_header_length : Z;
  pb_type_offset : Z;
  pb_type_length : Z;
  pb_next_headers : list NextHeaderMsg
}.

Record ParameterMsg : Type := mkParameterMsg { pb_prefix_id : Z; pb_suffix_id : Z; pb_val : Z }.
Record PrimitiveMsg : Type := mkPrimitiveMsg { pb_op_id : Z; pb_parameters : list ParameterMsg }.
Record FieldMsg : Type := mkFieldMsg { pb_fd_header_id : Z; pb_field_length : Z; pb_internal_offset : Z }.

Inductive MemTypePb : Set := PB_SRAM | PB_TCAM.
Inductive MatchTypePb : Set := PB_EXACT | PB_TERNARY | PB_LPM | PB_RANGE.

Record FlowTableMsg : Type := mkFlowTableMsg {
  pb_flow_table_id : Z;
  pb_match_type : MatchTypePb;
  pb_mem_type : MemTypePb;
  pb_logical_table_id : Z;
  pb_key_fields : list FieldMsg;
  pb_value_length : Z;
  pb_is_counter : bool
}.

Record NextStageMsg : Type := mkNextStageMsg { pb_is_table : bool; pb_next_id : Z }.

Inductive Request : Type :=
| HandleMatchTable (flow_table_id : Z) (srcFlow : FlowEntryMsg) (mod_type : FlowEntryModType) (modFlow : FlowEntryMsg)
| GetFlowEntry (flow_table_id : Z) (flow_entry : FlowEntryMsg)
| AddParserInfo (header : HeaderMsg)
| AddActionInfo (action_id : Z) (primitives : list PrimitiveMsg)
| AddExecuterInfo (processor_id hit_action hit_next_proc miss_action miss_next_proc : Z) (args_spec : list FieldMsg)
| AddFlowTable (flow_table : FlowTableMsg)
| AddProcessor (proc_id valid_hdr_id : Z) (true_next false_next : NextStageMsg).

(** A response has a return code, or the data of an entry. *)
Inductive Response : Type := ReturnCode (rc : Z) | EntryData (data : list Z).

(** ** The server (api_server.h) *)
Definition load_flow_entry (m : FlowEntryMsg) : FlowEntry := mkFlowEntry m.(pb_key) m.(pb_action_id) m.(pb_action_data).

Definition load_next_stage (m : NextStageMsg) : NextStage :=
  if m.(pb_is_table) then NextTable m.(pb_next_id) else NextProc m.(pb_next_id).

Definition load_mem_type (t : MemTypePb) : MemType := match t with PB_SRAM => MEM_SRAM | PB_TCAM => MEM_TCAM end.

(** [m.at] throws for the type that is not in the map. *)
Definition load_match_type (t : MatchTypePb) : outcome MatchType :=
  match t with
  | PB_EXACT => mret MATCH_EXACT
  | PB_TERNARY => mret MATCH_TERNARY
  | PB_LPM => mret MATCH_LPM
  | PB_RANGE => Throws (out_of_range "map::at")
  end.

Definition parse_param_field (p : ParameterMsg) : FieldSpec := mkFieldSpec p.(pb_prefix_id) p.(pb_suffix_id) p.(pb_val).

(** The primitive, or a return code. *)
Definition parse_op (p : PrimitiveMsg) : Z + Primitive :=
  let op := p.(pb_op_id) in
  if op =? 0 then
    match p.(pb_parameters) with
    | [a; b] => inr (OP_CKSUM (parse_param_field a) (parse_param_field b) HASH_CSUM16)
    | _ => inl ARGUMENT_ERROR
    end
  else if op =? 1 then
    match p.(pb_parameters) with
    | [a; b] => inr (OP_COPY_FIELD (parse_param_field a) (parse_param_field b))
    | _ => inl ARGUMENT_ERROR
    end
  else if op =? 2 then
    match p.(pb_parameters) with
    | [a; b] => inr (OP_ADD (parse_param_field a) b.(pb_val))
    | _ => inl ARGUMENT_ERROR
    end
  else if op =? 3 then
    match p.(pb_parameters) with
    | [a] => inr (OP_SET_PORT a.(pb_val))
    | _ => inl ARGUMENT_ERROR
    end
  else if op =? 4 then
    match p.(pb_parameters) with
    | [a; b] => inr (OP_SET_FIELD (parse_param_field a) b.(pb_val))
    | _ => inl ARGUMENT_ERROR
    end
  else if op =? 5 then
    match p.(pb_parameters) with [] => inr OP_RECIRCULATE | _ => inl ARGUMENT_ERROR end
  else if op =? 6 then
    match p.(pb_parameters) with [] => inr OP_SET_MULTICAST | _ => inl ARGUMENT_ERROR end
  else inl OUT_OF_RANGE_ERROR.

Fixpoint parse_ops (ps : list PrimitiveMsg) : Z + list Primitive :=
  match ps with
  | [] => inr []
  | p :: ps' =>
      match parse_op p with
      | inl rc => inl rc
      | inr op => match parse_ops ps' with inl rc => inl rc | inr l => inr (op :: l) end
      end
  end.

Definition load_field_msg (f : FieldMsg) : FieldSpec :=
  mkFieldSpec f.(pb_fd_header_id) f.(pb_internal_offset) f.(pb_field_length).

Definition load_arg (f : FieldMsg) : RuntimeArgSpec := mkRuntimeArgSpec f.(pb_internal_offset) f.(pb_field_length).

(** The results of the functions that return something are looked at in two handlers
    only; the others answer zero. *)
Definition serve (r : Request) (g : Global) : outcome (Response * Global) :=
  match r with
  | HandleMatchTable id src ADD _ => prod_map ReturnCode (λ g, g) <$> add_flow_entry id (load_flow_entry src) g
  | HandleMatchTable id src DELETE _ => prod_map ReturnCode (λ g, g) <$> del_flow_entry id (load_flow_entry src) g
  | HandleMatchTable id src MODIFY dst =>
      prod_map ReturnCode (λ g, g) <$> mod_flow_entry id (load_flow_entry src) (load_flow_entry dst) g
  | GetFlowEntry id flow =>
      data ← get_flow_entry_action_data id (load_flow_entry flow).(fe_key) g;
      mret (EntryData data, g)
  | AddParserInfo h =>
      let next_table := (λ n, mkNextParserHeader n.(pb_tag) n.(pb_nh_header_id)) <$> h.(pb_next_headers) in
      '(_, g) ← add_parser_header h.(pb_previous_header_id) h.(pb_header_tag)
        (mkParserHeader h.(pb_header_id) h.(pb_header_length) h.(pb_type_offset) h.(pb_type_length) next_table) g;
      mret (ReturnCode 0, g)
  | AddActionInfo id prims =>
      match parse_ops prims with
      | inl rc => mret (ReturnCode rc, g)
      | inr l => '(_, g) ← set_action id (mkAction l) g; mret (ReturnCode 0, g)
      end
  | AddExecuterInfo proc ha hn ma mn specs =>
      '(_, g) ← set_executor proc ha hn ma mn (load_arg <$> specs) g;
      mret (ReturnCode 0, g)
  | AddFlowTable t =>
      mt ← load_match_type t.(pb_match_type);
      prod_map ReturnCode (λ g, g) <$>
        set_flow_table (i32 t.(pb_flow_table_id)) (i32 t.(pb_logical_table_id)) (load_mem_type t.(pb_mem_type)) mt
          (load_field_msg <$> t.(pb_key_fields)) (i32 t.(pb_value_length)) t.(pb_is_counter) g
  | AddProcessor proc hdr t f =>
      '(_, g) ← set_processor proc (COND_IS_VALID hdr) (load_next_stage t) (load_next_stage f) g;
      mret (ReturnCode 0, g)
  end.

(** ** The client (api_client.h) *)
Definition dump_flow_entry (f : FlowEntry) : FlowEntryMsg := mkFlowEntryMsg f.(fe_key) f.(fe_action_id) f.(fe_action_data).

Definition dump_field (f : FieldSpec) : FieldMsg := mkFieldMsg f.(fs_hdr_id) f.(fs_len) f.(fs_start).

Definition dump_match_type (t : MatchType) : MatchTypePb :=
  match t with MATCH_EXACT => PB_EXACT | MATCH_LPM => PB_LPM | MATCH_TERNARY => PB_TERNARY end.
Definition dump_mem_type (t : MemType) : MemTypePb := match t with MEM_SRAM => PB_SRAM | MEM_TCAM => PB_TCAM end.

Definition dump_param_field (f : FieldSpec) : ParameterMsg := mkParameterMsg f.(fs_hdr_id) f.(fs_start) f.(fs_len).
Definition dump_param_int (val : Z) : ParameterMsg := mkParameterMsg 0 0 val.

(** The tag of a primitive is its place in the enumeration. *)
Definition dump_primitive (p : Primitive) : PrimitiveMsg :=
  match p with
  | OP_CKSUM cksum_field dst_field _ => mkPrimitiveMsg 0 [dump_param_field cksum_field; dump_param_field dst_field]
  | OP_COPY_FIELD dst src => mkPrimitiveMsg 1 [dump_param_field dst; dump_param_field src]
  | OP_ADD field delta => mkPrimitiveMsg 2 [dump_param_field field; dump_param_int delta]
  | OP_SET_PORT arg_idx => mkPrimitiveMsg 3 [dump_param_int arg_idx]
  | OP_SET_FIELD dst arg_src => mkPrimitiveMsg 4 [dump_param_field dst; dump_param_int arg_src]
  | OP_RECIRCULATE => mkPrimitiveMsg 5 []
  | OP_SET_MULTICAST => mkPrimitiveMsg 6 []
  end.

Definition dump_next_stage (s : NextStage) : NextStageMsg :=
  match s with NextTable id => mkNextStageMsg true id | NextProc id => mkNextStageMsg false id end.

(** [cond.args.is_valid.hdr_id] is read whatever the type of the condition is: without a
    condition nothing was stored there. *)
Definition cond_hdr_id `{Target} (c : Condition) : Z :=
  match c with
  | COND_IS_VALID hdr_id => hdr_id
  | COND_NONE => i32 (le_word ((λ i, u8 (junk i)) <$> seq 0 4))
  end.

(** A call of the client; the arguments are those of the method. *)
Inductive Call : Type :=
| CallAdd (flow_table_id : Z) (flow : FlowEntry)
| CallDel (flow_table_id : Z) (flow : FlowEntry)
| CallMod (flow_table_id : Z) (src_flow dst_flow : FlowEntry)
| CallGet (table_id : Z) (key : list Z)
| CallParser (prev_hdr_ids : list Z) (hdr_tag : list Z) (hdr : ParserHeader)
| CallAction (action_id : Z) (action : Action)
| CallExecutor (proc_id hit_action hit_next_proc miss_action miss_next_proc : Z) (specs : list RuntimeArgSpec)
| CallFlowTable (flow_table_id logic_table_id : Z) (mem_type : MemType) (match_type : MatchType)
    (key_fields : list FieldSpec) (val_len : Z) (is_counter : bool)
| CallProcessor (proc_id : Z) (c : Condition) (true_next false_next : NextStage).

(** The entry of a query has no data; its action number was never set. *)
Definition request_of `{Target} (c : Call) : Request :=
  match c with
  | CallAdd id flow => HandleMatchTable id (dump_flow_entry flow) ADD (mkFlowEntryMsg [] 0 [])
  | CallDel id flow => HandleMatchTable id (dump_flow_entry flow) DELETE (mkFlowEntryMsg [] 0 [])
  | CallMod id src dst => HandleMatchTable id (dump_flow_entry src) MODIFY (dump_flow_entry dst)
  | CallGet id key => GetFlowEntry id (mkFlowEntryMsg key (i32 (le_word ((λ i, u8 (junk i)) <$> seq 0 4))) [])
  | CallParser prevs tag hdr =>
      AddParserInfo (mkHeaderMsg hdr.(ph_hdr_id) prevs tag hdr.(ph_hdr_len) hdr.(ph_type_start) hdr.(ph_type_len)
        ((λ n, mkNextHeaderMsg n.(nph_hdr_id) n.(nph_tag)) <$> hdr.(ph_next_table)))
  | CallAction id action => AddActionInfo id (dump_primitive <$> action.(ops))
  | CallExecutor proc ha hn ma mn specs =>
      AddExecuterInfo proc ha hn ma mn ((λ s, mkFieldMsg 0 s.(arg_len) s.(val_offset)) <$> specs)
  | CallFlowTable id logic_id mem mt fields vl cnt =>
      AddFlowTable (mkFlowTableMsg (u32 id) (dump_match_type mt) (dump_mem_type mem) (u32 logic_id)
        (dump_field <$> fields) (u32 vl) cnt)
  | CallProcessor proc c t f => AddProcessor proc (cond_hdr_id c) (dump_next_stage t) (dump_next_stage f)
  end.

(** The strings of a message: keys and tags are [string]s of the protocol, which the
    library takes only when they are UTF-8; data are [bytes]. *)
Definition strings_of (r : Request) : list (list Z) :=
  match r with
  | HandleMatchTable _ src _ dst => [src.(pb_key); dst.(pb_key)]
  | GetFlowEntry _ flow => [flow.(pb_key)]
  | AddParserInfo h => h.(pb_header_tag) :: (pb_tag <$> h.(pb_next_headers))
  | _ => []
  end.

(** What a method of the client returns: a code, or the data of an entry. *)
Definition failure (c : Call) : Response := match c with CallGet _ _ => EntryData [] | _ => ReturnCode RPC_FAIL end.

Section rpc.
(** What is the library's: which strings it accepts, and whether it catches an exception
    that leaves a handler, and answers that the call has failed. *)
Context `{Target} (is_utf8 : list Z → bool) (catches : bool).

(** The handlers that throw have not changed anything before. *)
Definition answered (c : Call) (g : Global) (m : outcome (Response * Global)) : outcome (Response * Global) :=
  if catches then try_catch m (λ _, mret (failure c, g)) else m.

Definition call (c : Call) (g : Global) : outcome (Response * Global) :=
  let r := request_of c in
  if forallb is_utf8 (strings_of r) then answered c g (serve r g) else mret (failure c, g).

(** The function of api.h that a method stands for. *)
Definition direct (c : Call) (g : Global) : outcome (Response * Global) :=
  match c with
  | CallAdd id flow => prod_map ReturnCode (λ g, g) <$> add_flow_entry id flow g
  | CallDel id flow => prod_map ReturnCode (λ g, g) <$> del_flow_entry id flow g
  | CallMod id src dst => prod_map ReturnCode (λ g, g) <$> mod_flow_entry id src dst g
  | CallGet id key => data ← get_flow_entry_action_data id key g; mret (EntryData data, g)
  | CallParser prevs tag hdr => prod_map ReturnCode (λ g, g) <$> add_parser_header prevs tag hdr g
  | CallAction id a => prod_map ReturnCode (λ g, g) <$> set_action id a g
  | CallExecutor proc ha hn ma mn specs => prod_map ReturnCode (λ g, g) <$> set_executor proc ha hn ma mn specs g
  | CallFlowTable id logic_id mem mt fields vl cnt =>
      prod_map ReturnCode (λ g, g) <$> set_flow_table id logic_id mem mt fields vl cnt g
  | CallProcessor proc c t f => prod_map ReturnCode (λ g, g) <$> set_processor proc c t f g
  end.
End rpc.

(** Calls whose arguments the messages carry: the numbers of a flow table are [int]s,
    which go through unsigned fields; an action has a place in the table of actions;
    a processor has a condition. *)
Definition is_int (x : Z) : Prop := -2147483648 ≤ x < 2147483648.

Definition call_ok (c : Call) : Prop :=
  match c with
  | CallAction id _ => id < NUM_ACTIONS
  | CallFlowTable id logic_id _ _ _ vl _ => is_int id ∧ is_int logic_id ∧ is_int vl
  | CallProcessor _ c _ _ => c ≠ COND_NONE
  | _ => True
  end.

Lemma i32_u32 x : is_int x → i32 (u32 x) = x.
Proof. unfold is_int, i32, u32. intros Hx. dlia. Qed.

Lemma parse_op_dump p : parse_op (dump_primitive p) = inr p.
Proof.
  destruct p as [[] [] []|[] []|[] ?|?|[] ?| |]; reflexivity.
Qed.

Lemma parse_ops_dump l : parse_ops (dump_primitive <$> l) = inr l.
Proof. induction l as [|p l IH]; cbn [fmap list_fmap parse_ops]; [done|]. by rewrite parse_op_dump, IH. Qed.

Lemma map_map_id {A B} (f : A → B) (g : B → A) (l : list A) : (∀ x, g (f x) = x) → g <$> (f <$> l) = l.
Proof. intros Hfg. rewrite <- list_fmap_compose. induction l as [|x l IH]; cbn; [done|]. by rewrite Hfg, IH. Qed.

Lemma rc_zero (m : outcome (Z * Global)) :
  (∀ r g, m = Value (r, g) → r = 0) →
  ('(_, g) ← m; mret (ReturnCode 0, g)) = (prod_map ReturnCode (λ g : Global, g) <$> m).
Proof. intros H. destruct m as [[r g]| | | |]; cbn; [|done..]. by rewrite (H r g eq_refl). Qed.

(** The server does with the message of a call what the function does. *)
Lemma serve_direct `{Target} c g : call_ok c → serve (request_of c) g = direct c g.
Proof.
  intros Hc.
  destruct c as [id [k ai ad]|id [k ai ad]|id [k ai ad] [k' ai' ad']|id key|prevs tag [hid hl ts tl nt]|id [l]|proc ha hn ma mn specs|id lid mem mt fs vl cnt|proc cd t f];
    cbn [request_of serve direct]; try done.
  - cbn. rewrite map_map_id by by intros []. apply rc_zero. unfold add_parser_header. intros r g' Hr.
    apply value_bind_inv in Hr as (? & _ & Hr). apply value_bind_inv in Hr as (? & _ & Hr). by injection Hr as <- _.
  - cbn [ops]. rewrite parse_ops_dump. apply rc_zero. unfold set_action. intros r g' Hr. cbn in Hc.
    rewrite (proj2 (Z.leb_gt _ _)) in Hr by done. apply value_bind_inv in Hr as (? & _ & Hr). by injection Hr as <- _.
  - rewrite map_map_id by by intros []. apply rc_zero. unfold set_executor. intros r g' Hr.
    apply value_bind_inv in Hr as (? & _ & Hr). apply value_bind_inv in Hr as (? & _ & Hr). by injection Hr as <- _.
  - destruct Hc as (H1 & H2 & H3). cbn [pb_match_type pb_mem_type pb_flow_table_id pb_logical_table_id pb_key_fields pb_value_length pb_is_counter].
    rewrite !i32_u32 by done. rewrite map_map_id by by intros []. by destruct mem, mt.
  - destruct cd as [|h]; [done|]. cbn [cond_hdr_id].
    replace (load_next_stage (dump_next_stage t)) with t by by destruct t.
    replace (load_next_stage (dump_next_stage f)) with f by by destruct f.
    apply rc_zero. unfold set_processor. intros r g' Hr.
    apply value_bind_inv in Hr as (? & _ & Hr). apply value_bind_inv in Hr as (? & _ & Hr). by injection Hr as <- _.
Qed.

(** C35. The controller's calls reach the switch: a method of the client does what the
    function of the switch it stands for does, with its return code, when the keys and
    tags are strings the protocol library accepts; otherwise nothing is done and the
    call fails.  An exception of the function is the call's, or a failure of the call,
    as the library has it.  The arguments are as the messages carry them: numbers are [int]s, the
    action has a place, the processor has a condition. *)
Theorem calls_reach_switch `{Target} is_utf8 catches c g :
  call_ok c →
  call is_utf8 catches c g =
    if forallb is_utf8 (strings_of (request_of c)) then answered catches c g (direct c g) else Value (failure c, g).
Proof. intros Hc. unfold call. by rewrite serve_direct. Qed.

(** An ASCII check is one that accepts only strings the protocol allows. *)
Definition ascii (s : list Z) : bool := forallb (λ b, (0 <=? b) && (b <? 128)) s.

Lemma calls_reach_switch_witness :
  @call x86 ascii true (CallFlowTable 1 0 MEM_SRAM MATCH_EXACT [mkFieldSpec 1 16 4] 10 false) initial_global =
    answered true (CallFlowTable 1 0 MEM_SRAM MATCH_EXACT [mkFieldSpec 1 16 4] 10 false) initial_global
      (direct (CallFlowTable 1 0 MEM_SRAM MATCH_EXACT [mkFieldSpec 1 16 4] 10 false) initial_global).
Proof.
  apply (@calls_reach_switch x86 ascii true (CallFlowTable 1 0 MEM_SRAM MATCH_EXACT [mkFieldSpec 1 16 4] 10 false) initial_global).
  unfold call_ok, is_int. lia.
Defined.

(** ** Entries *)

(** An entry is there until it is deleted: when a flow table lies on a logical table
    in SRAM and the bucket of a key is free, adding an entry reports success, the entry
    is then read back with the data it was given, deleting it reports success, and then
    nothing is found. *)
Lemma entry_read_back id tab i t flow g f :
  sram_wf t → tab.(ft_logic_table) = Some i → tab.(ft_key_len) + 1 ≤ t.(s_key_len) →
  tab.(ft_val_len) ≤ t.(s_val_len) → id < NUM_FLOW_TABLES → rd g.(flow_tables) id = Ok tab →
  lies i t g.(tables) f → key_ok tab t flow.(fe_key) → sum_of_map zlen flow.(fe_action_data) = tab.(ft_val_len) →
  f !! bucket t (tag_key tab t flow.(fe_key)) = None →
  ∃ g1 g2,
    add_flow_entry id flow g = Value (0, g1) ∧
    get_flow_entry_action_data id flow.(fe_key) g1 = Value (concat flow.(fe_action_data)) ∧
    del_flow_entry id flow g1 = Value (0, g2) ∧
    get_flow_entry_action_data id flow.(fe_key) g2 = Value [].
Proof.
  intros W Hlogic Hkl Hvl Hid Hrd Hl Hk Hd Hf. pose proof (zlen_nonneg flow.(fe_key)) as Hk0. rewrite (proj1 Hk) in Hk0.
  assert (Hdata : zlen (concat flow.(fe_action_data)) = tab.(ft_val_len)).
  { rewrite <- Hd. generalize flow.(fe_action_data). intros l. induction l as [|x l IH]; cbn; [done|]. by rewrite zlen_app, IH. }
  pose proof (zlen_nonneg (concat flow.(fe_action_data))) as Hv0.
  edestruct (flow_insert_sram tab i t) as (m1 & Hins & Hh1 & _); [done..|].
  set (ts1 := mkTables m1 g.(tables).(logic_tables)) in *.
  assert (Hl1 : lies i t ts1 (<[bucket t (tag_key tab t flow.(fe_key)) := (tag_key tab t flow.(fe_key), pad_val tab t (concat flow.(fe_action_data)))]> f))
    by (split; [apply Hl|done]).
  edestruct (flow_erase_sram tab i t) as (m2 & Her & Hh2 & _); [done|done|done|exact Hl1|done|apply lookup_insert_eq|].
  exists (set_tables ts1 g), (set_tables (mkTables m2 ts1.(logic_tables)) (set_tables ts1 g)).
  unfold add_flow_entry, del_flow_entry, get_flow_entry_action_data. cbn [flow_tables set_tables tables].
  rewrite Hrd, (proj2 (Z.leb_gt _ _) Hid). cbn [lift mbind outcome_mbind]. rewrite (proj1 Hk), Hd, !Z.eqb_refl. cbn [negb].
  rewrite Hins, Her. cbn [mbind outcome_mbind mret outcome_mret try_catch].
  rewrite !flow_match_longer by (done || apply Hk). split_and!; [done| |done|].
  - erewrite flow_match_sram; [|done|done|done|exact Hl1|done]. rewrite lookup_insert_eq, bool_decide_eq_true_2 by done.
    unfold flow_end_pos, flow_get_val. erewrite logic_ok; [|done|exact Hl1].
    pose proof (bucket_range t W (tag_key tab t flow.(fe_key))).
    cbn [mbind outcome_mbind mret outcome_mret end_pos get_entry key_len any_table sram_table].
    rewrite (proj2 (Z.eqb_neq _ _)) by lia. cbn [tables set_tables].
    eapply (value_read tab i t) with (ts := ts1); first [exact Hl1|apply lookup_insert_eq|done|by rewrite Hdata].
  - assert (Hl2 : lies i t (mkTables m2 ts1.(logic_tables)) (delete (bucket t (tag_key tab t flow.(fe_key)))
      (<[bucket t (tag_key tab t flow.(fe_key)) := (tag_key tab t flow.(fe_key), pad_val tab t (concat flow.(fe_action_data)))]> f)))
      by (split; [apply Hl|done]).
    erewrite flow_match_sram; [|done|done|done|exact Hl2|done]. rewrite lookup_delete_eq.
    unfold flow_end_pos. erewrite logic_ok; [|done|exact Hl2].
    cbn [mbind outcome_mbind mret outcome_mret end_pos any_table sram_table]. by rewrite Z.eqb_refl.
Qed.

(** ** The main program before the first packet (main.cpp)

    The first processor is set to end every packet's way. *)
Definition main_init (g : Global) : outcome Global :=
  snd <$> set_processor 0 (COND_IS_VALID 0) (NextProc PROC_ID_END) (NextProc PROC_ID_END) g.
