(* ===== verification/OldCounter.v ===== *)
(** * Counting packets (ipbm-old: the counter tables of matcher.cpp and table.h,
    controller/ctrl_counter.cpp)

    A flow table can be a counter: a lookup that hits adds one to the first word of the
    value, a lookup that misses inserts the key with the value one.  This file shows
    what a sequence of lookups leaves in a counter table that lies on a logical table
    in SRAM, and what the controller then reads through the client and the server. *)

From stdpp Require Import base numbers list gmap strings.
From Stdlib Require Import ZArith Lia.
From S2P Require Import Prelude OldMemory OldTables OldParser OldExecutor OldSwitch OldApi.

#[local] Open Scope Z_scope.

(** ** Words of four bytes *)
Lemma le_bytes_mod n x y : x mod 256 ^ Z.of_nat n = y mod 256 ^ Z.of_nat n → le_bytes n x = le_bytes n y.
Proof.
  intros E. rewrite <- (le_bytes_word (le_bytes n x)), <- (le_bytes_word (le_bytes n y)) by apply le_bytes_bytes.
  by rewrite !le_word_bytes, !le_bytes_length, E.
Qed.

Lemma count_step c : le_bytes 4 (le_word (le_bytes 4 c) + 1) = le_bytes 4 (c + 1).
Proof.
  apply le_bytes_mod. rewrite le_word_bytes. by rewrite Z.add_mod_idemp_l.
Qed.

(** ** Lookups in a counter table *)

(** The packets of a sequence are looked up in the flow table [id]. *)
Definition look_all (id : Z) (pks : list (list (option BufView) * list Z)) (g : Global) : outcome Global :=
  each (λ pk g, r ← matcher_match id pk.1 pk.2 g; mret (set_tables r.2 g)) pks g.

(** The controller's turn (ctrl_counter.cpp): the method returns a string, the empty one
    when the call fails or the key is not there, of which four bytes are read as a
    number. A string has a zero byte behind it. *)
Definition get_flow_entry_value `{Target} (is_utf8 : list Z → bool) (catches : bool) (id : Z) (key : list Z) (g : Global)
    : outcome (list Z) :=
  r ← call is_utf8 catches (CallGet id key) g;
  mret (match r.1 with EntryData s => s | ReturnCode _ => [] end).

Definition read_count `{Target} (is_utf8 : list Z → bool) (catches : bool) (id : Z) (key : list Z) (g : Global) : outcome Z :=
  count_s ← get_flow_entry_value is_utf8 catches id key g;
  bs ← first_bytes (count_s ++ [0]) 4;
  mret (le_word bs).

Definition times (k : list Z) (l : list (list Z)) : Z := zlen (filter (λ x, x = k) l).

(** A counter table: it lies on the SRAM table [t], in place [i] of the logical tables. *)
Record counter_table (tab : FlowTable) (i : Z) (t : LogicSram) : Prop := {
  ct_wf : sram_wf t;
  ct_logic : tab.(ft_logic_table) = Some i;
  ct_key : 0 ≤ tab.(ft_key_len) ∧ tab.(ft_key_len) + 1 ≤ t.(s_key_len);
  ct_val : tab.(ft_val_len) = 4 ∧ 4 ≤ t.(s_val_len);
  ct_exact : tab.(ft_match_type) = MATCH_EXACT;
  ct_counter : tab.(ft_is_counter) = true
}.

Section counting.
Context (tab : FlowTable) (i : Z) (t : LogicSram) (C : counter_table tab i t).

(** What is stored for a key that was looked up [n] times. *)
Definition count_entry (key : list Z) (n : Z) : list Z * list Z := (tag_key tab t key, pad_val tab t (le_bytes 4 n)).

Lemma count_entry_next (n : Z) :
  le_bytes 4 (n + 1) ++ drop 4 (pad_val tab t (le_bytes 4 n)) = pad_val tab t (le_bytes 4 (n + 1)).
Proof. unfold pad_val. by rewrite drop_app_length' by by rewrite le_bytes_length. Qed.

(** One lookup. *)
Lemma lookup_counts id hdrs packet g key f n :
  rd g.(flow_tables) id = Ok tab → match_key tab hdrs packet g.(meta_data) = Value key →
  lies i t g.(tables) f → key_ok tab t key →
  f !! bucket t (tag_key tab t key) = (if n =? 0 then None else Some (count_entry key n)) → 0 ≤ n →
  ∃ r m', matcher_match id hdrs packet g = Value (r, mkTables m' g.(tables).(logic_tables)) ∧
    holds t m' (<[bucket t (tag_key tab t key) := count_entry key (n + 1)]> f) ∧ frame t g.(tables).(memory) m'.
Proof.
  intros Hrd Hkey Hl Hk Hf Hn. destruct C as [Wt Hlogic [Hk0 Hk1] [Hv0 Hv1] Hex Hcnt].
  unfold matcher_match. rewrite Hrd. cbn [lift mbind outcome_mbind]. rewrite Hkey. cbn [mbind outcome_mbind].
  rewrite Hex. erewrite flow_match_sram; [|done..]. rewrite Hf.
  unfold flow_end_pos, flow_get_val. erewrite logic_ok; [|done..].
  pose proof (bucket_range t Wt (tag_key tab t key)) as Hr. rewrite Hcnt.
  destruct (Z.eqb_spec n 0) as [->|Hne].
  - cbn [mbind outcome_mbind mret outcome_mret end_pos any_table sram_table]. rewrite Z.eqb_refl. cbn [negb mbind outcome_mbind].
    edestruct (flow_insert_sram tab i t) as (m' & -> & Hh & Hfr); [done|done|done|lia|done|done|by rewrite Hv0|by rewrite Hf|].
    exists None, m'. by split_and!.
  - cbn [count_entry fst]. rewrite bool_decide_eq_true_2 by done.
    cbn [mbind outcome_mbind mret outcome_mret end_pos any_table sram_table]. rewrite (proj2 (Z.eqb_neq _ _)) by lia. cbn [negb].
    cbn [get_entry key_len any_table sram_table mbind outcome_mbind mret outcome_mret fmap outcome_fmap].
    destruct Hl as [Hrdl Hh]. pose proof (Hh _ (conj (proj1 Hr) (proj2 Hk))) as Hb. rewrite Hf in Hb.
    destruct Hb as (_ & _ & Hpv). pose proof (wf_key _ Wt) as Hkl.
    rewrite load_inside by (lia || (apply entry_inside; unfold s_entry_len; done || lia)). cbn [mbind outcome_mbind].
    rewrite store_inside by (apply entry_inside; unfold s_entry_len; rewrite ?zlen_le_bytes; done || (unfold zlen; rewrite le_bytes_length; lia)).
    cbn [mbind outcome_mbind mret outcome_mret].
    assert (Hold : peek g.(tables).(memory) (shift (sram_get_entry t (bucket t (tag_key tab t key))) (s_key_len t)) (Z.to_nat 4) = le_bytes 4 n).
    { apply (peek_prefix _ _ _ (le_bytes 4 n)) in Hpv. by rewrite le_bytes_length in Hpv. }
    rewrite Hold, count_step.
    destruct (value_stored t Wt g.(tables).(memory) f (bucket t (tag_key tab t key)) (tag_key tab t key)
      (pad_val tab t (le_bytes 4 n)) (le_bytes 4 (n + 1)) Hh) as [Hh' Hfr].
    + split; [lia|apply Hk].
    + done.
    + apply pad_val_length; [lia|by rewrite Hv0].
    + rewrite pad_val_length by (by rewrite ?Hv0 || lia). unfold zlen. rewrite le_bytes_length. lia.
    + eexists _, _. split; [done|]. split; [|done]. rewrite le_bytes_length, count_entry_next in Hh'. exact Hh'.
Qed.
End counting.

(** ** A sequence of lookups *)
Section sequence.
Context (tab : FlowTable) (i : Z) (t : LogicSram) (C : counter_table tab i t).
Context (keys : list (list Z)) (Hkeys : Forall (key_ok tab t) keys).

(** No two keys share a bucket. *)
Context (Hdistinct : ∀ k1 k2, k1 ∈ keys → k2 ∈ keys →
  bucket t (tag_key tab t k1) = bucket t (tag_key tab t k2) → k1 = k2).

(** The map after the lookups of [l]. *)
Definition counted (l : list (list Z)) (f : Buckets) : Prop :=
  ∀ k, k ∈ keys →
    f !! bucket t (tag_key tab t k) = if times k l =? 0 then None else Some (count_entry tab t k (times k l)).

Lemma times_snoc k l x : times k (l ++ [x]) = times k l + (if decide (x = k) then 1 else 0).
Proof.
  unfold times. rewrite filter_app, zlen_app, filter_cons, filter_nil. by destruct (decide (x = k)).
Qed.

Lemma times_in k l : k ∈ l → 0 < times k l.
Proof.
  intros Hk. unfold times, zlen. assert (Hf : k ∈ filter (λ x, x = k) l) by by apply list_elem_of_filter.
  destruct (filter _ l); [by apply not_elem_of_nil in Hf|]. cbn. lia.
Qed.

Lemma counted_nonneg k l : 0 ≤ times k l.
Proof. apply zlen_nonneg. Qed.

Lemma look_all_counts id pks l1 l2 g f :
  keys = l1 ++ l2 → rd g.(flow_tables) id = Ok tab →
  Forall2 (λ pk key, match_key tab pk.1 pk.2 g.(meta_data) = Value key) pks l2 →
  lies i t g.(tables) f → counted l1 f →
  ∃ m' f', look_all id pks g = Value (set_tables (mkTables m' g.(tables).(logic_tables)) g) ∧
    holds t m' f' ∧ counted keys f' ∧ frame t g.(tables).(memory) m'.
Proof.
  revert pks l1 g f. induction l2 as [|key l2 IH]; intros pks l1 g f Hk Hrd Hp Hl Hc.
  - apply Forall2_nil_inv_r in Hp as ->. rewrite app_nil_r in Hk. subst l1. destruct Hl as [_ Hh].
    exists g.(tables).(memory), f. split_and!; [|done|done|done]. cbn. by destruct g as [[] ? ? ? ? ? ?].
  - apply Forall2_cons_inv_r in Hp as (pk & pks' & Hkey & Hp & ->).
    assert (Hin : key ∈ keys) by (rewrite Hk; set_solver).
    pose proof (proj1 (Forall_forall _ _) Hkeys key Hin) as Hok.
    pose proof (counted_nonneg key l1) as Hn.
    destruct (lookup_counts tab i t C id pk.1 pk.2 g key f (times key l1) Hrd Hkey Hl Hok (Hc key Hin) Hn)
      as (r & m1 & Hm & Hh & Hfr).
    set (g1 := set_tables (mkTables m1 g.(tables).(logic_tables)) g).
    destruct (IH pks' (l1 ++ [key]) g1 (<[bucket t (tag_key tab t key) := count_entry tab t key (times key l1 + 1)]> f))
      as (m2 & f2 & Hrun & Hh2 & Hc2 & Hfr2).
    + by rewrite <- app_assoc.
    + done.
    + done.
    + destruct Hl as [Hl _]. by split.
    + intros k Hki. rewrite times_snoc. destruct (decide (key = k)) as [<-|Hne].
      * rewrite lookup_insert_eq. by rewrite (proj2 (Z.eqb_neq _ _)) by lia.
      * rewrite lookup_insert_ne by (intros E; apply Hne; by apply Hdistinct). rewrite Z.add_0_r. by apply Hc.
    + exists m2, f2. split_and!; [|done|done|].
      * unfold look_all in *. cbn [each]. rewrite Hm. cbn [mbind outcome_mbind mret outcome_mret snd]. exact Hrun.
      * intros c Hcc. rewrite Hfr2 by done. by apply Hfr.
Qed.

(** The zero byte behind a key is not looked at. *)
Lemma match_c_string key ts f :
  lies i t ts f → zlen key = tab.(ft_key_len) → flow_match_exact tab (key ++ [0]) ts = flow_match_exact tab key ts.
Proof.
  intros Hl Hk. unfold flow_match_exact. erewrite logic_ok; [|apply C|done]. cbn [mbind outcome_mbind].
  unfold get_tag_key. assert (first_bytes (key ++ [0]) tab.(ft_key_len) = first_bytes key tab.(ft_key_len)) as ->; [|done].
  rewrite (first_bytes_len key) by done. unfold first_bytes. pose proof (zlen_nonneg key). rewrite zlen_app.
  change (zlen [0]) with 1. zcmp. f_equal. apply take_app_length'. unfold zlen in *. lia.
Qed.

Lemma read_count_ok `{Target} is_utf8 catches id g f key n :
  rd g.(flow_tables) id = Ok tab → lies i t g.(tables) f → key_ok tab t key → 0 < n →
  f !! bucket t (tag_key tab t key) = Some (count_entry tab t key n) →
  read_count is_utf8 catches id key g = if is_utf8 key then Value (n mod 4294967296) else Undefined OutOfBounds.
Proof.
  intros Hrd Hl Hk Hn Hf. destruct C as [Wt Hlogic [Hk0 Hk1] [Hv0 Hv1] Hex Hcnt].
  unfold read_count, get_flow_entry_value, call. cbn [request_of strings_of forallb pb_key]. rewrite andb_true_r.
  destruct (is_utf8 key); [|reflexivity]. cbn [serve load_flow_entry fe_key pb_key].
  assert (Hget : get_flow_entry_action_data id key g = Value (le_bytes 4 n)).
  { unfold get_flow_entry_action_data. rewrite Hrd. cbn [lift mbind outcome_mbind].
    erewrite match_c_string by (done || apply Hk). erewrite flow_match_sram; [|done..]. rewrite Hf.
    unfold flow_end_pos, flow_get_val. erewrite logic_ok; [|done..].
    pose proof (bucket_range t Wt (tag_key tab t key)) as Hr.
    cbn [count_entry fst]. rewrite bool_decide_eq_true_2 by done.
    cbn [mbind outcome_mbind mret outcome_mret end_pos any_table sram_table]. rewrite (proj2 (Z.eqb_neq _ _)) by lia.
    cbn [get_entry key_len any_table sram_table mbind outcome_mbind mret outcome_mret].
    destruct Hl as [_ Hh]. pose proof (Hh _ (conj (proj1 Hr) (proj2 Hk))) as Hb. rewrite Hf in Hb.
    destruct Hb as (_ & _ & Hpv). pose proof (wf_key _ Wt) as Hkl. rewrite Hv0.
    rewrite load_inside by (lia || (apply entry_inside; unfold s_entry_len; done || lia)).
    apply (peek_prefix _ _ _ (le_bytes 4 n)) in Hpv. rewrite le_bytes_length in Hpv.
    change (Z.to_nat 4) with 4%nat. by rewrite Hpv. }
  rewrite Hget. assert (Hread : first_bytes (le_bytes 4 n ++ [0]) 4 = Value (le_bytes 4 n)) by reflexivity.
  unfold answered. destruct catches; cbn [mbind outcome_mbind mret outcome_mret try_catch fst]; rewrite Hread; cbn [mbind outcome_mbind];
    unfold mret, outcome_mret; by rewrite le_word_bytes.
Qed.
End sequence.

(** C36. A counter table counts, when its values have four bytes, the buckets of the keys
    that came are different, have bits of their own in the bitmap, and are free at
    first: after the lookups of a sequence of packets, in any order and with any
    repetitions, the controller reads for every key that came how many packets had it,
    modulo 2^32, if the protocol library takes the key as a string. For a key that it
    does not take, as it takes only UTF-8, the call fails, and the controller reads four
    bytes of the empty string. No byte outside the logical table changes. (The first
    packet that comes with another key of a taken bucket stops the switch, and the
    buckets without a bit of their own destroy another count.) *)
Theorem counter_counts `{Target} is_utf8 catches tab i t id pks keys g f :
  counter_table tab i t → rd g.(flow_tables) id = Ok tab → lies i t g.(tables) f →
  Forall (key_ok tab t) keys → Forall (λ k, f !! bucket t (tag_key tab t k) = None) keys →
  (∀ k1 k2, k1 ∈ keys → k2 ∈ keys → bucket t (tag_key tab t k1) = bucket t (tag_key tab t k2) → k1 = k2) →
  Forall2 (λ pk key, match_key tab pk.1 pk.2 g.(meta_data) = Value key) pks keys →
  ∃ m', let g' := set_tables (mkTables m' g.(tables).(logic_tables)) g in
    look_all id pks g = Value g' ∧
    (∀ key, key ∈ keys → read_count is_utf8 catches id key g' =
      if is_utf8 key then Value (times key keys mod 4294967296) else Undefined OutOfBounds) ∧
    frame t g.(tables).(memory) m'.
Proof.
  intros C Hrd Hl Hok Hfree Hdis Hp.
  destruct (look_all_counts tab i t C keys Hok Hdis id pks [] keys g f eq_refl Hrd Hp Hl) as (m' & f' & Hrun & Hh & Hc & Hfr).
  { intros k Hk. by apply (proj1 (Forall_forall _ _) Hfree). }
  exists m'. split_and!; [done| |done]. intros key Hk. pose proof (times_in key keys Hk) as Hpos.
  eapply (read_count_ok tab i t C _ _ _ _ f'); [done|split; [apply Hl|done]|by apply (proj1 (Forall_forall _ _) Hok)|done|].
  specialize (Hc key Hk). by rewrite (proj2 (Z.eqb_neq _ _)) in Hc by lia.
Qed.

(** ** An example

    Flow table 3 counts the source addresses of the network 10.0.1.0/24 on logical
    table 3. *)
Definition demo_counter : FlowTable :=
  make_flow_table 3 4 (Some 3) MEM_SRAM MATCH_EXACT [mkFieldSpec 1 12 4] true.

Definition demo_counting : Global := set_flow_tables (<[3%nat := demo_counter]> initial_global.(flow_tables)) initial_global.

Definition demo_from (d : Z) : list (option BufView) * list Z :=
  (demo_headers, take 26 demo_ip_packet ++ [10; 0; 1; d; 10; 0; 2; 50]).

Definition demo_counter_sram : LogicSram :=
  mkLogicSram (mkBuffer MEM_SRAM 3 0) (mkBuffer MEM_SRAM 3 32) 32 32 257.

Lemma counter_counts_witness :
  let keys := [[10; 0; 1; 50]; [10; 0; 1; 51]; [10; 0; 1; 50]] in
  ∃ m', look_all 3 (demo_from <$> [50; 51; 50]) demo_counting =
      Value (set_tables (mkTables m' demo_counting.(tables).(logic_tables)) demo_counting) ∧
    @read_count x86 ascii true 3 [10; 0; 1; 50] (set_tables (mkTables m' demo_counting.(tables).(logic_tables)) demo_counting) =
      Value (times [10; 0; 1; 50] keys mod 4294967296).
Proof.
  intros keys. destruct (initial_sram 3 demo_counter_sram) as [Hwf Hempty]; [vm_compute; reflexivity|].
  destruct (@counter_counts x86 ascii true demo_counter 3 demo_counter_sram 3 (demo_from <$> [50; 51; 50]) keys demo_counting ∅)
    as (m' & Hrun & Hread & _).
  - constructor; [exact Hwf|done|done|done|done|done].
  - vm_compute. reflexivity.
  - split; [vm_compute; reflexivity|exact Hempty].
  - unfold keys. repeat apply Forall_cons_2; try apply Forall_nil_2; (split; [done|vm_compute; reflexivity]).
  - apply Forall_true. intros k. apply lookup_empty.
  - intros k1 k2 H1 H2. unfold keys in *. rewrite !elem_of_cons, elem_of_nil in H1, H2.
    destruct_or! H1; destruct_or! H2; try done; subst; vm_compute; done.
  - unfold keys. repeat constructor.
  - exists m'. split; [exact Hrun|]. apply (Hread [10; 0; 1; 50]). unfold keys. by left.
Defined.

(** The bucket of 10.0.1.19 is the last, which has no bit of its own, and that of 10.0.1.165
    the first: when packets come from both, the count of the first is not found any more,
    and the controller reads behind the empty string. *)
Example last_bucket_loses_count :
  match g ← look_all 3 (demo_from <$> [19; 19; 165]) demo_counting; @read_count x86 ascii true 3 [10; 0; 1; 19] g with
  | Undefined OutOfBounds => True | _ => False end.
Proof. vm_compute. exact I. Qed.
