(* ===== verification/OldPrograms.v ===== *)
(** * The programs of the old switch
    (ipbm-old/src/api: api_switch.h, api_router.h, api_tunnel.h, api_counter.h,
    api_complex.h; ipbm-old/src/controller: ctrl_complex.h, ctrl_vlan.cpp,
    ctrl_flow_entry.cpp)

    The switch has no program until somebody sets it up.  The classes of the interface
    do it inside the process, each for one kind of switch; the controller does it from
    outside, call by call.  Here is what they set up, that both ways lead to the same
    switch, and how the router it makes forwards packets. *)

From stdpp Require Import base numbers list gmap strings.
From Stdlib Require Import ZArith Lia.
From S2P Require Import Prelude OldMemory OldTables OldParser OldExecutor OldSwitch OldApi.

#[local] Open Scope Z_scope.

(** ** Steps *)
Inductive Step : Type :=
| Do (c : Call)                                           (** a call whose result is not looked at *)
| Must (c : Call)                                         (** [assert(call == 0)] *)
| SetMask (if_idx mask : Z)                               (** [glb.vlan_group.port_masks[i] = mask] *)
| MustHold (table_id : Z) (key val : list Z).             (** [assert]s on the bytes of an entry *)

Definition step (s : Step) (g : Global) : outcome Global :=
  match s with
  | Do c => snd <$> direct c g
  | Must c => r ← direct c g; _ ← asserts (match r.1 with ReturnCode rc => rc =? 0 | EntryData _ => true end); mret r.2
  | SetMask i mask => masks ← lift (wr g.(port_masks) i mask); mret (set_port_masks masks g)
  | MustHold id key val =>
      v ← get_flow_entry_val id key g;
      match v with
      | None => Undefined NullDeref
      | Some b => bs ← load g.(tables).(memory) b (zlen val); _ ← asserts (bool_decide (bs = val)); mret g
      end
  end.

Definition steps (l : list Step) (g : Global) : outcome Global := each step l g.

(** The controller looks at return codes only to write them to the log. *)
Definition send_all `{Target} (is_utf8 : list Z → bool) (catches : bool) (cs : list Call) (g : Global) : outcome Global :=
  each (λ c g, snd <$> call is_utf8 catches c g) cs g.

(** ** What the programs share

    The structs of the system headers: [ether_header] has the destination at 0, the
    source at 6 and the type at 12, [iphdr] has ttl, protocol, checksum, source and
    destination at 8, 9, 10, 12 and 16. *)
Definition sizeof_ether_header : Z := 14.
Definition sizeof_iphdr : Z := 20.
Definition ip_tag_s : list Z := [8; 0].
Definition tunnel_tag_s : list Z := [18; 18].

Definition mac_addr (net host : Z) : list Z := [0; 0; 0; 0; net; host].
Definition ip_addr (net host : Z) : list Z := [10; 0; net; host].
Definition word32 (x : Z) : list Z := le_bytes 4 x.
Definition word16 (x : Z) : list Z := le_bytes 2 x.

Definition hdr_ether : ParserHeader := mkParserHeader 0 sizeof_ether_header 12 2 [].
Definition hdr_ip (id : Z) : ParserHeader := mkParserHeader id sizeof_iphdr 9 1 [].

(** The action that forwards an Internet packet, for the numbers of its two headers. *)
Definition act_ip_fwd (ether ip : Z) : Action :=
  mkAction [OP_ADD (mkFieldSpec ip 8 1) (-1);
            OP_CKSUM (mkFieldSpec ip 0 sizeof_iphdr) (mkFieldSpec ip 10 2) HASH_CSUM16;
            OP_COPY_FIELD (mkFieldSpec ether 6 6) (mkFieldSpec ether 0 6);
            OP_SET_FIELD (mkFieldSpec ether 0 6) 0;
            OP_SET_PORT 1].

Definition args_ip_fwd : list RuntimeArgSpec := [mkRuntimeArgSpec 0 6; mkRuntimeArgSpec 6 4].

(** An address, and the hardware address and port of the next hop. *)
Definition next_hop (action net host mac port : Z) : FlowEntry :=
  mkFlowEntry (ip_addr net host) action [mac_addr net mac; word32 port].

(** ** The switch (api_switch.h) *)
Definition switch_entry (host port : Z) : FlowEntry := mkFlowEntry (mac_addr 1 host) 1 [word32 port].

Definition switch_build : list Step :=
  [SetMask 0 15; SetMask 1 15; SetMask 2 15; SetMask 3 15;
   Must (CallParser [] [] hdr_ether);
   Do (CallFlowTable 0 0 MEM_SRAM MATCH_EXACT [mkFieldSpec 0 0 6] 4 false);
   Do (CallExecutor 0 1 PROC_ID_END 0 PROC_ID_END [mkRuntimeArgSpec 0 4]);
   Do (CallAction 0 (mkAction [OP_SET_MULTICAST]));
   Do (CallAction 1 (mkAction [OP_SET_PORT 0]));
   Do (CallProcessor 0 (COND_IS_VALID 0) (NextTable 0) (NextProc PROC_ID_END));
   Must (CallAdd 0 (switch_entry 1 1)); MustHold 0 (mac_addr 1 1) (word32 1);
   Must (CallAdd 0 (switch_entry 2 2)); Must (CallAdd 0 (switch_entry 3 4)); Must (CallAdd 0 (switch_entry 4 8))].

(** ** The router (api_router.h) *)

(** The same entries are added, deleted and changed before they are added for good. *)
Definition try_entries (table_id : Z) (flow1 flow2 : FlowEntry) : list Step :=
  [Must (CallAdd table_id flow1); Must (CallAdd table_id flow2); Must (CallDel table_id flow1);
   Must (CallMod table_id flow2 flow1); Must (CallDel table_id flow1);
   Must (CallAdd table_id flow1); Must (CallAdd table_id flow2)].

Definition router_build : list Step :=
  [Must (CallParser [] [] hdr_ether);
   Must (CallParser [0] ip_tag_s (hdr_ip 1));
   Do (CallFlowTable 0 0 MEM_SRAM MATCH_EXACT [mkFieldSpec 1 16 4] 10 false);
   Do (CallExecutor 0 1 PROC_ID_END 0 PROC_ID_END args_ip_fwd);
   Do (CallAction 0 (mkAction []));
   Do (CallAction 1 (act_ip_fwd 0 1));
   Do (CallProcessor 0 (COND_IS_VALID 1) (NextTable 0) (NextProc PROC_ID_END))] ++
  try_entries 0 (next_hop 1 1 50 80 1) (next_hop 1 2 50 80 2) ++
  [MustHold 0 (ip_addr 1 50) (mac_addr 1 80 ++ word32 1)].

(** ** The tunnel (api_tunnel.h)

    [TunnelHdr] has the next protocol at 0 and the destination at 2. *)
Definition hdr_tunnel (id : Z) (next : list NextParserHeader) : ParserHeader := mkParserHeader id 4 0 2 next.

Definition tunnel_build : list Step :=
  [Must (CallParser [] [] hdr_ether);
   Must (CallParser [0] tunnel_tag_s (hdr_tunnel 2 []));
   Must (CallParser [0; 2] ip_tag_s (hdr_ip 1));
   Do (CallFlowTable 1 0 MEM_SRAM MATCH_EXACT [mkFieldSpec 1 16 4] 10 false);
   Do (CallFlowTable 0 1 MEM_SRAM MATCH_EXACT [mkFieldSpec 2 2 2] 2 false);
   Do (CallAction 0 (mkAction []));
   Do (CallAction 1 (act_ip_fwd 0 1));
   Do (CallAction 2 (mkAction [OP_SET_PORT 0]));
   Do (CallExecutor 1 1 PROC_ID_END 0 PROC_ID_END args_ip_fwd);
   Do (CallExecutor 0 2 PROC_ID_END 0 PROC_ID_END [mkRuntimeArgSpec 0 2]);
   Do (CallProcessor 0 (COND_IS_VALID 2) (NextTable 0) (NextProc 1));
   Do (CallProcessor 1 (COND_IS_VALID 1) (NextTable 1) (NextProc PROC_ID_END))] ++
  try_entries 1 (next_hop 1 1 50 80 1) (next_hop 1 2 50 80 2) ++
  [MustHold 1 (ip_addr 1 50) (mac_addr 1 80 ++ word32 1);
   Must (CallAdd 0 (mkFlowEntry (word16 0) 2 [word16 1]));
   Must (CallAdd 0 (mkFlowEntry [0; 1] 2 [word16 2]))].

(** ** The counter (api_counter.h) *)
Definition counter_build : list Step :=
  [Must (CallParser [] [] hdr_ether);
   Must (CallParser [0] ip_tag_s (hdr_ip 1));
   Do (CallFlowTable 0 0 MEM_SRAM MATCH_EXACT [mkFieldSpec 1 16 4] 10 false);
   Do (CallFlowTable 1 1 MEM_SRAM MATCH_EXACT [mkFieldSpec 1 12 4] 4 true);
   Do (CallAction 0 (mkAction []));
   Do (CallAction 1 (act_ip_fwd 0 1));
   Do (CallExecutor 0 1 1 0 1 args_ip_fwd);
   Do (CallExecutor 1 0 PROC_ID_END 0 PROC_ID_END []);
   Do (CallProcessor 0 (COND_IS_VALID 1) (NextTable 0) (NextProc PROC_ID_END));
   Do (CallProcessor 1 (COND_IS_VALID 1) (NextTable 1) (NextProc PROC_ID_END))] ++
  try_entries 0 (next_hop 1 1 50 80 1) (next_hop 1 2 50 80 2) ++
  [MustHold 0 (ip_addr 1 50) (mac_addr 1 80 ++ word32 1)].

(** ** All together (api_complex.h)

    Header 1 is the tunnel here, header 2 the Internet header; processors 0, 1, 2 and 3
    are those of the MAC table, the tunnel, the routes and the counter. *)
Definition mac_entry (vlan host port : Z) : FlowEntry := mkFlowEntry (word32 vlan ++ mac_addr 1 host) 2 [word32 port].

(** [for (i = 2; i < 6; i++)] with a bit that is shifted. *)
Definition hosts : list (Z * Z) := [(2, 1); (3, 2); (4, 4); (5, 8)].

Definition complex_tables : list Call :=
  [CallParser [] [] hdr_ether; CallParser [0] ip_tag_s (hdr_ip 2);
   CallFlowTable 0 1 MEM_SRAM MATCH_EXACT [mkFieldSpec HDR_ID_META_DATA 4 4; mkFieldSpec 0 0 6] 4 false;
   CallFlowTable 1 0 MEM_SRAM MATCH_EXACT [mkFieldSpec 2 16 4] 10 false;
   CallAction 0 (mkAction []); CallAction 1 (mkAction [OP_SET_MULTICAST]); CallAction 3 (act_ip_fwd 0 2);
   CallAction 2 (mkAction [OP_SET_PORT 0]);
   CallExecutor 0 2 PROC_ID_END 1 2 [mkRuntimeArgSpec 0 4];
   CallExecutor 2 3 PROC_ID_END 0 PROC_ID_END args_ip_fwd;
   CallProcessor 0 (COND_IS_VALID 0) (NextTable 0) (NextProc 2);
   CallProcessor 2 (COND_IS_VALID 2) (NextTable 1) (NextProc PROC_ID_END)].

Definition complex_entries : list Call :=
  ((λ h, CallAdd 1 (next_hop 3 1 h.1 h.1 h.2)) <$> hosts) ++ [CallAdd 1 (next_hop 3 2 2 2 16)] ++
  ((λ h, CallAdd 0 (mac_entry 15 h.1 h.2)) <$> hosts).

(** The parser and the entries are set under assertions, the rest is not. *)
Definition complex_build : list Step :=
  [SetMask 0 15; SetMask 1 15; SetMask 2 15; SetMask 3 15; SetMask 4 16] ++
  (Must <$> take 2 complex_tables) ++ (Do <$> drop 2 complex_tables) ++ (Must <$> complex_entries).

Definition vlan_of (host : Z) : Z := if host <? 4 then Z.lor 1 2 else Z.lor 4 8.

Definition vlan_moves : list Call :=
  (λ h, CallMod 0 (mac_entry 15 h.1 h.2) (mac_entry (vlan_of h.1) h.1 h.2)) <$> hosts.

Definition complex_add_vlan : list Step :=
  [SetMask 0 3; SetMask 1 3; SetMask 2 12; SetMask 3 12] ++ (Must <$> vlan_moves).

Definition tunnel_calls : list Call :=
  [CallParser [0] tunnel_tag_s (hdr_tunnel 1 [mkNextParserHeader ip_tag_s 2]);
   CallFlowTable 2 2 MEM_SRAM MATCH_EXACT [mkFieldSpec 1 2 2] 4 false;
   CallAction 4 (mkAction [OP_SET_PORT 0]);
   CallExecutor 1 4 PROC_ID_END 0 PROC_ID_END [mkRuntimeArgSpec 0 2];
   CallProcessor 0 (COND_IS_VALID 0) (NextTable 0) (NextProc 1);
   CallProcessor 1 (COND_IS_VALID 1) (NextTable 2) (NextProc 2)].

(** [for (uint16_t dst_id = 0; dst_id < 5; dst_id++)]. *)
Definition tunnel_entries : list Call :=
  (λ d, CallAdd 2 (mkFlowEntry (word16 d) 4 [word32 (Z.shiftl 1 d)])) <$> seqZ 0 5.

Definition complex_add_tunnel : list Step :=
  (Must <$> take 1 tunnel_calls) ++ (Do <$> drop 1 tunnel_calls) ++ (Must <$> tunnel_entries).

Definition counter_calls : list Call :=
  [CallFlowTable 3 3 MEM_SRAM MATCH_EXACT [mkFieldSpec 2 12 4] 4 true;
   CallExecutor 2 3 3 0 3 args_ip_fwd;
   CallExecutor 3 0 PROC_ID_END 0 PROC_ID_END [];
   CallProcessor 3 (COND_IS_VALID 2) (NextTable 3) (NextProc PROC_ID_END)].

Definition complex_add_counter : list Step := Do <$> counter_calls.

(** ** The controller (ctrl_complex.h, ctrl_vlan.cpp, ctrl_flow_entry.cpp)

    The port masks of the interfaces are entries of a table for it. *)
Definition mask_call (old : Z) (m : Z * Z) : Call :=
  CallMod TAB_ID_VLAN_GROUP (mkFlowEntry (word32 m.1) (-1) [word32 old]) (mkFlowEntry (word32 m.1) (-1) [word32 m.2]).

Definition basic_forward : list Call :=
  (mask_call 4294967295 <$> [(0, 15); (1, 15); (2, 15); (3, 15); (4, 16)]) ++
  [CallParser [] [] (mkParserHeader 0 14 12 2 []);
   CallParser [0] ip_tag_s (mkParserHeader 2 20 9 1 []);
   CallFlowTable 0 1 MEM_SRAM MATCH_EXACT [mkFieldSpec HDR_ID_META_DATA 4 4; mkFieldSpec 0 0 6] 4 false;
   CallFlowTable 1 0 MEM_SRAM MATCH_EXACT [mkFieldSpec 2 16 4] (6 + 4) false;
   CallAction 0 (mkAction []);
   CallAction 1 (mkAction [OP_SET_MULTICAST]);
   CallAction 3 (mkAction [OP_ADD (mkFieldSpec 2 8 1) (-1);
                           OP_CKSUM (mkFieldSpec 2 0 20) (mkFieldSpec 2 10 2) HASH_CSUM16;
                           OP_COPY_FIELD (mkFieldSpec 0 6 6) (mkFieldSpec 0 0 6);
                           OP_SET_FIELD (mkFieldSpec 0 0 6) 0;
                           OP_SET_PORT 1]);
   CallAction 2 (mkAction [OP_SET_PORT 0]);
   CallExecutor 0 2 PROC_ID_END 1 2 [mkRuntimeArgSpec 0 4];
   CallExecutor 2 3 PROC_ID_END 0 PROC_ID_END [mkRuntimeArgSpec 0 6; mkRuntimeArgSpec 6 4];
   CallProcessor 0 (COND_IS_VALID 0) (NextTable 0) (NextProc 2);
   CallProcessor 2 (COND_IS_VALID 2) (NextTable 1) (NextProc PROC_ID_END)] ++
  ((λ h, CallAdd 1 (mkFlowEntry [10; 0; 1; h.1] 3 [[0; 0; 0; 0; 1; h.1]; word32 h.2])) <$> hosts) ++
  [CallAdd 1 (mkFlowEntry [10; 0; 2; 2] 3 [[0; 0; 0; 0; 2; 2]; word32 16])] ++
  ((λ h, CallAdd 0 (mkFlowEntry (word32 15 ++ [0; 0; 0; 0; 1; h.1]) 2 [word32 h.2])) <$> hosts).

Definition add_vlan : list Call :=
  (mask_call 15 <$> [(0, Z.lor 1 2); (1, Z.lor 1 2); (2, Z.lor 4 8); (3, Z.lor 4 8)]) ++
  ((λ h, CallMod 0 (mkFlowEntry (word32 15 ++ [0; 0; 0; 0; 1; h.1]) 2 [word32 h.2])
           (mkFlowEntry (word32 (if h.1 <? 4 then Z.lor 1 2 else Z.lor 4 8) ++ [0; 0; 0; 0; 1; h.1]) 2 [word32 h.2])) <$> hosts).

Definition add_tunnel : list Call :=
  [CallParser [0] tunnel_tag_s (mkParserHeader 1 4 0 2 [mkNextParserHeader ip_tag_s 2]);
   CallFlowTable 2 2 MEM_SRAM MATCH_EXACT [mkFieldSpec 1 2 2] 4 false;
   CallAction 4 (mkAction [OP_SET_PORT 0]);
   CallExecutor 1 4 PROC_ID_END 0 PROC_ID_END [mkRuntimeArgSpec 0 2];
   CallProcessor 0 (COND_IS_VALID 0) (NextTable 0) (NextProc 1);
   CallProcessor 1 (COND_IS_VALID 1) (NextTable 2) (NextProc 2)] ++
  ((λ d, CallAdd 2 (mkFlowEntry (word16 d) 4 [word32 (Z.shiftl 1 d)])) <$> seqZ 0 5).

Definition add_counter : list Call :=
  [CallFlowTable 3 3 MEM_SRAM MATCH_EXACT [mkFieldSpec 2 12 4] 4 true;
   CallExecutor 2 3 3 0 3 [mkRuntimeArgSpec 0 6; mkRuntimeArgSpec 6 4];
   CallExecutor 3 0 PROC_ID_END 0 PROC_ID_END [];
   CallProcessor 3 (COND_IS_VALID 2) (NextTable 3) (NextProc PROC_ID_END)].

(** The other programs of the controller: the groups of the switch, and an entry of the
    router that goes and comes. *)
Definition ctrl_vlan : list Call := mask_call 4294967295 <$> [(0, 3); (1, 3); (2, 12); (3, 12)].
Definition ctrl_flow_entry : list Call :=
  [CallDel 0 (next_hop 1 1 50 80 1); CallAdd 0 (next_hop 1 1 50 80 1)].

(** ** The programs run *)
Definition built (m : outcome Global) : Global := match m with Value g => g | _ => initial_global end.

(** The switches the classes build from the switch as it starts. *)
Definition switch_global : Global := built (steps switch_build initial_global).
Definition router_global : Global := built (steps router_build initial_global).
Definition complex_global : Global := built (steps complex_build initial_global).

(** No assertion of the programs fails, and all they do is defined. *)
Definition runs (l : list Step) : bool := match steps l initial_global with Value _ => true | _ => false end.

Lemma programs_run :
  forallb runs [switch_build; router_build; tunnel_build; counter_build;
     complex_build ++ complex_add_vlan ++ complex_add_tunnel ++ complex_add_counter] = true.
Proof. vm_compute. reflexivity. Qed.

(** ** The controller and the classes build the same switch *)
Definition call_okb (c : Call) : bool :=
  match c with
  | CallAction id _ => id <? NUM_ACTIONS
  | CallFlowTable id logic_id _ _ _ vl _ => forallb (λ x, (-2147483648 <=? x) && (x <? 2147483648)) [id; logic_id; vl]
  | CallProcessor _ COND_NONE _ _ => false
  | _ => true
  end.

Lemma call_okb_ok c : call_okb c = true → call_ok c.
Proof.
  destruct c as [| | | | | | | |? [] ? ?]; cbn [call_okb call_ok forallb]; rewrite ?Z.ltb_lt; try done.
  rewrite !andb_true_iff, !Z.leb_le, !Z.ltb_lt. unfold is_int. tauto.
Qed.

(** The strings of a call are ASCII, and its arguments are carried. *)
Definition plain (c : Call) : bool := call_okb c && forallb ascii (strings_of (@request_of x86 c)).

Lemma strings_of_any (T1 T2 : Target) c : strings_of (@request_of T1 c) = strings_of (@request_of T2 c).
Proof. by destruct c. Qed.

Lemma send_all_plain `{Target} is_utf8 catches cs g g' :
  (∀ s, ascii s = true → is_utf8 s = true) → forallb plain cs = true →
  each (λ c g, snd <$> direct c g) cs g = Value g' → send_all is_utf8 catches cs g = Value g'.
Proof.
  intros Hu. revert g. induction cs as [|c cs IH]; intros g Hp Hd; [done|]. cbn [forallb] in Hp.
  apply andb_true_iff in Hp as [Hc Hcs]. apply andb_true_iff in Hc as [Hc Hs].
  unfold send_all in *. cbn [each] in *. unfold call.
  assert (Hall : forallb is_utf8 (strings_of (request_of c)) = true).
  { rewrite forallb_forall in *. intros s Hs'. apply Hu, Hs. by rewrite (strings_of_any x86 _). }
  rewrite Hall, serve_direct by by apply call_okb_ok. destruct (direct c g) as [[r g1]| | | |]; cbn in Hd; try done.
  unfold answered. replace (if catches then _ else _) with (Value (r, g1)) by by destruct catches. by apply IH.
Qed.

Definition ctrl_programs : list (list Call) := [basic_forward; add_vlan; add_tunnel; add_counter].
Definition api_programs : list (list Step) := [complex_build; complex_add_vlan; complex_add_tunnel; complex_add_counter].

#[export] Instance sram_eq_dec : EqDecision LogicSram.
Proof. solve_decision. Defined.
#[export] Instance tcam_eq_dec : EqDecision LogicTcam.
Proof. solve_decision. Defined.
#[export] Instance any_table_eq_dec : EqDecision AnyTable.
Proof. solve_decision. Defined.
#[export] Instance memory_eq_dec : EqDecision Memory.
Proof. solve_decision. Defined.
#[export] Instance tables_eq_dec : EqDecision Tables.
Proof. solve_decision. Defined.
#[export] Instance flow_table_eq_dec : EqDecision FlowTable.
Proof. solve_decision. Defined.
#[export] Instance arg_eq_dec : EqDecision RuntimeArgSpec.
Proof. solve_decision. Defined.
#[export] Instance executor_eq_dec : EqDecision Executor.
Proof. solve_decision. Defined.
#[export] Instance condition_eq_dec : EqDecision Condition.
Proof. solve_decision. Defined.
#[export] Instance next_stage_eq_dec : EqDecision NextStage.
Proof. solve_decision. Defined.
#[export] Instance processor_eq_dec : EqDecision Processor.
Proof. solve_decision. Defined.
#[export] Instance next_header_eq_dec : EqDecision NextParserHeader.
Proof. solve_decision. Defined.
#[export] Instance parser_header_eq_dec : EqDecision ParserHeader.
Proof. solve_decision. Defined.
#[export] Instance hash_type_eq_dec : EqDecision HashType.
Proof. solve_decision. Defined.
#[export] Instance primitive_eq_dec : EqDecision Primitive.
Proof. solve_decision. Defined.
#[export] Instance action_eq_dec : EqDecision Action.
Proof. solve_decision. Defined.
#[export] Instance meta_data_eq_dec : EqDecision MetaData.
Proof. solve_decision. Defined.
#[export] Instance global_eq_dec : EqDecision Global.
Proof. solve_decision. Defined.

Definition same_result (m1 m2 : outcome Global) : bool :=
  match m1, m2 with Value g1, Value g2 => bool_decide (g1 = g2) | _, _ => false end.

Lemma same_result_ok m1 m2 : same_result m1 m2 = true → ∃ g, m1 = Value g ∧ m2 = Value g.
Proof. destruct m1, m2; try done. cbn. intros ->%bool_decide_eq_true. by eexists. Qed.

(** C34. The controller builds the switch from outside that the class builds from inside:
    after the programs for forwarding, for groups of ports, for the tunnel and for the
    counter, run one after the other as far as one likes, the state of the switch is the
    same whether the controller ran them call by call or the process itself, under its
    assertions.  The hypothesis is that the protocol library takes strings of ASCII. *)
Theorem controller_builds_same `{Target} is_utf8 catches n :
  (∀ s, ascii s = true → is_utf8 s = true) →
  ∃ g, send_all is_utf8 catches (concat (take n ctrl_programs)) initial_global = Value g ∧
    steps (concat (take n api_programs)) initial_global = Value g.
Proof.
  intros Hu.
  assert (Hd : ∀ k, (k < 5)%nat →
    same_result (each (λ c g, snd <$> direct c g) (concat (take k ctrl_programs)) initial_global)
      (steps (concat (take k api_programs)) initial_global) = true ∧
    forallb plain (concat (take k ctrl_programs)) = true).
  { intros k Hk. do 5 (destruct k as [|k]; [split; vm_compute; reflexivity|]). lia. }
  assert (Hn : ∃ k, (k < 5)%nat ∧ take n ctrl_programs = take k ctrl_programs ∧ take n api_programs = take k api_programs).
  { destruct (decide (n < 5)%nat) as [Hlt|Hge]; [by exists n|]. exists 4%nat. split_and!; [lia|by rewrite !take_ge by (cbn; lia)..]. }
  destruct Hn as (k & Hk & -> & ->). destruct (Hd k Hk) as [Hsame Hplain].
  apply same_result_ok in Hsame as (g & Hg & Hg'). exists g. split; [by apply send_all_plain|done].
Qed.

Lemma controller_builds_same_witness :
  ∃ g, @send_all x86 ascii true (concat ctrl_programs) initial_global = Value g ∧
    steps (concat api_programs) initial_global = Value g.
Proof. apply (@controller_builds_same x86 ascii true 4). intros s Hs. exact Hs. Defined.

(** ** Forwarding an Internet packet *)

(** What the router makes of a packet: the next hop is its destination, its source is
    what was its destination, the time to live is one less, the checksum of the header
    is right, and all else is as it was. *)
Record forwarded (packet packet' mac : list Z) : Prop := {
  fw_length : zlen packet' = zlen packet;
  fw_destination : ∀ i, 0 ≤ i < 6 → at_ packet' i = at_ mac i;
  fw_source : ∀ i, 6 ≤ i < 12 → at_ packet' i = at_ packet (i - 6);
  fw_ttl : at_ packet' 22 = (at_ packet 22 - 1) mod 256;
  fw_checksum : right_checksum (field_bytes packet' 14 20);
  fw_rest : ∀ i, 12 ≤ i < zlen packet → i ≠ 22 → i ≠ 24 → i ≠ 25 → at_ packet' i = at_ packet i
}.

Lemma act_ip_fwd_forwards ether ip hdrs mem args packet meta next b0 b1 mac port :
  bytes packet → 34 ≤ zlen packet →
  rd hdrs ether = Ok (Some (mkBufView 0 14)) → rd hdrs ip = Ok (Some (mkBufView 14 20)) →
  rd args 0 = Ok (b0, 6) → rd args 1 = Ok (b1, 4) →
  load mem b0 6 = Value mac → zlen mac = 6 → bytes mac → load mem b1 4 = Value port →
  ∃ packet',
    each (exec_op hdrs mem args) (act_ip_fwd ether ip).(ops) (mkExecState packet meta next) =
      Value (mkExecState packet' (set_out_port (le_word port) meta) next) ∧ forwarded packet packet' mac.
Proof.
  intros Hb Hlen He Hi Ha0 Ha1 Hm Hml Hmb Hp.
  assert (Hpos : ∀ s n, field_pos hdrs (mkFieldSpec ether s n) = Value s).
  { intros s n. unfold field_pos. cbn [fs_hdr_id fs_start]. by rewrite He. }
  assert (Hposi : ∀ s n, field_pos hdrs (mkFieldSpec ip s n) = Value (14 + s)).
  { intros s n. unfold field_pos. cbn [fs_hdr_id fs_start]. by rewrite Hi. }
  (* the time to live *)
  destruct (pk_write_fits packet 22 (le_bytes 1 (le_word [at_ packet 22] + -1))) as (p1 & Hw1 & Hl1 & Hb1 & Hat1);
    [lia|unfold zlen at 1; rewrite le_bytes_length; lia|done|apply le_bytes_bytes|].
  assert (H1 : exec_op hdrs mem args (OP_ADD (mkFieldSpec ip 8 1) (-1)) (mkExecState packet meta next) = Value (mkExecState p1 meta next)).
  { cbn [exec_op]. rewrite Hposi. cbn [mbind outcome_mbind fs_len ex_packet].
    rewrite bool_decide_eq_true_2 by set_solver. rewrite pk_read_at by lia. cbn [mbind outcome_mbind].
    exact (f_equal (λ o, p ← o; mret (mkExecState p meta next)) Hw1). }
  (* the checksum *)
  destruct (cksum_op_verifies hdrs mem args (mkFieldSpec ip 0 20) (mkFieldSpec ip 10 2) p1 meta next 14 24)
    as (p2 & H2 & Hck & Hb2 & Hl2 & Hat2); [done|by rewrite Hposi|by rewrite Hposi|lia|cbn; lia|done|cbn; lia|lia|cbn; lia|done|].
  cbn [fs_len] in Hck.
  (* the addresses *)
  destruct (pk_write_fits p2 6 (at_ p2 <$> seqZ 0 6)) as (p3 & Hw3 & Hl3 & Hb3 & Hat3).
  { lia. } { unfold zlen at 1. rewrite length_fmap, length_seqZ. lia. } { done. }
  { apply Forall_fmap, Forall_forall. intros x _. by apply bytes_at. }
  assert (H3 : exec_op hdrs mem args (OP_COPY_FIELD (mkFieldSpec ether 6 6) (mkFieldSpec ether 0 6)) (mkExecState p2 meta next) = Value (mkExecState p3 meta next)).
  { cbn [exec_op fs_len]. rewrite Z.eqb_refl. cbn [negb]. rewrite !Hpos. cbn [mbind outcome_mbind ex_packet].
    rewrite pk_read_at by lia. cbn [mbind outcome_mbind]. by rewrite Hw3. }
  destruct (pk_write_fits p3 0 mac) as (p4 & Hw4 & Hl4 & Hb4 & Hat4); [lia|lia|done|done|].
  assert (H4 : exec_op hdrs mem args (OP_SET_FIELD (mkFieldSpec ether 0 6) 0) (mkExecState p3 meta next) = Value (mkExecState p4 meta next)).
  { cbn [exec_op]. rewrite Ha0. cbn [lift mbind outcome_mbind]. rewrite Hpos. cbn [mbind outcome_mbind fs_len]. unfold asserts. rewrite Z.eqb_refl.
    cbn [mbind outcome_mbind ex_packet]. rewrite Hm. cbn [mbind outcome_mbind]. by rewrite Hw4. }
  exists p4. split.
  - unfold act_ip_fwd, sizeof_iphdr. cbn [ops each]. rewrite H1. cbn [mbind outcome_mbind]. rewrite H2. cbn [mbind outcome_mbind].
    rewrite H3. cbn [mbind outcome_mbind]. rewrite H4. cbn [mbind outcome_mbind exec_op]. rewrite Ha1. cbn [lift mbind outcome_mbind].
    cbn [Z.eqb orb Pos.eqb]. rewrite Hp. done.
  - rewrite Hml in Hat4. assert (Hz6 : zlen (at_ p2 <$> seqZ 0 6) = 6) by done. rewrite Hz6 in Hat3.
    assert (Hz1 : zlen (le_bytes 1 (le_word [at_ packet 22] + -1)) = 1) by done. rewrite Hz1 in Hat1.
    assert (Hkeep : ∀ i, 12 ≤ i < zlen packet → at_ p4 i = at_ p2 i).
    { intros i Hi'. rewrite Hat4, Hat3 by lia. zcmp. }
    constructor.
    + lia.
    + intros i Hi'. rewrite Hat4 by lia. zcmp. f_equal. lia.
    + intros i Hi'. rewrite Hat4, Hat3 by lia. zcmp. unfold at_ at 1.
      rewrite (list_lookup_total_correct _ _ (at_ p2 (i - 6))).
      * rewrite Hat2, Hat1 by lia. zcmp.
      * rewrite list_lookup_fmap, lookup_seqZ_lt by lia. cbn. do 2 f_equal. lia.
    + rewrite Hkeep, Hat2, Hat1 by lia. zcmp. change (22 - 22) with 0. unfold at_ at 1. cbn [le_bytes le_word]. change ((at_ packet 22 + 256 * 0 + -1) mod 256 = (at_ packet 22 - 1) mod 256). f_equal. lia.
    + replace (field_bytes p4 14 20) with (field_bytes p2 14 20); [done|]. apply list_fmap_ext.
      intros j x Hj. apply lookup_seqZ in Hj as [-> Hj]. symmetry. apply Hkeep. lia.
    + intros i Hi' H22 H24 H25. rewrite Hkeep, Hat2, Hat1 by lia. zcmp.
Qed.

(** *** The router

    What the router is after its program has run. *)
Definition router_table : FlowTable := mkFlowTable 0 4 10 (Some 0) MEM_SRAM MATCH_EXACT [mkFieldSpec 1 16 4] false.
Definition router_sram : LogicSram := mkLogicSram (mkBuffer MEM_SRAM 0 0) (mkBuffer MEM_SRAM 0 32) 10 10 257.
Local Abbreviation router_memory := (memory (tables router_global)).
Definition router_executor : Executor := mkExecutor 1 PROC_ID_END 0 PROC_ID_END args_ip_fwd.
Definition router_processor : Processor :=
  mkProcessor router_executor (COND_IS_VALID 1) (NextTable 0) (NextProc PROC_ID_END).

Lemma router_parts :
  router_global.(port_masks) = replicate 8 4294967295 ∧
  rd router_global.(parse_hdrs) 0 = Ok (mkParserHeader 0 14 12 2 [mkNextParserHeader ip_tag_s 1]) ∧
  rd router_global.(parse_hdrs) 1 = Ok (mkParserHeader 1 20 9 1 []) ∧
  rd router_global.(processors) 0 = Ok router_processor ∧
  rd router_global.(flow_tables) 0 = Ok router_table ∧
  rd router_global.(tables).(logic_tables) 0 = Ok (Sram router_sram) ∧
  rd router_global.(actions) 0 = Ok (mkAction []) ∧
  rd router_global.(actions) 1 = Ok (act_ip_fwd 0 1).
Proof. split_and!; vm_compute; reflexivity. Qed.

#[local] Opaque router_global.

(** Where the router sends a destination: the hardware address and the port. *)
Definition router_hop (dst : list Z) : option (list Z * Z) :=
  if bool_decide (dst = ip_addr 1 50) then Some (mac_addr 1 80, 1)
  else if bool_decide (dst = ip_addr 2 50) then Some (mac_addr 2 80, 2)
  else None.

(** The bucket of a destination, and whether one of the two entries is in it. *)
Definition router_bucket (dst : list Z) : Z := bucket router_sram (tag_key router_table router_sram dst).
Definition router_taken (dst : list Z) : bool :=
  (router_bucket dst =? router_bucket (ip_addr 1 50)) || (router_bucket dst =? router_bucket (ip_addr 2 50)).

Lemma router_bits b : 0 ≤ b < 257 →
  bitmap_test router_memory (mkBuffer MEM_SRAM 0 0) b = Value ((b =? 180) || (b =? 168)).
Proof.
  intros Hb. assert (Hall : forallb (λ b, match bitmap_test router_memory (mkBuffer MEM_SRAM 0 0) b with
      Value x => Bool.eqb x ((b =? 180) || (b =? 168)) | _ => false end) (seqZ 0 257) = true) by (vm_compute; reflexivity).
  rewrite forallb_forall in Hall. specialize (Hall b). rewrite <- list_elem_of_In, elem_of_seqZ in Hall. specialize (Hall ltac:(lia)).
  destruct (bitmap_test router_memory (mkBuffer MEM_SRAM 0 0) b); try done. by apply Bool.eqb_prop in Hall as ->.
Qed.

Lemma router_entries :
  router_bucket (ip_addr 1 50) = 180 ∧ router_bucket (ip_addr 2 50) = 168 ∧
  load router_memory (sram_get_entry router_sram 180) 10 = Value (tag_key router_table router_sram (ip_addr 1 50)) ∧
  load router_memory (sram_get_entry router_sram 168) 10 = Value (tag_key router_table router_sram (ip_addr 2 50)) ∧
  load router_memory (mkBuffer MEM_SRAM 0 (32 + 180 * 20 + 10)) 6 = Value (mac_addr 1 80) ∧
  load router_memory (mkBuffer MEM_SRAM 0 (32 + 180 * 20 + 16)) 4 = Value (word32 1) ∧
  load router_memory (mkBuffer MEM_SRAM 0 (32 + 168 * 20 + 10)) 6 = Value (mac_addr 2 80) ∧
  load router_memory (mkBuffer MEM_SRAM 0 (32 + 168 * 20 + 16)) 4 = Value (word32 2).
Proof. split_and!; vm_compute; reflexivity. Qed.

Lemma router_wf : sram_wf router_sram.
Proof. constructor; vm_compute; try done; split; done. Qed.

(** A lookup in the table of the router. *)
Lemma router_lookup dst : zlen dst = 4 →
  flow_match_exact router_table dst router_global.(tables) =
    match router_hop dst with
    | Some _ => Value (router_bucket dst)
    | None => if router_taken dst then Throws (runtime_error "Unsolved hash table conflict") else Value 257
    end.
Proof.
  intros Hd. pose proof router_parts as (_ & _ & _ & _ & _ & Hlt & _). pose proof router_entries as (E1 & E2 & L1 & L2 & _).
  unfold flow_match_exact, logic. cbn [ft_logic_table router_table]. rewrite Hlt.
  cbn [lift mbind outcome_mbind mret outcome_mret].
  rewrite (get_tag_key_ok router_table router_sram) by (done || (cbn; lia)).
  cbn [mbind outcome_mbind match_exact any_table sram_table]. unfold sram_match_exact.
  assert (Hk : zlen (tag_key router_table router_sram dst) = 10).
  { rewrite (tag_key_length router_table router_sram) by (done || (cbn; lia)). done. }
  pose proof (get_bucket_id_ok router_sram router_wf _ Hk) as Hg. change (s_key_len router_sram) with 10 in *. rewrite Hg. cbn [mbind outcome_mbind].
  change (s_bitmap router_sram) with (mkBuffer MEM_SRAM 0 0). change (s_cap router_sram) with 257.
  pose proof (bucket_range router_sram router_wf (tag_key router_table router_sram dst)) as Hr. change (s_cap router_sram) with 257 in Hr.
  rewrite router_bits by done. cbn [mbind outcome_mbind]. rewrite first_bytes_len by done.
  assert (Hinj : ∀ n h, zlen dst = zlen (ip_addr n h) →
    bool_decide (tag_key router_table router_sram (ip_addr n h) = tag_key router_table router_sram dst) = bool_decide (dst = ip_addr n h)).
  { intros n h Hz. apply bool_decide_ext. split; [|by intros ->]. intros Ht. symmetry. by eapply tag_key_inj. }
  unfold router_hop, router_taken. rewrite E1, E2.
  change (bucket router_sram (tag_key router_table router_sram dst)) with (router_bucket dst) in *.
  destruct (Z.eqb_spec (router_bucket dst) 180) as [B1|B1]; cbn [orb].
  { rewrite B1, L1. clear L1 L2. cbn [mbind outcome_mbind]. rewrite Hinj by done. case_bool_decide; [reflexivity|].
    case_bool_decide as H2; [|reflexivity]. exfalso. subst dst. rewrite E2 in B1. discriminate B1. }
  rewrite (bool_decide_eq_false_2 (dst = ip_addr 1 50)) by (intros ->; exact (B1 E1)).
  destruct (Z.eqb_spec (router_bucket dst) 168) as [B2|B2]; cbn [orb].
  { rewrite B2, L2. clear L1 L2. cbn [mbind outcome_mbind]. rewrite Hinj by done. case_bool_decide; reflexivity. }
  rewrite (bool_decide_eq_false_2 (dst = ip_addr 2 50)) by (intros ->; exact (B2 E2)). reflexivity.
Qed.

(** The headers of a packet. *)
Definition is_ip (packet : list Z) : Prop := at_ packet 12 = 8 ∧ at_ packet 13 = 0.
Definition ether_only : list (option BufView) := Some (mkBufView 0 14) :: replicate 31 None.
Definition ether_ip : list (option BufView) := Some (mkBufView 0 14) :: Some (mkBufView 14 20) :: replicate 30 None.

Lemma parse_ip ns fuel packet len :
  rd ns 0 = Ok (mkParserHeader 0 14 12 2 [mkNextParserHeader ip_tag_s 1]) → rd ns 1 = Ok (mkParserHeader 1 20 9 1 []) →
  34 ≤ len ≤ zlen packet → (3 ≤ fuel)%nat →
  (is_ip packet → parse fuel ns packet len = Value ether_ip) ∧
  (¬ is_ip packet → parse fuel ns packet len = Value ether_only).
Proof.
  intros R0 R1 Hlen Hf. destruct fuel as [|[|[|fuel]]]; [lia..|].
  assert (Htag : tag_matches packet (0 + 12) ip_tag_s 2 = Value (bool_decide (is_ip packet))).
  { unfold tag_matches. rewrite pk_read_at by lia. cbn [mbind outcome_mbind].
    change (at_ packet <$> seqZ (0 + 12) 2) with [at_ packet 12; at_ packet 13].
    change (first_bytes (ip_tag_s ++ [0]) 2) with (Value [8; 0]). cbn [mbind outcome_mbind mret outcome_mret]. f_equal.
    apply bool_decide_ext. unfold is_ip. split; [by intros [= -> ->]|by intros [-> ->]]. }
  unfold parse. cbn [parse_from]. change (PARSE_START_ID =? PARSE_NODE_ACCEPT) with false. cbv iota.
  rewrite (proj2 (Z.leb_gt len 0)) by lia. unfold PARSE_START_ID. rewrite R0. cbn [lift mbind outcome_mbind ph_hdr_id ph_hdr_len].
  change (wr no_headers 0 (Some (mkBufView 0 14))) with (Ok ether_only). cbn [lift mbind outcome_mbind ph_type_start ph_type_len ph_next_table next_node nph_tag nph_hdr_id].
  rewrite Htag. cbn [mbind outcome_mbind]. split; intros Hip.
  - rewrite bool_decide_eq_true_2 by done. cbn [mbind outcome_mbind mret outcome_mret]. change (1 =? PARSE_NODE_ACCEPT) with false. cbv iota.
    rewrite (proj2 (Z.leb_gt len _)) by lia. rewrite R1. cbn [lift mbind outcome_mbind ph_hdr_id ph_hdr_len].
    change (wr ether_only 1 (Some (mkBufView (0 + 14) 20))) with (Ok ether_ip). cbn [lift mbind outcome_mbind ph_type_start ph_type_len ph_next_table next_node mret outcome_mret].
    change (PARSE_NODE_ACCEPT =? PARSE_NODE_ACCEPT) with true. reflexivity.
  - rewrite bool_decide_eq_false_2 by done. cbn [mbind outcome_mbind mret outcome_mret].
    change (PARSE_NODE_ACCEPT =? PARSE_NODE_ACCEPT) with true. reflexivity.
Qed.

(** The state after a packet that is sent out on [port], or on none. *)
Definition router_way (packet : list Z) (port : Z) : Way :=
  mkWay (set_meta_data (mkMetaData port 4294967295) router_global) packet.

Definition destination (packet : list Z) : list Z := at_ packet <$> seqZ 30 4.

(** A lookup of the packet at hand. *)
Lemma match_ip g packet len :
  rd g.(flow_tables) 0 = Ok router_table → rd g.(tables).(logic_tables) 0 = Ok (Sram router_sram) → 34 ≤ len ≤ zlen packet →
  matcher_match 0 ether_ip packet g =
    (pos ← flow_match_exact router_table (destination packet) g.(tables);
     mret (if pos =? 257 then None else Some (mkBuffer MEM_SRAM 0 (32 + pos * 20 + 10)), g.(tables))).
Proof.
  intros R L Hlen.
  unfold matcher_match. rewrite R. cbn [lift mbind outcome_mbind].
  assert (Hkey : match_key router_table ether_ip packet g.(meta_data) = Value (destination packet)).
  { unfold match_key. change (ft_key_len router_table <? 0) with false. cbv iota. unfold router_table. cbn [ft_key_fields each ft_key_len].
    unfold load_field. cbn [fs_hdr_id fs_start fs_len]. change (1 =? HDR_ID_META_DATA) with false. cbv iota.
    change (field_pos ether_ip (mkFieldSpec 1 16 4)) with (Value (14 + 16)). cbn [mbind outcome_mbind]. rewrite pk_read_at by lia. reflexivity. }
  rewrite Hkey. cbn [mbind outcome_mbind]. change (ft_match_type router_table) with MATCH_EXACT. cbv iota.
  destruct (flow_match_exact router_table (destination packet) (tables g)) as [pos| | | |]; try reflexivity. cbn [mbind outcome_mbind].
  unfold flow_end_pos, flow_get_val, logic. cbn [ft_logic_table router_table]. rewrite L.
  cbn [lift mbind outcome_mbind mret outcome_mret end_pos get_entry key_len any_table sram_table].
  change (s_cap router_sram) with 257. by destruct (pos =? 257).
Qed.

Lemma set_meta_data_same g : set_meta_data g.(meta_data) g = g.
Proof. by destruct g. Qed.

(** The first processor of the router, in any switch that has its parts. *)
Section router.
Context (g : Global) (packet : list Z) (len : Z) (pf : nat).
Context (R0 : rd g.(parse_hdrs) 0 = Ok (mkParserHeader 0 14 12 2 [mkNextParserHeader ip_tag_s 1])).
Context (R1 : rd g.(parse_hdrs) 1 = Ok (mkParserHeader 1 20 9 1 [])).
Context (Rp : rd g.(processors) 0 = Ok router_processor).
Context (Rf : rd g.(flow_tables) 0 = Ok router_table).
Context (Rl : rd g.(tables).(logic_tables) 0 = Ok (Sram router_sram)).
Context (A0 : rd g.(actions) 0 = Ok (mkAction [])) (A1 : rd g.(actions) 1 = Ok (act_ip_fwd 0 1)).
Context (Hlen : 34 ≤ len ≤ zlen packet) (Hpf : (3 ≤ pf)%nat).

Local Abbreviation result := (process pf router_processor len (mkWay g packet)).

Lemma router_other : ¬ is_ip packet → result = Value (PROC_ID_END, mkWay g packet).
Proof.
  intros Hip. unfold process. cbn [way_global way_packet]. destruct (parse_ip _ pf packet len R0 R1 Hlen Hpf) as [_ E]. rewrite E by done. reflexivity.
Qed.

Lemma router_ip : is_ip packet →
  result =
    (pos ← flow_match_exact router_table (destination packet) g.(tables);
     s ← execute g.(actions) ether_ip g.(tables).(memory) router_executor
           (if pos =? 257 then None else Some (mkBuffer MEM_SRAM 0 (32 + pos * 20 + 10))) packet g.(meta_data);
     mret (s.(ex_next), mkWay (set_meta_data s.(ex_meta) g) s.(ex_packet))).
Proof.
  intros Hip. unfold process. cbn [way_global way_packet]. destruct (parse_ip _ pf packet len R0 R1 Hlen Hpf) as [E _]. rewrite E by done.
  cbn [mbind outcome_mbind]. change (eval_condition router_processor ether_ip) with (Value true). cbn [mbind outcome_mbind].
  change (true_next router_processor) with (NextTable 0). cbv iota. rewrite (match_ip g packet len Rf Rl Hlen).
  destruct (flow_match_exact router_table (destination packet) (tables g)); reflexivity.
Qed.

Lemma router_miss : is_ip packet → flow_match_exact router_table (destination packet) g.(tables) = Value 257 →
  result = Value (PROC_ID_END, mkWay g packet).
Proof.
  intros Hip Hm. rewrite router_ip, Hm by done. cbn [mbind outcome_mbind]. change (257 =? 257) with true. cbv iota.
  unfold execute. change (miss_action router_executor) with 0. rewrite A0.
  cbn [lift mbind outcome_mbind ops each mret outcome_mret ex_next ex_meta ex_packet]. by rewrite set_meta_data_same.
Qed.

Lemma router_hit pos mac port : is_ip packet → bytes packet →
  flow_match_exact router_table (destination packet) g.(tables) = Value pos → pos ≠ 257 →
  load g.(tables).(memory) (mkBuffer MEM_SRAM 0 (32 + pos * 20 + 10)) 6 = Value mac → zlen mac = 6 → bytes mac →
  load g.(tables).(memory) (mkBuffer MEM_SRAM 0 (32 + pos * 20 + 16)) 4 = Value (word32 port) → 0 ≤ port < 4294967296 →
  ∃ packet', result = Value (PROC_ID_END, mkWay (set_meta_data (set_out_port port g.(meta_data)) g) packet') ∧ forwarded packet packet' mac.
Proof.
  intros Hip Hb Hm Hpos Hmac Hml Hmb Hport Hpr. rewrite router_ip, Hm by done. cbn [mbind outcome_mbind]. rewrite (proj2 (Z.eqb_neq _ _) Hpos).
  unfold execute. change (hit_action router_executor) with 1. rewrite A1. cbn [lift mbind outcome_mbind].
  destruct (act_ip_fwd_forwards 0 1 ether_ip g.(tables).(memory)
    (runtime_args router_executor (Some (mkBuffer MEM_SRAM 0 (32 + pos * 20 + 10)))) packet g.(meta_data) (hit_next_proc router_executor)
    (mkBuffer MEM_SRAM 0 (32 + pos * 20 + 10)) (mkBuffer MEM_SRAM 0 (32 + pos * 20 + 16)) mac (word32 port)) as (packet' & -> & Hf);
    [done|lia|done|done| | |done..|].
  { cbn. unfold shift. cbn. do 3 f_equal. lia. }
  { cbn. unfold shift. cbn. do 3 f_equal. lia. }
  exists packet'. split; [|done]. cbn [mbind outcome_mbind mret outcome_mret ex_next ex_meta ex_packet].
  unfold word32. rewrite le_word_bytes. change (256 ^ Z.of_nat 4) with 4294967296. by rewrite Z.mod_small.
Qed.
End router.

Lemma process_one fuel pf len g packet p r :
  rd g.(processors) 0 = Ok p → (1 ≤ fuel)%nat → process pf p len (mkWay g packet) = r →
  (∀ n w, r = Value (n, w) → n = PROC_ID_END) →
  process_from fuel pf len PROC_START (mkWay g packet) = snd <$> r.
Proof.
  intros Hp Hf Hr Hn. destruct fuel as [|fuel]; [lia|]. cbn [process_from]. change (PROC_START =? PROC_ID_END) with false. cbv iota.
  cbn [way_global]. unfold PROC_START. rewrite Hp. cbn [lift mbind outcome_mbind]. rewrite Hr.
  destruct r as [[n w]| | | |]; try reflexivity. rewrite (Hn n w eq_refl). cbn. by destruct fuel.
Qed.

Lemma set_meta_data_parts m g :
  (set_meta_data m g).(parse_hdrs) = g.(parse_hdrs) ∧ (set_meta_data m g).(processors) = g.(processors) ∧
  (set_meta_data m g).(flow_tables) = g.(flow_tables) ∧ (set_meta_data m g).(tables) = g.(tables) ∧
  (set_meta_data m g).(actions) = g.(actions) ∧ (set_meta_data m g).(meta_data) = m ∧
  ∀ m', set_meta_data m' (set_meta_data m g) = set_meta_data m' g.
Proof. by destruct g. Qed.

(** C31. The router end to end.  Let the program of the class have run on the switch as it
    starts, and let a packet of at least 34 bytes come on an interface.  A packet that is
    no Internet packet leaves as it came, for no port.  An Internet packet for one of the
    two hosts leaves for the port of the next hop: it has the hardware address of the
    next hop as its destination, its old destination as its source, a time to live that
    is one less, a header with a right checksum, and is unchanged otherwise.  Any other
    Internet packet is left alone, unless its destination has the bucket of one of the
    two hosts: then the lookup throws. *)
Theorem router_forwards fuel pf packet len i :
  bytes packet → 34 ≤ len ≤ zlen packet → 0 ≤ i < MAX_IF_NUM → (1 ≤ fuel)%nat → (3 ≤ pf)%nat →
  let result := process_packet fuel pf packet len i router_global in
  (¬ is_ip packet → result = Value (router_way packet 0)) ∧
  (is_ip packet →
   match router_hop (destination packet) with
   | Some (mac, port) => ∃ packet', result = Value (router_way packet' port) ∧ forwarded packet packet' mac
   | None =>
       result = if router_taken (destination packet) then Throws (runtime_error "Unsolved hash table conflict")
                else Value (router_way packet 0)
   end).
Proof.
  intros Hb Hlen Hi Hf Hpf result.
  pose proof router_parts as (Pm & R0 & R1 & Rp & Rf & Rl & A0 & A1).
  assert (Hres : result = process_from fuel pf len PROC_START (mkWay (set_meta_data (mkMetaData 0 4294967295) router_global) packet)).
  { unfold result, process_packet. rewrite Pm, rd_at by done. unfold at_. rewrite lookup_total_replicate_2 by (unfold MAX_IF_NUM in Hi; lia). reflexivity. }
  clearbody result.
  destruct (set_meta_data_parts (mkMetaData 0 4294967295) router_global) as (G1 & G2 & G3 & G4 & G5 & G6 & G7).
  pose proof (router_lookup (destination packet) eq_refl) as Hl.
  pose proof router_entries as (E1 & E2 & _ & _ & M1 & P1 & M2 & P2).
  rewrite <- G1 in R0, R1. rewrite <- G2 in Rp. rewrite <- G3 in Rf. rewrite <- G5 in A0, A1. rewrite <- G4 in Rl, Hl, M1, P1, M2, P2.
  assert (Hway : ∀ p port, router_way p port =
    mkWay (set_meta_data (mkMetaData port 4294967295) (set_meta_data (mkMetaData 0 4294967295) router_global)) p)
    by (intros p port; rewrite G7; reflexivity).
  clear G1 G2 G3 G4 G5 G7 Pm. revert Hway Hres R0 R1 Rp Rf Rl A0 A1 G6 Hl M1 P1 M2 P2.
  generalize (set_meta_data (mkMetaData 0 4294967295) router_global) as g.
  generalize router_way as way. intros way g Hway Hres R0 R1 Rp Rf Rl A0 A1 G6 Hl M1 P1 M2 P2.
  assert (Hsame : set_meta_data (mkMetaData 0 4294967295) g = g) by (rewrite <- G6; apply set_meta_data_same).
  assert (Hone : ∀ r, process pf router_processor len (mkWay g packet) = r →
    (∀ n w, r = Value (n, w) → n = PROC_ID_END) → result = snd <$> r).
  { intros r Hr Hn. rewrite Hres. by apply process_one with (p := router_processor). }
  split; intros Hip.
  - rewrite Hway, Hsame. rewrite (Hone (Value (PROC_ID_END, mkWay g packet))); [reflexivity|by apply router_other|by intros n w [= <- _]].
  - assert (Hhit : ∀ b mac port, router_bucket (destination packet) = b → b ≠ 257 →
      flow_match_exact router_table (destination packet) g.(tables) = Value (router_bucket (destination packet)) →
      load g.(tables).(memory) (mkBuffer MEM_SRAM 0 (32 + b * 20 + 10)) 6 = Value mac → zlen mac = 6 → bytes mac →
      load g.(tables).(memory) (mkBuffer MEM_SRAM 0 (32 + b * 20 + 16)) 4 = Value (word32 port) → 0 ≤ port < 4294967296 →
      ∃ packet', result = Value (way packet' port) ∧ forwarded packet packet' mac).
    { intros b mac port <- Hb' Hm Hmac Hz Hbm Hport Hr.
      destruct (router_hit g packet len pf R0 R1 Rf Rl A1 Hlen Hpf _ mac port Hip Hb Hm Hb' Hmac Hz Hbm Hport Hr) as (packet' & Hp & Hfw).
      exists packet'. split; [|done]. rewrite (Hone _ Hp) by (by intros n w [= <- _]). by rewrite Hway, G6. }
    unfold router_hop in *. destruct (bool_decide_reflect (destination packet = ip_addr 1 50)) as [D1|D1].
    { apply (Hhit 180 (mac_addr 1 80) 1); [rewrite D1; exact E1|clear; lia|exact Hl|exact M1|reflexivity|clear; by repeat constructor|exact P1|clear; lia]. }
    destruct (bool_decide_reflect (destination packet = ip_addr 2 50)) as [D2|D2].
    { apply (Hhit 168 (mac_addr 2 80) 2); [rewrite D2; exact E2|clear; lia|exact Hl|exact M2|reflexivity|clear; by repeat constructor|exact P2|clear; lia]. }
    rewrite Hway, Hsame. destruct (router_taken (destination packet)).
    + rewrite (Hone (Throws (runtime_error "Unsolved hash table conflict"))); [reflexivity| |done].
      rewrite router_ip by done. by rewrite Hl.
    + rewrite (Hone (Value (PROC_ID_END, mkWay g packet))); [reflexivity|by apply router_miss|by intros n w [= <- _]].
Qed.

(** A packet from 10.0.2.50 for 10.0.1.50. *)
Definition demo_routed : list Z :=
  mac_addr 9 9 ++ mac_addr 2 80 ++ ip_tag_s ++
  [69; 0; 0; 20; 0; 0; 0; 0; 64; 17; 0; 0] ++ ip_addr 2 50 ++ ip_addr 1 50.

Lemma router_forwards_witness :
  ∃ packet', process_packet 1 3 demo_routed 34 1 router_global = Value (router_way packet' 1) ∧
    forwarded demo_routed packet' (mac_addr 1 80).
Proof.
  destruct (router_forwards 1 3 demo_routed 34 1) as [_ H].
  - cbv [demo_routed mac_addr ip_addr ip_tag_s app]. repeat (apply Forall_cons_2; [lia|]). apply Forall_nil_2.
  - by vm_compute.
  - by vm_compute.
  - lia.
  - lia.
  - apply H. split; reflexivity.
Defined.
