(* ===== verification/OldLexer.v ===== *)
(** * The old compiler: the lexer (rp4c-old/src/parser/lex.l)

    The rules of the first compiler's lexer; flex chooses between them as between those of
    the later one (Lexer.v), whose [scan] runs them. *)

From stdpp Require Import base numbers list strings.
From Stdlib Require Import ZArith Lia Ascii.
From S2P Require Import Prelude TableKey Json Lexer.

#[local] Open Scope Z_scope.

(** ** Tokens (yacc.y); a character that is a token of its own is [Single].  No rule of the
    grammar has a number with a point, its value is left out. *)
Inductive token : Set :=
| INCLUDE | STREAM | PACKET_SEG | PACKET
| HEADERS | HDR | BIT | IMPLICIT | PARSER | DEFAULT | FUNC | ACCEPT
| STRUCTS | STRUCT | REGISTER
| HEADER_SEQUENCE
| ACTIONS | ACTION | GOTO
| TABLES | TABLE | EXACT | TERNARY | LPM | KEY | SIZE
| CONTROL | STAGE | MATCHER | EXECUTOR
| EQU | NEQ | LEQ | GEQ | T_EOF
| IDENTIFIER (sv_str : string) | VALUE_STRING (sv_str : string)
| VALUE_INT (sv_int : Z) | VALUE_FLOAT
| Single (c : ascii).
#[export] Instance old_token_eq_dec : EqDecision token.
Proof. solve_decision. Defined.

Definition old_single_op (c : ascii) : bool := bool_decide (c ∈ text ";(),*=><.:#[]{}").

(** A pattern that ends with the line. *)
Definition to_end_of_line (p : string) (s : chars) : option nat :=
  n ← literal p s; Some (n + span (λ c, negb (bool_decide (c = "010"%char))) (drop n s))%nat.
Definition value_float (s : chars) : option nat :=
  n ← value_int s;
  match drop n s with "."%char :: s' => Some (S n + span is_digit s')%nat | _ => None end.

Definition old_keywords : list (string * token) :=
  [("include", INCLUDE); ("stream", STREAM); ("packet_seg", PACKET_SEG); ("packet", PACKET); ("headers", HEADERS); ("hdr", HDR);
   ("bit", BIT); ("implicit", IMPLICIT); ("parser", PARSER); ("default", DEFAULT); ("func", FUNC); ("accept", ACCEPT);
   ("structs", STRUCTS); ("struct", STRUCT); ("register", REGISTER); ("header_sequence", HEADER_SEQUENCE); ("actions", ACTIONS);
   ("action", ACTION); ("goto", GOTO); ("tables", TABLES); ("table", TABLE); ("exact", EXACT); ("ternary", TERNARY); ("lpm", LPM);
   ("key", KEY); ("size", SIZE); ("control", CONTROL); ("stage", STAGE); ("matcher", MATCHER); ("executor", EXECUTOR)]%string.
Definition old_operators : list (string * token) := [(">=", GEQ); ("<=", LEQ); ("!=", NEQ); ("==", EQU)]%string.

Definition old_layout_rules : list (rule token) :=
  [(literal "/*", λ _, Begin_comment); (to_end_of_line "//", λ _, Ignore); (to_end_of_line "#include", λ _, Ignore);
   (white_space, λ _, Ignore); (new_line, λ _, Ignore)].
Definition old_single_rule : rule token :=
  (λ s, match s with c :: _ => if old_single_op c then Some 1%nat else None | [] => None end,
   λ s, match s with c :: _ => Return (Single c) | [] => Unexpected end).
Definition old_value_rules : list (rule token) :=
  [(identifier, λ s, Return (IDENTIFIER (string_of_chars s)));
   (value_int, λ s, Return (VALUE_INT (atoi s)));
   (hex_int, λ s, Return (VALUE_INT (strtol 16 (drop 2 s))));
   (bin_int, λ s, Return (VALUE_INT (strtol 2 (drop 2 s))));
   (value_float, λ _, Return VALUE_FLOAT);
   (value_string, λ s, Return (VALUE_STRING (string_of_chars (take (length s - 2) (drop 1 s)))));
   (λ s, match s with [] => None | _ => Some 1%nat end, λ _, Unexpected)].
Definition old_rules : list (rule token) :=
  old_layout_rules ++ (word <$> old_keywords) ++ (word <$> old_operators) ++ old_single_rule :: old_value_rules.

Definition old_lex (s : chars) : list token := scan old_rules T_EOF (S (length s)) s.

Lemma old_demo_lex :
  old_lex (text "#include <core.rp4> /* 1" ++ "010"%char :: text "bit<0x30> x2; /* a *b */ default: packet_seg 1.5 != -12 'ab' / // end") =
    [BIT; Single "<"; VALUE_INT 48; Single ">"; IDENTIFIER "x2"; Single ";"; DEFAULT; Single ":"; PACKET_SEG; VALUE_FLOAT; NEQ; VALUE_INT (-12);
     VALUE_STRING "ab"; T_EOF].
Proof. vm_compute. reflexivity. Qed.

(** The fuel is enough: the text is read to its end, a token at a time. *)
Lemma value_float_positive {T : Set} (act : chars → LexAction T) : positive_rule (value_float, act).
Proof.
  intros s n H. cbn in H. unfold value_float in H. destruct (value_int s) as [k|] eqn:E; [|done]. destruct (value_int_positive act s k E) as [_ Hs].
  split; [|done]. cbn in H. repeat match goal with H : context [match ?x with _ => _ end] |- _ => destruct x; try discriminate H end; injection H as <-; lia.
Qed.

Lemma old_rules_positive : Forall positive_rule old_rules.
Proof.
  unfold old_rules, old_layout_rules, old_value_rules, old_single_rule, to_end_of_line. rewrite !Forall_app.
  split_and!; each_rule; first [rule_positive | apply value_float_positive].
Qed.

Lemma old_lex_step s :
  old_lex s = match choose old_rules s None with
              | None => [T_EOF]
              | Some (n, act) =>
                  match act (take n s) with
                  | Return t => t :: old_lex (drop n s)
                  | Begin_comment => old_lex (end_comment (drop n s))
                  | Ignore | Unexpected => old_lex (drop n s)
                  end
              end.
Proof. apply scan_step, old_rules_positive. Qed.
