(* ===== verification/OldCompiler.v ===== *)
(** * The old compiler: the tree of a program and its JSON
    (rp4c-old/src/parser/ast.h, rp4c-old/src/backend/json_emitter.h, rp4c-old/src/main.cpp)

    The first compiler prints the tree of a program as JSON, with numbers for headers and
    structs and offsets for fields.  It does so in one pass that carries a context; here is
    the pass, and that its output is what one reads off the tree without a context: the
    number of a header is its place, the offset of a field the length of the fields before
    it — and the offset of an action's argument the length of the arguments of all actions
    before it too. *)

From stdpp Require Import base numbers list gmap strings.
From Stdlib Require Import ZArith Lia.
From S2P Require Import Prelude OldMemory P4Program.

#[local] Open Scope Z_scope.

(** ** The tree (ast.h) *)
Inductive MatchType : Set := MATCH_EXACT | MATCH_TERNARY | MATCH_LPM.
Inductive BinaryOp : Set := OP_EQ | OP_NE | OP_LT | OP_GT | OP_LE | OP_GE.

Definition match_type_text (t : MatchType) : string :=
  match t with MATCH_EXACT => "EXACT" | MATCH_TERNARY => "TERNARY" | MATCH_LPM => "LPM" end.
Definition binary_op_text (op : BinaryOp) : string :=
  match op with OP_EQ => "==" | OP_NE => "!=" | OP_LT => "<" | OP_GT => ">" | OP_LE => "<=" | OP_GE => ">=" end.

Inductive FieldType : Set :=
| BitType (len : Z)
| RegisterType (type : FieldType) (size : Z)
| NamedType (type_name : string).

Record FieldDef : Set := mkFieldDef { fd_type : FieldType; fd_name : string }.

(** The entry [default: accept] has the key -1 and no name. *)
Record NextTableEntry : Set := mkNextTableEntry { nt_key : Z; nt_val : string }.
Record NextTable : Set := mkNextTable { tag_name : string; nt_table : list NextTableEntry }.
Record HeaderDef : Set := mkHeaderDef { hd_name : string; hd_fields : list FieldDef; next_table : NextTable }.
Record StructDef : Set := mkStructDef { type_name : string; sd_fields : list FieldDef; var_name : string }.
Record HeaderSequence : Set := mkHeaderSequence { hs_fields : list FieldDef; hs_name : string }.

(** A pointer that can be null is an option. *)
Inductive Expr : Set :=
| IntLit (val : Z)
| BinaryExpr (op : BinaryOp) (lhs rhs : Expr)
| MemberOf (recv : option Expr) (name : string)
| CallExpr (caller : Expr) (params : list Expr).

Inductive Stmt : Set :=
| ExprStmt (expr : Expr)
| GotoStmt (tag : string)
| AssignStmt (lhs rhs : Expr).

Record ActionDef : Set := mkActionDef { ad_name : string; ad_args : list FieldDef; stmts : list (option Stmt) }.
Record MatchKey : Set := mkMatchKey { mk_key : Expr; match_type : MatchType }.
Record TableDef : Set := mkTableDef { td_name : string; match_keys : list MatchKey; td_size : Z }.

Inductive MatcherDef : Set :=
| MatcherDefTable (table_name : string)
| MatcherDefCond (conds : list Expr).

Record StageDef : Set := mkStageDef {
  st_name : string;
  st_parser : string;
  st_matcher : MatcherDef;
  st_executor : list (Z * string)
}.
Record ControlDef : Set := mkControlDef { cd_name : string; stages : list StageDef }.

Record RP4AST : Set := mkRP4AST {
  headers_def : list HeaderDef;
  structs_def : list StructDef;
  header_seq : HeaderSequence;
  actions_def : list ActionDef;
  tables_def : list TableDef;
  controls_def : list ControlDef
}.

(** ** JSON objects

    [out[k] = v]: the members are kept in the order of their names. *)
Fixpoint put (k : string) (v : json) (d : list (string * json)) : list (string * json) :=
  match d with
  | [] => [(k, v)]
  | (k', v') :: d' =>
      match String.compare k k' with
      | Eq => (k, v) :: d'
      | Lt => (k, v) :: d
      | Gt => (k', v') :: put k v d'
      end
  end.

(** The assignments to the members of a value that was null. *)
Definition obj (l : list (string * json)) : json := JsonObject (fold_left (λ d kv, put kv.1 kv.2 d) l []).

(** ** The context *)
Record Context : Type := mkContext { field_offset : Z; headers : gmap string Z; var_id : Z }.

Definition set_offset (x : Z) (c : Context) : Context := mkContext x c.(headers) c.(var_id).
Definition set_headers (x : gmap string Z) (c : Context) : Context := mkContext c.(field_offset) x c.(var_id).
Definition set_var_id (x : Z) (c : Context) : Context := mkContext c.(field_offset) c.(headers) x.

(** [ctx.headers[name]]: a name that is not there gets the number zero. *)
Definition header_ref (name : string) (c : Context) : Z * Context :=
  match c.(headers) !! name with
  | Some id => (id, c)
  | None => (0, set_headers (<[name := 0]> c.(headers)) c)
  end.

(** ** The pass (JsonEmitter::visit) *)
Section emitter.
(** What variables hold that nothing was stored in: the offset before the first field,
    and the length and the size of a field of a named type. *)
Context (unset_offset unset_len unset_size : Z).

Fixpoint visit_all {A} (visit : A → Context → outcome (json * Context)) (l : list A) (c : Context) :
    outcome (list json * Context) :=
  match l with
  | [] => mret ([], c)
  | x :: l' =>
      '(j, c) ← visit x c;
      '(js, c) ← visit_all visit l' c;
      mret (j :: js, c)
  end.

(** The build of the README leaves assertions out: the cast of a type that is no [bit] is
    a null pointer. *)
Definition visit_field (f : FieldDef) (c : Context) : outcome (json * Context) :=
  '(type, len, size) ←
    match f.(fd_type) with
    | BitType len => mret ("bit"%string, len, -1)
    | RegisterType (BitType len) size => mret ("register"%string, len, size)
    | RegisterType _ _ => Undefined NullDeref
    | NamedType _ => mret (""%string, unset_len, unset_size)
    end;
  mret (obj [("name"%string, JsonString f.(fd_name)); ("type"%string, JsonString type); ("length"%string, JsonInt len);
             ("offset"%string, JsonInt c.(field_offset)); ("size"%string, JsonInt size)],
        set_offset (i32 (c.(field_offset) + len)) c).

Definition visit_next (e : NextTableEntry) (c : Context) : outcome (json * Context) :=
  let '(id, c) := header_ref e.(nt_val) c in
  mret (obj [("tag"%string, JsonInt e.(nt_key)); ("next_header"%string, JsonString e.(nt_val)); ("next_header_id"%string, JsonInt id)], c).

(** The entries with the key -1 are passed over. *)
Definition visit_next_table (t : NextTable) (c : Context) : outcome (json * Context) :=
  '(js, c) ← visit_all visit_next (filter (λ e, e.(nt_key) ≠ -1) t.(nt_table)) c;
  mret (obj [("field"%string, JsonString t.(tag_name)); ("transition"%string, JsonArray js)], c).

Definition visit_header (h : HeaderDef) (c : Context) : outcome (json * Context) :=
  let '(id, c) := header_ref h.(hd_name) c in
  '(fields, c) ← visit_all visit_field h.(hd_fields) (set_offset 0 c);
  '(parser, c) ← visit_next_table h.(next_table) (set_offset 0 c);
  mret (obj [("name"%string, JsonString h.(hd_name)); ("id"%string, JsonInt id); ("fields"%string, JsonArray fields);
             ("parser"%string, parser)], c).

Definition visit_struct (s : StructDef) (c : Context) : outcome (json * Context) :=
  let id := c.(var_id) in
  '(fields, c) ← visit_all visit_field s.(sd_fields) (set_offset 0 (set_var_id (i32 (id + 1)) c));
  mret (obj [("name"%string, JsonString s.(type_name)); ("id"%string, JsonInt id); ("alias"%string, JsonString s.(var_name));
             ("fields"%string, JsonArray fields)], set_offset 0 c).

(** The other nodes do not touch the context. *)
Fixpoint visit_list {A} (visit : A → outcome json) (l : list A) : outcome (list json) :=
  match l with
  | [] => mret []
  | x :: l' => j ← visit x; js ← visit_list visit l'; mret (j :: js)
  end.

(** A call is no value. *)
Definition unexpected {A} : outcome A := Throws (runtime_error "Unexpected node type").

Fixpoint visit_expr (e : Expr) : outcome json :=
  match e with
  | IntLit val => mret (obj [("type"%string, JsonString "int"); ("val"%string, JsonInt val)])
  | BinaryExpr op lhs rhs =>
      l ← visit_expr lhs;
      r ← visit_expr rhs;
      mret (obj [("op"%string, JsonString (binary_op_text op)); ("lhs"%string, l); ("rhs"%string, r)])
  | MemberOf recv name =>
      r ← match recv with None => mret JsonNull | Some x => visit_expr x end;
      mret (obj [("type"%string, JsonString "member_of"); ("recv"%string, r); ("name"%string, JsonString name)])
  | CallExpr _ _ => unexpected
  end.

(** An expression that stands alone has to be the call of a member. *)
Definition visit_stmt (s : option Stmt) : outcome json :=
  match s with
  | None => mret JsonNull
  | Some (GotoStmt tag) => mret (obj [("op"%string, JsonString "goto"); ("tag"%string, JsonString tag)])
  | Some (ExprStmt (CallExpr (MemberOf _ name) params)) =>
      args ← visit_list visit_expr params;
      mret (obj [("op"%string, JsonString name); ("args"%string, JsonArray args)])
  | Some (ExprStmt _) => Undefined NullDeref
  | Some (AssignStmt lhs rhs) =>
      l ← visit_expr lhs;
      r ← visit_expr rhs;
      mret (obj [("type"%string, JsonString "assign"); ("lhs"%string, l); ("rhs"%string, r)])
  end.

(** The offset goes on from one action to the next. *)
Definition visit_action (a : ActionDef) (c : Context) : outcome (json * Context) :=
  '(args, c) ← visit_all visit_field a.(ad_args) c;
  ops ← visit_list visit_stmt a.(stmts);
  mret (obj [("name"%string, JsonString a.(ad_name)); ("args"%string, JsonArray args); ("ops"%string, JsonArray ops)], c).

Definition visit_key (k : MatchKey) : outcome json :=
  name ← visit_expr k.(mk_key);
  mret (obj [("name"%string, name); ("match_type"%string, JsonString (match_type_text k.(match_type)))]).

Definition visit_table (t : TableDef) : outcome json :=
  keys ← visit_list visit_key t.(match_keys);
  mret (obj [("name"%string, JsonString t.(td_name)); ("size"%string, JsonInt t.(td_size)); ("keys"%string, JsonArray keys)]).

Definition visit_matcher (m : MatcherDef) : outcome json :=
  match m with
  | MatcherDefTable table_name => mret (obj [("type"%string, JsonString "table"); ("name"%string, JsonString table_name)])
  | MatcherDefCond conds =>
      js ← visit_list visit_expr conds;
      mret (obj [("type"%string, JsonString "condition"); ("conds"%string, JsonArray js)])
  end.

(** The pair of a number and a name in two braces is an array in an array. *)
Definition executor_entry (e : Z * string) : json := JsonArray [JsonArray [JsonInt e.1; JsonString e.2]].

Definition visit_stage (s : StageDef) : outcome json :=
  m ← visit_matcher s.(st_matcher);
  mret (obj [("name"%string, JsonString s.(st_name)); ("parser"%string, JsonString s.(st_parser)); ("matcher"%string, m);
             ("executor"%string, JsonArray (executor_entry <$> s.(st_executor)))]).

Definition visit_control (x : ControlDef) : outcome json :=
  js ← visit_list visit_stage x.(stages);
  mret (obj [("name"%string, JsonString x.(cd_name)); ("stages"%string, JsonArray js)]).

(** The headers are numbered before the first is visited. *)
Definition number_header (c : Context) (h : HeaderDef) : Context :=
  set_var_id (i32 (c.(var_id) + 1)) (set_headers (<[h.(hd_name) := c.(var_id)]> c.(headers)) c).

Definition visit_program (t : RP4AST) (c : Context) : outcome json :=
  let c := fold_left number_header t.(headers_def) (set_var_id 0 c) in
  '(hs, c) ← visit_all visit_header t.(headers_def) c;
  '(ss, c) ← visit_all visit_struct t.(structs_def) c;
  '(acs, c) ← visit_all visit_action t.(actions_def) c;
  ts ← visit_list visit_table t.(tables_def);
  cs ← visit_list visit_control t.(controls_def);
  mret (obj [("headers"%string, JsonArray hs); ("structs"%string, JsonArray ss); ("actions"%string, JsonArray acs);
             ("tables"%string, JsonArray ts); ("controls"%string, JsonArray cs)]).

(** The main program writes the value of whatever tree the parser has left: after a
    syntax error there is none. *)
Definition emit (tree : option RP4AST) : outcome json :=
  match tree with
  | None => mret JsonNull
  | Some t => visit_program t (mkContext unset_offset ∅ 0)
  end.

(** ** The output without a context *)
Definition field_len (f : FieldDef) : Z :=
  match f.(fd_type) with BitType len | RegisterType (BitType len) _ => len | _ => 0 end.

(** A [bit], or a register of [bit]s. *)
Definition plain (f : FieldDef) : bool :=
  match f.(fd_type) with BitType _ | RegisterType (BitType _) _ => true | _ => false end.

Definition lengths (l : list FieldDef) : Z := sum_of_map field_len l.

Definition field_json (offset : Z) (f : FieldDef) : json :=
  JsonObject [("length"%string, JsonInt (field_len f)); ("name"%string, JsonString f.(fd_name)); ("offset"%string, JsonInt offset);
              ("size"%string, JsonInt (match f.(fd_type) with RegisterType _ size => size | _ => -1 end));
              ("type"%string, JsonString (match f.(fd_type) with BitType _ => "bit" | RegisterType _ _ => "register" | NamedType _ => "" end))].

(** Field number [i] begins where the fields before it end. *)
Definition fields_json (start : Z) (l : list FieldDef) : list json := imap (λ i f, field_json (i32 (start + lengths (take i l))) f) l.

(** The place of a header; a name that no header has counts for the first. *)
Definition header_number (hs : list HeaderDef) (name : string) : Z :=
  match list_find (λ h, h.(hd_name) = name) hs with Some (i, _) => Z.of_nat i | None => 0 end.

Definition transition_json (hs : list HeaderDef) (e : NextTableEntry) : json :=
  JsonObject [("next_header"%string, JsonString e.(nt_val)); ("next_header_id"%string, JsonInt (header_number hs e.(nt_val)));
              ("tag"%string, JsonInt e.(nt_key))].

Definition header_json (hs : list HeaderDef) (i : nat) (h : HeaderDef) : json :=
  JsonObject [("fields"%string, JsonArray (fields_json 0 h.(hd_fields))); ("id"%string, JsonInt (Z.of_nat i));
              ("name"%string, JsonString h.(hd_name));
              ("parser"%string, JsonObject [("field"%string, JsonString h.(next_table).(tag_name));
                 ("transition"%string, JsonArray (transition_json hs <$> filter (λ e, e.(nt_key) ≠ -1) h.(next_table).(nt_table)))])].

Definition struct_json (first : Z) (i : nat) (s : StructDef) : json :=
  JsonObject [("alias"%string, JsonString s.(var_name)); ("fields"%string, JsonArray (fields_json 0 s.(sd_fields)));
              ("id"%string, JsonInt (first + Z.of_nat i)); ("name"%string, JsonString s.(type_name))].

(** What an expression, a statement, a table and a control say, and which have a JSON: a
    call has none within an expression, and a statement that is only an expression has to
    call a name or a member. *)
Fixpoint has_json (e : Expr) : bool :=
  match e with
  | IntLit _ => true
  | BinaryExpr _ lhs rhs => has_json lhs && has_json rhs
  | MemberOf recv _ => match recv with None => true | Some x => has_json x end
  | CallExpr _ _ => false
  end.

Fixpoint expr_json (e : Expr) : json :=
  match e with
  | IntLit val => JsonObject [("type"%string, JsonString "int"); ("val"%string, JsonInt val)]
  | BinaryExpr op lhs rhs =>
      JsonObject [("lhs"%string, expr_json lhs); ("op"%string, JsonString (binary_op_text op)); ("rhs"%string, expr_json rhs)]
  | MemberOf recv name =>
      JsonObject [("name"%string, JsonString name); ("recv"%string, match recv with None => JsonNull | Some x => expr_json x end);
                  ("type"%string, JsonString "member_of")]
  | CallExpr _ _ => JsonNull
  end.

Definition stmt_has_json (s : option Stmt) : bool :=
  match s with
  | None | Some (GotoStmt _) => true
  | Some (ExprStmt (CallExpr (MemberOf _ _) params)) => forallb has_json params
  | Some (ExprStmt _) => false
  | Some (AssignStmt lhs rhs) => has_json lhs && has_json rhs
  end.

Definition stmt_json (s : option Stmt) : json :=
  match s with
  | Some (GotoStmt tag) => JsonObject [("op"%string, JsonString "goto"); ("tag"%string, JsonString tag)]
  | Some (ExprStmt (CallExpr (MemberOf _ name) params)) =>
      JsonObject [("args"%string, JsonArray (expr_json <$> params)); ("op"%string, JsonString name)]
  | Some (AssignStmt lhs rhs) => JsonObject [("lhs"%string, expr_json lhs); ("rhs"%string, expr_json rhs); ("type"%string, JsonString "assign")]
  | _ => JsonNull
  end.

Definition key_json (k : MatchKey) : json :=
  JsonObject [("match_type"%string, JsonString (match_type_text k.(match_type))); ("name"%string, expr_json k.(mk_key))].

Definition table_json (t : TableDef) : json :=
  JsonObject [("keys"%string, JsonArray (key_json <$> t.(match_keys))); ("name"%string, JsonString t.(td_name)); ("size"%string, JsonInt t.(td_size))].

Definition matcher_json (m : MatcherDef) : json :=
  match m with
  | MatcherDefTable table_name => JsonObject [("name"%string, JsonString table_name); ("type"%string, JsonString "table")]
  | MatcherDefCond conds => JsonObject [("conds"%string, JsonArray (expr_json <$> conds)); ("type"%string, JsonString "condition")]
  end.

Definition stage_json (s : StageDef) : json :=
  JsonObject [("executor"%string, JsonArray ((λ e, JsonArray [JsonArray [JsonInt e.1; JsonString e.2]]) <$> s.(st_executor)));
              ("matcher"%string, matcher_json s.(st_matcher)); ("name"%string, JsonString s.(st_name)); ("parser"%string, JsonString s.(st_parser))].

Definition control_json (x : ControlDef) : json :=
  JsonObject [("name"%string, JsonString x.(cd_name)); ("stages"%string, JsonArray (stage_json <$> x.(stages)))].

(** The arguments of an action begin where those of the action before it end. *)
Definition action_json (start : Z) (a : ActionDef) : json :=
  JsonObject [("args"%string, JsonArray (fields_json start a.(ad_args))); ("name"%string, JsonString a.(ad_name));
              ("ops"%string, JsonArray (stmt_json <$> a.(stmts)))].

Fixpoint actions_json (start : Z) (l : list ActionDef) : list json :=
  match l with
  | [] => []
  | a :: l' => action_json start a :: actions_json (i32 (start + lengths a.(ad_args))) l'
  end.

Definition first_argument (t : RP4AST) : Z :=
  match t.(headers_def), t.(structs_def) with [], [] => unset_offset | _, _ => 0 end.

Definition program_json (t : RP4AST) : json :=
  JsonObject [("actions"%string, JsonArray (actions_json (first_argument t) t.(actions_def)));
              ("controls"%string, JsonArray (control_json <$> t.(controls_def)));
              ("headers"%string, JsonArray (imap (header_json t.(headers_def)) t.(headers_def)));
              ("structs"%string, JsonArray (imap (struct_json (zlen t.(headers_def))) t.(structs_def)));
              ("tables"%string, JsonArray (table_json <$> t.(tables_def)))].

(** The program has a JSON: all its expressions and statements have one. *)
Definition matcher_has_json (m : MatcherDef) : bool :=
  match m with MatcherDefTable _ => true | MatcherDefCond conds => forallb has_json conds end.

Definition program_has_json (t : RP4AST) : bool :=
  forallb (λ a, forallb stmt_has_json a.(stmts)) t.(actions_def) &&
  forallb (λ x, forallb (λ k, has_json k.(mk_key)) x.(match_keys)) t.(tables_def) &&
  forallb (λ x, forallb (λ s, matcher_has_json s.(st_matcher)) x.(stages)) t.(controls_def).

(** The types of all fields, and the names and the count of the headers; what is in the
    offset at first is some [int]. *)
Record program_ok (t : RP4AST) : Prop := {
  po_offset : - 2147483648 ≤ unset_offset < 2147483648;
  po_count : zlen t.(headers_def) + zlen t.(structs_def) < 2147483648;
  po_headers : Forall (λ h, forallb plain h.(hd_fields) = true) t.(headers_def);
  po_structs : Forall (λ s, forallb plain s.(sd_fields) = true) t.(structs_def);
  po_actions : Forall (λ a, forallb plain a.(ad_args) = true) t.(actions_def);
  po_names : NoDup (hd_name <$> t.(headers_def))
}.

Lemma i32_range x : - 2147483648 ≤ i32 x < 2147483648.
Proof. unfold i32. pose proof (Z.mod_pos_bound (x + 2147483648) 4294967296). lia. Qed.

Lemma i32_add x y : i32 (i32 x + y) = i32 (x + y).
Proof.
  unfold i32. replace ((x + 2147483648) mod 4294967296 - 2147483648 + y + 2147483648) with ((x + 2147483648) mod 4294967296 + y) by lia.
  rewrite Zplus_mod_idemp_l. do 2 f_equal. lia.
Qed.

Definition in_range (c : Context) : Prop := i32 c.(field_offset) = c.(field_offset).

Lemma i32_idemp x : i32 (i32 x) = i32 x.
Proof. apply i32_small, i32_range. Qed.

Lemma fields_json_cons start f l :
  i32 start = start → fields_json start (f :: l) = field_json start f :: fields_json (i32 (start + field_len f)) l.
Proof.
  intros Hs. unfold fields_json. rewrite imap_cons. f_equal.
  - rewrite <- Hs at 2. do 2 f_equal. unfold lengths. cbn. lia.
  - apply imap_ext. intros i x _. rewrite i32_add. unfold lengths. cbn. do 2 f_equal. lia.
Qed.

Lemma visit_fields l c : forallb plain l = true → in_range c →
  visit_all visit_field l c = Value (fields_json c.(field_offset) l, set_offset (i32 (c.(field_offset) + lengths l)) c).
Proof.
  revert c. induction l as [|f l IH]; intros c Hp Hr; cbn [visit_all].
  - unfold lengths. cbn. rewrite Z.add_0_r, Hr. by destruct c.
  - cbn [forallb] in Hp. apply andb_true_iff in Hp as [Hf Hl].
    assert (Hv : visit_field f c = Value (field_json c.(field_offset) f, set_offset (i32 (c.(field_offset) + field_len f)) c)).
    { unfold visit_field, field_json, field_len, plain in *. by destruct (fd_type f) as [|[] ?|]. }
    rewrite Hv. cbn [mbind outcome_mbind]. rewrite IH by (first [done | apply i32_idemp]).
    cbn [mbind outcome_mbind mret outcome_mret set_offset field_offset]. rewrite fields_json_cons by done.
    unfold set_offset, lengths. cbn [headers var_id field_offset sum_of_map]. rewrite i32_add. do 4 f_equal. lia.
Qed.

(** The numbers the context has for the headers. *)
Definition agrees (hs : list HeaderDef) (c : Context) : Prop := ∀ name, default 0 (c.(headers) !! name) = header_number hs name.

Lemma header_ref_agrees hs name c id c' :
  agrees hs c → header_ref name c = (id, c') →
  id = header_number hs name ∧ agrees hs c' ∧ c'.(field_offset) = c.(field_offset) ∧ c'.(var_id) = c.(var_id).
Proof.
  intros Hc. unfold header_ref. destruct (headers c !! name) as [n|] eqn:E; intros [= <- <-].
  - by rewrite <- Hc, E.
  - split_and!; [by rewrite <- Hc, E| |done|done]. intros x. cbn. destruct (decide (name = x)) as [<-|Hne].
    + rewrite lookup_insert_eq. by rewrite <- Hc, E.
    + rewrite lookup_insert_ne by done. apply Hc.
Qed.

Lemma visit_transitions hs l c : agrees hs c →
  ∃ c', visit_all visit_next l c = Value (transition_json hs <$> l, c') ∧
    agrees hs c' ∧ c'.(field_offset) = c.(field_offset) ∧ c'.(var_id) = c.(var_id).
Proof.
  revert c. induction l as [|e l IH]; intros c Hc; [by exists c|].
  destruct (header_ref (nt_val e) c) as [id c1] eqn:E.
  assert (Hn : visit_next e c = Value (transition_json hs e, c1) ∧ agrees hs c1 ∧ field_offset c1 = field_offset c ∧ var_id c1 = var_id c).
  { unfold visit_next. rewrite E. by apply (header_ref_agrees hs) in E as (-> & H1 & Ho & Hv). }
  destruct Hn as (Hn & H1 & Ho & Hv). destruct (IH c1 H1) as (c2 & H2 & H3 & H4 & H5).
  exists c2. cbn [visit_all]. rewrite Hn. cbn [mbind outcome_mbind]. rewrite H2. split_and!; [done|done|congruence..].
Qed.

Lemma header_number_place hs i h : NoDup (hd_name <$> hs) → hs !! i = Some h → header_number hs h.(hd_name) = Z.of_nat i.
Proof.
  intros Hn Hi. unfold header_number. rewrite (proj2 (list_find_Some (λ x, hd_name x = hd_name h) hs i h)); [done|].
  split_and!; [done..|]. intros j y Hj Hlt He. assert (j = i) as ->; [|lia].
  eapply NoDup_lookup; [done| |]; rewrite list_lookup_fmap; [by rewrite Hj; cbn; rewrite He|by rewrite Hi].
Qed.

Lemma visit_header_json hs i h c :
  agrees hs c → header_number hs h.(hd_name) = Z.of_nat i → forallb plain h.(hd_fields) = true →
  ∃ c', visit_header h c = Value (header_json hs i h, c') ∧ agrees hs c' ∧ c'.(field_offset) = 0 ∧ c'.(var_id) = c.(var_id).
Proof.
  intros Hc Hi Hp. unfold visit_header, visit_next_table. destruct (header_ref (hd_name h) c) as [id c1] eqn:E.
  apply (header_ref_agrees hs) in E as (-> & H1 & _ & Hv); [|done]. rewrite visit_fields by done. cbn [mbind outcome_mbind].
  edestruct (visit_transitions hs) as (c2 & H2 & H3 & H4 & H5); [|rewrite H2]; [exact H1|].
  exists c2. unfold header_json. rewrite Hi. split_and!; [done|done|exact H4|by rewrite H5].
Qed.

Lemma visit_headers hs l i c :
  agrees hs c → (∀ j h, l !! j = Some h → header_number hs h.(hd_name) = Z.of_nat (i + j)) →
  Forall (λ h, forallb plain h.(hd_fields) = true) l →
  ∃ c', visit_all visit_header l c = Value (imap (λ j, header_json hs (i + j)) l, c') ∧
    agrees hs c' ∧ c'.(field_offset) = (match l with [] => c.(field_offset) | _ => 0 end) ∧ c'.(var_id) = c.(var_id).
Proof.
  revert i c. induction l as [|h l IH]; intros i c Hc Hi Hp; [by exists c|]. apply Forall_cons in Hp as [Hh Hl].
  pose proof (Hi 0%nat h eq_refl) as H0. rewrite Nat.add_0_r in H0.
  destruct (visit_header_json hs i h c) as (c1 & E1 & H1 & Ho1 & Hv1); [done..|].
  destruct (IH (S i) c1) as (c2 & E2 & H2 & Ho2 & Hv2); [done| |done|].
  { intros j x Hx. rewrite (Hi (S j) x Hx). lia. }
  exists c2. cbn [visit_all]. rewrite E1. cbn [mbind outcome_mbind]. rewrite E2, imap_cons, Nat.add_0_r.
  split_and!; [|done|rewrite Ho2; by destruct l|by rewrite Hv2].
  cbn [mbind outcome_mbind mret outcome_mret]. do 3 f_equal. apply imap_ext. intros j x _. cbn. f_equal. lia.
Qed.

Lemma visit_struct_json s c : forallb plain s.(sd_fields) = true →
  visit_struct s c = Value (struct_json c.(var_id) 0 s, set_offset 0 (set_var_id (i32 (c.(var_id) + 1)) c)).
Proof. intros Hs. unfold visit_struct, struct_json. rewrite visit_fields by done. cbn. by rewrite Z.add_0_r. Qed.

Lemma visit_structs l c first :
  c.(var_id) = first → 0 ≤ first → first + zlen l < 2147483648 → Forall (λ s, forallb plain s.(sd_fields) = true) l →
  ∃ c', visit_all visit_struct l c = Value (imap (struct_json first) l, c') ∧
    c'.(field_offset) = (match l with [] => c.(field_offset) | _ => 0 end).
Proof.
  revert c first. induction l as [|s l IH]; intros c first Hv H0 Hc Hp; [by exists c|]. apply Forall_cons in Hp as [Hs Hl].
  unfold zlen in *. cbn [length] in Hc.
  destruct (IH (set_offset 0 (set_var_id (i32 (c.(var_id) + 1)) c)) (first + 1)) as (c2 & E2 & Ho2); [cbn [var_id set_offset set_var_id]; rewrite i32_small; lia|unfold zlen; lia..|done|].
  exists c2. cbn [visit_all]. rewrite visit_struct_json by done. cbn [mbind outcome_mbind]. rewrite E2, imap_cons, Hv.
  split; [|rewrite Ho2; by destruct l]. cbn [mbind outcome_mbind mret outcome_mret]. do 3 f_equal.
  apply imap_ext. intros j x _. unfold compose, struct_json. by replace (first + 1 + Z.of_nat j) with (first + Z.of_nat (S j)) by lia.
Qed.

(** *** Emission: a value when the tree has one, and none otherwise *)
Definition emits {A} (o : outcome A) (b : bool) (x : A) : Prop := if b then o = Value x else ∀ y, o ≠ Value y.

Lemma emits_value {A} (x : A) : emits (mret x) true x.
Proof. done. Qed.

Lemma emits_bind {A B} (o : outcome A) (f : A → outcome B) b b' x y :
  emits o b x → emits (f x) b' y → emits (o ≫= f) (b && b') y.
Proof.
  destruct b; cbn; [by intros ->|]. intros Ho _ z. destruct o as [a| | | |]; [by destruct (Ho a)|done..].
Qed.

Lemma emits_then {A B} (o : outcome A) (f : A → outcome B) b x y : emits o b x → f x = Value y → emits (o ≫= f) b y.
Proof. intros Ho Hf. rewrite <- (andb_true_r b). by eapply emits_bind. Qed.

Lemma emits_list {A} (visit : A → outcome json) ok js l :
  (∀ x, emits (visit x) (ok x) (js x)) → emits (visit_list visit l) (forallb ok l) (js <$> l).
Proof.
  intros Hx. induction l as [|x l IH]; [done|]. cbn [visit_list forallb]. apply emits_bind with (js x); [done|].
  by eapply emits_then.
Qed.

Lemma visit_expr_json e : emits (visit_expr e) (has_json e) (expr_json e).
Proof.
  revert e. fix IH 1. intros [val|op lhs rhs|[recv|] name|caller params]; cbn [visit_expr has_json]; [done| | |done|done].
  - eapply emits_bind; [apply IH|]. eapply emits_then; [apply IH|done].
  - eapply emits_then; [apply IH|done].
Qed.

Lemma visit_stmt_json s : emits (visit_stmt s) (stmt_has_json s) (stmt_json s).
Proof.
  destruct s as [[[]| |]|]; try done; cbn [visit_stmt stmt_has_json stmt_json].
  - destruct caller; try done. eapply emits_then; [apply emits_list, visit_expr_json|done].
  - eapply emits_bind; [apply visit_expr_json|]. eapply emits_then; [apply visit_expr_json|done].
Qed.

Lemma visit_table_json t : emits (visit_table t) (forallb (λ k, has_json k.(mk_key)) t.(match_keys)) (table_json t).
Proof.
  eapply emits_then; [|done]. apply (emits_list _ (λ k, has_json k.(mk_key)) key_json). intros k.
  eapply emits_then; [apply visit_expr_json|done].
Qed.

Lemma visit_stage_json s : emits (visit_stage s) (matcher_has_json s.(st_matcher)) (stage_json s).
Proof.
  assert (Hm : emits (visit_matcher s.(st_matcher)) (matcher_has_json s.(st_matcher)) (matcher_json s.(st_matcher))).
  { destruct (st_matcher s) as [name|conds]; [done|]. eapply emits_then; [apply emits_list, visit_expr_json|done]. }
  by eapply emits_then.
Qed.

Lemma visit_control_json x :
  emits (visit_control x) (forallb (λ s, matcher_has_json s.(st_matcher)) x.(stages)) (control_json x).
Proof.
  eapply emits_then; [apply (emits_list _ (λ s, matcher_has_json s.(st_matcher)) stage_json), visit_stage_json|done].
Qed.

Lemma visit_actions l c : in_range c → Forall (λ a, forallb plain a.(ad_args) = true) l →
  ∃ x, emits (visit_all visit_action l c) (forallb (λ a, forallb stmt_has_json a.(stmts)) l) (actions_json c.(field_offset) l, set_offset x c).
Proof.
  revert c. induction l as [|a l IH]; intros c Hr Hp; [exists (field_offset c); by destruct c|]. apply Forall_cons in Hp as [Ha Hl].
  destruct (IH (set_offset (i32 (field_offset c + lengths (ad_args a))) c)) as [x Hx]; [apply i32_idemp|done|].
  assert (E : emits (visit_action a c) (forallb stmt_has_json a.(stmts))
    (action_json (field_offset c) a, set_offset (i32 (field_offset c + lengths (ad_args a))) c)).
  { unfold visit_action. rewrite visit_fields by done. cbn [mbind outcome_mbind].
    eapply emits_then; [apply emits_list, visit_stmt_json|done]. }
  exists x. cbn [visit_all forallb]. eapply emits_bind; [exact E|]. cbn beta iota.
  eapply emits_then; [exact Hx|done].
Qed.

Lemma headers_numbered l c : NoDup (hd_name <$> l) → 0 ≤ c.(var_id) → c.(var_id) + zlen l < 2147483648 →
  let c' := fold_left number_header l c in
  c'.(var_id) = c.(var_id) + zlen l ∧ c'.(field_offset) = c.(field_offset) ∧
  ∀ name, c'.(headers) !! name =
    match list_find (λ h, h.(hd_name) = name) l with Some (i, _) => Some (c.(var_id) + Z.of_nat i) | None => c.(headers) !! name end.
Proof.
  revert c. induction l as [|h l IH]; intros c Hn H0 Hc; cbn [fold_left]; unfold zlen in *; [cbn in *; split_and!; [lia|done|done]|].
  cbn [length] in Hc. apply NoDup_cons in Hn as [Hh Hn].
  assert (Hid : var_id (number_header c h) = var_id c + 1) by (cbn [number_header var_id set_var_id]; apply i32_small; lia).
  destruct (IH (number_header c h)) as (Hv & Ho & Hl); [done|rewrite Hid; lia..|].
  split_and!; [rewrite Hv, Hid; cbn [length]; lia|by rewrite Ho|]. intros name. rewrite Hl, Hid. cbn [list_find].
  destruct (decide (hd_name h = name)) as [<-|Hne].
  - destruct (list_find _ l) as [[i x]|] eqn:E.
    + apply list_find_Some in E as (Hi & Hx & _). destruct Hh. rewrite <- Hx. by apply list_elem_of_fmap_2, list_elem_of_lookup_2 with i.
    + cbn. rewrite lookup_insert_eq. f_equal. lia.
  - destruct (list_find _ l) as [[i x]|]; cbn; [f_equal; lia|]. by rewrite lookup_insert_ne.
Qed.

(** The pass writes what the tree says, and fails when a part of the tree has no JSON. *)
Lemma emitted_program t : program_ok t → emits (emit (Some t)) (program_has_json t) (program_json t).
Proof.
  intros [Ho Hc Hh Hs Ha Hn]. unfold emit, visit_program.
  destruct (headers_numbered t.(headers_def) (mkContext unset_offset ∅ 0)) as (Hv & Hf & Hl); [done|cbn; unfold zlen in *; lia..|].
  change (set_var_id 0 (mkContext unset_offset ∅ 0)) with (mkContext unset_offset ∅ 0).
  set (c := fold_left _ _ _) in *. assert (Hag : agrees t.(headers_def) c).
  { intros name. rewrite Hl. unfold header_number. by destruct (list_find _ _) as [[i x]|]. }
  destruct (visit_headers t.(headers_def) t.(headers_def) 0 c) as (c1 & E1 & _ & Ho1 & Hv1); [done| |done|].
  { intros j h Hj. by apply header_number_place. }
  rewrite E1. cbn [mbind outcome_mbind].
  destruct (visit_structs t.(structs_def) c1 (zlen t.(headers_def))) as (c2 & E2 & Ho2); [by rewrite Hv1, Hv|unfold zlen; lia|done|done|].
  rewrite E2. cbn [mbind outcome_mbind].
  assert (Hc2 : c2.(field_offset) = first_argument t).
  { rewrite Ho2, Ho1, Hf. unfold first_argument. by destruct (headers_def t), (structs_def t). }
  destruct (visit_actions t.(actions_def) c2) as [x Hx]; [|done|].
  { unfold in_range. rewrite Hc2. unfold first_argument. destruct (headers_def t), (structs_def t); apply i32_small; lia. }
  rewrite Hc2 in Hx. unfold program_has_json. rewrite <- andb_assoc. eapply emits_bind; [exact Hx|]. cbn beta iota.
  eapply emits_bind; [apply emits_list, visit_table_json|].
  eapply emits_then; [apply emits_list, visit_control_json|done].
Qed.
End emitter.

(** ** The first lines of the repository's firewall (testcases/firewall-out.json) *)
#[local] Open Scope string_scope.
Definition bits (len : Z) (name : string) : FieldDef := mkFieldDef (BitType len) name.
Definition var (name : string) : Expr := MemberOf None name.
Definition dot (e : Expr) (name : string) : Expr := MemberOf (Some e) name.

Definition demo_tree : RP4AST := mkRP4AST
  [mkHeaderDef "ethernet_t" [bits 48 "dstAddr"; bits 48 "srcAddr"; bits 16 "etherType"]
     (mkNextTable "etherType" [mkNextTableEntry 2048 "ipv4_t"; mkNextTableEntry (-1) ""]);
   mkHeaderDef "ipv4_t" [bits 8 "ttl"; bits 8 "protocol"] (mkNextTable "protocol" [mkNextTableEntry 6 "tcp_t"; mkNextTableEntry (-1) ""])]
  [mkStructDef "metadata" [] "meta";
   mkStructDef "ingress_variable" [mkFieldDef (RegisterType (BitType 1) 4096) "bloom_filter_1"; bits 32 "reg_pos_one"] "iv"]
  (mkHeaderSequence [] "hs")
  [mkActionDef "ipv4_forward" [bits 48 "dstAddr"; bits 9 "port"]
     [Some (ExprStmt (CallExpr (var "decrement") [dot (dot (var "hs") "ipv4") "ttl"])); Some (GotoStmt "tcp_valid_s")];
   mkActionDef "set_direction" [bits 1 "dir"] [Some (AssignStmt (dot (var "iv") "direction") (var "dir"))]]
  [mkTableDef "ipv4_lpm" [mkMatchKey (dot (dot (var "hs") "ipv4") "dstAddr") MATCH_LPM] 1024]
  [mkControlDef "rP4_Ingress" [mkStageDef "ipv4_lpm_s" "ipv4_t" (MatcherDefTable "ipv4_lpm") [(0, "ipv4_forward"); (-1, "drop")]]].

(** The argument of the second action is at 57, as in the repository's output. *)
Example demo_arguments :
  actions_json 0 (actions_def demo_tree) =
  [JsonObject [("args", JsonArray (fields_json 0 [bits 48 "dstAddr"; bits 9 "port"])); ("name", JsonString "ipv4_forward");
               ("ops", JsonArray [JsonObject [("args", JsonArray
                  [JsonObject [("name", JsonString "ttl");
                               ("recv", JsonObject [("name", JsonString "ipv4");
                                  ("recv", JsonObject [("name", JsonString "hs"); ("recv", JsonNull); ("type", JsonString "member_of")]);
                                  ("type", JsonString "member_of")]); ("type", JsonString "member_of")]]); ("op", JsonString "decrement")];
                 JsonObject [("op", JsonString "goto"); ("tag", JsonString "tcp_valid_s")]])];
   JsonObject [("args", JsonArray [JsonObject [("length", JsonInt 1); ("name", JsonString "dir"); ("offset", JsonInt 57);
                  ("size", JsonInt (-1)); ("type", JsonString "bit")]]);
               ("name", JsonString "set_direction");
               ("ops", JsonArray [JsonObject [("lhs", JsonObject [("name", JsonString "direction");
                     ("recv", JsonObject [("name", JsonString "iv"); ("recv", JsonNull); ("type", JsonString "member_of")]);
                     ("type", JsonString "member_of")]);
                  ("rhs", JsonObject [("name", JsonString "dir"); ("recv", JsonNull); ("type", JsonString "member_of")]);
                  ("type", JsonString "assign")]])]].
Proof. reflexivity. Qed.

Lemma demo_ok : program_ok 7 demo_tree.
Proof. split; [lia|done|by repeat constructor|by repeat constructor|by repeat constructor|]. apply (bool_decide_unpack _). by vm_compute. Qed.

(** The transition to [tcp_t], which is no header of this tree, goes to header 0. *)
Example demo_numbers : header_number (headers_def demo_tree) "tcp_t" = 0 ∧ header_number (headers_def demo_tree) "ipv4_t" = 1.
Proof. by vm_compute. Qed.

(** After a syntax error the main program writes [null]. *)
Example nothing_parsed : emit 7 0 0 None = Value JsonNull.
Proof. reflexivity. Qed.
