(* ===== verification/OldPrint.v ===== *)
(** * The old compiler: the tree printed (rp4c-old/src/parser/ast.cpp)

    What the main program writes to its output after a parse without errors: a line for each
    node, two blanks deeper than the node above. *)

From stdpp Require Import base numbers list gmap strings pretty.
From Stdlib Require Import ZArith Lia Ascii.
From S2P Require Import Prelude OldMemory P4Program P4Print OldCompiler.

#[local] Open Scope Z_scope.
#[local] Open Scope string_scope.

Fixpoint get_offset (width : nat) : string := match width with O => EmptyString | S n => " " +:+ get_offset n end.

(** A line of the output; [print_basic] is the line of a value. *)
Definition print_line (tab : nat) (s : string) : string := get_offset tab +:+ s +:+ endl.

(** [std::hex]: the digits of the number as an unsigned one. *)
Definition hex_digit (n : Z) : ascii := ascii_of_nat (Z.to_nat (if n <? 10 then 48 + n else 87 + n)%Z).
Fixpoint hex_loop (fuel : nat) (n : Z) (s : string) : string :=
  match fuel with
  | O => s
  | S fuel => if (n <? 16)%Z then String (hex_digit n) s else hex_loop fuel (n / 16)%Z (String (hex_digit (n mod 16)%Z) s)
  end.
Definition hex_text (n : Z) : string := hex_loop 8 (u32 n) EmptyString.

Fixpoint print_type (tab : nat) (t : FieldType) : string :=
  match t with
  | BitType len => print_line tab ("BIT<" +:+ pretty len +:+ ">")
  | RegisterType type size => print_line tab "REGISTER" +:+ print_type (2 + tab) type +:+ print_line (2 + tab) (pretty size)
  | NamedType type_name => print_line tab type_name
  end.
Definition print_field (tab : nat) (f : FieldDef) : string :=
  print_line tab "FIELD" +:+ print_type (2 + tab) f.(fd_type) +:+ print_line (2 + tab) f.(fd_name).
Definition print_next_entry (tab : nat) (e : NextTableEntry) : string :=
  if bool_decide (e.(nt_val) = EmptyString) then print_line tab "default: accept"
  else print_line tab (hex_text e.(nt_key) +:+ ": " +:+ e.(nt_val)).
Definition print_next_table (tab : nat) (t : NextTable) : string :=
  print_line tab ("NEXT_TABLE: " +:+ t.(tag_name)) +:+ cat (print_next_entry (2 + tab) <$> t.(nt_table)).
Definition print_header (tab : nat) (h : HeaderDef) : string :=
  print_line tab ("HEADER " +:+ h.(hd_name)) +:+ cat (print_field (2 + tab) <$> h.(hd_fields)) +:+ print_next_table (2 + tab) h.(next_table).
Definition print_struct (tab : nat) (s : StructDef) : string :=
  print_line tab ("STRUCT " +:+ s.(type_name) +:+ " " +:+ s.(var_name)) +:+ cat (print_field (2 + tab) <$> s.(sd_fields)).
Definition print_header_seq (tab : nat) (s : HeaderSequence) : string :=
  print_line tab ("HEADER_SEQUENCE " +:+ s.(hs_name)) +:+ cat (print_field (2 + tab) <$> s.(hs_fields)).

(** A pointer that is null is a line of its own. *)
Fixpoint print_expr (tab : nat) (e : Expr) : string :=
  match e with
  | IntLit val => print_line tab ("INT_LIT " +:+ pretty val)
  | BinaryExpr op lhs rhs => print_line tab ("BINARY OP " +:+ binary_op_text op) +:+ print_expr (2 + tab) lhs +:+ print_expr (2 + tab) rhs
  | MemberOf recv name =>
      print_line tab "MEMBER_OF" +:+ (match recv with None => print_line (2 + tab) "NULL" | Some x => print_expr (2 + tab) x end) +:+
      print_line (2 + tab) name
  | CallExpr caller params => print_line tab "CALL" +:+ print_expr (2 + tab) caller +:+ cat (print_expr (2 + tab) <$> params)
  end.
Definition print_stmt (tab : nat) (s : option Stmt) : string :=
  match s with
  | None => print_line tab "NULL"
  | Some (ExprStmt expr) => print_line tab "STATEMENT" +:+ print_expr (2 + tab) expr
  | Some (GotoStmt tag) => print_line tab ("GOTO " +:+ tag)
  | Some (AssignStmt lhs rhs) => print_line tab "ASSIGN" +:+ print_expr (2 + tab) lhs +:+ print_expr (2 + tab) rhs
  end.
Definition print_action (tab : nat) (a : ActionDef) : string :=
  print_line tab ("ACTION " +:+ a.(ad_name)) +:+ cat (print_field (2 + tab) <$> a.(ad_args)) +:+ cat (print_stmt (2 + tab) <$> a.(stmts)).

Definition print_key (tab : nat) (k : MatchKey) : string :=
  print_line tab "KEY" +:+ print_expr (2 + tab) k.(mk_key) +:+ print_line (2 + tab) (match_type_text k.(match_type)).
Definition print_table (tab : nat) (t : TableDef) : string :=
  print_line tab ("TABLE " +:+ t.(td_name) +:+ " " +:+ pretty t.(td_size)) +:+ cat (print_key (2 + tab) <$> t.(match_keys)).

Definition print_matcher (tab : nat) (m : MatcherDef) : string :=
  match m with
  | MatcherDefTable table_name => print_line tab ("MATCHER " +:+ table_name)
  | MatcherDefCond conds => print_line tab "MATCHER" +:+ cat (print_expr (2 + tab) <$> conds)
  end.
Definition print_stage (tab : nat) (s : StageDef) : string :=
  print_line tab ("STAGE " +:+ s.(st_name)) +:+ print_line tab ("  PARSER " +:+ s.(st_parser)) +:+ print_matcher (2 + tab) s.(st_matcher) +:+
  print_line tab "  EXECUTOR" +:+ cat ((λ act, print_line tab ("    " +:+ pretty act.1 +:+ " " +:+ act.2)) <$> s.(st_executor)).
Definition print_control (tab : nat) (c : ControlDef) : string :=
  print_line tab ("CONTROL " +:+ c.(cd_name)) +:+ cat (print_stage (2 + tab) <$> c.(stages)).

Definition print_program (tab : nat) (t : RP4AST) : string :=
  print_line tab "PROGRAM" +:+ cat (print_header (2 + tab) <$> t.(headers_def)) +:+ cat (print_struct (2 + tab) <$> t.(structs_def)) +:+
  print_header_seq (2 + tab) t.(header_seq) +:+ cat (print_action (2 + tab) <$> t.(actions_def)) +:+
  cat (print_table (2 + tab) <$> t.(tables_def)) +:+ cat (print_control (2 + tab) <$> t.(controls_def)).

(** [print_tree]: the main program calls it when there is a tree. *)
Definition print_tree (t : RP4AST) : string := print_program 0 t.

Example transition_printed : print_next_entry 4 (mkNextTableEntry 2048 "ipv4_t") = "    800: ipv4_t" +:+ endl.
Proof. vm_compute. reflexivity. Qed.
Example negative_transition_printed : print_next_entry 0 (mkNextTableEntry (-2) "ipv4_t") = "fffffffe: ipv4_t" +:+ endl.
Proof. vm_compute. reflexivity. Qed.
Example expression_printed : print_expr 0 (BinaryExpr OP_EQ (dot (var "iv") "direction") (IntLit (-1))) =
  "BINARY OP ==" +:+ endl +:+ "  MEMBER_OF" +:+ endl +:+ "    MEMBER_OF" +:+ endl +:+ "      NULL" +:+ endl +:+ "      iv" +:+ endl +:+
  "    direction" +:+ endl +:+ "  INT_LIT -1" +:+ endl.
Proof. vm_compute. reflexivity. Qed.
