(* ===== verification/OldGrammar.v ===== *)
(** * The old compiler: the grammar (rp4c-old/src/parser/yacc.y, rp4c-old/src/parser/parser.h, rp4c-old/src/main.cpp)

    The rules of the first compiler's grammar as relations between tokens and syntax trees,
    one for each nonterminal, and a reader by recursive descent that decides them.  The
    rules for expressions are ambiguous; bison resolves the conflicts by shifting, so the
    relations say: member and call bind before an operator, and operators, all alike, from the right. *)

From stdpp Require Import base numbers list strings.
From Stdlib Require Import ZArith Lia Ascii.
From S2P Require Import Prelude TableKey Json Lexer Reader OldMemory P4Program OldLexer OldCompiler OldPrint.

#[local] Open Scope Z_scope.

#[local] Abbreviation lang := (Reader.lang token).
#[local] Abbreviation reader := (Reader.reader token).
#[local] Abbreviation commas := (listed (Single ",")).

(** ** Fields *)
Inductive old_type_def : lang FieldType :=
| type_bits n : old_type_def [BIT; Single "<"; VALUE_INT n; Single ">"] (BitType n)
| type_register u t n : old_type_def u t →
    old_type_def (REGISTER :: Single "<" :: u ++ [Single ">"; Single "("; VALUE_INT n; Single ")"]) (RegisterType t n)
| type_named s : old_type_def [IDENTIFIER s] (NamedType s).
Inductive old_field_def : lang FieldDef :=
| field_rule u t s : old_type_def u t → old_field_def (u ++ [IDENTIFIER s]) (mkFieldDef t s).
Inductive old_field_line : lang FieldDef :=
| field_line_rule u f : old_field_def u f → old_field_line (u ++ [Single ";"]) f.

(** ** Headers and structs *)
Inductive old_next_tag : lang string :=
| tag_none : old_next_tag [] EmptyString
| tag_some s : old_next_tag [IDENTIFIER s] s.
Inductive old_next_table_entry : lang NextTableEntry :=
| entry_to n s : old_next_table_entry [VALUE_INT n; Single ":"; IDENTIFIER s; Single ";"] (mkNextTableEntry n s)
| entry_default : old_next_table_entry [DEFAULT; Single ":"; ACCEPT; Single ";"] (mkNextTableEntry (-1) EmptyString).
Inductive old_next_table_def : lang NextTable :=
| next_table_rule u s v es : old_next_tag u s → many old_next_table_entry v es →
    old_next_table_def (IMPLICIT :: PARSER :: Single "(" :: u ++ Single ")" :: Single "{" :: v ++ [Single "}"]) (mkNextTable s es).
Inductive old_header_def : lang HeaderDef :=
| header_rule s u fs v t : many old_field_line u fs → old_next_table_def v t →
    old_header_def (HDR :: IDENTIFIER s :: Single "{" :: u ++ v ++ [Single "}"]) (mkHeaderDef s fs t).
Inductive old_headers_def : lang (list HeaderDef) :=
| headers_rule u hs : many old_header_def u hs → old_headers_def (HEADERS :: Single "{" :: u ++ [Single "}"]) hs.
Inductive old_struct_def : lang StructDef :=
| struct_rule s u fs x : many old_field_line u fs →
    old_struct_def (STRUCT :: IDENTIFIER s :: Single "{" :: u ++ [Single "}"; IDENTIFIER x; Single ";"]) (mkStructDef s fs x).
Inductive old_structs_def : lang (list StructDef) :=
| structs_rule u ss : many old_struct_def u ss → old_structs_def (STRUCTS :: Single "{" :: u ++ [Single "}"]) ss.
Inductive old_header_seq : lang HeaderSequence :=
| header_seq_rule u fs x : many old_field_line u fs →
    old_header_seq (HEADER_SEQUENCE :: Single "{" :: u ++ [Single "}"; IDENTIFIER x; Single ";"]) (mkHeaderSequence fs x).

(** ** Expressions *)
Inductive old_operator : token → BinaryOp → Prop :=
| op_eq : old_operator EQU OP_EQ | op_ne : old_operator NEQ OP_NE
| op_lt : old_operator (Single "<") OP_LT | op_gt : old_operator (Single ">") OP_GT
| op_le : old_operator LEQ OP_LE | op_ge : old_operator GEQ OP_GE.

(** An expression without an operator outside the arguments of its calls, and an expression. *)
Inductive old_postfix : lang Expr :=
| postfix_int n : old_postfix [VALUE_INT n] (IntLit n)
| postfix_name s : old_postfix [IDENTIFIER s] (MemberOf None s)
| postfix_member u e s : old_postfix u e → old_postfix (u ++ [Single "."; IDENTIFIER s]) (MemberOf (Some e) s)
| postfix_call u e v l : old_postfix u e → commas old_expr v l → old_postfix (u ++ Single "(" :: v ++ [Single ")"]) (CallExpr e l)
with old_expr : lang Expr :=
| expr_postfix u e : old_postfix u e → old_expr u e
| expr_binary u e t op v x : old_postfix u e → old_operator t op → old_expr v x → old_expr (u ++ t :: v) (BinaryExpr op e x).

Definition is_member (e : Expr) : bool := match e with MemberOf _ _ => true | _ => false end.
Inductive old_lvalue : lang Expr :=
| lvalue_rule u e : old_postfix u e → is_member e = true → old_lvalue u e.

(** ** Actions *)
Inductive old_stmt : lang (option Stmt) :=
| stmt_none : old_stmt [] None
| stmt_assign u l v e : old_lvalue u l → old_expr v e → old_stmt (u ++ Single "=" :: v) (Some (AssignStmt l e))
| stmt_expr u e : old_expr u e → old_stmt u (Some (ExprStmt e))
| stmt_goto s : old_stmt [GOTO; IDENTIFIER s] (Some (GotoStmt s)).
Inductive old_stmt_line : lang (option Stmt) :=
| stmt_line_rule u s : old_stmt u s → old_stmt_line (u ++ [Single ";"]) s.
Inductive old_action_def : lang ActionDef :=
| action_rule s u fs v ss : commas old_field_def u fs → many old_stmt_line v ss →
    old_action_def (ACTION :: IDENTIFIER s :: Single "(" :: u ++ Single ")" :: Single "{" :: v ++ [Single "}"]) (mkActionDef s fs ss).
Inductive old_actions_def : lang (list ActionDef) :=
| actions_rule u acs : many old_action_def u acs → old_actions_def (ACTIONS :: Single "{" :: u ++ [Single "}"]) acs.

(** ** Tables *)
Inductive old_match_type : token → MatchType → Prop :=
| match_exact : old_match_type EXACT MATCH_EXACT | match_ternary : old_match_type TERNARY MATCH_TERNARY | match_lpm : old_match_type LPM MATCH_LPM.
Inductive old_match_key : lang MatchKey :=
| match_key_rule u e t m : old_lvalue u e → old_match_type t m → old_match_key (u ++ [Single ":"; t; Single ";"]) (mkMatchKey e m).
Inductive old_match_keys_def : lang (list MatchKey) :=
| match_keys_rule u ks : many old_match_key u ks → old_match_keys_def (KEY :: Single "=" :: Single "{" :: u ++ [Single "}"]) ks.
Inductive old_table : lang TableDef :=
| table_rule s u ks n : old_match_keys_def u ks →
    old_table (TABLE :: IDENTIFIER s :: Single "{" :: u ++ [SIZE; Single "="; VALUE_INT n; Single ";"; Single "}"]) (mkTableDef s ks n).
Inductive old_tables_def : lang (list TableDef) :=
| tables_rule u ts : many old_table u ts → old_tables_def (TABLES :: Single "{" :: u ++ [Single "}"]) ts.

(** ** Control *)
Inductive old_matcher_def : lang MatcherDef :=
| matcher_table s : old_matcher_def [IDENTIFIER s] (MatcherDefTable s)
| matcher_cond u l : commas old_expr u l → l ≠ [] → old_matcher_def (Single "{" :: u ++ [Single "}"]) (MatcherDefCond l).
Inductive old_action_entry : lang (Z * string) :=
| action_entry_value n s : old_action_entry [VALUE_INT n; Single ":"; IDENTIFIER s; Single ";"] (n, s)
| action_entry_default s : old_action_entry [DEFAULT; Single ":"; IDENTIFIER s; Single ";"] (-1, s).
Inductive old_stage_def : lang StageDef :=
| stage_rule s p u m v l : old_matcher_def u m → many old_action_entry v l →
    old_stage_def (STAGE :: IDENTIFIER s :: Single "{" :: PARSER :: Single ":" :: IDENTIFIER p :: Single ";" :: MATCHER :: Single ":" :: u ++
      Single ";" :: EXECUTOR :: Single "{" :: v ++ [Single "}"; Single "}"]) (mkStageDef s p m l).
Inductive old_control_def : lang ControlDef :=
| control_rule s u l : many old_stage_def u l → old_control_def (CONTROL :: IDENTIFIER s :: Single "{" :: u ++ [Single "}"]) (mkControlDef s l).

Inductive old_program : lang RP4AST :=
| old_program_rule u hs v ss w q x acs y ts z cs :
    old_headers_def u hs → old_structs_def v ss → old_header_seq w q → old_actions_def x acs → old_tables_def y ts → many old_control_def z cs →
    old_program (u ++ v ++ w ++ x ++ y ++ z) (mkRP4AST hs ss q acs ts cs).

(** ** Reading *)
Definition get_name : reader string := λ ts, match ts with IDENTIFIER s :: ts => Some (s, ts) | _ => None end.
Definition get_int : reader Z := λ ts, match ts with VALUE_INT n :: ts => Some (n, ts) | _ => None end.
#[local] Abbreviation get_commas := (read_listed (Single ",")).
#[local] Abbreviation braces := (between (Single "{") (Single "}")).

Fixpoint type_loop (fuel : nat) : reader FieldType :=
  match fuel with
  | O => fail
  | S fuel =>
      either (s ← get_name; mret (NamedType s))
        (either (_ ← skip BIT; _ ← skip (Single "<"); n ← get_int; _ ← skip (Single ">"); mret (BitType n))
          (_ ← skip REGISTER; _ ← skip (Single "<"); t ← type_loop fuel; _ ← skip (Single ">"); _ ← skip (Single "("); n ← get_int; _ ← skip (Single ")");
           mret (RegisterType t n)))
  end.
(** Every register takes a token. *)
Definition get_type_def : reader FieldType := λ ts, type_loop (length ts) ts.
Definition get_field_def : reader FieldDef := t ← get_type_def; s ← get_name; mret (mkFieldDef t s).
Definition get_field_line : reader FieldDef := f ← get_field_def; _ ← skip (Single ";"); mret f.

Definition get_next_table_entry : reader NextTableEntry :=
  either (n ← get_int; _ ← skip (Single ":"); s ← get_name; _ ← skip (Single ";"); mret (mkNextTableEntry n s))
    (_ ← skip DEFAULT; _ ← skip (Single ":"); _ ← skip ACCEPT; _ ← skip (Single ";"); mret (mkNextTableEntry (-1) EmptyString)).
Definition get_next_tag : reader string := either get_name (mret EmptyString).
Definition get_next_table_def : reader NextTable :=
  _ ← skip IMPLICIT; _ ← skip PARSER; s ← between (Single "(") (Single ")") get_next_tag; es ← braces (read_many get_next_table_entry); mret (mkNextTable s es).
Definition get_header_def : reader HeaderDef :=
  _ ← skip HDR; s ← get_name; '(fs, t) ← braces (fs ← read_many get_field_line; t ← get_next_table_def; mret (fs, t)); mret (mkHeaderDef s fs t).
Definition get_headers_def : reader (list HeaderDef) := _ ← skip HEADERS; braces (read_many get_header_def).
Definition get_struct_def : reader StructDef :=
  _ ← skip STRUCT; s ← get_name; fs ← braces (read_many get_field_line); x ← get_name; _ ← skip (Single ";"); mret (mkStructDef s fs x).
Definition get_structs_def : reader (list StructDef) := _ ← skip STRUCTS; braces (read_many get_struct_def).
Definition get_header_seq : reader HeaderSequence :=
  _ ← skip HEADER_SEQUENCE; fs ← braces (read_many get_field_line); x ← get_name; _ ← skip (Single ";"); mret (mkHeaderSequence fs x).

Definition get_operator : reader BinaryOp :=
  choice [(EQU, OP_EQ); (NEQ, OP_NE); (Single "<", OP_LT); (Single ">", OP_GT); (LEQ, OP_LE); (GEQ, OP_GE)].
Definition get_primary : reader Expr := either (n ← get_int; mret (IntLit n)) (s ← get_name; mret (MemberOf None s)).

(** Members and calls behind the expression [e]; [arg] reads an argument. *)
Fixpoint postfix_loop (arg : reader Expr) (fuel : nat) (e : Expr) : reader Expr :=
  match fuel with
  | O => mret e
  | S fuel =>
      either (_ ← skip (Single "."); s ← get_name; postfix_loop arg fuel (MemberOf (Some e) s))
        (either (l ← between (Single "(") (Single ")") (get_commas arg); postfix_loop arg fuel (CallExpr e l)) (mret e))
  end.
Fixpoint expr_loop (fuel : nat) : reader Expr :=
  match fuel with
  | O => fail
  | S fuel => λ ts,
      (e ← get_primary; e ← postfix_loop (expr_loop fuel) (length ts) e;
       either (op ← get_operator; x ← expr_loop fuel; mret (BinaryExpr op e x)) (mret e)) ts
  end.
(** Every part of an expression takes a token. *)
Definition get_expr : reader Expr := λ ts, expr_loop (length ts) ts.
Definition get_lvalue : reader Expr := e ← get_expr; if is_member e then mret e else fail.

Definition get_stmt : reader (option Stmt) :=
  either (_ ← skip GOTO; s ← get_name; mret (Some (GotoStmt s)))
    (either (l ← get_lvalue; _ ← skip (Single "="); e ← get_expr; mret (Some (AssignStmt l e)))
      (either (e ← get_expr; mret (Some (ExprStmt e))) (mret None))).
Definition get_stmt_line : reader (option Stmt) := s ← get_stmt; _ ← skip (Single ";"); mret s.
Definition get_action_def : reader ActionDef :=
  _ ← skip ACTION; s ← get_name; fs ← between (Single "(") (Single ")") (get_commas get_field_def); ss ← braces (read_many get_stmt_line); mret (mkActionDef s fs ss).
Definition get_actions_def : reader (list ActionDef) := _ ← skip ACTIONS; braces (read_many get_action_def).

Definition get_match_type : reader MatchType := choice [(EXACT, MATCH_EXACT); (TERNARY, MATCH_TERNARY); (LPM, MATCH_LPM)].
Definition get_match_key : reader MatchKey := e ← get_lvalue; _ ← skip (Single ":"); m ← get_match_type; _ ← skip (Single ";"); mret (mkMatchKey e m).
Definition get_match_keys_def : reader (list MatchKey) := _ ← skip KEY; _ ← skip (Single "="); braces (read_many get_match_key).
Definition get_table : reader TableDef :=
  _ ← skip TABLE; s ← get_name;
  '(ks, n) ← braces (ks ← get_match_keys_def; _ ← skip SIZE; _ ← skip (Single "="); n ← get_int; _ ← skip (Single ";"); mret (ks, n));
  mret (mkTableDef s ks n).
Definition get_tables_def : reader (list TableDef) := _ ← skip TABLES; braces (read_many get_table).

Definition get_matcher_def : reader MatcherDef :=
  either (s ← get_name; mret (MatcherDefTable s))
    (l ← braces (get_commas get_expr); match l with [] => fail | _ => mret (MatcherDefCond l) end).
Definition get_action_entry : reader (Z * string) :=
  k ← either get_int (_ ← skip DEFAULT; mret (-1)); _ ← skip (Single ":"); s ← get_name; _ ← skip (Single ";"); mret (k, s).
Definition get_stage_def : reader StageDef :=
  _ ← skip STAGE; s ← get_name;
  '(p, m, l) ← braces (_ ← skip PARSER; _ ← skip (Single ":"); p ← get_name; _ ← skip (Single ";");
                       _ ← skip MATCHER; _ ← skip (Single ":"); m ← get_matcher_def; _ ← skip (Single ";");
                       _ ← skip EXECUTOR; l ← braces (read_many get_action_entry); mret (p, m, l));
  mret (mkStageDef s p m l).
Definition get_control_def : reader ControlDef := _ ← skip CONTROL; s ← get_name; l ← braces (read_many get_stage_def); mret (mkControlDef s l).
Definition get_program : reader RP4AST :=
  hs ← get_headers_def; ss ← get_structs_def; q ← get_header_seq; acs ← get_actions_def; ts ← get_tables_def; cs ← read_many get_control_def;
  mret (mkRP4AST hs ss q acs ts cs).

(** [yyparse]: the parser accepts when no further control begins, whatever else follows. *)
Definition parse_tokens (ts : list token) : option RP4AST :=
  '(t, r) ← get_program ts; match r with CONTROL :: _ => None | _ => Some t end.
Definition parse (s : chars) : option RP4AST := parse_tokens (old_lex s).

(** The main program, for the text of a file: what it prints, and what it writes to
    [out.json]. *)
Definition main_output (unset_offset unset_len unset_size : Z) (s : chars) : string * outcome json :=
  (match parse s with Some t => print_tree t | None => EmptyString end, emit unset_offset unset_len unset_size (parse s)).

(** ** What is read is what the grammar says *)
Lemma get_name_some ts s ts' : get_name ts = Some (s, ts') → ts = IDENTIFIER s :: ts'.
Proof. unfold get_name. destruct ts as [|[] ts]; try done. by intros [= -> ->]. Qed.
Lemma get_int_some ts n ts' : get_int ts = Some (n, ts') → ts = VALUE_INT n :: ts'.
Proof. unfold get_int. destruct ts as [|[] ts]; try done. by intros [= -> ->]. Qed.

#[local] Ltac take_leaf H ::=
  lazymatch type of H with
  | get_name _ = Some _ => apply get_name_some in H; subst
  | get_int _ = Some _ => apply get_int_some in H; subst
  end.

#[export] Instance old_type_def_sound : Sound old_type_def get_type_def.
Proof.
  intros ts x r. unfold get_type_def. generalize (length ts) as n. intros n. revert ts x r.
  induction n as [|n IH]; intros ts x r H; [done|]. cbn [type_loop] in H.
  pose proof (IH : Sound old_type_def (type_loop n)) as Hs. take_apart; by_rule.
Qed.
#[export] Instance old_field_def_sound : Sound old_field_def get_field_def.
Proof. soundness get_field_def. Qed.
#[export] Instance old_field_line_sound : Sound old_field_line get_field_line.
Proof. soundness get_field_line. Qed.
#[export] Instance old_next_tag_sound : Sound old_next_tag get_next_tag.
Proof. soundness get_next_tag. Qed.
#[export] Instance old_next_table_entry_sound : Sound old_next_table_entry get_next_table_entry.
Proof. soundness get_next_table_entry. Qed.
#[export] Instance old_next_table_def_sound : Sound old_next_table_def get_next_table_def.
Proof. soundness get_next_table_def. Qed.
#[export] Instance old_header_def_sound : Sound old_header_def get_header_def.
Proof. soundness get_header_def. Qed.
#[export] Instance old_headers_def_sound : Sound old_headers_def get_headers_def.
Proof. soundness get_headers_def. Qed.
#[export] Instance old_struct_def_sound : Sound old_struct_def get_struct_def.
Proof. soundness get_struct_def. Qed.
#[export] Instance old_structs_def_sound : Sound old_structs_def get_structs_def.
Proof. soundness get_structs_def. Qed.
#[export] Instance old_header_seq_sound : Sound old_header_seq get_header_seq.
Proof. soundness get_header_seq. Qed.

Lemma get_operator_some ts o r : get_operator ts = Some (o, r) → ∃ t, ts = t :: r ∧ old_operator t o.
Proof. unfold get_operator. intros H. take_apart; eexists; (split; [reflexivity|constructor]). Qed.
Lemma get_primary_some ts e r : get_primary ts = Some (e, r) → ∃ u, ts = u ++ r ∧ old_postfix u e.
Proof. unfold get_primary. intros H. take_apart; by_rule. Qed.

Lemma postfix_loop_sound arg n : Sound old_expr arg → ∀ e u ts x r,
  old_postfix u e → postfix_loop arg n e ts = Some (x, r) → ∃ v, ts = v ++ r ∧ old_postfix (u ++ v) x.
Proof.
  intros Harg. induction n as [|n IH]; intros e u ts x r Hu H; cbn [postfix_loop] in H.
  - apply ret_some in H as [<- <-]. exists []. by rewrite app_nil_r.
  - apply either_some in H as [H|H]; [|apply either_some in H as [H|H]].
    + apply bind_some in H as (? & ? & ->%skip_some & H). apply bind_some in H as (s & ? & ->%get_name_some & H).
      eapply IH in H as (v & -> & Hv); [|by apply (postfix_member u e s)]. exists (Single "." :: IDENTIFIER s :: v). by rewrite <- app_assoc in Hv.
    + apply bind_some in H as (l & ? & (? & -> & (w & -> & Hw)%(listed_sound _ _ _ Harg))%between_some & H).
      eapply IH in H as (v & -> & Hv); [|by apply (postfix_call u e w l)]. exists (Single "(" :: w ++ Single ")" :: v).
      split; [cbn; by rewrite <- app_assoc|]. rewrite <- app_assoc in Hv. cbn in Hv. by rewrite <- app_assoc in Hv.
    + apply ret_some in H as [<- <-]. exists []. by rewrite app_nil_r.
Qed.

#[export] Instance old_expr_sound : Sound old_expr get_expr.
Proof.
  intros ts x r. unfold get_expr. generalize (length ts) as n. intros n. revert ts x r.
  induction n as [|n IH]; intros ts x r H; [done|]. cbn [expr_loop] in H.
  apply bind_some in H as (e & ? & (u & -> & Hu)%get_primary_some & H). apply bind_some in H as (e1 & ? & Hp & H).
  eapply (postfix_loop_sound _ _ IH) in Hp as (v & -> & Hv); [|done]. apply either_some in H as [H|H].
  - apply bind_some in H as (o & ? & (t & -> & Ht)%get_operator_some & H). apply bind_some in H as (y & ? & (w & -> & Hw)%IH & H).
    apply ret_some in H as [<- <-]. exists ((u ++ v) ++ t :: w). split; [by rewrite <- !app_assoc|by apply expr_binary].
  - apply ret_some in H as [<- <-]. exists (u ++ v). split; [by rewrite app_assoc|by constructor].
Qed.
#[export] Instance old_lvalue_sound : Sound old_lvalue get_lvalue.
Proof.
  intros ts x r H. unfold get_lvalue in H. apply bind_some in H as (e & ? & (u & -> & Hu)%old_expr_sound & H).
  destruct (is_member e) eqn:He; [|done]. apply ret_some in H as [<- <-]. exists u. split; [done|]. destruct Hu; by try constructor.
Qed.
#[export] Instance old_stmt_sound : Sound old_stmt get_stmt.
Proof. soundness get_stmt. Qed.
#[export] Instance old_stmt_line_sound : Sound old_stmt_line get_stmt_line.
Proof. soundness get_stmt_line. Qed.
#[export] Instance old_action_def_sound : Sound old_action_def get_action_def.
Proof. soundness get_action_def. Qed.
#[export] Instance old_actions_def_sound : Sound old_actions_def get_actions_def.
Proof. soundness get_actions_def. Qed.

Lemma get_match_type_some ts m r : get_match_type ts = Some (m, r) → ∃ t, ts = t :: r ∧ old_match_type t m.
Proof. unfold get_match_type. intros H. take_apart; eexists; (split; [reflexivity|constructor]). Qed.
#[export] Instance old_match_key_sound : Sound old_match_key get_match_key.
Proof.
  intros ts a r H. unfold get_match_key in H. take_apart.
  match goal with H : get_match_type _ = _ |- _ => apply get_match_type_some in H as (t & -> & Ht) end. take_apart. by_rule.
Qed.
#[export] Instance old_match_keys_def_sound : Sound old_match_keys_def get_match_keys_def.
Proof. soundness get_match_keys_def. Qed.
#[export] Instance old_table_sound : Sound old_table get_table.
Proof. soundness get_table. Qed.
#[export] Instance old_tables_def_sound : Sound old_tables_def get_tables_def.
Proof. soundness get_tables_def. Qed.
#[export] Instance old_matcher_def_sound : Sound old_matcher_def get_matcher_def.
Proof.
  intros ts m r H. unfold get_matcher_def in H. apply either_some in H as [H|H]; [take_apart; by_rule|].
  apply bind_some in H as (l & ? & (? & -> & (u & -> & Hu)%(listed_sound _ _ _ old_expr_sound))%between_some & H).
  destruct l as [|e l]; [done|]. apply ret_some in H as [<- <-]. exists (Single "{" :: u ++ [Single "}"]).
  split; [cbn; by rewrite <- app_assoc|by constructor].
Qed.
#[export] Instance old_action_entry_sound : Sound old_action_entry get_action_entry.
Proof. soundness get_action_entry. Qed.
#[export] Instance old_stage_def_sound : Sound old_stage_def get_stage_def.
Proof. soundness get_stage_def. Qed.
#[export] Instance old_control_def_sound : Sound old_control_def get_control_def.
Proof. soundness get_control_def. Qed.
#[export] Instance old_program_sound : Sound old_program get_program.
Proof. soundness get_program. Qed.

(** ** What the grammar says is read *)
Lemma type_loop_complete u t : old_type_def u t → ∀ n r, (length u ≤ n)%nat → type_loop n (u ++ r) = Some (t, r).
Proof.
  induction 1 as [k|u t k _ IH|s]; intros [|n] r Hn; cbn in Hn; try lia; [reflexivity| |reflexivity].
  cbn [app type_loop]. rewrite <- app_assoc. cbn [app]. do 2 rewrite either_right by reflexivity.
  eapply bind_found; [apply skip_eq|]. eapply bind_found; [apply skip_eq|]. rewrite length_app in Hn. cbn in Hn.
  eapply bind_found; [apply IH; lia|]. reflexivity.
Qed.
#[export] Instance old_type_def_complete : Complete old_type_def get_type_def.
Proof. intros u t r H. unfold get_type_def. apply type_loop_complete; [done|]. rewrite length_app. lia. Qed.
#[export] Instance old_field_def_complete : Complete old_field_def get_field_def.
Proof. completeness get_field_def. Qed.
#[export] Instance old_field_line_complete : Complete old_field_line get_field_line.
Proof. completeness get_field_line. Qed.
#[export] Instance old_next_table_entry_complete : Complete old_next_table_entry get_next_table_entry.
Proof. completeness get_next_table_entry. Qed.

Lemma next_tag_complete u s ts : old_next_tag u s → get_next_tag (u ++ Single ")" :: ts) = Some (s, Single ")" :: ts).
Proof. by destruct 1. Qed.

(** An expression ends where neither a member nor a call nor an operator follows. *)
Definition expr_ends (ts : list token) : Prop := skip (Single ".") ts = None ∧ skip (Single "(") ts = None ∧ get_operator ts = None.

Lemma postfix_start u e : old_postfix u e → ∃ t u', u = t :: u' ∧ ((∃ n, t = VALUE_INT n) ∨ (∃ s, t = IDENTIFIER s)).
Proof.
  induction 1 as [n|s|u e s _ (t & u' & -> & H)|u e v l _ (t & u' & -> & H) _]; [eauto 6|eauto 6| |]; cbn; eauto.
Qed.
Lemma expr_start u e : old_expr u e → ∃ t u', u = t :: u' ∧ ((∃ n, t = VALUE_INT n) ∨ (∃ s, t = IDENTIFIER s)).
Proof. destruct 1 as [u e H|u e t op v x H _ _]; destruct (postfix_start u e H) as (t' & u' & -> & Ht); cbn; eauto. Qed.

Lemma expr_loop_starts n t ts : (∀ k, t ≠ VALUE_INT k) → (∀ s, t ≠ IDENTIFIER s) → expr_loop n (t :: ts) = None.
Proof. intros Hi Hs. destruct n as [|n]; [done|]. cbn [expr_loop]. apply bind_none. destruct t; try done; [by destruct (Hs sv_str)|by destruct (Hi sv_int)]. Qed.

Lemma listed_short {A} comma (D : lang A) u l : listed comma D u l → listed comma (λ v a, D v a ∧ (length v ≤ length u)%nat) u l.
Proof.
  assert (Hm : ∀ n m u l, (n ≤ m)%nat → listed comma (λ v a, D v a ∧ (length v ≤ n)%nat) u l → listed comma (λ v a, D v a ∧ (length v ≤ m)%nat) u l).
  { intros n m u' l' Hnm. induction 1 as [|? ? []|? ? ? ? ? ? []]; constructor; try done; (split; [done|lia]). }
  induction 1 as [|u a Hu|u l v a _ IH Hv]; [constructor|by constructor|]. rewrite length_app. cbn [length].
  constructor; [|split; [done|lia]]. eapply Hm; [|exact IH]. lia.
Qed.

Section arguments.
Context (arg : reader Expr) (n : nat).
Context (Harg : ∀ u a r, old_expr u a → (length u < n)%nat → expr_ends r → arg (u ++ r) = Some (a, r)).
Context (Hstart : ∀ t ts, (∀ k, t ≠ VALUE_INT k) → (∀ s, t ≠ IDENTIFIER s) → arg (t :: ts) = None).

Lemma arguments_complete v l ts : commas old_expr v l → (length v < n)%nat → get_commas arg (v ++ Single ")" :: ts) = Some (l, Single ")" :: ts).
Proof.
  intros Hv Hn. apply listed_short in Hv. eapply (listed_complete _ arg (Single ",") expr_ends); [| | | | |done|exact Hv].
  - intros u a r [Hu Hl]. apply Harg; [done|lia].
  - done.
  - done.
  - intros us. by apply Hstart.
  - by apply Hstart.
Qed.

Lemma postfix_loop_some fuel e ts : ∃ x, postfix_loop arg fuel e ts = Some x.
Proof.
  revert e ts. induction fuel as [|fuel IH]; intros e ts; cbn [postfix_loop]; [by eexists|]. unfold either.
  do 2 (match goal with |- ∃ _, match ?p with _ => _ end = _ => destruct p; [by eexists|] end). by eexists.
Qed.

(** After its first token the parts of an expression are read one by one. *)
Lemma postfix_parts u e : old_postfix u e → (length u ≤ n)%nat →
  ∃ t u' e0 k, u = t :: u' ∧ (∀ r, get_primary (t :: r) = Some (e0, r)) ∧ (k ≤ length u')%nat ∧
    ∀ fuel r, postfix_loop arg (k + fuel) e0 (u' ++ r) = postfix_loop arg fuel e r.
Proof.
  induction 1 as [m|s|u e s _ IH|u e v l _ IH Hv]; intros Hn; rewrite ?length_app in Hn; cbn [length] in Hn.
  - exists (VALUE_INT m), [], (IntLit m), 0%nat. by split_and!.
  - exists (IDENTIFIER s), [], (MemberOf None s), 0%nat. by split_and!.
  - destruct IH as (t & u' & e0 & k & -> & Hp & Hk & Hl); [lia|]. exists t, (u' ++ [Single "."; IDENTIFIER s]), e0, (k + 1)%nat.
    split_and!; [done|done|rewrite length_app; cbn; lia|]. intros fuel r. rewrite <- app_assoc, <- Nat.add_assoc, Hl. cbn [app Nat.add postfix_loop].
    destruct (postfix_loop_some fuel (MemberOf (Some e) s) r) as [x Hx]. rewrite Hx. apply either_left. by do 2 (eapply bind_found; [reflexivity|]).
  - destruct IH as (t & u' & e0 & k & -> & Hp & Hk & Hl); [lia|]. rewrite length_app in Hn. cbn [length] in Hn.
    exists t, (u' ++ Single "(" :: v ++ [Single ")"]), e0, (k + 1)%nat.
    split_and!; [done|done|rewrite length_app; cbn; lia|]. intros fuel r. rewrite <- app_assoc, <- Nat.add_assoc, Hl. cbn [app Nat.add postfix_loop].
    destruct (postfix_loop_some fuel (CallExpr e l) r) as [x Hx]. rewrite Hx, either_right by (by apply bind_none). apply either_left.
    eapply bind_found; [|exact Hx]. apply between_eq. rewrite <- app_assoc. apply arguments_complete; [done|lia].
Qed.

Lemma postfix_complete u e : old_postfix u e → (length u ≤ n)%nat → ∀ fuel r, (length u ≤ fuel)%nat → skip (Single ".") r = None → skip (Single "(") r = None →
  ∃ t u' e0, u = t :: u' ∧ (∀ r, get_primary (t :: r) = Some (e0, r)) ∧ postfix_loop arg fuel e0 (u' ++ r) = Some (e, r).
Proof.
  intros Hu Hn fuel r Hf Hd Hc. destruct (postfix_parts u e Hu Hn) as (t & u' & e0 & k & -> & Hp & Hk & Hl). exists t, u', e0. split_and!; [done|done|].
  cbn [length] in Hf. replace fuel with (k + (fuel - k))%nat by lia. rewrite Hl.
  destruct (fuel - k)%nat; [done|]. cbn [postfix_loop]. rewrite either_right by (by apply bind_none).
  rewrite either_right; [done|]. apply bind_none. unfold between. by apply bind_none.
Qed.
End arguments.

Lemma operator_complete t o r : old_operator t o → get_operator (t :: r) = Some (o, r) ∧ skip (Single ".") (t :: r) = None ∧ skip (Single "(") (t :: r) = None.
Proof. by destruct 1. Qed.

Lemma expr_loop_complete n u e r : old_expr u e → (length u ≤ n)%nat → expr_ends r → expr_loop n (u ++ r) = Some (e, r).
Proof.
  revert u e r. induction n as [|n IH]; intros u e r Hu Hn Hr.
  - destruct (expr_start u e Hu) as (t & u' & -> & _). cbn in Hn. lia.
  - assert (Harg : ∀ v a q, old_expr v a → (length v < S n)%nat → expr_ends q → expr_loop n (v ++ q) = Some (a, q)) by (intros; apply IH; [done|lia|done]).
    pose proof (expr_loop_starts n) as Hs. destruct Hr as (Hd & Hc & Ho). destruct Hu as [u e Hp|u e t op v x Hp Ht Hv].
    + destruct (postfix_complete _ (S n) Harg Hs u e Hp Hn (length (u ++ r)) r) as (t & u' & e0 & -> & H0 & H1); [rewrite length_app; lia|done..|].
      cbn [app expr_loop]. eapply bind_found; [apply H0|]. eapply bind_found; [exact H1|]. rewrite either_right by (by apply bind_none). reflexivity.
    + destruct (operator_complete t op (v ++ r) Ht) as (Hto & Htd & Htc). rewrite length_app in Hn. cbn [length] in Hn.
      destruct (postfix_complete _ (S n) Harg Hs u e Hp ltac:(lia) (length ((u ++ t :: v) ++ r)) (t :: v ++ r)) as (t0 & u' & e0 & -> & H0 & H1);
        [rewrite !length_app; lia|done..|].
      cbn [app expr_loop]. rewrite <- app_assoc. cbn [app length] in H1 |- *. rewrite <- app_assoc in H1. cbn [app] in H1.
      eapply bind_found; [apply H0|]. eapply bind_found; [exact H1|]. apply either_left. eapply bind_found; [exact Hto|].
      eapply bind_found; [|reflexivity]. apply IH; [done|cbn in Hn; lia|done].
Qed.
Lemma get_expr_complete u e r : old_expr u e → expr_ends r → get_expr (u ++ r) = Some (e, r).
Proof. intros Hu Hr. unfold get_expr. apply expr_loop_complete; [done|rewrite length_app; lia|done]. Qed.
Lemma get_lvalue_complete u e r : old_lvalue u e → expr_ends r → get_lvalue (u ++ r) = Some (e, r).
Proof.
  intros [u' e' Hu He] Hr. unfold get_lvalue. eapply bind_found; [apply get_expr_complete; [by apply expr_postfix|done]|]. by rewrite He.
Qed.

Lemma expr_no_goto u e ts : old_expr u e → skip GOTO (u ++ ts) = None.
Proof. intros H. destruct (expr_start u e H) as (t & u' & -> & [[n ->]|[s ->]]); reflexivity. Qed.
Lemma lvalue_no_goto u e ts : old_lvalue u e → skip GOTO (u ++ ts) = None.
Proof. intros [u' e' H _]. by eapply expr_no_goto, expr_postfix. Qed.

Lemma stmt_complete u s r : old_stmt u s → get_stmt (u ++ Single ";" :: r) = Some (s, Single ";" :: r).
Proof.
  intros H. unfold get_stmt. destruct H as [|u l v e Hl He|u e He|s].
  - reflexivity.
  - rewrite either_right by (apply bind_none; rewrite <- app_assoc; by eapply lvalue_no_goto). apply either_left. rewrite <- app_assoc.
    eapply bind_found; [by apply get_lvalue_complete|]. eapply bind_found; [apply skip_eq|]. eapply bind_found; [by apply get_expr_complete|reflexivity].
  - rewrite either_right by (by eapply bind_none, expr_no_goto). rewrite either_right.
    + apply either_left. eapply bind_found; [by apply get_expr_complete|reflexivity].
    + unfold get_lvalue. unfold mbind at 1, reader_bind at 1. erewrite bind_eq by (by apply get_expr_complete). by destruct (is_member e).
  - reflexivity.
Qed.
#[export] Instance old_stmt_line_complete : Complete old_stmt_line get_stmt_line.
Proof.
  intros u s r [u' s' H]. unfold get_stmt_line. rewrite <- app_assoc. eapply bind_found; [by apply stmt_complete|]. reflexivity.
Qed.
Lemma get_match_type_complete t m r : old_match_type t m → get_match_type (t :: r) = Some (m, r).
Proof. by destruct 1. Qed.

#[local] Ltac ends := intros; first [exact I | reflexivity | split_and!; reflexivity].
#[local] Ltac finds_before ::=
  first [ eapply next_tag_complete; eassumption | eapply get_lvalue_complete; [eassumption|ends] | eapply get_expr_complete; [eassumption|ends]
        | eapply get_match_type_complete; eassumption
        | eapply (listed_complete old_field_def get_field_def (Single ",") (λ _, True)); [intros; by apply complete|ends|ends|ends|ends|ends|eassumption]
        | eapply (listed_complete old_expr get_expr (Single ",") expr_ends); [exact get_expr_complete|ends|ends|ends|ends|ends|eassumption] ].

#[export] Instance old_next_table_def_complete : Complete old_next_table_def get_next_table_def.
Proof. completeness get_next_table_def. Qed.
#[export] Instance old_header_def_complete : Complete old_header_def get_header_def.
Proof.
  completeness get_header_def. eapply bind_found; [apply skip_eq|]. eapply bind_found; [reflexivity|]. eapply (bind_found _ _ _ (_, _)); [|reflexivity].
  apply between_eq. eapply bind_found; [eapply many_complete; [exact complete|eassumption|done|]|].
  - by match goal with H : old_next_table_def _ _ |- _ => destruct H end.
  - cbn beta. finds.
Qed.
#[export] Instance old_headers_def_complete : Complete old_headers_def get_headers_def.
Proof. completeness get_headers_def. Qed.
#[export] Instance old_struct_def_complete : Complete old_struct_def get_struct_def.
Proof. completeness get_struct_def. Qed.
#[export] Instance old_structs_def_complete : Complete old_structs_def get_structs_def.
Proof. completeness get_structs_def. Qed.
#[export] Instance old_header_seq_complete : Complete old_header_seq get_header_seq.
Proof. completeness get_header_seq. Qed.
#[export] Instance old_action_def_complete : Complete old_action_def get_action_def.
Proof. completeness get_action_def. Qed.
#[export] Instance old_actions_def_complete : Complete old_actions_def get_actions_def.
Proof. completeness get_actions_def. Qed.
#[export] Instance old_match_key_complete : Complete old_match_key get_match_key.
Proof. completeness get_match_key. Qed.
#[export] Instance old_match_keys_def_complete : Complete old_match_keys_def get_match_keys_def.
Proof. completeness get_match_keys_def. Qed.
#[export] Instance old_table_complete : Complete old_table get_table.
Proof. completeness get_table. Qed.
#[export] Instance old_tables_def_complete : Complete old_tables_def get_tables_def.
Proof. completeness get_tables_def. Qed.
#[export] Instance old_matcher_def_complete : Complete old_matcher_def get_matcher_def.
Proof. completeness get_matcher_def. rewrite either_right by reflexivity. eapply bind_found; [finds|]. by destruct l. Qed.
#[export] Instance old_action_entry_complete : Complete old_action_entry get_action_entry.
Proof. completeness get_action_entry. Qed.
#[export] Instance old_stage_def_complete : Complete old_stage_def get_stage_def.
Proof. completeness get_stage_def. Qed.
#[export] Instance old_control_def_complete : Complete old_control_def get_control_def.
Proof. completeness get_control_def. Qed.

(** No control begins. *)
Definition no_control (r : list token) : Prop := head r ≠ Some CONTROL.
Lemma program_complete u t r : old_program u t → no_control r → get_program (u ++ r) = Some (t, r).
Proof.
  intros [] Hr. unfold get_program. rewrite <- !app_assoc. do 5 (eapply bind_found; [by apply complete|]).
  eapply bind_found; [|reflexivity]. eapply many_complete; [exact complete|done|done|].
  unfold get_control_def. apply bind_none. destruct r as [|c r]; [done|]. unfold skip. destruct (decide (CONTROL = c)) as [<-|]; [by destruct Hr|done].
Qed.

Lemma parse_decides ts t : parse_tokens ts = Some t ↔ ∃ u r, ts = u ++ r ∧ old_program u t ∧ no_control r.
Proof.
  unfold parse_tokens. split.
  - destruct (get_program ts) as [[t' r]|] eqn:E; [|done]. apply sound in E as (u & -> & Hu). cbn. intros H. exists u, r.
    destruct r as [|[] r]; try discriminate H; injection H as ->; done.
  - intros (u & r & -> & Hu & Hr). rewrite (program_complete u t r Hu Hr). cbn. by destruct r as [|[] r].
Qed.

(** C38. The first compiler's parser decides the language of its grammar: it accepts the
    texts whose tokens begin with a program of the grammar behind which no further control
    begins, and its tree is the one the grammar gives; so a text has one tree at most,
    though the rules for expressions are ambiguous. *)
Theorem accepted_by_grammar s t : parse s = Some t ↔ ∃ u r, old_lex s = u ++ r ∧ old_program u t ∧ no_control r.
Proof. apply parse_decides. Qed.

(** ** From the text to the JSON *)

(** The parser leaves a tree of a text whose tokens begin with a program of the grammar,
    behind which no further control begins. *)
Definition accepted (s : chars) (t : RP4AST) : Prop := ∃ u r, old_lex s = u ++ r ∧ old_program u t ∧ no_control r.


(** The first lines of the repository's firewall (testcases/firewall-mod.rp4). *)
Definition demo_text : chars :=
  text "#include <core.rp4>" ++ "010"%char ::
  text "headers { hdr ethernet_t { bit<48> dstAddr; bit<48> srcAddr; bit<16> etherType; " ++
  text "  implicit parser(etherType) { 0x0800: ipv4_t; default: accept; } } " ++
  text "  hdr ipv4_t { bit<8> ttl; bit<8> protocol; implicit parser(protocol) { 6: tcp_t; default: accept; } } } " ++
  text "structs { struct metadata { } meta; " ++
  text "  struct ingress_variable { register<bit<1>>(4096) bloom_filter_1; bit<32> reg_pos_one; } iv; } " ++
  text "header_sequence { } hs; " ++
  text "actions { action ipv4_forward(bit<48> dstAddr, bit<9> port) { decrement(hs.ipv4.ttl); goto tcp_valid_s; } " ++
  text "  action set_direction(bit<1> dir) { iv.direction = dir; } } " ++
  text "tables { table ipv4_lpm { key = { hs.ipv4.dstAddr: lpm; } size = 1024; } } " ++
  text "control rP4_Ingress { stage ipv4_lpm_s { parser: ipv4_t; matcher: ipv4_lpm; " ++
  text "  executor { 0: ipv4_forward; default: drop; } } }".

Lemma demo_parsed : parse demo_text = Some demo_tree.
Proof. vm_compute. reflexivity. Qed.

(** A program that assigns what a call returns. *)
Definition calling_text : chars :=
  text "headers { } structs { } header_sequence { } hs; actions { action f() { x = g(1); } } tables { }".
Definition calling_tree : RP4AST :=
  mkRP4AST [] [] (mkHeaderSequence [] "hs")
    [mkActionDef "f" [] [Some (AssignStmt (var "x") (CallExpr (var "g") [IntLit 1]))]] [] [].

Lemma calling_parsed : parse calling_text = Some calling_tree.
Proof. vm_compute. reflexivity. Qed.
Lemma calling_ok : program_ok 7 calling_tree.
Proof. split; [lia|done|by constructor|by constructor|by repeat constructor|constructor]. Qed.


(** Operators all bind alike, from the right, and members and calls before them. *)
Definition expression (s : string) : option Expr := fst <$> get_expr (old_lex (text s)).
Example operators_from_the_right : expression "a == b < c" = Some (BinaryExpr OP_EQ (var "a") (BinaryExpr OP_LT (var "b") (var "c"))).
Proof. vm_compute. reflexivity. Qed.
Example member_before_operator : expression "a == b.c(1)" = Some (BinaryExpr OP_EQ (var "a") (CallExpr (dot (var "b") "c") [IntLit 1])).
Proof. vm_compute. reflexivity. Qed.

(** Behind the controls anything may stand but a control. *)
Example rest_ignored : parse (demo_text ++ text " tables }") = Some demo_tree.
Proof. vm_compute. reflexivity. Qed.
Example broken_control : parse (demo_text ++ text " control }") = None.
Proof. vm_compute. reflexivity. Qed.
